(* ===== verification/_CoqProject ===== *)
-Q . S2P
Prelude.v
Serial.v
Gf256.v
FecEncoder.v
Gauss.v
FecDecoder.v
DecoderBounds.v
DecoderSound.v
FecWire.v
VideoRx.v
VideoRxSafe.v
VideoRxRun.v
VideoRxFaithful.v
FecSender.v
FecSenderSafe.v
EndToEnd.v
FrameEndToEnd.v
FrameQueue.v
FrameQueueSafe.v
RxCore.v
RxCoreSafe.v
Flow.v
FlowSafe.v
LoginLimiter.v
Watchdog.v
WatchdogSafe.v
Text.v
Utf8.v
Wire.v
Canon.v
Manifest.v
ManifestSafe.v
Swap.v
SwapSafe.v
DesktopControl.v
DesktopControlSafe.v
HostAuthority.v
HostAuthoritySafe.v
FileTransfer.v
QuWire.v
QuRelay.v
QuRelaySafe.v
QuCompositionSafe.v
AnnexB.v
Rtp.v
RtpSafe.v
H264.v
H265.v
H264Safe.v
H265Safe.v
Slice.v
ByteBuffer.v
InputWire.v
InputWireSafe.v
Broker.v
Resolution.v
PathSelect.v
Devices.v
Float64.v
Float64Safe.v
Cc.v
CcSafe.v
CcShared.v
Abr.v
Supervisor.v
Redact.v
Session.v
SessionSafe.v
InputSender.v
Cursor.v
Clipboard.v
HumanJson.v
KeyRouter.v
KeyRouterSafe.v
KeyHook.v
KeyHookSafe.v
