(* ===== verification/Prelude.v ===== *)
(** * Verification of betterparsec

    betterparsec streams a desktop: a host process ("streamer") encodes video
    frames, cuts them into chunks, protects the chunks with a sliding-window
    forward error correction over GF(256), and sends the symbols on an
    unreliable WebRTC DataChannel; a native client decodes the symbols, puts the
    frames together, and hands them to a decoder thread; acknowledgements and
    key-frame requests travel back. This library models that path, from the
    host's frame queue to the client's, and the negotiation that connects the
    two ends; the RTP track that carries the video of the other clients; the
    controllers that choose the bitrate; the wire on which input travels to the
    host; the second path of lossless tiles with its relay; the contract by
    which client and host share a desktop (displays, privacy, cursor, clipboard,
    files) and the host state behind it; the updater that installs the program;
    and the web server's login limiter. All sources are under src/.

    ** The parts, and the code they model

    - Prelude: the error type, machine integers ([in_u], [wrap]: a u8..u64 is a
      Z in its range, wrapped where the code wraps and saturated where it
      saturates), bytes and little-endian fields, bounded loops, list lemmas.
    - Serial: transport-core/src/fec.rs [serial_cmp], [seq_in_window] and
      video_rx.rs [seq_advanced], RFC 1982 comparisons of u32 numbers.
    - Gf256: fec.rs, the log and exp tables as [build_tables] fills them,
      [gf_mul], [gf_inv], [gf_coeff].
    - FecEncoder: fec.rs [FecEncoder]. State: the window, the next repair
      number, the redundancy accumulator. Operations: [push_source],
      [acknowledge], [set_redundancy].
    - Gauss: fec.rs [gaussian_elim].
    - FecDecoder: fec.rs [FecDecoder]. State: the BTreeMap of sources (a [gmap]
      read in key order), the retained repairs and their keys, the contiguous
      frontier, horizon and counters. Operations: [push_symbol] and all it
      calls. DecoderBounds and DecoderSound are about it.
    - FecWire: transport-core/src/fec_wire.rs, chunk headers, symbol and control
      messages of both versions, frame chunking, the CRC-32.
    - VideoRx: transport-core/src/video_rx.rs [VideoReceiver]: epochs, decoder
      events, reassembly, the reorder queue with its key-frame gate, the ACK
      cadence. VideoRxSafe, VideoRxRun and VideoRxFaithful are about it.
    - FecSender: streamer/src/transport/webrtc/fec_sender.rs, the handle, the
      task and what they share, as interleaved steps. FecSenderSafe is about it.
    - EndToEnd: FecSender, FecWire and FecDecoder composed. FrameEndToEnd adds
      the receiver: from the host's frame queue to the frames presented.
    - FrameQueue: client-transport/src/frame_queue.rs, the video and audio
      queues between the client's threads. FrameQueueSafe is about it.
    - RxCore: client-transport/src/capi.rs [RxCore], the receiver with its
      queues, lease and codec selection. RxCoreSafe is about it.
    - Flow: client-transport/src/flow.rs, the signaling state machine, its
      messages (common/src/api_bindings.rs), the session's calls into the
      receive core (session.rs), and the host's selection of version and epoch
      (streamer/src/main.rs, transport/webrtc/mod.rs, video.rs). FlowSafe.
    - Watchdog: client-transport/src/watchdog.rs, the stall ladder, the stage
      clocks and their supervisor. WatchdogSafe is about it.
    - LoginLimiter: src/api/login_limiter.rs.
    - Text, Utf8: what the code uses of str and of UTF-8 (standard library).
    - Wire: reading fields back out of an encoding, and the class [Codec] of what
      an encoder and its decoder promise.
    - Canon: tools/updater/src/canon.rs, the canonical text that is signed.
    - Manifest: tools/updater/src/manifest.rs, verify.rs and main.rs, signing and
      the verification of a staged directory. ManifestSafe is about it.
    - Swap: tools/updater/src/swap.rs and main.rs, the swap as a program over a
      file system that may fail or crash anywhere. SwapSafe is about it.
    - DesktopControl: common/src/desktop_control.rs, the envelope, the messages of
      its five domains, the ownership lease and the output selection.
      DesktopControlSafe is about it.
    - HostAuthority: app-native/src/host_authority.rs, privacy_mode.rs and
      output_registry.rs, the host's side of that contract. HostAuthoritySafe.
    - FileTransfer: common/src/file_transfer.rs, file names and the transfer's
      state machine.
    - QuWire: streamer/src/transport/webrtc/qu_wire.rs, the tile messages.
    - QuRelay: qu_relay.rs beside it, the relay's two tasks as interleaved steps,
      and app-native/src/qu_composition.rs, the client's map of tiles.
      QuRelaySafe and QuCompositionSafe are about them.
    - AnnexB, Rtp, H264, H265: streamer/src/transport/webrtc/video/annexb.rs,
      the readers and payloaders of video/h264/ and video/h265/, and what
      video.rs does with a frame ([send_decode_unit], the split, the packets).
      RtpSafe is the receiver of RFC 6184 and RFC 7798 as a specification;
      H264Safe and H265Safe are about the streams.
    - Slice: transport-core/src/slice.rs [SliceReassembler].
    - ByteBuffer, InputWire: common/src/buffer.rs and common/src/input_wire.rs,
      [InboundPacket] with its encoder and decoder, and
      streamer/src/transport/mod.rs [OutboundPacket::serialize] with the framing
      of web_socket. InputWireSafe is about them.
    - Broker: input-broker/src/protocol.rs, the keyboard broker's batches and
      its capture state.
    - Resolution, PathSelect: transport-core/src/resolution.rs and
      client-transport/src/path_select.rs, two ladders.
    - Devices: common/src/pen_touch.rs and mic.rs, contacts and the microphone.
    - Float64: the operations of f64 that the controllers use. Float64Safe gives a
      double's value as a rational and what rounding does to it.
    - Cc, CcShared: streamer/src/cc.rs, [CcController] with its window of service
      times, and [CcShared], the atomics that tasks of several sessions write. CcSafe is
      about the controller.
    - Abr: streamer/src/abr.rs and bitrate_apply.rs, the target followed from
      estimates and the machine that asks the host for it.
    - Supervisor: app-native/src/supervisor.rs, the restart budget and
      [FoundationSupervisor] with the child of app-native/src/host.rs, its calls as
      interleaved sections. Redact: the redactor of child logs in the same file.
    - Session: client-transport/src/session.rs, the retry ladder, the latches and the
      control part of [run_session]'s tick. SessionSafe is about it. InputSender: the
      handle of the same file that queues input.
    - Cursor: streamer/src/transport/cursor_wire.rs and cursor_tracker.rs, and
      client-transport/src/cursor.rs, the cursor's channel from host to client.
    - Clipboard: streamer/src/transport/clipboard.rs.
    - HumanJson: src/human_json.rs, comments in the settings file.
    - KeyRouter: app-native/src/input.rs [BrokerRouter] and [run_broker_capture], what
      the client makes of the broker's batches. KeyHook: the same file's window
      procedure ([handle], [translate], [CtrlTabRemap]) and low-level hook.
      KeyRouterSafe and KeyHookSafe are about them.

    ** How they interact

    The sender task owns a FecEncoder, chunks each frame with FecWire and sends
    the encoded symbols. The receive core admits a message by its kind and
    epoch, its VideoReceiver parses it, pushes the symbol into a FecDecoder,
    delivers the recovered chunks to the reassembly, and its events go through
    the core's key gate into the FrameQueue. Control messages of the core are
    parsed by the host and, if of the sender's version and epoch, reach the
    sender task. Flow says which version and epoch both ends use.

    The swap command verifies a staged directory with Manifest, over the text of
    Canon, before Swap touches the disk. HostAuthority uses the generations,
    reasons and messages of DesktopControl; a file offered there is named and
    received by FileTransfer. The relay parses and filters with QuWire what the
    composition then applies.

    A frame of the encoder is cut into units by AnnexB, which the payloader of
    H264 or H265 turns into packets through the class [Payloader] of Rtp. The
    sending loop gives the time each frame took to Cc, whose counters and targets
    reach the other tasks through CcShared; Abr combines that cap with the
    receiver's estimate ([effective_target_kbps]) and BitrateApplyMachine paces
    the calls to the host. What the client encodes with InputWire the streamer
    decodes with it, both over ByteBuffer; InputSender is what stands between them
    on the client, over a queue that is a class ([Mpsc], [MpscLaws]).

    A tick of the session takes acknowledgements and key-frame requests from the
    receive core ([RxCore]) and sends them as FecWire's control messages. The cursor's
    authority on the client is a lease of DesktopControl. The supervisor is proved
    against [SupervisedLaws], which the adapter of the Foundation process and the
    tests' child both meet. What Broker writes on its pipe KeyRouter reads; what it
    and KeyHook tell the host are packets of InputWire.

    ** What the theorems show

    - Codec: the tables are a field; the elimination reports only values that
      hold in every solution; every symbol of an encoder run is truthful; a
      decoder fed truthful symbols in any order and with any loss emits only
      sent payloads while it keeps its entries and gives up no loss span; a single
      loss is recovered; the
      frontier, the acknowledgements and the repair rate are exact.
    - Resources: every operation of decoder, receiver, sender, queues and core
      returns, with the caps the code names; every loop is bounded.
    - Wire: round trips in both directions, canonical parsing, rejected
      corruption.
    - Frames: what is presented is what was sent under that id, it follows the
      key-frame gate and the frame order (a CRC failure apart), and a complete frame
      is given back.
    - Concurrency: under every interleaving the sender sends truthful symbols
      and reports its exit once; the frame queue is the published log with cuts
      marked by discontinuities; recoveries are identified; a lease is granted
      once; a negotiated session sees its own epoch only.
    - Watchdog: for a driver that tears the session down at a reconnect, the
      supervisor refines three ladders of timed actions, silent after the reconnect.
    - Signaling: both ends agree on version and epoch, the sender accepts exactly the
      control messages the core sends (reserved v1 ACKs apart) and the core exactly
      the symbols of that version and epoch; the flow follows a fixed script.
    - Updater: two values have one canonical text exactly when they are equal; a
      directory verifies exactly when it is the signed set, its paths read with
      backslashes as slashes; no crash or fault
      loses the installed set; what is installed is what was verified.
    - Desktop control: every message round-trips through its codec and the
      envelope, and truncations are refused; the newest claim holds the lease
      across the wrap-around; the host's authority has one owner at a time and
      fails open; privacy is applied wholly or not at all; accepted file names
      stay in their directory; a transfer commits only what was agreed and hashed.
    - Tiles: as long as no write interrupts a frame half read, the relay handles the
      frames its peer framed; it sends exactly the documented filter of them, and
      passes only the client's messages back; the composition is what its history
      says, within its budget, and every outcome is the one due.
    - Video tracks: a receiver of the standard gives back the units of every
      H.264 and H.265 frame from its packets, whatever the fragments' size (H.264's
      parameter sets under half a packet each); the
      slices of a frame are collected as their history says.
    - Bitrate: the congestion controller's verdicts are those its history calls for,
      its target moves at cuts and probes only and keeps its bounds; a task of an old
      session changes nothing a new one reads; the adaptive target follows what the
      estimate bears and a loss takes its share off it, both as rationals; calls to the host are paced and the
      state tells what was acknowledged; a steady bandwidth settles the ladder of
      resolutions; a late result of an old path is without effect.
    - Input: what is encoded is decoded, whatever bytes follow; the decoder
      panics on one input only; what is sent back has the stated form; contacts,
      the microphone gate and the captured keys are functions of the history; a
      batch of packets is queued whole or not at all.
    - Keys: the batches of the broker reach the router whatever chunks they are
      read in; a key is down at the host only while it is held; a capture that ends
      lets go of every key or ends the session; the window's messages keep the host
      in step with the keyboard through the Ctrl+Tab remap, whose Tab and Ctrl are
      told from the keyboard's history.
    - Login: what the limiter knows of an address is the last window of a suffix of
      its own history, and a check's verdict is what that window says.
    - Session: the ladder gives a session up after five failed sends and not
      before, and over a dead channel it does so within 21 ticks.
    - Foundation process: at most one, tracked or being spawned; a stop without a
      spawn in flight leaves none; restarts in any window keep to the budget.
    - Cursor and clipboard: the client shows the host's last sample with the image
      it names or none; no text goes back to where it came from.
    - Logs and settings: a line is redacted as its pairs say; the preprocessor
      changes characters to blanks only, so positions are those of the file.
    - Findings: a loss span or an eviction lets the decoder emit a wrong
      payload; the byte cap can be exceeded by one entry; a CRC failure opens
      the key-frame gate; v1 ACKs with a reserved first byte are rejected; a
      full limiter forgets a blocked address; a frame re-arms a watchdog that has
      asked for a reconnect; a torn journal blocks the updater; a file named with
      a backslash escapes the hash check; a client message that interrupts the
      relay's read makes it lose its place in the stream; an invalidation of
      65536 tiles is sent as one of none; a bidi control passes the file-name
      check; a chunk beyond a total of 2^64-1 passes; H.264 parameter sets too large
      for a packet stop the video and a unit that ends at its start code panics
      the reader; an empty message on the RTT channel panics the decoder; a
      trigger rumble is sent with the motor rumble's type; a late loss report of
      an old session overwrites one not read yet; a stop during a spawn is undone
      by it, and a killed child is announced with pid 0; a space of several bytes
      panics the redactor, which also misses credentials after a scheme and quoted
      keys; an acknowledgement that wraps is not latched; an image of the cursor
      extracted late is not named; a text copied again is not published; a repeat
      of a remapped Tab after Ctrl's release leaves Tab down at the host.

    ** Conventions, fuel and bounds

    [None] from an operation is a panic of the code (an [expect], an underflow,
    an index out of range) or a loop that ran out of fuel; the theorems prove
    that it does not happen. A loop of the code is [loop_fuel n body]; n is the
    measure of its state (the length of the queue it drains, the number of
    entries it can remove, the unknowns it can solve) plus one, and
    [loop_fuel_spec] turns a decreasing measure into a proof that n suffices.
    Clocks, the outcome of a send or of a platform call, the branch a [select!]
    takes, where a crash falls and the order of a HashMap are arguments; so are
    SHA-256, Ed25519 and serde_json, with their documented laws as hypotheses. One lock-held section, or one step between awaits,
    is one transition; blocking waits take the other threads' steps as an
    argument. u64 counters of statistics are unbounded integers in the decoder
    and the receiver and wrap in the receive core. An f64 is a [spec_float] of the
    Standard Library with 53 bits of precision, rounded to nearest, ties to even;
    a float that is only carried is its bit pattern. An access to an atomic is one
    step and takes effect at once for all tasks (sequential consistency). The
    key, button and touch types of moonlight-common and the JSON of the general
    channel are the class [Moonlight], with what the code relies on in
    [MoonlightLaws].

    ** Not modelled

    The C ABI around the receive core (raw pointers), the async driving of
    WebSocket, WebRTC, TLS and moonlight-common, the sequence numbers and
    timestamps of the RTP track (a third-party crate), the native application's
    windows, decoders and shaders and the drivers (operating system and GPU
    APIs), the web server's handlers and JSON storage, the installer, and the
    TypeScript client: what they do is calls into code that is not in this
    repository; the Windows job object, the sampling of cursor and clipboard and
    tokio's queues are inputs or parameters for the same reason. Of the pure code, transport-core/src/fec_ratio.rs (whose bounds need the
    monotonicity of the rounding of f64), the table of transport-core/src/mode.rs and the
    records of common/src/media_caps.rs, which have no operation that changes state, are left
    out. *)
From stdpp Require Export base tactics option list gmap sorting.
From Stdlib Require Export ZArith Lia Btauto.

#[global] Open Scope Z_scope.

(** ** Notations, in a scope of their own *)

Declare Scope bp_scope.
Delimit Scope bp_scope with bp.
Notation "a '⊕' b" := (Z.lxor a b) (at level 50, left associativity) : bp_scope.
#[global] Open Scope bp_scope.

(** ** Hint databases and tactics *)

Create HintDb bytes discriminated.
Create HintDb serial discriminated.
Create HintDb decoder discriminated.

(** Splits every conjunction in sight and substitutes the equations. *)
Ltac crush :=
  repeat match goal with
    | H : _ /\ _ |- _ => destruct H
    | H : exists _, _ |- _ => destruct H
    | |- _ /\ _ => split
    end; simplify_eq/=; eauto; try lia.

(** Turns the boolean tests the code performs into propositions. *)
Ltac reflect_bools :=
  repeat match goal with
    | H : (_ <? _) = true |- _ => apply Z.ltb_lt in H
    | H : (_ <? _) = false |- _ => apply Z.ltb_ge in H
    | H : (_ <=? _) = true |- _ => apply Z.leb_le in H
    | H : (_ <=? _) = false |- _ => apply Z.leb_gt in H
    | H : (_ =? _) = true |- _ => apply Z.eqb_eq in H
    | H : (_ =? _) = false |- _ => apply Z.eqb_neq in H
    | H : (_ && _)%bool = true |- _ => apply andb_true_iff in H; destruct H
    | H : (_ || _)%bool = false |- _ => apply orb_false_iff in H; destruct H
    | H : negb _ = true |- _ => apply negb_true_iff in H
    | H : negb _ = false |- _ => apply negb_false_iff in H
    end.

(** Case analysis on the test of the first [if] of the goal. *)
Ltac case_test :=
  match goal with
  | |- context [if ?b then _ else _] => destruct b eqn:?; reflect_bools
  end.

(** Decides a closed decidable proposition by computation. *)
Ltac by_decide := apply (bool_decide_eq_true_1 _); vm_compute; reflexivity.

(** ** Fallible code: Rust's [Result] *)

Inductive result (A E : Type) : Type :=
| Ok (a : A)
| Err (e : E).
Arguments Ok {A E} a.
Arguments Err {A E} e.

(** Rust's [?] operator. *)
Notation "'let?' x ':=' e 'in' k" :=
  (match e with Ok x => k | Err err => Err err end)
  (at level 10, x name, e at level 100, k at level 200) : bp_scope.

(** [Option::ok_or]. *)
Definition ok_or {A E} (o : option A) (e : E) : result A E :=
  match o with Some a => Ok a | None => Err e end.

(** [Result::ok]. *)
Definition ok {A E} (r : result A E) : option A :=
  match r with Ok a => Some a | Err _ => None end.

Lemma Ok_inj {A E} (a b : A) : @Ok A E a = Ok b -> a = b.
Proof. by intros [= ->]. Qed.

Lemma ok_Some {A E} (r : result A E) a : ok r = Some a <-> r = Ok a.
Proof. destruct r; simpl; split; congruence. Qed.

(** ** Machine integers: a w-bit unsigned integer is a [Z] in [0, 2^w) *)

Definition in_u (w x : Z) : Prop := 0 <= x < 2 ^ w.
Definition wrap (w x : Z) : Z := x mod 2 ^ w.
Definition wrap32 (x : Z) : Z := x mod 4294967296.
Definition wrap16 (x : Z) : Z := x mod 65536.
Definition wrap64 (x : Z) : Z := x mod 18446744073709551616.
Notation in_u8 := (in_u 8).
Notation in_u16 := (in_u 16).
Notation in_u32 := (in_u 32).
Notation in_u64 := (in_u 64).

Definition usize_max : Z := 18446744073709551615.
Definition u64_max : Z := 18446744073709551615.
Definition u32_max : Z := 4294967295.
Definition u16_max : Z := 65535.

(** [saturating_sub] of every unsigned type; [saturating_add] and
    [saturating_mul] saturate at the given maximum. *)
Definition sat_sub (a b : Z) : Z := Z.max 0 (a - b).
Definition sat_add (max a b : Z) : Z := Z.min max (a + b).
Definition sat_mul (max a b : Z) : Z := Z.min max (a * b).
(** [Ord::clamp]. *)
Definition clamp (x lo hi : Z) : Z := Z.max lo (Z.min hi x).

Lemma in_u32_iff x : in_u32 x <-> 0 <= x < 4294967296.
Proof. reflexivity. Qed.

Lemma wrap32_range x : 0 <= wrap32 x < 4294967296.
Proof. apply Z.mod_pos_bound. lia. Qed.

Lemma wrap32_in x : in_u32 (wrap32 x).
Proof. apply wrap32_range. Qed.

Lemma wrap16_in x : in_u16 (wrap16 x).
Proof. apply Z.mod_pos_bound. lia. Qed.

Lemma wrap16_id x : in_u16 x -> wrap16 x = x.
Proof. intros H. by apply Z.mod_small. Qed.

Lemma wrap32_id x : in_u32 x -> wrap32 x = x.
Proof. intros H. by apply Z.mod_small. Qed.

Lemma wrap32_wrap_l x y : wrap32 (wrap32 x + y) = wrap32 (x + y).
Proof. unfold wrap32. by rewrite Zplus_mod_idemp_l. Qed.

Lemma wrap32_wrap_r x y : wrap32 (x + wrap32 y) = wrap32 (x + y).
Proof. unfold wrap32. by rewrite Zplus_mod_idemp_r. Qed.

Lemma wrap32_sub_l x y : wrap32 (wrap32 x - y) = wrap32 (x - y).
Proof. unfold wrap32. by rewrite Zminus_mod_idemp_l. Qed.

Lemma wrap32_sub_r x y : wrap32 (x - wrap32 y) = wrap32 (x - y).
Proof. unfold wrap32. by rewrite Zminus_mod_idemp_r. Qed.

Lemma wrap32_wrap x : wrap32 (wrap32 x) = wrap32 x.
Proof. unfold wrap32. apply Z.mod_mod. lia. Qed.

#[export] Hint Resolve wrap32_in wrap32_range : serial.
#[export] Hint Rewrite wrap32_wrap_l wrap32_wrap_r wrap32_sub_l wrap32_sub_r wrap32_wrap : wrap32.

(** Linear arithmetic through the wrap-around operations. *)
Ltac wrap_lia :=
  unfold in_u, wrap, wrap16, wrap32, wrap64, sat_sub, sat_add, sat_mul, clamp, usize_max,
    u64_max, u32_max, u16_max in *;
  Z.div_mod_to_equations; lia.

(** ** Lists: lengths as [usize], slices, chunks *)

(** [len()] of a Rust slice. *)
Definition len {A} (l : list A) : Z := Z.of_nat (length l).

(** [&buf[a..b]]. *)
Definition slice {A} (l : list A) (a b : nat) : list A := take (b - a) (drop a l).

Lemma len_nonneg {A} (l : list A) : 0 <= len l.
Proof. unfold len. lia. Qed.

Lemma len_nil {A} : len (@nil A) = 0.
Proof. done. Qed.

Lemma len_cons {A} (x : A) l : len (x :: l) = 1 + len l.
Proof. unfold len. simpl. lia. Qed.

Lemma len_app {A} (l k : list A) : len (l ++ k) = len l + len k.
Proof. unfold len. rewrite length_app. lia. Qed.

Lemma len_snoc {A} (l : list A) x : len (l ++ [x]) = len l + 1.
Proof. by rewrite len_app. Qed.

Lemma len_zero {A} (l : list A) : len l = 0 <-> l = [].
Proof. destruct l as [|x l]; [done|]. rewrite len_cons. pose proof (len_nonneg l). split; [lia|done]. Qed.

Lemma slice_app_l {A} (l k : list A) (n : nat) :
  length l = n -> slice (l ++ k) 0 n = l.
Proof. intros <-. unfold slice. rewrite drop_0, Nat.sub_0_r. apply take_app_length. Qed.

Lemma slice_shift {A} (l k : list A) (n a b : nat) :
  length l = n -> (n <= a)%nat -> slice (l ++ k) a b = slice k (a - n) (b - n).
Proof.
  intros <- Ha. unfold slice. rewrite drop_app_ge by done.
  f_equal. lia.
Qed.

Lemma length_slice {A} (l : list A) (a b : nat) :
  (a <= b)%nat -> (b <= length l)%nat -> length (slice l a b) = (b - a)%nat.
Proof. intros. unfold slice. rewrite length_take, length_drop. lia. Qed.

(** [slice::chunks(n)]: consecutive pieces of [n], the last one shorter. *)
Fixpoint chunks_fuel {A} (fuel n : nat) (l : list A) : list (list A) :=
  match fuel with
  | O => []
  | S fuel => match l with [] => [] | _ => take n l :: chunks_fuel fuel n (drop n l) end
  end.
Definition chunks {A} (n : nat) (l : list A) : list (list A) := chunks_fuel (length l) n l.

Lemma chunks_fuel_concat {A} fuel n (l : list A) :
  (0 < n)%nat -> (length l <= fuel)%nat -> concat (chunks_fuel fuel n l) = l.
Proof.
  intros Hn. revert l. induction fuel as [|fuel IH]; intros [|x l] Hl; simpl in *; try done; [lia|].
  rewrite IH.
  - destruct n as [|n]; [lia|]. simpl. f_equal. apply take_drop.
  - rewrite length_drop. simpl. lia.
Qed.

Lemma chunks_concat {A} n (l : list A) : (0 < n)%nat -> concat (chunks n l) = l.
Proof. intros. by apply chunks_fuel_concat. Qed.

Lemma chunks_fuel_length {A} fuel n (l : list A) :
  (0 < n)%nat -> (length l <= fuel)%nat ->
  len (chunks_fuel fuel n l) = (len l + Z.of_nat n - 1) / Z.of_nat n.
Proof.
  intros Hn. revert l. induction fuel as [|fuel IH]; intros [|x l] Hl.
  - cbn [chunks_fuel]. unfold len. simpl length. rewrite Z.div_small; lia.
  - simpl in Hl. lia.
  - cbn [chunks_fuel]. unfold len. simpl length. rewrite Z.div_small; lia.
  - cbn [chunks_fuel]. rewrite len_cons, IH by (rewrite length_drop; simpl in *; lia).
    unfold len in *. rewrite length_drop. set (m := length (x :: l)) in *.
    assert (0 < m)%nat by (subst m; simpl; lia).
    destruct (decide (m <= n)%nat).
    + replace (m - n)%nat with O by lia. rewrite (Z.div_small (Z.of_nat 0 + _ - 1)) by lia.
      rewrite <- (Z.div_unique (Z.of_nat m + Z.of_nat n - 1) _ 1 (Z.of_nat m - 1)); lia.
    + replace (Z.of_nat m + Z.of_nat n - 1)
        with (Z.of_nat (m - n) + Z.of_nat n - 1 + 1 * Z.of_nat n) by lia.
      rewrite Z.div_add by lia. lia.
Qed.

Lemma chunks_length {A} n (l : list A) :
  (0 < n)%nat -> len (chunks n l) = (len l + Z.of_nat n - 1) / Z.of_nat n.
Proof. intros. by apply chunks_fuel_length. Qed.

Lemma chunks_fuel_sizes {A} fuel n (l : list A) :
  (0 < n)%nat -> (length l <= fuel)%nat ->
  Forall (fun c => 0 < length c <= n)%nat (chunks_fuel fuel n l).
Proof.
  intros Hn. revert l. induction fuel as [|fuel IH]; intros [|x l] Hl; simpl in *; try by constructor.
  constructor.
  - rewrite length_take. simpl. lia.
  - apply IH. rewrite length_drop. simpl. lia.
Qed.

Lemma chunks_sizes {A} n (l : list A) :
  (0 < n)%nat -> Forall (fun c => 0 < length c <= n)%nat (chunks n l).
Proof. intros. by apply chunks_fuel_sizes. Qed.

Lemma chunks_fuel_lookup {A} fuel n (l : list A) i c :
  (0 < n)%nat -> (length l <= fuel)%nat -> chunks_fuel fuel n l !! i = Some c ->
  c = take n (drop (i * n) l) /\ (i * n < length l)%nat.
Proof.
  intros Hn. revert l i. induction fuel as [|fuel IH]; intros [|x l] i Hl H; cbn [chunks_fuel] in H; try done.
  destruct i as [|i]; cbn in H.
  - injection H as <-. split; [by rewrite drop_0|cbn; lia].
  - destruct (IH (drop n (x :: l)) i) as [-> Hi]; [rewrite length_drop; cbn in *; lia|exact H|].
    rewrite length_drop in Hi.
    split; [by rewrite drop_drop|lia].
Qed.

Lemma chunks_lookup {A} n (l : list A) i c :
  (0 < n)%nat -> chunks n l !! i = Some c -> c = take n (drop (i * n) l) /\ (i * n < length l)%nat.
Proof. intros. by eapply chunks_fuel_lookup. Qed.

(** Total lookup of a byte buffer: [0] outside, where the code zero-extends. *)
Definition at0 (l : list Z) (i : nat) : Z := default 0 (l !! i).

Lemma at0_ge l i : (length l <= i)%nat -> at0 l i = 0.
Proof. intros. unfold at0. by rewrite lookup_ge_None_2. Qed.

Lemma at0_app_l l k j : (j < length l)%nat -> at0 (l ++ k) j = at0 l j.
Proof. intros. unfold at0. by rewrite lookup_app_l. Qed.

Lemma at0_app_r l k j : (length l <= j)%nat -> at0 (l ++ k) j = at0 k (j - length l).
Proof. intros. unfold at0. by rewrite lookup_app_r. Qed.

(** ** Bytes and byte strings *)

Definition is_byte (x : Z) : Prop := 0 <= x < 256.
Definition bytes (l : list Z) : Prop := Forall is_byte l.

#[export] Instance is_byte_dec x : Decision (is_byte x) := ltac:(unfold is_byte; apply _).
#[export] Instance bytes_dec l : Decision (bytes l) := ltac:(unfold bytes; apply _).

Lemma bytes_nil : bytes [].
Proof. constructor. Qed.

Lemma bytes_cons x l : is_byte x -> bytes l -> bytes (x :: l).
Proof. by constructor. Qed.

Lemma bytes_app l k : bytes l -> bytes k -> bytes (l ++ k).
Proof. apply Forall_app_2. Qed.

Lemma bytes_take n l : bytes l -> bytes (take n l).
Proof. apply Forall_take. Qed.

Lemma bytes_drop n l : bytes l -> bytes (drop n l).
Proof. apply Forall_drop. Qed.

Lemma bytes_slice l a b : bytes l -> bytes (slice l a b).
Proof. intros. by apply bytes_take, bytes_drop. Qed.

Lemma bytes_lookup l i x : bytes l -> l !! i = Some x -> is_byte x.
Proof. intros H. by apply Forall_lookup_1. Qed.

Lemma is_byte_0 : is_byte 0.
Proof. unfold is_byte. lia. Qed.

Lemma is_byte_1 : is_byte 1.
Proof. unfold is_byte. lia. Qed.

Lemma is_byte_at0 l i : bytes l -> is_byte (at0 l i).
Proof.
  intros H. unfold at0. destruct (l !! i) eqn:E; simpl; [by eapply bytes_lookup|apply is_byte_0].
Qed.

Lemma bytes_replicate n : bytes (replicate n 0).
Proof. apply Forall_replicate, is_byte_0. Qed.

#[export] Hint Resolve bytes_nil bytes_cons bytes_app bytes_take bytes_drop bytes_slice
  is_byte_0 is_byte_1 is_byte_at0 bytes_replicate : bytes.
#[export] Hint Extern 1 (is_byte (Zpos _)) => (unfold is_byte; lia) : bytes.
#[export] Hint Extern 3 (bytes _) => assumption : bytes.

Ltac solve_bytes := auto 10 with bytes.

(** A test over all bytes. *)
Lemma byte_forall (P : Z -> bool) :
  forallb P (seqZ 0 256) = true -> forall x, is_byte x -> P x = true.
Proof.
  intros H x Hx. rewrite forallb_forall in H. apply H.
  apply list_elem_of_In, elem_of_seqZ. unfold is_byte in Hx. lia.
Qed.

(** Little-endian integers: [to_le_bytes] and [from_le_bytes]. *)
Fixpoint le_bytes (n : nat) (z : Z) : list Z :=
  match n with
  | O => []
  | S n => z mod 256 :: le_bytes n (z / 256)
  end.

Fixpoint of_le (l : list Z) : Z :=
  match l with
  | [] => 0
  | b :: l => b + 256 * of_le l
  end.

Notation u16_le := (le_bytes 2).
Notation u32_le := (le_bytes 4).

Lemma length_le_bytes n z : length (le_bytes n z) = n.
Proof. revert z. induction n; intros; simpl; auto. Qed.

Lemma bytes_le_bytes n z : bytes (le_bytes n z).
Proof.
  revert z. induction n; intros; simpl; [apply bytes_nil|apply bytes_cons; [|done]].
  unfold is_byte. apply Z.mod_pos_bound. lia.
Qed.

Lemma of_le_le_bytes n z : 0 <= z < 256 ^ Z.of_nat n -> of_le (le_bytes n z) = z.
Proof.
  revert z. induction n as [|n IH]; intros z Hz; cbn [le_bytes of_le].
  - simpl in Hz. lia.
  - rewrite Nat2Z.inj_succ, Z.pow_succ_r in Hz by lia. rewrite IH.
    + pose proof (Z_div_mod_eq_full z 256). lia.
    + split; [apply Z.div_pos; lia|]. apply Z.div_lt_upper_bound; lia.
Qed.

Lemma of_le_bound l : bytes l -> 0 <= of_le l < 256 ^ len l.
Proof.
  induction 1 as [|b l Hb _ IH]; [done|].
  rewrite len_cons, Z.pow_add_r by (pose proof (len_nonneg l); lia).
  cbn [of_le]. unfold is_byte in Hb. lia.
Qed.

Lemma le_bytes_of_le l : bytes l -> le_bytes (length l) (of_le l) = l.
Proof.
  induction 1 as [|b l Hb Hl IH]; [done|].
  cbn [length le_bytes of_le]. pose proof (of_le_bound l Hl). unfold is_byte in Hb.
  replace ((b + 256 * of_le l) mod 256) with b
    by (rewrite (Z.mul_comm 256), Z.mod_add, Z.mod_small; lia).
  replace ((b + 256 * of_le l) / 256) with (of_le l)
    by (rewrite (Z.mul_comm 256), Z.div_add, Z.div_small; lia).
  by rewrite IH.
Qed.

Lemma u32_le_id z : in_u32 z -> of_le (u32_le z) = z.
Proof. intros. by apply of_le_le_bytes. Qed.

Lemma u16_le_id z : in_u16 z -> of_le (u16_le z) = z.
Proof. intros. by apply of_le_le_bytes. Qed.

Lemma of_le_u32 l : bytes l -> length l = 4%nat -> in_u32 (of_le l).
Proof. intros H E. pose proof (of_le_bound l H). unfold len in *. rewrite E in *. done. Qed.

Lemma of_le_u16 l : bytes l -> length l = 2%nat -> in_u16 (of_le l).
Proof. intros H E. pose proof (of_le_bound l H). unfold len in *. rewrite E in *. done. Qed.

(** [uN::from_le_bytes(buf[a..b])] *)
Definition le_field (buf : list Z) (a b : nat) : Z := of_le (slice buf a b).

Definition bool_byte (b : bool) : Z := if b then 1 else 0.

Lemma u16_len_id {A} (p : list A) : len p <= 65535 -> of_le (u16_le (wrap16 (len p))) = len p.
Proof.
  intros H. pose proof (len_nonneg p). rewrite u16_le_id; [wrap_lia|]. unfold in_u. wrap_lia.
Qed.

Lemma len_le_bytes n z : len (le_bytes n z) = Z.of_nat n.
Proof. unfold len. by rewrite length_le_bytes. Qed.

Ltac wire_len := rewrite ?len_app, ?len_le_bytes, ?len_cons, ?len_nil.

Lemma le_bytes_field buf a b n :
  bytes buf -> (a + n = b)%nat -> (b <= length buf)%nat -> le_bytes n (le_field buf a b) = slice buf a b.
Proof.
  intros Hb <- Hl. unfold le_field.
  pose proof (le_bytes_of_le (slice buf a (a + n)) ltac:(auto with bytes)) as H.
  rewrite length_slice in H by lia. by replace (a + n - a)%nat with n in H by lia.
Qed.

Lemma slice_drop {A} (l : list A) a b : (a <= b)%nat -> slice l a b ++ drop b l = drop a l.
Proof.
  intros H. unfold slice. rewrite <- (take_drop (b - a) (drop a l)) at 2. f_equal. rewrite drop_drop.
  f_equal. lia.
Qed.

Lemma le_field_bound buf a b n : bytes buf -> (a + n = b)%nat -> (b <= length buf)%nat ->
  0 <= le_field buf a b < 256 ^ Z.of_nat n.
Proof.
  intros Hb <- Hl. unfold le_field.
  pose proof (of_le_bound (slice buf a (a + n)) ltac:(auto with bytes)) as H.
  unfold len in H. rewrite length_slice in H by lia. by replace (a + n - a)%nat with n in H by lia.
Qed.

Lemma le_field_nonneg buf a b : bytes buf -> 0 <= le_field buf a b.
Proof.
  intros Hb. unfold le_field. pose proof (of_le_bound (slice buf a b) ltac:(auto with bytes)). lia.
Qed.

#[export] Hint Resolve bytes_le_bytes : bytes.
#[export] Hint Rewrite u32_le_id u16_le_id using assumption : codec.
#[export] Hint Rewrite length_le_bytes @length_app @length_cons : codec.

(** ** Loops

    A Rust [loop]/[while] is its body, a function that either goes round again
    with a new state ([inl]) or leaves with a result ([inr]); [None] says the
    fuel ran out, which every theorem about a loop excludes. *)
Fixpoint loop_fuel {S R} (fuel : nat) (body : S -> S + R) (s : S) : option R :=
  match fuel with
  | O => None
  | S fuel => match body s with inl s' => loop_fuel fuel body s' | inr r => Some r end
  end.

Section loops.
Context {S R : Type} (body : S -> S + R).

(** Total correctness of a loop: [P n s] is the invariant, with [n] a bound on
    the rounds still to go. *)
Lemma loop_fuel_spec (P : nat -> S -> Prop) (Q : R -> Prop) :
  (forall n s s', P n s -> body s = inl s' -> exists m, (m < n)%nat /\ P m s') ->
  (forall n s r, P n s -> body s = inr r -> Q r) ->
  forall fuel n s, P n s -> (n < fuel)%nat ->
  exists r, loop_fuel fuel body s = Some r /\ Q r.
Proof.
  intros Hstep Hend fuel. induction fuel as [|fuel IH]; intros n s HP Hn; [lia|].
  simpl. destruct (body s) as [s'|r] eqn:E; [|eauto].
  destruct (Hstep _ _ _ HP E) as (m & Hm & HP'). apply (IH m); [done|lia].
Qed.

(** Partial correctness: what the result satisfies whenever the loop ends. *)
Lemma loop_fuel_inv (I : S -> Prop) (Q : R -> Prop) :
  (forall s s', I s -> body s = inl s' -> I s') ->
  (forall s r, I s -> body s = inr r -> Q r) ->
  forall fuel s r, I s -> loop_fuel fuel body s = Some r -> Q r.
Proof.
  intros Hstep Hend fuel. induction fuel as [|fuel IH]; intros s r HI Hr; [done|].
  simpl in Hr. destruct (body s) as [s'|r'] eqn:E; simplify_eq; eauto.
Qed.

(** More fuel does not change a result. *)
Lemma loop_fuel_mono fuel fuel' s r :
  (fuel <= fuel')%nat -> loop_fuel fuel body s = Some r -> loop_fuel fuel' body s = Some r.
Proof.
  revert fuel' s. induction fuel as [|fuel IH]; intros fuel' s Hle Hr; [done|].
  destruct fuel' as [|fuel']; [lia|]. simpl in *. destruct (body s); [|done]. apply IH; [lia|done].
Qed.
End loops.

(** ** Sums *)

(** [iter().sum()]. *)
Definition sumZ (l : list Z) : Z := foldr Z.add 0 l.

Lemma sumZ_cons x l : sumZ (x :: l) = x + sumZ l.
Proof. done. Qed.

Lemma sumZ_replicate {A} (f : A -> Z) n x : sumZ (f <$> replicate n x) = Z.of_nat n * f x.
Proof.
  induction n as [|n IH]; [done|]. cbn [replicate]. rewrite fmap_cons, sumZ_cons, IH. lia.
Qed.

Lemma sumZ_app l k : sumZ (l ++ k) = sumZ l + sumZ k.
Proof. induction l as [|x l IH]; simpl; [done|]. unfold sumZ in *. simpl. lia. Qed.

Lemma sumZ_nonneg l : Forall (fun x => 0 <= x) l -> 0 <= sumZ l.
Proof. unfold sumZ. induction 1; simpl; lia. Qed.

#[export] Instance sumZ_perm : Proper ((≡ₚ) ==> eq) sumZ.
Proof. intros l k H. unfold sumZ. induction H; simpl; lia. Qed.

(** [iter().max()], with the default the code supplies. *)
Definition maxZ (dflt : Z) (l : list Z) : Z :=
  match l with [] => dflt | x :: l => foldr Z.max x l end.

Lemma maxZ_ge dflt l x : x ∈ l -> x <= maxZ dflt l.
Proof.
  destruct l as [|y l]; [by intros ?%elem_of_nil|]. simpl. intros Hx.
  revert y Hx. induction l as [|z l IH]; intros y Hx; simpl.
  - apply list_elem_of_singleton in Hx. lia.
  - apply elem_of_cons in Hx as [->|[->|Hx]%elem_of_cons].
    + transitivity (foldr Z.max y l); [apply IH; left|lia].
    + lia.
    + transitivity (foldr Z.max y l); [apply IH; by right|lia].
Qed.

(** ** Maps from integers: total cost, ordered keys (a [BTreeMap] iterates in key order) *)

Section costs.
Context {K A : Type} `{Countable K} (cost : A -> Z).

Definition map_cost (m : gmap K A) : Z := map_fold (fun _ a acc => cost a + acc) 0 m.

Lemma map_cost_empty : map_cost ∅ = 0.
Proof. apply map_fold_empty. Qed.

Lemma map_cost_insert_new m k a :
  m !! k = None -> map_cost (<[k:=a]> m) = cost a + map_cost m.
Proof. intros. unfold map_cost. rewrite map_fold_insert_L; [done| |done]. intros. lia. Qed.

Lemma map_cost_delete m k a :
  m !! k = Some a -> map_cost m = cost a + map_cost (delete k m).
Proof. intros. unfold map_cost. rewrite (map_fold_delete_L _ _ k a m); [done| |done]. intros. lia. Qed.

Lemma map_cost_insert_old m k a b :
  m !! k = Some b -> map_cost (<[k:=a]> m) = map_cost m - cost b + cost a.
Proof.
  intros Hb. rewrite <- insert_delete_eq, map_cost_insert_new by apply lookup_delete_eq.
  rewrite (map_cost_delete m k b Hb). lia.
Qed.

Lemma map_cost_nonneg m : (forall a, 0 <= cost a) -> 0 <= map_cost m.
Proof.
  intros Hc. induction m as [|k a m Hk IH] using map_ind; [by rewrite map_cost_empty|].
  rewrite map_cost_insert_new by done. specialize (Hc a). lia.
Qed.
End costs.

(** The keys of a [BTreeMap<u32, _>], ascending. *)
Definition sorted_keys {A} (m : gmap Z A) : list Z := merge_sort Z.le (map_to_list m).*1.

Lemma elem_of_sorted_keys {A} (m : gmap Z A) k : k ∈ sorted_keys m <-> is_Some (m !! k).
Proof.
  unfold sorted_keys. rewrite merge_sort_Permutation, list_elem_of_fmap. split.
  - intros ([k' a] & -> & H%elem_of_map_to_list). eauto.
  - intros [a H]. exists (k, a). split; [done|]. by apply elem_of_map_to_list.
Qed.

Lemma NoDup_sorted_keys {A} (m : gmap Z A) : NoDup (sorted_keys m).
Proof. unfold sorted_keys. rewrite merge_sort_Permutation. apply NoDup_fst_map_to_list. Qed.

Lemma length_sorted_keys {A} (m : gmap Z A) : length (sorted_keys m) = size m.
Proof.
  unfold sorted_keys. rewrite merge_sort_Permutation, length_fmap. apply length_map_to_list.
Qed.

(** ** Filters *)

Lemma filter_fmap {A B} (f : A -> B) (P : B -> Prop) `{!forall x, Decision (P x)} (l : list A) :
  filter P (f <$> l) = f <$> filter (fun a => P (f a)) l.
Proof.
  induction l as [|a l IH]; [done|]. rewrite fmap_cons, !filter_cons, IH. by case_decide.
Qed.

Lemma filter_ext_in {A} (P Q : A -> Prop) `{!forall x, Decision (P x)} `{!forall x, Decision (Q x)} (l : list A) :
  (forall a, a ∈ l -> P a <-> Q a) -> filter P l = filter Q l.
Proof.
  induction l as [|a l IH]; intros Hpq; [done|]. rewrite !filter_cons, IH.
  - repeat case_decide; rewrite (Hpq a) in * by left; done.
  - intros b Hb. apply Hpq. by right.
Qed.
