(* ===== verification/Serial.v ===== *)
(** * Serial arithmetic on u32 sequence numbers (transport-core/src/fec.rs,
    transport-core/src/video_rx.rs).

    The comparisons of RFC 1982 that the codec and the receiver use, the
    bounded serial interval [base, base + len), and the list of sequence
    numbers a wrapping [while seq != end] loop visits. *)
From S2P Require Import Prelude.

(** RFC 1982 ordering; [None] is the unordered half-range case. *)
Definition serial_cmp (a b : Z) : option comparison :=
  if a =? b then Some Eq
  else
    let distance := wrap32 (a - b) in
    if distance =? 2147483648 then None
    else if distance <? 2147483648 then Some Gt
    else Some Lt.

Definition seq_in_window (seq base ln : Z) : bool := wrap32 (seq - base) <? ln.

(** Whether [candidate] is RFC 1982-forward from [previous]. *)
Definition seq_advanced (candidate previous : Z) : bool :=
  let distance := wrap32 (candidate - previous) in
  (negb (distance =? 0) && (distance <? 2147483648))%bool.

(** The sequence numbers visited by
    [let mut seq = base; while seq != end { ..; seq = seq.wrapping_add(1) }]. *)
Definition serial_range (base end_ : Z) : list Z :=
  (fun i => wrap32 (base + i)) <$> seqZ 0 (wrap32 (end_ - base)).

Lemma serial_cmp_refl a : serial_cmp a a = Some Eq.
Proof. unfold serial_cmp. by rewrite Z.eqb_refl. Qed.

Lemma serial_cmp_Eq a b : serial_cmp a b = Some Eq <-> a = b.
Proof.
  unfold serial_cmp. repeat case_test; split; intros; simplify_eq; done.
Qed.

Lemma serial_cmp_Gt a b :
  in_u32 a -> in_u32 b -> serial_cmp a b = Some Gt <-> seq_advanced a b = true.
Proof.
  intros Ha Hb. unfold serial_cmp, seq_advanced.
  destruct (Z.eqb_spec a b) as [->|Hne].
  - rewrite Z.sub_diag. done.
  - assert (wrap32 (a - b) <> 0) by wrap_lia.
    destruct (Z.eqb_spec (wrap32 (a - b)) 0); [done|]. simpl.
    destruct (Z.eqb_spec (wrap32 (a - b)) 2147483648) as [E|E];
      [rewrite E; done|].
    destruct (wrap32 (a - b) <? 2147483648) eqn:?; split; congruence.
Qed.

(** [serial_cmp] is antisymmetric: it is a comparison, wherever it answers. *)
Lemma serial_cmp_antisym a b :
  in_u32 a -> in_u32 b -> serial_cmp b a = option_map CompOpp (serial_cmp a b).
Proof.
  intros Ha Hb. unfold serial_cmp.
  destruct (Z.eqb_spec a b) as [->|Hne]; [by rewrite Z.eqb_refl|].
  destruct (Z.eqb_spec b a); [congruence|].
  assert (wrap32 (b - a) = 4294967296 - wrap32 (a - b)) as -> by wrap_lia.
  assert (0 < wrap32 (a - b) < 4294967296) by wrap_lia.
  repeat case_test; try done; lia.
Qed.

Lemma elem_of_serial_range s b e :
  in_u32 b -> s ∈ serial_range b e <-> in_u32 s /\ wrap32 (s - b) < wrap32 (e - b).
Proof.
  intros Hb. unfold serial_range. rewrite list_elem_of_fmap. split.
  - intros (i & -> & Hi%elem_of_seqZ). split; [apply wrap32_in|].
    rewrite wrap32_sub_l. replace (b + i - b) with i by lia.
    pose proof (wrap32_range (e - b)). rewrite wrap32_id; [lia|]. rewrite in_u32_iff. lia.
  - intros [Hs Hlt]. exists (wrap32 (s - b)). split.
    + rewrite wrap32_wrap_r. replace (b + (s - b)) with s by lia. by rewrite wrap32_id.
    + apply elem_of_seqZ. pose proof (wrap32_range (s - b)). lia.
Qed.

Lemma serial_range_in_u32 b e : Forall in_u32 (serial_range b e).
Proof. unfold serial_range. apply Forall_fmap, Forall_true. intros. apply wrap32_in. Qed.

Lemma length_serial_range b e : len (serial_range b e) = wrap32 (e - b).
Proof.
  unfold serial_range, len. rewrite length_fmap, length_seqZ.
  pose proof (wrap32_range (e - b)). lia.
Qed.

Lemma NoDup_serial_range b e : NoDup (serial_range b e).
Proof.
  unfold serial_range. apply NoDup_fmap_2_strong; [|apply NoDup_seqZ].
  intros x y Hx%elem_of_seqZ Hy%elem_of_seqZ Heq.
  pose proof (wrap32_range (e - b)). wrap_lia.
Qed.

Lemma serial_range_nil b : serial_range b b = [].
Proof. unfold serial_range. by rewrite Z.sub_diag. Qed.

(** The range unfolds as the loop runs. *)
Lemma serial_range_step b e :
  in_u32 b -> in_u32 e -> b <> e ->
  serial_range b e = b :: serial_range (wrap32 (b + 1)) e.
Proof.
  intros Hb He Hne. unfold serial_range.
  assert (0 < wrap32 (e - b)) by wrap_lia.
  rewrite seqZ_cons by done. rewrite fmap_cons. f_equal.
  - rewrite Z.add_0_r. by apply wrap32_id.
  - replace (wrap32 (e - wrap32 (b + 1))) with (Z.pred (wrap32 (e - b))) by wrap_lia.
    rewrite <- (Z.add_0_r (Z.succ 0)). rewrite <- fmap_add_seqZ, <- list_fmap_compose.
    apply list_fmap_ext. intros i x _. simpl. rewrite wrap32_wrap_l. f_equal. lia.
Qed.

Lemma serial_range_ne_nil b e : in_u32 b -> in_u32 e -> b <> e -> b ∈ serial_range b e.
Proof. intros. rewrite serial_range_step by done. left. Qed.

(** A repair window inside another one, by its two end points. *)
Lemma serial_range_incl b e b' e' :
  in_u32 b -> in_u32 b' -> wrap32 (e - b) <= 128 -> wrap32 (e' - b') <= 128 ->
  seq_in_window b' b (wrap32 (e - b)) = true ->
  seq_in_window (wrap32 (e' - 1)) b (wrap32 (e - b)) = true ->
  forall s, s ∈ serial_range b' e' -> s ∈ serial_range b e.
Proof.
  intros Hb Hb' Hl Hl' H1 H2 s [Hs Hlt]%elem_of_serial_range; [|done].
  apply elem_of_serial_range; [done|]. split; [done|].
  unfold seq_in_window in *. reflect_bools. rewrite in_u32_iff in *. rewrite wrap32_sub_l in H2. wrap_lia.
Qed.

#[export] Hint Resolve wrap32_in serial_range_in_u32 NoDup_serial_range : serial.

Lemma lookup_serial_range b e i s :
  serial_range b e !! i = Some s <-> s = wrap32 (b + Z.of_nat i) /\ Z.of_nat i < wrap32 (e - b).
Proof.
  unfold serial_range. rewrite list_lookup_fmap. split.
  - destruct (seqZ 0 _ !! i) as [j|] eqn:E; simpl; [|done]. intros [= <-].
    apply lookup_seqZ in E as [-> ?]. split; [done|lia].
  - intros [-> Hi]. rewrite lookup_seqZ_lt by lia. done.
Qed.
