(* ===== verification/Gf256.v ===== *)
(** * GF(256) arithmetic (transport-core/src/fec.rs)

    The log/exp tables of the code, multiplication, inverse and the repair
    coefficients; the proof that table multiplication is polynomial
    multiplication modulo x^8+x^4+x^3+x^2+1, and the field laws. *)
From S2P Require Import Prelude Serial.

(** ** The code *)

(** [exp] has 512 entries, [log] 256. *)
Record GfTables := mkGfTables { gf_exp : list Z; gf_log : list Z }.

(** One round of the loop of [build_tables], on [(exp, log, x)]. *)
Definition build_tables_step (st : list Z * list Z * Z) (i : nat) : list Z * list Z * Z :=
  let '(exp, log, x) := st in
  let exp := <[i:=x]> exp in
  let exp := <[(i + 255)%nat:=x]> exp in
  let log := <[Z.to_nat x:=Z.of_nat i]> log in
  let carry := Z.land x 128 in
  let x := Z.shiftl x 1 mod 256 in
  let x := if negb (carry =? 0) then x ⊕ 29 else x in
  (exp, log, x).

Definition build_tables : GfTables :=
  let '(exp, log, _) :=
    foldl build_tables_step (replicate 512 0, replicate 256 0, 1) (seq 0 255) in
  let exp := <[255%nat:=at0 exp 0]> exp in
  let exp := <[510%nat:=at0 exp 255]> exp in
  mkGfTables exp log.

(** The [OnceLock] cell: the tables, computed once. *)
Definition gf_tables : GfTables := Eval vm_compute in build_tables.

Definition gf_mul (a b : Z) : Z :=
  if ((a =? 0) || (b =? 0))%bool then 0
  else
    let t := gf_tables in
    at0 (gf_exp t)
      (Z.to_nat (at0 (gf_log t) (Z.to_nat a) + at0 (gf_log t) (Z.to_nat b))).

(** [None] is the panic of [assert_ne!(a, 0)]. *)
Definition gf_inv (a : Z) : option Z :=
  if a =? 0 then None
  else
    let t := gf_tables in
    Some (at0 (gf_exp t) (Z.to_nat (255 - at0 (gf_log t) (Z.to_nat a)))).

(** The deterministic, non-zero coefficient of source [src_seq] in repair [repair_seq]. *)
Definition gf_coeff (repair_seq src_seq : Z) : Z :=
  let h := wrap32 (wrap32 (repair_seq * 2654435769) + wrap32 (src_seq * 1799578113)) in
  let c := (Z.shiftr h 24 ⊕ Z.shiftr h 16 ⊕ Z.shiftr h 8 ⊕ h) mod 256 in
  if c =? 0 then 1 else c.

(** ** Reference: polynomials over GF(2) modulo 0x11D *)

(** Multiplication by x. *)
Definition xtime (a : Z) : Z :=
  if Z.testbit a 7 then (Z.shiftl a 1 mod 256) ⊕ 29 else Z.shiftl a 1 mod 256.

Fixpoint xtimes (n : nat) (a : Z) : Z :=
  match n with O => a | S n => xtime (xtimes n a) end.

(** Schoolbook product: the sum of [a * x^i] over the bits [i] of [b]. *)
Definition poly_mul (a b : Z) : Z :=
  foldr Z.lxor 0 ((fun i => if Z.testbit b (Z.of_nat i) then xtimes i a else 0) <$> seq 0 8).

(** ** Bit-level tools *)

(** Equality of two [⊕]-combinations up to associativity, commutativity and [x ⊕ x = 0]. *)
Ltac xor_ac :=
  apply Z.bits_inj'; intros ?n ?Hn; rewrite ?Z.lxor_spec, ?Z.bits_0; btauto.

Lemma byte_land x : is_byte x <-> x = Z.land x (Z.ones 8).
Proof.
  rewrite Z.land_ones by lia. unfold is_byte. split.
  - intros. symmetry. apply Z.mod_small. done.
  - intros ->. apply Z.mod_pos_bound. lia.
Qed.

Lemma is_byte_lxor x y : is_byte x -> is_byte y -> is_byte (x ⊕ y).
Proof.
  rewrite !byte_land. intros Hx Hy. rewrite Hx, Hy at 1. apply Z.bits_inj'. intros n Hn.
  rewrite Z.land_spec, !Z.lxor_spec, !Z.land_spec. btauto.
Qed.

Lemma is_byte_mod x : is_byte (x mod 256).
Proof. apply Z.mod_pos_bound. lia. Qed.

#[export] Hint Resolve is_byte_lxor is_byte_mod : bytes.

Lemma lxor_eq_0 a b : a ⊕ b = 0 <-> a = b.
Proof. apply Z.lxor_eq_0_iff. Qed.

(** ** [xtime] is linear, [poly_mul] is bilinear *)

Lemma xtime_alt a : xtime a = Z.land (Z.shiftl a 1) (Z.ones 8) ⊕ (if Z.testbit a 7 then 29 else 0).
Proof.
  unfold xtime. change 256 with (2 ^ 8). rewrite <- Z.land_ones by lia.
  destruct (Z.testbit a 7); [done|]. by rewrite Z.lxor_0_r.
Qed.

Lemma xtime_lxor a b : xtime (a ⊕ b) = xtime a ⊕ xtime b.
Proof.
  rewrite !xtime_alt, Z.shiftl_lxor, Z.lxor_spec. apply Z.bits_inj'. intros n Hn.
  rewrite !Z.lxor_spec, !Z.land_spec, !Z.lxor_spec.
  destruct (Z.testbit a 7), (Z.testbit b 7); simpl; rewrite ?Z.bits_0; btauto.
Qed.

Lemma xtime_byte a : is_byte a -> is_byte (xtime a).
Proof. intros. unfold xtime. destruct (Z.testbit a 7); auto with bytes. Qed.

Lemma xtimes_lxor n a b : xtimes n (a ⊕ b) = xtimes n a ⊕ xtimes n b.
Proof. induction n as [|n IH]; simpl; [done|]. by rewrite IH, xtime_lxor. Qed.

Lemma xtimes_0 n : xtimes n 0 = 0.
Proof. induction n as [|n IH]; simpl; [done|]. by rewrite IH. Qed.

Lemma xtimes_byte n a : is_byte a -> is_byte (xtimes n a).
Proof. intros. induction n; simpl; auto using xtime_byte. Qed.

Lemma xtimes_add n m a : xtimes n (xtimes m a) = xtimes (n + m) a.
Proof. induction n as [|n IH]; simpl; [done|]. by rewrite IH. Qed.

#[export] Hint Resolve xtime_byte xtimes_byte : bytes.

(** [sel b t]: the term [t] when the bit is set. *)
Definition sel (b : bool) (t : Z) : Z := if b then t else 0.

Lemma sel_xorb b c t : sel (xorb b c) t = sel b t ⊕ sel c t.
Proof. destruct b, c; simpl; by rewrite ?Z.lxor_nilpotent, ?Z.lxor_0_r. Qed.

Lemma sel_lxor b t u : sel b (t ⊕ u) = sel b t ⊕ sel b u.
Proof. by destruct b. Qed.

Lemma sel_xtime b t : xtime (sel b t) = sel b (xtime t).
Proof. by destruct b. Qed.

Lemma poly_mul_alt a b :
  poly_mul a b =
    sel (Z.testbit b 0) a ⊕ (sel (Z.testbit b 1) (xtimes 1 a) ⊕ (sel (Z.testbit b 2) (xtimes 2 a) ⊕
    (sel (Z.testbit b 3) (xtimes 3 a) ⊕ (sel (Z.testbit b 4) (xtimes 4 a) ⊕
    (sel (Z.testbit b 5) (xtimes 5 a) ⊕ (sel (Z.testbit b 6) (xtimes 6 a) ⊕
     sel (Z.testbit b 7) (xtimes 7 a))))))).
Proof. unfold poly_mul, sel. cbn -[Z.lxor Z.testbit xtime]. by rewrite Z.lxor_0_r. Qed.

Lemma poly_mul_lxor_r a b c : poly_mul a (b ⊕ c) = poly_mul a b ⊕ poly_mul a c.
Proof. rewrite !poly_mul_alt, !Z.lxor_spec, !sel_xorb. xor_ac. Qed.

Lemma poly_mul_lxor_l a b c : poly_mul (a ⊕ b) c = poly_mul a c ⊕ poly_mul b c.
Proof. rewrite !poly_mul_alt, !xtimes_lxor, !sel_lxor. xor_ac. Qed.

Lemma poly_mul_byte a b : is_byte a -> is_byte (poly_mul a b).
Proof.
  intros. assert (forall c t, is_byte t -> is_byte (sel c t)) by (intros [] ? ?; auto with bytes).
  rewrite poly_mul_alt. repeat apply is_byte_lxor; auto with bytes.
Qed.

Lemma poly_mul_1_r a : poly_mul a 1 = a.
Proof. rewrite poly_mul_alt. cbn -[Z.lxor xtime]. by rewrite !Z.lxor_0_r. Qed.

Lemma poly_mul_0_r a : poly_mul a 0 = 0.
Proof. by rewrite poly_mul_alt. Qed.

Lemma poly_mul_0_l b : poly_mul 0 b = 0.
Proof.
  rewrite poly_mul_alt, !xtimes_0. unfold sel. by repeat case_match.
Qed.

(** The bits of [xtime b]. *)
Lemma xtime_bits b :
  is_byte b ->
  Z.testbit (xtime b) 0 = Z.testbit b 7 /\
  Z.testbit (xtime b) 1 = Z.testbit b 0 /\
  Z.testbit (xtime b) 2 = xorb (Z.testbit b 1) (Z.testbit b 7) /\
  Z.testbit (xtime b) 3 = xorb (Z.testbit b 2) (Z.testbit b 7) /\
  Z.testbit (xtime b) 4 = xorb (Z.testbit b 3) (Z.testbit b 7) /\
  Z.testbit (xtime b) 5 = Z.testbit b 4 /\
  Z.testbit (xtime b) 6 = Z.testbit b 5 /\
  Z.testbit (xtime b) 7 = Z.testbit b 6.
Proof.
  intros Hb. set (t := Z.testbit).
  pose proof (byte_forall (fun b =>
    eqb (t (xtime b) 0) (t b 7) && eqb (t (xtime b) 1) (t b 0) &&
    eqb (t (xtime b) 2) (xorb (t b 1) (t b 7)) && eqb (t (xtime b) 3) (xorb (t b 2) (t b 7)) &&
    eqb (t (xtime b) 4) (xorb (t b 3) (t b 7)) && eqb (t (xtime b) 5) (t b 4) &&
    eqb (t (xtime b) 6) (t b 5) && eqb (t (xtime b) 7) (t b 6))%bool ltac:(by vm_compute) b Hb) as H.
  simpl in H. rewrite !andb_true_iff, !eqb_true_iff in H. tauto.
Qed.

(** x^8 = x^4 + x^3 + x^2 + 1. *)
Lemma xtimes_8 a : is_byte a -> xtimes 8 a = a ⊕ xtimes 2 a ⊕ xtimes 3 a ⊕ xtimes 4 a.
Proof.
  intros Ha. apply Z.eqb_eq.
  apply (byte_forall (fun a => xtimes 8 a =? a ⊕ xtimes 2 a ⊕ xtimes 3 a ⊕ xtimes 4 a)); [by vm_compute|done].
Qed.

Lemma xtimes_S n a : xtime (xtimes n a) = xtimes (S n) a.
Proof. done. Qed.

Lemma xtime_1 a : xtime a = xtimes 1 a.
Proof. done. Qed.

Lemma poly_mul_xtime a b : is_byte a -> is_byte b -> poly_mul a (xtime b) = xtime (poly_mul a b).
Proof.
  intros Ha Hb. rewrite !poly_mul_alt.
  destruct (xtime_bits b Hb) as (-> & -> & -> & -> & -> & -> & -> & ->).
  rewrite !xtime_lxor, !sel_xtime, !sel_xorb.
  rewrite (xtimes_S 7), (xtimes_8 a Ha), !sel_lxor, !xtimes_S, (xtime_1 a).
  repeat match goal with |- context [sel ?b ?t] => generalize (sel b t); intro end. xor_ac.
Qed.

Lemma poly_mul_pow a j : is_byte a -> poly_mul a (xtimes j 1) = xtimes j a.
Proof.
  intros Ha. induction j as [|j IH]; [apply poly_mul_1_r|].
  simpl. by rewrite poly_mul_xtime, IH by auto with bytes.
Qed.

(** ** The tables *)

Definition exp_at (i : nat) : Z := at0 (gf_exp gf_tables) i.
Definition log_at (x : Z) : Z := at0 (gf_log gf_tables) (Z.to_nat x).

Lemma exp_step i : (i < 509)%nat -> exp_at (S i) = xtime (exp_at i).
Proof.
  intros Hi. apply Z.eqb_eq.
  assert (forallb (fun i => exp_at (S i) =? xtime (exp_at i)) (seq 0 509) = true) as H by (by vm_compute).
  rewrite forallb_forall in H. apply H, in_seq. lia.
Qed.

(** The exponential table holds the powers of the generator, up to the largest index used. *)
Lemma exp_spec i : (i < 510)%nat -> exp_at i = xtimes i 1.
Proof.
  induction i as [|i IH]; intros Hi; [done|].
  rewrite exp_step by lia. rewrite IH by lia. done.
Qed.

(** The logarithm table inverts it on the non-zero bytes. *)
Lemma log_spec x : is_byte x -> x <> 0 -> 0 <= log_at x < 255 /\ exp_at (Z.to_nat (log_at x)) = x.
Proof.
  intros Hx Hne.
  pose proof (byte_forall (fun x => (x =? 0) ||
    ((0 <=? log_at x) && (log_at x <? 255) && (exp_at (Z.to_nat (log_at x)) =? x)))%bool
    ltac:(by vm_compute) x Hx) as H.
  simpl in H. apply orb_true_iff in H as [H|H]; reflect_bools; [done|]. auto.
Qed.

Lemma pow_log x : is_byte x -> x <> 0 -> xtimes (Z.to_nat (log_at x)) 1 = x.
Proof.
  intros Hx Hne. destruct (log_spec x Hx Hne) as [Hl He].
  rewrite <- exp_spec; [done|lia].
Qed.

Lemma gf_mul_nz a b :
  is_byte a -> is_byte b -> a <> 0 -> b <> 0 ->
  gf_mul a b = xtimes (Z.to_nat (log_at a) + Z.to_nat (log_at b)) 1.
Proof.
  intros Ha Hb Hna Hnb. destruct (log_spec a) as [La _]; [done..|]. destruct (log_spec b) as [Lb _]; [done..|].
  unfold gf_mul. rewrite (proj2 (Z.eqb_neq a 0)), (proj2 (Z.eqb_neq b 0)) by done. simpl orb. cbv iota zeta.
  fold (log_at a) (log_at b). rewrite <- exp_spec by lia.
  unfold exp_at. f_equal. lia.
Qed.

(** Every table index the multiplication uses is inside the tables: no access panics. *)
Lemma gf_mul_in_bounds a b :
  is_byte a -> is_byte b -> a <> 0 -> b <> 0 ->
  (Z.to_nat (log_at a + log_at b) < length (gf_exp gf_tables))%nat.
Proof.
  intros Ha Hb Hna Hnb. destruct (log_spec a) as [La _]; [done..|]. destruct (log_spec b) as [Lb _]; [done..|].
  change (length (gf_exp gf_tables)) with 512%nat. lia.
Qed.

Lemma gf_mul_poly a b : is_byte a -> is_byte b -> gf_mul a b = poly_mul a b.
Proof.
  intros Ha Hb. destruct (decide (a = 0)) as [->|Hna]; [by rewrite poly_mul_0_l|].
  destruct (decide (b = 0)) as [->|Hnb].
  { rewrite poly_mul_0_r. unfold gf_mul. by rewrite orb_true_r. }
  rewrite gf_mul_nz by done.
  rewrite <- (pow_log b) at 2 by done. rewrite poly_mul_pow by done.
  rewrite <- (pow_log a) at 2 by done. rewrite xtimes_add. f_equal. lia.
Qed.

(** ** The field laws *)

Lemma gf_mul_byte a b : is_byte a -> is_byte b -> is_byte (gf_mul a b).
Proof. intros. rewrite gf_mul_poly by done. by apply poly_mul_byte. Qed.

Lemma gf_mul_0_l b : gf_mul 0 b = 0.
Proof. done. Qed.

Lemma gf_mul_0_r a : gf_mul a 0 = 0.
Proof. unfold gf_mul. by rewrite orb_true_r. Qed.

Lemma gf_mul_comm a b : gf_mul a b = gf_mul b a.
Proof. unfold gf_mul. rewrite (orb_comm (a =? 0)). case_test; [done|]. by rewrite Z.add_comm. Qed.

Lemma gf_mul_1_r a : is_byte a -> gf_mul a 1 = a.
Proof. intros. rewrite gf_mul_poly by auto with bytes. apply poly_mul_1_r. Qed.

Lemma gf_mul_1_l a : is_byte a -> gf_mul 1 a = a.
Proof. rewrite gf_mul_comm. apply gf_mul_1_r. Qed.

Lemma gf_mul_lxor_r a b c :
  is_byte a -> is_byte b -> is_byte c -> gf_mul a (b ⊕ c) = gf_mul a b ⊕ gf_mul a c.
Proof. intros. rewrite !gf_mul_poly by auto with bytes. apply poly_mul_lxor_r. Qed.

Lemma gf_mul_lxor_l a b c :
  is_byte a -> is_byte b -> is_byte c -> gf_mul (a ⊕ b) c = gf_mul a c ⊕ gf_mul b c.
Proof. intros. rewrite !gf_mul_poly by auto with bytes. apply poly_mul_lxor_l. Qed.

Lemma gf_mul_assoc a b c :
  is_byte a -> is_byte b -> is_byte c -> gf_mul a (gf_mul b c) = gf_mul (gf_mul a b) c.
Proof.
  intros Ha Hb Hc.
  destruct (decide (a = 0)) as [->|Hna]; [done|].
  destruct (decide (b = 0)) as [->|Hnb]; [by rewrite !gf_mul_0_r|].
  destruct (decide (c = 0)) as [->|Hnc]; [by rewrite !gf_mul_0_r|].
  rewrite (gf_mul_nz b c), (gf_mul_nz a b) by done.
  rewrite !gf_mul_poly by auto with bytes. rewrite poly_mul_pow by done.
  rewrite <- (pow_log c) at 2 by done. rewrite poly_mul_pow by auto with bytes.
  rewrite xtimes_add. rewrite <- (pow_log a) at 1 by done. rewrite xtimes_add. f_equal. lia.
Qed.

Lemma gf_inv_Some a : a <> 0 -> gf_inv a = Some (exp_at (Z.to_nat (255 - log_at a))).
Proof. intros. unfold gf_inv. by rewrite (proj2 (Z.eqb_neq a 0)). Qed.

Lemma gf_inv_spec a :
  is_byte a -> a <> 0 ->
  exists i, gf_inv a = Some i /\ is_byte i /\ gf_mul a i = 1.
Proof.
  intros Ha Hne. rewrite gf_inv_Some by done. eexists; split; [done|].
  destruct (log_spec a) as [La _]; [done..|]. rewrite exp_spec by lia.
  split; [auto with bytes|]. rewrite gf_mul_poly, poly_mul_pow by auto with bytes.
  rewrite <- (pow_log a) at 2 by done. rewrite xtimes_add.
  replace (Z.to_nat (255 - log_at a) + Z.to_nat (log_at a))%nat with 255%nat by lia. by vm_compute.
Qed.

Lemma gf_mul_eq_0 a b : is_byte a -> is_byte b -> gf_mul a b = 0 -> a = 0 \/ b = 0.
Proof.
  intros Ha Hb H. destruct (decide (a = 0)) as [|Hne]; [by left|]. right.
  destruct (gf_inv_spec a Ha Hne) as (i & _ & Hi & E).
  rewrite <- (gf_mul_1_l b), <- E, (gf_mul_comm a i), <- gf_mul_assoc, H by done.
  apply gf_mul_0_r.
Qed.

Lemma gf_coeff_byte r s : is_byte (gf_coeff r s).
Proof. unfold gf_coeff. case_test; auto with bytes. Qed.

Lemma gf_coeff_nonzero r s : gf_coeff r s <> 0.
Proof. unfold gf_coeff. case_test; [lia|done]. Qed.

#[export] Hint Resolve gf_mul_byte gf_coeff_byte : bytes.
#[global] Arguments gf_mul : simpl never.
#[global] Arguments gf_coeff : simpl never.

(** ** Properties *)

(** C16: table multiplication is the product of polynomials modulo 0x11D, every
    index it uses is inside the tables, and [gf_inv] returns the inverse of
    every non-zero byte and panics on zero: (bytes, xor, [gf_mul]) is the field
    GF(256). *)
Theorem gf256_field :
  (forall a b, is_byte a -> is_byte b -> is_byte (gf_mul a b) /\ gf_mul a b = poly_mul a b) /\
  (forall a b c, is_byte a -> is_byte b -> is_byte c ->
     gf_mul a (gf_mul b c) = gf_mul (gf_mul a b) c /\
     gf_mul a (b ⊕ c) = gf_mul a b ⊕ gf_mul a c /\ gf_mul a b = gf_mul b a) /\
  (forall a, is_byte a -> a <> 0 -> exists i, gf_inv a = Some i /\ is_byte i /\ gf_mul a i = 1) /\
  gf_inv 0 = None.
Proof.
  split; [|split; [|split; [exact gf_inv_spec|done]]].
  - auto using gf_mul_byte, gf_mul_poly.
  - auto using gf_mul_assoc, gf_mul_lxor_r, gf_mul_comm.
Qed.

Lemma gf256_field_witness :
  gf_mul 87 131 = poly_mul 87 131 /\ gf_mul 3 (gf_mul 200 77) = gf_mul (gf_mul 3 200) 77.
Proof.
  destruct gf256_field as (Hmul & Hring & _).
  split; [apply (Hmul 87 131)|apply (Hring 3 200 77)]; unfold is_byte; lia.
Defined.
