(* ===== verification/FecEncoder.v ===== *)
(** * Sliding-window FEC encoder (transport-core/src/fec.rs)

    [FecConfig], the symbols of the wire, and [FecEncoder]: the elastic source
    window with its symbol and byte caps, the redundancy-ratio counter, the
    ACK-driven eviction and the construction of repair symbols. *)
From S2P Require Import Prelude Serial Gf256.

(** ** Data *)

Record FecConfig := mkFecConfig {
  redundancy_numerator : Z;
  redundancy_denominator : Z;
  window_max_symbols : Z;
  window_max_bytes : Z
}.

Definition default_streaming : FecConfig :=
  {| redundancy_numerator := 1; redundancy_denominator := 8;
     window_max_symbols := 64; window_max_bytes := 524288 |}.

Definition sanitised (c : FecConfig) : FecConfig :=
  {| redundancy_numerator := redundancy_numerator c;
     redundancy_denominator := Z.max (redundancy_denominator c) 1;
     window_max_symbols := clamp (window_max_symbols c) 1 128;
     window_max_bytes := Z.max (window_max_bytes c) 1 |}.

Inductive Symbol : Type :=
| Source (seq : Z) (payload : list Z)
| Repair (repair_seq window_base window_end : Z) (payload : list Z).

#[export] Instance Symbol_eq_dec : EqDecision Symbol.
Proof. solve_decision. Defined.

Record EncoderOutput := mkEncoderOutput { out_source : Symbol; out_repairs : list Symbol }.

Record WindowEntry := mkWindowEntry { entry_seq : Z; prefixed_payload : list Z }.

Record FecEncoder := mkFecEncoder {
  config : FecConfig;
  window : list WindowEntry;
  window_byte_total : Z;
  next_repair_seq : Z;
  ratio_acc : Z
}.

(** ** Operations *)

(** [FecEncoder::new]. *)
Definition new (c : FecConfig) : FecEncoder :=
  {| config := sanitised c; window := []; window_byte_total := 0;
     next_repair_seq := 0; ratio_acc := 0 |}.

Definition set_redundancy (e : FecEncoder) (numerator denominator : Z) : FecEncoder :=
  {| config := {| redundancy_numerator := numerator;
                  redundancy_denominator := Z.max denominator 1;
                  window_max_symbols := window_max_symbols (config e);
                  window_max_bytes := window_max_bytes (config e) |};
     window := window e; window_byte_total := window_byte_total e;
     next_repair_seq := next_repair_seq e; ratio_acc := ratio_acc e |}.

Definition window_len (e : FecEncoder) : Z := len (window e).
Definition window_base (e : FecEncoder) : option Z := entry_seq <$> head (window e).

Definition evict_oldest (e : FecEncoder) : FecEncoder :=
  match window e with
  | [] => e
  | entry :: rest =>
      let payload_bytes := wrap32 (sat_sub (len (prefixed_payload entry)) 2) in
      {| config := config e; window := rest;
         window_byte_total := sat_sub (window_byte_total e) payload_bytes;
         next_repair_seq := next_repair_seq e; ratio_acc := ratio_acc e |}
  end.

(** [for (j, &b) in src.iter().enumerate() { dst[j] ^= gf_mul(coeff, b); }] *)
Fixpoint xor_scaled (coeff : Z) (src dst : list Z) : list Z :=
  match src, dst with
  | b :: src, p :: dst => (p ⊕ gf_mul coeff b) :: xor_scaled coeff src dst
  | _, _ => dst
  end.

Definition build_repair (e : FecEncoder) : FecEncoder * Symbol :=
  let repair_seq := next_repair_seq e in
  let e' := {| config := config e; window := window e; window_byte_total := window_byte_total e;
               next_repair_seq := wrap16 (next_repair_seq e + 1); ratio_acc := ratio_acc e |} in
  match head (window e), last (window e) with
  | Some front, Some back =>
      let window_base := entry_seq front in
      let window_end := wrap32 (entry_seq back + 1) in
      let max_eff_len := maxZ 2 ((fun en => len (prefixed_payload en)) <$> window e) in
      let payload :=
        foldl (fun payload en =>
                 xor_scaled (gf_coeff repair_seq (entry_seq en)) (prefixed_payload en) payload)
          (replicate (Z.to_nat max_eff_len) 0) (window e) in
      (e', Repair repair_seq window_base window_end payload)
  | _, _ => (e', Repair repair_seq 0 0 [])
  end.

(** [while self.window.len() >= cap { self.evict_oldest(); }] *)
Definition evict_symbols_body (e : FecEncoder) : FecEncoder + FecEncoder :=
  if window_max_symbols (config e) <=? len (window e) then inl (evict_oldest e) else inr e.

(** [while !window.is_empty() && total.saturating_add(new) > cap { evict_oldest(); }] *)
Definition evict_bytes_body (new_bytes : Z) (e : FecEncoder) : FecEncoder + FecEncoder :=
  if (negb (len (window e) =? 0) &&
      (window_max_bytes (config e) <? sat_add u32_max (window_byte_total e) new_bytes))%bool
  then inl (evict_oldest e) else inr e.

(** [while ratio_acc >= denominator { ratio_acc -= denominator; repairs.push(..) }] *)
Definition repairs_body (st : FecEncoder * list Symbol) :
  (FecEncoder * list Symbol) + (FecEncoder * list Symbol) :=
  let '(e, repairs) := st in
  if redundancy_denominator (config e) <=? ratio_acc e then
    let e := {| config := config e; window := window e;
                window_byte_total := window_byte_total e;
                next_repair_seq := next_repair_seq e;
                ratio_acc := ratio_acc e - redundancy_denominator (config e) |} in
    let '(e, r) := build_repair e in
    inl (e, repairs ++ [r])
  else inr (e, repairs).

(** [None] is the panic of the length assertion (or a loop out of fuel, which
    [push_source_ok] excludes). *)
Definition push_source (e : FecEncoder) (seq : Z) (payload : list Z) :
  option (FecEncoder * EncoderOutput) :=
  if 65520 <? len payload then None
  else
    let payload_len := wrap16 (len payload) in
    let prefixed := u16_le payload_len ++ payload in
    let new_bytes := wrap32 (len payload) in
    e ← loop_fuel (S (length (window e))) evict_symbols_body e;
    e ← loop_fuel (S (length (window e))) (evict_bytes_body new_bytes) e;
    let e := {| config := config e;
                window := window e ++ [mkWindowEntry seq prefixed];
                window_byte_total := sat_add u32_max (window_byte_total e) new_bytes;
                next_repair_seq := next_repair_seq e; ratio_acc := ratio_acc e |} in
    let source := Source seq payload in
    if 0 <? redundancy_numerator (config e) then
      let e := {| config := config e; window := window e;
                  window_byte_total := window_byte_total e;
                  next_repair_seq := next_repair_seq e;
                  ratio_acc := wrap16 (ratio_acc e + redundancy_numerator (config e)) |} in
      '(e, repairs) ← loop_fuel (S (Z.to_nat (ratio_acc e))) repairs_body (e, []);
      Some (e, mkEncoderOutput source repairs)
    else Some (e, mkEncoderOutput source []).

Definition acknowledge_body (highest : Z) (e : FecEncoder) : FecEncoder + FecEncoder :=
  match head (window e) with
  | None => inr e
  | Some front =>
      match serial_cmp (entry_seq front) highest with
      | Some Lt | Some Eq => inl (evict_oldest e)
      | None | Some Gt => inr e
      end
  end.

Definition acknowledge (e : FecEncoder) (highest : Z) : option FecEncoder :=
  match last (window e) with
  | None => Some e
  | Some back =>
      match serial_cmp highest (entry_seq back) with
      | None | Some Gt => Some e
      | Some Lt | Some Eq =>
          loop_fuel (S (length (window e))) (acknowledge_body highest) e
      end
  end.

(** ** Specification: what a repair symbol promises *)

(** Effective payload of a source: its 16-bit length, then its bytes. *)
Definition eff (payload : list Z) : list Z := u16_le (wrap16 (len payload)) ++ payload.

(** A payload the encoder accepts. *)
Definition payload_ok (payload : list Z) : Prop := bytes payload /\ len payload <= 65520.

#[export] Instance payload_ok_dec p : Decision (payload_ok p) := ltac:(unfold payload_ok; apply _).

Definition xorsum (l : list Z) : Z := foldr Z.lxor 0 l.

(** Byte [j] of the combination of the sources [seqs] of a sender whose log is [truth]. *)
Definition combination (truth : Z -> list Z) (repair_seq : Z) (seqs : list Z) (j : nat) : Z :=
  xorsum ((fun s => gf_mul (gf_coeff repair_seq s) (at0 (eff (truth s)) j)) <$> seqs).

(** A symbol is truthful for a sender's log when a source carries the logged
    payload and a repair carries the combination of its window. *)
Definition repair_truthful (truth : Z -> list Z) (r b e : Z) (payload : list Z) : Prop :=
  in_u16 r /\ in_u32 b /\ in_u32 e /\ wrap32 (e - b) <= 128 /\ bytes payload /\ 2 <= len payload /\
  (forall s, s ∈ serial_range b e -> payload_ok (truth s) /\ len (eff (truth s)) <= len payload) /\
  (forall j, at0 payload j = combination truth r (serial_range b e) j).

Definition truthful (truth : Z -> list Z) (sym : Symbol) : Prop :=
  match sym with
  | Source s p => in_u32 s /\ p = truth s /\ payload_ok p
  | Repair r b e p => repair_truthful truth r b e p
  end.

(** ** Lemmas *)

Lemma xorsum_app l k : xorsum (l ++ k) = xorsum l ⊕ xorsum k.
Proof.
  unfold xorsum. induction l as [|x l IH]; simpl; [by rewrite Z.lxor_0_l|].
  by rewrite IH, Z.lxor_assoc.
Qed.

Lemma len_eff p : len (eff p) = 2 + len p.
Proof. unfold eff. rewrite len_app. unfold len at 1. by rewrite length_le_bytes. Qed.

Lemma bytes_eff p : bytes p -> bytes (eff p).
Proof. intros. unfold eff. solve_bytes. Qed.

Lemma length_xor_scaled c s d : length (xor_scaled c s d) = length d.
Proof. revert d. induction s as [|b s IH]; intros [|p d]; simpl; auto. Qed.

Lemma bytes_xor_scaled c s d : is_byte c -> bytes s -> bytes d -> bytes (xor_scaled c s d).
Proof.
  intros Hc Hs. revert d. induction Hs as [|b s Hb Hs IH]; intros [|p d] Hd; simpl; auto.
  apply Forall_cons in Hd as [Hp Hd]. apply bytes_cons; auto with bytes.
Qed.

Lemma at0_xor_scaled c s d j :
  (length s <= length d)%nat -> at0 (xor_scaled c s d) j = at0 d j ⊕ gf_mul c (at0 s j).
Proof.
  revert d j. induction s as [|b s IH]; intros [|p d] j Hl; simpl in *; try lia.
  - unfold at0. simpl. by rewrite gf_mul_0_r.
  - unfold at0 at 3. by rewrite gf_mul_0_r, Z.lxor_0_r.
  - destruct j as [|j]; [done|]. apply (IH d j). lia.
Qed.

#[export] Hint Resolve bytes_eff bytes_xor_scaled : bytes.

Section combine.
Context (r : Z).
Let combine := foldl (fun payload en =>
  xor_scaled (gf_coeff r (entry_seq en)) (prefixed_payload en) payload).

Lemma length_combine w acc : length (combine acc w) = length acc.
Proof.
  revert acc. induction w as [|en w IH]; intros acc; simpl; [done|].
  rewrite IH. apply length_xor_scaled.
Qed.

Lemma bytes_combine w acc :
  Forall (fun en => bytes (prefixed_payload en)) w -> bytes acc -> bytes (combine acc w).
Proof.
  intros Hw. revert acc. induction Hw as [|en w He Hw IH]; intros acc Ha; simpl; [done|].
  apply IH. auto with bytes.
Qed.

Lemma at0_combine w acc j :
  Forall (fun en => len (prefixed_payload en) <= len acc) w ->
  at0 (combine acc w) j =
    at0 acc j ⊕ xorsum ((fun en => gf_mul (gf_coeff r (entry_seq en)) (at0 (prefixed_payload en) j)) <$> w).
Proof.
  revert acc. induction w as [|en w IH]; intros acc Hw; simpl.
  - by rewrite Z.lxor_0_r.
  - apply Forall_cons in Hw as [He Hw]. rewrite IH.
    + rewrite at0_xor_scaled by (unfold len in *; lia). by rewrite Z.lxor_assoc.
    + eapply Forall_impl; [done|]. intros en'. unfold len. by rewrite length_xor_scaled.
Qed.
End combine.

Lemma at0_replicate n j : at0 (replicate n 0) j = 0.
Proof.
  unfold at0. destruct (replicate n 0 !! j) eqn:E; [|done].
  by apply lookup_replicate in E as [-> _].
Qed.

(** ** Invariant *)

Definition entry_ok (en : WindowEntry) : Prop :=
  in_u32 (entry_seq en) /\ exists p, payload_ok p /\ prefixed_payload en = eff p.

Definition entry_bytes (en : WindowEntry) : Z := len (prefixed_payload en) - 2.

Record enc_wf (e : FecEncoder) : Prop := {
  wf_num : 0 <= redundancy_numerator (config e) < 256;
  wf_den : 1 <= redundancy_denominator (config e) < 256;
  wf_cap : 1 <= window_max_symbols (config e) <= 128;
  wf_max_bytes : 1 <= window_max_bytes (config e) < 4294967296;
  wf_window : Forall entry_ok (window e);
  wf_len : len (window e) <= window_max_symbols (config e);
  wf_total : window_byte_total e = sumZ (entry_bytes <$> window e);
  wf_total_cap : window_byte_total e <= window_max_bytes (config e) \/ len (window e) = 1;
  wf_next : in_u16 (next_repair_seq e);
  wf_acc : 0 <= ratio_acc e < 255
}.

(** The window as it leaves eviction: a suffix, everything else untouched. *)
Record evicted_from (e0 e : FecEncoder) : Prop := {
  ev_config : config e = config e0;
  ev_next : next_repair_seq e = next_repair_seq e0;
  ev_acc : ratio_acc e = ratio_acc e0;
  ev_window : exists k, window e = drop k (window e0)
}.

Lemma evicted_from_refl e : evicted_from e e.
Proof. split; try done. by exists O. Qed.

Lemma evicted_from_trans e0 e1 e2 : evicted_from e0 e1 -> evicted_from e1 e2 -> evicted_from e0 e2.
Proof.
  intros [C1 N1 A1 [k1 W1]] [C2 N2 A2 [k2 W2]]. split; try congruence.
  exists (k1 + k2)%nat. by rewrite W2, W1, drop_drop.
Qed.

Lemma evicted_from_oldest e : evicted_from e (evict_oldest e).
Proof.
  unfold evict_oldest. destruct (window e) as [|en w] eqn:E; [by apply evicted_from_refl|].
  split; simpl; try done. exists 1%nat. by rewrite E.
Qed.

Lemma entry_ok_bytes en : entry_ok en -> 0 <= entry_bytes en <= 65520 /\ bytes (prefixed_payload en).
Proof.
  intros (_ & p & [Hp Hl] & E). unfold entry_bytes. rewrite E, len_eff.
  pose proof (len_nonneg p). split; [lia|auto with bytes].
Qed.

Lemma window_bytes_bound w :
  Forall entry_ok w -> 0 <= sumZ (entry_bytes <$> w) <= 65520 * len w.
Proof.
  induction 1 as [|en w He Hw IH]; [done|]. rewrite fmap_cons, len_cons. cbn [sumZ foldr].
  fold (sumZ (entry_bytes <$> w)). pose proof (entry_ok_bytes en He). lia.
Qed.

Lemma evict_oldest_wf e : enc_wf e -> enc_wf (evict_oldest e).
Proof.
  intros []. unfold evict_oldest. destruct (window e) as [|en w] eqn:E; [by split; rewrite ?E|].
  apply Forall_cons in wf_window0 as [He Hw]. pose proof (entry_ok_bytes en He) as [Hb _].
  pose proof (window_bytes_bound w Hw).
  rewrite fmap_cons in wf_total0. cbn [sumZ foldr] in wf_total0. fold (sumZ (entry_bytes <$> w)) in wf_total0.
  rewrite len_cons in *. pose proof (len_nonneg w).
  assert (wrap32 (sat_sub (len (prefixed_payload en)) 2) = entry_bytes en) as Ewrap
    by (unfold entry_bytes in *; wrap_lia).
  assert (sat_sub (window_byte_total e) (entry_bytes en) = sumZ (entry_bytes <$> w)) as Etot
    by (unfold sat_sub; lia).
  split; simpl; rewrite ?Ewrap, ?Etot; try done; [lia|].
  left. destruct wf_total_cap0; [lia|].
  assert (w = []) as -> by (destruct w as [|en' w']; [done|rewrite len_cons in *; pose proof (len_nonneg w'); lia]).
  simpl. lia.
Qed.

Lemma length_evict_oldest e : window e <> [] -> length (window e) = S (length (window (evict_oldest e))).
Proof. unfold evict_oldest. by destruct (window e). Qed.

Lemma evict_symbols_loop e :
  enc_wf e ->
  exists e', loop_fuel (S (length (window e))) evict_symbols_body e = Some e' /\
    enc_wf e' /\ evicted_from e e' /\ len (window e') < window_max_symbols (config e).
Proof.
  intros Hwf. set (e0 := e) in |- * at 3 4.
  apply (loop_fuel_spec evict_symbols_body
    (fun n s => n = length (window s) /\ enc_wf s /\ evicted_from e0 s) _) with (n := length (window e));
    [| |split_and!; [done|done|apply evicted_from_refl]|lia].
  - intros n s s' (-> & Hs & Hev) Hb. unfold evict_symbols_body in Hb. case_match; simplify_eq.
    reflect_bools. exists (length (window (evict_oldest s))). split_and!; [|done|by apply evict_oldest_wf|].
    + rewrite (length_evict_oldest s); [lia|]. intros E. rewrite E, len_nil in *. destruct Hs. lia.
    + eauto using evicted_from_trans, evicted_from_oldest.
  - intros n s r (-> & Hs & Hev) Hb. unfold evict_symbols_body in Hb. case_match; simplify_eq.
    reflect_bools. rewrite <- (ev_config _ _ Hev). auto.
Qed.

Lemma evict_bytes_loop new_bytes e :
  enc_wf e ->
  exists e', loop_fuel (S (length (window e))) (evict_bytes_body new_bytes) e = Some e' /\
    enc_wf e' /\ evicted_from e e' /\
    (window e' = [] \/ window_byte_total e' + new_bytes <= window_max_bytes (config e) \/
     u32_max < window_byte_total e' + new_bytes).
Proof.
  intros Hwf. set (e0 := e) in |- * at 3 4.
  apply (loop_fuel_spec (evict_bytes_body new_bytes)
    (fun n s => n = length (window s) /\ enc_wf s /\ evicted_from e0 s) _) with (n := length (window e));
    [| |split_and!; [done|done|apply evicted_from_refl]|lia].
  - intros n s s' (-> & Hs & Hev) Hb. unfold evict_bytes_body in Hb. case_match; simplify_eq.
    reflect_bools. exists (length (window (evict_oldest s))). split_and!; [|done|by apply evict_oldest_wf|].
    + rewrite (length_evict_oldest s); [lia|]. intros E. by rewrite E, len_nil in *.
    + eauto using evicted_from_trans, evicted_from_oldest.
  - intros n s r (-> & Hs & Hev) Hb. unfold evict_bytes_body in Hb. case_match; simplify_eq.
    split_and!; [done..|]. rewrite <- (ev_config _ _ Hev). apply andb_false_iff in H as [H|H]; reflect_bools.
    + left. destruct (window r); [done|]. rewrite len_cons in H. pose proof (len_nonneg l). lia.
    + right. unfold sat_add in H. lia.
Qed.

(** ** Repairs *)

(** [r] is the repair symbol of window [w] for some repair sequence number. *)
Definition repair_of (w : list WindowEntry) (r : Symbol) : Prop :=
  exists e, window e = w /\ in_u16 (next_repair_seq e) /\ r = (build_repair e).2.

Lemma build_repair_frame e :
  config (build_repair e).1 = config e /\ window (build_repair e).1 = window e /\
  window_byte_total (build_repair e).1 = window_byte_total e /\
  next_repair_seq (build_repair e).1 = wrap16 (next_repair_seq e + 1) /\
  ratio_acc (build_repair e).1 = ratio_acc e.
Proof. unfold build_repair. by repeat case_match. Qed.

Lemma repairs_loop e :
  1 <= redundancy_denominator (config e) -> 0 <= ratio_acc e -> in_u16 (next_repair_seq e) ->
  exists e' repairs,
    loop_fuel (S (Z.to_nat (ratio_acc e))) repairs_body (e, []) = Some (e', repairs) /\
    config e' = config e /\ window e' = window e /\ window_byte_total e' = window_byte_total e /\
    in_u16 (next_repair_seq e') /\ 0 <= ratio_acc e' < redundancy_denominator (config e) /\
    len repairs * redundancy_denominator (config e) + ratio_acc e' = ratio_acc e /\
    Forall (repair_of (window e)) repairs.
Proof.
  intros Hden Hacc Hnext. set (den := redundancy_denominator (config e)) in *.
  destruct (loop_fuel_spec repairs_body
    (fun n st => n = Z.to_nat (ratio_acc st.1) /\ config st.1 = config e /\ window st.1 = window e /\
       window_byte_total st.1 = window_byte_total e /\ in_u16 (next_repair_seq st.1) /\
       0 <= ratio_acc st.1 /\ len st.2 * den + ratio_acc st.1 = ratio_acc e /\
       Forall (repair_of (window e)) st.2)
    (fun st => config st.1 = config e /\ window st.1 = window e /\
       window_byte_total st.1 = window_byte_total e /\ in_u16 (next_repair_seq st.1) /\
       0 <= ratio_acc st.1 < den /\ len st.2 * den + ratio_acc st.1 = ratio_acc e /\
       Forall (repair_of (window e)) st.2))
    with (fuel := S (Z.to_nat (ratio_acc e))) (n := Z.to_nat (ratio_acc e)) (s := (e, @nil Symbol))
    as ([e' rs] & Hrun & Hq).
  - intros n [s rs] s' (-> & Hc & Hw & Ht & Hn & Ha & Hsum & Hrs) Hb. cbn [fst snd] in *.
    unfold repairs_body in Hb. rewrite Hc in Hb. fold den in Hb. case_match; [|done]. reflect_bools.
    destruct (build_repair _) as [s1 r] eqn:E in Hb. injection Hb as <-.
    set (s0 := mkFecEncoder _ _ _ _ _) in E. pose proof (build_repair_frame s0) as (F1 & F2 & F3 & F4 & F5).
    rewrite E in F1, F2, F3, F4, F5. cbn in F1, F2, F3, F4, F5.
    exists (Z.to_nat (ratio_acc s - den)). cbn [fst snd]. rewrite F1, F2, F3, F4, F5. fold den.
    rewrite len_snoc.
    assert (Forall (repair_of (window e)) (rs ++ [r])).
    { apply Forall_app_2; [done|]. apply Forall_singleton. exists s0. by rewrite E. }
    split; [lia|]. split_and!; try done; try lia; wrap_lia.
  - intros n [s rs] r (-> & Hc & Hw & Ht & Hn & Ha & Hsum & Hrs) Hb. cbn [fst snd] in *.
    unfold repairs_body in Hb. rewrite Hc in Hb. fold den in Hb.
    case_match; [by destruct (build_repair _) in Hb|]. simplify_eq. reflect_bools. cbn. split_and!; done || lia.
  - cbn. by split_and!.
  - lia.
  - exists e', rs. tauto.
Qed.

(** Totality and frame of [push_source]. *)
Lemma push_source_run e seq payload :
  enc_wf e -> in_u32 seq -> payload_ok payload ->
  exists e' out, push_source e seq payload = Some (e', out) /\
    enc_wf e' /\ config e' = config e /\ out_source out = Source seq payload /\
    (exists k, window e' = drop k (window e) ++ [mkWindowEntry seq (eff payload)]) /\
    len (out_repairs out) * redundancy_denominator (config e) + ratio_acc e' =
      ratio_acc e + redundancy_numerator (config e) /\
    (0 < redundancy_numerator (config e) -> ratio_acc e' < redundancy_denominator (config e)) /\
    Forall (repair_of (window e')) (out_repairs out).
Proof.
  intros Hwf Hseq [Hbytes Hlen]. unfold push_source. pose proof (len_nonneg payload).
  rewrite (proj2 (Z.ltb_ge 65520 (len payload))) by lia.
  replace (wrap32 (len payload)) with (len payload) by wrap_lia.
  destruct (evict_symbols_loop e Hwf) as (e1 & -> & Hwf1 & Hev1 & Hl1). cbn [mbind option_bind].
  assert (exists e2, loop_fuel (S (length (window e1))) (evict_bytes_body (len payload)) e1 = Some e2 /\
    enc_wf e2 /\ evicted_from e1 e2 /\
    (window e2 = [] \/ window_byte_total e2 + len payload <= window_max_bytes (config e1)))
    as (e2 & -> & Hwf2 & Hev2 & Hb2).
  { destruct (evict_bytes_loop (len payload) e1 Hwf1) as (e2 & Hrun & Hwf2 & Hev2 & Hb).
    exists e2. split_and!; [done..|].
    destruct Hb as [|[|Hb]]; [by left|by right|]. destruct Hwf2.
    pose proof (window_bytes_bound _ wf_window0). unfold u32_max in Hb. lia. }
  cbn [mbind option_bind].
  set (e3 := mkFecEncoder _ _ _ _ _).
  assert (len (window e2) + 1 <= window_max_symbols (config e)) as Hcap.
  { destruct (ev_window _ _ Hev2) as [k ->]. unfold len in *. rewrite length_drop. lia. }
  pose proof (ev_config _ _ Hev1) as C1. pose proof (ev_config _ _ Hev2) as C2.
  assert (config e3 = config e) as C3 by (cbn; congruence).
  assert (window e3 = window e2 ++ [mkWindowEntry seq (eff payload)]) as W3 by done.
  assert (exists k, window e3 = drop k (window e) ++ [mkWindowEntry seq (eff payload)]) as Hk.
  { destruct (ev_window _ _ Hev1) as [k1 K1], (ev_window _ _ Hev2) as [k2 K2].
    exists (k1 + k2)%nat. by rewrite W3, K2, K1, drop_drop. }
  assert (ratio_acc e3 = ratio_acc e) as A3
    by (cbn; rewrite (ev_acc _ _ Hev2); apply (ev_acc _ _ Hev1)).
  assert (enc_wf e3) as Hwf3.
  { destruct Hwf2. pose proof (window_bytes_bound _ wf_window0).
    assert (window_byte_total e3 = window_byte_total e2 + len payload) as T3
      by (cbn; wrap_lia).
    assert (sumZ (entry_bytes <$> window e3) = sumZ (entry_bytes <$> window e2) + len payload) as S3.
    { rewrite W3, fmap_app, sumZ_app. f_equal. unfold sumZ, entry_bytes. simpl foldr.
      cbn [prefixed_payload]. rewrite len_eff. lia. }
    split; rewrite ?C3; try by destruct Hwf.
    - rewrite W3. apply Forall_app_2; [done|]. apply Forall_singleton. split; [done|]. by exists payload.
    - rewrite W3, len_snoc. lia.
    - lia.
    - rewrite T3, W3, len_snoc. destruct Hb2 as [->|Hb2]; [by right|left].
      rewrite <- C1. lia. }
  destruct Hwf as [Hnum Hden _ _ _ _ _ _ _ Hacc].
  rewrite C3. destruct (0 <? redundancy_numerator (config e)) eqn:Epos; reflect_bools.
  - rewrite A3. set (e4 := mkFecEncoder _ _ _ _ _).
    assert (ratio_acc e4 = ratio_acc e + redundancy_numerator (config e)) as A4 by (cbn; wrap_lia).
    assert (config e4 = config e) as C4 by (cbn; congruence).
    destruct (repairs_loop e4) as (e5 & rs & -> & C5 & W5 & T5 & N5 & Hacc5 & Hsum & Hrs);
      [rewrite C4; lia|lia|by destruct Hwf3|].
    cbn [mbind option_bind]. rewrite C4 in *. exists e5, (mkEncoderOutput (Source seq payload) rs).
    split_and!; [done| |congruence|done|by rewrite W5|cbn; lia|lia|cbn; by rewrite W5].
    destruct Hwf3. split; rewrite ?C5, ?W5, ?T5; try (rewrite <- ?C3; done). lia.
  - exists e3, (mkEncoderOutput (Source seq payload) []).
    split_and!; [done|done|done|done|done|rewrite A3; change (len (out_repairs _)) with 0; lia|lia|constructor].
Qed.

(** ** The window as an interval of the sender's sequence numbers *)

(** The window holds the [len w] sequence numbers just below [next]. *)
Definition ends_at (next : Z) (w : list WindowEntry) : Prop :=
  forall i en, w !! i = Some en -> entry_seq en = wrap32 (next - len w + Z.of_nat i).

(** The window agrees with the sender's log. *)
Definition logged (truth : Z -> list Z) (w : list WindowEntry) : Prop :=
  Forall (fun en => payload_ok (truth (entry_seq en)) /\ prefixed_payload en = eff (truth (entry_seq en))) w.

Lemma ends_at_drop next k w : ends_at next w -> ends_at next (drop k w).
Proof.
  intros H i en Hi. rewrite lookup_drop in Hi. rewrite (H _ _ Hi). f_equal.
  pose proof (lookup_lt_Some _ _ _ Hi). unfold len. rewrite length_drop. lia.
Qed.

Lemma ends_at_snoc next w en :
  ends_at next w -> entry_seq en = next -> in_u32 next -> ends_at (wrap32 (next + 1)) (w ++ [en]).
Proof.
  intros H He Hn i en' Hi. rewrite len_snoc.
  replace (wrap32 (next + 1) - (len w + 1) + Z.of_nat i)
    with (wrap32 (next + 1) - (len w + 1 - Z.of_nat i)) by lia.
  rewrite wrap32_sub_l. apply lookup_snoc_Some in Hi as [[_ Hi]|[-> ->]].
  - rewrite (H _ _ Hi). f_equal. lia.
  - rewrite He. unfold len. replace (next + 1 - _) with next by lia. by rewrite wrap32_id.
Qed.

Lemma ends_at_range next w :
  in_u32 next -> ends_at next w -> len w < 4294967296 ->
  entry_seq <$> w = serial_range (wrap32 (next - len w)) next.
Proof.
  intros Hn H Hl. pose proof (len_nonneg w). apply list_eq. intros i. apply option_eq. intros s.
  rewrite lookup_serial_range, list_lookup_fmap, wrap32_wrap_l, wrap32_sub_r.
  replace (next - (next - len w)) with (len w) by lia. rewrite (wrap32_id (len w)) by (rewrite in_u32_iff; lia).
  split.
  - destruct (w !! i) as [en|] eqn:E; simpl; [|done]. intros [= <-]. rewrite (H _ _ E).
    apply lookup_lt_Some in E. unfold len. split; [done|lia].
  - intros [-> Hi]. destruct (lookup_lt_is_Some_2 w i) as [en E]; [unfold len in *; lia|].
    rewrite E. simpl. f_equal. by apply H.
Qed.

Lemma ends_at_head_last next w front back :
  in_u32 next -> ends_at next w -> len w < 4294967296 -> head w = Some front -> last w = Some back ->
  entry_seq front = wrap32 (next - len w) /\ wrap32 (entry_seq back + 1) = next.
Proof.
  intros Hn H Hl Hf Hb. pose proof (len_nonneg w). split.
  - rewrite (H O front); [f_equal; lia|]. by rewrite <- head_lookup.
  - rewrite last_lookup in Hb. rewrite (H _ _ Hb), wrap32_wrap_l.
    apply lookup_lt_Some in Hb. unfold len in *. replace (next - _ + _ + 1) with next by lia.
    by apply wrap32_id.
Qed.

Lemma maxZ_entries w en : en ∈ w ->
  len (prefixed_payload en) <= maxZ 2 ((fun en => len (prefixed_payload en)) <$> w).
Proof. intros. apply maxZ_ge. by apply (list_elem_of_fmap_2 (fun en => len (prefixed_payload en))). Qed.

(** The repairs the encoder builds are truthful. *)
Lemma repair_of_truthful truth next w r :
  w <> [] -> in_u32 next -> len w <= 128 -> ends_at next w -> logged truth w -> repair_of w r ->
  exists q p, r = Repair q (wrap32 (next - len w)) next p /\ truthful truth r.
Proof.
  intros Hne Hnext Hlen Hends Hlog (e & Hw & Hq & ->). unfold build_repair. rewrite Hw.
  destruct (head w) as [front|] eqn:Hf; [|by apply head_None in Hf].
  destruct (last w) as [back|] eqn:Hb; [|by apply last_None in Hb].
  destruct (ends_at_head_last next w front back) as [-> ->]; [done..|lia|done|done|].
  cbn [snd]. eexists _, _. split; [done|].
  set (w0 := wrap32 (next - len w)). set (m := maxZ 2 _).
  assert (entry_seq <$> w = serial_range w0 next) as Hrange by (apply ends_at_range; [done..|lia]).
  assert (forall en, en ∈ w -> payload_ok (truth (entry_seq en)) /\ prefixed_payload en = eff (truth (entry_seq en))) as Hlog'.
  { intros en Hen. unfold logged in Hlog. rewrite Forall_forall in Hlog. by apply Hlog. }
  assert (2 <= m) as Hm.
  { assert (front ∈ w) as Hin by (rewrite head_lookup in Hf; by eapply list_elem_of_lookup_2).
    pose proof (maxZ_entries w front Hin). destruct (Hlog' _ Hin) as [_ Ep]. rewrite Ep, len_eff in H.
    pose proof (len_nonneg (truth (entry_seq front))). fold m in H. lia. }
  split_and!; try apply Hq; try apply wrap32_in; try apply Hnext.
  - rewrite <- length_serial_range, <- Hrange. unfold len. rewrite length_fmap. done.
  - apply bytes_combine; [|auto with bytes]. apply Forall_forall. intros en Hen.
    destruct (Hlog' en Hen) as [[Hp _] ->]. auto with bytes.
  - unfold len. rewrite length_combine, length_replicate. lia.
  - intros s Hs. rewrite <- Hrange in Hs. apply list_elem_of_fmap in Hs as (en & -> & Hen).
    destruct (Hlog' en Hen) as [Hp Ep]. split; [done|]. rewrite <- Ep. unfold len at 2.
    rewrite length_combine, length_replicate. pose proof (maxZ_entries w en Hen). fold m in H. lia.
  - intros j. rewrite at0_combine.
    + rewrite at0_replicate, Z.lxor_0_l. unfold combination. rewrite <- Hrange, <- list_fmap_compose.
      f_equal. apply list_fmap_ext. intros i en Hi. cbn.
      by destruct (Hlog' en) as [_ ->]; [by eapply list_elem_of_lookup_2|].
    + apply Forall_forall. intros en Hen. pose proof (maxZ_entries w en Hen). fold m in H.
      unfold len at 2. rewrite length_replicate. lia.
Qed.

(** ** Acknowledgements *)

Lemma serial_cmp_distance a b :
  in_u32 a -> in_u32 b ->
  serial_cmp a b =
    if wrap32 (a - b) =? 0 then Some Eq
    else if wrap32 (a - b) =? 2147483648 then None
    else if wrap32 (a - b) <? 2147483648 then Some Gt else Some Lt.
Proof.
  intros Ha Hb. unfold serial_cmp. destruct (Z.eqb_spec a b) as [->|Hne].
  - by rewrite Z.sub_diag.
  - destruct (Z.eqb_spec (wrap32 (a - b)) 0); [wrap_lia|done].
Qed.

Lemma drop_head {A} j (l : list A) x : head (drop j l) = Some x -> l !! j = Some x.
Proof. intros H. rewrite head_lookup, lookup_drop, Nat.add_0_r in H. done. Qed.

Lemma evict_oldest_drop j e0 e :
  window e = drop j (window e0) -> window (evict_oldest e) = drop (S j) (window e0).
Proof.
  intros H. unfold evict_oldest. replace (S j) with (j + 1)%nat by lia. rewrite <- drop_drop, <- H.
  by destruct (window e) eqn:E.
Qed.

Lemma serial_cmp_shift base x h d :
  in_u32 h -> d = wrap32 (h - base) ->
  serial_cmp (wrap32 (base + x)) h =
    if wrap32 (x - d) =? 0 then Some Eq
    else if wrap32 (x - d) =? 2147483648 then None
    else if wrap32 (x - d) <? 2147483648 then Some Gt else Some Lt.
Proof.
  intros Hh ->. rewrite serial_cmp_distance by (done || apply wrap32_in).
  by replace (wrap32 (wrap32 (base + x) - h)) with (wrap32 (x - wrap32 (h - base)))
    by (rewrite wrap32_sub_l, wrap32_sub_r; f_equal; lia).
Qed.

(** An interval window: entry [j] carries the number [base + j]. *)
Definition based_at (base : Z) (w : list WindowEntry) : Prop :=
  forall j f, w !! j = Some f -> entry_seq f = wrap32 (base + Z.of_nat j) /\ Z.of_nat j < len w.

Lemma ends_at_based next w : ends_at next w -> based_at (wrap32 (next - len w)) w.
Proof.
  intros H j f Hj. rewrite (H _ _ Hj), wrap32_wrap_l. apply lookup_lt_Some in Hj. unfold len. split; [f_equal|]; lia.
Qed.

Section acknowledge_loop.
Context (e : FecEncoder) (base h : Z).
Let w := window e.
Let d := wrap32 (h - base).
Context (Hwf : enc_wf e) (Hh : in_u32 h) (Hbase : based_at base w) (Hin : d < len w).

(** The state of the eviction loop after [j] rounds. *)
Let round (m : nat) (s : FecEncoder) : Prop :=
  exists j, (Z.of_nat j <= d + 1) /\ m = length (window s) /\ window s = drop j w /\ enc_wf s /\
    config s = config e /\ next_repair_seq s = next_repair_seq e.

Lemma len_w_bound : 0 <= d /\ len w <= 128.
Proof. destruct Hwf. split; [apply wrap32_range|subst w; lia]. Qed.

Lemma acknowledge_body_cases s j :
  window s = drop j w ->
  acknowledge_body h s =
    match w !! j with
    | None => inr s
    | Some _ => if Z.of_nat j <=? d then inl (evict_oldest s) else
                if Z.of_nat j - d <? 2147483648 then inr s else acknowledge_body h s
    end.
Proof.
  intros Hw. unfold acknowledge_body. rewrite Hw, head_lookup, lookup_drop, Nat.add_0_r.
  destruct (w !! j) as [f|] eqn:Hf; [|done]. destruct (Hbase j f Hf) as [-> Hj].
  pose proof len_w_bound. rewrite (serial_cmp_shift base _ h d) by done.
  repeat case_match; reflect_bools; try done; wrap_lia.
Qed.

Lemma acknowledge_loop :
  exists e', loop_fuel (S (length w)) (acknowledge_body h) e = Some e' /\
    enc_wf e' /\ config e' = config e /\ next_repair_seq e' = next_repair_seq e /\
    window e' = drop (Z.to_nat (d + 1)) w.
Proof.
  pose proof len_w_bound. apply (loop_fuel_spec (acknowledge_body h) round) with (n := length w).
  - intros m s s' (j & Hj & -> & Hw & Hs & Hc & Hn) Hb. rewrite (acknowledge_body_cases s j Hw) in Hb.
    destruct (w !! j) as [f|] eqn:Hf; [|done]. destruct (Hbase _ _ Hf) as [_ Hjn].
    assert (Z.of_nat j <= d /\ s' = evict_oldest s) as [Hjd ->].
    { repeat case_match; simplify_eq; reflect_bools; [done|]. unfold len in *. lia. }
    destruct (evicted_from_oldest s). apply lookup_lt_Some in Hf.
    exists (length (window (evict_oldest s))). split.
    + rewrite (length_evict_oldest s); [lia|]. intros E. rewrite Hw in E.
      apply (f_equal length) in E. rewrite length_drop in E. simpl in E. lia.
    + exists (S j). split_and!; [lia|done|by apply evict_oldest_drop|by apply evict_oldest_wf|congruence|congruence].
  - intros m s r (j & Hj & -> & Hw & Hs & Hc & Hn) Hb. rewrite (acknowledge_body_cases s j Hw) in Hb.
    assert (r = s /\ drop j w = drop (Z.to_nat (d + 1)) w) as [-> Hjk].
    { destruct (w !! j) as [f|] eqn:Hf.
      - destruct (Hbase _ _ Hf) as [_ Hjn]. repeat case_match; simplify_eq; reflect_bools.
        + split; [done|]. f_equal. lia.
        + unfold len in *. lia.
      - injection Hb as <-. apply lookup_ge_None in Hf. split; [done|].
        unfold len in Hin. rewrite !drop_ge by lia. done. }
    by rewrite Hw, Hjk.
  - exists O. split_and!; done || lia.
  - lia.
Qed.
End acknowledge_loop.

(** How many entries an ACK of [h] retires from a window of [n] starting at [base]. *)
Definition acked (base n h : Z) : Z := if wrap32 (h - base) <? n then wrap32 (h - base) + 1 else 0.

Lemma acknowledge_run e next h :
  enc_wf e -> in_u32 next -> ends_at next (window e) -> in_u32 h ->
  exists e', acknowledge e h = Some e' /\ enc_wf e' /\ config e' = config e /\
    next_repair_seq e' = next_repair_seq e /\
    window e' = drop (Z.to_nat (acked (wrap32 (next - len (window e))) (len (window e)) h)) (window e).
Proof.
  intros Hwf Hnext Hends Hh. apply ends_at_based in Hends. unfold acknowledge, acked.
  set (w := window e) in *. set (base := wrap32 (next - len w)) in *. set (d := wrap32 (h - base)).
  assert (len w <= 128) as Hn by (destruct Hwf; subst w; lia).
  pose proof (wrap32_range (h - base)) as Hd. fold d in Hd.
  destruct (last w) as [back|] eqn:Hback.
  2:{ apply last_None in Hback. exists e. by rewrite Hback, drop_nil. }
  pose proof Hback as Hback'. rewrite last_lookup in Hback'. destruct (Hends _ _ Hback') as [Eback Hlt].
  set (n1 := Z.of_nat (Init.Nat.pred (length w))) in *.
  assert (0 <= n1) as Hn1 by (subst n1; lia).
  assert (len w = n1 + 1) as En by (unfold len in *; apply lookup_lt_Some in Hback'; lia).
  assert (serial_cmp h (entry_seq back) = option_map CompOpp (serial_cmp (entry_seq back) h)) as Eanti
    by (apply serial_cmp_antisym; [rewrite Eback; apply wrap32_in|done]).
  rewrite Eback in *. rewrite (serial_cmp_shift base n1 h d) in Eanti by done. rewrite Eanti.
  destruct (Z.ltb_spec d (len w)) as [Hin|Hout].
  - destruct (acknowledge_loop e base h Hwf Hh Hends Hin) as (e' & Hrun & Hres). fold w in Hrun.
    exists e'. split; [|exact Hres].
    repeat case_match; try done; cbn in *; simplify_eq; reflect_bools; wrap_lia.
  - exists e. fold w. rewrite drop_0. split_and!; try done.
    destruct (w !! O) as [f|] eqn:Hf.
    2:{ apply lookup_ge_None in Hf. unfold len in *. lia. }
    destruct (Hends _ _ Hf) as [Ef _].
    assert (acknowledge_body h e = inr e \/ ~ (wrap32 (n1 - d) < 2147483648)) as Hstop.
    { unfold acknowledge_body. fold w. rewrite head_lookup, Hf, Ef, (serial_cmp_shift base (Z.of_nat 0) h d) by done.
      repeat case_match; try by left. all: reflect_bools; right; wrap_lia. }
    cbn [loop_fuel]. destruct Hstop as [->|Hstop]; [by repeat case_match|].
    repeat case_match; try done; cbn in *; simplify_eq; reflect_bools; wrap_lia.
Qed.

(** ** Runs of the encoder *)

Definition config_ok (c : FecConfig) : Prop :=
  in_u8 (redundancy_numerator c) /\ in_u8 (redundancy_denominator c) /\
  in_u16 (window_max_symbols c) /\ in_u32 (window_max_bytes c).

(** A sender with log [truth]: it pushes its sources in sequence, from any
    starting number, and at any point handles an ACK or changes the ratio.
    The indices are the next sequence number, the encoder and what was sent. *)
Inductive enc_run (truth : Z -> list Z) : Z -> FecEncoder -> list Symbol -> Prop :=
| run_new c first : config_ok c -> in_u32 first -> enc_run truth first (new c) []
| run_push next e sent e' out :
    enc_run truth next e sent -> payload_ok (truth next) ->
    push_source e next (truth next) = Some (e', out) ->
    enc_run truth (wrap32 (next + 1)) e' (sent ++ out_source out :: out_repairs out)
| run_ack next e sent h e' :
    enc_run truth next e sent -> in_u32 h -> acknowledge e h = Some e' -> enc_run truth next e' sent
| run_ratio next e sent num den :
    enc_run truth next e sent -> in_u8 num -> in_u8 den ->
    enc_run truth next (set_redundancy e num den) sent.

Lemma new_wf c : config_ok c -> enc_wf (new c).
Proof.
  intros (Hn & Hd & Hs & Hb). split; cbn; try done; try wrap_lia.
  all: rewrite ?len_nil; wrap_lia.
Qed.

Lemma set_redundancy_wf e num den : in_u8 num -> in_u8 den -> enc_wf e -> enc_wf (set_redundancy e num den).
Proof. intros Hn Hd []. split; cbn; try done; wrap_lia. Qed.

Lemma enc_run_ok truth next e sent :
  enc_run truth next e sent ->
  in_u32 next /\ enc_wf e /\ ends_at next (window e) /\ logged truth (window e) /\ Forall (truthful truth) sent.
Proof.
  induction 1 as [c first Hc Hf|next e sent e' out Hrun (Hn & Hwf & Hends & Hlog & Hsent) Hp Hpush
    |next e sent h e' Hrun (Hn & Hwf & Hends & Hlog & Hsent) Hh Hack
    |next e sent num den Hrun (Hn & Hwf & Hends & Hlog & Hsent) Hnum Hden].
  - split_and!; try apply Hf; [by apply new_wf|by intros i en|constructor|constructor].
  - destruct (push_source_run e next (truth next) Hwf Hn Hp)
      as (e1 & out1 & E & Hwf' & Hc & Hsrc & [k Hw] & _ & _ & Hreps).
    rewrite E in Hpush. injection Hpush as -> ->.
    assert (ends_at (wrap32 (next + 1)) (window e')) as Hends'.
    { rewrite Hw. by apply ends_at_snoc; [apply ends_at_drop| |]. }
    assert (logged truth (window e')) as Hlog'.
    { rewrite Hw. apply Forall_app_2; [by apply Forall_drop|]. by apply Forall_singleton. }
    split; [apply wrap32_in|]. split; [done|]. split; [done|]. split; [done|].
    apply Forall_app_2; [done|]. constructor; [by rewrite Hsrc|].
    eapply Forall_impl; [exact Hreps|]. intros r Hr.
    destruct (repair_of_truthful truth (wrap32 (next + 1)) (window e') r) as (q & p & _ & Ht); try done.
    + rewrite Hw. by destruct (drop k (window e)).
    + apply wrap32_in.
    + destruct Hwf'. lia.
  - destruct (acknowledge_run e next h Hwf Hn Hends Hh) as (e1 & E & Hwf' & _ & _ & Hw).
    rewrite E in Hack. injection Hack as ->. rewrite Hw.
    split_and!; try apply Hn; [done|by apply ends_at_drop|by apply Forall_drop|done].
  - split_and!; try apply Hn; [by apply set_redundancy_wf|done|done|done].
Qed.

(** The pushes of a run of consecutive payloads. *)
Fixpoint push_all (e : FecEncoder) (seq : Z) (payloads : list (list Z)) : option (FecEncoder * list Symbol) :=
  match payloads with
  | [] => Some (e, [])
  | p :: ps =>
      '(e, out) ← push_source e seq p;
      '(e, sent) ← push_all e (wrap32 (seq + 1)) ps;
      Some (e, out_source out :: out_repairs out ++ sent)
  end.

Definition is_repair (s : Symbol) : bool := match s with Repair _ _ _ _ => true | Source _ _ => false end.

Lemma repair_of_is_repair w r : repair_of w r -> is_repair r = true.
Proof. intros (e & _ & _ & ->). unfold build_repair. by repeat case_match. Qed.

Lemma filter_repairs rs w :
  Forall (repair_of w) rs -> filter (fun s => is_repair s = true) rs = rs.
Proof.
  induction 1 as [|r rs Hr Hrs IH]; [done|]. rewrite filter_cons_True by (by eapply repair_of_is_repair). by f_equal.
Qed.

Lemma push_all_rate e seq payloads :
  enc_wf e -> in_u32 seq -> Forall payload_ok payloads ->
  exists e' sent, push_all e seq payloads = Some (e', sent) /\ enc_wf e' /\ config e' = config e /\
    len (filter (fun s => is_repair s = true) sent) * redundancy_denominator (config e) + ratio_acc e' =
      ratio_acc e + len payloads * redundancy_numerator (config e) /\
    (0 < redundancy_numerator (config e) -> ratio_acc e < redundancy_denominator (config e) ->
     ratio_acc e' < redundancy_denominator (config e)).
Proof.
  intros Hwf Hseq Hps. revert e seq Hwf Hseq. induction Hps as [|p ps Hp Hps IH]; intros e seq Hwf Hseq; cbn [push_all].
  - exists e, []. split_and!; try done. unfold len. simpl. lia.
  - destruct (push_source_run e seq p Hwf Hseq Hp) as (e1 & out & -> & Hwf1 & Hc1 & Hsrc & _ & Hsum & Hlt1 & Hreps).
    cbn [mbind option_bind].
    destruct (IH e1 (wrap32 (seq + 1)) Hwf1 (wrap32_in _)) as (e2 & sent & -> & Hwf2 & Hc2 & Hsum2 & Hlt).
    cbn [mbind option_bind]. exists e2. eexists. split; [done|]. rewrite Hc1 in *.
    split_and!; [done|congruence| |auto].
    + rewrite Hsrc, filter_cons_False, filter_app, (filter_repairs _ _ Hreps), len_app, len_cons by done. lia.
Qed.

(** ** Properties *)

(** whatever mixture of pushes, ACKs and ratio changes a sender performs,
    the encoder keeps its caps (symbols; bytes, except for a lone oversized
    entry), its byte total is exact, its window is the interval of sequence
    numbers just below the next one, and every symbol it has emitted is
    truthful: a source carries its payload and a repair is the GF(256)
    combination of exactly the sources of the window it announces. *)
Theorem encoder_emits_truthful_symbols truth next e sent :
  enc_run truth next e sent ->
  Forall (truthful truth) sent /\
  len (window e) <= window_max_symbols (config e) <= 128 /\
  window_byte_total e = sumZ (entry_bytes <$> window e) /\
  (window_byte_total e <= window_max_bytes (config e) \/ len (window e) = 1) /\
  entry_seq <$> window e = serial_range (wrap32 (next - len (window e))) next.
Proof.
  intros Hrun. destruct (enc_run_ok _ _ _ _ Hrun) as (Hn & [] & Hends & _ & Hsent).
  split_and!; try done; [lia|]. apply ends_at_range; [done..|lia].
Qed.

(** [push_source] returns for every payload of at most 65520 bytes and
    panics for every longer one; it queues the source last after retiring the
    oldest entries, returns the source unmodified, and the number of repairs it
    emits is what the ratio counter owes: nothing is lost or rounded away. *)
Theorem push_source_ok e seq payload :
  enc_wf e -> in_u32 seq -> bytes payload ->
  match push_source e seq payload with
  | None => 65520 < len payload
  | Some (e', out) =>
      len payload <= 65520 /\ enc_wf e' /\ out_source out = Source seq payload /\
      (exists k, window e' = drop k (window e) ++ [mkWindowEntry seq (eff payload)]) /\
      len (out_repairs out) * redundancy_denominator (config e) + ratio_acc e' =
        ratio_acc e + redundancy_numerator (config e) /\
      Forall (repair_of (window e')) (out_repairs out)
  end.
Proof.
  intros Hwf Hseq Hp. destruct (Z.ltb_spec 65520 (len payload)) as [Hbig|Hok].
  - unfold push_source. by rewrite (proj2 (Z.ltb_lt _ _) Hbig).
  - destruct (push_source_run e seq payload) as (e' & out & -> & ? & ? & ? & ? & ? & ? & ?); [done..|].
    by split_and!.
Qed.

(** pushing n sources through a fresh encoder emits exactly
    floor(n * numerator / denominator) repairs. *)
Theorem redundancy_rate c seq payloads :
  config_ok c -> in_u32 seq -> Forall payload_ok payloads -> 0 < redundancy_numerator c ->
  exists e sent, push_all (new c) seq payloads = Some (e, sent) /\
    len (filter (fun s => is_repair s = true) sent) =
      len payloads * redundancy_numerator c / Z.max (redundancy_denominator c) 1.
Proof.
  intros Hc Hseq Hps Hnum. pose proof (new_wf c Hc) as Hwf.
  destruct (push_all_rate (new c) seq payloads Hwf Hseq Hps) as (e & sent & Hrun & Hwf' & _ & Hsum & Hlt).
  exists e, sent. split; [done|]. cbn in Hsum, Hlt. destruct Hwf' as [_ _ _ _ _ _ _ _ _ Hacc].
  apply Z.div_unique with (ratio_acc e); [|lia]. specialize (Hlt Hnum). lia.
Qed.

(** An ACK of a sequence number inside the window retires exactly the
    entries up to it, whatever the wrap-around; an ACK of any other number,
    the unordered half-range included, changes nothing. *)
Theorem acknowledge_ok truth next e sent h :
  enc_run truth next e sent -> in_u32 h ->
  exists e', acknowledge e h = Some e' /\ enc_wf e' /\
    (h ∈ entry_seq <$> window e ->
       entry_seq <$> window e' = serial_range (wrap32 (h + 1)) next) /\
    (h ∉ entry_seq <$> window e -> window e' = window e).
Proof.
  intros Hrun Hh. destruct (enc_run_ok _ _ _ _ Hrun) as (Hn & Hwf & Hends & _ & _).
  destruct (acknowledge_run e next h Hwf Hn Hends Hh) as (e' & Hack & Hwf' & _ & _ & Hw).
  exists e'. split; [done|]. split; [done|].
  assert (len (window e) <= 128) as Hl by (destruct Hwf; lia). pose proof (len_nonneg (window e)).
  rewrite (ends_at_range next) by (done || lia). set (base := wrap32 (next - len (window e))) in *.
  assert (wrap32 (next - base) = len (window e)) as Ed by (subst base; wrap_lia).
  split; intros Hin.
  - apply elem_of_serial_range in Hin as [_ Hin]; [|apply wrap32_in]. rewrite Ed in Hin.
    rewrite (ends_at_range next (window e')).
    + rewrite Hw. unfold acked. rewrite (proj2 (Z.ltb_lt _ _) Hin). f_equal.
      unfold len in *. rewrite length_drop. subst base. wrap_lia.
    + done.
    + rewrite Hw. by apply ends_at_drop.
    + rewrite Hw. unfold len in *. rewrite length_drop. lia.
  - rewrite Hw. unfold acked. destruct (Z.ltb_spec (wrap32 (h - base)) (len (window e))); [|done].
    destruct Hin. apply elem_of_serial_range; [apply wrap32_in|]. by rewrite Ed.
Qed.

(** ** Witnesses *)

Definition demo_config : FecConfig :=
  {| redundancy_numerator := 1; redundancy_denominator := 2; window_max_symbols := 3; window_max_bytes := 1000 |}.

Definition demo_truth (s : Z) : list Z := [s mod 256; (s * s) mod 256; 7].

Lemma demo_config_ok : config_ok demo_config.
Proof. unfold config_ok, in_u; cbn; lia. Qed.

Lemma demo_truth_ok s : payload_ok (demo_truth s).
Proof. split; [|done]. repeat apply bytes_cons; auto using is_byte_mod with bytes. Qed.

(** Two pushes of the demo sender, across the wrap-around. *)
Definition demo_push (e : FecEncoder) (seq : Z) : FecEncoder * list Symbol :=
  match push_source e seq (demo_truth seq) with
  | Some (e', out) => (e', out_source out :: out_repairs out)
  | None => (e, [])
  end.
Definition demo_e1 : FecEncoder := (demo_push (new demo_config) 4294967295).1.
Definition demo_e2 : FecEncoder := (demo_push demo_e1 0).1.

Lemma demo_push_run seq e sent :
  enc_run demo_truth seq e sent ->
  enc_run demo_truth (wrap32 (seq + 1)) (demo_push e seq).1 (sent ++ (demo_push e seq).2).
Proof.
  intros H. destruct (enc_run_ok _ _ _ _ H) as (Hn & Hwf & _).
  destruct (push_source_run e seq (demo_truth seq) Hwf Hn (demo_truth_ok seq)) as (e' & out & E & _).
  unfold demo_push. rewrite E. eapply run_push; eauto using demo_truth_ok.
Qed.

Lemma demo_run : exists sent, enc_run demo_truth 1 demo_e2 sent.
Proof.
  pose proof (run_new demo_truth demo_config 4294967295 demo_config_ok ltac:(unfold in_u; lia)) as H0.
  eexists. exact (demo_push_run _ _ _ (demo_push_run _ _ _ H0)).
Qed.

Lemma encoder_emits_truthful_symbols_witness : exists sent, Forall (truthful demo_truth) sent /\
  entry_seq <$> window demo_e2 = [4294967295; 0].
Proof.
  destruct demo_run as (sent & H). exists sent.
  destruct (encoder_emits_truthful_symbols demo_truth 1 demo_e2 sent H) as (Ht & _ & _ & _ & Hs).
  split; [exact Ht|rewrite Hs; by vm_compute].
Defined.

Lemma push_source_ok_witness :
  match push_source (new demo_config) 5 [1; 2; 3] with
  | Some (_, out) => out_source out = Source 5 [1; 2; 3]
  | None => False
  end.
Proof.
  pose proof (push_source_ok (new demo_config) 5 [1; 2; 3] (new_wf _ demo_config_ok)
    ltac:(unfold in_u; lia) ltac:(by_decide)) as H.
  destruct (push_source (new demo_config) 5 [1; 2; 3]) as [[e out]|] eqn:E; [by destruct H as (_ & _ & ? & _)|].
  by vm_compute in E.
Defined.

Lemma redundancy_rate_witness : exists e sent,
  push_all (new demo_config) 10 [[1]; [2]; [3]; [4]; [5]] = Some (e, sent) /\
  len (filter (fun s => is_repair s = true) sent) = 2.
Proof.
  apply (redundancy_rate demo_config 10 [[1]; [2]; [3]; [4]; [5]]).
  - apply demo_config_ok.
  - unfold in_u; lia.
  - by_decide.
  - done.
Defined.

Lemma acknowledge_ok_witness : exists e', acknowledge demo_e2 4294967295 = Some e' /\
  entry_seq <$> window e' = [0].
Proof.
  destruct demo_run as (sent & H).
  destruct (acknowledge_ok demo_truth 1 demo_e2 sent 4294967295 H ltac:(unfold in_u; lia)) as (e' & Ha & _ & Hin & _).
  exists e'. split; [exact Ha|]. rewrite Hin by (vm_compute; left). by vm_compute.
Defined.
