(* ===== verification/Gauss.v ===== *)
(** * Gaussian elimination over GF(256) (transport-core/src/fec.rs, [gaussian_elim])

    The elimination as the decoder runs it, on a matrix of coefficients and a
    matrix of right-hand sides, and the proof that every column it reports is
    the value of that unknown in every solution of the system. *)
From S2P Require Import Prelude Serial Gf256 FecEncoder.

(** ** The code *)

(** [m[r][c]] *)
Definition get2 (m : list (list Z)) (r c : nat) : Z := at0 (default [] (m !! r)) c.

(** [slice::swap]. *)
Definition vec_swap {A} (i j : nat) (l : list A) : list A :=
  match l !! i, l !! j with
  | Some x, Some y => <[j:=x]> (<[i:=y]> l)
  | _, _ => l
  end.

(** [row[j] ^= gf_mul(factor, pivot[j])] for every [j]. *)
Definition add_scaled (factor : Z) (pivot row : list Z) : list Z :=
  zip_with (fun v p => v ⊕ gf_mul factor p) row pivot.

Record elim_state := mkElim {
  g_coeffs : list (list Z);
  g_rhs : list (list Z);
  g_pivot_row : list (option nat);
  g_current : nat
}.

(** [(current_row..n_rows).find(|&r| coeffs[r][col] != 0)] *)
Definition find_pivot (coeffs : list (list Z)) (col current n_rows : nat) : option nat :=
  head (filter (fun r => get2 coeffs r col <> 0) (seq current (n_rows - current))).

(** The body of the column loop once pivot row [p] is found; [None] is the panic of [gf_inv(0)]. *)
Definition elim_pivot (st : elim_state) (col p : nat) : option elim_state :=
  let cur := g_current st in
  let coeffs := vec_swap cur p (g_coeffs st) in
  let rhs := vec_swap cur p (g_rhs st) in
  inv_lead ← gf_inv (get2 coeffs cur col);
  let coeffs := alter (fmap (fun v => gf_mul v inv_lead)) cur coeffs in
  let rhs := alter (fmap (fun b => gf_mul b inv_lead)) cur rhs in
  let pivot_coeffs := default [] (coeffs !! cur) in
  let pivot_rhs := default [] (rhs !! cur) in
  let eliminate (pivot : list Z) (r : nat) (row : list Z) : list Z :=
    if bool_decide (r = cur) then row
    else
      let factor := get2 coeffs r col in
      if factor =? 0 then row else add_scaled factor pivot row in
  Some {| g_coeffs := imap (eliminate pivot_coeffs) coeffs;
          g_rhs := imap (eliminate pivot_rhs) rhs;
          g_pivot_row := <[col:=Some cur]> (g_pivot_row st);
          g_current := S cur |}.

(** [for col in 0..n_unknowns] with its [continue] and [break]. *)
Fixpoint elim_cols (n_rows : nat) (cols : list nat) (st : elim_state) : option elim_state :=
  match cols with
  | [] => Some st
  | col :: cols =>
      match find_pivot (g_coeffs st) col (g_current st) n_rows with
      | None => elim_cols n_rows cols st
      | Some p =>
          st ← elim_pivot st col p;
          if bool_decide (n_rows <= g_current st)%nat then Some st else elim_cols n_rows cols st
      end
  end.

(** Whether no non-pivot column of row [pr] has a non-zero coefficient. *)
Definition fully_determined (st : elim_state) (n_unknowns pr : nat) : bool :=
  forallb (fun c => match mjoin (g_pivot_row st !! c) with
                    | Some _ => true
                    | None => get2 (g_coeffs st) pr c =? 0
                    end) (seq 0 n_unknowns).

Definition collect_col (st : elim_state) (n_unknowns col : nat) : list (nat * list Z) :=
  match mjoin (g_pivot_row st !! col) with
  | Some pr =>
      if fully_determined st n_unknowns pr then [(col, default [] (g_rhs st !! pr))] else []
  | None => []
  end.

Definition gaussian_elim (coeffs rhs : list (list Z)) (n_unknowns payload_len : nat) :
  option (list (nat * list Z)) :=
  let n_rows := length coeffs in
  if bool_decide (n_rows = O \/ n_unknowns = O \/ payload_len = O) then Some []
  else
    st ← elim_cols n_rows (seq 0 n_unknowns) (mkElim coeffs rhs (replicate n_unknowns None) 0);
    Some (concat (collect_col st n_unknowns <$> seq 0 n_unknowns)).

(** ** Linear algebra *)

Lemma at0_fmap f (l : list Z) i : f 0 = 0 -> at0 (f <$> l) i = f (at0 l i).
Proof. intros Hf. unfold at0. rewrite list_lookup_fmap. by destruct (l !! i). Qed.

Lemma at0_add_scaled f p row i :
  length p = length row -> at0 (add_scaled f p row) i = at0 row i ⊕ gf_mul f (at0 p i).
Proof.
  intros Hl. unfold at0, add_scaled. rewrite lookup_zip_with.
  destruct (row !! i) as [v|] eqn:Ev; simpl.
  - destruct (lookup_lt_is_Some_2 p i) as [q ->]; [|done]. rewrite Hl. by apply lookup_lt_Some in Ev.
  - apply lookup_ge_None in Ev. rewrite (lookup_ge_None_2 p) by lia. simpl. by rewrite gf_mul_0_r.
Qed.

Lemma length_add_scaled f p row : length p = length row -> length (add_scaled f p row) = length row.
Proof. intros. unfold add_scaled. rewrite length_zip_with. lia. Qed.

Lemma bytes_fmap f (l : list Z) : (forall x, is_byte x -> is_byte (f x)) -> bytes l -> bytes (f <$> l).
Proof. intros Hf Hl. apply Forall_fmap. by eapply Forall_impl. Qed.

Lemma bytes_add_scaled f p row : is_byte f -> bytes p -> bytes row -> bytes (add_scaled f p row).
Proof.
  intros Hf Hp. revert row. unfold add_scaled. induction Hp as [|q p Hq Hp IH]; intros [|v row] Hr; simpl; auto with bytes.
  apply Forall_cons in Hr as [Hv Hr]. apply bytes_cons; auto with bytes.
Qed.

#[export] Hint Resolve bytes_add_scaled : bytes.

Lemma xorsum_byte l : bytes l -> is_byte (xorsum l).
Proof. unfold xorsum. induction 1; simpl; auto with bytes. Qed.

Section sums.
Context {A : Type} (f g : A -> Z).
Context (Hf : forall a, is_byte (f a)) (Hg : forall a, is_byte (g a)).

Lemma xorsum_byte_fmap l : is_byte (xorsum (f <$> l)).
Proof. apply xorsum_byte, Forall_fmap, Forall_true. auto. Qed.

Lemma xorsum_lxor l : xorsum ((fun a => f a ⊕ g a) <$> l) = xorsum (f <$> l) ⊕ xorsum (g <$> l).
Proof. induction l as [|a l IH]; [done|]. cbn. fold (xorsum ((fun a => f a ⊕ g a) <$> l)). rewrite IH. unfold xorsum. xor_ac. Qed.

Lemma xorsum_mul k l : is_byte k -> xorsum ((fun a => gf_mul k (f a)) <$> l) = gf_mul k (xorsum (f <$> l)).
Proof.
  intros Hk. induction l as [|a l IH]; [by rewrite gf_mul_0_r|].
  rewrite !fmap_cons. cbn [xorsum foldr]. fold (xorsum ((fun a => gf_mul k (f a)) <$> l)).
  fold (xorsum (f <$> l)). rewrite IH, gf_mul_lxor_r; auto. apply xorsum_byte_fmap.
Qed.
End sums.

Lemma xorsum_zero {A} (f : A -> Z) l : (forall a, a ∈ l -> f a = 0) -> xorsum (f <$> l) = 0.
Proof.
  induction l as [|a l IH]; intros H; [done|]. rewrite fmap_cons. cbn [xorsum foldr].
  fold (xorsum (f <$> l)). rewrite IH, H; [done|left|]. intros b Hb. apply H. by right.
Qed.

(** A sum with one non-zero term. *)
Lemma xorsum_single {A} (f : A -> Z) l a :
  a ∈ l -> NoDup l -> (forall b, b ∈ l -> b <> a -> f b = 0) -> xorsum (f <$> l) = f a.
Proof.
  intros (l1 & l2 & ->)%list_elem_of_split Hnd H. rewrite fmap_app, xorsum_app, fmap_cons.
  cbn [xorsum foldr]. fold (xorsum (f <$> l2)). apply NoDup_app in Hnd as (_ & Hd & [Ha _]%NoDup_cons).
  rewrite !xorsum_zero; [by rewrite Z.lxor_0_l, Z.lxor_0_r| |].
  - intros b Hb. apply H; [apply elem_of_app; right; by right|]. by intros ->.
  - intros b Hb. apply H; [apply elem_of_app; by left|]. intros ->. apply (Hd a Hb). left.
Qed.

#[export] Hint Resolve xorsum_byte_fmap : bytes.

(** ** The system of equations and its preservation *)

Section elimination.
Context (m P N : nat).

(** [row_value X row]: the left-hand side of the equation [row] at the unknowns [X]. *)
Definition row_value (X : nat -> Z) (row : list Z) : Z :=
  xorsum ((fun c => gf_mul (at0 row c) (X c)) <$> seq 0 m).

Definition row_shape (row b : list Z) : Prop :=
  length row = m /\ bytes row /\ length b = P /\ bytes b.

(** [X c j] is byte [j] of unknown [c]. *)
Definition row_holds (X : nat -> nat -> Z) (row b : list Z) : Prop :=
  forall j, (j < P)%nat -> row_value (fun c => X c j) row = at0 b j.

Definition system (X : nat -> nat -> Z) (coeffs rhs : list (list Z)) : Prop :=
  Forall2 (row_holds X) coeffs rhs.

Definition well_shaped (coeffs rhs : list (list Z)) : Prop :=
  length coeffs = N /\ Forall2 row_shape coeffs rhs.

(** A property of rows the row operations keep. *)
Record row_closed (Q : list Z -> list Z -> Prop) : Prop := {
  closed_scale k row b : is_byte k -> row_shape row b -> Q row b ->
    Q ((fun v => gf_mul v k) <$> row) ((fun v => gf_mul v k) <$> b);
  closed_add k p bp row b : is_byte k -> row_shape p bp -> Q p bp -> row_shape row b -> Q row b ->
    Q (add_scaled k p row) (add_scaled k bp b)
}.

Lemma row_shape_closed : row_closed row_shape.
Proof.
  split.
  - intros k row b Hk (L1 & B1 & L2 & B2) _.
    split; [by rewrite length_fmap|split; [|split; [by rewrite length_fmap|]]];
      apply bytes_fmap; auto with bytes.
  - intros k p bp row b Hk (L1 & B1 & L2 & B2) _ (L3 & B3 & L4 & B4) _.
    split; [rewrite length_add_scaled; lia|split; [auto with bytes|]].
    split; [rewrite length_add_scaled; lia|auto with bytes].
Qed.

Lemma row_holds_closed X : (forall c j, is_byte (X c j)) -> row_closed (row_holds X).
Proof.
  intros HX. split.
  - intros k row b Hk (L1 & B1 & L2 & B2) H j Hj. rewrite at0_fmap by apply gf_mul_0_l.
    rewrite <- H, (gf_mul_comm _ k) by done. unfold row_value. rewrite <- xorsum_mul by auto with bytes.
    f_equal. apply list_fmap_ext. intros ? c _. rewrite at0_fmap by apply gf_mul_0_l.
    rewrite (gf_mul_comm _ k), gf_mul_assoc; auto with bytes.
  - intros k p bp row b Hk (L1 & B1 & L2 & B2) H (L3 & B3 & L4 & B4) H' j Hj.
    rewrite at0_add_scaled by lia. rewrite <- H, <- H' by done. unfold row_value.
    rewrite <- xorsum_mul, <- xorsum_lxor by auto with bytes.
    f_equal. apply list_fmap_ext. intros ? c _. rewrite at0_add_scaled by lia.
    rewrite gf_mul_lxor_l, gf_mul_assoc; auto with bytes.
Qed.

(** ** Entries after each row operation *)

Lemma length_vec_swap {A} i j (l : list A) : length (vec_swap i j l) = length l.
Proof. unfold vec_swap. repeat case_match; rewrite ?length_insert; done. Qed.

Lemma lookup_vec_swap {A} i j (l : list A) k :
  (i < length l)%nat -> (j < length l)%nat ->
  vec_swap i j l !! k = if decide (k = j) then l !! i else if decide (k = i) then l !! j else l !! k.
Proof.
  intros [x Hi]%lookup_lt_is_Some_2 Hj'. pose proof Hj' as [y Hj]%lookup_lt_is_Some_2.
  pose proof (lookup_lt_Some _ _ _ Hi). unfold vec_swap. rewrite Hi, Hj.
  destruct (decide (k = j)) as [->|Hkj]; [by rewrite list_lookup_insert_eq by (rewrite length_insert; lia)|].
  rewrite list_lookup_insert_ne by done.
  destruct (decide (k = i)) as [->|Hki]; [by rewrite list_lookup_insert_eq by lia|by rewrite list_lookup_insert_ne].
Qed.

Lemma Forall2_vec_swap {A B} (Q : A -> B -> Prop) i j l k :
  Forall2 Q l k -> (i < length l)%nat -> (j < length l)%nat -> Forall2 Q (vec_swap i j l) (vec_swap i j k).
Proof.
  intros H Hi Hj. pose proof (Forall2_length _ _ _ H) as E.
  apply Forall2_lookup. intros r. rewrite !lookup_vec_swap by lia.
  repeat case_decide; by apply Forall2_lookup.
Qed.

Lemma get2_vec_swap i j l r c :
  (i < length l)%nat -> (j < length l)%nat ->
  get2 (vec_swap i j l) r c =
    if decide (r = j) then get2 l i c else if decide (r = i) then get2 l j c else get2 l r c.
Proof. intros. unfold get2. rewrite lookup_vec_swap by done. repeat case_decide; congruence. Qed.

Lemma get2_alter f i l r c :
  f 0 = 0 -> get2 (alter (fmap f) i l) r c = if decide (r = i) then f (get2 l i c) else get2 l r c.
Proof.
  intros Hf. unfold get2. rewrite list_lookup_alter.
  repeat case_decide; subst; try congruence.
  destruct (l !! _); simpl; [by rewrite at0_fmap|]. by rewrite !(at0_ge [] c) by (simpl; lia).
Qed.

Lemma get2_byte coeffs rhs r c : Forall2 row_shape coeffs rhs -> is_byte (get2 coeffs r c).
Proof.
  intros H. unfold get2. destruct (coeffs !! r) eqn:E; simpl; [|unfold at0; rewrite lookup_nil; auto with bytes].
  destruct (Forall2_lookup_l _ _ _ _ _ H E) as (b & _ & (_ & ? & _)). auto with bytes.
Qed.

(** [eliminate] of [elim_pivot], on every row at once. *)
Definition eliminate (coeffs : list (list Z)) (col cur : nat) (pivot : list Z) (r : nat) (row : list Z) :=
  if bool_decide (r = cur) then row
  else let factor := get2 coeffs r col in
       if factor =? 0 then row else add_scaled factor pivot row.

Lemma Forall2_eliminate (Q : list Z -> list Z -> Prop) coeffs rhs col cur pc pb :
  row_closed Q -> coeffs !! cur = Some pc -> rhs !! cur = Some pb ->
  Forall2 row_shape coeffs rhs -> Forall2 Q coeffs rhs ->
  Forall2 Q (imap (eliminate coeffs col cur pc) coeffs) (imap (eliminate coeffs col cur pb) rhs).
Proof.
  intros HQ Hc Hb Hs HF. apply Forall2_same_length_lookup.
  pose proof (Forall2_length _ _ _ Hs). split; [by rewrite !length_imap|].
  intros r row b. rewrite !list_lookup_imap, !fmap_Some. intros (row' & Er & ->) (b' & Eb & ->).
  unfold eliminate. case_bool_decide; [by eapply Forall2_lookup_lr|].
  case_match; [by eapply Forall2_lookup_lr|]. apply HQ; try by eapply Forall2_lookup_lr.
  by eapply get2_byte.
Qed.

Lemma Forall2_scale (Q : list Z -> list Z -> Prop) coeffs rhs k i :
  row_closed Q -> is_byte k -> Forall2 row_shape coeffs rhs -> Forall2 Q coeffs rhs ->
  Forall2 Q (alter (fmap (fun v => gf_mul v k)) i coeffs) (alter (fmap (fun v => gf_mul v k)) i rhs).
Proof.
  intros HQ Hk Hs HF. pose proof (Forall2_length _ _ _ Hs) as E. apply Forall2_same_length_lookup.
  split; [by rewrite !length_alter|]. intros r row b.
  destruct (decide (i = r)) as [->|Hne].
  - rewrite !list_lookup_alter_eq, !fmap_Some. intros (row' & Er & ->) (b' & Eb & ->).
    apply HQ; [done|by eapply Forall2_lookup_lr..].
  - rewrite !list_lookup_alter_ne by done. intros. by eapply Forall2_lookup_lr.
Qed.

Lemma get2_eliminate coeffs rhs col cur pc r c :
  Forall2 row_shape coeffs rhs -> coeffs !! cur = Some pc -> (r < length coeffs)%nat -> r <> cur ->
  get2 (imap (eliminate coeffs col cur pc) coeffs) r c =
    get2 coeffs r c ⊕ gf_mul (get2 coeffs r col) (get2 coeffs cur c).
Proof.
  intros Hs Hc [row Hr]%lookup_lt_is_Some_2 Hne.
  destruct (Forall2_lookup_l _ _ _ _ _ Hs Hr) as (b & _ & (L & _)).
  destruct (Forall2_lookup_l _ _ _ _ _ Hs Hc) as (b' & _ & (L' & _)).
  unfold get2 at 1. rewrite list_lookup_imap, Hr. simpl.
  unfold eliminate. rewrite bool_decide_eq_false_2 by done.
  case_match eqn:E; reflect_bools.
  - rewrite E, gf_mul_0_l, Z.lxor_0_r. unfold get2. by rewrite Hr.
  - rewrite at0_add_scaled by congruence. unfold get2 at 2 4. by rewrite Hr, Hc.
Qed.

Lemma get2_eliminate_cur coeffs col cur pc c :
  get2 (imap (eliminate coeffs col cur pc) coeffs) cur c = get2 coeffs cur c.
Proof.
  unfold get2 at 1 2. rewrite list_lookup_imap. destruct (coeffs !! cur) eqn:E; [|done].
  unfold eliminate. by rewrite bool_decide_eq_true_2.
Qed.

(** ** The invariant of the column loop *)

Definition unit_columns (coeffs : list (list Z)) (pivots : list (option nat)) (current : nat) : Prop :=
  forall c r, pivots !! c = Some (Some r) ->
    (r < current)%nat /\ forall r', (r' < N)%nat -> get2 coeffs r' c = if decide (r' = r) then 1 else 0.

Record elim_wf (st : elim_state) : Prop := {
  ew_rows : length (g_coeffs st) = N;
  ew_shape : Forall2 row_shape (g_coeffs st) (g_rhs st);
  ew_current : (g_current st <= N)%nat;
  ew_pivots : length (g_pivot_row st) = m;
  ew_unit : unit_columns (g_coeffs st) (g_pivot_row st) (g_current st);
  ew_inj : forall c c' r, g_pivot_row st !! c = Some (Some r) ->
    g_pivot_row st !! c' = Some (Some r) -> c = c'
}.

Lemma find_pivot_spec coeffs col cur p :
  find_pivot coeffs col cur N = Some p -> (cur <= p < N)%nat /\ get2 coeffs p col <> 0.
Proof.
  unfold find_pivot. intros H%head_Some_elem_of.
  apply list_elem_of_filter in H as [H1 H2%elem_of_seq]. split; [lia|done].
Qed.

Lemma find_pivot_None coeffs col cur r :
  find_pivot coeffs col cur N = None -> (cur <= r < N)%nat -> get2 coeffs r col = 0.
Proof.
  unfold find_pivot. intros H Hr. destruct (decide (get2 coeffs r col = 0)) as [|Hne]; [done|].
  assert (Hin : r ∈ filter (fun r => get2 coeffs r col <> 0) (seq cur (N - cur))).
  { apply list_elem_of_filter. split; [done|]. apply elem_of_seq. lia. }
  destruct (filter _ _); [by apply elem_of_nil in Hin|done].
Qed.

Lemma pivot_entries C0 C1 C2 C3 pivots cur p col k :
  unit_columns C0 pivots cur -> (cur <= p < N)%nat -> (col < length pivots)%nat ->
  (forall r c, get2 C1 r c =
    if decide (r = p) then get2 C0 cur c else if decide (r = cur) then get2 C0 p c else get2 C0 r c) ->
  (forall r c, get2 C2 r c = if decide (r = cur) then gf_mul (get2 C1 cur c) k else get2 C1 r c) ->
  (forall r c, (r < N)%nat -> get2 C3 r c =
    if decide (r = cur) then get2 C2 cur c else get2 C2 r c ⊕ gf_mul (get2 C2 r col) (get2 C2 cur c)) ->
  gf_mul (get2 C1 cur col) k = 1 -> (forall r c, is_byte (get2 C2 r c)) ->
  unit_columns C3 (<[col:=Some cur]> pivots) (S cur).
Proof.
  intros HU Hp Hcol G1 G2 G3 Hk HB c r Hc.
  assert (E1 : get2 C2 cur col = 1) by (by rewrite G2, decide_True).
  destruct (decide (c = col)) as [->|Hne].
  - rewrite list_lookup_insert_eq in Hc by done. simplify_eq. split; [lia|]. intros r' Hr'.
    rewrite G3, E1 by done. case_decide; [done|]. rewrite gf_mul_1_r by auto. apply Z.lxor_nilpotent.
  - rewrite list_lookup_insert_ne in Hc by done. destruct (HU c r Hc) as [Hr HU'].
    assert (E2 : forall r', (r' < N)%nat -> get2 C1 r' c = if decide (r' = r) then 1 else 0).
    { intros r' Hr'. rewrite G1. repeat case_decide; rewrite HU' by lia; repeat case_decide; lia. }
    assert (E3 : get2 C2 cur c = 0) by (rewrite G2, E2 by lia; repeat case_decide; try lia; apply gf_mul_0_l).
    split; [lia|]. intros r' Hr'. rewrite G3, E3, gf_mul_0_r, Z.lxor_0_r by done.
    case_decide; [case_decide; lia|]. rewrite G2, decide_False by done. by apply E2.
Qed.

Lemma pivot_injective (pivots : list (option nat)) cur col :
  (col < length pivots)%nat ->
  (forall c r, pivots !! c = Some (Some r) -> (r < cur)%nat) ->
  (forall c c' r, pivots !! c = Some (Some r) -> pivots !! c' = Some (Some r) -> c = c') ->
  forall c c' r, <[col:=Some cur]> pivots !! c = Some (Some r) ->
    <[col:=Some cur]> pivots !! c' = Some (Some r) -> c = c'.
Proof.
  intros Hcol Hlt Hinj c c' r.
  rewrite !list_lookup_insert. repeat case_decide; intros; crush.
  - apply Hlt in H2. lia.
  - apply Hlt in H1. lia.
Qed.

(** One column: the pivot step succeeds, keeps the invariant and every closed
    property of the equations. *)
Lemma elim_pivot_ok Q st col p :
  elim_wf st -> row_closed Q -> Forall2 Q (g_coeffs st) (g_rhs st) -> (col < m)%nat ->
  find_pivot (g_coeffs st) col (g_current st) N = Some p ->
  exists st', elim_pivot st col p = Some st' /\ elim_wf st' /\ Forall2 Q (g_coeffs st') (g_rhs st') /\
    g_current st' = S (g_current st) /\ g_pivot_row st' = <[col:=Some (g_current st)]> (g_pivot_row st).
Proof.
  intros [W1 W2 W3 W4 W5 W6] HQ HF Hcol [Hp Hnz]%find_pivot_spec.
  unfold elim_pivot. set (cur := g_current st) in *. cbv zeta.
  pose proof (Forall2_vec_swap row_shape cur p _ _ W2 ltac:(lia) ltac:(lia)) as S1.
  pose proof (Forall2_vec_swap Q cur p _ _ HF ltac:(lia) ltac:(lia)) as F1.
  assert (G1 : forall r c, get2 (vec_swap cur p (g_coeffs st)) r c =
    if decide (r = p) then get2 (g_coeffs st) cur c else
    if decide (r = cur) then get2 (g_coeffs st) p c else get2 (g_coeffs st) r c)
    by (intros; apply get2_vec_swap; lia).
  assert (L1 : length (vec_swap cur p (g_coeffs st)) = N) by (by rewrite length_vec_swap).
  revert S1 F1 G1 L1. generalize (vec_swap cur p (g_coeffs st)) as C1, (vec_swap cur p (g_rhs st)) as B1.
  intros C1 B1 S1 F1 G1 L1.
  assert (Hlead : get2 C1 cur col <> 0).
  { rewrite G1. repeat case_decide; congruence. }
  destruct (gf_inv_spec _ (get2_byte _ _ cur col S1) Hlead) as (k & -> & Hk & Hinv). cbn.
  pose proof (Forall2_scale _ _ _ k cur row_shape_closed Hk S1 S1) as S2.
  pose proof (Forall2_scale _ _ _ k cur HQ Hk S1 F1) as F2.
  assert (G2 : forall r c, get2 (alter (fmap (fun v => gf_mul v k)) cur C1) r c =
    if decide (r = cur) then gf_mul (get2 C1 cur c) k else get2 C1 r c)
    by (intros; apply (get2_alter (fun v => gf_mul v k)), gf_mul_0_l).
  assert (L2 : length (alter (fmap (fun v => gf_mul v k)) cur C1) = N) by (by rewrite length_alter).
  revert S2 F2 G2 L2. generalize (alter (fmap (fun v => gf_mul v k)) cur C1) as C2,
    (alter (fmap (fun v => gf_mul v k)) cur B1) as B2. intros C2 B2 S2 F2 G2 L2.
  destruct (lookup_lt_is_Some_2 C2 cur) as [pc Hpc]; [lia|].
  destruct (Forall2_lookup_l _ _ _ _ _ S2 Hpc) as (pb & Hpb & _).
  rewrite Hpc, Hpb. cbn. eexists. split; [reflexivity|].
  change (elim_wf (mkElim (imap (eliminate C2 col cur pc) C2) (imap (eliminate C2 col cur pb) B2)
    (<[col:=Some cur]> (g_pivot_row st)) (S cur)) /\
    Forall2 Q (imap (eliminate C2 col cur pc) C2) (imap (eliminate C2 col cur pb) B2) /\
    S cur = S cur /\ <[col:=Some cur]> (g_pivot_row st) = <[col:=Some cur]> (g_pivot_row st)).
  assert (G3 : forall r c, (r < N)%nat -> get2 (imap (eliminate C2 col cur pc) C2) r c =
    if decide (r = cur) then get2 C2 cur c else get2 C2 r c ⊕ gf_mul (get2 C2 r col) (get2 C2 cur c)).
  { intros r c Hr. case_decide; subst; [apply get2_eliminate_cur|].
    eapply get2_eliminate; eauto. lia. }
  split; [|split; [by apply Forall2_eliminate|done]].
  split; cbn.
  - by rewrite length_imap.
  - apply Forall2_eliminate; auto using row_shape_closed.
  - lia.
  - by rewrite length_insert.
  - apply (pivot_entries (g_coeffs st) C1 C2 _ (g_pivot_row st) cur p col k); auto with lia.
    intros r c. by eapply get2_byte.
  - intros c c' r. apply pivot_injective; [lia| |done]. intros c0 r0 H0. by destruct (W5 _ _ H0).
Qed.

Lemma elim_cols_ok Q cols st :
  elim_wf st -> row_closed Q -> Forall2 Q (g_coeffs st) (g_rhs st) -> Forall (fun c => c < m)%nat cols ->
  exists st', elim_cols N cols st = Some st' /\ elim_wf st' /\ Forall2 Q (g_coeffs st') (g_rhs st').
Proof.
  intros HW HQ HF Hc. revert st HW HF. induction Hc as [|col cols Hcol Hcols IH]; intros st HW HF; cbn; [eauto|].
  destruct (find_pivot _ _ _ _) as [p|] eqn:Ep; [|eauto].
  destruct (elim_pivot_ok Q st col p) as (st' & -> & W' & F' & _); auto. cbn.
  case_bool_decide; eauto.
Qed.

(** Reading one unknown off the reduced system. *)
Lemma collect_col_sound X st c v :
  elim_wf st -> (forall c j, is_byte (X c j)) -> Forall2 (row_holds X) (g_coeffs st) (g_rhs st) ->
  (c, v) ∈ collect_col st m c ->
  forall j, (j < P)%nat -> X c j = at0 v j.
Proof.
  intros [W1 W2 W3 W4 W5 W6] HX HF Hin j Hj. unfold collect_col in Hin.
  destruct (g_pivot_row st !! c) as [[pr|]|] eqn:Ec; cbn in Hin; try by apply elem_of_nil in Hin.
  destruct (fully_determined st m pr) eqn:Ef; [|by apply elem_of_nil in Hin].
  apply list_elem_of_singleton in Hin. simplify_eq.
  destruct (W5 _ _ Ec) as [Hpr Hu].
  destruct (lookup_lt_is_Some_2 (g_coeffs st) pr) as [row Hrow]; [lia|].
  destruct (Forall2_lookup_l _ _ _ _ _ HF Hrow) as (b & Hb & Hrow'). rewrite Hb. cbn.
  rewrite <- Hrow' by done. unfold row_value.
  pose proof (lookup_lt_Some _ _ _ Ec) as Hcm.
  assert (Hg : forall c, at0 row c = get2 (g_coeffs st) pr c) by (intros; unfold get2; by rewrite Hrow).
  rewrite (xorsum_single _ _ c).
  - rewrite Hg, (Hu pr) by lia. rewrite decide_True by done. symmetry. by apply gf_mul_1_l.
  - apply elem_of_seq. lia.
  - apply NoDup_seq.
  - intros c' Hc'%elem_of_seq Hne. rewrite Hg.
    unfold fully_determined in Ef. rewrite forallb_forall in Ef.
    specialize (Ef c' (proj2 (in_seq m 0 c') ltac:(lia))).
    destruct (g_pivot_row st !! c') as [[r'|]|] eqn:Ec'; cbn in Ef; reflect_bools;
      [|rewrite Ef; apply gf_mul_0_l..].
    destruct (W5 _ _ Ec') as [_ Hu']. rewrite Hu' by lia.
    rewrite decide_False; [apply gf_mul_0_l|]. intros <-. apply Hne. by apply (W6 _ _ pr).
Qed.

Lemma collect_col_shape st c c' v :
  elim_wf st -> (c', v) ∈ collect_col st m c -> c' = c /\ (c < m)%nat /\ length v = P /\ bytes v.
Proof.
  intros [W1 W2 W3 W4 W5 W6] Hin. unfold collect_col in Hin.
  destruct (g_pivot_row st !! c) as [[pr|]|] eqn:Ec; cbn in Hin; try by apply elem_of_nil in Hin.
  destruct (fully_determined st m pr) eqn:Ef; [|by apply elem_of_nil in Hin].
  apply list_elem_of_singleton in Hin. simplify_eq.
  destruct (W5 _ _ Ec) as [Hpr _].
  destruct (lookup_lt_is_Some_2 (g_coeffs st) pr) as [row Hrow]; [lia|].
  destruct (Forall2_lookup_l _ _ _ _ _ W2 Hrow) as (b & -> & (_ & _ & ? & ?)).
  split; [done|split; [by apply lookup_lt_Some in Ec; lia|done]].
Qed.

Lemma elem_of_collect_cols st cols c v :
  elim_wf st -> (c, v) ∈ concat (collect_col st m <$> cols) -> c ∈ cols /\ (c, v) ∈ collect_col st m c.
Proof.
  intros HW (l & Hl & Hin)%list_elem_of_In%in_concat.
  apply list_elem_of_In, list_elem_of_fmap in Hl as (c' & -> & Hc').
  apply list_elem_of_In in Hin. by destruct (collect_col_shape _ _ _ _ HW Hin) as (-> & _).
Qed.

Lemma NoDup_collect_cols st cols :
  elim_wf st -> NoDup cols -> NoDup (concat (collect_col st m <$> cols)).*1.
Proof.
  intros HW. induction 1 as [|c l Hc Hnd IH]; [constructor|].
  cbn. rewrite fmap_app. apply NoDup_app. split; [|split; [|done]].
  - unfold collect_col. repeat case_match; cbn; try apply NoDup_nil_2. apply NoDup_singleton.
  - intros c' ((c1 & v) & -> & Hc')%list_elem_of_fmap ((c2 & v2) & E & Hin)%list_elem_of_fmap.
    apply collect_col_shape in Hc' as (-> & _); [|done]. cbn in E. subst c2.
    apply Hc. by apply (elem_of_collect_cols st l c v2).
Qed.

Lemma initial_wf coeffs rhs : well_shaped coeffs rhs -> elim_wf (mkElim coeffs rhs (replicate m None) 0).
Proof.
  intros [H1 H2]. split; cbn; auto using length_replicate with lia.
  - intros c r H. apply lookup_replicate in H as [? _]. done.
  - intros c c' r H. apply lookup_replicate in H as [? _]. done.
Qed.

(** The elimination of a well-shaped system returns (it never divides by zero),
    each unknown at most once, of the right length; and the values it reports
    are those of every solution. *)
Lemma gaussian_elim_ok coeffs rhs :
  well_shaped coeffs rhs ->
  exists sol, gaussian_elim coeffs rhs m P = Some sol /\
    (forall c v, (c, v) ∈ sol -> (c < m)%nat /\ length v = P /\ bytes v) /\
    NoDup sol.*1 /\
    (forall X, (forall c j, is_byte (X c j)) -> system X coeffs rhs ->
      forall c v, (c, v) ∈ sol -> forall j, (j < P)%nat -> X c j = at0 v j).
Proof.
  intros HS. unfold gaussian_elim. destruct HS as [HN HS]. rewrite HN.
  case_bool_decide as H0.
  { eexists. split; [done|]. repeat split; try (intros; by set_solver). constructor. }
  assert (HW := initial_wf coeffs rhs (conj HN HS)).
  assert (Hcols : Forall (fun c => c < m)%nat (seq 0 m)) by (apply Forall_seq; lia).
  destruct (elim_cols_ok row_shape _ _ HW row_shape_closed HS Hcols) as (st & Est & W' & _).
  rewrite Est. cbn. eexists. split; [done|]. split; [|split].
  - intros c v [_ Hin]%elem_of_collect_cols; [|done]. by apply collect_col_shape in Hin as (_ & ?).
  - apply NoDup_collect_cols; auto using NoDup_seq.
  - intros X HX Hsys c v [_ Hin]%elem_of_collect_cols j Hj; [|done].
    destruct (elim_cols_ok (row_holds X) _ _ HW (row_holds_closed X HX) Hsys Hcols) as (st' & Est' & _ & F').
    rewrite Est in Est'. simplify_eq. by eapply collect_col_sound.
Qed.
End elimination.

(** With one unknown and an equation that mentions it, the elimination finds it. *)
Lemma gaussian_elim_single P N coeffs rhs r :
  well_shaped 1 P N coeffs rhs -> (0 < P)%nat -> (r < N)%nat -> get2 coeffs r 0 <> 0 ->
  exists v, gaussian_elim coeffs rhs 1 P = Some [(0%nat, v)].
Proof.
  intros HS HP Hr Hnz. pose proof (initial_wf 1 P N coeffs rhs HS) as HW.
  destruct HS as [HN HS]. unfold gaussian_elim. rewrite HN, bool_decide_eq_false_2 by lia.
  cbn [seq elim_cols replicate].
  destruct (find_pivot _ 0 _ N) as [p|] eqn:Ep.
  - destruct (elim_pivot_ok 1 P N _ _ 0 p HW (row_shape_closed 1 P)) as (st & Est & _ & _ & Hcur & Hpiv);
      [done|lia|done|].
    cbn [replicate] in Est, Hpiv. rewrite Est. cbn. destruct st as [C B piv cur]. cbn in Hcur, Hpiv. subst.
    case_bool_decide; cbn; unfold collect_col, fully_determined; cbn; eauto.
  - exfalso. apply Hnz. apply (find_pivot_None N _ _ 0); [done|]. lia.
Qed.

(** ** Properties *)

(** C18: on a well-shaped system of equations [gaussian_elim] returns (its
    pivots are never zero, so [gf_inv] does not panic), reports each unknown at
    most once with a value of the payload's length, and every value it reports
    is the value of that unknown in every solution of the system. *)
Theorem gaussian_elim_sound m P N coeffs rhs :
  well_shaped m P N coeffs rhs ->
  exists sol, gaussian_elim coeffs rhs m P = Some sol /\
    (forall c v, (c, v) ∈ sol -> (c < m)%nat /\ length v = P /\ bytes v) /\
    NoDup sol.*1 /\
    forall X, (forall c j, is_byte (X c j)) -> system m P X coeffs rhs ->
      forall c v, (c, v) ∈ sol -> forall j, (j < P)%nat -> X c j = at0 v j.
Proof. apply gaussian_elim_ok. Qed.

Definition demo_coeffs : list (list Z) := [[0; 3; 1]; [0; 7; 2]; [0; 4; 3]].
Definition demo_X (c j : nat) : Z := at0 (nth c [[9; 1]; [200; 17]; [33; 255]] []) j.
Definition demo_rhs : list (list Z) :=
  (fun row => (fun j => row_value 3 (fun c => demo_X c j) row) <$> seq 0 2) <$> demo_coeffs.

Lemma gaussian_elim_sound_witness :
  exists sol, gaussian_elim demo_coeffs demo_rhs 3 2 = Some sol /\ sol.*1 = [1%nat; 2%nat] /\
    forall c v, (c, v) ∈ sol -> forall j, (j < 2)%nat -> demo_X c j = at0 v j.
Proof.
  destruct (gaussian_elim_sound 3 2 3 demo_coeffs demo_rhs) as (sol & E & _ & _ & H).
  - split; [done|]. repeat constructor; by_decide.
  - exists sol. split; [done|]. split.
    + vm_compute in E. by simplify_eq.
    + apply H; [|repeat constructor; intros j Hj; do 2 (destruct j as [|j]; [by vm_compute|]); lia].
      intros c j. apply is_byte_at0. do 4 (destruct c as [|c]; [by_decide|]). apply bytes_nil.
Defined.
