(* ===== verification/FecDecoder.v ===== *)
(** * The bounded FEC decoder (transport-core/src/fec.rs, [FecDecoder])

    State, operations and events of the decoder as the code has them: the
    retained sources ([BTreeMap], here a [gmap] read in key order), the retained
    repair equations, the dedup keys, the contiguous frontier, the loss-span
    counters and the rolling horizon. The theorems about it are in
    DecoderBounds (termination and bounded state) and DecoderSound (what it
    recovers is what was sent). *)
From S2P Require Import Prelude Serial Gf256 FecEncoder Gauss.

(** ** Data *)

Inductive DecoderEvent : Type :=
| Recovered (seq : Z) (payload : list Z) (via_fec : bool)
| LossSpan (from_seq to_seq_exclusive : Z)
| Evicted (from_seq to_seq_exclusive : Z).

#[export] Instance DecoderEvent_eq_dec : EqDecision DecoderEvent.
Proof. solve_decision. Defined.

(** [SourceState]; its [Recovered] is [RecoveredPayload] here, the name being taken. *)
Inductive SourceState : Type :=
| Received (payload : list Z)
| RecoveredPayload (payload : list Z)
| Missing.

Definition state_payload (s : SourceState) : option (list Z) :=
  match s with
  | Received p | RecoveredPayload p => Some p
  | Missing => None
  end.

Definition is_known (s : SourceState) : bool := bool_decide (is_Some (state_payload s)).

Record ReceivedRepair := mkRepair {
  repair_seq : Z;
  repair_base : Z;
  repair_end : Z;
  repair_payload : list Z
}.

Record FecDecoderStats := mkStats {
  source_symbols_received : Z;
  repair_symbols_received : Z;
  symbols_recovered : Z;
  loss_spans : Z;
  loss_spans_recovered : Z
}.

Record FecDecoderAccounting := mkAccounting {
  source_symbols : Z;
  repair_symbols : Z;
  dedup_keys : Z;
  algebra_symbols : Z;
  retained_bytes : Z
}.

Record FecDecoder := mkFecDecoder {
  max_symbols : Z;
  max_bytes : Z;
  sources : gmap Z SourceState;
  repairs : list ReceivedRepair;
  seen_repair_keys : gset (Z * Z);
  highest_contiguous : option Z;
  stats : FecDecoderStats;
  open_loss_span : option Z;
  open_loss_span_has_recovery : bool;
  newest_seq : option Z;
  roll_horizon : option (Z * Z)
}.

Inductive RepairHorizonRelation : Type := Stale | Overlapping | Forward.

(** Field updates. *)
Definition set_sources (d : FecDecoder) (m : gmap Z SourceState) : FecDecoder :=
  mkFecDecoder (max_symbols d) (max_bytes d) m (repairs d) (seen_repair_keys d)
    (highest_contiguous d) (stats d) (open_loss_span d) (open_loss_span_has_recovery d)
    (newest_seq d) (roll_horizon d).
Definition set_repairs (d : FecDecoder) (l : list ReceivedRepair) (ks : gset (Z * Z)) : FecDecoder :=
  mkFecDecoder (max_symbols d) (max_bytes d) (sources d) l ks
    (highest_contiguous d) (stats d) (open_loss_span d) (open_loss_span_has_recovery d)
    (newest_seq d) (roll_horizon d).
Definition set_highest (d : FecDecoder) (h : option Z) : FecDecoder :=
  mkFecDecoder (max_symbols d) (max_bytes d) (sources d) (repairs d) (seen_repair_keys d)
    h (stats d) (open_loss_span d) (open_loss_span_has_recovery d)
    (newest_seq d) (roll_horizon d).
Definition set_stats (d : FecDecoder) (s : FecDecoderStats) : FecDecoder :=
  mkFecDecoder (max_symbols d) (max_bytes d) (sources d) (repairs d) (seen_repair_keys d)
    (highest_contiguous d) s (open_loss_span d) (open_loss_span_has_recovery d)
    (newest_seq d) (roll_horizon d).
Definition set_span (d : FecDecoder) (o : option Z) (r : bool) : FecDecoder :=
  mkFecDecoder (max_symbols d) (max_bytes d) (sources d) (repairs d) (seen_repair_keys d)
    (highest_contiguous d) (stats d) o r (newest_seq d) (roll_horizon d).
Definition set_newest (d : FecDecoder) (n : option Z) : FecDecoder :=
  mkFecDecoder (max_symbols d) (max_bytes d) (sources d) (repairs d) (seen_repair_keys d)
    (highest_contiguous d) (stats d) (open_loss_span d) (open_loss_span_has_recovery d)
    n (roll_horizon d).
Definition set_horizon (d : FecDecoder) (h : option (Z * Z)) : FecDecoder :=
  mkFecDecoder (max_symbols d) (max_bytes d) (sources d) (repairs d) (seen_repair_keys d)
    (highest_contiguous d) (stats d) (open_loss_span d) (open_loss_span_has_recovery d)
    (newest_seq d) h.

Definition count_source (s : FecDecoderStats) : FecDecoderStats :=
  mkStats (source_symbols_received s + 1) (repair_symbols_received s) (symbols_recovered s)
    (loss_spans s) (loss_spans_recovered s).
Definition count_repair (s : FecDecoderStats) : FecDecoderStats :=
  mkStats (source_symbols_received s) (repair_symbols_received s + 1) (symbols_recovered s)
    (loss_spans s) (loss_spans_recovered s).
Definition count_recovered (n : Z) (s : FecDecoderStats) : FecDecoderStats :=
  mkStats (source_symbols_received s) (repair_symbols_received s) (symbols_recovered s + n)
    (loss_spans s) (loss_spans_recovered s).
Definition count_span (s : FecDecoderStats) : FecDecoderStats :=
  mkStats (source_symbols_received s) (repair_symbols_received s) (symbols_recovered s)
    (loss_spans s + 1) (loss_spans_recovered s).
Definition count_span_recovered (s : FecDecoderStats) : FecDecoderStats :=
  mkStats (source_symbols_received s) (repair_symbols_received s) (symbols_recovered s)
    (loss_spans s) (loss_spans_recovered s + 1).

(** ** Operations *)

Definition new (max_symbols max_bytes : Z) : FecDecoder :=
  mkFecDecoder (clamp max_symbols 1 128) (clamp max_bytes 1 16777216) ∅ [] ∅ None
    (mkStats 0 0 0 0 0) None false None None.

Definition state_cost (s : SourceState) : Z :=
  match s with
  | Received p | RecoveredPayload p => len p + 8
  | Missing => 8
  end.

Definition repair_cost (r : ReceivedRepair) : Z := len (repair_payload r) + 16.

Definition accounting (d : FecDecoder) : FecDecoderAccounting :=
  let source_bytes := map_cost state_cost (sources d) in
  let repair_bytes := sumZ (repair_cost <$> repairs d) in
  mkAccounting (Z.of_nat (size (sources d))) (len (repairs d)) (Z.of_nat (size (seen_repair_keys d)))
    (Z.max (Z.of_nat (size (sources d))) (len (repairs d)))
    (source_bytes + repair_bytes + Z.of_nat (size (seen_repair_keys d)) * 8).

Definition note_newest (d : FecDecoder) (seq : Z) : FecDecoder :=
  match newest_seq d with
  | None => set_newest d (Some seq)
  | Some current => if wrap32 (seq - current) <? 2147483648 then set_newest d (Some seq) else d
  end.

Definition repair_horizon_relation (d : FecDecoder) (window_base window_end : Z) : RepairHorizonRelation :=
  match roll_horizon d with
  | None => Forward
  | Some (horizon_base, horizon_end) =>
      match serial_cmp window_end horizon_end with
      | None | Some Lt => Stale
      | Some Eq => if window_base =? horizon_base then Forward else Stale
      | Some Gt =>
          match serial_cmp window_base horizon_base with
          | Some Gt | Some Eq => Forward
          | Some Lt | None => Overlapping
          end
      end
  end.

Definition repair_key (r : ReceivedRepair) : Z * Z := (repair_seq r, repair_base r).

Definition keys_of (l : list ReceivedRepair) : gset (Z * Z) := list_to_set (repair_key <$> l).

(** [Vec::remove(0)] and the rebuilding of the dedup index. *)
Definition evict_oldest_repair (d : FecDecoder) : FecDecoder :=
  set_repairs d (tail (repairs d)) (keys_of (tail (repairs d))).

(** [max_by_key] (the last of equal maxima) over the sources in key order. *)
Definition max_by_key (key : Z -> Z) (l : list Z) : option Z :=
  foldl (fun best s => match best with
                       | None => Some s
                       | Some b => if key b <=? key s then Some s else Some b
                       end) None l.

(** The entry [make_room] gives up next. *)
Definition oldest_source (d : FecDecoder) (newest : Z) : option Z :=
  let frontier := default newest (highest_contiguous d) in
  let age s := wrap32 (frontier - s) in
  match max_by_key age (filter (fun s => age s < 2147483648) (sorted_keys (sources d))) with
  | Some s => Some s
  | None => max_by_key (fun s => wrap32 (newest - s)) (sorted_keys (sources d))
  end.

Definition evicted_event (seq : Z) : DecoderEvent := Evicted seq (wrap32 (seq + 1)).

Definition is_Missing_at (d : FecDecoder) (seq : Z) : bool :=
  match sources d !! seq with Some Missing => true | _ => false end.

Section make_room.
Context (added_sources added_repairs added_keys added_bytes : Z).

Definition make_room_over (d : FecDecoder) : bool * bool * bool :=
  let acc := accounting d in
  let over_repairs := max_symbols d <? sat_add usize_max (repair_symbols acc) added_repairs in
  let over_symbols :=
    ((max_symbols d <? sat_add usize_max (source_symbols acc) added_sources) || over_repairs)%bool in
  let over_bytes :=
    max_bytes d <? sat_add usize_max (sat_add usize_max (retained_bytes acc) added_bytes)
                     (sat_mul usize_max added_keys 8) in
  (over_symbols, over_repairs, over_bytes).

Definition make_room_body (st : FecDecoder * list DecoderEvent) :
  (FecDecoder * list DecoderEvent) + (FecDecoder * list DecoderEvent) :=
  let '(d, events) := st in
  let '(over_symbols, over_repairs, over_bytes) := make_room_over d in
  if (negb over_symbols && negb over_bytes)%bool then inr (d, events)
  else if (negb (len (repairs d) =? 0) && (over_repairs || over_bytes))%bool
  then inl (evict_oldest_repair d, events)
  else match newest_seq d with
       | None => inr (d, events)
       | Some newest =>
           match oldest_source d newest with
           | None => inr (d, events)
           | Some seq =>
               let unresolved := is_Missing_at d seq in
               let d := set_sources d (delete seq (sources d)) in
               inl (d, events ++ if unresolved then [evicted_event seq] else [])
           end
       end.

Definition make_room (d : FecDecoder) : option (FecDecoder * list DecoderEvent) :=
  loop_fuel (S (size (sources d) + length (repairs d))) make_room_body (d, []).
End make_room.

(** [if matches!(self.sources.remove(&seq), Some(Missing)) { events.push(Evicted ..) }] *)
Definition drop_source (st : FecDecoder * list DecoderEvent) (seq : Z) : FecDecoder * list DecoderEvent :=
  let '(d, events) := st in
  let unresolved := is_Missing_at d seq in
  (set_sources d (delete seq (sources d)), events ++ if unresolved then [evicted_event seq] else []).

(** [retain] of the repairs, then the removal of the obsolete sources in key order. *)
Definition roll_for_repair (d : FecDecoder) (window_base window_len : Z) :
  FecDecoder * list DecoderEvent :=
  if window_len =? 0 then (d, [])
  else
    let kept := filter (fun r =>
      (seq_in_window (repair_base r) window_base window_len &&
       seq_in_window (wrap32 (repair_end r - 1)) window_base window_len)%bool = true) (repairs d) in
    let d := set_repairs d kept (keys_of kept) in
    let obsolete_sources :=
      filter (fun s => seq_in_window s window_base window_len = false) (sorted_keys (sources d)) in
    foldl drop_source (d, []) obsolete_sources.

(** The next sequence number the contiguous frontier waits for. *)
Definition frontier (d : FecDecoder) : Z :=
  match highest_contiguous d with None => 0 | Some h => wrap32 (h + 1) end.

Definition note_open_span_at_frontier (d : FecDecoder) : FecDecoder :=
  match open_loss_span d with
  | Some _ => d
  | None =>
      if is_Missing_at d (frontier d)
      then set_span (set_stats d (count_span (stats d))) (Some (frontier d)) false
      else d
  end.

Definition close_open_span_step (d : FecDecoder) (resolved_seq : Z) (via_fec : bool) : FecDecoder :=
  match open_loss_span d with
  | None => d
  | Some _ =>
      let d := if via_fec then set_span d (open_loss_span d) true else d in
      let still_missing := is_Missing_at d (wrap32 (resolved_seq + 1)) in
      if still_missing then d
      else
        let d := if open_loss_span_has_recovery d
                 then set_stats d (count_span_recovered (stats d)) else d in
        set_span d None false
  end.

(** The inner [loop] of [advance_contiguous]: the first sequence number from
    [scan] on that is not [Missing]; [None] when it is absent. *)
Definition scan_body (d : FecDecoder) (scan : Z) : Z + option Z :=
  match sources d !! scan with
  | Some Missing => inl (wrap32 (scan + 1))
  | Some (Received _ | RecoveredPayload _) => inr (Some scan)
  | None => inr None
  end.

(** One round of the ['outer] loop. *)
Definition advance_body (st : FecDecoder * list DecoderEvent) :
  (FecDecoder * list DecoderEvent) + option (FecDecoder * list DecoderEvent) :=
  let '(d, events) := st in
  let next := frontier d in
  match sources d !! next with
  | Some (Received _) => inl (set_highest (close_open_span_step d next false) (Some next), events)
  | Some (RecoveredPayload _) => inl (set_highest (close_open_span_step d next true) (Some next), events)
  | Some Missing =>
      let d := match open_loss_span d with
               | None => set_span (set_stats d (count_span (stats d))) (Some next) false
               | Some _ => d
               end in
      match loop_fuel (S (S (size (sources d)))) (scan_body d) (wrap32 (next + 1)) with
      | None => inr None
      | Some None => inr (Some (d, events))
      | Some (Some scan) =>
          let events := events ++ [LossSpan next scan] in
          let d := set_sources d (foldl (fun m s => delete s m) (sources d) (serial_range next scan)) in
          let d := set_highest d (Some (wrap32 (scan - 1))) in
          inl (set_span d None false, events)
      end
  | None => inr (Some (d, events))
  end.

Definition advance_contiguous (d : FecDecoder) : option (FecDecoder * list DecoderEvent) :=
  mjoin (loop_fuel (S (S (size (sources d)))) advance_body (d, [])).

(** *** Elimination *)

Definition missing_seqs (d : FecDecoder) : list Z :=
  filter (fun s => is_Missing_at d s = true) (sorted_keys (sources d)).

(** [payload.len() as u16], little-endian, then the payload's bytes, scaled by
    [coeff] and added to the first [max_eff_len] bytes of the row; the length
    bytes are guarded by the length of the repair's own payload. *)
Definition subtract_source (coeff : Z) (repair_len : Z) (payload row_rhs : list Z) : list Z :=
  let len_bytes := u16_le (wrap16 (len payload)) in
  let row_rhs := if 0 <? repair_len
                 then alter (fun v => v ⊕ gf_mul coeff (at0 len_bytes 0)) 0%nat row_rhs else row_rhs in
  let row_rhs := if 2 <=? repair_len
                 then alter (fun v => v ⊕ gf_mul coeff (at0 len_bytes 1)) 1%nat row_rhs else row_rhs in
  take 2 row_rhs ++ xor_scaled coeff payload (drop 2 row_rhs).

(** [missing_seqs.binary_search(&seq)]: the list is sorted and without duplicates. *)
Definition position (seq : Z) (missing : list Z) : option nat := fst <$> list_find (fun s => s = seq) missing.

Definition row_step (d : FecDecoder) (missing : list Z) (r : ReceivedRepair)
    (st : list Z * list Z) (seq : Z) : list Z * list Z :=
  let '(row_coeffs, row_rhs) := st in
  let coeff := gf_coeff (repair_seq r) seq in
  match sources d !! seq with
  | Some (Received p | RecoveredPayload p) =>
      (row_coeffs, subtract_source coeff (len (repair_payload r)) p row_rhs)
  | Some Missing =>
      match position seq missing with
      | Some pos => (<[pos:=coeff]> row_coeffs, row_rhs)
      | None => (row_coeffs, row_rhs)
      end
  | None => (row_coeffs, row_rhs)
  end.

Definition build_row (d : FecDecoder) (missing : list Z) (max_eff_len : nat) (r : ReceivedRepair) :
  list Z * list Z :=
  let row_coeffs := replicate (length missing) 0 in
  let row_rhs := repair_payload r ++ replicate (max_eff_len - length (repair_payload r)) 0 in
  foldl (row_step d missing r) (row_coeffs, row_rhs) (serial_range (repair_base r) (repair_end r)).

(** [let end = (2 + payload_len).min(eff_payload.len())] and the slice; [None]
    skips a value too short to carry its length. *)
Definition extract_payload (eff_payload : list Z) : option (list Z) :=
  if len eff_payload <? 2 then None
  else
    let payload_len := of_le (slice eff_payload 0 2) in
    let end_ := Z.min (2 + payload_len) (len eff_payload) in
    Some (slice eff_payload 2 (Z.to_nat end_)).

Definition collect_solution (missing : list Z) (sol : nat * list Z) : list (Z * list Z) :=
  let seq := at0 missing (fst sol) in
  match extract_payload (snd sol) with
  | None => []
  | Some payload => [(seq, payload)]
  end.

Definition max_eff_len (d : FecDecoder) : Z := maxZ 0 ((fun r => len (repair_payload r)) <$> repairs d).

(** [None] is a panic of the elimination, which [one_elim_pass_total] excludes. *)
Definition one_elim_pass (d : FecDecoder) : option (list (Z * list Z)) :=
  if len (repairs d) =? 0 then Some []
  else
    let missing := missing_seqs d in
    if len missing =? 0 then Some []
    else
      let max_eff := max_eff_len d in
      if max_eff =? 0 then Some []
      else
        let n_unknowns := len missing in
        if ((128 <? n_unknowns) || (128 <? len (repairs d)))%bool then Some []
        else
          let scratch :=
            sat_add usize_max (sat_add usize_max
              (sat_mul usize_max (len (repairs d)) (sat_add usize_max n_unknowns max_eff))
              (2 * n_unknowns)) (2 * max_eff) in
          if max_bytes d <? sat_add usize_max (retained_bytes (accounting d)) scratch then Some []
          else
            let rows := build_row d missing (Z.to_nat max_eff) <$> repairs d in
            solutions ← gaussian_elim rows.*1 rows.*2 (length missing) (Z.to_nat max_eff);
            Some (concat (collect_solution missing <$> solutions)).

Definition store_recovered (d : FecDecoder) (batch : list (Z * list Z)) : FecDecoder :=
  set_sources d (foldl (fun m '(seq, payload) => <[seq:=RecoveredPayload payload]> m) (sources d) batch).

Definition try_recover_body (st : FecDecoder * list (Z * list Z)) :
  (FecDecoder * list (Z * list Z)) + option (FecDecoder * list (Z * list Z)) :=
  let '(d, all_recovered) := st in
  match one_elim_pass d with
  | None => inr None
  | Some batch =>
      if len batch =? 0 then inr (Some (d, all_recovered))
      else
        let recovered_bytes := sumZ ((fun '(_, payload) => len payload) <$> batch) in
        if max_bytes d <? sat_add usize_max (retained_bytes (accounting d)) recovered_bytes
        then inr (Some (d, all_recovered))
        else
          let d := set_stats d (count_recovered (len batch) (stats d)) in
          inl (store_recovered d batch, all_recovered ++ batch)
  end.

Definition try_recover (d : FecDecoder) : option (FecDecoder * list (Z * list Z)) :=
  mjoin (loop_fuel (S (length (missing_seqs d))) try_recover_body (d, [])).

Definition fec_event (r : Z * list Z) : DecoderEvent := Recovered (fst r) (snd r) true.

(** *** Admission *)

(** The common tail of [push_source] and [admit_repair]. *)
Definition recover_and_advance (d : FecDecoder) (events : list DecoderEvent) :
  option (FecDecoder * list DecoderEvent) :=
  '(d, recovered) ← try_recover d;
  '(d, advanced) ← advance_contiguous d;
  Some (d, events ++ (fec_event <$> recovered) ++ advanced).

(** [push_source] from [make_room] on: the new entry and its bookkeeping. *)
Definition store_source (d : FecDecoder) (seq : Z) (payload : list Z) : FecDecoder :=
  let d := note_open_span_at_frontier d in
  let d := note_newest d seq in
  let d := set_sources d (<[seq:=Received payload]> (sources d)) in
  set_stats d (count_source (stats d)).

Definition admit_source (d : FecDecoder) (seq : Z) (payload : list Z) (added_sources added_bytes : Z) :
  option (FecDecoder * list DecoderEvent) :=
  '(d, events) ← make_room added_sources 0 0 added_bytes d;
  recover_and_advance (store_source d seq payload) (events ++ [Recovered seq payload false]).

Definition push_source (d : FecDecoder) (seq : Z) (payload : list Z) :
  option (FecDecoder * list DecoderEvent) :=
  if max_bytes d <? sat_add usize_max (len payload) 8 then Some (d, [Recovered seq payload false])
  else
    match sources d !! seq with
    | Some (Received _ | RecoveredPayload _) => Some (d, [])
    | Some Missing => admit_source d seq payload 0 (len payload)
    | None => admit_source d seq payload 1 (sat_add usize_max (len payload) 8)
    end.

(** How many sequence numbers of the window the decoder holds no entry for. *)
Definition added_sources (d : FecDecoder) (window_base window_len : Z) : Z :=
  len (filter (fun o => sources d !! wrap32 (window_base + o) = None) (seqZ 0 window_len)).

Definition admission_bytes (d : FecDecoder) (window_base window_len : Z) (payload : list Z) : Z :=
  sat_add usize_max (sat_add usize_max
    (sat_mul usize_max (added_sources d window_base window_len) 8) (len payload)) 16.

(** [inr None] rejects the repair. *)
Definition admit_body (window_base window_len : Z) (payload : list Z) (d : FecDecoder) :
  FecDecoder + option FecDecoder :=
  let acc := accounting d in
  let over_repairs := max_symbols d <=? repair_symbols acc in
  let over_bytes := max_bytes d <? sat_add usize_max
    (sat_add usize_max (retained_bytes acc) (admission_bytes d window_base window_len payload)) 8 in
  if (negb over_repairs && negb over_bytes)%bool then inr (Some d)
  else if len (repairs d) =? 0 then inr None
  else inl (evict_oldest_repair d).

(** [while seq != window_end { self.sources.entry(seq).or_insert(Missing); .. }] *)
Definition register_missing (m : gmap Z SourceState) (seqs : list Z) : gmap Z SourceState :=
  foldl (fun m s => match m !! s with Some _ => m | None => <[s:=Missing]> m end) m seqs.

(** The admitted repair enters the state: its dedup key, its window as at least
    [Missing], the horizon, the equation itself. *)
Definition register_repair (d : FecDecoder) (repair_seq window_base window_end : Z) (payload : list Z)
    (key : Z * Z) : FecDecoder :=
  let window_len := wrap32 (window_end - window_base) in
  let d := set_repairs d (repairs d) ({[key]} ∪ seen_repair_keys d) in
  let d := set_stats d (count_repair (stats d)) in
  let d := set_sources d (register_missing (sources d) (serial_range window_base window_end)) in
  let d := note_open_span_at_frontier d in
  let d := if negb (window_len =? 0)
           then set_horizon (note_newest d (wrap32 (window_end - 1))) (Some (window_base, window_end))
           else d in
  set_repairs d (repairs d ++ [mkRepair repair_seq window_base window_end payload]) (seen_repair_keys d).

(** [None] is a panic; [Some None] is the code's [None], the rejection. *)
Definition admit_repair (d : FecDecoder) (repair_seq window_base window_end : Z) (payload : list Z)
    (key : Z * Z) : option (option (FecDecoder * list DecoderEvent)) :=
  let window_len := wrap32 (window_end - window_base) in
  let '(d, events) := roll_for_repair d window_base window_len in
  room ← loop_fuel (S (length (repairs d))) (admit_body window_base window_len payload) d;
  match room with
  | None => Some None
  | Some d =>
      let acc := accounting d in
      if ((max_symbols d <? sat_add usize_max (source_symbols acc) (added_sources d window_base window_len)) ||
          (max_bytes d <? sat_add usize_max (sat_add usize_max (retained_bytes acc)
             (admission_bytes d window_base window_len payload)) 8))%bool
      then Some None
      else
        '(d, events) ← recover_and_advance
          (register_repair d repair_seq window_base window_end payload key) events;
        Some (Some (d, events))
  end.

Definition push_repair (d : FecDecoder) (repair_seq window_base window_end : Z) (payload : list Z) :
  option (FecDecoder * list DecoderEvent) :=
  let window_len := wrap32 (window_end - window_base) in
  if ((max_bytes d <? sat_add usize_max (len payload) 16) || (128 <? window_len) ||
      (max_symbols d <? window_len))%bool
  then Some (d, [])
  else
    match repair_horizon_relation d window_base window_end with
    | Stale | Overlapping => Some (d, [])
    | Forward =>
        let key := (repair_seq, window_base) in
        if bool_decide (key ∈ seen_repair_keys d) then Some (d, [])
        else
          planned ← admit_repair d repair_seq window_base window_end payload key;
          match planned with
          | None => Some (d, [])
          | Some (d', events) => Some (d', events)
          end
    end.

Definition push_symbol (d : FecDecoder) (symbol : Symbol) : option (FecDecoder * list DecoderEvent) :=
  match symbol with
  | Source seq payload => push_source d seq payload
  | Repair repair_seq window_base window_end payload =>
      push_repair d repair_seq window_base window_end payload
  end.

Definition highest_fully_decoded (d : FecDecoder) : option Z := highest_contiguous d.

(** A run of the decoder over a list of symbols. *)
Fixpoint push_symbols (d : FecDecoder) (syms : list Symbol) : option (FecDecoder * list DecoderEvent) :=
  match syms with
  | [] => Some (d, [])
  | s :: syms =>
      '(d, events) ← push_symbol d s;
      '(d, events') ← push_symbols d syms;
      Some (d, events ++ events')
  end.
