(* ===== verification/DecoderBounds.v ===== *)
(** * The decoder terminates and its state stays bounded

    Every operation of FecDecoder returns (its loops end, the elimination never
    divides by zero) and keeps the structural invariant [dec_ok] and the caps. *)
From S2P Require Import Prelude Serial Gf256 FecEncoder Gauss FecDecoder.

(** ** The structural invariant *)

Definition state_bytes (s : SourceState) : Prop :=
  match s with Received p | RecoveredPayload p => bytes p | Missing => True end.

Definition repair_ok (max_symbols : Z) (r : ReceivedRepair) : Prop :=
  in_u32 (repair_base r) /\ in_u32 (repair_end r) /\
  wrap32 (repair_end r - repair_base r) <= max_symbols /\ bytes (repair_payload r).

Record dec_ok (d : FecDecoder) : Prop := {
  ok_symbols : 1 <= max_symbols d <= 128;
  ok_bytes : 1 <= max_bytes d <= 16777216;
  ok_sources : map_Forall (fun s x => in_u32 s /\ state_bytes x) (sources d);
  ok_repairs : Forall (repair_ok (max_symbols d)) (repairs d);
  ok_keys : seen_repair_keys d = keys_of (repairs d);
  ok_nodup : NoDup (repair_key <$> repairs d);
  ok_newest : newest_seq d = None -> sources d = ∅
}.

Definition retained (d : FecDecoder) : Z := retained_bytes (accounting d).

(** The caps; [slack] is the overshoot a late push of an evicted sequence number
    may leave behind. *)
Record within_caps (slack : Z) (d : FecDecoder) : Prop := {
  cap_sources : Z.of_nat (size (sources d)) <= max_symbols d;
  cap_repairs : len (repairs d) <= max_symbols d;
  cap_bytes : retained d <= max_bytes d + slack
}.

(** [trimmed d d']: [d'] retains a part of what [d] retains. *)
Record trimmed (d d' : FecDecoder) : Prop := {
  tr_sources : sources d' ⊆ sources d;
  tr_repairs : repairs d' `sublist_of` repairs d;
  tr_keys : seen_repair_keys d = keys_of (repairs d) -> seen_repair_keys d' = keys_of (repairs d');
  tr_symbols : max_symbols d' = max_symbols d;
  tr_bytes : max_bytes d' = max_bytes d;
  tr_newest : newest_seq d' = newest_seq d
}.

Lemma trimmed_refl d : trimmed d d.
Proof. by split. Qed.

Lemma trimmed_trans d1 d2 d3 : trimmed d1 d2 -> trimmed d2 d3 -> trimmed d1 d3.
Proof. intros [] []. split; try congruence; [by etrans|by etrans|auto]. Qed.

#[export] Hint Resolve trimmed_refl : decoder.

Lemma dec_ok_trimmed d d' : trimmed d d' -> dec_ok d -> dec_ok d'.
Proof.
  intros [T1 T2 T3 T4 T5 T6] [O1 O2 O3 O4 O5 O6 O7]. split; rewrite ?T4, ?T5; auto.
  - intros s x H. apply (O3 s). by apply (lookup_weaken _ _ _ _ H).
  - rewrite Forall_forall in O4 |- *. intros r H. apply O4. by eapply elem_of_sublist.
  - eapply sublist_NoDup; [exact O6|]. by apply fmap_sublist.
  - rewrite T6. intros H. apply O7 in H. rewrite H in T1. apply map_eq. intros s. rewrite lookup_empty.
    destruct (sources d' !! s) eqn:E; [|done]. by apply (lookup_weaken _ _ _ _ E) in T1.
Qed.

Lemma retained_eq d : retained d =
  map_cost state_cost (sources d) + sumZ (repair_cost <$> repairs d) + 8 * Z.of_nat (size (seen_repair_keys d)).
Proof. unfold retained, accounting. cbn. lia. Qed.

Lemma state_cost_pos s : 8 <= state_cost s.
Proof. destruct s as [p|p|]; cbn; try pose proof (len_nonneg p); lia. Qed.

Lemma repair_cost_pos r : 16 <= repair_cost r.
Proof. unfold repair_cost. pose proof (len_nonneg (repair_payload r)). lia. Qed.

Lemma sources_cost_nonneg d : 0 <= map_cost state_cost (sources d).
Proof. apply map_cost_nonneg. intros s. pose proof (state_cost_pos s). lia. Qed.

Lemma repairs_cost_nonneg l : 0 <= sumZ (repair_cost <$> l).
Proof.
  apply sumZ_nonneg, Forall_fmap, Forall_true. intros r. cbn. pose proof (repair_cost_pos r). lia.
Qed.

Lemma retained_nonneg d : 0 <= retained d.
Proof. rewrite retained_eq. pose proof (sources_cost_nonneg d). pose proof (repairs_cost_nonneg (repairs d)). lia. Qed.

Lemma sources_bytes d : 8 * Z.of_nat (size (sources d)) <= map_cost state_cost (sources d).
Proof.
  induction (sources d) as [|s x m Hs IH] using map_ind; [by rewrite map_cost_empty|].
  rewrite map_size_insert_None, map_cost_insert_new by done. pose proof (state_cost_pos x). lia.
Qed.

(** ** Trimming costs nothing *)

Lemma map_cost_subseteq (m m' : gmap Z SourceState) : m' ⊆ m -> map_cost state_cost m' <= map_cost state_cost m.
Proof.
  intros H. rewrite <- (map_difference_union m' m) by done.
  assert (Hd : m' ##ₘ m ∖ m') by (by apply map_disjoint_difference_r1). revert Hd. generalize (m ∖ m') as m2. clear H m.
  intros m2. induction m2 as [|s x m Hs IH] using map_ind; intros Hd; [by rewrite map_union_empty|].
  apply map_disjoint_insert_r in Hd as [Hn Hd]. rewrite <- insert_union_r by done.
  rewrite map_cost_insert_new by (by apply lookup_union_None). pose proof (state_cost_pos x). specialize (IH Hd). lia.
Qed.

Lemma repairs_cost_sublist l l' : l' `sublist_of` l -> sumZ (repair_cost <$> l') <= sumZ (repair_cost <$> l).
Proof.
  unfold sumZ. induction 1 as [|r l1 l2 H IH|r l1 l2 H IH]; cbn; [done|lia|].
  pose proof (repair_cost_pos r). lia.
Qed.

Lemma size_keys_of l : NoDup (repair_key <$> l) -> size (keys_of l) = length l.
Proof. intros H. unfold keys_of. rewrite size_list_to_set by done. apply length_fmap. Qed.

Lemma dec_ok_keys_size d : dec_ok d -> size (seen_repair_keys d) = length (repairs d).
Proof. intros H. rewrite (ok_keys d H). by apply size_keys_of, ok_nodup. Qed.

Lemma retained_trimmed d d' : dec_ok d -> trimmed d d' -> retained d' <= retained d.
Proof.
  intros Hd HT. pose proof (dec_ok_trimmed _ _ HT Hd) as Hd'. rewrite !retained_eq.
  rewrite !dec_ok_keys_size by done.
  pose proof (map_cost_subseteq _ _ (tr_sources _ _ HT)).
  pose proof (repairs_cost_sublist _ _ (tr_repairs _ _ HT)).
  pose proof (sublist_length _ _ (tr_repairs _ _ HT)). lia.
Qed.

Lemma within_caps_trimmed k d d' : dec_ok d -> trimmed d d' -> within_caps k d -> within_caps k d'.
Proof.
  intros Hd HT [C1 C2 C3]. pose proof (retained_trimmed _ _ Hd HT).
  destruct HT as [T1 T2 T3 T4 T5 T6]. pose proof (sublist_length _ _ T2). pose proof (map_subseteq_size _ _ T1).
  split; rewrite ?T4, ?T5; unfold len in *; lia.
Qed.

(** ** Single evictions *)

Lemma trimmed_delete d s : trimmed d (set_sources d (delete s (sources d))).
Proof. split; cbn; auto. apply delete_subseteq. Qed.

Lemma trimmed_evict_oldest_repair d : trimmed d (evict_oldest_repair d).
Proof. split; cbn; auto. destruct (repairs d); [done|by apply sublist_cons]. Qed.

Lemma trimmed_highest d h : trimmed d (set_highest d h).
Proof. by split. Qed.

Lemma trimmed_stats d s : trimmed d (set_stats d s).
Proof. by split. Qed.

Lemma trimmed_span d o r : trimmed d (set_span d o r).
Proof. by split. Qed.

#[export] Hint Resolve trimmed_delete trimmed_evict_oldest_repair trimmed_highest trimmed_stats
  trimmed_span : decoder.
#[export] Hint Extern 5 (trimmed _ _) => (eapply trimmed_trans; [eassumption|]) : decoder.

Lemma max_by_key_elem key l s : max_by_key key l = Some s -> s ∈ l.
Proof.
  unfold max_by_key. intros H.
  assert (G : forall b, foldl (fun best s => match best with None => Some s
      | Some b => if key b <=? key s then Some s else Some b end) b l = Some s -> b = Some s \/ s ∈ l).
  { clear H. induction l as [|x l IH]; intros b; cbn; [auto|]. intros [E|E]%IH; [|right; by right].
    destruct b as [b|]; [case_match|]; simplify_eq; auto; right; left. }
  apply G in H as [|]; done.
Qed.

Lemma max_by_key_None key l : max_by_key key l = None -> l = [].
Proof.
  unfold max_by_key. destruct l as [|x l]; [done|]. cbn.
  assert (G : forall b, is_Some (foldl (fun best s => match best with None => Some s
      | Some b => if key b <=? key s then Some s else Some b end) (Some b) l)).
  { induction l as [|y l IH]; intros b; cbn; [eauto|]. case_match; apply IH. }
  destruct (G x) as [? ->]. done.
Qed.

Lemma oldest_source_elem d newest s : oldest_source d newest = Some s -> is_Some (sources d !! s).
Proof.
  unfold oldest_source. intros H. apply elem_of_sorted_keys.
  case_match eqn:E; simplify_eq.
  - apply max_by_key_elem in E. by apply list_elem_of_filter in E as [_ ?].
  - by apply max_by_key_elem in H.
Qed.

Lemma oldest_source_None d newest : oldest_source d newest = None -> sources d = ∅.
Proof.
  unfold oldest_source. case_match; [done|]. intros Hn%max_by_key_None.
  apply map_size_empty_inv. by rewrite <- length_sorted_keys, Hn.
Qed.

Lemma is_Missing_at_spec d s : is_Missing_at d s = true <-> sources d !! s = Some Missing.
Proof. unfold is_Missing_at. split; [by repeat case_match|by intros ->]. Qed.

(** An eviction event names a sequence number that was [Missing] and is gone. *)
Definition evicted_missing (d d' : FecDecoder) (ev : DecoderEvent) : Prop :=
  exists s, ev = evicted_event s /\ sources d !! s = Some Missing /\ sources d' !! s = None.

Lemma evicted_missing_later d d' d'' ev :
  sources d'' ⊆ sources d' -> evicted_missing d d' ev -> evicted_missing d d'' ev.
Proof.
  intros H (s & -> & H1 & H2). exists s. split; [done|]. split; [done|]. by eapply lookup_weaken_None.
Qed.

Lemma evicted_missing_delete d0 d s events :
  sources d ⊆ sources d0 -> Forall (evicted_missing d0 d) events ->
  Forall (evicted_missing d0 (set_sources d (delete s (sources d))))
    (events ++ if is_Missing_at d s then [evicted_event s] else []).
Proof.
  intros Hsub Hev. apply Forall_app. split.
  - eapply Forall_impl; [exact Hev|]. intros ev. apply evicted_missing_later, delete_subseteq.
  - case_match eqn:E; constructor; [|done]. apply is_Missing_at_spec in E.
    exists s. split; [done|]. split; [by eapply lookup_weaken|apply lookup_delete_eq].
Qed.

(** ** [make_room] *)

Section make_room_spec.
Context (a b : Z).
Context (Ha : 0 <= a <= 1).

Definition fits (d : FecDecoder) : Prop :=
  Z.of_nat (size (sources d)) + a <= max_symbols d /\ retained d + b <= max_bytes d.

Lemma make_room_over_false d :
  within_caps 8 d -> 1 <= max_symbols d <= 128 -> max_bytes d <= 16777216 ->
  exists os ob, make_room_over a 0 0 b d = (os, false, ob) /\
    (os = false <-> Z.of_nat (size (sources d)) + a <= max_symbols d) /\
    (ob = false <-> retained d + b <= max_bytes d).
Proof.
  intros [C1 C2 C3] H1 H2. unfold make_room_over. fold (retained d).
  pose proof (retained_nonneg d). pose proof (len_nonneg (repairs d)).
  assert (E : max_symbols d <? sat_add usize_max (repair_symbols (accounting d)) 0 = false).
  { apply Z.ltb_ge. change (repair_symbols (accounting d)) with (len (repairs d)). wrap_lia. }
  rewrite E, orb_false_r. eexists _, _. split; [reflexivity|]. rewrite !Z.ltb_ge.
  change (source_symbols (accounting d)) with (Z.of_nat (size (sources d))).
  split; split; wrap_lia.
Qed.

Lemma make_room_fits d :
  dec_ok d -> within_caps 8 d -> b <= max_bytes d ->
  exists d' events, make_room a 0 0 b d = Some (d', events) /\ trimmed d d' /\ fits d' /\
    Forall (evicted_missing d d') events /\ highest_contiguous d' = highest_contiguous d.
Proof.
  intros Hok Hcaps Hbm. unfold make_room.
  destruct (loop_fuel_spec (make_room_body a 0 0 b)
    (fun n '(d', events) => trimmed d d' /\ Forall (evicted_missing d d') events /\
       highest_contiguous d' = highest_contiguous d /\ n = (size (sources d') + length (repairs d'))%nat)
    (fun '(d', events) => trimmed d d' /\ fits d' /\ Forall (evicted_missing d d') events /\
       highest_contiguous d' = highest_contiguous d))
    with (fuel := S (size (sources d) + length (repairs d))) (n := (size (sources d) + length (repairs d))%nat)
         (s := (d, @nil DecoderEvent)) as ([d' events] & E & HQ).
  - intros n [d1 ev1] s' (HT & Hev & Hh & ->). unfold make_room_body.
    pose proof (dec_ok_trimmed _ _ HT Hok) as Hok1.
    destruct (make_room_over_false d1) as (os & ob & -> & _);
      [by apply (within_caps_trimmed 8 d)|by apply ok_symbols|by apply ok_bytes|].
    destruct (negb os && negb ob)%bool; [done|].
    destruct (negb (len (repairs d1) =? 0) && (false || ob))%bool eqn:Er.
    + intros [= <-]. reflect_bools. exists (size (sources d1) + length (tail (repairs d1)))%nat. split.
      * destruct (repairs d1); [by cbn in *|]. cbn. lia.
      * split; [eauto with decoder|]. split; [|done]. eapply Forall_impl; [exact Hev|].
        intros ev. by apply evicted_missing_later.
    + destruct (newest_seq d1) as [newest|]; [|done].
      destruct (oldest_source d1 newest) as [s|] eqn:Eo; [|done]. intros [= <-].
      apply oldest_source_elem in Eo as [x Hx].
      exists (size (delete s (sources d1)) + length (repairs d1))%nat. split.
      * rewrite map_size_delete_Some by eauto. assert (size (sources d1) <> 0%nat); [|lia].
        intros E%map_size_empty_inv. by rewrite E, lookup_empty in Hx.
      * split; [eauto with decoder|]. split; [|done].
        apply evicted_missing_delete; [apply HT|done].
  - intros n [d1 ev1] [d2 ev2] (HT & Hev & Hh & ->). unfold make_room_body.
    pose proof (dec_ok_trimmed _ _ HT Hok) as Hok1.
    destruct (make_room_over_false d1) as (os & ob & -> & Hos & Hob);
      [by apply (within_caps_trimmed 8 d)|by apply ok_symbols|by apply ok_bytes|].
    assert (Hsrc : sources d1 = ∅ -> ((negb (len (repairs d1) =? 0)) && (false || ob))%bool = false ->
      fits d1).
    { intros Es Er. pose proof (ok_symbols _ Hok1). split; [rewrite Es, map_size_empty; lia|].
      apply Hob. destruct ob; [|done]. rewrite andb_true_r in Er. reflect_bools.
      apply len_zero in Er. apply Hob. rewrite retained_eq, dec_ok_keys_size, Er, Es, map_cost_empty by done.
      cbn. rewrite (tr_bytes _ _ HT). lia. }
    destruct (negb os && negb ob)%bool eqn:En.
    + intros [= <- <-]. reflect_bools. split; [done|]. split; [|done]. split; tauto.
    + destruct (negb (len (repairs d1) =? 0) && (false || ob))%bool eqn:Er; [done|].
      destruct (newest_seq d1) as [newest|] eqn:Enew.
      * destruct (oldest_source d1 newest) as [s|] eqn:Eo; [done|]. intros [= <- <-].
        apply oldest_source_None in Eo. tauto.
      * intros [= <- <-]. pose proof (ok_newest _ Hok1 Enew). tauto.
  - eauto with decoder.
  - lia.
  - eauto 10.
Qed.

(** Nothing is evicted when there is room already. *)
Lemma make_room_noop d :
  within_caps 8 d -> 1 <= max_symbols d <= 128 -> max_bytes d <= 16777216 -> fits d ->
  make_room a 0 0 b d = Some (d, []).
Proof.
  intros H1 H2 H3 [F1 F2]. unfold make_room. cbn [loop_fuel]. unfold make_room_body.
  destruct (make_room_over_false d) as (os & ob & -> & Hos & Hob); auto.
  rewrite (proj2 Hos F1), (proj2 Hob F2). done.
Qed.
End make_room_spec.

(** ** [roll_for_repair] *)

Lemma drop_sources d0 d events seqs d' events' :
  sources d ⊆ sources d0 -> Forall (evicted_missing d0 d) events ->
  foldl drop_source (d, events) seqs = (d', events') ->
  trimmed d d' /\ repairs d' = repairs d /\ seen_repair_keys d' = seen_repair_keys d /\
  highest_contiguous d' = highest_contiguous d /\
  Forall (evicted_missing d0 d') events' /\
  (forall s, sources d' !! s = if decide (s ∈ seqs) then None else sources d !! s).
Proof.
  revert d events. induction seqs as [|x seqs IH]; intros d events Hs Hev; cbn.
  - intros [= <- <-]. split; [auto with decoder|]. do 4 (split; [done|]). intros s.
    rewrite decide_False; [done|apply not_elem_of_nil].
  - intros H. apply IH in H as (H1 & H2 & H3 & H4 & H5 & H6).
    + split; [eapply trimmed_trans; [|exact H1]; auto with decoder|]. do 4 (split; [done|]).
      intros s. rewrite H6. cbn. destruct (decide (s = x)) as [->|Hne].
      * rewrite lookup_delete_eq, (decide_True (P := x ∈ x :: seqs)) by left. by case_decide.
      * rewrite lookup_delete_ne by done. apply decide_ext. set_solver.
    + cbn. etrans; [apply delete_subseteq|done].
    + by apply evicted_missing_delete.
Qed.

Lemma roll_for_repair_spec d b l d' events :
  roll_for_repair d b l = (d', events) ->
  trimmed d d' /\ highest_contiguous d' = highest_contiguous d /\ Forall (evicted_missing d d') events /\
  (l = 0 -> d' = d) /\
  (l <> 0 -> (forall s, sources d' !! s = if seq_in_window s b l then sources d !! s else None) /\
    Forall (fun r => r ∈ repairs d /\ seq_in_window (repair_base r) b l = true /\
                     seq_in_window (wrap32 (repair_end r - 1)) b l = true) (repairs d')).
Proof.
  unfold roll_for_repair. destruct (Z.eqb_spec l 0) as [->|Hl].
  - intros [= <- <-]. repeat split; auto with decoder; done.
  - set (kept := filter _ (repairs d)).
    set (d1 := set_repairs d kept (keys_of kept)).
    assert (T1 : trimmed d d1) by (split; cbn; auto; apply sublist_filter).
    intros H. apply (drop_sources d) in H as (H1 & H2 & H3 & H4 & H5 & H6); [|done|constructor].
    split; [by eapply trimmed_trans|]. do 2 (split; [done|]). split; [done|]. intros _. split.
    + intros s. rewrite H6. cbn. case_decide as Hin.
      * apply list_elem_of_filter in Hin as [-> _]. done.
      * destruct (seq_in_window s b l) eqn:E; [done|].
        destruct (sources d !! s) eqn:Es; [|done]. exfalso. apply Hin, list_elem_of_filter.
        split; [done|]. apply elem_of_sorted_keys. eauto.
    + rewrite H2. cbn. apply Forall_forall. intros r [Hr1 Hr2]%list_elem_of_filter.
      apply andb_true_iff in Hr1 as [??]. auto.
Qed.

(** ** Admission *)

Lemma added_sources_spec d b l :
  added_sources d b l = len (filter (fun s => sources d !! s = None) ((fun o => wrap32 (b + o)) <$> seqZ 0 l)).
Proof.
  unfold added_sources, len. by rewrite filter_fmap, length_fmap.
Qed.

Lemma register_missing_spec m seqs :
  NoDup seqs ->
  (forall s, register_missing m seqs !! s =
     match m !! s with Some x => Some x | None => if decide (s ∈ seqs) then Some Missing else None end) /\
  Z.of_nat (size (register_missing m seqs)) =
    Z.of_nat (size m) + len (filter (fun s => m !! s = None) seqs) /\
  map_cost state_cost (register_missing m seqs) =
    map_cost state_cost m + 8 * len (filter (fun s => m !! s = None) seqs).
Proof.
  unfold register_missing. intros Hnd. revert m. induction Hnd as [|x seqs Hx Hnd IH]; intros m; cbn [foldl].
  - split; [|unfold len; cbn; lia]. intros s. by destruct (m !! s).
  - rewrite filter_cons. destruct (m !! x) as [y|] eqn:Ex.
    + destruct (IH m) as (H1 & H2 & H3). rewrite decide_False by done. split; [|done].
      intros s. rewrite H1. destruct (m !! s) eqn:Es; [done|]. apply decide_ext. set_solver.
    + rewrite decide_True by done. rewrite len_cons. destruct (IH (<[x:=Missing]> m)) as (H1 & H2 & H3).
      assert (Hf : filter (fun s => <[x:=Missing]> m !! s = None) seqs = filter (fun s => m !! s = None) seqs).
      { apply filter_ext_in. intros s Hs.
        rewrite lookup_insert_ne; [done|]. by intros ->. }
      rewrite Hf in *. rewrite map_size_insert_None, map_cost_insert_new in * by done.
      split; [|cbn [state_cost] in *; lia]. intros s. rewrite H1.
      destruct (decide (s = x)) as [->|Hne].
      * rewrite lookup_insert_eq, Ex, decide_True; [done|left].
      * rewrite lookup_insert_ne by done. destruct (m !! s); [done|]. apply decide_ext. set_solver.
Qed.

Section admission.
Context (b l : Z) (payload : list Z).
Context (Hl : 0 <= l <= 128).

Lemma added_sources_bound d : 0 <= added_sources d b l <= l.
Proof.
  unfold added_sources. split; [apply len_nonneg|].
  pose proof (length_filter (fun o => sources d !! wrap32 (b + o) = None) (seqZ 0 l)) as H.
  rewrite length_seqZ in H. unfold len. lia.
Qed.

Lemma admission_bytes_eq d :
  len payload <= 16777216 ->
  admission_bytes d b l payload = added_sources d b l * 8 + len payload + 16.
Proof.
  intros. pose proof (added_sources_bound d). pose proof (len_nonneg payload).
  unfold admission_bytes. generalize dependent (added_sources d b l). intros. wrap_lia.
Qed.

Definition admission_room (d : FecDecoder) : Prop :=
  len (repairs d) < max_symbols d /\
  retained d + (added_sources d b l * 8 + len payload + 24) <= max_bytes d.

Lemma admit_loop d :
  dec_ok d -> within_caps 8 d -> len payload <= 16777216 ->
  exists room, loop_fuel (S (length (repairs d))) (admit_body b l payload) d = Some room /\
    match room with
    | None => True
    | Some d' => trimmed d d' /\ sources d' = sources d /\ highest_contiguous d' = highest_contiguous d /\
        admission_room d'
    end.
Proof.
  intros Hok Hcaps Hp.
  assert (Hfit : forall d1, trimmed d d1 ->
    (max_bytes d1 <? sat_add usize_max (sat_add usize_max (retained_bytes (accounting d1))
       (admission_bytes d1 b l payload)) 8) = false ->
    retained d1 + (added_sources d1 b l * 8 + len payload + 24) <= max_bytes d1).
  { intros d1 HT H. fold (retained d1) in H. rewrite admission_bytes_eq in H by done.
    pose proof (retained_nonneg d1). pose proof (added_sources_bound d1). pose proof (len_nonneg payload).
    pose proof (ok_bytes _ (dec_ok_trimmed _ _ HT Hok)).
    reflect_bools. generalize dependent (added_sources d1 b l). intros. wrap_lia. }
  destruct (loop_fuel_spec (admit_body b l payload)
    (fun n d' => trimmed d d' /\ sources d' = sources d /\ highest_contiguous d' = highest_contiguous d /\
       n = length (repairs d'))
    (fun room => match room with
    | None => True
    | Some d' => trimmed d d' /\ sources d' = sources d /\ highest_contiguous d' = highest_contiguous d /\
        admission_room d'
    end)) with (fuel := S (length (repairs d))) (n := length (repairs d)) (s := d) as (room & -> & HQ); eauto.
  - intros n d1 s' (HT & Hs & Hh & ->). unfold admit_body.
    case_match; [done|]. case_match eqn:Er; [done|]. reflect_bools. intros [= <-].
    exists (length (tail (repairs d1))). split; [destruct (repairs d1); [by cbn in *|]; cbn; lia|].
    eauto with decoder.
  - intros n d1 r (HT & Hs & Hh & ->). unfold admit_body. case_match eqn:Eo; [|by case_match; [intros [= <-]|]].
    intros [= <-]. do 3 (split; [done|]). split; [|apply Hfit; [done|]]; reflect_bools; [|by apply Z.ltb_ge].
    done.
  - auto with decoder.
Qed.
End admission.

(** ** The frontier: [advance_contiguous] *)

Definition known_at (d : FecDecoder) (s : Z) : Prop :=
  exists x, sources d !! s = Some x /\ x <> Missing.

Lemma known_at_not_Missing d s : known_at d s -> sources d !! s <> Some Missing.
Proof. intros (x & -> & ?). congruence. Qed.

(** A bounded map has an absent sequence number within reach. *)
Lemma absent_ahead (m : gmap Z SourceState) s :
  Z.of_nat (size m) <= 128 ->
  exists n, (n <= size m)%nat /\ m !! wrap32 (s + Z.of_nat n) = None.
Proof.
  intros Hsz.
  destruct (decide (Forall (fun n => is_Some (m !! wrap32 (s + Z.of_nat n))) (seq 0 (S (size m))))) as [H|H].
  - exfalso.
    assert (Hnd : NoDup ((fun n => wrap32 (s + Z.of_nat n)) <$> seq 0 (S (size m)))).
    { apply NoDup_fmap_2_strong; [|apply NoDup_seq].
      intros x y Hx%elem_of_seq Hy%elem_of_seq. wrap_lia. }
    assert (Hsub : (fun n => wrap32 (s + Z.of_nat n)) <$> seq 0 (S (size m)) ⊆+ sorted_keys m).
    { apply NoDup_submseteq; [done|]. intros k (n & -> & Hn)%list_elem_of_fmap.
      apply elem_of_sorted_keys. rewrite Forall_forall in H. by apply H. }
    apply submseteq_length in Hsub. rewrite length_fmap, length_seq, length_sorted_keys in Hsub. lia.
  - apply not_Forall_Exists in H; [|apply _]. apply Exists_exists in H as (n & Hn%elem_of_seq & H).
    exists n. split; [lia|]. by apply eq_None_not_Some.
Qed.

Lemma scan_spec d s n fuel :
  sources d !! wrap32 (s + Z.of_nat n) = None -> (n < fuel)%nat -> in_u32 s ->
  exists r, loop_fuel fuel (scan_body d) s = Some r /\
    match r with
    | None => True
    | Some scan => exists j, (j < n)%nat /\ scan = wrap32 (s + Z.of_nat j) /\ known_at d scan /\
        forall i, (i < j)%nat -> sources d !! wrap32 (s + Z.of_nat i) = Some Missing
    end.
Proof.
  revert s fuel. induction n as [|n IH]; intros s [|fuel] Hn Hf Hs; try lia; cbn [loop_fuel]; unfold scan_body at 1.
  - rewrite Z.add_0_r, wrap32_id in Hn by done. rewrite Hn. by exists None.
  - destruct (sources d !! s) as [[p|p|]|] eqn:E.
    1,2: exists (Some s); split; [done|]; exists 0%nat; rewrite Z.add_0_r, wrap32_id by done;
      split; [lia|]; split; [done|]; split; [by eexists|]; lia.
    + destruct (IH (wrap32 (s + 1)) fuel) as (r & -> & Hr);
        [rewrite wrap32_wrap_l; by replace (s + 1 + Z.of_nat n) with (s + Z.of_nat (S n)) by lia|lia|apply wrap32_in|].
      exists r. split; [done|]. destruct r as [scan|]; [|done].
      destruct Hr as (j & Hj & -> & Hk & Hm). exists (S j).
      rewrite wrap32_wrap_l in *. replace (s + 1 + Z.of_nat j) with (s + Z.of_nat (S j)) in * by lia.
      split; [lia|]. split; [done|]. split; [done|]. intros [|i] Hi.
      * by rewrite Z.add_0_r, wrap32_id.
      * rewrite <- (Hm i) by lia. rewrite wrap32_wrap_l. do 2 f_equal. lia.
    + by exists None.
Qed.

Lemma lookup_delete_all (m : gmap Z SourceState) l s :
  foldl (fun m s => delete s m) m l !! s = if decide (s ∈ l) then None else m !! s.
Proof.
  revert m. induction l as [|x l IH]; intros m; cbn [foldl].
  - rewrite decide_False; [done|apply not_elem_of_nil].
  - rewrite IH. destruct (decide (s = x)) as [->|Hne].
    + rewrite lookup_delete_eq, (decide_True (P := x ∈ x :: l)) by left. by case_decide.
    + rewrite lookup_delete_ne by done. apply decide_ext. set_solver.
Qed.

Lemma delete_all_subseteq (m : gmap Z SourceState) l : foldl (fun m s => delete s m) m l ⊆ m.
Proof. apply map_subseteq_spec. intros s x. rewrite lookup_delete_all. by case_decide. Qed.

(** What [advance_contiguous] did between [d] and [d'], emitting [events]. *)
Record advanced (d d' : FecDecoder) (events : list DecoderEvent) : Prop := {
  ad_trimmed : trimmed d d';
  ad_repairs : repairs d' = repairs d;
  ad_known : forall s x, sources d !! s = Some x -> x <> Missing -> sources d' !! s = Some x;
  ad_events : Forall (fun ev => exists a b, ev = LossSpan a b /\ forall s, s ∈ serial_range a b ->
    sources d !! s = Some Missing /\ sources d' !! s = None) events;
  ad_quiet : events = [] -> sources d' = sources d;
  ad_frontier : exists j, frontier d' = wrap32 (frontier d + Z.of_nat j) /\
    forall i, (i < j)%nat -> known_at d (wrap32 (frontier d + Z.of_nat i)) \/
      exists a b, LossSpan a b ∈ events /\ wrap32 (frontier d + Z.of_nat i) ∈ serial_range a b
}.

Lemma frontier_in d : in_u32 (frontier d).
Proof. unfold frontier. case_match; [apply wrap32_in|]. rewrite in_u32_iff. lia. Qed.

Lemma advanced_refl d : advanced d d [].
Proof.
  split; auto with decoder. exists O. split; [by rewrite Z.add_0_r, wrap32_id by apply frontier_in|lia].
Qed.

(** The loop of [close_open_span_step] and the bookkeeping leave the retained state alone. *)
Record same_retained (d d' : FecDecoder) : Prop := {
  sr_trimmed : trimmed d d';
  sr_sources : sources d' = sources d;
  sr_repairs : repairs d' = repairs d;
  sr_keys : seen_repair_keys d' = seen_repair_keys d;
  sr_highest : highest_contiguous d' = highest_contiguous d
}.

Lemma close_open_span_step_same d s v : same_retained d (close_open_span_step d s v).
Proof. unfold close_open_span_step. repeat case_match; by (split; [split|..]). Qed.

Lemma note_open_span_same d : same_retained d (note_open_span_at_frontier d).
Proof. unfold note_open_span_at_frontier. repeat case_match; by (split; [split|..]). Qed.

Lemma known_at_trimmed d d' s : trimmed d d' -> known_at d' s -> known_at d s.
Proof. intros HT (x & H & ?). exists x. split; [|done]. eapply lookup_weaken; [exact H|apply HT]. Qed.

Lemma advanced_trans d1 d2 d3 e1 e2 :
  advanced d1 d2 e1 -> advanced d2 d3 e2 -> advanced d1 d3 (e1 ++ e2).
Proof.
  intros [A1 A2 A3 A4 A5 (j1 & A6 & A7)] [B1 B2 B3 B4 B5 (j2 & B6 & B7)]. split.
  - by eapply trimmed_trans.
  - congruence.
  - auto.
  - apply Forall_app. split; eapply Forall_impl; eauto; cbn; intros ev (a & b & -> & H);
      exists a, b; (split; [done|]); intros s Hs; destruct (H s Hs) as [H1 H2].
    + split; [done|]. eapply lookup_weaken_None; [exact H2|apply B1].
    + split; [|done]. eapply lookup_weaken; [exact H1|apply A1].
  - intros [-> ->]%app_eq_nil. rewrite B5, A5; done.
  - exists (j1 + j2)%nat. split.
    { rewrite B6, A6, wrap32_wrap_l. f_equal. lia. }
    intros i Hi. destruct (decide (i < j1)%nat) as [Hlt|Hge].
    + destruct (A7 i Hlt) as [|(a & b & Hin & Hs)]; [by left|]. right. exists a, b. split; [set_solver|done].
    + replace (wrap32 (frontier d1 + Z.of_nat i)) with (wrap32 (frontier d2 + Z.of_nat (i - j1)))
        by (rewrite A6, wrap32_wrap_l; f_equal; lia).
      destruct (B7 (i - j1)%nat) as [|(a & b & Hin & Hs)]; [lia|left; by eapply known_at_trimmed|].
      right. exists a, b. split; [set_solver|done].
Qed.

Lemma frontier_next d h : frontier (set_highest d (Some h)) = wrap32 (h + 1).
Proof. done. Qed.

Lemma frontier_span d h o r : frontier (set_span (set_highest d (Some h)) o r) = wrap32 (h + 1).
Proof. done. Qed.

(** A round on a known sequence number. *)
Lemma advanced_known d d1 x :
  same_retained d d1 -> sources d !! frontier d = Some x -> x <> Missing ->
  advanced d (set_highest d1 (Some (frontier d))) [].
Proof.
  intros [S1 S2 S3 S4 S5] Hx Hne. split; cbn; try congruence; auto.
  - eapply trimmed_trans; [exact S1|auto with decoder].
  - exists 1%nat. split; [done|]. intros i Hi. left.
    replace (frontier d + Z.of_nat i) with (frontier d) by lia.
    rewrite wrap32_id by apply frontier_in. by exists x.
Qed.

(** A round that gives up a bounded gap. *)
Lemma advanced_span d d1 j :
  same_retained d d1 -> (j < 1000)%nat -> sources d !! frontier d = Some Missing ->
  (forall i, (i < j)%nat -> sources d !! wrap32 (wrap32 (frontier d + 1) + Z.of_nat i) = Some Missing) ->
  let scan := wrap32 (wrap32 (frontier d + 1) + Z.of_nat j) in
  let d2 := set_sources d1 (foldl (fun m s => delete s m) (sources d1) (serial_range (frontier d) scan)) in
  advanced d (set_span (set_highest d2 (Some (wrap32 (scan - 1)))) None false) [LossSpan (frontier d) scan].
Proof.
  intros [S1 S2 S3 S4 S5] Hj H0 Hm scan d2.
  pose proof (frontier_in d) as Hf.
  assert (Hscan : scan = wrap32 (frontier d + Z.of_nat (S j))).
  { unfold scan. rewrite wrap32_wrap_l. f_equal. lia. }
  assert (Hd : wrap32 (scan - frontier d) = Z.of_nat (S j)) by (rewrite in_u32_iff in Hf; wrap_lia).
  assert (Hrange : forall s, s ∈ serial_range (frontier d) scan -> sources d !! s = Some Missing).
  { intros s [i Hi]%list_elem_of_lookup. apply lookup_serial_range in Hi as [-> Hi]. rewrite Hd in Hi.
    destruct i as [|i]; [by rewrite Z.add_0_r, wrap32_id|].
    rewrite <- (Hm i) by lia. rewrite wrap32_wrap_l. do 2 f_equal. lia. }
  split; cbn; rewrite ?S2.
  - eapply trimmed_trans; [exact S1|]. unfold d2. split; cbn; auto. apply delete_all_subseteq.
  - done.
  - intros s x Hs Hx. rewrite lookup_delete_all. case_decide as Hin; [|done].
    apply Hrange in Hin. congruence.
  - constructor; [|done]. eexists _, _. split; [done|]. intros s Hs. split; [auto|].
    rewrite lookup_delete_all. by rewrite decide_True.
  - done.
  - exists (S j). split.
    + transitivity (wrap32 (wrap32 (scan - 1) + 1)); [done|]. rewrite wrap32_wrap_l.
      replace (scan - 1 + 1) with scan by lia. rewrite Hscan. apply wrap32_wrap.
    + intros i Hi. right. eexists _, _. split; [left|]. apply elem_of_serial_range; [done|].
      split; [apply wrap32_in|]. rewrite Hd. rewrite in_u32_iff in Hf. wrap_lia.
Qed.

Lemma advance_body_span_same d :
  same_retained d (match open_loss_span d with
    | None => set_span (set_stats d (count_span (stats d))) (Some (frontier d)) false
    | Some _ => d end).
Proof. case_match; by (split; [split|..]). Qed.

(** The scan from the frontier, with the fuel the round gives it. *)
Lemma scan_from_frontier d s m :
  Z.of_nat (size (sources d)) <= 128 -> in_u32 s -> sources d !! wrap32 (s + Z.of_nat m) = None ->
  exists r, loop_fuel (S (S (size (sources d)))) (scan_body d) s = Some r /\
    match r with
    | None => True
    | Some scan => exists j, (j < m)%nat /\ (j < 1000)%nat /\ scan = wrap32 (s + Z.of_nat j) /\ known_at d scan /\
        forall i, (i < j)%nat -> sources d !! wrap32 (s + Z.of_nat i) = Some Missing
    end.
Proof.
  intros Hsz Hs Hm. destruct (absent_ahead (sources d) s Hsz) as (n & Hn & Habs).
  destruct (scan_spec d s n (S (S (size (sources d)))) Habs) as (r & -> & Hr); [lia|done|].
  exists r. split; [done|]. destruct r as [scan|]; [|done]. destruct Hr as (j & Hj & -> & Hk & Hmi).
  exists j. assert (j < m)%nat; [|split; [done|]; split; [lia|done]].
  destruct (Nat.lt_trichotomy j m) as [|[->|Hgt]]; [done| |].
  - destruct Hk as (x & Hx & _). congruence.
  - rewrite Hmi in Hm by done. done.
Qed.

(** The invariant of the ['outer] loop: [m] more rounds reach an absent sequence number. *)
Definition advance_inv (d : FecDecoder) (m : nat) (st : FecDecoder * list DecoderEvent) : Prop :=
  let '(d', events) := st in
  advanced d d' events /\ sources d' !! wrap32 (frontier d' + Z.of_nat m) = None.

Lemma advance_body_step d m st st' :
  Z.of_nat (size (sources d)) <= 128 -> advance_inv d m st -> advance_body st = inl st' ->
  exists m', (m' < m)%nat /\ advance_inv d m' st'.
Proof.
  destruct st as [d1 ev1]. intros Hsz [HA Hm]. unfold advance_body.
  pose proof (map_subseteq_size _ _ (tr_sources _ _ (ad_trimmed _ _ _ HA))) as Hsz1.
  pose proof (frontier_in d1) as Hfr.
  destruct (sources d1 !! frontier d1) as [x|] eqn:Ef; [|done].
  destruct m as [|m]; [rewrite Z.add_0_r, wrap32_id in Hm by done; congruence|].
  assert (Hknown : forall v, x <> Missing ->
    advance_inv d m (set_highest (close_open_span_step d1 (frontier d1) v) (Some (frontier d1)), ev1)).
  { intros v Hx. split.
    - rewrite <- (app_nil_r ev1). eapply advanced_trans; [exact HA|].
      eapply advanced_known; [apply close_open_span_step_same|exact Ef|done].
    - rewrite frontier_next, wrap32_wrap_l. cbn -[frontier].
      rewrite (sr_sources _ _ (close_open_span_step_same _ _ _)), <- Hm. do 2 f_equal. lia. }
  destruct x as [p|p|]; [intros [= <-]; exists m; eauto..|].
  pose proof (advance_body_span_same d1) as HS. revert HS.
  generalize (match open_loss_span d1 with
    | None => set_span (set_stats d1 (count_span (stats d1))) (Some (frontier d1)) false
    | Some _ => d1 end) as d1'. intros d1' HS.
  pose proof (sr_sources _ _ HS) as Es.
  destruct (scan_from_frontier d1' (wrap32 (frontier d1 + 1)) m) as (r & -> & Hr);
    [rewrite Es; lia|apply wrap32_in|rewrite Es, <- Hm, wrap32_wrap_l; do 2 f_equal; lia|].
  destruct r as [scan|]; [|done]. destruct Hr as (j & Hj & Hj' & -> & Hk & Hmi). intros [= <-].
  exists (m - j)%nat. split; [lia|]. rewrite Es in Hmi.
  pose proof (advanced_span d1 d1' j HS Hj' Ef Hmi) as HA'. cbn zeta in HA'. rewrite Es in *. split.
  - eapply advanced_trans; [exact HA|exact HA'].
  - rewrite frontier_span. cbn -[frontier]. rewrite lookup_delete_all. case_decide; [done|]. rewrite <- Hm. f_equal.
    clear -Hj. generalize (frontier d1). intros f. wrap_lia.
Qed.

Lemma advanced_same d d' : same_retained d d' -> advanced d d' [].
Proof.
  intros [S1 S2 S3 S4 S5]. split; try congruence; auto.
  exists O. split; [|lia]. unfold frontier at 1. rewrite S5. fold (frontier d).
  by rewrite Z.add_0_r, wrap32_id by apply frontier_in.
Qed.

Lemma advance_body_end d m st r :
  Z.of_nat (size (sources d)) <= 128 -> advance_inv d m st -> advance_body st = inr r ->
  exists d' events, r = Some (d', events) /\ advanced d d' events /\ ~ known_at d' (frontier d').
Proof.
  destruct st as [d1 ev1]. intros Hsz [HA Hm]. unfold advance_body.
  pose proof (map_subseteq_size _ _ (tr_sources _ _ (ad_trimmed _ _ _ HA))) as Hsz1.
  destruct (sources d1 !! frontier d1) as [x|] eqn:Ef.
  2:{ intros [= <-]. exists d1, ev1. split; [done|]. split; [done|]. intros (x & ? & ?). congruence. }
  destruct x as [p|p|]; [done..|].
  pose proof (advance_body_span_same d1) as HS. revert HS.
  generalize (match open_loss_span d1 with
    | None => set_span (set_stats d1 (count_span (stats d1))) (Some (frontier d1)) false
    | Some _ => d1 end) as d1'. intros d1' HS.
  pose proof (sr_sources _ _ HS) as Es.
  destruct (absent_ahead (sources d1) (wrap32 (frontier d1 + 1))) as (n & Hn & Habs); [lia|].
  destruct (scan_from_frontier d1' (wrap32 (frontier d1 + 1)) n) as ([scan|] & -> & Hr);
    [rewrite Es; lia|apply wrap32_in|by rewrite Es|done|].
  intros [= <-]. exists d1', ev1. split; [done|]. split.
  - rewrite <- (app_nil_r ev1). eapply advanced_trans; [exact HA|by apply advanced_same].
  - intros Hk. apply known_at_not_Missing in Hk. rewrite Es in Hk. apply Hk. rewrite <- Ef. f_equal.
    unfold frontier. by rewrite (sr_highest _ _ HS).
Qed.

(** The frontier stops at a sequence number that is absent or still [Missing]. *)
Lemma advance_contiguous_ok d :
  Z.of_nat (size (sources d)) <= 128 ->
  exists d' events, advance_contiguous d = Some (d', events) /\ advanced d d' events /\ ~ known_at d' (frontier d').
Proof.
  intros Hsz. unfold advance_contiguous.
  destruct (absent_ahead (sources d) (frontier d) Hsz) as (n & Hn & Habs).
  destruct (loop_fuel_spec advance_body (advance_inv d)
    (fun r => exists d' events, r = Some (d', events) /\ advanced d d' events /\ ~ known_at d' (frontier d')))
    with (fuel := S (S (size (sources d)))) (n := n) (s := (d, @nil DecoderEvent))
    as (r & -> & (d' & events & -> & HQ)); [|intros; by eapply advance_body_end| |lia|by exists d', events].
  - intros m st st' HI HE. by eapply advance_body_step.
  - split; [apply advanced_refl|done].
Qed.

(** ** The elimination pass *)

Lemma elem_of_missing_seqs d s : s ∈ missing_seqs d <-> sources d !! s = Some Missing.
Proof.
  unfold missing_seqs. rewrite list_elem_of_filter, is_Missing_at_spec, elem_of_sorted_keys. naive_solver.
Qed.

Lemma NoDup_missing_seqs d : NoDup (missing_seqs d).
Proof. apply NoDup_filter, NoDup_sorted_keys. Qed.

Lemma length_missing_seqs d : (length (missing_seqs d) <= size (sources d))%nat.
Proof. unfold missing_seqs. rewrite <- length_sorted_keys. apply length_filter. Qed.

Lemma length_subtract_source c rl p row : length (subtract_source c rl p row) = length row.
Proof.
  unfold subtract_source. rewrite length_app, length_xor_scaled, length_take, length_drop.
  repeat case_match; rewrite ?length_alter; lia.
Qed.

Lemma bytes_alter f i l : (forall x, is_byte x -> is_byte (f x)) -> bytes l -> bytes (alter f i l).
Proof. intros Hf Hl. apply Forall_alter; [done|]. intros x _. apply Hf. Qed.

Lemma bytes_subtract_source c rl p row : is_byte c -> bytes p -> bytes row -> bytes (subtract_source c rl p row).
Proof.
  intros Hc Hp Hr. unfold subtract_source.
  assert (Hf : forall i x, is_byte x -> is_byte (x ⊕ gf_mul c (at0 (u16_le (wrap16 (len p))) i)))
    by (intros; auto using is_byte_lxor with bytes).
  apply bytes_app; [|apply bytes_xor_scaled; auto]; repeat case_match;
    auto using bytes_alter with bytes.
Qed.

Lemma build_row_shape d missing P r :
  map_Forall (fun s x => in_u32 s /\ state_bytes x) (sources d) -> bytes (repair_payload r) ->
  (length (repair_payload r) <= P)%nat ->
  row_shape (length missing) P (build_row d missing P r).1 (build_row d missing P r).2.
Proof.
  intros Hs Hr HP. unfold build_row.
  assert (G : forall seqs st, row_shape (length missing) P st.1 st.2 ->
    row_shape (length missing) P (foldl (row_step d missing r) st seqs).1
      (foldl (row_step d missing r) st seqs).2).
  { induction seqs as [|s seqs IH]; intros [cs rs] Hst; cbn [foldl]; [done|]. apply IH.
    destruct Hst as (L1 & B1 & L2 & B2). cbn in *. unfold row_step.
    destruct (sources d !! s) as [[p|p|]|] eqn:E; [| |case_match|]; try done; cbn [fst snd].
    1,2: split; [done|split; [done|split; [by rewrite length_subtract_source|]]];
      apply bytes_subtract_source; auto with bytes; by apply (Hs s _ E).
    split; [by rewrite length_insert|]. split; [|done]. apply Forall_insert; auto with bytes. }
  apply G. cbn. split; [apply length_replicate|]. split; [auto with bytes|].
  split; [rewrite length_app, length_replicate; lia|auto with bytes].
Qed.

Lemma repair_len_max d r : r ∈ repairs d -> len (repair_payload r) <= max_eff_len d.
Proof. intros H. apply maxZ_ge. apply list_elem_of_fmap. by exists r. Qed.

Definition elim_rows (d : FecDecoder) : list (list Z * list Z) :=
  build_row d (missing_seqs d) (Z.to_nat (max_eff_len d)) <$> repairs d.

Lemma elim_rows_shape d :
  dec_ok d ->
  well_shaped (length (missing_seqs d)) (Z.to_nat (max_eff_len d)) (length (repairs d))
    (elim_rows d).*1 (elim_rows d).*2.
Proof.
  intros Hok. unfold elim_rows. split; [by rewrite !length_fmap|].
  apply Forall2_fmap_l, Forall2_fmap_r, Forall2_fmap_l, Forall2_fmap_r, Forall_Forall2_diag.
  apply Forall_forall. intros r Hr. pose proof (repair_len_max d r Hr).
  pose proof (ok_repairs _ Hok) as H'. rewrite Forall_forall in H'. destruct (H' r Hr) as (? & ? & ? & ?).
  apply build_row_shape; [apply Hok|done|]. unfold len in *. lia.
Qed.

Lemma extract_payload_spec v p :
  bytes v -> extract_payload v = Some p -> 2 <= len v /\ bytes p /\ len p + 2 <= len v.
Proof.
  unfold extract_payload. case_test; [done|]. intros Hv [= <-].
  split; [done|]. split; [auto with bytes|]. unfold slice, len in *. rewrite length_take, length_drop. lia.
Qed.

(** What a pass returns: [None] is excluded, and each entry was [Missing]. *)
Definition batch_ok (d : FecDecoder) (batch : list (Z * list Z)) : Prop :=
  NoDup batch.*1 /\ Forall (fun '(s, p) => sources d !! s = Some Missing /\ bytes p) batch.

Lemma collect_solutions_ok d sol P :
  (forall c v, (c, v) ∈ sol -> (c < length (missing_seqs d))%nat /\ length v = P /\ bytes v) ->
  NoDup sol.*1 -> batch_ok d (concat (collect_solution (missing_seqs d) <$> sol)).
Proof.
  intros Hsol Hnd.
  assert (Hl : forall c v, (c, v) ∈ sol -> missing_seqs d !! c = Some (at0 (missing_seqs d) c)).
  { intros c v H. destruct (Hsol c v H) as [Hc _]. unfold at0.
    by destruct (lookup_lt_is_Some_2 _ _ Hc) as [x ->]. }
  split.
  - clear Hsol. induction sol as [|[c v] sol IH]; [constructor|]. cbn in *.
    apply NoDup_cons in Hnd as [Hc Hnd]. rewrite fmap_app. apply NoDup_app. split; [|split].
    + unfold collect_solution. case_match; [apply NoDup_singleton|apply NoDup_nil_2].
    + intros s Hs1 Hs2. unfold collect_solution in Hs1. cbn in Hs1. case_match; [|by apply elem_of_nil in Hs1].
      apply list_elem_of_singleton in Hs1. cbn in Hs1. subst s.
      apply list_elem_of_fmap in Hs2 as ([s2 p2] & E2 & Hs2). cbn in E2.
      apply list_elem_of_In, in_concat in Hs2 as (part & Hl2 & Hs2).
      apply list_elem_of_In, list_elem_of_fmap in Hl2 as ([c2 v2] & -> & Hin).
      apply list_elem_of_In in Hs2. unfold collect_solution in Hs2. cbn in Hs2.
      case_match; [|by apply elem_of_nil in Hs2]. apply list_elem_of_singleton in Hs2.
      assert (Hq : at0 (missing_seqs d) c = at0 (missing_seqs d) c2) by congruence.
      apply Hc. replace c with c2; [apply list_elem_of_fmap; by exists (c2, v2)|].
      eapply (NoDup_lookup (missing_seqs d)); [apply NoDup_missing_seqs|apply (Hl c2 v2); by right|].
      rewrite <- Hq. apply (Hl c v). left.
    + apply IH; [done|]. intros c' v' H'. apply (Hl c' v'). by right.
  - apply Forall_concat, Forall_fmap, Forall_forall. intros [c v] Hin. cbn. unfold collect_solution. cbn.
    case_match eqn:E; constructor; [|done]. destruct (Hsol c v Hin) as (_ & _ & Hv).
    apply extract_payload_spec in E as (_ & Hp & _); [|done]. split; [|done].
    apply elem_of_missing_seqs. apply list_elem_of_lookup. exists c. by eapply Hl.
Qed.

Lemma one_elim_pass_ok d :
  dec_ok d -> exists batch, one_elim_pass d = Some batch /\ batch_ok d batch.
Proof.
  intros Hok. assert (Hnil : batch_ok d []) by (split; constructor).
  unfold one_elim_pass. do 5 (case_match; [eauto|]).
  destruct (gaussian_elim_ok _ _ _ _ _ (elim_rows_shape d Hok)) as (sol & E & Hsol & Hnd & _).
  unfold elim_rows in E. rewrite E. cbn. eexists. split; [done|]. by eapply collect_solutions_ok.
Qed.

(** ** Storing what was recovered *)

Definition store_map (m : gmap Z SourceState) (batch : list (Z * list Z)) : gmap Z SourceState :=
  foldl (fun m '(seq, payload) => <[seq:=RecoveredPayload payload]> m) m batch.

Lemma store_map_spec m batch :
  NoDup batch.*1 -> Forall (fun '(s, _) => m !! s = Some Missing) batch ->
  size (store_map m batch) = size m /\
  map_cost state_cost (store_map m batch) =
    map_cost state_cost m + sumZ ((fun '(_, payload) => len payload) <$> batch) /\
  (forall s p, (s, p) ∈ batch -> store_map m batch !! s = Some (RecoveredPayload p)) /\
  (forall s, s ∉ batch.*1 -> store_map m batch !! s = m !! s).
Proof.
  revert m. induction batch as [|[s p] batch IH]; intros m Hnd Hm.
  - unfold sumZ. cbn. split; [done|]. split; [lia|]. split; [by intros s p ?%elem_of_nil|done].
  - change (store_map m ((s, p) :: batch)) with (store_map (<[s:=RecoveredPayload p]> m) batch).
    cbn in Hnd. apply NoDup_cons in Hnd as [Hs Hnd]. apply Forall_cons in Hm as [Hsm Hm].
    destruct (IH (<[s:=RecoveredPayload p]> m)) as (H1 & H2 & H3 & H4); [done| |].
    { apply Forall_forall. intros [s' p'] Hin. rewrite Forall_forall in Hm. specialize (Hm _ Hin). cbn in Hm.
      rewrite lookup_insert_ne; [done|]. intros ->. apply Hs. apply list_elem_of_fmap. by exists (s', p'). }
    split; [rewrite H1; apply map_size_insert_Some; eauto|].
    split; [rewrite H2, (map_cost_insert_old _ _ _ _ _ Hsm); unfold sumZ; cbn; lia|]. split.
    + intros s' p' [E|Hin]%elem_of_cons; [simplify_eq|by apply H3].
      rewrite H4 by done. apply lookup_insert_eq.
    + intros s' Hs'. apply not_elem_of_cons in Hs' as [Hne Hs'].
      rewrite H4 by done. by apply lookup_insert_ne.
Qed.

Lemma batch_ok_missing d batch :
  batch_ok d batch -> Forall (fun '(s, _) => sources d !! s = Some Missing) batch.
Proof. intros [_ H]. eapply Forall_impl; [exact H|]. by intros [s p] [? _]. Qed.

Lemma store_recovered_spec d batch :
  batch_ok d batch ->
  size (sources (store_recovered d batch)) = size (sources d) /\
  retained (store_recovered d batch) = retained d + sumZ ((fun '(_, payload) => len payload) <$> batch) /\
  (forall s p, (s, p) ∈ batch -> sources (store_recovered d batch) !! s = Some (RecoveredPayload p)) /\
  (forall s, s ∉ batch.*1 -> sources (store_recovered d batch) !! s = sources d !! s).
Proof.
  intros Hb. pose proof (store_map_spec _ _ (proj1 Hb) (batch_ok_missing _ _ Hb)) as (H1 & H2 & H3 & H4).
  split; [done|]. split; [|done]. rewrite !retained_eq.
  change (sources (store_recovered d batch)) with (store_map (sources d) batch).
  change (repairs (store_recovered d batch)) with (repairs d).
  change (seen_repair_keys (store_recovered d batch)) with (seen_repair_keys d). lia.
Qed.

Lemma elem_of_batch (s : Z) (batch : list (Z * list Z)) : s ∈ batch.*1 -> exists p, (s, p) ∈ batch.
Proof. intros ([s' p] & -> & H)%list_elem_of_fmap. by exists p. Qed.

Lemma lookup_store_recovered d batch s x :
  batch_ok d batch -> sources (store_recovered d batch) !! s = Some x ->
  (s ∉ batch.*1 /\ sources d !! s = Some x) \/ (exists p, (s, p) ∈ batch /\ x = RecoveredPayload p).
Proof.
  intros Hb Hx. destruct (store_recovered_spec _ _ Hb) as (_ & _ & H3 & H4).
  destruct (decide (s ∈ batch.*1)) as [Hin|Hin].
  - right. destruct (elem_of_batch _ _ Hin) as [p Hp]. exists p. rewrite (H3 _ _ Hp) in Hx. by simplify_eq.
  - left. by rewrite H4 in Hx.
Qed.

Lemma dec_ok_store d batch : dec_ok d -> batch_ok d batch -> dec_ok (store_recovered d batch).
Proof.
  intros [O1 O2 O3 O4 O5 O6 O7] Hb. split; cbn; auto.
  - intros s x Hx. destruct (lookup_store_recovered _ _ _ _ Hb Hx) as [[_ ?]|(p & Hp & ->)]; [by apply O3|].
    destruct Hb as [_ Hb]. rewrite Forall_forall in Hb. destruct (Hb _ Hp) as [Hm Hp'].
    split; [by apply (O3 s _ Hm)|done].
  - intros Hn. specialize (O7 Hn). destruct Hb as [_ Hb]. rewrite O7 in *.
    destruct batch as [|[s p] batch]; [done|]. apply Forall_cons in Hb as [[? _] _]. by rewrite lookup_empty in *.
Qed.

Lemma store_recovered_app d b1 b2 : store_recovered (store_recovered d b1) b2 = store_recovered d (b1 ++ b2).
Proof. unfold store_recovered. cbn. by rewrite foldl_app. Qed.

Lemma batch_ok_app d b1 b2 :
  batch_ok d b1 -> batch_ok (store_recovered d b1) b2 -> batch_ok d (b1 ++ b2).
Proof.
  intros H1 [N2 F2]. pose proof (store_recovered_spec _ _ H1) as (_ & _ & Hin & Hout).
  assert (Hd : forall s, s ∈ b2.*1 -> s ∉ b1.*1).
  { intros s [p Hp]%elem_of_batch [q Hq]%elem_of_batch. rewrite Forall_forall in F2.
    destruct (F2 _ Hp) as [Hm _]. rewrite (Hin _ _ Hq) in Hm. done. }
  split.
  - rewrite fmap_app. apply NoDup_app. split; [apply H1|]. split; [|done]. intros s Hs Hs'. by apply (Hd s).
  - apply Forall_app. split; [apply H1|]. rewrite Forall_forall in F2 |- *. intros [s p] Hp.
    destruct (F2 _ Hp) as [Hm ?]. split; [|done]. rewrite Hout in Hm; [done|].
    apply Hd, list_elem_of_fmap. by exists (s, p).
Qed.

Lemma missing_store d batch :
  batch_ok d batch -> batch <> [] -> (length (missing_seqs (store_recovered d batch)) < length (missing_seqs d))%nat.
Proof.
  intros Hb Hne. destruct batch as [|[s p] batch]; [done|].
  destruct (store_recovered_spec _ _ Hb) as (_ & _ & Hin & _).
  assert (Hs : sources d !! s = Some Missing) by exact (Forall_inv (batch_ok_missing _ _ Hb)).
  assert (H : s :: missing_seqs (store_recovered d ((s, p) :: batch)) ⊆+ missing_seqs d).
  { apply NoDup_submseteq.
    - apply NoDup_cons. split; [|apply NoDup_missing_seqs]. rewrite elem_of_missing_seqs, (Hin s p) by left. done.
    - intros x [->|Hx]%elem_of_cons; apply elem_of_missing_seqs; [done|].
      apply elem_of_missing_seqs in Hx. by destruct (lookup_store_recovered _ _ _ _ Hb Hx) as [[_ ?]|(? & _ & ?)]. }
  apply submseteq_length in H. cbn in H. lia.
Qed.

(** [try_recover] returns; it stores exactly the batch it reports, within the byte cap. *)
Lemma try_recover_ok d :
  dec_ok d -> retained d <= max_bytes d + 8 ->
  exists d' all, try_recover d = Some (d', all) /\ batch_ok d all /\
    d' = set_stats (store_recovered d all) (stats d') /\ retained d' <= Z.max (max_bytes d) (retained d).
Proof.
  intros Hok Hret. unfold try_recover.
  destruct (loop_fuel_spec try_recover_body
    (fun n '(d', all) => batch_ok d all /\ d' = set_stats (store_recovered d all) (stats d') /\
       retained d' <= Z.max (max_bytes d) (retained d) /\ n = length (missing_seqs d'))
    (fun r => exists d' all, r = Some (d', all) /\ batch_ok d all /\
       d' = set_stats (store_recovered d all) (stats d') /\ retained d' <= Z.max (max_bytes d) (retained d)))
    with (fuel := S (length (missing_seqs d))) (n := length (missing_seqs d)) (s := (d, @nil (Z * list Z)))
    as (r & -> & (d' & all & -> & HQ)).
  - intros n [d1 all] st (Hb & Hd1 & Hr & ->). unfold try_recover_body.
    assert (Hok1 : dec_ok d1) by (rewrite Hd1; eapply dec_ok_trimmed; [apply trimmed_stats|by apply dec_ok_store]).
    destruct (one_elim_pass_ok d1 Hok1) as (batch & -> & Hb1).
    do 2 (case_test; [done|]). intros [= <-].
    exists (length (missing_seqs (store_recovered d1 batch))). split; [apply missing_store; [done|by intros ->]|].
    rewrite Hd1 in Hb1. change (batch_ok (store_recovered d all) batch) in Hb1.
    split; [by apply batch_ok_app|]. split; [|split; [|done]].
    + rewrite Hd1. unfold store_recovered. cbn. by rewrite foldl_app.
    + destruct (store_recovered_spec _ _ Hb1) as (_ & Hret1 & _).
      assert (Hd1r : retained (store_recovered d all) = retained d1) by (by rewrite Hd1).
      assert (Hmb : max_bytes d1 = max_bytes d) by (by rewrite Hd1).
      change (retained (store_recovered (set_stats d1 (count_recovered (len batch) (stats d1))) batch))
        with (retained (store_recovered d1 batch)).
      replace (retained (store_recovered d1 batch)) with (retained (store_recovered (store_recovered d all) batch))
        by (by rewrite Hd1).
      rewrite Hret1, Hd1r. fold (retained d1) in *. pose proof (retained_nonneg d1). pose proof (ok_bytes _ Hok).
      wrap_lia.
  - intros n [d1 all] r (Hb & Hd1 & Hr & ->). unfold try_recover_body.
    assert (Hok1 : dec_ok d1) by (rewrite Hd1; eapply dec_ok_trimmed; [apply trimmed_stats|by apply dec_ok_store]).
    destruct (one_elim_pass_ok d1 Hok1) as (batch & -> & Hb1).
    case_test; [|case_test; [|done]]; intros [= <-]; eauto 10.
  - split; [split; constructor|]. split; [by destruct d|]. split; [lia|done].
  - lia.
  - by exists d', all.
Qed.

(** ** The two admissions *)

(** What every operation keeps. *)
Definition dec_inv (d : FecDecoder) : Prop := dec_ok d /\ within_caps 8 d.

Lemma dec_inv_trimmed d d' : trimmed d d' -> dec_inv d -> dec_inv d'.
Proof. intros HT [H1 H2]. split; [by eapply dec_ok_trimmed|by eapply within_caps_trimmed]. Qed.

(** The recovery and the frontier walk that end both admissions. *)
Record recovery (d mid d' : FecDecoder) (all : list (Z * list Z)) (adv : list DecoderEvent) : Prop := {
  rc_start : dec_inv d;
  rc_try : try_recover d = Some (mid, all);
  rc_batch : batch_ok d all;
  rc_store : mid = set_stats (store_recovered d all) (stats mid);
  rc_advance : advanced mid d' adv;
  rc_frontier : ~ known_at d' (frontier d');
  rc_end : dec_inv d'
}.

Lemma recover_and_advance_ok d events :
  dec_inv d ->
  exists mid all d' adv, recovery d mid d' all adv /\
    recover_and_advance d events = Some (d', events ++ (fec_event <$> all) ++ adv).
Proof.
  intros [Hok [C1 C2 C3]].
  destruct (try_recover_ok d Hok C3) as (d1 & all & E & Hb & Hd1 & Hret).
  assert (Hok1 : dec_ok d1) by (rewrite Hd1; eapply dec_ok_trimmed; [apply trimmed_stats|by apply dec_ok_store]).
  assert (Hmax : max_bytes d1 = max_bytes d /\ max_symbols d1 = max_symbols d /\ repairs d1 = repairs d /\
    size (sources d1) = size (sources d)).
  { rewrite Hd1. cbn. do 3 (split; [done|]). apply (store_recovered_spec _ _ Hb). }
  destruct Hmax as (M1 & M2 & M3 & M4).
  assert (HC : within_caps 8 d1) by (split; rewrite ?M1, ?M2, ?M3, ?M4; lia).
  destruct (advance_contiguous_ok d1) as (d' & adv & Ea & HA & Hf).
  { pose proof (ok_symbols _ Hok). rewrite M4. lia. }
  exists d1, all, d', adv. unfold recover_and_advance. rewrite E. cbn -[advance_contiguous]. rewrite Ea. cbn.
  split; [|done].
  assert (dec_inv d') by (eapply dec_inv_trimmed; [exact (ad_trimmed _ _ _ HA)|by split]).
  assert (dec_inv d) by (by split). by split.
Qed.

Record noted (d d' : FecDecoder) : Prop := {
  nt_sources : sources d' = sources d;
  nt_repairs : repairs d' = repairs d;
  nt_keys : seen_repair_keys d' = seen_repair_keys d;
  nt_symbols : max_symbols d' = max_symbols d;
  nt_bytes : max_bytes d' = max_bytes d;
  nt_highest : highest_contiguous d' = highest_contiguous d
}.

Lemma note_newest_noted d s : noted d (note_newest d s) /\ newest_seq (note_newest d s) <> None.
Proof. unfold note_newest. case_match eqn:E; [case_match|]; (split; [by split|cbn; congruence]). Qed.

Lemma noted_span d : noted d (note_open_span_at_frontier d).
Proof. unfold note_open_span_at_frontier. repeat case_match; by split. Qed.

Lemma noted_trans d1 d2 d3 : noted d1 d2 -> noted d2 d3 -> noted d1 d3.
Proof. intros [] []. split; congruence. Qed.

Lemma noted_retained d d' : noted d d' -> retained d' = retained d.
Proof. intros [H1 H2 H3 H4 H5 H6]. rewrite !retained_eq. by rewrite H1, H2, H3. Qed.

Definition entry_extra (d : FecDecoder) (seq : Z) : Z := match sources d !! seq with Some _ => 0 | None => 1 end.

Lemma store_source_inv d seq payload :
  dec_ok d -> in_u32 seq -> bytes payload -> ~ known_at d seq -> len (repairs d) <= max_symbols d ->
  Z.of_nat (size (sources d)) + entry_extra d seq <= max_symbols d ->
  retained d + len payload + 8 * entry_extra d seq <= max_bytes d + 8 ->
  dec_inv (store_source d seq payload).
Proof.
  intros Hok Hs Hp Hk Hr Hsz Hb. unfold store_source.
  destruct (note_newest_noted (note_open_span_at_frontier d) seq) as [HN Hne].
  pose proof (noted_trans _ _ _ (noted_span d) HN) as N. revert N Hne.
  generalize (note_newest (note_open_span_at_frontier d) seq) as d1. intros d1 N Hne. cbv zeta.
  pose proof (noted_retained _ _ N) as Hret. rewrite retained_eq in Hret.
  destruct N as [N1 N2 N3 N4 N5 N6]. destruct Hok as [O1 O2 O3 O4 O5 O6 O7]. rewrite N1, N2, N3 in *.
  split; split; rewrite ?retained_eq;
    cbn [sources repairs seen_repair_keys max_symbols max_bytes set_stats set_sources newest_seq];
    rewrite ?N1, ?N2, ?N3, ?N4, ?N5; auto; try done.
  - apply map_Forall_insert_2; [by split|done].
  - unfold entry_extra in Hsz. destruct (sources d !! seq) eqn:E.
    + rewrite map_size_insert_Some by eauto. lia.
    + rewrite map_size_insert_None by done. lia.
  - unfold entry_extra in Hb. destruct (sources d !! seq) as [x|] eqn:E.
    + rewrite (map_cost_insert_old _ _ _ _ _ E). destruct x as [p|p|]; [exfalso; apply Hk; eexists; eauto..|].
      cbn [state_cost]. lia.
    + rewrite map_cost_insert_new by done. cbn [state_cost]. lia.
Qed.

(** [push_source] on a sequence number without a known payload. *)
Lemma admit_source_ok d seq payload :
  dec_inv d -> in_u32 seq -> bytes payload -> len payload + 8 <= max_bytes d -> ~ known_at d seq ->
  exists d1 evicted, make_room (entry_extra d seq) 0 0 (len payload + 8 * entry_extra d seq) d = Some (d1, evicted) /\
    trimmed d d1 /\ Forall (evicted_missing d d1) evicted /\ highest_contiguous d1 = highest_contiguous d /\
    dec_inv (store_source d1 seq payload).
Proof.
  intros [Hok Hcaps] Hs Hp Hb Hk. pose proof (len_nonneg payload).
  assert (Ha : 0 <= entry_extra d seq <= 1) by (unfold entry_extra; case_match; lia).
  destruct (make_room_fits (entry_extra d seq) (len payload + 8 * entry_extra d seq) Ha d Hok Hcaps)
    as (d1 & ev & E & HT & [F1 F2] & Hev & Hh); [lia|].
  exists d1, ev. do 4 (split; [done|]). pose proof (within_caps_trimmed _ _ _ Hok HT Hcaps) as [C1 C2 C3].
  apply store_source_inv; auto.
  - by eapply dec_ok_trimmed.
  - intros Hk1. by eapply Hk, known_at_trimmed.
  - destruct (decide (entry_extra d1 seq = entry_extra d seq)) as [->|Hne]; [lia|].
    unfold entry_extra in *. destruct (sources d1 !! seq) eqn:E1.
    + rewrite (lookup_weaken _ _ _ _ E1 (tr_sources _ _ HT)) in Hne. done.
    + destruct (sources d !! seq) as [x|] eqn:E0; [|done].
      assert (sources d1 ⊆ delete seq (sources d)) as Hsub%map_subseteq_size.
      { apply map_subseteq_spec. intros s y Hy. rewrite lookup_delete_ne.
        - eapply lookup_weaken; [exact Hy|apply HT].
        - intros <-. congruence. }
      rewrite map_size_delete_Some in Hsub by eauto.
      assert (size (sources d) <> 0%nat) by (intros E2%map_size_empty_inv; by rewrite E2 in E0).
      destruct Hcaps as [C _ _]. rewrite (tr_symbols _ _ HT). lia.
  - unfold entry_extra in *. repeat case_match; try lia.
Qed.

Inductive source_outcome (d : FecDecoder) (seq : Z) (payload : list Z) : FecDecoder -> list DecoderEvent -> Prop :=
| source_oversized : max_bytes d < len payload + 8 -> source_outcome d seq payload d [Recovered seq payload false]
| source_known : known_at d seq -> source_outcome d seq payload d []
| source_admitted d1 evicted mid d' all adv :
    ~ known_at d seq ->
    make_room (entry_extra d seq) 0 0 (len payload + 8 * entry_extra d seq) d = Some (d1, evicted) ->
    trimmed d d1 -> Forall (evicted_missing d d1) evicted -> highest_contiguous d1 = highest_contiguous d ->
    recovery (store_source d1 seq payload) mid d' all adv ->
    source_outcome d seq payload d' (evicted ++ Recovered seq payload false :: (fec_event <$> all) ++ adv).

Lemma decoder_push_source_run d seq payload :
  dec_inv d -> in_u32 seq -> bytes payload ->
  exists d' events, push_source d seq payload = Some (d', events) /\ source_outcome d seq payload d' events.
Proof.
  intros Hinv Hs Hp. unfold push_source. pose proof (len_nonneg payload) as Hlen.
  pose proof (ok_bytes _ (proj1 Hinv)) as Hmb.
  case_test.
  { eexists _, _. split; [done|]. apply source_oversized. wrap_lia. }
  assert (Hfit : len payload + 8 <= max_bytes d) by wrap_lia.
  assert (Hgo : ~ known_at d seq -> exists d' events,
    admit_source d seq payload (entry_extra d seq) (len payload + 8 * entry_extra d seq) = Some (d', events) /\
    source_outcome d seq payload d' events).
  { intros Hk. destruct (admit_source_ok d seq payload Hinv Hs Hp Hfit Hk) as (d1 & ev & E & HT & Hev & Hh & Hi).
    destruct (recover_and_advance_ok _ (ev ++ [Recovered seq payload false]) Hi)
      as (mid & all & d' & adv & HR & E3).
    unfold admit_source. rewrite E. cbn -[recover_and_advance]. rewrite E3.
    eexists _, _. split; [done|]. rewrite <- app_assoc. by eapply source_admitted. }
  unfold known_at, entry_extra in Hgo. destruct (sources d !! seq) as [[p|p|]|] eqn:E.
  1,2: eexists _, _; split; [done|]; apply source_known; by eexists.
  - rewrite Z.add_0_r in Hgo. apply Hgo. intros (x & ? & ?). simplify_eq.
  - replace (sat_add usize_max (len payload) 8) with (len payload + 8 * 1) by wrap_lia.
    apply Hgo. intros (x & ? & ?). simplify_eq.
Qed.

Inductive repair_outcome (d : FecDecoder) (r b e : Z) (payload : list Z) : FecDecoder -> list DecoderEvent -> Prop :=
| repair_rejected : repair_outcome d r b e payload d []
| repair_admitted d0 rolled d1 mid d' all adv :
    wrap32 (e - b) <= max_symbols d -> len payload + 16 <= max_bytes d ->
    repair_horizon_relation d b e = Forward -> (r, b) ∉ seen_repair_keys d ->
    roll_for_repair d b (wrap32 (e - b)) = (d0, rolled) ->
    trimmed d0 d1 -> sources d1 = sources d0 -> highest_contiguous d1 = highest_contiguous d ->
    recovery (register_repair d1 r b e payload (r, b)) mid d' all adv ->
    repair_outcome d r b e payload d' (rolled ++ (fec_event <$> all) ++ adv).

Lemma register_repair_noted d r b e payload key :
  let d' := register_repair d r b e payload key in
  sources d' = register_missing (sources d) (serial_range b e) /\
  repairs d' = repairs d ++ [mkRepair r b e payload] /\
  seen_repair_keys d' = {[key]} ∪ seen_repair_keys d /\
  max_symbols d' = max_symbols d /\ max_bytes d' = max_bytes d /\
  highest_contiguous d' = highest_contiguous d /\
  (wrap32 (e - b) <> 0 -> newest_seq d' <> None) /\
  (wrap32 (e - b) = 0 -> newest_seq d' = newest_seq d).
Proof.
  unfold register_repair. cbv zeta.
  set (d2 := set_sources _ _).
  pose proof (noted_span d2) as [N1 N2 N3 N4 N5 N6].
  assert (N7 : newest_seq (note_open_span_at_frontier d2) = newest_seq d)
    by (unfold note_open_span_at_frontier; by repeat case_match).
  destruct (note_newest_noted (note_open_span_at_frontier d2) (wrap32 (e - 1))) as [[M1 M2 M3 M4 M5 M6] M7].
  destruct (Z.eqb_spec (wrap32 (e - b)) 0) as [E|E]; cbn [negb].
  - cbn [sources repairs seen_repair_keys max_symbols max_bytes highest_contiguous newest_seq set_repairs].
    rewrite N1, N2, N3, N4, N5, N6, N7. done.
  - cbn [sources repairs seen_repair_keys max_symbols max_bytes highest_contiguous newest_seq set_repairs set_horizon].
    rewrite M1, M2, M3, M4, M5, M6, N1, N2, N3, N4, N5, N6. done.
Qed.

Lemma added_sources_range d b e :
  added_sources d b (wrap32 (e - b)) = len (filter (fun s => sources d !! s = None) (serial_range b e)).
Proof. apply added_sources_spec. Qed.

Lemma register_repair_inv d r b e payload :
  dec_ok d -> Z.of_nat (size (sources d)) + added_sources d b (wrap32 (e - b)) <= max_symbols d ->
  admission_room b (wrap32 (e - b)) payload d ->
  in_u32 b -> in_u32 e -> wrap32 (e - b) <= max_symbols d -> bytes payload -> (r, b) ∉ seen_repair_keys d ->
  dec_inv (register_repair d r b e payload (r, b)).
Proof.
  intros Hok Hsz [Hr Hret] Hb He Hw Hp Hkey.
  destruct (register_repair_noted d r b e payload (r, b)) as (R1 & R2 & R3 & R4 & R5 & R6 & R7 & R8).
  destruct (register_missing_spec (sources d) (serial_range b e) (NoDup_serial_range b e)) as (G1 & G2 & G3).
  rewrite added_sources_range in *. pose proof (dec_ok_keys_size _ Hok) as Hks.
  destruct Hok as [O1 O2 O3 O4 O5 O6 O7].
  split; split; rewrite ?retained_eq, ?R1, ?R2, ?R3, ?R4, ?R5; auto.
  - intros s x Hx. rewrite G1 in Hx. destruct (sources d !! s) eqn:E; [simplify_eq; by apply O3|].
    case_decide as Hin; simplify_eq. split; [|done]. by apply elem_of_serial_range in Hin as [? _].
  - apply Forall_app. split; [done|]. constructor; [|done]. done.
  - unfold keys_of in *. rewrite fmap_app, list_to_set_app_L, <- O5. cbn. unfold repair_key at 1. cbn. set_solver.
  - rewrite fmap_app. apply NoDup_app. split; [done|]. split; [|apply NoDup_singleton].
    intros k Hk Hk'. apply list_elem_of_singleton in Hk'. subst. apply Hkey. rewrite O5.
    by apply elem_of_list_to_set.
  - destruct (decide (wrap32 (e - b) = 0)) as [E|E]; [|by intros ?%R7].
    rewrite R8 by done. intros Hn. rewrite (O7 Hn). unfold serial_range. by rewrite E.
  - lia.
  - rewrite len_snoc. lia.
  - rewrite fmap_app, sumZ_app, G3. unfold repair_cost at 2. cbn [fmap list_fmap repair_payload].
    rewrite retained_eq in Hret. rewrite size_union, size_singleton by set_solver.
    unfold sumZ at 2. cbn. lia.
Qed.

Lemma push_repair_run d r b e payload :
  dec_inv d -> in_u32 b -> in_u32 e -> bytes payload ->
  exists d' events, push_repair d r b e payload = Some (d', events) /\ repair_outcome d r b e payload d' events.
Proof.
  intros Hinv Hb He Hp. unfold push_repair. pose proof (len_nonneg payload) as Hlen.
  destruct Hinv as [Hok Hcaps].
  pose proof (ok_bytes _ Hok) as Hmb. pose proof (ok_symbols _ Hok) as Hms.
  assert (Hrej : repair_outcome d r b e payload d []) by constructor.
  case_test; [eauto|].
  destruct (repair_horizon_relation d b e) eqn:Eh; [eauto..|].
  case_bool_decide as Hkey; [eauto|].
  assert (Hpl : len payload + 16 <= max_bytes d) by wrap_lia.
  assert (Hl : 0 <= wrap32 (e - b) <= 128) by (pose proof (wrap32_range (e - b)); lia).
  unfold admit_repair. destruct (roll_for_repair d b (wrap32 (e - b))) as [d0 rolled] eqn:Er.
  destruct (roll_for_repair_spec _ _ _ _ _ Er) as (HT & Hh & Hev & _).
  pose proof (dec_ok_trimmed _ _ HT Hok) as Hok0.
  destruct (admit_loop b (wrap32 (e - b)) payload Hl d0 Hok0 (within_caps_trimmed _ _ _ Hok HT Hcaps))
    as (room & -> & Hroom); [lia|]. cbn [mbind option_bind].
  destruct room as [d1|]; [|eauto]. destruct Hroom as (HT1 & Hs1 & Hh1 & Hroom).
  case_test; [eauto|].
  pose proof (dec_ok_trimmed _ _ HT1 Hok0) as Hok1. pose proof (trimmed_trans _ _ _ HT HT1) as HT2.
  assert (Hsz : Z.of_nat (size (sources d1)) + added_sources d1 b (wrap32 (e - b)) <= max_symbols d1).
  { pose proof (added_sources_bound b _ Hl d1). pose proof (ok_symbols _ Hok1).
    match goal with H : _ <= max_symbols d1 |- _ => revert H end.
    change (source_symbols (accounting d1)) with (Z.of_nat (size (sources d1))).
    generalize dependent (added_sources d1 b (wrap32 (e - b))). intros. wrap_lia. }
  assert (Hkey1 : (r, b) ∉ seen_repair_keys d1).
  { rewrite (ok_keys _ Hok1). rewrite (ok_keys _ Hok) in Hkey. unfold keys_of in *.
    rewrite elem_of_list_to_set in *. intros Hin. apply Hkey. eapply elem_of_sublist; [exact Hin|].
    apply fmap_sublist, HT2. }
  assert (Hw : wrap32 (e - b) <= max_symbols d1) by (rewrite (tr_symbols _ _ HT2); lia).
  destruct (recover_and_advance_ok _ rolled (register_repair_inv d1 r b e payload Hok1 Hsz Hroom Hb He Hw Hp Hkey1))
    as (mid & all & d' & adv & HR & ->).
  cbn. eexists _, _. split; [done|]. eapply repair_admitted; eauto; first [lia|congruence].
Qed.

(** Symbols as the wire delivers them. *)
Definition symbol_wf (sym : Symbol) : Prop :=
  match sym with
  | Source seq payload => in_u32 seq /\ bytes payload
  | Repair r b e payload => in_u16 r /\ in_u32 b /\ in_u32 e /\ bytes payload
  end.

#[export] Instance symbol_wf_dec sym : Decision (symbol_wf sym).
Proof. destruct sym; cbn; unfold in_u; apply _. Defined.

Lemma source_outcome_inv d seq payload d' events :
  dec_inv d -> source_outcome d seq payload d' events -> dec_inv d'.
Proof. intros Hd. destruct 1; eauto using rc_end. Qed.

Lemma repair_outcome_inv d r b e payload d' events :
  dec_inv d -> repair_outcome d r b e payload d' events -> dec_inv d'.
Proof. intros Hd. destruct 1; eauto using rc_end. Qed.

Lemma push_symbol_inv d sym :
  dec_inv d -> symbol_wf sym -> exists d' events, push_symbol d sym = Some (d', events) /\ dec_inv d'.
Proof.
  intros Hd. destruct sym as [seq p|r b e p]; intros Hwf; cbn in Hwf |- *.
  - destruct Hwf as [Hs Hp]. destruct (decoder_push_source_run d seq p Hd Hs Hp) as (d' & ev & E & Ho).
    exists d', ev. split; [done|]. by eapply source_outcome_inv.
  - destruct Hwf as (_ & Hb & He & Hp). destruct (push_repair_run d r b e p Hd Hb He Hp) as (d' & ev & E & Ho).
    exists d', ev. split; [done|]. by eapply repair_outcome_inv.
Qed.

Lemma new_inv ms mb : dec_inv (new ms mb).
Proof.
  split; split; rewrite ?retained_eq; cbn; rewrite ?map_cost_empty, ?map_size_empty, ?size_empty;
    unfold clamp, len; cbn; try done; try lia. apply NoDup_nil_2.
Qed.

Lemma push_symbols_inv d syms :
  dec_inv d -> Forall symbol_wf syms -> exists d' events, push_symbols d syms = Some (d', events) /\ dec_inv d'.
Proof.
  intros Hd Hwf. revert d Hd. induction Hwf as [|sym syms Hs _ IH]; intros d Hd; cbn [push_symbols]; [eauto|].
  destruct (push_symbol_inv d sym Hd Hs) as (d1 & ev1 & -> & Hd1). cbn.
  destruct (IH d1 Hd1) as (d2 & ev2 & -> & Hd2). cbn. eauto.
Qed.

(** ** Properties *)

(** C4: whatever well-formed symbols arrive, in whatever order, the decoder
    returns (none of its loops runs on, the elimination does not panic), and
    its state stays bounded: at most [max_symbols] sources and repairs, one
    dedup key per repair, and retained bytes within the byte cap (plus the
    8 bytes of one entry, see [accounting_overshoot]). *)
Theorem decoder_bounded ms mb syms :
  Forall symbol_wf syms ->
  exists d events, push_symbols (new ms mb) syms = Some (d, events) /\
    let acc := accounting d in
    source_symbols acc <= max_symbols d <= 128 /\ repair_symbols acc <= max_symbols d /\
    dedup_keys acc = repair_symbols acc /\ retained_bytes acc <= max_bytes d + 8.
Proof.
  intros Hwf. destruct (push_symbols_inv _ _ (new_inv ms mb) Hwf) as (d & ev & E & Hok & [C1 C2 C3]).
  exists d, ev. split; [done|]. cbn. pose proof (ok_symbols _ Hok). pose proof (dec_ok_keys_size _ Hok).
  unfold len in *. change (retained_bytes (accounting d)) with (retained d) in *. cbn in C3. lia.
Qed.

Definition demo_syms : list Symbol :=
  [Source 0 [1; 2]; Source 2 [7]; Repair 0 0 3 [4; 4; 1; 9]; Repair 5 4294967290 3 [1; 2; 3]; Repair 5 1 2 [];
   Source 1 []].

Lemma decoder_bounded_witness :
  exists d events, push_symbols (new 4 200) demo_syms = Some (d, events) /\ repair_symbols (accounting d) <= 128.
Proof.
  destruct (decoder_bounded 4 200 demo_syms) as (d & ev & E & H1 & H2 & _); [by_decide|].
  exists d, ev. split; [done|]. lia.
Defined.

(** The overshoot of [decoder_bounded] is real: making room for a payload may
    evict the very [Missing] entry the payload belongs to, whose 8 bytes
    [push_source] did not count. *)
Definition overshoot_syms : list Symbol := [Repair 0 0 2 [0; 0]; Source 0 (replicate 52 0)].

(** The decoder can exceed its byte cap: [push_source] makes room for the
    payload of a [Missing] sequence number by evicting that very entry, reports
    it evicted, and then stores it with 8 bytes it did not count. *)
Theorem accounting_overshoot :
  exists d, push_symbols (new 128 60) overshoot_syms =
    Some (d, [Evicted 0 1; Recovered 0 (replicate 52 0) false]) /\
    max_bytes d = 60 /\ retained_bytes (accounting d) = 68.
Proof. eexists. split; [vm_compute; reflexivity|]. by vm_compute. Qed.

(** after every push the contiguous frontier stands at a sequence number
    whose payload the decoder does not hold, it moved only past sequence numbers
    that are known or were declared lost by a [LossSpan], and each [LossSpan]
    names sequence numbers that were [Missing] and are forgotten. *)
Theorem frontier_exact d :
  dec_inv d ->
  exists d' events, advance_contiguous d = Some (d', events) /\ ~ known_at d' (frontier d') /\
    (exists j, frontier d' = wrap32 (frontier d + Z.of_nat j) /\
      forall i, (i < j)%nat -> known_at d (wrap32 (frontier d + Z.of_nat i)) \/
        exists a b, LossSpan a b ∈ events /\ wrap32 (frontier d + Z.of_nat i) ∈ serial_range a b) /\
    Forall (fun ev => exists a b, ev = LossSpan a b /\ forall s, s ∈ serial_range a b ->
      sources d !! s = Some Missing /\ sources d' !! s = None) events.
Proof.
  intros [Hok [C1 _ _]]. pose proof (ok_symbols _ Hok).
  destruct (advance_contiguous_ok d) as (d' & ev & E & HA & Hf); [lia|].
  exists d', ev. split; [done|]. split; [done|]. split; apply HA.
Qed.

Definition demo_gap : FecDecoder :=
  default (new 1 1) (fst <$> push_symbols (new 8 4096)
    [Source 0 [1]; Repair 0 0 3 [4; 4; 1; 9]; Source 1 [2; 2]]).

Lemma demo_gap_inv : dec_inv demo_gap.
Proof.
  destruct (push_symbols_inv (new 8 4096) [Source 0 [1]; Repair 0 0 3 [4; 4; 1; 9]; Source 1 [2; 2]]
    (new_inv 8 4096)) as (d & ev & E & H); [by_decide|]. unfold demo_gap. by rewrite E.
Qed.

Lemma frontier_exact_witness :
  exists d' events, advance_contiguous demo_gap = Some (d', events) /\ ~ known_at d' (frontier d').
Proof.
  destruct (frontier_exact demo_gap demo_gap_inv) as (d' & ev & E & H & _).
  exists d', ev. exact (conj E H).
Defined.
