(* ===== verification/DecoderSound.v ===== *)
(** * What the decoder recovers is what was sent

    Soundness of the recovery of FecDecoder against a sender's log, the runs on
    which it holds end to end with FecEncoder, its liveness for a single loss,
    and the two situations in which the code emits a wrong payload. *)
From S2P Require Import Prelude Serial Gf256 FecEncoder Gauss FecDecoder DecoderBounds.

(** ** Agreement with a sender's log *)

Definition repair_agrees (truth : Z -> list Z) (r : ReceivedRepair) : Prop :=
  repair_truthful truth (repair_seq r) (repair_base r) (repair_end r) (repair_payload r).

Record consistent (truth : Z -> list Z) (d : FecDecoder) : Prop := {
  cs_sources : forall s x p, sources d !! s = Some x -> state_payload x = Some p -> p = truth s /\ payload_ok p;
  cs_repairs : Forall (repair_agrees truth) (repairs d)
}.

(** Every sequence number an equation mentions is still an entry of [sources]. *)
Definition covered (d : FecDecoder) : Prop :=
  Forall (fun r => Forall (fun s => is_Some (sources d !! s)) (serial_range (repair_base r) (repair_end r)))
    (repairs d).

(** ** The equation of one repair *)

Lemma at0_alter f i l j :
  (i < length l)%nat -> at0 (alter f i l) j = if decide (j = i) then f (at0 l j) else at0 l j.
Proof.
  intros Hi. unfold at0. rewrite list_lookup_alter.
  destruct (lookup_lt_is_Some_2 l i Hi) as [x Hx].
  repeat case_decide; subst; try congruence. by rewrite Hx.
Qed.

Lemma at0_take_drop l j : at0 (drop 2 l) j = at0 l (2 + j).
Proof. unfold at0. by rewrite lookup_drop. Qed.

Lemma at0_subtract_source c rl p row j :
  2 <= rl -> (2 + length p <= length row)%nat -> (j < length row)%nat ->
  at0 (subtract_source c rl p row) j = at0 row j ⊕ gf_mul c (at0 (eff p) j).
Proof.
  intros Hrl Hrow Hj. unfold subtract_source.
  rewrite (proj2 (Z.ltb_lt 0 rl)), (proj2 (Z.leb_le 2 rl)) by lia.
  set (r1 := alter _ 0%nat row). set (r2 := alter _ 1%nat r1).
  assert (L1 : length r1 = length row) by apply length_alter.
  assert (L2 : length r2 = length row) by (unfold r2; by rewrite length_alter).
  assert (H2 : forall k, at0 r2 k = at0 row k ⊕ (if decide (k < 2)%nat then gf_mul c (at0 (eff p) k) else 0)).
  { intros k. unfold r2, r1. rewrite !at0_alter by (rewrite ?length_alter; lia).
    unfold eff. destruct k as [|[|k]]; cbn [decide Nat.eq_dec]; repeat case_decide; try lia;
      try (rewrite at0_app_l by (rewrite length_le_bytes; lia)); rewrite ?Z.lxor_0_r; done. }
  destruct (decide (j < 2)%nat) as [Hlt|Hge].
  - rewrite at0_app_l by (rewrite length_take; lia). unfold at0 at 1. rewrite lookup_take_lt by lia.
    fold (at0 r2 j). by rewrite H2, decide_True.
  - rewrite at0_app_r by (rewrite length_take; lia). rewrite length_take, Nat.min_l by lia.
    rewrite at0_xor_scaled by (rewrite length_drop; lia).
    rewrite at0_take_drop, H2. replace (2 + (j - 2))%nat with j by lia.
    rewrite decide_False, Z.lxor_0_r by lia. unfold eff.
    by rewrite at0_app_r, length_le_bytes by (rewrite length_le_bytes; lia).
Qed.

Lemma row_value_insert m X (cs : list Z) pos k :
  length cs = m -> (pos < m)%nat -> at0 cs pos = 0 ->
  row_value m X (<[pos:=k]> cs) = row_value m X cs ⊕ gf_mul k (X pos).
Proof.
  intros Hm Hpos H0. unfold row_value.
  transitivity (xorsum ((fun c => gf_mul (at0 cs c) (X c) ⊕ (if decide (c = pos) then gf_mul k (X pos) else 0)) <$> seq 0 m)).
  - f_equal. apply list_fmap_ext. intros ? c _. unfold at0 at 1. rewrite list_lookup_insert.
    repeat case_decide; subst; try tauto; try lia.
    + by rewrite H0, gf_mul_0_l, Z.lxor_0_l.
    + by rewrite Z.lxor_0_r.
  - rewrite xorsum_lxor. f_equal. rewrite (xorsum_single _ _ pos).
    + by rewrite decide_True.
    + apply elem_of_seq. lia.
    + apply NoDup_seq.
    + intros b _ Hb. by rewrite decide_False.
Qed.

Lemma position_spec s missing : s ∈ missing -> exists pos, position s missing = Some pos /\ missing !! pos = Some s.
Proof.
  intros Hs. unfold position. destruct (list_find_elem_of (fun x => x = s) missing s Hs eq_refl) as [[i y] E].
  rewrite E. apply list_find_Some in E as (H1 & -> & _). by exists i.
Qed.

Section row.
Context (truth : Z -> list Z) (d : FecDecoder) (r : ReceivedRepair) (P : nat).
Context (Hcons : consistent truth d) (Hr : repair_agrees truth r).
Context (HP : (length (repair_payload r) <= P)%nat).

(** The unknowns, with an arbitrary value outside the window. *)
Definition unknowns (X : nat -> nat -> Z) : Prop :=
  forall c s, missing_seqs d !! c = Some s -> s ∈ serial_range (repair_base r) (repair_end r) ->
  forall j, X c j = at0 (eff (truth s)) j.

Definition term (s : Z) (j : nat) : Z := gf_mul (gf_coeff (repair_seq r) s) (at0 (eff (truth s)) j).

(** The invariant of the row's loop: the sum of both sides only gains the terms visited. *)
Lemma row_fold X seqs cs rs :
  unknowns X -> NoDup seqs -> (forall s, s ∈ seqs -> s ∈ serial_range (repair_base r) (repair_end r)) ->
  Forall (fun s => is_Some (sources d !! s)) seqs ->
  length cs = length (missing_seqs d) -> length rs = P ->
  (forall c s, missing_seqs d !! c = Some s -> s ∈ seqs -> at0 cs c = 0) ->
  forall j, (j < P)%nat ->
  let st := foldl (row_step d (missing_seqs d) r) (cs, rs) seqs in
  row_value (length (missing_seqs d)) (fun c => X c j) st.1 ⊕ at0 st.2 j =
  row_value (length (missing_seqs d)) (fun c => X c j) cs ⊕ at0 rs j ⊕ xorsum ((fun s => term s j) <$> seqs).
Proof.
  intros HX Hnd. revert cs rs. induction Hnd as [|s seqs Hs Hnd IH]; intros cs rs Hin Hcov Lc Lr Hz j Hj.
  - cbn. by rewrite Z.lxor_0_r.
  - apply Forall_cons in Hcov as [[x Hx] Hcov].
    destruct Hr as (_ & _ & _ & _ & _ & Hrl & Hok & _).
    destruct (Hok s (Hin s ltac:(left))) as [Hpo Hlen]. rewrite len_eff in Hlen.
    rewrite fmap_cons. cbn [foldl xorsum foldr]. fold (xorsum ((fun s => term s j) <$> seqs)). cbv zeta.
    unfold row_step at 2 4. rewrite Hx.
    destruct (state_payload x) as [p|] eqn:Ep.
    + destruct (cs_sources _ _ Hcons s x p Hx Ep) as [-> Hp].
      assert (Hrow : at0 (subtract_source (gf_coeff (repair_seq r) s) (len (repair_payload r)) (truth s) rs) j =
        at0 rs j ⊕ term s j).
      { apply at0_subtract_source; unfold len in *; lia. }
      destruct x as [q|q|]; cbn in Ep; simplify_eq; rewrite IH; auto using length_subtract_source;
        try (rewrite Hrow; xor_ac); try (by rewrite length_subtract_source);
        try (intros y Hy; apply Hin; by right); intros c y Hc Hy; apply (Hz c y Hc); by right.
    + destruct x; cbn in Ep; try done.
      destruct (position_spec s (missing_seqs d)) as (pos & -> & Hpos); [by apply elem_of_missing_seqs|].
      pose proof (lookup_lt_Some _ _ _ Hpos) as Hlt.
      rewrite IH; auto.
      * rewrite row_value_insert; [|done|done|apply (Hz pos s Hpos); left].
        rewrite (HX pos s Hpos) by (apply Hin; left). unfold term. xor_ac.
      * intros y Hy. apply Hin. by right.
      * by rewrite length_insert.
      * intros c y Hc Hy. unfold at0. rewrite list_lookup_insert_ne.
        -- apply (Hz c y Hc). by right.
        -- intros ->. by simplify_eq.
Qed.

Lemma build_row_holds X :
  Forall (fun s => is_Some (sources d !! s)) (serial_range (repair_base r) (repair_end r)) -> unknowns X ->
  row_holds (length (missing_seqs d)) P X (build_row d (missing_seqs d) P r).1 (build_row d (missing_seqs d) P r).2.
Proof.
  intros Hcov HX j Hj. apply lxor_eq_0. unfold build_row. pose proof Hr as (_ & _ & _ & _ & _ & _ & _ & Hcomb).
  rewrite row_fold; auto using NoDup_serial_range, length_replicate.
  - unfold row_value at 1. rewrite xorsum_zero.
    2:{ intros c _. rewrite at0_replicate. apply gf_mul_0_l. }
    rewrite Z.lxor_0_l. change (xorsum ((fun s => term s j) <$> serial_range (repair_base r) (repair_end r)))
      with (combination truth (repair_seq r) (serial_range (repair_base r) (repair_end r)) j).
    rewrite <- Hcomb. replace (at0 (repair_payload r ++ _) j) with (at0 (repair_payload r) j); [apply Z.lxor_nilpotent|].
    destruct (decide (j < length (repair_payload r))%nat).
    + by rewrite at0_app_l.
    + by rewrite at0_app_r, at0_replicate, at0_ge by lia.
  - rewrite length_app, length_replicate. lia.
  - intros c s _ _. apply at0_replicate.
Qed.
End row.

(** ** One elimination pass *)

Definition in_windows (d : FecDecoder) (s : Z) : Prop :=
  Exists (fun r => s ∈ serial_range (repair_base r) (repair_end r)) (repairs d).

(** The sender's payloads where an equation determines them, [y] elsewhere. *)
Definition sent_values (truth : Z -> list Z) (d : FecDecoder) (y : Z) (c j : nat) : Z :=
  let s := at0 (missing_seqs d) c in
  if decide (in_windows d s) then at0 (eff (truth s)) j else y.

Section pass.
Context (truth : Z -> list Z) (d : FecDecoder).
Context (Hok : dec_ok d) (Hcons : consistent truth d) (Hcov : covered d).

Lemma in_windows_ok s : in_windows d s ->
  exists r, r ∈ repairs d /\ payload_ok (truth s) /\ len (eff (truth s)) <= len (repair_payload r).
Proof.
  intros (r & Hr & Hs)%Exists_exists. exists r. split; [done|].
  pose proof (cs_repairs _ _ Hcons) as H. rewrite Forall_forall in H.
  destruct (H r Hr) as (_ & _ & _ & _ & _ & _ & H' & _). by apply H'.
Qed.

Lemma sent_values_bytes y c j : is_byte y -> is_byte (sent_values truth d y c j).
Proof.
  intros Hy. unfold sent_values. case_decide as Hw; [|done].
  destruct (in_windows_ok _ Hw) as (_ & _ & [Hb _] & _). apply is_byte_at0. by apply bytes_eff.
Qed.

Lemma sent_values_system y :
  system (length (missing_seqs d)) (Z.to_nat (max_eff_len d)) (sent_values truth d y)
    (elim_rows d).*1 (elim_rows d).*2.
Proof.
  unfold system, elim_rows.
  apply Forall2_fmap_l, Forall2_fmap_r, Forall2_fmap_l, Forall2_fmap_r, Forall_Forall2_diag.
  apply Forall_forall. intros r Hr. pose proof (repair_len_max d r Hr).
  pose proof (cs_repairs _ _ Hcons) as H'. rewrite Forall_forall in H'.
  pose proof Hcov as H''. unfold covered in H''. rewrite Forall_forall in H''.
  apply (build_row_holds truth); auto.
  - unfold len in *. lia.
  - intros c s Hc Hs j. unfold sent_values. replace (at0 (missing_seqs d) c) with s by (unfold at0; by rewrite Hc).
    rewrite decide_True; [done|]. apply Exists_exists. by exists r.
Qed.

Lemma take_at0 l v : (length l <= length v)%nat -> (forall j, (j < length l)%nat -> at0 l j = at0 v j) ->
  take (length l) v = l.
Proof.
  intros Hl H. apply list_eq_same_length with (length l); [done|rewrite length_take; lia|].
  intros i x y Hi Hx Hy. rewrite lookup_take_lt in Hx by done.
  specialize (H i Hi). unfold at0 in H. rewrite Hx, Hy in H. done.
Qed.

Lemma extract_eff (p v : list Z) :
  payload_ok p -> (length (eff p) <= length v)%nat -> (forall j, (j < length (eff p))%nat -> at0 (eff p) j = at0 v j) ->
  extract_payload v = Some p.
Proof.
  intros [Hb Hp] Hl H. assert (Hlen : length (eff p) = (2 + length p)%nat) by done.
  assert (Hv : v = u16_le (wrap16 (len p)) ++ p ++ drop (length (eff p)) v).
  { rewrite <- (take_drop (length (eff p)) v) at 1. rewrite app_assoc. f_equal. apply take_at0; done. }
  clear H. unfold extract_payload. rewrite (proj2 (Z.ltb_ge (len v) 2)) by (unfold len; lia).
  assert (Hs : slice v 0 2 = u16_le (wrap16 (len p))) by (rewrite Hv; by apply slice_app_l).
  rewrite Hs, of_le_le_bytes by (unfold wrap16; apply Z.mod_pos_bound; lia).
  unfold wrap16. rewrite Z.mod_small by (pose proof (len_nonneg p); lia). f_equal.
  replace (Z.to_nat _) with (2 + length p)%nat by (unfold len; lia).
  rewrite Hv, (slice_shift _ _ 2) by (rewrite ?length_le_bytes; lia). apply slice_app_l. lia.
Qed.

(** A reported column is one some equation determines, and its value the sender's. *)
Lemma solution_sound sol c v :
  gaussian_elim (elim_rows d).*1 (elim_rows d).*2 (length (missing_seqs d)) (Z.to_nat (max_eff_len d)) = Some sol ->
  0 < max_eff_len d -> (c, v) ∈ sol ->
  extract_payload v = Some (truth (at0 (missing_seqs d) c)) /\ payload_ok (truth (at0 (missing_seqs d) c)).
Proof.
  intros E HP Hin.
  destruct (gaussian_elim_ok _ _ _ _ _ (elim_rows_shape d Hok)) as (sol' & E' & Hsol & _ & Hsound).
  rewrite E in E'. simplify_eq. destruct (Hsol c v Hin) as (_ & Hv & _).
  assert (HX : forall y, is_byte y -> forall j, (j < Z.to_nat (max_eff_len d))%nat -> sent_values truth d y c j = at0 v j).
  { intros y Hy. eapply Hsound; [intros; by apply sent_values_bytes|apply sent_values_system|done]. }
  destruct (decide (in_windows d (at0 (missing_seqs d) c))) as [Hw|Hw].
  - destruct (in_windows_ok _ Hw) as (r & Hr & Hpo & Hlen). split; [|done].
    pose proof (repair_len_max d r Hr). apply extract_eff; [done|unfold len in *; lia|].
    intros j Hj. rewrite <- (HX 0 is_byte_0) by (unfold len in *; lia).
    unfold sent_values. by rewrite decide_True.
  - exfalso. pose proof (HX 0 is_byte_0 0%nat ltac:(lia)) as H0. pose proof (HX 1 is_byte_1 0%nat ltac:(lia)) as H1.
    unfold sent_values in H0, H1. rewrite decide_False in H0, H1 by done. congruence.
Qed.

Definition batch_true (batch : list (Z * list Z)) : Prop :=
  Forall (fun '(s, p) => p = truth s /\ payload_ok p) batch.

Lemma one_elim_pass_sound batch : one_elim_pass d = Some batch -> batch_true batch.
Proof.
  unfold one_elim_pass. case_test; [by intros [= <-]; constructor|]. case_test; [by intros [= <-]; constructor|].
  case_test; [by intros [= <-]; constructor|]. case_test; [by intros [= <-]; constructor|].
  case_test; [by intros [= <-]; constructor|]. fold (elim_rows d).
  destruct (gaussian_elim _ _ _ _) as [sol|] eqn:E; [|done]. intros [= <-].
  apply Forall_concat, Forall_fmap, Forall_forall. intros [c v] Hin. cbn. unfold collect_solution. cbn.
  assert (0 < max_eff_len d).
  { assert (0 <= max_eff_len d); [|lia]. destruct (repairs d) as [|r rs] eqn:Er; [done|].
    pose proof (repair_len_max d r ltac:(rewrite Er; left)). pose proof (len_nonneg (repair_payload r)). lia. }
  destruct (solution_sound sol c v E) as [-> Hp]; [done|done|]. constructor; [done|constructor].
Qed.
End pass.

(** ** The recovery loop *)

Lemma consistent_ext truth d d' :
  sources d' = sources d -> repairs d' = repairs d -> consistent truth d -> consistent truth d'.
Proof. intros Hs Hr [H1 H2]. split; by rewrite ?Hs, ?Hr. Qed.

Lemma covered_ext d d' : sources d' = sources d -> repairs d' = repairs d -> covered d -> covered d'.
Proof. intros Hs Hr. unfold covered. by rewrite Hs, Hr. Qed.

Lemma consistent_store truth d batch :
  batch_ok d batch -> consistent truth d -> batch_true truth batch -> consistent truth (store_recovered d batch).
Proof.
  intros Hb [H1 H2] Ht. split; [|done]. intros s x p Hx Hp.
  destruct (lookup_store_recovered _ _ _ _ Hb Hx) as [[_ H]|(q & Hq & ->)]; [by eapply H1|].
  unfold batch_true in Ht. rewrite Forall_forall in Ht. cbn in Hp. simplify_eq. apply (Ht _ Hq).
Qed.

Lemma covered_store d batch : batch_ok d batch -> covered d -> covered (store_recovered d batch).
Proof.
  intros Hb H. eapply Forall_impl; [exact H|]. intros r Hr. eapply Forall_impl; [exact Hr|]. intros s [x Hx].
  destruct (store_recovered_spec _ _ Hb) as (_ & _ & H3 & H4).
  destruct (decide (s ∈ batch.*1)) as [Hin|Hin]; [|rewrite H4; eauto].
  destruct (elem_of_batch _ _ Hin) as [p Hp]. rewrite (H3 _ _ Hp). eauto.
Qed.

Lemma try_recover_sound truth d d' all :
  dec_ok d -> consistent truth d -> covered d -> try_recover d = Some (d', all) ->
  batch_true truth all /\ consistent truth d' /\ covered d'.
Proof.
  intros Hok Hc Hv. unfold try_recover.
  destruct (loop_fuel _ _ _) as [r|] eqn:E; [|done]. cbn. intros ->. revert E.
  change (batch_true truth all /\ consistent truth d' /\ covered d') with
    ((fun r => match r with None => True | Some (d', all) =>
       batch_true truth all /\ consistent truth d' /\ covered d' end) (Some (d', all))).
  apply loop_fuel_inv with (I := fun '(d', all) =>
    dec_ok d' /\ batch_true truth all /\ consistent truth d' /\ covered d').
  - intros [d1 a1] st (O1 & B1 & C1 & V1). unfold try_recover_body.
    destruct (one_elim_pass_ok d1 O1) as (batch & E & Hb). rewrite E.
    pose proof (one_elim_pass_sound truth d1 O1 C1 V1 batch E) as Ht.
    do 2 (case_test; [done|]). intros [= <-].
    split; [eapply dec_ok_trimmed; [apply (trimmed_stats (store_recovered d1 batch))|by apply dec_ok_store]|].
    split; [by apply Forall_app|]. split.
    + by apply (consistent_ext truth (store_recovered d1 batch)), consistent_store.
    + by apply (covered_ext (store_recovered d1 batch)), covered_store.
  - intros [d1 a1] r1 (O1 & B1 & C1 & V1). unfold try_recover_body.
    destruct (one_elim_pass d1); [|by intros [= <-]].
    case_test; [by intros [= <-]|]. case_test; [by intros [= <-]|done].
  - split; [done|]. split; [constructor|done].
Qed.

(** ** The pushes *)

(** The decoder has room for the symbol without giving up an entry, or the
    symbol is a repair with a window. *)
Definition roomy (d : FecDecoder) (sym : Symbol) : Prop :=
  match sym with
  | Source seq payload => fits (entry_extra d seq) (len payload + 8 * entry_extra d seq) d
  | Repair _ b e _ => b <> e
  end.

#[export] Instance roomy_dec d sym : Decision (roomy d sym).
Proof. destruct sym; unfold roomy, fits; apply _. Defined.

Definition event_true (truth : Z -> list Z) (ev : DecoderEvent) : Prop :=
  match ev with Recovered s p _ => p = truth s | _ => True end.

Definition is_loss_span (ev : DecoderEvent) : bool := match ev with LossSpan _ _ => true | _ => false end.

Definition no_loss (events : list DecoderEvent) : Prop := Forall (fun ev => is_loss_span ev = false) events.

#[export] Instance no_loss_dec events : Decision (no_loss events) := ltac:(unfold no_loss; apply _).

Lemma consistent_trimmed truth d d' : trimmed d d' -> consistent truth d -> consistent truth d'.
Proof.
  intros HT [H1 H2]. split.
  - intros s x p Hx. apply H1. eapply lookup_weaken; [exact Hx|apply (tr_sources _ _ HT)].
  - rewrite Forall_forall in H2 |- *. intros r Hr. apply H2. eapply elem_of_sublist; [exact Hr|apply (tr_repairs _ _ HT)].
Qed.

Lemma advanced_quiet d d' adv : advanced d d' adv -> no_loss adv -> adv = [].
Proof.
  intros HA Hn. destruct adv as [|ev adv]; [done|].
  pose proof (Forall_inv (ad_events _ _ _ HA)) as (a & b & -> & _). by apply Forall_inv in Hn.
Qed.

Lemma fec_events_true truth all : batch_true truth all -> Forall (event_true truth) (fec_event <$> all).
Proof. intros H. apply Forall_fmap. eapply Forall_impl; [exact H|]. by intros [s p] [-> _]. Qed.

(** The common tail: recovery from a consistent, covered state. *)
Lemma recovery_sound truth d mid d' all adv :
  recovery d mid d' all adv -> consistent truth d -> covered d ->
  Forall (event_true truth) ((fec_event <$> all) ++ adv) /\ consistent truth d' /\
  (no_loss adv -> covered d').
Proof.
  intros [[Hok _] E Hb Hs HA Hf _] Hc Hv.
  destruct (try_recover_sound truth d mid all Hok Hc Hv E) as (Ht & Hc' & Hv').
  split; [|split].
  - apply Forall_app. split; [by apply fec_events_true|].
    eapply Forall_impl; [exact (ad_events _ _ _ HA)|]. by intros ev (a & b & -> & _).
  - eapply consistent_trimmed; [exact (ad_trimmed _ _ _ HA)|done].
  - intros Hn. pose proof (advanced_quiet _ _ _ HA Hn) as Ha.
    apply (covered_ext mid); [by apply (ad_quiet _ _ _ HA)|by apply (ad_repairs _ _ _ HA)|done].
Qed.

Lemma store_source_noted d seq payload :
  sources (store_source d seq payload) = <[seq:=Received payload]> (sources d) /\
  repairs (store_source d seq payload) = repairs d.
Proof.
  unfold store_source. cbv zeta.
  destruct (note_newest_noted (note_open_span_at_frontier d) seq) as [HN _].
  pose proof (noted_trans _ _ _ (noted_span d) HN) as [N1 N2 _ _ _ _]. cbn. by rewrite N1, N2.
Qed.

Lemma store_source_sound truth d seq :
  payload_ok (truth seq) -> consistent truth d -> covered d ->
  consistent truth (store_source d seq (truth seq)) /\ covered (store_source d seq (truth seq)).
Proof.
  intros Hp [H1 H2] Hv. destruct (store_source_noted d seq (truth seq)) as [E1 E2]. split; [split|].
  - intros s x p. rewrite E1. destruct (decide (s = seq)) as [->|Hne].
    + rewrite lookup_insert_eq. intros [= <-] [= <-]. done.
    + rewrite lookup_insert_ne by done. apply H1.
  - by rewrite E2.
  - unfold covered. rewrite E1, E2. eapply Forall_impl; [exact Hv|]. intros r Hr.
    eapply Forall_impl; [exact Hr|]. intros s Hs. destruct (decide (s = seq)) as [->|Hne].
    + rewrite lookup_insert_eq. eauto.
    + by rewrite lookup_insert_ne.
Qed.

Lemma push_source_sound truth d seq d' events :
  dec_inv d -> consistent truth d -> covered d -> payload_ok (truth seq) ->
  roomy d (Source seq (truth seq)) -> source_outcome d seq (truth seq) d' events ->
  Forall (event_true truth) events /\ consistent truth d' /\ (no_loss events -> covered d').
Proof.
  intros [Hok Hcaps] Hc Hv Hp Hroom.
  destruct 1 as [| |d1 evicted mid d' all adv Hk Em HT Hev Hh HR].
  - split; [by repeat constructor|done].
  - split; [constructor|done].
  - assert (Ha : 0 <= entry_extra d seq <= 1) by (unfold entry_extra; case_match; lia).
    rewrite make_room_noop in Em; [|done|done|by apply ok_symbols|apply ok_bytes, Hok|done]. simplify_eq.
    destruct (store_source_sound truth d1 seq Hp Hc Hv) as [Hc1 Hv1].
    destruct (recovery_sound truth _ _ _ _ _ HR Hc1 Hv1) as (G1 & G2 & G3).
    split; [by constructor|]. split; [done|]. intros Hn. apply G3.
    unfold no_loss in *. cbn in Hn. apply Forall_cons in Hn as [_ Hn]. by apply Forall_app in Hn as [_ ?].
Qed.

Lemma push_repair_sound truth d r b e payload d' events :
  dec_inv d -> consistent truth d -> repair_truthful truth r b e payload -> b <> e ->
  repair_outcome d r b e payload d' events ->
  Forall (event_true truth) events /\ consistent truth d' /\
  (no_loss events -> (events = [] -> covered d) -> covered d').
Proof.
  intros [Hok Hcaps] Hc Ht Hne.
  destruct 1 as [|d0 rolled d1 mid d' all adv Hw Hpl Hh Hk Er HT Hs Hhc HR].
  - split; [constructor|]. auto.
  - destruct (roll_for_repair_spec _ _ _ _ _ Er) as (HT0 & _ & Hev & _ & Hroll).
    destruct Ht as (Hr & Hb & He & Hw' & Ht).
    assert (Hl : wrap32 (e - b) <> 0) by (rewrite in_u32_iff in *; wrap_lia).
    destruct (Hroll Hl) as [Hlook Hkept].
    pose proof (trimmed_trans _ _ _ HT0 HT) as HT1.
    destruct (register_repair_noted d1 r b e payload (r, b)) as (R1 & R2 & _).
    destruct (register_missing_spec (sources d1) (serial_range b e) (NoDup_serial_range b e)) as (G1 & _).
    assert (Hc1 : consistent truth (register_repair d1 r b e payload (r, b))).
    { destruct (consistent_trimmed _ _ _ HT1 Hc) as [C1 C2]. split; rewrite ?R1, ?R2.
      - intros s x p Hx Hp. rewrite G1 in Hx. destruct (sources d1 !! s) eqn:E1; [simplify_eq; by eapply C1|].
        case_decide; simplify_eq.
      - apply Forall_app. split; [done|]. constructor; [|done]. split; [done|]. auto. }
    assert (Hin : forall s, s ∈ serial_range b e -> is_Some (register_missing (sources d1) (serial_range b e) !! s)).
    { intros s Hin. rewrite G1. destruct (sources d1 !! s); [eauto|]. rewrite decide_True by done. eauto. }
    assert (Hv1 : covered (register_repair d1 r b e payload (r, b))).
    { unfold covered. rewrite R1, R2. apply Forall_app. split.
      - apply Forall_forall. intros q Hq. apply Forall_forall. intros s Hsq. apply Hin.
        pose proof (elem_of_sublist _ _ _ Hq (tr_repairs _ _ HT)) as Hq0.
        rewrite Forall_forall in Hkept. destruct (Hkept q Hq0) as (Hqd & W1 & W2).
        pose proof (ok_repairs _ Hok) as Hrs. rewrite Forall_forall in Hrs. destruct (Hrs q Hqd) as (Q1 & Q2 & Q3 & _).
        pose proof (ok_symbols _ Hok). apply (serial_range_incl b e (repair_base q) (repair_end q)); auto; lia.
      - constructor; [|constructor]. by apply Forall_forall. }
    destruct (recovery_sound truth _ _ _ _ _ HR Hc1 Hv1) as (E1 & E2 & E3).
    split; [|split; [done|]].
    + apply Forall_app. split; [|done]. eapply Forall_impl; [exact Hev|]. by intros ev (s & -> & _).
    + intros Hn _. apply E3. unfold no_loss in *. by apply Forall_app in Hn as [_ [_ ?]%Forall_app].
Qed.

(** ** Runs *)

Fixpoint roomy_run (d : FecDecoder) (syms : list Symbol) : Prop :=
  match syms with
  | [] => True
  | sym :: syms =>
      roomy d sym /\ match push_symbol d sym with Some (d', _) => roomy_run d' syms | None => False end
  end.

#[export] Instance roomy_run_dec d syms : Decision (roomy_run d syms).
Proof.
  revert d. induction syms as [|sym syms IH]; intros d; cbn; [apply _|].
  apply and_dec; [apply _|]. destruct (push_symbol d sym) as [[d' ev]|]; [apply IH|apply _].
Defined.

Lemma truthful_wf truth sym : truthful truth sym -> symbol_wf sym.
Proof.
  destruct sym as [s p|r b e p]; cbn.
  - intros (? & -> & [? _]). done.
  - intros (? & ? & ? & _ & ? & _). done.
Qed.

Lemma push_symbol_sound truth d sym d' events :
  dec_inv d -> consistent truth d -> covered d -> truthful truth sym -> roomy d sym ->
  push_symbol d sym = Some (d', events) ->
  dec_inv d' /\ Forall (event_true truth) events /\ consistent truth d' /\ (no_loss events -> covered d').
Proof.
  intros Hi Hc Hv Ht Hr E. pose proof (truthful_wf _ _ Ht) as Hwf.
  destruct sym as [s p|r b e p]; cbn in E, Hwf.
  - destruct Ht as (Hs & -> & Hp). destruct Hwf as [_ Hb].
    destruct (decoder_push_source_run d s (truth s) Hi Hs Hb) as (d1 & ev1 & E1 & Ho). rewrite E1 in E. simplify_eq.
    split; [by eapply source_outcome_inv|]. by eapply push_source_sound.
  - destruct Hwf as (_ & Hb & He & Hp). cbn in Ht.
    destruct (push_repair_run d r b e p Hi Hb He Hp) as (d1 & ev1 & E1 & Ho). rewrite E1 in E. simplify_eq.
    split; [by eapply repair_outcome_inv|].
    destruct (push_repair_sound truth d r b e p d' events Hi Hc Ht Hr Ho) as (G1 & G2 & G3). auto.
Qed.

Lemma run_sound truth syms d d' events :
  dec_inv d -> consistent truth d -> covered d -> Forall (truthful truth) syms -> roomy_run d syms ->
  push_symbols d syms = Some (d', events) -> no_loss events -> Forall (event_true truth) events.
Proof.
  intros Hi Hc Hv Ht. revert d Hi Hc Hv events. induction Ht as [|sym syms Hs _ IH]; intros d Hi Hc Hv events; cbn.
  - intros _ [= _ <-] _. constructor.
  - intros [Hr Hrun]. destruct (push_symbol d sym) as [[d1 ev1]|] eqn:E1; [|done]. cbn.
    destruct (push_symbols d1 syms) as [[d2 ev2]|] eqn:E2; [|done]. cbn. intros [= <- <-].
    intros [Hn1 Hn2]%Forall_app. destruct (push_symbol_sound _ _ _ _ _ Hi Hc Hv Hs Hr E1) as (H1 & H2 & H3 & H4).
    apply Forall_app. split; [done|]. apply (IH d1); auto.
Qed.

Lemma new_consistent truth ms mb : consistent truth (new ms mb) /\ covered (new ms mb).
Proof. split; [split|constructor]; [|constructor]. cbn. intros s x p H. by rewrite lookup_empty in H. Qed.

(** ** Liveness: a single loss *)

Lemma row_coeff d r seqs cs rs c s :
  missing_seqs d !! c = Some s -> length cs = length (missing_seqs d) ->
  at0 (foldl (row_step d (missing_seqs d) r) (cs, rs) seqs).1 c =
  if decide (s ∈ seqs) then gf_coeff (repair_seq r) s else at0 cs c.
Proof.
  intros Hc. revert cs rs. induction seqs as [|x seqs IH]; intros cs rs Hl; cbn [foldl].
  { rewrite decide_False; [done|apply not_elem_of_nil]. }
  pose proof (lookup_lt_Some _ _ _ Hc) as Hlt.
  assert (Hs : sources d !! s = Some Missing) by (apply elem_of_missing_seqs; by apply list_elem_of_lookup_2 in Hc).
  assert (Hx : s <> x -> (s ∈ x :: seqs <-> s ∈ seqs)) by (intros; rewrite elem_of_cons; tauto).
  unfold row_step at 2. destruct (decide (s = x)) as [<-|Hne].
  - rewrite Hs. destruct (position_spec s (missing_seqs d)) as (pos & -> & Hpos); [by apply elem_of_missing_seqs|].
    assert (pos = c) as -> by (eapply (NoDup_lookup (missing_seqs d)); eauto using NoDup_missing_seqs).
    rewrite IH by (by rewrite length_insert). rewrite (decide_True (P := s ∈ s :: seqs)) by left.
    case_decide; [done|]. unfold at0. by rewrite list_lookup_insert_eq by lia.
  - rewrite (decide_ext (s ∈ x :: seqs) (s ∈ seqs)) by auto.
    destruct (sources d !! x) as [[p|p|]|] eqn:E; try by apply IH.
    destruct (position_spec x (missing_seqs d)) as (pos & -> & Hpos); [by apply elem_of_missing_seqs|].
    rewrite IH by (by rewrite length_insert). case_decide; [done|].
    unfold at0. rewrite list_lookup_insert_ne; [done|]. intros ->. congruence.
Qed.

(** What the elimination needs besides the state: [scratch] bytes under the cap. *)
Definition scratch_fits (d : FecDecoder) (unknowns : Z) : Prop :=
  retained d + (len (repairs d) * (unknowns + max_eff_len d) + 2 * unknowns + 2 * max_eff_len d) <= max_bytes d.

Lemma single_missing_pass truth d s r :
  dec_inv d -> consistent truth d -> covered d -> missing_seqs d = [s] ->
  r ∈ repairs d -> s ∈ serial_range (repair_base r) (repair_end r) -> scratch_fits d 1 ->
  one_elim_pass d = Some [(s, truth s)].
Proof.
  intros [Hok [C1 C2 C3]] Hc Hv Hm Hr Hs Hfit. pose proof (ok_symbols _ Hok) as Hms. pose proof (ok_bytes _ Hok) as Hmb.
  pose proof (repair_len_max d r Hr) as Hmax.
  pose proof (cs_repairs _ _ Hc) as Ht. rewrite Forall_forall in Ht. pose proof (Ht r Hr) as (_ & _ & _ & _ & _ & Hlen & _).
  assert (Hne : 1 <= len (repairs d)).
  { destruct (repairs d); [by apply elem_of_nil in Hr|]. rewrite len_cons. pose proof (len_nonneg l). lia. }
  pose proof (elim_rows_shape d Hok) as Hsh. rewrite Hm in Hsh. cbn [length] in Hsh.
  destruct (list_elem_of_lookup_1 _ _ Hr) as [i Hi]. pose proof (lookup_lt_Some _ _ _ Hi) as Hilt.
  assert (Hnz : get2 (elim_rows d).*1 i 0 <> 0).
  { assert (Hg : (elim_rows d).*1 !! i = Some (build_row d (missing_seqs d) (Z.to_nat (max_eff_len d)) r).1)
      by (unfold elim_rows; by rewrite !list_lookup_fmap, Hi).
    unfold get2. rewrite Hg. cbn [default from_option]. unfold id, build_row. rewrite (row_coeff d r _ _ _ 0 s); [|by rewrite Hm|apply length_replicate].
    rewrite decide_True by done. apply gf_coeff_nonzero. }
  destruct (gaussian_elim_single _ _ _ _ i Hsh) as [v Ev]; [lia|done|done|].
  unfold one_elim_pass. rewrite (proj2 (Z.eqb_neq _ _)) by lia.
  change (missing_seqs d) with (missing_seqs d) in *. cbv zeta.
  assert (Hpass : (len (missing_seqs d) =? 0) = false) by (by rewrite Hm).
  assert (Hn : (128 <? len (missing_seqs d)) = false) by (by rewrite Hm).
  rewrite Hpass, Hn, (proj2 (Z.eqb_neq (max_eff_len d) 0)) by lia.
  rewrite (proj2 (Z.ltb_ge 128 (len (repairs d)))) by lia. cbn [orb].
  rewrite (proj2 (Z.ltb_ge (max_bytes d) _)).
  2:{ fold (retained d). rewrite Hm. change (len [s]) with 1. unfold scratch_fits in Hfit.
      pose proof (retained_nonneg d). wrap_lia. }
  fold (elim_rows d). rewrite Hm. cbn [length]. rewrite Ev. cbn.
  assert (Ev' : gaussian_elim (elim_rows d).*1 (elim_rows d).*2 (length (missing_seqs d)) (Z.to_nat (max_eff_len d)) =
    Some [(0%nat, v)]) by (by rewrite Hm).
  destruct (solution_sound truth d Hok Hc Hv _ 0 v Ev') as [Hx _]; [lia|left|].
  unfold collect_solution. cbn. rewrite Hm in Hx. cbn in Hx. by rewrite Hx.
Qed.

(** ** Reference repairs: the combination written out, for the witnesses *)

Definition reference_repair (truth : Z -> list Z) (r b e : Z) (n : nat) : Symbol :=
  Repair r b e ((fun j => combination truth r (serial_range b e) j) <$> seq 0 n).

Lemma reference_repair_truthful truth r b e n :
  in_u16 r -> in_u32 b -> in_u32 e -> wrap32 (e - b) <= 128 -> (2 <= n)%nat ->
  Forall (fun s => payload_ok (truth s) /\ len (eff (truth s)) <= Z.of_nat n) (serial_range b e) ->
  truthful truth (reference_repair truth r b e n).
Proof.
  intros Hr Hb He Hw Hn Hall. rewrite Forall_forall in Hall.
  assert (Hlen : len ((fun j => combination truth r (serial_range b e) j) <$> seq 0 n) = Z.of_nat n)
    by (unfold len; by rewrite length_fmap, length_seq).
  split; [done|]. split; [done|]. split; [done|]. split; [done|]. split; [|split; [|split]].
  - apply Forall_fmap, Forall_forall. intros j _. apply xorsum_byte, Forall_fmap, Forall_forall. intros s Hs.
    destruct (Hall s Hs) as [[Hp _] _]. apply gf_mul_byte; [apply gf_coeff_byte|]. apply is_byte_at0. by apply bytes_eff.
  - lia.
  - intros s Hs. rewrite Hlen. by apply Hall.
  - intros j. unfold at0. rewrite list_lookup_fmap. destruct (decide (j < n)%nat) as [Hj|Hj].
    + by rewrite lookup_seq_lt.
    + rewrite lookup_seq_ge by lia. cbn. unfold combination. rewrite xorsum_zero; [done|].
      intros s Hs. destruct (Hall s Hs) as [_ Hl]. rewrite (at0_ge _ j); [apply gf_mul_0_r|]. unfold len in Hl. lia.
Qed.

Definition demo_source (s : Z) : Symbol := Source s (demo_truth s).
Definition demo_rep (r b e : Z) : Symbol := reference_repair demo_truth r b e 5.

Lemma demo_rep_truthful r b e :
  in_u16 r -> in_u32 b -> in_u32 e -> wrap32 (e - b) <= 128 -> truthful demo_truth (demo_rep r b e).
Proof.
  intros. apply reference_repair_truthful; auto. apply Forall_true. intros s. split; [apply demo_truth_ok|done].
Qed.

Lemma demo_source_truthful s : in_u32 s -> truthful demo_truth (demo_source s).
Proof. intros. split; [done|]. split; [done|apply demo_truth_ok]. Qed.

Ltac demo_truthful :=
  repeat (apply Forall_cons; split; [first [by apply demo_source_truthful|by apply demo_rep_truthful]|]);
  apply Forall_nil_2.

(** ** Properties *)

(** C2: end to end, from FecEncoder to FecDecoder. Whatever subset of an
    encoder run's symbols arrives, in whatever order and however often, as long
    as the decoder keeps its entries (room for each source, no loss span given
    up), every payload it emits, received or recovered, is the payload the
    sender logged under that sequence number. *)
Theorem fec_end_to_end truth next e sent ms mb syms d events :
  enc_run truth next e sent -> (forall sym, sym ∈ syms -> sym ∈ sent) ->
  roomy_run (new ms mb) syms -> push_symbols (new ms mb) syms = Some (d, events) -> no_loss events ->
  forall s p via_fec, Recovered s p via_fec ∈ events -> p = truth s.
Proof.
  intros Hrun Hsub Hroom E Hn s p v Hin.
  pose proof (new_consistent truth ms mb) as [Hc Hv].
  assert (Ht : Forall (truthful truth) syms).
  { destruct (enc_run_ok truth next e sent Hrun) as (_ & _ & _ & _ & Ht). apply Forall_forall. intros sym Hs.
    rewrite Forall_forall in Ht. by apply Ht, Hsub. }
  pose proof (run_sound truth syms _ _ _ (new_inv ms mb) Hc Hv Ht Hroom E Hn) as H.
  rewrite Forall_forall in H. exact (H _ Hin).
Qed.

(** C3: a truthful repair with a window never makes the decoder emit a wrong
    payload, whatever was lost, given up or evicted before: rolling retires the
    equations whose sources are gone and registration covers the new window. *)
Theorem push_repair_always_sound truth d r b e payload :
  dec_inv d -> consistent truth d -> repair_truthful truth r b e payload -> b <> e ->
  exists d' events, push_repair d r b e payload = Some (d', events) /\ consistent truth d' /\ dec_inv d' /\
    forall s p via_fec, Recovered s p via_fec ∈ events -> p = truth s.
Proof.
  intros Hi Hc Ht Hne. pose proof (truthful_wf truth (Repair r b e payload) Ht) as (_ & Hb & He & Hp).
  destruct (push_repair_run d r b e payload Hi Hb He Hp) as (d' & ev & E & Ho).
  destruct (push_repair_sound truth d r b e payload d' ev Hi Hc Ht Hne Ho) as (G1 & G2 & _).
  exists d', ev. split; [done|]. split; [done|]. split; [by eapply repair_outcome_inv|].
  intros s p v Hin. rewrite Forall_forall in G1. exact (G1 _ Hin).
Qed.


(** The first situation: the gap [1, 3) is given up, the equation that mentions
    it is kept, and the next elimination treats 1 and 2 as zero. *)
Definition gap_syms : list Symbol :=
  [demo_source 0; demo_source 3; demo_source 4; demo_rep 0 0 6; demo_source 6].

(** After a [LossSpan] the decoder can emit a wrong payload as recovered:
    every symbol below is what the sender sent, and yet sequence number 5 comes
    out with bytes the sender never sent. *)
Theorem loss_span_corrupts_recovery :
  Forall (truthful demo_truth) gap_syms /\
  exists d events p, push_symbols (new 128 100000) gap_syms = Some (d, events) /\
    LossSpan 1 3 ∈ events /\ Recovered 5 p true ∈ events /\ p <> demo_truth 5.
Proof.
  split; [unfold gap_syms; demo_truthful|].
  destruct (push_symbols (new 128 100000) gap_syms) as [[d ev]|] eqn:E; [|by vm_compute in E].
  exists d, ev. assert (Hev : snd <$> push_symbols (new 128 100000) gap_syms = Some ev) by (by rewrite E).
  vm_compute in Hev. injection Hev as <-. eexists. split; [done|].
  split; [by do 3 right; left|]. split; [by do 5 right; left|]. by vm_compute.
Qed.

(** The second situation: room for sequence number 5 is made by giving up
    source 0, which the retained equation over [0, 4) still mentions. *)
Definition evict_syms : list Symbol :=
  [demo_source 0; demo_source 1; demo_rep 0 0 4; demo_source 5; demo_source 3].

(** making room for a source can give up, without any event, a known
    source a retained equation mentions, and the next recovery is wrong. *)
Theorem eviction_corrupts_recovery :
  Forall (truthful demo_truth) evict_syms /\
  exists d events p, push_symbols (new 4 100000) evict_syms = Some (d, events) /\
    no_loss events /\ Recovered 2 p true ∈ events /\ p <> demo_truth 2.
Proof.
  split; [unfold evict_syms; demo_truthful|].
  destruct (push_symbols (new 4 100000) evict_syms) as [[d ev]|] eqn:E; [|by vm_compute in E].
  exists d, ev. assert (Hev : snd <$> push_symbols (new 4 100000) evict_syms = Some ev) by (by rewrite E).
  vm_compute in Hev. injection Hev as <-. eexists. split; [done|].
  split; [by_decide|]. split; [by do 4 right; left|]. by vm_compute.
Qed.

(** ** Witnesses *)

(** The demo sender's two sources and one repair; the first source is lost. *)
Definition demo_sent : list Symbol :=
  ([] ++ (demo_push (FecEncoder.new demo_config) 4294967295).2) ++ (demo_push demo_e1 0).2.

Lemma demo_sent_run : enc_run demo_truth 1 demo_e2 demo_sent.
Proof.
  pose proof (run_new demo_truth demo_config 4294967295 demo_config_ok ltac:(unfold in_u; lia)) as H0.
  exact (demo_push_run _ _ _ (demo_push_run _ _ _ H0)).
Qed.

Lemma fec_end_to_end_witness :
  exists d, push_symbols (new 16 4096) (drop 1 demo_sent) =
    Some (d, [Recovered 0 (demo_truth 0) false; Recovered 4294967295 (demo_truth 4294967295) true]) /\
  forall s p v, Recovered s p v ∈ [Recovered 0 (demo_truth 0) false;
    Recovered 4294967295 (demo_truth 4294967295) true] -> p = demo_truth s.
Proof.
  eexists. split; [vm_compute; reflexivity|].
  eapply (fec_end_to_end demo_truth 1 demo_e2 demo_sent 16 4096 (drop 1 demo_sent)).
  - exact demo_sent_run.
  - intros sym Hs. by apply subseteq_drop in Hs.
  - by_decide.
  - vm_compute. reflexivity.
  - by_decide.
Defined.

(** The decoder of [loss_span_corrupts_recovery], just before its wrong push. *)
Definition gap_state : FecDecoder := default (new 1 1) (fst <$> push_symbols (new 128 100000) (take 4 gap_syms)).

Lemma gap_state_inv : dec_inv gap_state.
Proof.
  destruct (push_symbols_inv (new 128 100000) (take 4 gap_syms) (new_inv 128 100000)) as (d & ev & E & H); [by_decide|].
  unfold gap_state. by rewrite E.
Qed.

(** The state a sender's log explains, entry by entry. *)
Definition consistent_check (truth : Z -> list Z) (d : FecDecoder) : bool :=
  forallb (fun '(s, x) => match state_payload x with Some p => bool_decide (p = truth s /\ payload_ok p) | None => true end)
    (map_to_list (sources d)).

Lemma consistent_by_check truth d :
  consistent_check truth d = true -> Forall (repair_agrees truth) (repairs d) -> consistent truth d.
Proof.
  intros H Hr. split; [|done]. intros s x p Hx Hp. unfold consistent_check in H. rewrite forallb_forall in H.
  assert (Hin : In (s, x) (map_to_list (sources d))) by (by apply list_elem_of_In, elem_of_map_to_list).
  specialize (H _ Hin). cbn in H. rewrite Hp in H. by apply bool_decide_eq_true in H.
Qed.

Lemma gap_state_consistent : consistent demo_truth gap_state.
Proof.
  apply consistent_by_check; [by vm_compute|].
  replace (repairs gap_state) with
    [mkRepair 0 0 6 ((fun j => combination demo_truth 0 (serial_range 0 6) j) <$> seq 0 5)] by (by vm_compute).
  constructor; [|constructor]. by apply (demo_rep_truthful 0 0 6).
Qed.

Lemma push_repair_always_sound_witness :
  exists d' events, push_repair gap_state 1 4 7 ((fun j => combination demo_truth 1 (serial_range 4 7) j) <$> seq 0 5) =
    Some (d', events) /\ dec_inv d' /\ forall s p v, Recovered s p v ∈ events -> p = demo_truth s.
Proof.
  destruct (push_repair_always_sound demo_truth gap_state 1 4 7
    ((fun j => combination demo_truth 1 (serial_range 4 7) j) <$> seq 0 5)) as (d' & ev & E & _ & Hi & H).
  - exact gap_state_inv.
  - exact gap_state_consistent.
  - by apply (demo_rep_truthful 1 4 7).
  - done.
  - exists d', ev. split; [exact E|]. split; [exact Hi|exact H].
Defined.

(** A decoder one step before it repairs its only loss: source 10 is stored,
    the recovery has not run yet. *)
Definition lossy_base : FecDecoder :=
  default (new 1 1) (fst <$> push_symbols (new 16 4096) [demo_rep 3 10 12]).
Definition lossy_state : FecDecoder := store_source lossy_base 10 (demo_truth 10).

Lemma lossy_base_inv : dec_inv lossy_base.
Proof.
  destruct (push_symbols_inv (new 16 4096) [demo_rep 3 10 12] (new_inv 16 4096)) as (d & ev & E & H); [by_decide|].
  unfold lossy_base. by rewrite E.
Qed.

Lemma lossy_state_inv : dec_inv lossy_state.
Proof.
  apply store_source_inv; try by_decide.
  - apply lossy_base_inv.
  - intros (x & Hx & Hne). apply Hne. vm_compute in Hx. by injection Hx.
Qed.

