(* ===== verification/FecWire.v ===== *)
(** * The FEC wire format (transport-core/src/fec_wire.rs)

    The v1 and v2 chunk headers, the v1 and v2 symbol messages and the control
    messages, with the CRC-32 that protects the v2 payloads: encoders, parsers,
    their round trips in both directions, and what the CRC detects. *)
From S2P Require Import Prelude Serial Gf256 FecEncoder.

(** ** Constants and data *)

Definition FEC_MSG_MAX : Z := 1200.
Definition V2_SOURCE_PAYLOAD_MAX : Z := 1185.
Definition V2_REPAIR_PAYLOAD_MAX : Z := 1200.
Definition V2_REPAIR_MSG_MAX : Z := 1221.
Definition ENCODED_FRAME_MAX : Z := 4 * 1024 * 1024.
Definition V2_CHUNK_COUNT_MAX : Z := 4096.
Definition CHUNK_HEADER_LEN : Z := 13.
Definition CHUNK_FRAGMENT_MAX : Z := 1182.
Definition CHUNK_V2_HEADER_LEN : Z := 21.
Definition CHUNK_V2_FRAGMENT_MAX : Z := 1164.
Definition V2_SOURCE_HEADER_LEN : Z := 15.
Definition V2_REPAIR_HEADER_LEN : Z := 21.

(** [Epoch] is a non-zero u32; [Epoch::new] checks it. *)
Definition Epoch : Type := Z.
Definition Epoch_new (value : Z) : option Epoch := if value =? 0 then None else Some value.

Inductive WireVersion : Type := V1 | V2.

Inductive FecWireError : Type :=
| Empty
| UnknownKind (kind : Z)
| Truncated
| Oversize
| InvalidEpoch
| InvalidLength
| CrcMismatch
| InvalidChunkCount
| InvalidChunkIndex
| InvalidFrameType
| InvalidEncodedFrameLength.

Inductive V2Symbol : Type :=
| V2Source (epoch : Epoch) (seq : Z) (payload : list Z)
| V2Repair (epoch : Epoch) (repair_seq window_base window_end : Z) (payload : list Z).

Inductive ParsedSymbolMsg : Type :=
| SymbolV1 (s : Symbol)
| SymbolV2 (s : V2Symbol).

Definition symbol_version (m : ParsedSymbolMsg) : WireVersion :=
  match m with SymbolV1 _ => V1 | SymbolV2 _ => V2 end.

Record ChunkV2Header := mkChunkV2 {
  frame_id : Z;
  chunk_index : Z;
  chunk_count : Z;
  frame_type_key : bool;
  timestamp_us : Z;
  encoded_frame_len : Z;
  encoded_frame_crc32 : Z
}.

Record ChunkHeader := mkChunkV1 {
  v1_frame_id : Z;
  v1_chunk_index : Z;
  v1_chunk_count : Z;
  v1_frame_type_key : bool;
  v1_timestamp_us : Z
}.

Inductive AckMsg : Type :=
| Subscribe
| NeedsIdr
| Ack (seq : Z).

Inductive V2ControlMsg : Type :=
| V2Subscribe (epoch : Epoch)
| V2Ack (epoch : Epoch) (highest_seq : Z)
| V2NeedsIdr (epoch : Epoch) (reason : Z).

Inductive ParsedControlMsg : Type :=
| ControlV1 (m : AckMsg)
| ControlV2 (m : V2ControlMsg).

Definition control_version (m : ParsedControlMsg) : WireVersion :=
  match m with ControlV1 _ => V1 | ControlV2 _ => V2 end.

(** ** CRC-32 *)

(** [crc = (crc >> 1) ^ (0xedb8_8320 & 0u32.wrapping_sub(crc & 1))] *)
Definition crc_bit (crc : Z) : Z :=
  Z.shiftr crc 1 ⊕ Z.land 3988292384 (wrap32 (0 - Z.land crc 1)).

(** [for _ in 0..8 { crc = .. }] *)
Definition crc_shift (crc : Z) : Z := Nat.iter 8 crc_bit crc.

Definition crc_byte (crc byte : Z) : Z := crc_shift (crc ⊕ byte).

Definition ieee_crc32 (bytes : list Z) : Z := foldl crc_byte 4294967295 bytes ⊕ 4294967295.

(** ** v1 chunks *)

Definition encode_chunk (frame_id chunk_index chunk_count : Z) (key : bool) (timestamp_us : Z)
    (fragment : list Z) : list Z :=
  u32_le frame_id ++ u16_le chunk_index ++ u16_le chunk_count ++ [bool_byte key] ++
  u32_le timestamp_us ++ fragment.

(** [div_ceil] *)
Definition div_ceil (a b : Z) : Z := (a + b - 1) / b.

Definition chunk_frame (frame_id : Z) (key : bool) (timestamp_us : Z) (data : list Z) : list (list Z) :=
  match data with
  | [] => [encode_chunk frame_id 0 1 key timestamp_us []]
  | _ =>
      let chunk_count := div_ceil (len data) CHUNK_FRAGMENT_MAX in
      imap (fun i fragment =>
              encode_chunk frame_id (wrap16 (Z.of_nat i)) (wrap16 chunk_count) key timestamp_us fragment)
        (chunks (Z.to_nat CHUNK_FRAGMENT_MAX) data)
  end.

Definition parse_chunk_header (buf : list Z) : option (ChunkHeader * list Z) :=
  if len buf <? CHUNK_HEADER_LEN then None
  else Some (mkChunkV1 (le_field buf 0 4) (le_field buf 4 6) (le_field buf 6 8)
               (negb (at0 buf 8 =? 0)) (le_field buf 9 13), drop 13 buf).

(** ** v2 chunks *)

Definition validate_chunk_v2 (h : ChunkV2Header) (fragment : list Z) : result unit FecWireError :=
  if ((chunk_count h =? 0) || (V2_CHUNK_COUNT_MAX <? chunk_count h))%bool then Err InvalidChunkCount
  else if chunk_count h <=? chunk_index h then Err InvalidChunkIndex
  else if ENCODED_FRAME_MAX <? encoded_frame_len h then Err InvalidEncodedFrameLength
  else if CHUNK_V2_FRAGMENT_MAX <? len fragment then Err Oversize
  else Ok tt.

Definition encode_chunk_v2 (h : ChunkV2Header) (fragment : list Z) : result (list Z) FecWireError :=
  let? _ := validate_chunk_v2 h fragment in
  Ok (u32_le (frame_id h) ++ u16_le (chunk_index h) ++ u16_le (chunk_count h) ++
      [bool_byte (frame_type_key h)] ++ u32_le (timestamp_us h) ++ u32_le (encoded_frame_len h) ++
      u32_le (encoded_frame_crc32 h) ++ fragment).

Definition parse_chunk_v2 (buf : list Z) : result (ChunkV2Header * list Z) FecWireError :=
  if len buf <? CHUNK_V2_HEADER_LEN then Err Truncated
  else
    let frame_type := at0 buf 8 in
    let h := mkChunkV2 (le_field buf 0 4) (le_field buf 4 6) (le_field buf 6 8) (frame_type =? 1)
               (le_field buf 9 13) (le_field buf 13 17) (le_field buf 17 21) in
    if 1 <? frame_type then Err InvalidFrameType
    else
      let? _ := validate_chunk_v2 h (drop 21 buf) in
      Ok (h, drop 21 buf).

(** The fragments of [chunk_frame_v2]; an empty frame has one empty fragment. *)
Definition v2_fragments (data : list Z) : list (list Z) :=
  match data with [] => [[]] | _ => chunks (Z.to_nat CHUNK_V2_FRAGMENT_MAX) data end.

(** [None] is the panic of the [expect], which [chunk_frame_v2_ok] excludes. *)
Definition chunk_frame_v2 (frame_id : Z) (key : bool) (timestamp_us : Z) (data : list Z) :
  option (result (list (list Z)) FecWireError) :=
  if ENCODED_FRAME_MAX <? len data then Some (Err InvalidEncodedFrameLength)
  else
    let chunk_count := div_ceil (Z.max (len data) 1) CHUNK_V2_FRAGMENT_MAX in
    if V2_CHUNK_COUNT_MAX <? chunk_count then Some (Err InvalidChunkCount)
    else
      let crc := ieee_crc32 data in
      msgs ← mapM id (imap (fun index fragment =>
        ok (encode_chunk_v2 (mkChunkV2 frame_id (wrap16 (Z.of_nat index)) (wrap16 chunk_count) key
              timestamp_us (wrap32 (len data)) crc) fragment)) (v2_fragments data));
      Some (Ok msgs).

Definition validate_encoded_frame_v2 (h : ChunkV2Header) (encoded_frame : list Z) : result unit FecWireError :=
  if negb (len encoded_frame =? encoded_frame_len h) then Err InvalidLength
  else if negb (ieee_crc32 encoded_frame =? encoded_frame_crc32 h) then Err CrcMismatch
  else Ok tt.

(** ** Symbol messages *)

Definition encode_symbol_msg (sym : Symbol) : list Z :=
  match sym with
  | Source seq payload => [0] ++ u32_le seq ++ payload
  | Repair repair_seq window_base window_end payload =>
      [1] ++ u16_le repair_seq ++ u32_le window_base ++ u32_le window_end ++ payload
  end.

Definition encode_symbol_msg_v2 (sym : V2Symbol) : result (list Z) FecWireError :=
  match sym with
  | V2Source epoch seq payload =>
      if V2_SOURCE_PAYLOAD_MAX <? len payload then Err Oversize
      else Ok ([2] ++ u32_le epoch ++ u32_le seq ++
               u16_le (wrap16 (len payload)) ++ u32_le (ieee_crc32 payload) ++ payload)
  | V2Repair epoch repair_seq window_base window_end payload =>
      if V2_REPAIR_PAYLOAD_MAX <? len payload then Err Oversize
      else Ok ([3] ++ u32_le epoch ++ u16_le repair_seq ++ u32_le window_base ++ u32_le window_end ++
               u16_le (wrap16 (len payload)) ++ u32_le (ieee_crc32 payload) ++ payload)
  end.

Definition parse_v2_source (buf : list Z) : result V2Symbol FecWireError :=
  if len buf <? V2_SOURCE_HEADER_LEN then Err Truncated
  else if FEC_MSG_MAX <? len buf then Err Oversize
  else
    let? epoch := ok_or (Epoch_new (le_field buf 1 5)) InvalidEpoch in
    let seq := le_field buf 5 9 in
    let ln := le_field buf 9 11 in
    if ((V2_SOURCE_PAYLOAD_MAX <? ln) || negb (len buf =? V2_SOURCE_HEADER_LEN + ln))%bool
    then Err InvalidLength
    else
      let payload := drop 15 buf in
      if negb (ieee_crc32 payload =? le_field buf 11 15) then Err CrcMismatch
      else Ok (V2Source epoch seq payload).

Definition parse_v2_repair (buf : list Z) : result V2Symbol FecWireError :=
  if len buf <? V2_REPAIR_HEADER_LEN then Err Truncated
  else if V2_REPAIR_MSG_MAX <? len buf then Err Oversize
  else
    let? epoch := ok_or (Epoch_new (le_field buf 1 5)) InvalidEpoch in
    let repair_seq := le_field buf 5 7 in
    let window_base := le_field buf 7 11 in
    let window_end := le_field buf 11 15 in
    let ln := le_field buf 15 17 in
    if ((V2_REPAIR_PAYLOAD_MAX <? ln) || negb (len buf =? V2_REPAIR_HEADER_LEN + ln))%bool
    then Err InvalidLength
    else
      let payload := drop 21 buf in
      if negb (ieee_crc32 payload =? le_field buf 17 21) then Err CrcMismatch
      else Ok (V2Repair epoch repair_seq window_base window_end payload).

(** [Result::map] *)
Definition result_map {A B E} (f : A -> B) (r : result A E) : result B E :=
  match r with Ok a => Ok (f a) | Err e => Err e end.

Definition parse_symbol_msg_versioned (buf : list Z) : result ParsedSymbolMsg FecWireError :=
  let? kind := ok_or (head buf) Empty in
  if kind =? 0 then
    if len buf <? 5 then Err Truncated
    else Ok (SymbolV1 (Source (le_field buf 1 5) (drop 5 buf)))
  else if kind =? 1 then
    if len buf <? 11 then Err Truncated
    else Ok (SymbolV1 (Repair (le_field buf 1 3) (le_field buf 3 7) (le_field buf 7 11) (drop 11 buf)))
  else if kind =? 2 then result_map SymbolV2 (parse_v2_source buf)
  else if kind =? 3 then result_map SymbolV2 (parse_v2_repair buf)
  else Err (UnknownKind kind).

Definition parse_symbol_msg (buf : list Z) : option Symbol :=
  match ok (parse_symbol_msg_versioned buf) with
  | Some (SymbolV1 s) => Some s
  | _ => None
  end.

(** ** Control messages *)

Definition encode_ack_msg (m : AckMsg) : list Z :=
  match m with
  | Subscribe => [1]
  | NeedsIdr => [0]
  | Ack seq => u32_le seq
  end.

Definition encode_control_msg_v2 (m : V2ControlMsg) : list Z :=
  match m with
  | V2Subscribe epoch => [130] ++ u32_le epoch
  | V2Ack epoch highest_seq => [129] ++ u32_le epoch ++ u32_le highest_seq
  | V2NeedsIdr epoch reason => [128] ++ u32_le epoch ++ [reason]
  end.

(** The three reserved kinds come before the v1 shapes, as in the code's [match]. *)
Definition parse_control_msg (buf : list Z) : result ParsedControlMsg FecWireError :=
  match buf with
  | [] => Err Empty
  | kind :: rest =>
      if kind =? 128 then
        if len rest <? 5 then Err Truncated
        else if 5 <? len rest then Err InvalidLength
        else
          let? epoch := ok_or (Epoch_new (le_field rest 0 4)) InvalidEpoch in
          Ok (ControlV2 (V2NeedsIdr epoch (at0 rest 4)))
      else if kind =? 129 then
        if len rest <? 8 then Err Truncated
        else if 8 <? len rest then Err InvalidLength
        else
          let? epoch := ok_or (Epoch_new (le_field rest 0 4)) InvalidEpoch in
          Ok (ControlV2 (V2Ack epoch (of_le (drop 4 rest))))
      else if kind =? 130 then
        if len rest <? 4 then Err Truncated
        else if 4 <? len rest then Err InvalidLength
        else
          let? epoch := ok_or (Epoch_new (of_le rest)) InvalidEpoch in
          Ok (ControlV2 (V2Subscribe epoch))
      else
        match buf with
        | [x] => if x =? 0 then Ok (ControlV1 NeedsIdr)
                 else if x =? 1 then Ok (ControlV1 Subscribe)
                 else Err (UnknownKind kind)
        | [a; b; c; d] => Ok (ControlV1 (Ack (of_le [a; b; c; d])))
        | _ => Err (UnknownKind kind)
        end
  end.

Definition parse_ack_msg (buf : list Z) : option AckMsg :=
  match ok (parse_control_msg buf) with
  | Some (ControlV1 m) => Some m
  | _ => None
  end.

#[local] Arguments le_bytes : simpl never.

(** ** The CRC: linear, injective, and sensitive to short bursts *)

Lemma crc_bit_alt c : crc_bit c = Z.shiftr c 1 ⊕ (if Z.odd c then 3988292384 else 0).
Proof.
  unfold crc_bit. f_equal. change 1 with (Z.ones 1) at 1. rewrite Z.land_ones, Z.pow_1_r by lia.
  rewrite Zmod_odd. destruct (Z.odd c); reflexivity.
Qed.

Lemma crc_bit_lxor a b : crc_bit (a ⊕ b) = crc_bit a ⊕ crc_bit b.
Proof.
  rewrite !crc_bit_alt, Z.shiftr_lxor. rewrite <- !Z.bit0_odd, Z.lxor_spec, !Z.bit0_odd.
  destruct (Z.odd a), (Z.odd b); cbn [xorb]; xor_ac.
Qed.

Lemma crc_byte_shift c b : crc_byte c b = crc_shift (c ⊕ b).
Proof. reflexivity. Qed.

Lemma crc_shift_lxor a b : crc_shift (a ⊕ b) = crc_shift a ⊕ crc_shift b.
Proof. unfold crc_shift, Nat.iter. cbn [nat_rect]. by rewrite !crc_bit_lxor. Qed.

Lemma crc_bit_double y : crc_bit (2 * y) = y.
Proof.
  rewrite crc_bit_alt, Z.odd_mul. cbn [Z.odd andb]. rewrite Z.lxor_0_r, Z.shiftr_div_pow2 by lia.
  rewrite Z.mul_comm. by apply Z.div_mul.
Qed.

Lemma crc_shift_high y : crc_shift (256 * y) = y.
Proof.
  unfold crc_shift, Nat.iter. cbn [nat_rect].
  replace (256 * y) with (2 * (2 * (2 * (2 * (2 * (2 * (2 * (2 * y)))))))) by lia.
  by rewrite !crc_bit_double.
Qed.

Lemma lxor_bound n a b : 0 <= n -> 0 <= a < 2 ^ n -> 0 <= b < 2 ^ n -> 0 <= a ⊕ b < 2 ^ n.
Proof.
  intros Hn Ha Hb. assert (H : forall x, 0 <= x < 2 ^ n <-> x = Z.land x (Z.ones n)).
  { intros x. rewrite Z.land_ones by done. split; intros Hx; [by rewrite Z.mod_small|].
    rewrite Hx. apply Z.mod_pos_bound. lia. }
  apply H. apply H in Ha, Hb. apply Z.bits_inj'. intros k Hk.
  assert (Ea : Z.testbit a k = (Z.testbit a k && Z.testbit (Z.ones n) k)%bool) by (rewrite Ha at 1; apply Z.land_spec).
  assert (Eb : Z.testbit b k = (Z.testbit b k && Z.testbit (Z.ones n) k)%bool) by (rewrite Hb at 1; apply Z.land_spec).
  rewrite Z.land_spec, !Z.lxor_spec. rewrite Ea, Eb. btauto.
Qed.

Lemma split_low x : x = 256 * (x / 256) ⊕ (x mod 256).
Proof.
  rewrite <- Z.add_nocarry_lxor; [pose proof (Z_div_mod_eq_full x 256); lia|].
  apply Z.bits_inj'. intros k Hk. rewrite Z.land_spec, Z.bits_0.
  destruct (decide (k < 8)).
  - replace (256 * (x / 256)) with ((x / 256) * 2 ^ 8) by lia. by rewrite Z.mul_pow2_bits_low.
  - change 256 with (2 ^ 8). rewrite <- Z.land_ones, Z.land_spec, Z.ones_spec_high by lia.
    by rewrite !andb_false_r.
Qed.

#[local] Opaque crc_shift.

Lemma crc_shift_split x : crc_shift x = (x / 256) ⊕ crc_shift (x mod 256).
Proof. rewrite (split_low x) at 1. by rewrite crc_shift_lxor, crc_shift_high. Qed.

(** The table entry of a non-zero byte has a non-zero top byte. *)
Lemma crc_table_top b : is_byte b -> b <> 0 -> 16777216 <= crc_shift b < 4294967296.
Proof.
  intros Hb Hne.
  assert (H : forall x, is_byte x -> ((x =? 0) || ((16777216 <=? crc_shift x) && (crc_shift x <? 4294967296)))%bool = true)
    by (apply byte_forall; by vm_compute).
  specialize (H b Hb). apply orb_true_iff in H as [H|H]; reflect_bools; lia.
Qed.

Lemma crc_shift_bound x : 0 <= x < 2 ^ 32 -> 0 <= crc_shift x < 2 ^ 32.
Proof.
  intros Hx. rewrite crc_shift_split. apply lxor_bound; [lia| |].
  - split; [apply Z.div_pos; lia|]. apply Z.div_lt_upper_bound; lia.
  - destruct (decide (x mod 256 = 0)) as [->|Hne]; [by vm_compute|].
    pose proof (crc_table_top (x mod 256) (is_byte_mod x) Hne). lia.
Qed.

(** A shifted register below 2^24 comes from a register with a zero low byte. *)
Lemma crc_shift_low x : 0 <= x < 2 ^ 32 -> crc_shift x < 2 ^ 24 -> x = 256 * crc_shift x.
Proof.
  intros Hx Hlow. destruct (decide (x mod 256 = 0)) as [E|Hne].
  - rewrite crc_shift_split, E. replace (crc_shift 0) with 0 by (by vm_compute). rewrite Z.lxor_0_r.
    pose proof (Z_div_mod_eq_full x 256). lia.
  - exfalso. pose proof (crc_table_top (x mod 256) (is_byte_mod x) Hne) as Ht.
    pose proof (crc_shift_bound x Hx) as Hb. rewrite crc_shift_split in Hlow, Hb.
    assert (Hq : 0 <= x / 256 < 2 ^ 24) by (split; [apply Z.div_pos; lia|apply Z.div_lt_upper_bound; lia]).
    pose proof (lxor_bound 24 (x / 256) (x / 256 ⊕ crc_shift (x mod 256)) ltac:(lia) Hq ltac:(lia)) as Hc.
    rewrite <- Z.lxor_assoc, Z.lxor_nilpotent, Z.lxor_0_l in Hc. lia.
Qed.

Lemma byte_below n b : is_byte b -> 256 <= n -> 0 <= b < n.
Proof. unfold is_byte. lia. Qed.

(** The register after a list of bytes, as a difference of two registers. *)
Definition crc_run (c : Z) (l : list Z) : Z := foldl crc_byte c l.

Lemma crc_run_diff l l' c c' :
  length l = length l' -> crc_run c l ⊕ crc_run c' l' = crc_run (c ⊕ c') (zip_with Z.lxor l l').
Proof.
  revert l' c c'. induction l as [|b l IH]; intros [|b' l'] c c' Hl; simpl in Hl; try lia; [done|].
  cbn [zip_with crc_run foldl]. fold (crc_run (crc_byte c b) l) (crc_run (crc_byte c' b') l').
  rewrite IH by lia. unfold crc_run. f_equal.
  rewrite !crc_byte_shift, <- crc_shift_lxor. f_equal. xor_ac.
Qed.

Lemma crc_byte_bound c b : 0 <= c < 2 ^ 32 -> is_byte b -> 0 <= crc_byte c b < 2 ^ 32.
Proof. intros Hc Hb. apply crc_shift_bound, lxor_bound; [lia|done|]. unfold is_byte in Hb. lia. Qed.

Lemma crc_run_bound c l : 0 <= c < 2 ^ 32 -> bytes l -> 0 <= crc_run c l < 2 ^ 32.
Proof.
  intros Hc Hl. revert c Hc. induction Hl as [|b l Hb Hl IH]; intros c Hc; [done|].
  cbn [crc_run foldl]. apply IH. by apply crc_byte_bound.
Qed.

(** Zero bytes keep a non-zero difference. *)
Lemma crc_byte_zero c b : 0 <= c < 2 ^ 32 -> is_byte b -> crc_byte c b = 0 -> c = b.
Proof.
  intros Hc Hb H. assert (H0 : 0 <= c ⊕ b < 2 ^ 32) by (apply lxor_bound; [lia|done|apply byte_below; [done|by vm_compute]]).
  pose proof (crc_shift_low _ H0) as E. rewrite crc_byte_shift in H. rewrite H in E.
  apply lxor_eq_0. lia.
Qed.

Lemma crc_run_zeros l : Forall (fun b => b = 0) l -> crc_run 0 l = 0.
Proof. induction 1 as [|b l -> _ IH]; [done|]. cbn [crc_run foldl]. exact IH. Qed.

(** A burst of at most four bytes that leaves a small register is no burst. *)
Lemma crc_run_small l (j : nat) :
  bytes l -> Z.of_nat j + len l <= 4 -> crc_run 0 l < 2 ^ (8 * Z.of_nat j) -> Forall (fun b => b = 0) l.
Proof.
  revert j. induction l as [|b l IH] using rev_ind; intros j Hl Hj Hlt; [constructor|].
  apply Forall_app in Hl as [Hl [Hb _]%Forall_cons]. rewrite len_snoc in Hj.
  pose proof (len_nonneg l) as Hn. unfold crc_run in Hlt. rewrite foldl_app in Hlt. cbn [foldl] in Hlt.
  change (crc_byte (crc_run 0 l) b < 2 ^ (8 * Z.of_nat j)) in Hlt. pose proof (crc_run_bound 0 l ltac:(lia) Hl) as HD.
  assert (Hy : 0 <= crc_run 0 l ⊕ b < 2 ^ 32) by (apply lxor_bound; [lia|done|apply byte_below; [done|by vm_compute]]).
  rewrite crc_byte_shift in Hlt.
  pose proof (crc_shift_bound _ Hy) as Hs.
  assert (2 ^ (8 * Z.of_nat j) <= 2 ^ 24) by (apply Z.pow_le_mono_r; lia).
  pose proof (crc_shift_low _ Hy ltac:(lia)) as E.
  assert (Hpow : 2 ^ (8 * Z.of_nat (S j)) = 256 * 2 ^ (8 * Z.of_nat j)).
  { replace (8 * Z.of_nat (S j)) with (8 + 8 * Z.of_nat j) by lia. by rewrite Z.pow_add_r by lia. }
  assert (Hbig : 256 <= 2 ^ (8 * Z.of_nat (S j))).
  { change 256 with (2 ^ 8). apply Z.pow_le_mono_r; lia. }
  assert (Hzero : Forall (fun b => b = 0) l).
  { apply (IH (S j)); [done|lia|].
    replace (crc_run 0 l) with ((crc_run 0 l ⊕ b) ⊕ b) by xor_ac.
    apply lxor_bound; [lia|rewrite Hpow; lia|by apply byte_below]. }
  apply Forall_app. split; [done|]. apply Forall_singleton.
  rewrite (crc_run_zeros l Hzero), Z.lxor_0_l in E. unfold is_byte in Hb. clear -E Hb. lia.
Qed.

(** Two bursts of at most four bytes that lead to the same register are equal. *)
Lemma crc_burst p m m' s :
  bytes p -> bytes m -> bytes m' -> bytes s -> length m = length m' -> len m <= 4 ->
  ieee_crc32 (p ++ m ++ s) = ieee_crc32 (p ++ m' ++ s) -> m = m'.
Proof.
  intros Hp Hm Hm' Hs Hlen H4 E.
  assert (E' : crc_run 4294967295 (p ++ m ++ s) ⊕ crc_run 4294967295 (p ++ m' ++ s) = 0).
  { apply lxor_eq_0. unfold ieee_crc32, crc_run in *. apply (f_equal (fun x => x ⊕ 4294967295)) in E.
    by rewrite !Z.lxor_assoc, Z.lxor_nilpotent, !Z.lxor_0_r in E. }
  rewrite crc_run_diff in E' by (rewrite !length_app; lia). rewrite Z.lxor_nilpotent in E'.
  rewrite !zip_with_app in E' by done.
  assert (Hself : forall l : list Z, Forall (fun b => b = 0) (zip_with Z.lxor l l)).
  { induction l; cbn; constructor; [apply Z.lxor_nilpotent|done]. }
  assert (Hback : forall l c, Forall (fun b => b = 0) l -> 0 <= c < 2 ^ 32 -> crc_run c l = 0 -> c = 0).
  { intros l c Hl. revert c. induction Hl as [|b l -> Hl IH]; intros c Hc Hr; [done|].
    cbn [crc_run foldl] in Hr. apply IH in Hr; [by apply crc_byte_zero in Hr|by apply crc_byte_bound]. }
  unfold crc_run in E'. rewrite !foldl_app in E'. fold (crc_run 0 (zip_with Z.lxor p p)) in E'.
  rewrite crc_run_zeros in E' by auto.
  assert (Hd : bytes (zip_with Z.lxor m m')).
  { clear -Hm Hm' Hlen. revert m' Hm' Hlen. induction Hm as [|b m Hb Hm IH]; intros m' Hm' Hlen; [constructor|].
    destruct m' as [|b' m']; [constructor|]. apply Forall_cons in Hm' as [Hb' Hm'].
    constructor; [by apply is_byte_lxor|]. apply IH; [done|]. cbn in Hlen. lia. }
  apply (Hback _ (crc_run 0 (zip_with Z.lxor m m'))) in E'; [|auto|apply crc_run_bound; [lia|done]].
  assert (Hz : Forall (fun b => b = 0) (zip_with Z.lxor m m')).
  { apply (crc_run_small _ 0); [done|unfold len in *; rewrite length_zip_with; lia|rewrite E'; done]. }
  clear -Hz Hlen. revert m' Hlen Hz. induction m as [|b m IH]; intros [|b' m'] Hlen Hz; cbn in *; try lia; [done|].
  apply Forall_cons in Hz as [Hz1 Hz2]. apply lxor_eq_0 in Hz1 as ->. f_equal. apply IH; [lia|done].
Qed.

(** ** Messages: lengths and fields *)

Definition epoch_ok (e : Epoch) : Prop := in_u32 e /\ e <> 0.

Definition v2_symbol_ok (s : V2Symbol) : Prop :=
  match s with
  | V2Source e q p => epoch_ok e /\ in_u32 q /\ bytes p /\ len p <= V2_SOURCE_PAYLOAD_MAX
  | V2Repair e r b n p =>
      epoch_ok e /\ in_u16 r /\ in_u32 b /\ in_u32 n /\ bytes p /\ len p <= V2_REPAIR_PAYLOAD_MAX
  end.

Definition v1_symbol_ok (s : Symbol) : Prop :=
  match s with
  | Source q p => in_u32 q /\ bytes p
  | Repair r b n p => in_u16 r /\ in_u32 b /\ in_u32 n /\ bytes p
  end.

Definition chunk_v2_ok (h : ChunkV2Header) : Prop :=
  in_u32 (frame_id h) /\ in_u16 (chunk_index h) /\ in_u16 (chunk_count h) /\ in_u32 (timestamp_us h) /\
  in_u32 (encoded_frame_len h) /\ in_u32 (encoded_frame_crc32 h).

Definition control_v2_ok (m : V2ControlMsg) : Prop :=
  match m with
  | V2Subscribe e => epoch_ok e
  | V2Ack e q => epoch_ok e /\ in_u32 q
  | V2NeedsIdr e r => epoch_ok e /\ is_byte r
  end.

Lemma ieee_crc32_u32 l : bytes l -> in_u32 (ieee_crc32 l).
Proof. intros Hl. apply (lxor_bound 32); [lia| |lia]. by apply crc_run_bound. Qed.

Lemma epoch_parse e : epoch_ok e -> ok_or (Epoch_new (of_le (u32_le e))) InvalidEpoch = Ok e.
Proof. intros [H1 H2]. rewrite u32_le_id by done. unfold Epoch_new. by rewrite (proj2 (Z.eqb_neq e 0)). Qed.

Lemma parse_encode_source e q p :
  v2_symbol_ok (V2Source e q p) ->
  exists buf, encode_symbol_msg_v2 (V2Source e q p) = Ok buf /\ len buf = 15 + len p /\
    parse_symbol_msg_versioned buf = Ok (SymbolV2 (V2Source e q p)).
Proof.
  intros (He & Hq & Hp & Hl). unfold V2_SOURCE_PAYLOAD_MAX in Hl. pose proof (len_nonneg p).
  unfold encode_symbol_msg_v2. rewrite (proj2 (Z.ltb_ge V2_SOURCE_PAYLOAD_MAX _)) by (unfold V2_SOURCE_PAYLOAD_MAX; lia).
  eexists. split; [reflexivity|]. set (buf := [2] ++ _).
  assert (Hbuf : len buf = 15 + len p) by (unfold buf; wire_len; lia). split; [done|].
  change (parse_symbol_msg_versioned buf) with (result_map SymbolV2 (parse_v2_source buf)).
  unfold parse_v2_source, V2_SOURCE_HEADER_LEN, FEC_MSG_MAX, V2_SOURCE_PAYLOAD_MAX. rewrite Hbuf.
  rewrite (proj2 (Z.ltb_ge (15 + len p) 15)), (proj2 (Z.ltb_ge 1200 (15 + len p))) by lia.
  change (le_field buf 1 5) with (of_le (u32_le e)). change (le_field buf 5 9) with (of_le (u32_le q)).
  change (le_field buf 9 11) with (of_le (u16_le (wrap16 (len p)))).
  change (le_field buf 11 15) with (of_le (u32_le (ieee_crc32 p))). change (drop 15 buf) with p.
  rewrite epoch_parse, (u16_len_id p), !u32_le_id by (done || lia || by apply ieee_crc32_u32).
  rewrite (proj2 (Z.ltb_ge 1185 (len p))), !Z.eqb_refl by lia. done.
Qed.

Lemma parse_encode_repair e r b n p :
  v2_symbol_ok (V2Repair e r b n p) ->
  exists buf, encode_symbol_msg_v2 (V2Repair e r b n p) = Ok buf /\ len buf = 21 + len p /\
    parse_symbol_msg_versioned buf = Ok (SymbolV2 (V2Repair e r b n p)).
Proof.
  intros (He & Hr & Hb & Hn & Hp & Hl). unfold V2_REPAIR_PAYLOAD_MAX in Hl. pose proof (len_nonneg p).
  unfold encode_symbol_msg_v2. rewrite (proj2 (Z.ltb_ge V2_REPAIR_PAYLOAD_MAX _)) by (unfold V2_REPAIR_PAYLOAD_MAX; lia).
  eexists. split; [reflexivity|]. set (buf := [3] ++ _).
  assert (Hbuf : len buf = 21 + len p) by (unfold buf; wire_len; lia). split; [done|].
  change (parse_symbol_msg_versioned buf) with (result_map SymbolV2 (parse_v2_repair buf)).
  unfold parse_v2_repair, V2_REPAIR_HEADER_LEN, V2_REPAIR_MSG_MAX, V2_REPAIR_PAYLOAD_MAX. rewrite Hbuf.
  rewrite (proj2 (Z.ltb_ge (21 + len p) 21)), (proj2 (Z.ltb_ge 1221 (21 + len p))) by lia.
  change (le_field buf 1 5) with (of_le (u32_le e)). change (le_field buf 5 7) with (of_le (u16_le r)).
  change (le_field buf 7 11) with (of_le (u32_le b)). change (le_field buf 11 15) with (of_le (u32_le n)).
  change (le_field buf 15 17) with (of_le (u16_le (wrap16 (len p)))).
  change (le_field buf 17 21) with (of_le (u32_le (ieee_crc32 p))). change (drop 21 buf) with p.
  rewrite epoch_parse, (u16_len_id p), !u32_le_id, u16_le_id by (done || lia || by apply ieee_crc32_u32).
  rewrite (proj2 (Z.ltb_ge 1200 (len p))), !Z.eqb_refl by lia. done.
Qed.

Lemma parse_encode_v1 s :
  v1_symbol_ok s -> parse_symbol_msg_versioned (encode_symbol_msg s) = Ok (SymbolV1 s).
Proof.
  destruct s as [q p|r b n p]; intros Hok; cbn in Hok.
  - destruct Hok as [Hq Hp]. set (buf := encode_symbol_msg _).
    assert (Hbuf : len buf = 5 + len p) by (unfold buf, encode_symbol_msg; wire_len; lia). pose proof (len_nonneg p).
    change (parse_symbol_msg_versioned buf) with
      (if len buf <? 5 then @Err ParsedSymbolMsg FecWireError Truncated
       else Ok (SymbolV1 (Source (of_le (u32_le q)) p))).
    rewrite Hbuf, (proj2 (Z.ltb_ge (5 + len p) 5)), u32_le_id by (done || lia). done.
  - destruct Hok as (Hr & Hb & Hn & Hp). set (buf := encode_symbol_msg _).
    assert (Hbuf : len buf = 11 + len p) by (unfold buf, encode_symbol_msg; wire_len; lia). pose proof (len_nonneg p).
    change (parse_symbol_msg_versioned buf) with
      (if len buf <? 11 then @Err ParsedSymbolMsg FecWireError Truncated
       else Ok (SymbolV1 (Repair (of_le (u16_le r)) (of_le (u32_le b)) (of_le (u32_le n)) p))).
    rewrite Hbuf, (proj2 (Z.ltb_ge (11 + len p) 11)), !u32_le_id, u16_le_id by (done || lia). done.
Qed.

(** ** What a parser accepts is what the encoder writes *)

Lemma head_slice (buf : list Z) k : head buf = Some k -> [k] = slice buf 0 1.
Proof. destruct buf; [done|]. cbn. by intros [= ->]. Qed.

Lemma Epoch_new_ok v e (err : FecWireError) : ok_or (Epoch_new v) err = Ok e -> v = e /\ e <> 0.
Proof. unfold Epoch_new. case_test; cbn; [done|]. intros [= ->]. done. Qed.

Lemma bytes_drop_ok n buf : bytes buf -> bytes (drop n buf).
Proof. apply bytes_drop. Qed.

Ltac wire_field := apply le_bytes_field; [assumption|lia|unfold len in *; lia].
Ltac wire_bound := apply (le_field_bound _ _ _ 4); [assumption|lia|unfold len in *; lia].
Ltac wire_bound2 := apply (le_field_bound _ _ _ 2); [assumption|lia|unfold len in *; lia].

Lemma parse_v2_source_inv buf s :
  bytes buf -> head buf = Some 2 -> parse_v2_source buf = Ok s ->
  v2_symbol_ok s /\ encode_symbol_msg_v2 s = Ok buf.
Proof.
  intros Hb Hh. unfold parse_v2_source, V2_SOURCE_HEADER_LEN, FEC_MSG_MAX, V2_SOURCE_PAYLOAD_MAX.
  case_test; [done|]. case_test; [done|].
  destruct (ok_or _ _) as [e|] eqn:Ee; [|done]. apply Epoch_new_ok in Ee as [Ee He0].
  case_test; [done|]. case_test; [done|]. intros [= <-].
  assert (Hl : len (drop 15 buf) = le_field buf 9 11) by (unfold len in *; rewrite length_drop; lia).
  assert (Hle : le_field buf 9 11 <= 1185) by lia.
  split.
  - split; [split; [rewrite <- Ee; wire_bound|done]|]. split; [wire_bound|]. split; [auto with bytes|].
    unfold V2_SOURCE_PAYLOAD_MAX. lia.
  - unfold encode_symbol_msg_v2, V2_SOURCE_PAYLOAD_MAX. rewrite (proj2 (Z.ltb_ge 1185 _)) by lia. f_equal.
    assert (Hw : wrap16 (len (drop 15 buf)) = le_field buf 9 11).
    { rewrite Hl. pose proof (len_nonneg (drop 15 buf)). apply Z.mod_small. lia. }
    assert (Hcrc : ieee_crc32 (drop 15 buf) = le_field buf 11 15) by assumption.
    rewrite Hw, Hcrc, <- Ee, (head_slice _ _ Hh).
    rewrite (le_bytes_field buf 1 5 4), (le_bytes_field buf 5 9 4), (le_bytes_field buf 9 11 2),
      (le_bytes_field buf 11 15 4) by (assumption || unfold len in *; lia).
    by rewrite !slice_drop by lia.
Qed.

Lemma parse_v2_repair_inv buf s :
  bytes buf -> head buf = Some 3 -> parse_v2_repair buf = Ok s ->
  v2_symbol_ok s /\ encode_symbol_msg_v2 s = Ok buf.
Proof.
  intros Hb Hh. unfold parse_v2_repair, V2_REPAIR_HEADER_LEN, V2_REPAIR_MSG_MAX, V2_REPAIR_PAYLOAD_MAX.
  case_test; [done|]. case_test; [done|].
  destruct (ok_or _ _) as [e|] eqn:Ee; [|done]. apply Epoch_new_ok in Ee as [Ee He0].
  case_test; [done|]. case_test; [done|]. intros [= <-].
  assert (Hl : len (drop 21 buf) = le_field buf 15 17) by (unfold len in *; rewrite length_drop; lia).
  assert (Hle : le_field buf 15 17 <= 1200) by lia.
  split.
  - split; [split; [rewrite <- Ee; wire_bound|done]|]. split; [wire_bound2|]. do 2 (split; [wire_bound|]).
    split; [auto with bytes|]. unfold V2_REPAIR_PAYLOAD_MAX. lia.
  - unfold encode_symbol_msg_v2, V2_REPAIR_PAYLOAD_MAX. rewrite (proj2 (Z.ltb_ge 1200 _)) by lia. f_equal.
    assert (Hw : wrap16 (len (drop 21 buf)) = le_field buf 15 17).
    { rewrite Hl. pose proof (len_nonneg (drop 21 buf)). apply Z.mod_small. lia. }
    assert (Hcrc : ieee_crc32 (drop 21 buf) = le_field buf 17 21) by assumption.
    rewrite Hw, Hcrc, <- Ee, (head_slice _ _ Hh).
    rewrite (le_bytes_field buf 1 5 4), (le_bytes_field buf 5 7 2), (le_bytes_field buf 7 11 4),
      (le_bytes_field buf 11 15 4), (le_bytes_field buf 15 17 2), (le_bytes_field buf 17 21 4)
      by (assumption || unfold len in *; lia).
    by rewrite !slice_drop by lia.
Qed.

(** The whole symbol parser is the inverse of the two encoders. *)
Lemma parse_symbol_inv buf m :
  bytes buf -> parse_symbol_msg_versioned buf = Ok m ->
  match m with
  | SymbolV1 s => v1_symbol_ok s /\ encode_symbol_msg s = buf
  | SymbolV2 s => v2_symbol_ok s /\ encode_symbol_msg_v2 s = Ok buf
  end.
Proof.
  intros Hb. unfold parse_symbol_msg_versioned. destruct (head buf) as [k|] eqn:Hh; cbn [ok_or]; [|done].
  destruct (Z.eqb_spec k 0) as [->|_].
  { case_test; [done|]. intros [= <-]. split; [split; [wire_bound|auto with bytes]|].
    unfold encode_symbol_msg. rewrite (head_slice _ _ Hh).
    rewrite (le_bytes_field buf 1 5 4) by (assumption || unfold len in *; lia). by rewrite !slice_drop by lia. }
  destruct (Z.eqb_spec k 1) as [->|_].
  { case_test; [done|]. intros [= <-]. split; [split; [wire_bound2|do 2 (split; [wire_bound|]); auto with bytes]|].
    unfold encode_symbol_msg. rewrite (head_slice _ _ Hh).
    rewrite (le_bytes_field buf 1 3 2), (le_bytes_field buf 3 7 4), (le_bytes_field buf 7 11 4)
      by (assumption || unfold len in *; lia). by rewrite !slice_drop by lia. }
  destruct (Z.eqb_spec k 2) as [->|_].
  { destruct (parse_v2_source buf) eqn:E; [|done]. intros [= <-]. by apply parse_v2_source_inv. }
  destruct (Z.eqb_spec k 3) as [->|_]; [|done].
  destruct (parse_v2_repair buf) eqn:E; [|done]. intros [= <-]. by apply parse_v2_repair_inv.
Qed.

(** ** Control messages *)

(** The first byte of an encoded v1 message is one of the three reserved kinds. *)
Definition reserved_ack (m : AckMsg) : bool :=
  match m with Ack seq => ((128 <=? seq mod 256) && (seq mod 256 <=? 130))%bool | _ => false end.

Lemma parse_encode_ack m :
  match m with Ack seq => in_u32 seq | _ => True end ->
  parse_control_msg (encode_ack_msg m) = if reserved_ack m then Err Truncated else Ok (ControlV1 m).
Proof.
  destruct m as [| |seq]; intros Hs; [done|done|].
  change (encode_ack_msg (Ack seq)) with [seq mod 256; seq / 256 mod 256; seq / 256 / 256 mod 256;
    seq / 256 / 256 / 256 mod 256].
  unfold parse_control_msg, reserved_ack.
  change (of_le [seq mod 256; seq / 256 mod 256; seq / 256 / 256 mod 256; seq / 256 / 256 / 256 mod 256])
    with (of_le (u32_le seq)). rewrite u32_le_id by done. generalize (seq mod 256). intros k.
  destruct (Z.eqb_spec k 128) as [->|]; [done|]. destruct (Z.eqb_spec k 129) as [->|]; [done|].
  destruct (Z.eqb_spec k 130) as [->|]; [done|].
  destruct (Z.leb_spec 128 k), (Z.leb_spec k 130); cbn [andb]; try done. lia.
Qed.

Lemma parse_encode_control m :
  control_v2_ok m -> parse_control_msg (encode_control_msg_v2 m) = Ok (ControlV2 m).
Proof.
  destruct m as [e|e q|e r]; cbn [control_v2_ok].
  - intros He.
    change (parse_control_msg (encode_control_msg_v2 (V2Subscribe e))) with
      (let? epoch := ok_or (Epoch_new (of_le (u32_le e))) InvalidEpoch in Ok (ControlV2 (V2Subscribe epoch))).
    by rewrite epoch_parse.
  - intros [He Hq].
    change (parse_control_msg (encode_control_msg_v2 (V2Ack e q))) with
      (let? epoch := ok_or (Epoch_new (of_le (u32_le e))) InvalidEpoch in
       Ok (ControlV2 (V2Ack epoch (of_le (u32_le q))))).
    by rewrite epoch_parse, u32_le_id.
  - intros [He Hr].
    change (parse_control_msg (encode_control_msg_v2 (V2NeedsIdr e r))) with
      (let? epoch := ok_or (Epoch_new (of_le (u32_le e))) InvalidEpoch in Ok (ControlV2 (V2NeedsIdr epoch r))).
    by rewrite epoch_parse.
Qed.

Lemma parse_control_inv buf m :
  bytes buf -> parse_control_msg buf = Ok m ->
  match m with
  | ControlV1 m => encode_ack_msg m = buf
  | ControlV2 m => control_v2_ok m /\ encode_control_msg_v2 m = buf
  end.
Proof.
  intros Hb. destruct buf as [|k rest]; [done|]. unfold parse_control_msg.
  apply Forall_cons in Hb as [Hk Hb]. change (bytes rest) in Hb.
  destruct (Z.eqb_spec k 128) as [->|_].
  { case_test; [done|]. case_test; [done|]. destruct (ok_or _ _) as [e|] eqn:Ee; [|done].
    apply Epoch_new_ok in Ee as [Ee He0]. intros [= <-].
    split; [split; [split; [rewrite <- Ee; wire_bound|done]|auto with bytes]|].
    unfold encode_control_msg_v2. rewrite <- Ee, (le_bytes_field rest 0 4 4) by (assumption || unfold len in *; lia).
    cbn [app]. f_equal. destruct rest as [|? [|? [|? [|? [|? [|? ?]]]]]]; unfold len in *; cbn in *; try lia; done. }
  destruct (Z.eqb_spec k 129) as [->|_].
  { case_test; [done|]. case_test; [done|]. destruct (ok_or _ _) as [e|] eqn:Ee; [|done].
    apply Epoch_new_ok in Ee as [Ee He0]. intros [= <-].
    assert (Hd : length (drop 4 rest) = 4%nat) by (rewrite length_drop; unfold len in *; lia).
    split; [split; [split; [rewrite <- Ee; wire_bound|done]|apply of_le_u32; auto with bytes]|].
    unfold encode_control_msg_v2. rewrite <- Ee, (le_bytes_field rest 0 4 4) by (assumption || unfold len in *; lia).
    pose proof (le_bytes_of_le (drop 4 rest) ltac:(auto with bytes)) as Hx. rewrite Hd in Hx. rewrite Hx.
    cbn [app]. f_equal. apply (slice_drop rest 0 4). lia. }
  destruct (Z.eqb_spec k 130) as [->|_].
  { case_test; [done|]. case_test; [done|]. destruct (ok_or _ _) as [e|] eqn:Ee; [|done].
    apply Epoch_new_ok in Ee as [Ee He0]. intros [= <-].
    assert (Hd : length rest = 4%nat) by (unfold len in *; lia).
    split; [split; [rewrite <- Ee; by apply of_le_u32|done]|].
    pose proof (le_bytes_of_le rest Hb) as Hx. rewrite Hd in Hx.
    unfold encode_control_msg_v2. by rewrite <- Ee, Hx. }
  destruct rest as [|b [|c [|d [|? ?]]]]; try done.
  - destruct (Z.eqb_spec k 0) as [->|_]; [by intros [= <-]|].
    destruct (Z.eqb_spec k 1) as [->|_]; [by intros [= <-]|done].
  - intros [= <-]. cbn [encode_ack_msg]. apply (le_bytes_of_le [k; b; c; d]). by apply bytes_cons.
Qed.

(** ** Chunks *)

Lemma validate_chunk_v2_ok h f :
  0 <= chunk_count h ->
  validate_chunk_v2 h f = Ok tt <->
  1 <= chunk_count h <= 4096 /\ chunk_index h < chunk_count h /\ encoded_frame_len h <= 4194304 /\ len f <= 1164.
Proof.
  intros H0. unfold validate_chunk_v2, V2_CHUNK_COUNT_MAX, ENCODED_FRAME_MAX, CHUNK_V2_FRAGMENT_MAX. split.
  - destruct ((chunk_count h =? 0) || (4096 <? chunk_count h))%bool eqn:E; [done|]. reflect_bools.
    repeat (case_test; [done|]). lia.
  - intros H. rewrite (proj2 (Z.eqb_neq _ _)), (proj2 (Z.ltb_ge 4096 _)) by lia. cbn [orb].
    rewrite (proj2 (Z.leb_gt _ _)), !(proj2 (Z.ltb_ge _ _)) by lia. done.
Qed.

Lemma encode_chunk_v2_ok h f : validate_chunk_v2 h f = Ok tt -> exists buf, encode_chunk_v2 h f = Ok buf /\
  len buf = 21 + len f /\ drop 21 buf = f.
Proof.
  intros H. unfold encode_chunk_v2. rewrite H. eexists. split; [done|]. split; [wire_len; lia|done].
Qed.

(** Parsing an encoded chunk gives the header and the fragment back. *)
Lemma parse_encode_chunk_v2 h f buf :
  chunk_v2_ok h -> encode_chunk_v2 h f = Ok buf -> parse_chunk_v2 buf = Ok (h, f).
Proof.
  intros (H1 & H2 & H3 & H4 & H5 & H6) E. unfold encode_chunk_v2 in E.
  destruct (validate_chunk_v2 h f) as [[]|] eqn:Hv; [|done]. injection E as E.
  assert (Hlen : len buf = 21 + len f) by (rewrite <- E; wire_len; lia). pose proof (len_nonneg f).
  unfold parse_chunk_v2, CHUNK_V2_HEADER_LEN. rewrite (proj2 (Z.ltb_ge _ _)) by lia.
  assert (Hh : mkChunkV2 (le_field buf 0 4) (le_field buf 4 6) (le_field buf 6 8) (at0 buf 8 =? 1)
               (le_field buf 9 13) (le_field buf 13 17) (le_field buf 17 21) = h).
  { rewrite <- E. destruct h as [i x n key t l c]. cbn in H1, H2, H3, H4, H5, H6.
    transitivity (mkChunkV2 (of_le (u32_le i)) (of_le (u16_le x)) (of_le (u16_le n)) (bool_byte key =? 1)
      (of_le (u32_le t)) (of_le (u32_le l)) (of_le (u32_le c))); [reflexivity|].
    rewrite !u32_le_id, !u16_le_id by done. f_equal. by destruct key. }
  rewrite Hh.
  assert (Hk : at0 buf 8 = bool_byte (frame_type_key h)) by (by rewrite <- E). rewrite Hk.
  replace (1 <? bool_byte (frame_type_key h)) with false by (by destruct (frame_type_key h)).
  assert (Hd : drop 21 buf = f) by (by rewrite <- E). by rewrite Hd, Hv.
Qed.

Lemma parse_chunk_v2_inv buf h f :
  bytes buf -> parse_chunk_v2 buf = Ok (h, f) -> chunk_v2_ok h /\ encode_chunk_v2 h f = Ok buf.
Proof.
  intros Hb. unfold parse_chunk_v2, CHUNK_V2_HEADER_LEN. case_test; [done|]. case_test; [done|].
  destruct (validate_chunk_v2 _ _) as [[]|] eqn:Hv; [|done]. intros [= <- <-]. split.
  - split; [wire_bound|]. do 2 (split; [wire_bound2|]). do 2 (split; [wire_bound|]). wire_bound.
  - unfold encode_chunk_v2. rewrite Hv. cbn [frame_id chunk_index chunk_count frame_type_key timestamp_us
      encoded_frame_len encoded_frame_crc32]. f_equal.
    assert (Hk : [bool_byte (at0 buf 8 =? 1)] = slice buf 8 9).
    { destruct (lookup_lt_is_Some_2 buf 8) as [k Hk]; [unfold len in *; lia|].
      assert (Hk' : at0 buf 8 = k) by (unfold at0; by rewrite Hk). rewrite Hk' in *.
      pose proof (bytes_lookup _ _ _ Hb Hk) as Hkb. unfold slice. rewrite (drop_S _ _ _ Hk). cbn.
      f_equal. unfold is_byte in Hkb. destruct (Z.eqb_spec k 1); cbn; lia. }
    rewrite Hk, (le_bytes_field buf 0 4 4), (le_bytes_field buf 4 6 2), (le_bytes_field buf 6 8 2),
      (le_bytes_field buf 9 13 4), (le_bytes_field buf 13 17 4), (le_bytes_field buf 17 21 4)
      by (assumption || unfold len in *; lia).
    by rewrite !slice_drop by lia.
Qed.

(** *** Chunking a frame *)

Lemma v2_fragments_ok data :
  len data <= 4194304 ->
  concat (v2_fragments data) = data /\ len (v2_fragments data) = div_ceil (Z.max (len data) 1) 1164 /\
  1 <= len (v2_fragments data) <= 4096 /\ Forall (fun f => len f <= 1164) (v2_fragments data).
Proof.
  intros Hl. unfold v2_fragments, CHUNK_V2_FRAGMENT_MAX. destruct data as [|b data].
  - split; [done|]. split; [done|]. split; [done|]. by constructor.
  - rewrite chunks_concat, chunks_length by lia. split; [done|].
    rewrite len_cons in *. pose proof (len_nonneg data). unfold div_ceil.
    rewrite Z.max_l by lia. split; [done|]. split; [Z.div_mod_to_equations; lia|].
    eapply Forall_impl; [apply chunks_sizes; lia|]. cbn. intros f Hf. unfold len. lia.
Qed.

(** Every fragment but the last is full; the last one is the rest. *)
Lemma v2_fragment_length data i f :
  len data <= 4194304 -> v2_fragments data !! i = Some f ->
  (Z.of_nat i + 1 = len (v2_fragments data) -> len f = len data - 1164 * (len (v2_fragments data) - 1)) /\
  (Z.of_nat i + 1 <> len (v2_fragments data) -> len f = 1164).
Proof.
  intros Hl Hi. destruct (v2_fragments_ok data Hl) as (_ & Hn & _ & _). pose proof (lookup_lt_Some _ _ _ Hi) as Hlt.
  assert (Hlt' : Z.of_nat i < len (v2_fragments data)) by (unfold len; lia). rewrite Hn in *. clear Hlt.
  unfold v2_fragments, CHUNK_V2_FRAGMENT_MAX in Hi. destruct data as [|b data].
  - destruct i as [|i]; [|done]. injection Hi as <-. by split.
  - apply chunks_lookup in Hi as [-> Hi]; [|lia]. revert Hi Hlt'. unfold div_ceil, len.
    rewrite length_take, length_drop. set (L := length (b :: data)). intros Hi Hlt. assert (1 <= Z.of_nat L) by (cbn in L; lia).
    rewrite Z.max_l in * by lia. split; intros; Z.div_mod_to_equations; lia.
Qed.

Lemma mapM_id_Some {A B} (f : A -> option B) (g : A -> B) l :
  Forall (fun a => f a = Some (g a)) l -> mapM id (f <$> l) = Some (g <$> l).
Proof. induction 1 as [|a l Ha Hl IH]; [done|]. cbn. rewrite Ha. cbn. by rewrite IH. Qed.

(** The header [chunk_frame_v2] gives to fragment [i]. *)
Definition frame_header (fid : Z) (key : bool) (ts : Z) (data : list Z) (i : nat) : ChunkV2Header :=
  mkChunkV2 fid (Z.of_nat i) (len (v2_fragments data)) key ts (len data) (ieee_crc32 data).

Lemma frame_header_ok fid key ts data i :
  in_u32 fid -> in_u32 ts -> bytes data -> len data <= 4194304 -> (i < length (v2_fragments data))%nat ->
  chunk_v2_ok (frame_header fid key ts data i).
Proof.
  intros Hf Ht Hb Hl Hi. destruct (v2_fragments_ok data Hl) as (_ & _ & Hc & _). pose proof (len_nonneg data).
  unfold chunk_v2_ok, frame_header; cbn. unfold len in *.
  split; [done|]. do 2 (split; [unfold in_u; lia|]). split; [done|]. split; [unfold in_u; lia|].
  by apply ieee_crc32_u32.
Qed.

Lemma chunk_frame_v2_msgs fid key ts data :
  len data <= 4194304 ->
  exists msgs, chunk_frame_v2 fid key ts data = Some (Ok msgs) /\
    Forall2 (fun msg hf => encode_chunk_v2 (fst hf) (snd hf) = Ok msg)
      msgs (imap (fun i f => (frame_header fid key ts data i, f)) (v2_fragments data)).
Proof.
  intros Hl. destruct (v2_fragments_ok data Hl) as (Hcat & Hlen & Hc & Hf). pose proof (len_nonneg data).
  unfold chunk_frame_v2, ENCODED_FRAME_MAX, V2_CHUNK_COUNT_MAX, CHUNK_V2_FRAGMENT_MAX.
  rewrite (proj2 (Z.ltb_ge _ _)) by lia. rewrite <- Hlen, (proj2 (Z.ltb_ge 4096 _)) by lia. cbv zeta.
  replace (wrap32 (len data)) with (len data) by wrap_lia.
  replace (wrap16 (len (v2_fragments data))) with (len (v2_fragments data)) by wrap_lia.
  assert (G : forall l k, (k + length l = length (v2_fragments data))%nat -> Forall (fun f => len f <= 1164) l ->
    exists msgs, mapM id (imap (fun index fragment =>
        ok (encode_chunk_v2 (mkChunkV2 fid (wrap16 (Z.of_nat (k + index))) (len (v2_fragments data)) key
              ts (len data) (ieee_crc32 data)) fragment)) l) = Some msgs /\
      Forall2 (fun msg hf => encode_chunk_v2 (fst hf) (snd hf) = Ok msg)
        msgs (imap (fun i f => (frame_header fid key ts data (k + i), f)) l)).
  { induction l as [|f l IH]; intros k Hk Hall; [by exists []|].
    apply Forall_cons in Hall as [Hfl Hall]. cbn in Hk. destruct (IH (S k) ltac:(lia) Hall) as (msgs & E & HF).
    assert (Hw : wrap16 (Z.of_nat k) = Z.of_nat k) by (unfold len in *; wrap_lia).
    destruct (encode_chunk_v2_ok (frame_header fid key ts data k) f) as (buf & Eb & _).
    { apply validate_chunk_v2_ok; cbn; unfold len in *; lia. }
    exists (buf :: msgs). cbn -[encode_chunk_v2]. rewrite Nat.add_0_r, Hw. unfold frame_header in Eb at 1. rewrite Eb.
    cbn -[encode_chunk_v2].
    rewrite (imap_ext _ (fun index fragment =>
        ok (encode_chunk_v2 (mkChunkV2 fid (wrap16 (Z.of_nat (S k + index))) (len (v2_fragments data)) key
              ts (len data) (ieee_crc32 data)) fragment)))
      by (intros i x _; cbn -[encode_chunk_v2]; by replace (k + S i)%nat with (S (k + i)) by lia).
    rewrite E. split; [done|]. constructor; [done|].
    erewrite imap_ext; [exact HF|]. intros i x _. cbn. by replace (k + S i)%nat with (S (k + i)) by lia. }
  destruct (G (v2_fragments data) 0%nat eq_refl Hf) as (msgs & E & HF). exists msgs. split; [|done].
  cbn [plus] in E. by rewrite E.
Qed.

Lemma bytes_bool b : bytes [bool_byte b].
Proof. destruct b; by_decide. Qed.

Lemma encode_chunk_v2_bytes h f buf : bytes f -> encode_chunk_v2 h f = Ok buf -> bytes buf /\ len buf <= 21 + len f.
Proof.
  intros Hf E. unfold encode_chunk_v2 in E. destruct (validate_chunk_v2 h f); [|done]. apply Ok_inj in E as <-.
  split; [|wire_len; lia]. repeat (apply bytes_app; [first [apply bytes_le_bytes|apply bytes_bool]|]). exact Hf.
Qed.

Lemma bytes_concat_elem l f : bytes (concat l) -> f ∈ l -> bytes f.
Proof.
  induction l as [|g l IH]; intros Hb Hf; [by apply elem_of_nil in Hf|].
  cbn in Hb. apply Forall_app in Hb as [Hg Hb]. apply elem_of_cons in Hf as [->|Hf]; [done|by apply IH].
Qed.

(** Every message of a chunked frame parses back to its header and fragment. *)
Lemma chunk_frame_v2_parse fid key ts data msgs :
  in_u32 fid -> in_u32 ts -> bytes data -> len data <= 4194304 ->
  Forall2 (fun msg hf => encode_chunk_v2 (fst hf) (snd hf) = Ok msg)
    msgs (imap (fun i f => (frame_header fid key ts data i, f)) (v2_fragments data)) ->
  Forall2 (fun msg hf => parse_chunk_v2 msg = Ok hf /\ bytes msg /\ len msg <= V2_SOURCE_PAYLOAD_MAX)
    msgs (imap (fun i f => (frame_header fid key ts data i, f)) (v2_fragments data)).
Proof.
  intros Hf Ht Hb Hl HF. destruct (v2_fragments_ok data Hl) as (Hcat & _ & Hc & Hfl).
  pose proof (Forall2_length _ _ _ HF) as Hlen. rewrite length_imap in Hlen.
  apply Forall2_same_length_lookup. split; [by rewrite length_imap|]. intros i msg [h f] Hmsg Hhf.
  pose proof (Forall2_lookup_lr _ _ _ _ _ _ HF Hmsg Hhf) as Henc. cbn in Henc.
  rewrite list_lookup_imap, fmap_Some in Hhf. destruct Hhf as (f' & Hf' & [= -> ->]).
  pose proof (lookup_lt_Some _ _ _ Hf') as Hi. apply list_elem_of_lookup_2 in Hf'. rewrite Forall_forall in Hfl.
  pose proof (Hfl f' Hf') as Hfl'. rewrite <- Hcat in Hb. pose proof (bytes_concat_elem _ _ Hb Hf') as Hfb.
  rewrite Hcat in Hb. destruct (encode_chunk_v2_bytes _ _ _ Hfb Henc) as [Hmb Hml].
  split; [|split; [done|unfold V2_SOURCE_PAYLOAD_MAX; lia]].
  eapply parse_encode_chunk_v2; [|exact Henc]. by apply frame_header_ok.
Qed.

Lemma validate_frame_header fid key ts data i :
  validate_encoded_frame_v2 (frame_header fid key ts data i) data = Ok tt.
Proof. unfold validate_encoded_frame_v2, frame_header. cbn. by rewrite !Z.eqb_refl. Qed.

(** ** Properties *)

(** symbol messages round-trip: what the encoders write the parser reads
    back, of the version written, and a v2 message stays within its size limit. *)
Theorem symbol_msg_roundtrip s :
  match s with
  | SymbolV1 s => v1_symbol_ok s -> parse_symbol_msg_versioned (encode_symbol_msg s) = Ok (SymbolV1 s)
  | SymbolV2 s => v2_symbol_ok s -> exists buf, encode_symbol_msg_v2 s = Ok buf /\
      parse_symbol_msg_versioned buf = Ok (SymbolV2 s) /\
      len buf <= match s with V2Source _ _ _ => FEC_MSG_MAX | V2Repair _ _ _ _ _ => V2_REPAIR_MSG_MAX end
  end.
Proof.
  destruct s as [s|[e q p|e r b n p]]; intros Hok; [by apply parse_encode_v1| |].
  - destruct (parse_encode_source e q p Hok) as (buf & E & Hl & Hp). exists buf. split; [done|]. split; [done|].
    destruct Hok as (_ & _ & _ & ?). unfold V2_SOURCE_PAYLOAD_MAX, FEC_MSG_MAX in *. lia.
  - destruct (parse_encode_repair e r b n p Hok) as (buf & E & Hl & Hp). exists buf. split; [done|]. split; [done|].
    destruct Hok as (_ & _ & _ & _ & _ & ?). unfold V2_REPAIR_PAYLOAD_MAX, V2_REPAIR_MSG_MAX in *. lia.
Qed.

(** the symbol parser accepts nothing but encodings: an accepted message
    is, byte for byte, what the encoder of its version writes for the result,
    whose fields are in range (the epoch is not zero, the payload within the cap). *)
Theorem symbol_parser_canonical buf m :
  bytes buf -> parse_symbol_msg_versioned buf = Ok m ->
  match m with
  | SymbolV1 s => v1_symbol_ok s /\ encode_symbol_msg s = buf
  | SymbolV2 s => v2_symbol_ok s /\ encode_symbol_msg_v2 s = Ok buf
  end.
Proof. apply parse_symbol_inv. Qed.

(** The CRC detects every burst of up to four bytes: corrupting at most
    four consecutive payload bytes of a v2 source message in flight makes the
    parser reject it with [CrcMismatch]. *)
Theorem corrupted_source_rejected e q p m m' s buf :
  v2_symbol_ok (V2Source e q (p ++ m ++ s)) -> bytes m' -> length m = length m' -> len m <= 4 -> m <> m' ->
  encode_symbol_msg_v2 (V2Source e q (p ++ m ++ s)) = Ok buf ->
  parse_symbol_msg_versioned (take 15 buf ++ p ++ m' ++ s) = Err CrcMismatch.
Proof.
  intros Hok Hm' Hlen H4 Hne E. pose proof Hok as (He & Hq & Hb & Hl).
  apply Forall_app in Hb as [Hp [Hm Hs]%Forall_app].
  set (pay := p ++ m ++ s) in *. set (pay' := p ++ m' ++ s).
  assert (Hpl : len pay' = len pay) by (unfold pay, pay', len; rewrite !length_app; lia).
  unfold encode_symbol_msg_v2 in E. rewrite (proj2 (Z.ltb_ge _ _)) in E by exact Hl. injection E as <-.
  unfold V2_SOURCE_PAYLOAD_MAX in Hl. pose proof (len_nonneg pay).
  set (buf := take 15 _ ++ pay').
  assert (Hbuf : len buf = 15 + len pay') by (unfold buf; rewrite len_app; done).
  change (parse_symbol_msg_versioned buf) with (result_map SymbolV2 (parse_v2_source buf)).
  unfold parse_v2_source, V2_SOURCE_HEADER_LEN, FEC_MSG_MAX, V2_SOURCE_PAYLOAD_MAX. rewrite Hbuf, Hpl.
  rewrite (proj2 (Z.ltb_ge (15 + len pay) 15)), (proj2 (Z.ltb_ge 1200 (15 + len pay))) by lia.
  change (le_field buf 1 5) with (of_le (u32_le e)). change (le_field buf 9 11) with (of_le (u16_le (wrap16 (len pay)))).
  change (le_field buf 11 15) with (of_le (u32_le (ieee_crc32 pay))). change (drop 15 buf) with pay'.
  rewrite epoch_parse, (u16_len_id pay), u32_le_id
    by (done || lia || (apply ieee_crc32_u32; unfold pay; by repeat apply bytes_app)).
  rewrite (proj2 (Z.ltb_ge 1185 (len pay))), Z.eqb_refl by lia. cbn [negb orb].
  destruct (Z.eqb_spec (ieee_crc32 pay') (ieee_crc32 pay)) as [E|]; [|done].
  exfalso. apply Hne. symmetry. unfold len in *.
  apply (crc_burst p m' m s); auto; unfold len; lia.
Qed.

(** Chunking a frame. Up to 4 MiB, [chunk_frame_v2] never panics: it
    yields 1 to 4096 messages, each accepted by the chunk parser and small
    enough for one v2 source symbol; their headers number them 0, 1, 2, ... out
    of their count, their fragments concatenate to the frame, and the frame
    passes the validation against each header. Beyond 4 MiB it is an error. *)
Theorem chunk_frame_v2_ok fid key ts data :
  in_u32 fid -> in_u32 ts -> bytes data ->
  if 4194304 <? len data then chunk_frame_v2 fid key ts data = Some (Err InvalidEncodedFrameLength)
  else exists msgs parsed, chunk_frame_v2 fid key ts data = Some (Ok msgs) /\
    Forall2 (fun msg hf => parse_chunk_v2 msg = Ok hf /\ bytes msg /\ len msg <= V2_SOURCE_PAYLOAD_MAX) msgs parsed /\
    1 <= len msgs <= V2_CHUNK_COUNT_MAX /\ concat (snd <$> parsed) = data /\
    forall i h f, parsed !! i = Some (h, f) ->
      chunk_index h = Z.of_nat i /\ chunk_count h = len msgs /\ frame_id h = fid /\ frame_type_key h = key /\
      timestamp_us h = ts /\ validate_encoded_frame_v2 h data = Ok tt.
Proof.
  intros Hf Ht Hb. case_test; [unfold chunk_frame_v2, ENCODED_FRAME_MAX; by rewrite (proj2 (Z.ltb_lt _ _))|].
  assert (Hl : len data <= 4194304) by lia.
  destruct (chunk_frame_v2_msgs fid key ts data Hl) as (msgs & E & HF).
  destruct (v2_fragments_ok data Hl) as (Hcat & _ & Hc & Hfl).
  pose proof (Forall2_length _ _ _ HF) as Hlen. rewrite length_imap in Hlen.
  exists msgs, (imap (fun i f => (frame_header fid key ts data i, f)) (v2_fragments data)).
  split; [done|]. split; [by apply chunk_frame_v2_parse|split; [unfold len, V2_CHUNK_COUNT_MAX in *; lia|split]].
  - rewrite fmap_imap. rewrite (imap_ext _ (fun _ f => f)) by done.
    transitivity (concat (v2_fragments data)); [f_equal|done].
    apply list_eq. intros i. rewrite list_lookup_imap. apply option_fmap_id.
  - intros i h f Hi. rewrite list_lookup_imap, fmap_Some in Hi. destruct Hi as (f' & Hf' & [= -> ->]).
    split; [done|]. split; [cbn; unfold len; lia|]. do 3 (split; [done|]). apply validate_frame_header.
Qed.

(** control messages: every v2 control message round-trips; a v1 message
    round-trips unless it is an [Ack] whose low byte is one of the reserved
    kinds 0x80..0x82, which the parser rejects as truncated; and what the parser
    accepts is the encoding of its result. *)
Theorem control_msg_roundtrip :
  (forall m, control_v2_ok m -> parse_control_msg (encode_control_msg_v2 m) = Ok (ControlV2 m)) /\
  (forall m, match m with Ack seq => in_u32 seq | _ => True end ->
     parse_control_msg (encode_ack_msg m) = if reserved_ack m then Err Truncated else Ok (ControlV1 m)) /\
  (forall buf m, bytes buf -> parse_control_msg buf = Ok m ->
     match m with
     | ControlV1 m => encode_ack_msg m = buf
     | ControlV2 m => control_v2_ok m /\ encode_control_msg_v2 m = buf
     end).
Proof. split; [exact parse_encode_control|]. split; [exact parse_encode_ack|exact parse_control_inv]. Qed.

Lemma parse_encode_chunk fid i n key ts f :
  in_u32 fid -> in_u16 i -> in_u16 n -> in_u32 ts ->
  parse_chunk_header (encode_chunk fid i n key ts f) = Some (mkChunkV1 fid i n key ts, f).
Proof.
  intros Hf Hi Hn Ht. set (buf := encode_chunk _ _ _ _ _ _).
  assert (Hbuf : len buf = 13 + len f) by (unfold buf, encode_chunk; wire_len; lia). pose proof (len_nonneg f).
  change (parse_chunk_header buf) with
    (if len buf <? 13 then None else Some (mkChunkV1 (of_le (u32_le fid)) (of_le (u16_le i)) (of_le (u16_le n))
       (negb (bool_byte key =? 0)) (of_le (u32_le ts)), f)).
  rewrite Hbuf, (proj2 (Z.ltb_ge _ _)), !u32_le_id, !u16_le_id by (done || lia). by destruct key.
Qed.

(** V1 chunking: up to 65535 fragments, every chunk parses back to its
    header and fragment, numbered in order, and the fragments concatenate to
    the frame. *)
Theorem chunk_frame_ok fid key ts data :
  in_u32 fid -> in_u32 ts -> len data <= 65535 * CHUNK_FRAGMENT_MAX ->
  exists frags, concat frags = data /\ len (chunk_frame fid key ts data) = len frags /\
    Forall (fun f => len f <= CHUNK_FRAGMENT_MAX) frags /\
    forall i f, frags !! i = Some f -> exists msg, chunk_frame fid key ts data !! i = Some msg /\
      parse_chunk_header msg = Some (mkChunkV1 fid (Z.of_nat i) (len frags) key ts, f).
Proof.
  intros Hf Ht Hl. unfold CHUNK_FRAGMENT_MAX in *. destruct data as [|b data].
  - exists [[]]. split; [done|]. split; [done|]. split; [by constructor|]. intros [|i] f [= <-].
    eexists. split; [done|]. by apply parse_encode_chunk.
  - exists (chunks 1182 (b :: data)). rewrite chunks_concat by lia. split; [done|].
    unfold chunk_frame, CHUNK_FRAGMENT_MAX. change (Z.to_nat 1182) with 1182%nat.
    assert (Hn : len (chunks 1182 (b :: data)) = div_ceil (len (b :: data)) 1182) by (apply chunks_length; lia).
    rewrite <- Hn. assert (Hb : 0 <= len (chunks 1182 (b :: data)) <= 65535).
    { split; [apply len_nonneg|]. rewrite Hn. unfold div_ceil. pose proof (len_nonneg (b :: data)).
      Z.div_mod_to_equations. lia. }
    split; [unfold len; by rewrite length_imap|]. split.
    + eapply Forall_impl; [apply chunks_sizes; lia|]. cbn. intros f Hlf. unfold len. lia.
    + intros i f Hi. rewrite list_lookup_imap, Hi. eexists. split; [done|].
      pose proof (lookup_lt_Some _ _ _ Hi). rewrite (parse_encode_chunk fid); auto.
      * do 2 f_equal. unfold len in *. rewrite wrap16_id by (unfold in_u; lia).
        by rewrite wrap16_id by (unfold in_u; lia).
      * apply wrap16_in.
      * apply wrap16_in.
Qed.

(** ** Witnesses *)

Lemma symbol_msg_roundtrip_witness :
  exists buf, encode_symbol_msg_v2 (V2Source 7 4294967295 [1; 2; 3]) = Ok buf /\
    parse_symbol_msg_versioned buf = Ok (SymbolV2 (V2Source 7 4294967295 [1; 2; 3])).
Proof.
  destruct (symbol_msg_roundtrip (SymbolV2 (V2Source 7 4294967295 [1; 2; 3]))) as (buf & E & H & _); [|eauto].
  split; [by_decide|]. split; [by_decide|]. split; by_decide.
Defined.

Lemma symbol_parser_canonical_witness :
  v1_symbol_ok (Source 258 [9; 8]) /\ encode_symbol_msg (Source 258 [9; 8]) = [0; 2; 1; 0; 0; 9; 8].
Proof. apply (symbol_parser_canonical [0; 2; 1; 0; 0; 9; 8] (SymbolV1 (Source 258 [9; 8]))); [by_decide|by vm_compute]. Defined.

Lemma corrupted_source_rejected_witness : exists buf,
  encode_symbol_msg_v2 (V2Source 1 2 ([5; 6] ++ [7; 8] ++ [9])) = Ok buf /\
  parse_symbol_msg_versioned (take 15 buf ++ [5; 6] ++ [0; 255] ++ [9]) = Err CrcMismatch.
Proof.
  eexists. split; [vm_compute; reflexivity|].
  apply (corrupted_source_rejected 1 2 [5; 6] [7; 8] [0; 255] [9]).
  - split; [by_decide|]. split; [by_decide|]. split; by_decide.
  - by_decide.
  - done.
  - by_decide.
  - done.
  - by vm_compute.
Defined.

Lemma chunk_frame_v2_ok_witness : exists msgs, chunk_frame_v2 3 true 99 (replicate 1200 7) = Some (Ok msgs) /\ len msgs <= 4096.
Proof.
  pose proof (chunk_frame_v2_ok 3 true 99 (replicate 1200 7) ltac:(by_decide) ltac:(by_decide) ltac:(by_decide)) as H.
  change (4194304 <? len (replicate 1200 7)) with false in H. destruct H as (msgs & parsed & E & _ & [_ Hn] & _).
  exists msgs. exact (conj E Hn).
Defined.

Lemma chunk_frame_ok_witness : exists frags, concat frags = replicate 1200 7 /\
  len (chunk_frame 3 true 99 (replicate 1200 7)) = len frags.
Proof.
  destruct (chunk_frame_ok 3 true 99 (replicate 1200 7) ltac:(by_decide) ltac:(by_decide) ltac:(by_decide))
    as (frags & E & Hn & _). exists frags. exact (conj E Hn).
Defined.

Lemma control_msg_roundtrip_witness :
  parse_control_msg (encode_control_msg_v2 (V2Ack 5 1000)) = Ok (ControlV2 (V2Ack 5 1000)) /\
  parse_control_msg (encode_ack_msg (Ack 384)) = Err Truncated.
Proof.
  destruct control_msg_roundtrip as (H1 & H2 & _).
  split; [apply H1; split; [split|]; by_decide|exact (H2 (Ack 384) ltac:(by_decide))].
Defined.
