(* ===== verification/VideoRx.v ===== *)
(** * The video receiver (transport-core/src/video_rx.rs)

    The receive pipeline of one video subscription: wire parsing, the FEC
    decoder, chunk reassembly with its bounds, the bounded reorder queue with
    the IDR gate, and the ACK cadence. Clock values are arguments, as in the
    code. [None] is a panic (an [expect], an underflow); VideoRxSafe proves
    there is none. *)
From S2P Require Import Prelude Serial Gf256 FecEncoder Gauss FecDecoder FecWire.

(** ** Constants *)

Definition MAX_PENDING_FRAMES : Z := 8.
Definition ACK_SYMBOL_INTERVAL : Z := 32.
Definition ACK_TIME_INTERVAL_MS : Z := 50.
Definition REORDER_MAX_COMPLETED_FRAMES : Z := 4.
Definition REORDER_MAX_WAIT_MS : Z := 100.
Definition RX_DECODER_MAX_SYMBOLS : Z := 128.
Definition RX_DECODER_MAX_BYTES : Z := 16 * 1024 * 1024.

(** ** Data *)

Record DecodeUnit := mkDecodeUnit {
  du_frame_id : Z;
  du_epoch : Z;
  du_is_key : bool;
  du_timestamp_us : Z;
  du_duration_us : Z;
  du_data : list Z
}.

Inductive DiscontinuityReason : Type :=
| EpochTransition | ReorderGap | ReassemblyEviction | MetadataMismatch
| FrameCrc | MemoryCap | FecEviction | QueueOverflow.

#[export] Instance DiscontinuityReason_eq_dec : EqDecision DiscontinuityReason.
Proof. solve_decision. Defined.

Inductive RxEvent : Type :=
| RxFrame (u : DecodeUnit)
| Discontinuity (epoch : Z) (reason : DiscontinuityReason)
| RxAck (seq : Z).

Record PendingFrame := mkPending {
  pf_is_v2 : bool;
  pf_is_key : bool;
  pf_timestamp_us : Z;
  pf_chunk_count : Z;
  pf_encoded_len : Z;
  pf_encoded_crc : Z;
  pf_parts : list (option (list Z));
  pf_received : Z;
  pf_bytes : Z;
  pf_used_recovery : bool
}.

Record CompletedFrame := mkCompleted {
  cf_frame_id : Z;
  cf_frame : PendingFrame;
  cf_completed_at_ms : Z
}.

(** The reassembly state. *)
Record Reassembly := mkReassembly {
  pending : gmap (Z * Z) PendingFrame;
  pending_order : list (Z * Z);
  completed : gmap (Z * Z) CompletedFrame;
  completed_order : list (Z * Z);
  buffered_bytes : Z;
  next_frame_id : option Z;
  needs_idr : bool;
  awaiting_idr : bool;
  last_timestamp_us : Z;
  frames_recovered : Z;
  frames_dropped_awaiting_idr : Z
}.

(** The ACK cadence state. *)
Record AckState := mkAckState {
  symbols_since_ack : Z;
  last_ack_time_ms : Z;
  last_acked_highest : option Z
}.

(** [VideoReceiver], its fields grouped: decoder, epoch, reassembly, ACK cadence. *)
Record VideoReceiver := mkReceiver {
  rx_decoder : FecDecoder;
  active_epoch : option Z;
  reassembly : Reassembly;
  ack_state : AckState
}.

Record VideoReceiverStats := mkRxStats {
  st_source_symbols_received : Z;
  st_repair_symbols_received : Z;
  st_symbols_recovered : Z;
  st_frames_recovered : Z;
  st_frames_dropped_awaiting_idr : Z;
  st_loss_spans : Z;
  st_loss_spans_recovered : Z
}.

Definition rx_decoder_new : FecDecoder := FecDecoder.new RX_DECODER_MAX_SYMBOLS RX_DECODER_MAX_BYTES.

Definition rx_new (now_ms : Z) : VideoReceiver :=
  mkReceiver rx_decoder_new None
    (mkReassembly ∅ [] ∅ [] 0 None false false 0 0 0) (mkAckState 0 now_ms None).

(** Field updates. *)
Definition set_pending (s : Reassembly) (p : gmap (Z * Z) PendingFrame) (o : list (Z * Z)) (b : Z) : Reassembly :=
  mkReassembly p o (completed s) (completed_order s) b (next_frame_id s) (needs_idr s) (awaiting_idr s)
    (last_timestamp_us s) (frames_recovered s) (frames_dropped_awaiting_idr s).
Definition set_completed (s : Reassembly) (c : gmap (Z * Z) CompletedFrame) (o : list (Z * Z)) : Reassembly :=
  mkReassembly (pending s) (pending_order s) c o (buffered_bytes s) (next_frame_id s) (needs_idr s)
    (awaiting_idr s) (last_timestamp_us s) (frames_recovered s) (frames_dropped_awaiting_idr s).
Definition set_next (s : Reassembly) (n : option Z) : Reassembly :=
  mkReassembly (pending s) (pending_order s) (completed s) (completed_order s) (buffered_bytes s) n
    (needs_idr s) (awaiting_idr s) (last_timestamp_us s) (frames_recovered s) (frames_dropped_awaiting_idr s).
Definition set_awaiting (s : Reassembly) (a : bool) : Reassembly :=
  mkReassembly (pending s) (pending_order s) (completed s) (completed_order s) (buffered_bytes s)
    (next_frame_id s) (needs_idr s) a (last_timestamp_us s) (frames_recovered s)
    (frames_dropped_awaiting_idr s).
Definition set_needs (s : Reassembly) (n : bool) : Reassembly :=
  mkReassembly (pending s) (pending_order s) (completed s) (completed_order s) (buffered_bytes s)
    (next_frame_id s) n (awaiting_idr s) (last_timestamp_us s) (frames_recovered s)
    (frames_dropped_awaiting_idr s).
Definition set_buffered (s : Reassembly) (b : Z) : Reassembly :=
  set_pending s (pending s) (pending_order s) b.
Definition count_dropped (s : Reassembly) : Reassembly :=
  mkReassembly (pending s) (pending_order s) (completed s) (completed_order s) (buffered_bytes s)
    (next_frame_id s) (needs_idr s) (awaiting_idr s) (last_timestamp_us s) (frames_recovered s)
    (frames_dropped_awaiting_idr s + 1).
Definition set_assembled (s : Reassembly) (ts recovered : Z) : Reassembly :=
  mkReassembly (pending s) (pending_order s) (completed s) (completed_order s) (buffered_bytes s)
    (next_frame_id s) (needs_idr s) (awaiting_idr s) ts recovered (frames_dropped_awaiting_idr s).

(** ** Reassembly *)

Definition discontinue (s : Reassembly) (epoch : Z) (reason : DiscontinuityReason) : Reassembly * list RxEvent :=
  (mkReassembly ∅ [] ∅ [] 0 None true true (last_timestamp_us s) (frames_recovered s)
     (frames_dropped_awaiting_idr s), [Discontinuity epoch reason]).

(** What [deliver_chunk] reads from a chunk of either version. *)
Record Chunk := mkChunk {
  ck_frame_id : Z;
  ck_index : Z;
  ck_count : Z;
  ck_key : bool;
  ck_timestamp_us : Z;
  ck_encoded_len : Z;
  ck_encoded_crc : Z;
  ck_fragment : list Z
}.

Definition parse_delivered (is_v2 : bool) (payload : list Z) : option Chunk :=
  if is_v2 then
    match parse_chunk_v2 payload with
    | Ok (h, fragment) => Some (mkChunk (frame_id h) (chunk_index h) (chunk_count h) (frame_type_key h)
        (timestamp_us h) (encoded_frame_len h) (encoded_frame_crc32 h) fragment)
    | Err _ => None
    end
  else
    match parse_chunk_header payload with
    | Some (h, fragment) =>
        if ((v1_chunk_count h =? 0) || (v1_chunk_count h <=? v1_chunk_index h))%bool then None
        else Some (mkChunk (v1_frame_id h) (v1_chunk_index h) (v1_chunk_count h) (v1_frame_type_key h)
                     (v1_timestamp_us h) 0 0 fragment)
    | None => None
    end.

(** [expected_fragment_len]; [None] is an underflow (or the overflow of [chunk_index + 1]). *)
Definition expected_fragment_len (c : Chunk) : option Z :=
  if u16_max <? ck_index c + 1 then None
  else if ck_index c + 1 =? ck_count c then
    let head := CHUNK_V2_FRAGMENT_MAX * (ck_count c - 1) in
    if ck_encoded_len c <? head then None else Some (ck_encoded_len c - head)
  else Some CHUNK_V2_FRAGMENT_MAX.

(** The silent drops before the reassembly state is touched: [Some false] drops the chunk. *)
Definition chunk_admissible (is_v2 : bool) (c : Chunk) : option bool :=
  if ((ck_count c =? 0) || (V2_CHUNK_COUNT_MAX <? ck_count c) || (ENCODED_FRAME_MAX <? ck_encoded_len c))%bool
  then Some false
  else if is_v2 then
    let expected_count := div_ceil (Z.max (ck_encoded_len c) 1) CHUNK_V2_FRAGMENT_MAX in
    if negb (ck_count c =? expected_count) then Some false
    else
      n ← expected_fragment_len c;
      Some (len (ck_fragment c) =? n)
  else Some true.

Definition new_pending (is_v2 : bool) (c : Chunk) : PendingFrame :=
  mkPending is_v2 (ck_key c) (ck_timestamp_us c) (ck_count c) (ck_encoded_len c) (ck_encoded_crc c)
    (replicate (Z.to_nat (ck_count c)) None) 0 0 false.

Definition metadata_matches (is_v2 : bool) (c : Chunk) (f : PendingFrame) : bool :=
  (Bool.eqb (pf_is_v2 f) is_v2 && Bool.eqb (pf_is_key f) (ck_key c) &&
   (pf_timestamp_us f =? ck_timestamp_us c) && (pf_chunk_count f =? ck_count c) &&
   (pf_encoded_len f =? ck_encoded_len c) && (pf_encoded_crc f =? ck_encoded_crc c))%bool.

Definition add_part (f : PendingFrame) (index : nat) (fragment : list Z) (via_fec : bool) : PendingFrame :=
  mkPending (pf_is_v2 f) (pf_is_key f) (pf_timestamp_us f) (pf_chunk_count f) (pf_encoded_len f)
    (pf_encoded_crc f) (<[index:=Some fragment]> (pf_parts f)) (wrap16 (pf_received f + 1))
    (pf_bytes f + len fragment) (pf_used_recovery f || via_fec)%bool.

(** The frame [key] is registered, or the discontinuity that refuses it. *)
Definition register_frame (s : Reassembly) (epoch : Z) (is_v2 : bool) (c : Chunk) :
  Reassembly + (Reassembly * list RxEvent) :=
  let key := (epoch, ck_frame_id c) in
  match pending s !! key with
  | Some _ => inl s
  | None =>
      if MAX_PENDING_FRAMES <=? len (pending_order s) + len (completed_order s)
      then inr (discontinue s epoch ReassemblyEviction)
      else if RX_DECODER_MAX_BYTES <? sat_add usize_max (buffered_bytes s) (len (ck_fragment c))
      then inr (discontinue s epoch MemoryCap)
      else
        let s := set_pending s (<[key := new_pending is_v2 c]> (pending s)) (pending_order s ++ [key])
                   (buffered_bytes s) in
        if (bool_decide (next_frame_id s = None) && (negb (awaiting_idr s) || ck_key c))%bool
        then inl (set_next s (Some (ck_frame_id c))) else inl s
  end.

(** The completed frame leaves [pending]: dropped while an IDR is awaited, queued otherwise. *)
Definition complete_frame (s : Reassembly) (epoch : Z) (c : Chunk) (f : PendingFrame) (now_ms : Z) :
  option Reassembly :=
  let key := (epoch, ck_frame_id c) in
  let s := set_pending s (delete key (pending s)) (filter (fun k => k <> key) (pending_order s))
             (buffered_bytes s) in
  if (awaiting_idr s && negb (pf_is_key f))%bool then
    if buffered_bytes s <? pf_bytes f then None
    else
      let s := count_dropped (set_buffered s (buffered_bytes s - pf_bytes f)) in
      Some (if bool_decide (next_frame_id s = Some (ck_frame_id c)) then set_next s None else s)
  else
    let s := if pf_is_key f then set_awaiting s false else s in
    Some (set_completed s (<[key := mkCompleted (ck_frame_id c) f now_ms]> (completed s))
            (completed_order s ++ [key])).

(** The chunk is placed in its frame. *)
Definition place_chunk (s : Reassembly) (epoch : Z) (is_v2 : bool) (c : Chunk) (via_fec : bool) (now_ms : Z) :
  option (Reassembly * list RxEvent) :=
  let key := (epoch, ck_frame_id c) in
  match pending s !! key with
  | None => Some (discontinue s epoch MetadataMismatch)
  | Some f =>
      if negb (metadata_matches is_v2 c f) then Some (discontinue s epoch MetadataMismatch)
      else
        let index := Z.to_nat (ck_index c) in
        match pf_parts f !! index with
        | None | Some (Some _) => Some (s, [])
        | Some None =>
            if RX_DECODER_MAX_BYTES <? sat_add usize_max (buffered_bytes s) (len (ck_fragment c))
            then Some (discontinue s epoch MemoryCap)
            else
              let f := add_part f index (ck_fragment c) via_fec in
              let s := set_pending s (<[key := f]> (pending s)) (pending_order s)
                         (buffered_bytes s + len (ck_fragment c)) in
              if negb (pf_received f =? pf_chunk_count f) then Some (s, [])
              else
                s ← complete_frame s epoch c f now_ms;
                Some (s, [])
        end
  end.

Definition deliver_chunk (s : Reassembly) (epoch : Z) (is_v2 : bool) (payload : list Z) (via_fec : bool)
    (now_ms : Z) : option (Reassembly * list RxEvent) :=
  match parse_delivered is_v2 payload with
  | None => Some (s, [])
  | Some c =>
      admissible ← chunk_admissible is_v2 c;
      if negb admissible then Some (s, [])
      else
        match completed s !! (epoch, ck_frame_id c) with
        | Some _ => Some (s, [])
        | None =>
            match register_frame s epoch is_v2 c with
            | inr out => Some out
            | inl s => place_chunk s epoch is_v2 c via_fec now_ms
            end
        end
  end.

(** ** The reorder queue *)

(** The concatenation of the parts; [None] as soon as one is absent. *)
Fixpoint concat_parts (parts : list (option (list Z))) : option (list Z) :=
  match parts with
  | [] => Some []
  | None :: _ => None
  | Some p :: parts => rest ← concat_parts parts; Some (p ++ rest)
  end.

(** The outer [None] is the underflow of [buffered_bytes]; the unit is the code's [Option]. *)
Definition assemble_frame (s : Reassembly) (frame_id : Z) (f : PendingFrame) (epoch : Z) :
  option (Reassembly * list RxEvent * option DecodeUnit) :=
  match concat_parts (pf_parts f) with
  | None => Some (s, [], None)
  | Some data =>
      if buffered_bytes s <? pf_bytes f then None
      else
        let s := set_buffered s (buffered_bytes s - pf_bytes f) in
        let h := mkChunkV2 frame_id 0 (pf_chunk_count f) (pf_is_key f) (pf_timestamp_us f)
                   (pf_encoded_len f) (pf_encoded_crc f) in
        if (pf_is_v2 f && match validate_encoded_frame_v2 h data with Ok _ => false | Err _ => true end)%bool
        then let '(s, events) := discontinue s epoch FrameCrc in Some (s, events, None)
        else
          let recovered := frames_recovered s + if pf_used_recovery f then 1 else 0 in
          let duration_us := pf_timestamp_us f - last_timestamp_us s in
          let s := set_assembled s (pf_timestamp_us f) recovered in
          Some (s, [], Some (mkDecodeUnit frame_id epoch (pf_is_key f) (pf_timestamp_us f) duration_us data))
  end.

Definition frame_events (u : option DecodeUnit) : list RxEvent :=
  match u with Some u => [RxFrame u] | None => [] end.

Definition flush_body (now_ms : Z) (st : Reassembly * list RxEvent) :
  (Reassembly * list RxEvent) + option (Reassembly * list RxEvent) :=
  let '(s, out) := st in
  match head (completed_order s) with
  | None => inr (Some (s, out))
  | Some first_key =>
      match completed s !! first_key with
      | None => inr None
      | Some first =>
          let expected := (fst first_key, default (cf_frame_id first) (next_frame_id s)) in
          match completed s !! expected with
          | None =>
              if ((len (completed_order s) <=? REORDER_MAX_COMPLETED_FRAMES) &&
                  (sat_sub now_ms (cf_completed_at_ms first) <? REORDER_MAX_WAIT_MS))%bool
              then inr (Some (s, out))
              else
                let '(s, events) := discontinue s (fst first_key) ReorderGap in
                inr (Some (s, out ++ events))
          | Some c =>
              let s := set_completed s (delete expected (completed s))
                         (filter (fun k => k <> expected) (completed_order s)) in
              match assemble_frame s (cf_frame_id c) (cf_frame c) (fst expected) with
              | None => inr None
              | Some (s, events, u) =>
                  inl (set_next s (Some (wrap32 (cf_frame_id c + 1))), out ++ events ++ frame_events u)
              end
          end
      end
  end.

Definition flush_reorder (s : Reassembly) (now_ms : Z) : option (Reassembly * list RxEvent) :=
  mjoin (loop_fuel (S (length (completed_order s))) (flush_body now_ms) (s, [])).

(** ** The ACK cadence *)

Definition tick_ack (d : FecDecoder) (a : AckState) (now_ms : Z) : AckState * option Z :=
  match highest_fully_decoded d with
  | None => (a, None)
  | Some hfd =>
      if match last_acked_highest a with Some last => negb (seq_advanced hfd last) | None => false end
      then (a, None)
      else
        let symbols := symbols_since_ack a + 1 in
        let elapsed := sat_sub now_ms (last_ack_time_ms a) in
        if ((ACK_SYMBOL_INTERVAL <=? symbols) || (ACK_TIME_INTERVAL_MS <=? elapsed))%bool
        then (mkAckState 0 now_ms (Some hfd), Some hfd)
        else (mkAckState symbols (last_ack_time_ms a) (last_acked_highest a), None)
  end.

Definition ack_events (a : option Z) : list RxEvent :=
  match a with Some seq => [RxAck seq] | None => [] end.

(** ** The receiver *)

Definition accept_epoch (r : VideoReceiver) (epoch : Z) (is_v2 : bool) (now_ms : Z) :
  VideoReceiver * list RxEvent * bool :=
  match active_epoch r with
  | None => (mkReceiver (rx_decoder r) (Some epoch) (reassembly r) (ack_state r), [], true)
  | Some current =>
      if epoch =? current then (r, [], true)
      else
        let distance := wrap32 (epoch - current) in
        if (is_v2 && ((current =? 0) || (negb (distance =? 0) && (distance <? 2147483648))))%bool
        then
          let '(s, events) := discontinue (reassembly r) epoch EpochTransition in
          (mkReceiver rx_decoder_new (Some epoch) s (mkAckState 0 now_ms None), events, true)
        else (r, [], false)
  end.

Definition is_discontinuity (ev : DecoderEvent) : bool :=
  match ev with LossSpan _ _ | Evicted _ _ => true | Recovered _ _ _ => false end.

(** One decoder event of the loop of [process_decoder_events]. *)
Definition process_event (epoch : Z) (is_v2 : bool) (now_ms : Z) (r : VideoReceiver) (ev : DecoderEvent) :
  option (VideoReceiver * list RxEvent) :=
  match ev with
  | Recovered _ payload via_fec =>
      '(s, events) ← deliver_chunk (reassembly r) epoch is_v2 payload via_fec now_ms;
      let '(a, ack) := tick_ack (rx_decoder r) (ack_state r) now_ms in
      Some (mkReceiver (rx_decoder r) (active_epoch r) s a, events ++ ack_events ack)
  | _ => Some (r, [])
  end.

Fixpoint process_events (epoch : Z) (is_v2 : bool) (now_ms : Z) (r : VideoReceiver) (evs : list DecoderEvent) :
  option (VideoReceiver * list RxEvent) :=
  match evs with
  | [] => Some (r, [])
  | ev :: evs =>
      '(r, out) ← process_event epoch is_v2 now_ms r ev;
      '(r, out') ← process_events epoch is_v2 now_ms r evs;
      Some (r, out ++ out')
  end.

Definition process_decoder_events (epoch : Z) (is_v2 : bool) (now_ms : Z) (r : VideoReceiver)
    (evs : list DecoderEvent) : option (VideoReceiver * list RxEvent) :=
  let '(r, out) :=
    if existsb is_discontinuity evs then
      let '(s, events) := discontinue (reassembly r) epoch FecEviction in
      (mkReceiver (rx_decoder r) (active_epoch r) s (ack_state r), events)
    else (r, []) in
  '(r, out') ← process_events epoch is_v2 now_ms r evs;
  Some (r, out ++ out').

Definition symbol_of (m : ParsedSymbolMsg) : Z * bool * Symbol :=
  match m with
  | SymbolV1 s => (0, false, s)
  | SymbolV2 (V2Source epoch seq payload) => (epoch, true, Source seq payload)
  | SymbolV2 (V2Repair epoch repair_seq window_base window_end payload) =>
      (epoch, true, Repair repair_seq window_base window_end payload)
  end.

Definition flush_receiver (r : VideoReceiver) (now_ms : Z) : option (VideoReceiver * list RxEvent) :=
  '(s, events) ← flush_reorder (reassembly r) now_ms;
  Some (mkReceiver (rx_decoder r) (active_epoch r) s (ack_state r), events).

Definition on_message (r : VideoReceiver) (buf : list Z) (now_ms : Z) : option (VideoReceiver * list RxEvent) :=
  match parse_symbol_msg_versioned buf with
  | Err _ => Some (r, [])
  | Ok parsed =>
      let '(epoch, is_v2, sym) := symbol_of parsed in
      let '(r, out, accepted) := accept_epoch r epoch is_v2 now_ms in
      if negb accepted then Some (r, out)
      else
        '(d, decoder_events) ← push_symbol (rx_decoder r) sym;
        let r := mkReceiver d (active_epoch r) (reassembly r) (ack_state r) in
        '(r, out1) ← process_decoder_events epoch is_v2 now_ms r decoder_events;
        '(r, out2) ← flush_receiver r now_ms;
        Some (r, out ++ out1 ++ out2)
  end.

Definition tick (r : VideoReceiver) (now_ms : Z) : VideoReceiver * option Z :=
  let '(a, ack) := tick_ack (rx_decoder r) (ack_state r) now_ms in
  (mkReceiver (rx_decoder r) (active_epoch r) (reassembly r) a, ack).

Definition tick_events (r : VideoReceiver) (now_ms : Z) : option (VideoReceiver * list RxEvent) :=
  '(r, out) ← flush_receiver r now_ms;
  let '(r, ack) := tick r now_ms in
  Some (r, out ++ ack_events ack).

Definition poll_needs_idr (r : VideoReceiver) : VideoReceiver * bool :=
  (mkReceiver (rx_decoder r) (active_epoch r) (set_needs (reassembly r) false) (ack_state r),
   needs_idr (reassembly r)).

Definition rx_highest_fully_decoded (r : VideoReceiver) : option Z := highest_fully_decoded (rx_decoder r).

Definition rx_stats (r : VideoReceiver) : VideoReceiverStats :=
  let d := FecDecoder.stats (rx_decoder r) in
  mkRxStats (source_symbols_received d) (repair_symbols_received d) (symbols_recovered d)
    (frames_recovered (reassembly r)) (frames_dropped_awaiting_idr (reassembly r))
    (loss_spans d) (loss_spans_recovered d).
