(* ===== verification/VideoRxSafe.v ===== *)
(** * The video receiver is safe

    The reassembly invariant of VideoRx (bounded, consistent, no panic), the
    IDR gate and the frame order as an automaton over the emitted events, and
    the integrity of the frames it presents. *)
From S2P Require Import Prelude Serial Gf256 FecEncoder Gauss FecDecoder DecoderBounds FecWire VideoRx.

(** ** Frames *)

Definition part_bytes (p : option (list Z)) : Z := len (default [] p).
Definition part_present (p : option (list Z)) : Z := match p with Some _ => 1 | None => 0 end.

Record frame_ok (f : PendingFrame) : Prop := {
  fo_count : 1 <= pf_chunk_count f <= 4096;
  fo_parts : len (pf_parts f) = pf_chunk_count f;
  fo_received : pf_received f = sumZ (part_present <$> pf_parts f);
  fo_bytes : pf_bytes f = sumZ (part_bytes <$> pf_parts f)
}.

Lemma sumZ_insert {A} (f : A -> Z) l i x y :
  l !! i = Some x -> sumZ (f <$> <[i:=y]> l) = sumZ (f <$> l) - f x + f y.
Proof.
  revert i. induction l as [|z l IH]; intros [|i] H; try done; cbn in H.
  - injection H as ->. change (<[0%nat:=y]> (x :: l)) with (y :: l). rewrite !fmap_cons, !sumZ_cons. lia.
  - change (<[S i:=y]> (z :: l)) with (z :: <[i:=y]> l). rewrite !fmap_cons, !sumZ_cons, (IH _ H). lia.
Qed.

Lemma sumZ_present_bound l : 0 <= sumZ (part_present <$> l) <= len l.
Proof.
  induction l as [|p l IH]; [done|]. rewrite fmap_cons, len_cons, sumZ_cons.
  destruct p; cbn [part_present]; lia.
Qed.

Lemma part_bytes_nonneg p : 0 <= part_bytes p.
Proof. apply len_nonneg. Qed.

Lemma frame_bytes_nonneg f : frame_ok f -> 0 <= pf_bytes f.
Proof.
  intros H. rewrite (fo_bytes f H). apply sumZ_nonneg, Forall_fmap, Forall_true. intros p. apply part_bytes_nonneg.
Qed.

(** A complete frame concatenates, to as many bytes as were counted. *)
Lemma concat_parts_complete parts :
  sumZ (part_present <$> parts) = len parts ->
  exists data, concat_parts parts = Some data /\ len data = sumZ (part_bytes <$> parts).
Proof.
  induction parts as [|p parts IH]; intros H; [by exists []|].
  pose proof (sumZ_present_bound parts). rewrite fmap_cons, len_cons, sumZ_cons in H. rewrite fmap_cons, sumZ_cons.
  destruct p as [p|]; cbn [part_present] in H; [|lia].
  destruct IH as (data & E & Hl); [lia|]. exists (p ++ data). cbn. rewrite E. cbn. split; [done|].
  rewrite len_app, Hl. done.
Qed.

Lemma new_pending_ok is_v2 c : 1 <= ck_count c <= 4096 -> frame_ok (new_pending is_v2 c).
Proof.
  intros Hc. split; cbn [pf_chunk_count pf_parts pf_received pf_bytes new_pending];
    rewrite ?sumZ_replicate; [done|unfold len; rewrite length_replicate; lia|cbn; lia|].
  change (part_bytes None) with 0. lia.
Qed.

Lemma add_part_ok f i frag v :
  frame_ok f -> pf_parts f !! i = Some None ->
  frame_ok (add_part f i frag v) /\ pf_bytes (add_part f i frag v) = pf_bytes f + len frag /\
  pf_received (add_part f i frag v) = pf_received f + 1.
Proof.
  intros [F1 F2 F3 F4] Hi.
  assert (Hr : wrap16 (pf_received f + 1) = pf_received f + 1).
  { rewrite F3. pose proof (sumZ_present_bound (pf_parts f)). wrap_lia. }
  split; [|done]. split; cbn; rewrite ?Hr.
  - done.
  - unfold len in *. by rewrite length_insert.
  - rewrite (sumZ_insert _ _ _ _ _ Hi). cbn. lia.
  - rewrite (sumZ_insert _ _ _ _ _ Hi). change (part_bytes None) with 0.
    change (part_bytes (Some frag)) with (len frag). lia.
Qed.

(** ** The reassembly invariant, for the active epoch [e] *)

Definition completed_bytes (c : CompletedFrame) : Z := pf_bytes (cf_frame c).

Record ra_ok (e : Z) (s : Reassembly) : Prop := {
  ra_nodup : NoDup (pending_order s ++ completed_order s);
  ra_pending : forall k, k ∈ pending_order s <-> is_Some (pending s !! k);
  ra_completed : forall k, k ∈ completed_order s <-> is_Some (completed s !! k);
  ra_epoch : forall k, k ∈ pending_order s -> fst k = e;
  ra_cap : len (pending_order s) + len (completed_order s) <= 8;
  ra_bytes : buffered_bytes s = map_cost pf_bytes (pending s) + map_cost completed_bytes (completed s);
  ra_limit : buffered_bytes s <= RX_DECODER_MAX_BYTES;
  ra_frames : map_Forall (fun _ f => frame_ok f /\ pf_received f < pf_chunk_count f) (pending s);
  ra_done : map_Forall (fun k c => frame_ok (cf_frame c) /\ pf_received (cf_frame c) = pf_chunk_count (cf_frame c) /\
    k = (e, cf_frame_id c)) (completed s);
  ra_gate : awaiting_idr s = true -> completed_order s = []
}.

(** ** The gate automaton *)

Inductive gate : Type :=
| Fresh
| Closed
| Polluted
| After (epoch id : Z).

(** [Closed]: a discontinuity since the last frame, the next one must be a key
    frame; [After]: the next frame is the successor of the last, in its epoch;
    [Polluted]: a frame failed its CRC, no promise. *)
Definition gate_step (g : gate) (ev : RxEvent) : option gate :=
  match ev with
  | RxAck _ => Some g
  | Discontinuity _ r => Some (if decide (r = FrameCrc) then Polluted else Closed)
  | RxFrame u =>
      let after := After (du_epoch u) (du_frame_id u) in
      match g with
      | Fresh | Polluted => Some after
      | Closed => if du_is_key u then Some after else None
      | After e id => if bool_decide (du_epoch u = e /\ du_frame_id u = wrap32 (id + 1)) then Some after else None
      end
  end.

Fixpoint gate_run (g : gate) (evs : list RxEvent) : option gate :=
  match evs with
  | [] => Some g
  | ev :: evs => g ← gate_step g ev; gate_run g evs
  end.

Lemma gate_run_app g l k : gate_run g (l ++ k) = (g ← gate_run g l; gate_run g k).
Proof. revert g. induction l as [|ev l IH]; intros g; [done|]. cbn. destruct (gate_step g ev); [apply IH|done]. Qed.

Definition pending_key (e : Z) (s : Reassembly) (k : Z) : Prop :=
  exists f, pending s !! (e, k) = Some f /\ pf_is_key f = true.
Definition completed_key (e : Z) (s : Reassembly) (k : Z) : Prop :=
  exists c, completed s !! (e, k) = Some c /\ pf_is_key (cf_frame c) = true.

(** What the state promises in each gate. *)
Definition gate_inv (g : gate) (e : Z) (s : Reassembly) : Prop :=
  match g with
  | Fresh | Polluted => True
  | Closed =>
      if awaiting_idr s then
        match next_frame_id s with
        | None => forall k, ~ pending_key e s k
        | Some k => pending_key e s k
        end
      else exists k, next_frame_id s = Some k /\ (pending_key e s k \/ completed_key e s k)
  | After e' id => e' = e /\ awaiting_idr s = false /\ next_frame_id s = Some (wrap32 (id + 1))
  end.

(** A step of the receiver in gate [g], to state [s] with events [evs]. *)
Definition step_ok (e : Z) (g : gate) (s : Reassembly) (evs : list RxEvent) : Prop :=
  ra_ok e s /\ exists g', gate_run g evs = Some g' /\ gate_inv g' e s.

Lemma step_quiet e g s : ra_ok e s -> gate_inv g e s -> step_ok e g s [].
Proof. intros H1 H2. split; [done|]. by exists g. Qed.

Lemma discontinue_ok e e' g s r : step_ok e' g (discontinue s e r).1 (discontinue s e r).2.
Proof.
  split.
  - split; cbn; rewrite ?map_cost_empty; auto; try done;
      try apply NoDup_nil_2; try (by intros k x; rewrite lookup_empty).
    + intros k. rewrite lookup_empty, elem_of_nil. split; [done|by intros []].
    + intros k. rewrite lookup_empty, elem_of_nil. split; [done|by intros []].
    + by intros k ?%elem_of_nil.
  - cbn. eexists. split; [done|]. case_decide; cbn; [done|]. intros k (f & Hf & _). cbn in Hf. by rewrite lookup_empty in Hf.
Qed.

Ltac step_disc := first [eapply discontinue_ok | apply discontinue_ok].

(** ** Registration of a frame *)

Definition chunk_in_range (c : Chunk) : Prop := 1 <= ck_count c <= 4096 /\ 0 <= ck_index c < ck_count c.

Lemma set_next_ok e s n : ra_ok e s -> ra_ok e (set_next s n).
Proof. intros []. by split. Qed.

(** The entry a new frame gets. *)
Definition insert_pending (s : Reassembly) (key : Z * Z) (f : PendingFrame) : Reassembly :=
  set_pending s (<[key := f]> (pending s)) (pending_order s ++ [key]) (buffered_bytes s).

Lemma insert_pending_ok e s fid f :
  ra_ok e s -> pending s !! (e, fid) = None -> completed s !! (e, fid) = None ->
  len (pending_order s) + len (completed_order s) < 8 ->
  frame_ok f -> pf_received f < pf_chunk_count f -> pf_bytes f = 0 ->
  ra_ok e (insert_pending s (e, fid) f).
Proof.
  intros [R1 R2 R3 R4 R5 R6 R7 R8 R9 R10] Hp Hc Hlen Hf Hr Hb.
  assert (Hnp : (e, fid) ∉ pending_order s) by (rewrite R2, Hp; by intros []).
  assert (Hnc : (e, fid) ∉ completed_order s) by (rewrite R3, Hc; by intros []).
  unfold insert_pending. split; cbn; auto.
  - rewrite <- app_assoc. apply NoDup_app in R1 as (N1 & N2 & N3). apply NoDup_app. split; [done|]. split.
    + intros k Hk [->|Hk']%elem_of_cons; [done|by apply (N2 k)].
    + by apply NoDup_cons.
  - intros k. rewrite elem_of_app, list_elem_of_singleton. destruct (decide (k = (e, fid))) as [->|Hne].
    + rewrite lookup_insert_eq. split; [eauto|by right].
    + rewrite lookup_insert_ne by done. rewrite <- R2. tauto.
  - intros k [Hk| ->%list_elem_of_singleton]%elem_of_app; auto.
  - rewrite len_snoc. lia.
  - rewrite map_cost_insert_new by done. lia.
  - apply map_Forall_insert_2; auto.
Qed.

Lemma gate_insert_pending g e s fid f :
  gate_inv g e s -> pending s !! (e, fid) = None ->
  gate_inv g e (if (bool_decide (next_frame_id s = None) && (negb (awaiting_idr s) || pf_is_key f))%bool
    then set_next (insert_pending s (e, fid) f) (Some fid) else insert_pending s (e, fid) f).
Proof.
  intros Hg Hp.
  assert (Hkeep : forall k, pending_key e s k -> pending_key e (insert_pending s (e, fid) f) k).
  { intros k (f' & Hf' & Hk). exists f'. split; [|done]. cbn. rewrite lookup_insert_ne; [done|]. congruence. }
  destruct g as [| | |e' id]; cbn [gate_inv] in *; try done.
  - (* Closed *)
    destruct (awaiting_idr s) eqn:Ea; cbn [negb orb].
    + destruct (next_frame_id s) as [k|] eqn:En; cbn [andb].
      * rewrite bool_decide_eq_false_2 by done. cbn [andb]. unfold insert_pending at 1. cbn. rewrite Ea, En. by apply Hkeep.
      * rewrite bool_decide_eq_true_2 by done. cbn [andb]. destruct (pf_is_key f) eqn:Ek; cbn; rewrite Ea.
        -- exists f. split; [apply lookup_insert_eq|done].
        -- rewrite En. intros k (f' & Hf' & Hk). cbn in Hf'. destruct (decide (k = fid)) as [->|Hne].
           ++ rewrite lookup_insert_eq in Hf'. congruence.
           ++ rewrite lookup_insert_ne in Hf' by congruence. apply (Hg k). by exists f'.
    + destruct Hg as (k & En & Hk). rewrite bool_decide_eq_false_2 by congruence. cbn. rewrite Ea.
      exists k. split; [done|]. destruct Hk as [Hk|Hk]; [left; by apply Hkeep|by right].
  - (* After *)
    destruct Hg as (-> & Ea & En). rewrite bool_decide_eq_false_2 by congruence. done.
Qed.

Lemma register_frame_ok e g s is_v2 c :
  ra_ok e s -> gate_inv g e s -> chunk_in_range c -> completed s !! (e, ck_frame_id c) = None ->
  match register_frame s e is_v2 c with
  | inl s' => ra_ok e s' /\ gate_inv g e s' /\ is_Some (pending s' !! (e, ck_frame_id c)) /\
      completed s' = completed s
  | inr (s', evs) => step_ok e g s' evs
  end.
Proof.
  intros HR HG [Hc Hi] Hcomp. unfold register_frame.
  destruct (pending s !! (e, ck_frame_id c)) as [f|] eqn:Ep; [eauto|].
  case_test; [step_disc|]. case_test; [step_disc|].
  assert (Hins : ra_ok e (insert_pending s (e, ck_frame_id c) (new_pending is_v2 c))).
  { unfold MAX_PENDING_FRAMES in *. apply insert_pending_ok; auto; [by apply new_pending_ok|cbn; lia]. }
  pose proof (gate_insert_pending g e s (ck_frame_id c) (new_pending is_v2 c) HG Ep) as HG'.
  fold (insert_pending s (e, ck_frame_id c) (new_pending is_v2 c)).
  change (pf_is_key (new_pending is_v2 c)) with (ck_key c) in HG'.
  change (next_frame_id (insert_pending s (e, ck_frame_id c) (new_pending is_v2 c))) with (next_frame_id s).
  change (awaiting_idr (insert_pending s (e, ck_frame_id c) (new_pending is_v2 c))) with (awaiting_idr s).
  assert (Hsome : is_Some (pending (insert_pending s (e, ck_frame_id c) (new_pending is_v2 c)) !! (e, ck_frame_id c)))
    by (cbn; rewrite lookup_insert_eq; eauto).
  destruct (bool_decide (next_frame_id s = None) && _)%bool;
    (split; [by try apply set_next_ok|split; [done|split; done]]).
Qed.

(** ** Placing a chunk *)

Definition update_pending (s : Reassembly) (key : Z * Z) (f : PendingFrame) (b : Z) : Reassembly :=
  set_pending s (<[key := f]> (pending s)) (pending_order s) b.

(** The invariant while the frame [key] may be complete but still in [pending]. *)
Record ra_almost (e : Z) (key : Z * Z) (s : Reassembly) : Prop := {
  al_nodup : NoDup (pending_order s ++ completed_order s);
  al_pending : forall k, k ∈ pending_order s <-> is_Some (pending s !! k);
  al_completed : forall k, k ∈ completed_order s <-> is_Some (completed s !! k);
  al_epoch : forall k, k ∈ pending_order s -> fst k = e;
  al_cap : len (pending_order s) + len (completed_order s) <= 8;
  al_bytes : buffered_bytes s = map_cost pf_bytes (pending s) + map_cost completed_bytes (completed s);
  al_limit : buffered_bytes s <= RX_DECODER_MAX_BYTES;
  al_frames : map_Forall (fun k f => frame_ok f /\ (k <> key -> pf_received f < pf_chunk_count f)) (pending s);
  al_done : map_Forall (fun k c => frame_ok (cf_frame c) /\ pf_received (cf_frame c) = pf_chunk_count (cf_frame c) /\
    k = (e, cf_frame_id c)) (completed s);
  al_gate : awaiting_idr s = true -> completed_order s = []
}.

Lemma update_pending_ok e s key f f' b :
  ra_ok e s -> pending s !! key = Some f -> frame_ok f' -> pf_bytes f' = pf_bytes f + b ->
  buffered_bytes s + b <= RX_DECODER_MAX_BYTES ->
  ra_almost e key (update_pending s key f' (buffered_bytes s + b)).
Proof.
  intros [R1 R2 R3 R4 R5 R6 R7 R8 R9 R10] Hp Hf Hb Hl. unfold update_pending. split; cbn; auto.
  - intros k. rewrite R2. destruct (decide (k = key)) as [->|Hne]; [by rewrite lookup_insert_eq, Hp; split; eauto|].
    by rewrite lookup_insert_ne.
  - rewrite (map_cost_insert_old _ _ _ _ _ Hp). lia.
  - intros k f0 Hk. destruct (decide (k = key)) as [->|Hne].
    + rewrite lookup_insert_eq in Hk. simplify_eq. by split.
    + rewrite lookup_insert_ne in Hk by done. destruct (R8 _ _ Hk). auto.
Qed.

Lemma almost_incomplete e key s f :
  ra_almost e key s -> pending s !! key = Some f -> pf_received f < pf_chunk_count f -> ra_ok e s.
Proof.
  intros [R1 R2 R3 R4 R5 R6 R7 R8 R9 R10] Hp Hf. split; auto.
  intros k f0 Hk. destruct (R8 _ _ Hk) as [H1 H2]. split; [done|].
  destruct (decide (k = key)) as [->|Hne]; [congruence|auto].
Qed.

Lemma delete_pending_ok e key s :
  ra_almost e key s -> is_Some (pending s !! key) ->
  let o := filter (fun k => k <> key) (pending_order s) in
  NoDup (o ++ completed_order s) /\ (forall k, k ∈ o <-> is_Some (delete key (pending s) !! k)) /\
  (forall k, k ∈ o -> fst k = e) /\ len o + 1 = len (pending_order s) /\ key ∉ o /\ key ∉ completed_order s /\
  map_Forall (fun _ f => frame_ok f /\ pf_received f < pf_chunk_count f) (delete key (pending s)).
Proof.
  intros [R1 R2 R3 R4 R5 R6 R7 R8 R9 R10] Hk o. pose proof R1 as (N1 & N2 & N3)%NoDup_app.
  assert (Ho : forall k, k ∈ o <-> k <> key /\ k ∈ pending_order s) by (intros; apply (list_elem_of_filter (fun k => k <> key))).
  split; [|split; [|split; [|split; [|split; [|split]]]]].
  - apply NoDup_app. split; [by apply NoDup_filter|]. split; [|done]. intros k Hin. apply Ho in Hin as [_ Hin]. by apply N2.
  - intros k. rewrite Ho, R2. destruct (decide (k = key)) as [->|Hne].
    + rewrite lookup_delete_eq. split; [tauto|by intros []].
    + rewrite lookup_delete_ne by done. tauto.
  - intros k Hin. apply Ho in Hin as [_ Hin]. auto.
  - assert (Hp : pending_order s ≡ₚ key :: o).
    { apply NoDup_Permutation; [done| |].
      - apply NoDup_cons. split; [rewrite Ho; tauto|by apply NoDup_filter].
      - intros k. rewrite elem_of_cons, Ho. destruct (decide (k = key)) as [->|]; [|tauto].
        split; [by left|]. intros _. by apply R2. }
    unfold len. rewrite Hp. cbn. lia.
  - rewrite Ho. tauto.
  - apply N2. by apply R2.
  - intros k f Hf. apply lookup_delete_Some in Hf as [Hne Hf]. destruct (R8 _ _ Hf). auto.
Qed.

Lemma frames_cost_nonneg (P : Z * Z -> PendingFrame -> Prop) m :
  (forall k f, P k f -> frame_ok f) -> map_Forall P m -> 0 <= map_cost pf_bytes m.
Proof.
  intros HP H. induction m as [|k x m Hk IH] using map_ind; [by rewrite map_cost_empty|].
  rewrite map_cost_insert_new by done. apply map_Forall_insert in H as [Hx H]; [|done].
  pose proof (frame_bytes_nonneg x (HP _ _ Hx)). specialize (IH H). lia.
Qed.

Lemma completed_cost_nonneg (P : Z * Z -> CompletedFrame -> Prop) m :
  (forall k c, P k c -> frame_ok (cf_frame c)) -> map_Forall P m -> 0 <= map_cost completed_bytes m.
Proof.
  intros HP H. induction m as [|k x m Hk IH] using map_ind; [by rewrite map_cost_empty|].
  rewrite map_cost_insert_new by done. apply map_Forall_insert in H as [Hx H]; [|done].
  pose proof (frame_bytes_nonneg _ (HP _ _ Hx)). specialize (IH H). unfold completed_bytes at 1. lia.
Qed.

Lemma complete_frame_ok e g s c f now :
  let key := (e, ck_frame_id c) in
  ra_almost e key s -> gate_inv g e s -> pending s !! key = Some f -> pf_received f = pf_chunk_count f ->
  exists s', complete_frame s e c f now = Some s' /\ step_ok e g s' [].
Proof.
  intros key HA HG Hp Hr. pose proof (delete_pending_ok e key s HA ltac:(eauto)) as (D1 & D2 & D3 & D4 & D5 & D6 & D7).
  destruct HA as [R1 R2 R3 R4 R5 R6 R7 R8 R9 R10]. destruct (R8 _ _ Hp) as [Hf _].
  pose proof (map_cost_delete pf_bytes _ _ _ Hp) as Hcost. pose proof (frame_bytes_nonneg f Hf) as Hfb.
  assert (Hrest := frames_cost_nonneg _ _ (fun _ _ H => proj1 H) D7).
  assert (Hcomp := completed_cost_nonneg _ _ (fun _ _ H => proj1 H) R9).
  unfold complete_frame. fold key. cbn [awaiting_idr set_pending buffered_bytes].
  destruct (awaiting_idr s && negb (pf_is_key f))%bool eqn:Ed.
  - (* dropped *)
    apply andb_true_iff in Ed as [Ea Ek%negb_true_iff].
    rewrite (proj2 (Z.ltb_ge (buffered_bytes s) (pf_bytes f))) by lia. eexists. split; [reflexivity|].
    assert (Hdrop : forall n, ra_ok e (set_next (count_dropped (set_buffered (set_pending s (delete key (pending s))
      (filter (fun k => k <> key) (pending_order s)) (buffered_bytes s)) (buffered_bytes s - pf_bytes f))) n)).
    { intros n. split; cbn; auto; lia. }
    case_bool_decide as En.
    + split; [apply Hdrop|]. exists g. split; [done|]. destruct g as [| | |e' id]; cbn [gate_inv] in *; try done.
      * rewrite Ea in HG. cbn in En. rewrite En in HG. destruct HG as (f' & Hf' & Hk'). fold key in Hf'. congruence.
      * destruct HG as (_ & ? & _). congruence.
    + split; [apply (Hdrop (next_frame_id s))|]. exists g. split; [done|].
      destruct g as [| | |e' id]; cbn [gate_inv] in *; try done.
      * cbn in *. rewrite Ea in *. destruct (next_frame_id s) as [k|].
        -- destruct HG as (f' & Hf' & Hk'). exists f'. split; [|done]. cbn. rewrite lookup_delete_ne; [done|]. congruence.
        -- intros k (f' & Hf' & Hk'). cbn in Hf'. apply lookup_delete_Some in Hf' as [_ Hf']. apply (HG k). by exists f'.
  - (* queued *)
    eexists. split; [reflexivity|].
    assert (Hq : forall a, (a = true -> pf_is_key f = false /\ awaiting_idr s = true) -> a = false ->
      ra_ok e (set_completed (set_awaiting (set_pending s (delete key (pending s))
        (filter (fun k => k <> key) (pending_order s)) (buffered_bytes s)) a)
        (<[key := mkCompleted (ck_frame_id c) f now]> (completed s)) (completed_order s ++ [key]))).
    { intros a _ ->. split; cbn; auto.
      - apply NoDup_app in D1 as (N1 & N2 & N3). apply NoDup_app. split; [done|]. split.
        + intros k Hk [Hk'| ->%list_elem_of_singleton]%elem_of_app; [by apply (N2 k)|done].
        + apply NoDup_app. split; [done|]. split; [|apply NoDup_singleton]. by intros k Hk ->%list_elem_of_singleton.
      - intros k. rewrite elem_of_app, list_elem_of_singleton, R3. destruct (decide (k = key)) as [->|Hne].
        + rewrite lookup_insert_eq. split; [eauto|by right].
        + rewrite lookup_insert_ne by done. tauto.
      - rewrite len_snoc. lia.
      - assert (Hnone : completed s !! key = None) by (apply eq_None_not_Some; by rewrite <- R3).
        rewrite map_cost_insert_new by done. unfold completed_bytes at 1. cbn. lia.
      - apply map_Forall_insert_2; [|done]. by split.
      - done. }
    destruct (pf_is_key f) eqn:Ek.
    + split; [by apply Hq|]. exists g. split; [done|]. destruct g as [| | |e' id]; cbn [gate_inv] in *; try done; cbn.
      * assert (Hmove : forall k, pending_key e s k ->
          pending_key e (set_completed (set_awaiting (set_pending s (delete key (pending s))
            (filter (fun k => k <> key) (pending_order s)) (buffered_bytes s)) false)
            (<[key := mkCompleted (ck_frame_id c) f now]> (completed s)) (completed_order s ++ [key])) k \/
          completed_key e (set_completed (set_awaiting (set_pending s (delete key (pending s))
            (filter (fun k => k <> key) (pending_order s)) (buffered_bytes s)) false)
            (<[key := mkCompleted (ck_frame_id c) f now]> (completed s)) (completed_order s ++ [key])) k).
        { intros k (f' & Hf' & Hk'). destruct (decide ((e, k) = key)) as [E|Hne].
          - right. eexists. cbn. rewrite E, lookup_insert_eq. split; [done|exact Ek].
          - left. exists f'. cbn. by rewrite lookup_delete_ne. }
        destruct (awaiting_idr s).
        -- destruct (next_frame_id s) as [k|]; [exists k; auto|]. exfalso. apply (HG (ck_frame_id c)). by exists f.
        -- destruct HG as (k & En & [Hk|(c' & Hc' & Hk')]); exists k; (split; [done|]); [auto|].
           right. exists c'. cbn. rewrite lookup_insert_ne; [done|]. intros E. rewrite <- E in Hc'.
           apply D6. apply R3. by rewrite Hc'.
      * by destruct HG as (-> & _ & En).
    + cbn in Ed. rewrite andb_true_r in Ed.
      replace (set_pending s (delete key (pending s)) (filter (fun k => k <> key) (pending_order s)) (buffered_bytes s))
        with (set_awaiting (set_pending s (delete key (pending s)) (filter (fun k => k <> key) (pending_order s))
          (buffered_bytes s)) false) by (unfold set_awaiting; cbn; by rewrite <- Ed).
      split; [by apply Hq|]. exists g. split; [done|]. destruct g as [| | |e' id]; cbn [gate_inv] in *; try done; cbn.
      * rewrite Ed in HG. destruct HG as (k & En & [(f' & Hf' & Hk')|(c' & Hc' & Hk')]); exists k; (split; [done|]).
        -- left. exists f'. cbn. rewrite lookup_delete_ne; [done|]. intros E. rewrite <- E in Hf'. congruence.
        -- right. exists c'. cbn. rewrite lookup_insert_ne; [done|]. intros E. rewrite <- E in Hc'.
           apply D6. apply R3. by rewrite Hc'.
      * by destruct HG as (-> & _ & En).
Qed.

Lemma gate_update_pending g e s fid f f' b :
  gate_inv g e s -> pending s !! (e, fid) = Some f -> pf_is_key f' = pf_is_key f ->
  gate_inv g e (update_pending s (e, fid) f' b).
Proof.
  intros HG Hp Hk.
  assert (Hkey : forall k, pending_key e s k <-> pending_key e (update_pending s (e, fid) f' b) k).
  { intros k. unfold pending_key. cbn. destruct (decide (k = fid)) as [->|Hne].
    - rewrite lookup_insert_eq, Hp. split; intros (x & [= <-] & H); eexists; (split; [done|congruence]).
    - by rewrite lookup_insert_ne by congruence. }
  destruct g as [| | |e' id]; cbn [gate_inv] in *; try done. cbn.
  destruct (awaiting_idr s).
  - destruct (next_frame_id s) as [k|]; [by apply Hkey|]. intros k. rewrite <- Hkey. apply HG.
  - destruct HG as (k & En & [Hk'|Hk']); exists k; (split; [done|]); [left; by apply Hkey|by right].
Qed.

Lemma place_chunk_ok e g s is_v2 c v now :
  ra_ok e s -> gate_inv g e s -> chunk_in_range c -> is_Some (pending s !! (e, ck_frame_id c)) ->
  exists s' evs, place_chunk s e is_v2 c v now = Some (s', evs) /\ step_ok e g s' evs.
Proof.
  intros HR HG [Hc Hi] [f Hp]. unfold place_chunk. rewrite Hp.
  assert (Hdisc : forall r, exists s' evs, Some (discontinue s e r) = Some (s', evs) /\ step_ok e g s' evs).
  { intros r. eexists _, _. split; [reflexivity|]. apply discontinue_ok. }
  destruct (negb (metadata_matches is_v2 c f)) eqn:Em; [apply Hdisc|].
  destruct (pf_parts f !! Z.to_nat (ck_index c)) as [[p|]|] eqn:Ei;
    [eexists _, _; split; [done|by apply step_quiet]| |eexists _, _; split; [done|by apply step_quiet]].
  case_test; [apply Hdisc|].
  destruct (ra_frames _ _ HR _ _ Hp) as [Hf Hr].
  destruct (add_part_ok f (Z.to_nat (ck_index c)) (ck_fragment c) v Hf Ei) as (Hf' & Hb' & Hr').
  assert (Hlim : buffered_bytes s + len (ck_fragment c) <= RX_DECODER_MAX_BYTES).
  { unfold RX_DECODER_MAX_BYTES in *. pose proof (len_nonneg (ck_fragment c)). wrap_lia. }
  pose proof (update_pending_ok e s _ f _ (len (ck_fragment c)) HR Hp Hf' Hb' Hlim) as HA.
  pose proof (gate_update_pending g e s (ck_frame_id c) f (add_part f (Z.to_nat (ck_index c)) (ck_fragment c) v)
    (buffered_bytes s + len (ck_fragment c)) HG Hp eq_refl) as HG'.
  set (f' := add_part f (Z.to_nat (ck_index c)) (ck_fragment c) v) in *.
  assert (Hp' : pending (update_pending s (e, ck_frame_id c) f' (buffered_bytes s + len (ck_fragment c))) !!
    (e, ck_frame_id c) = Some f') by apply lookup_insert_eq.
  fold (update_pending s (e, ck_frame_id c) f' (buffered_bytes s + len (ck_fragment c))).
  change (pf_chunk_count f) with (pf_chunk_count f') in Hr.
  case_test.
  - eexists _, _. split; [done|]. apply step_quiet; [|done]. eapply almost_incomplete; [exact HA|exact Hp'|lia].
  - destruct (complete_frame_ok e g _ c f' now HA HG' Hp') as (s' & E & Hs); [done|].
    rewrite E. by exists s', [].
Qed.

(** ** [deliver_chunk] *)

Lemma parse_delivered_range is_v2 payload c :
  bytes payload -> parse_delivered is_v2 payload = Some c ->
  0 <= ck_index c < ck_count c /\ 0 <= ck_encoded_len c.
Proof.
  intros Hb. unfold parse_delivered. destruct is_v2.
  - destruct (parse_chunk_v2 payload) as [[h fr]|] eqn:E; [|done]. intros [= <-]. cbn.
    destruct (parse_chunk_v2_inv _ _ _ Hb E) as [(H1 & H2 & H3 & H4 & H5 & H6) Henc].
    unfold encode_chunk_v2 in Henc. destruct (validate_chunk_v2 h fr) as [[]|] eqn:Hv; [|done].
    unfold in_u in *. apply validate_chunk_v2_ok in Hv; lia.
  - destruct (parse_chunk_header payload) as [[h fr]|] eqn:E; [|done]. case_test; [done|]. intros [= <-]. cbn.
    unfold parse_chunk_header in E. destruct (len payload <? CHUNK_HEADER_LEN); [done|]. injection E as <- <-.
    cbn [v1_chunk_index v1_chunk_count] in *. reflect_bools.
    pose proof (le_field_nonneg payload 4 6 Hb). cbn [ck_index ck_count ck_encoded_len]. lia.
Qed.

Lemma chunk_admissible_ok is_v2 c :
  0 <= ck_index c < ck_count c -> 0 <= ck_encoded_len c ->
  exists b, chunk_admissible is_v2 c = Some b /\ (b = true -> chunk_in_range c).
Proof.
  intros Hi Hl. unfold chunk_admissible, V2_CHUNK_COUNT_MAX, ENCODED_FRAME_MAX.
  destruct ((ck_count c =? 0) || (4096 <? ck_count c) || (4 * 1024 * 1024 <? ck_encoded_len c))%bool eqn:E0; [by exists false|].
  reflect_bools. assert (Hr : chunk_in_range c) by (unfold chunk_in_range; lia).
  destruct is_v2; [|by exists true]. destruct (negb _) eqn:En; [by exists false|]. reflect_bools.
  unfold div_ceil, CHUNK_V2_FRAGMENT_MAX in En.
  assert (Hn : exists n, expected_fragment_len c = Some n).
  { unfold expected_fragment_len, CHUNK_V2_FRAGMENT_MAX, u16_max.
    case_test; [unfold chunk_in_range in Hr; lia|]. case_test; [|eauto]. case_test; [|eauto].
    exfalso. Z.div_mod_to_equations. lia. }
  destruct Hn as [n ->]. cbn. eauto.
Qed.

Lemma deliver_chunk_ok e g s is_v2 payload v now :
  ra_ok e s -> gate_inv g e s -> bytes payload ->
  exists s' evs, deliver_chunk s e is_v2 payload v now = Some (s', evs) /\ step_ok e g s' evs.
Proof.
  intros HR HG Hb. unfold deliver_chunk.
  assert (Hq : exists s' evs, Some (s, @nil RxEvent) = Some (s', evs) /\ step_ok e g s' evs)
    by (eexists _, _; split; [done|by apply step_quiet]).
  destruct (parse_delivered is_v2 payload) as [c|] eqn:Ec; [|done].
  destruct (parse_delivered_range _ _ _ Hb Ec) as [Hi Hl].
  destruct (chunk_admissible_ok is_v2 c Hi Hl) as (b & -> & Hr). cbn [mbind option_bind].
  destruct b; cbn [negb]; [|done]. specialize (Hr eq_refl).
  destruct (completed s !! (e, ck_frame_id c)) as [cf|] eqn:Ecf; [done|].
  pose proof (register_frame_ok e g s is_v2 c HR HG Hr Ecf) as H.
  destruct (register_frame s e is_v2 c) as [s1|[s1 evs1]]; [|eauto].
  destruct H as (H1 & H2 & H3 & _). by apply place_chunk_ok.
Qed.

(** ** The reorder queue *)

(** The completed frame [k] leaves the queue with its bytes. *)
Definition dequeue (s : Reassembly) (k : Z * Z) (c : CompletedFrame) : Reassembly :=
  set_buffered (set_completed s (delete k (completed s)) (filter (fun k' => k' <> k) (completed_order s)))
    (buffered_bytes s - completed_bytes c).

Lemma dequeue_ok e s k c :
  ra_ok e s -> completed s !! k = Some c ->
  ra_ok e (dequeue s k c) /\ completed_bytes c <= buffered_bytes s /\
  (length (completed_order (dequeue s k c)) < length (completed_order s))%nat.
Proof.
  intros [R1 R2 R3 R4 R5 R6 R7 R8 R9 R10] Hk.
  pose proof (map_cost_delete completed_bytes _ _ _ Hk) as Hcost.
  assert (Hp : 0 <= map_cost pf_bytes (pending s)) by (eapply frames_cost_nonneg, R8; by intros ?? []).
  assert (R9' := map_Forall_delete _ _ k R9).
  assert (Hc : 0 <= map_cost completed_bytes (delete k (completed s)))
    by (eapply completed_cost_nonneg, R9'; by intros ?? []).
  assert (Hcb : 0 <= completed_bytes c) by (apply frame_bytes_nonneg, (R9 _ _ Hk)).
  pose proof R1 as (N1 & N2 & N3)%NoDup_app.
  assert (Hlen : (length (filter (fun k' => k' <> k) (completed_order s)) < length (completed_order s))%nat).
  { apply length_filter_lt with k; [apply R3; eauto|tauto]. }
  unfold dequeue. split; [|cbn; split; [lia|done]]. split; cbn; auto.
  - apply NoDup_app. split; [done|]. split; [|by apply NoDup_filter].
    intros k' Hk' [_ Hin]%list_elem_of_filter. by apply (N2 k').
  - intros k'. rewrite list_elem_of_filter, R3. destruct (decide (k' = k)) as [->|Hne].
    + rewrite lookup_delete_eq. split; [tauto|by intros []].
    + rewrite lookup_delete_ne by done. tauto.
  - unfold len in *. lia.
  - lia.
  - lia.
  - intros Ha. by rewrite (R10 Ha).
Qed.

(** What a dequeued frame assembles to: the unit, or a CRC discontinuity. *)
Lemma assemble_frame_ok e g s k c :
  ra_ok e s -> gate_inv g e s -> completed s !! k = Some c ->
  k = (e, default (cf_frame_id c) (next_frame_id s)) ->
  exists s' evs u, assemble_frame (set_completed s (delete k (completed s))
      (filter (fun k' => k' <> k) (completed_order s))) (cf_frame_id c) (cf_frame c) (fst k) = Some (s', evs, u) /\
    step_ok e g (set_next s' (Some (wrap32 (cf_frame_id c + 1)))) (evs ++ frame_events u) /\
    (length (completed_order s') < length (completed_order s))%nat.
Proof.
  intros HR HG Hk Hid. destruct (dequeue_ok e s k c HR Hk) as (HD & Hle & Hlen).
  destruct (ra_done _ _ HR _ _ Hk) as (Hf & Hrec & Hke). cbn in Hke.
  destruct (concat_parts_complete (pf_parts (cf_frame c))) as (data & Ed & Hdl).
  { rewrite <- (fo_received _ Hf), (fo_parts _ Hf). done. }
  unfold assemble_frame. rewrite Ed. cbn [buffered_bytes set_completed].
  unfold completed_bytes in Hle. rewrite (proj2 (Z.ltb_ge _ _)) by done.
  match goal with |- context [if ?b then _ else _] => destruct b end.
  - (* the CRC or the length is wrong *)
    eexists _, _, None. split; [reflexivity|]. cbn [frame_events]. rewrite app_nil_r. split.
    + destruct (discontinue_ok (fst k) e g (dequeue s k c) FrameCrc) as [H1 (g' & H2 & H3)].
      split; [by apply set_next_ok|]. exists g'. split; [done|]. cbn in H2. destruct g; by simplify_eq.
    + cbn. destruct (completed_order s); cbn in *; lia.
  - eexists _, [], (Some _). split; [reflexivity|]. cbn [frame_events app]. split; [|exact Hlen].
    split.
    { apply set_next_ok. destruct HD. by split. }
    assert (Hna : awaiting_idr s = false).
    { destruct (awaiting_idr s) eqn:Ea; [|done]. pose proof (ra_gate _ _ HR Ea) as Hn.
      assert (k ∈ completed_order s) as Hin by (apply (ra_completed _ _ HR); eauto). rewrite Hn in Hin. by apply elem_of_nil in Hin. }
    exists (After (fst k) (cf_frame_id c)). cbn [gate_run gate_step mbind option_bind].
    split; [|rewrite Hke; cbn; rewrite Hna; done].
    destruct g as [| | |e' id]; cbn [gate_inv gate_step du_epoch du_frame_id du_is_key] in *; try done.
    + rewrite Hna in HG. destruct HG as (j & En & HK). rewrite En in Hid. cbn in Hid.
      assert (Hck : pf_is_key (cf_frame c) = true).
      { destruct HK as [(f & Hpf & _)|(c' & Hc' & Hk')].
        - exfalso. pose proof (ra_nodup _ _ HR) as (_ & N2 & _)%NoDup_app. apply (N2 k).
          + apply (ra_pending _ _ HR). rewrite Hid. eauto.
          + apply (ra_completed _ _ HR). eauto.
        - rewrite <- Hid in Hc'. congruence. }
      by rewrite Hck.
    + destruct HG as (-> & _ & En). rewrite En in Hid. cbn in Hid. rewrite bool_decide_eq_true_2; [done|].
      split; [by rewrite Hid|]. rewrite Hid in Hke. by injection Hke as <-.
Qed.

(** The events of a step are appended to those already emitted. *)
Definition flush_inv (e : Z) (g : gate) (n : nat) (st : Reassembly * list RxEvent) : Prop :=
  (n = length (completed_order st.1)) /\ step_ok e g st.1 st.2.

Lemma step_ok_app e g out evs s' g' :
  gate_run g out = Some g' -> step_ok e g' s' evs -> step_ok e g s' (out ++ evs).
Proof.
  intros H1 [H2 (g2 & H3 & H4)]. split; [done|]. exists g2. by rewrite gate_run_app, H1.
Qed.

Lemma flush_body_step e g now n st st' :
  flush_inv e g n st -> flush_body now st = inl st' -> exists m, (m < n)%nat /\ flush_inv e g m st'.
Proof.
  destruct st as [s out]. intros [-> [HR (g' & Hg & HG)]] H. cbn [fst snd] in *. unfold flush_body in H.
  destruct (head (completed_order s)) as [k0|] eqn:Eh; [|done].
  destruct (completed s !! k0) as [first|] eqn:E0; [|done].
  pose proof (ra_done _ _ HR _ _ E0) as (_ & _ & Hk0).
  set (k := (fst k0, default (cf_frame_id first) (next_frame_id s))) in *.
  destruct (completed s !! k) as [c|] eqn:Ec; [|by repeat case_match].
  pose proof (ra_done _ _ HR _ _ Ec) as (_ & _ & Hk).
  assert (Hid : k = (e, default (cf_frame_id c) (next_frame_id s))).
  { destruct (next_frame_id s) as [i|]; [subst k; by rewrite Hk0|exact Hk]. }
  destruct (assemble_frame_ok e g' s k c HR HG Ec Hid) as (s1 & evs & u & E & Hs & Hl).
  rewrite E in H. simplify_eq. exists (length (completed_order s1)). split; [done|]. split; [done|].
  eapply step_ok_app; eauto.
Qed.

Lemma flush_body_end e g now n st r :
  flush_inv e g n st -> flush_body now st = inr r -> exists s' evs, r = Some (s', evs) /\ step_ok e g s' evs.
Proof.
  destruct st as [s out]. intros [-> [HR (g' & Hg & HG)]] H. cbn [fst snd] in *. unfold flush_body in H.
  destruct (head (completed_order s)) as [k0|] eqn:Eh.
  2: { simplify_eq. exists s, out. split; [done|]. split; eauto. }
  assert (Hin : k0 ∈ completed_order s) by (destruct (completed_order s); simplify_eq/=; left).
  destruct (completed s !! k0) as [first|] eqn:E0.
  2: { apply (ra_completed _ _ HR) in Hin. rewrite E0 in Hin. by destruct Hin. }
  pose proof (ra_done _ _ HR _ _ E0) as (_ & _ & Hk0).
  set (k := (fst k0, default (cf_frame_id first) (next_frame_id s))) in *.
  destruct (completed s !! k) as [c|] eqn:Ec.
  - pose proof (ra_done _ _ HR _ _ Ec) as (_ & _ & Hk).
    assert (Hid : k = (e, default (cf_frame_id c) (next_frame_id s))).
    { destruct (next_frame_id s) as [i|]; [subst k; by rewrite Hk0|exact Hk]. }
    destruct (assemble_frame_ok e g' s k c HR HG Ec Hid) as (s1 & evs & u & E & _). by rewrite E in H.
  - revert H. case_test; intros [= <-].
    + exists s, out. split; [done|]. split; eauto.
    + eexists _, _. split; [done|]. eapply step_ok_app; [exact Hg|]. apply (discontinue_ok (fst k0) e g' s ReorderGap).
Qed.

(** [flush_reorder] ends and keeps the invariant; one round per completed frame is enough. *)
Lemma flush_reorder_ok e g s now :
  ra_ok e s -> gate_inv g e s ->
  exists s' evs, flush_reorder s now = Some (s', evs) /\ step_ok e g s' evs.
Proof.
  intros HR HG. unfold flush_reorder.
  destruct (loop_fuel_spec (flush_body now) (flush_inv e g)
    (fun r => exists s' evs, r = Some (s', evs) /\ step_ok e g s' evs)
    (flush_body_step e g now) (flush_body_end e g now)
    (S (length (completed_order s))) (length (completed_order s)) (s, [])) as (r & E & s' & evs & -> & Hs).
  - split; [done|]. by apply step_quiet.
  - lia.
  - rewrite E. cbn. eauto.
Qed.

(** The state of a new receiver. *)
Lemma initial_ok e : ra_ok e (reassembly (rx_new 0)).
Proof.
  split; cbn; rewrite ?map_cost_empty; auto; try done;
    try apply NoDup_nil_2; try (by intros k x; rewrite lookup_empty).
  - intros k. rewrite lookup_empty, elem_of_nil. split; [done|by intros []].
  - intros k. rewrite lookup_empty, elem_of_nil. split; [done|by intros []].
  - by intros k ?%elem_of_nil.
Qed.
