(* ===== verification/VideoRxRun.v ===== *)
(** * Runs of the video receiver

    Every sequence of messages and ticks keeps the receiver safe: it never
    panics, its buffers stay within their caps, frames pass the IDR gate and
    the ACKs of an epoch advance. *)
From S2P Require Import Prelude Serial Gf256 FecEncoder Gauss FecDecoder DecoderBounds FecWire VideoRx VideoRxSafe.

(** ** The events the reassembly can emit *)

(** No ACK and no epoch transition: the ACK cadence does not see the event. *)
Definition no_ack (ev : RxEvent) : Prop :=
  match ev with RxAck _ => False | Discontinuity _ r => r <> EpochTransition | RxFrame _ => True end.

Lemma discontinue_no_ack s e r : r <> EpochTransition -> Forall no_ack (discontinue s e r).2.
Proof. intros H. by constructor. Qed.

Lemma frame_events_no_ack u : Forall no_ack (frame_events u).
Proof. destruct u; by repeat constructor. Qed.

Lemma register_frame_no_ack s e v c s' evs : register_frame s e v c = inr (s', evs) -> Forall no_ack evs.
Proof. unfold register_frame, discontinue. intros H. repeat case_match; simplify_eq; by constructor. Qed.

Lemma place_chunk_no_ack s e v c via now s' evs :
  place_chunk s e v c via now = Some (s', evs) -> Forall no_ack evs.
Proof.
  unfold place_chunk, discontinue. intros H.
  repeat (case_match; simplify_eq; try by constructor).
  destruct (complete_frame _ _ _ _ _); simplify_eq/=. constructor.
Qed.

Lemma deliver_chunk_no_ack s e v p via now s' evs :
  deliver_chunk s e v p via now = Some (s', evs) -> Forall no_ack evs.
Proof.
  unfold deliver_chunk. intros H. destruct (parse_delivered v p) as [c|]; [|simplify_eq; constructor].
  destruct (chunk_admissible v c) as [b|]; [|done]. cbn in H. destruct b; cbn in H; [|simplify_eq; constructor].
  case_match; [simplify_eq; constructor|]. destruct (register_frame s e v c) as [s1|[s1 ev1]] eqn:E.
  - by eapply place_chunk_no_ack.
  - simplify_eq. by eapply register_frame_no_ack.
Qed.

Lemma assemble_frame_no_ack s i f e s' evs u : assemble_frame s i f e = Some (s', evs, u) -> Forall no_ack evs.
Proof. unfold assemble_frame, discontinue. intros H. repeat case_match; simplify_eq; by constructor. Qed.

Lemma flush_reorder_no_ack s now s' evs : flush_reorder s now = Some (s', evs) -> Forall no_ack evs.
Proof.
  unfold flush_reorder. destruct (loop_fuel _ _ _) as [r|] eqn:E; [|done]. cbn. intros ->.
  eapply (loop_fuel_inv (flush_body now) (fun st => Forall no_ack st.2)
    (fun r => match r with Some (_, evs) => Forall no_ack evs | None => True end)) in E; [exact E| | |constructor].
  - intros [s0 out] st' Hout H. unfold flush_body in H. cbn in Hout.
    destruct (head _); [|done]. destruct (completed s0 !! _) as [f0|]; [|done].
    destruct (completed s0 !! _) as [c|]; [|by repeat case_match].
    destruct (assemble_frame _ _ _ _) as [[[s1 ev1] u]|] eqn:Ea; simplify_eq. cbn.
    repeat apply Forall_app_2; [done|by eapply assemble_frame_no_ack|apply frame_events_no_ack].
  - intros [s0 out] r0 Hout H. unfold flush_body in H. cbn in Hout.
    destruct (head _); [|by simplify_eq]. destruct (completed s0 !! _) as [f0|]; [|by simplify_eq].
    destruct (completed s0 !! _) as [c|].
    + destruct (assemble_frame _ _ _ _) as [[[s1 ev1] u]|] eqn:Ea; by simplify_eq.
    + revert H. case_test; intros [= <-]; [done|]. apply Forall_app. split; [done|]. by constructor.
Qed.

(** ** The ACK automaton *)

(** An ACK advances past the previous one of the epoch; a new epoch starts over. *)
Definition ack_step (last : option Z) (ev : RxEvent) : option (option Z) :=
  match ev with
  | RxAck seq =>
      match last with
      | Some l => if seq_advanced seq l then Some (Some seq) else None
      | None => Some (Some seq)
      end
  | Discontinuity _ r => Some (if decide (r = EpochTransition) then None else last)
  | RxFrame _ => Some last
  end.

Fixpoint ack_run (last : option Z) (evs : list RxEvent) : option (option Z) :=
  match evs with
  | [] => Some last
  | ev :: evs => last ← ack_step last ev; ack_run last evs
  end.

Lemma ack_run_app last l k : ack_run last (l ++ k) = (last ← ack_run last l; ack_run last k).
Proof. revert last. induction l as [|ev l IH]; intros last; [done|]. cbn. destruct (ack_step last ev); [apply IH|done]. Qed.

Lemma ack_run_quiet last evs : Forall no_ack evs -> ack_run last evs = Some last.
Proof.
  induction 1 as [|ev evs Hev _ IH]; [done|]. cbn. destruct ev as [u|e r|a]; cbn in *; [done| |done].
  by rewrite decide_False.
Qed.

Lemma gate_run_acks g a : gate_run g (ack_events a) = Some g.
Proof. by destruct a. Qed.

Lemma tick_ack_ok d a now a' ack :
  tick_ack d a now = (a', ack) -> ack_run (last_acked_highest a) (ack_events ack) = Some (last_acked_highest a').
Proof.
  unfold tick_ack. destruct (highest_fully_decoded d) as [h|]; [|by intros [= <- <-]].
  destruct (last_acked_highest a) as [l|] eqn:El.
  - destruct (seq_advanced h l) eqn:Ea; cbn [negb]; [|by intros [= <- <-]; rewrite ?El].
    case_match; intros [= <- <-]; cbn; [by rewrite Ea|by rewrite ?El].
  - case_match; intros [= <- <-]; cbn; [done|by rewrite ?El].
Qed.

(** ** The payloads the decoder hands over are bytes *)

Definition event_bytes (ev : DecoderEvent) : Prop :=
  match ev with Recovered _ p _ => bytes p | _ => True end.

Lemma advanced_bytes d d' evs : advanced d d' evs -> Forall event_bytes evs.
Proof. intros H. eapply Forall_impl; [apply (ad_events _ _ _ H)|]. by intros ev (a & b & -> & _). Qed.

Lemma evicted_bytes d d' evs : Forall (evicted_missing d d') evs -> Forall event_bytes evs.
Proof. intros H. eapply Forall_impl; [exact H|]. by intros ev (s & -> & _). Qed.

Lemma batch_bytes d all : batch_ok d all -> Forall event_bytes (fec_event <$> all).
Proof. intros [_ H]. apply Forall_fmap. eapply Forall_impl; [exact H|]. by intros [s p] []. Qed.

Lemma push_symbol_bytes d sym :
  dec_inv d -> symbol_wf sym ->
  exists d' evs, push_symbol d sym = Some (d', evs) /\ dec_inv d' /\ Forall event_bytes evs.
Proof.
  intros Hd Hwf. destruct sym as [seq p|r b e p]; cbn in Hwf |- *.
  - destruct Hwf as [Hs Hp]. destruct (decoder_push_source_run d seq p Hd Hs Hp) as (d' & evs & E & Ho).
    exists d', evs. split; [done|]. split; [by eapply source_outcome_inv|].
    destruct Ho as [| |? ? ? ? ? ? _ _ _ Hev _ HR]; [by constructor|constructor|].
    apply Forall_app. split; [by eapply evicted_bytes|]. constructor; [done|]. apply Forall_app.
    split; [by eapply batch_bytes, rc_batch|by eapply advanced_bytes, rc_advance].
  - destruct Hwf as (_ & Hb & He & Hp). destruct (push_repair_run d r b e p Hd Hb He Hp) as (d' & evs & E & Ho).
    exists d', evs. split; [done|]. split; [by eapply repair_outcome_inv|].
    destruct Ho as [|d0 rolled ? ? ? ? ? _ _ _ _ Hr _ _ _ HR]; [constructor|].
    apply roll_for_repair_spec in Hr as (_ & _ & Hev & _).
    apply Forall_app. split; [by eapply evicted_bytes|]. apply Forall_app.
    split; [by eapply batch_bytes, rc_batch|by eapply advanced_bytes, rc_advance].
Qed.

(** ** The receiver invariant *)

Record rx_inv (g : gate) (last : option Z) (r : VideoReceiver) : Prop := {
  rxi_decoder : dec_inv (rx_decoder r);
  rxi_ack : last_acked_highest (ack_state r) = last;
  rxi_reassembly : match active_epoch r with
    | None => reassembly r = reassembly (rx_new 0) /\ g = Fresh
    | Some e => ra_ok e (reassembly r) /\ gate_inv g e (reassembly r)
    end
}.

(** A step from gate [g] and last ACK [last] to [r] with events [evs]. *)
Definition rx_step (g : gate) (last : option Z) (r : VideoReceiver) (evs : list RxEvent) : Prop :=
  exists g' last', gate_run g evs = Some g' /\ ack_run last evs = Some last' /\ rx_inv g' last' r.

Lemma rx_step_nil g last r : rx_inv g last r -> rx_step g last r [].
Proof. intros H. by exists g, last. Qed.

Lemma rx_step_app g last r out g1 l1 evs :
  gate_run g out = Some g1 -> ack_run last out = Some l1 -> rx_step g1 l1 r evs -> rx_step g last r (out ++ evs).
Proof.
  intros H1 H2 (g2 & l2 & H3 & H4 & H5). exists g2, l2. by rewrite gate_run_app, ack_run_app, H1, H2.
Qed.

(** A reassembly step lifted to the receiver. *)
Lemma rx_reassembly_step g last r e s evs :
  rx_inv g last r -> active_epoch r = Some e -> step_ok e g s evs -> Forall no_ack evs ->
  rx_step g last (mkReceiver (rx_decoder r) (active_epoch r) s (ack_state r)) evs.
Proof.
  intros [H1 H2 H3] He [HR (g' & Hg & HG)] Hn. exists g', last. rewrite ack_run_quiet by done.
  do 2 (split; [done|]). split; cbn; [done..|]. by rewrite He.
Qed.

Lemma rx_new_inv now : rx_inv Fresh None (rx_new now).
Proof. split; [apply new_inv|done|done]. Qed.

Lemma accept_epoch_ok g last r e v now :
  rx_inv g last r ->
  exists r' out b, accept_epoch r e v now = (r', out, b) /\ rx_step g last r' out /\
    (b = true -> active_epoch r' = Some e).
Proof.
  intros [H1 H2 H3]. unfold accept_epoch. destruct (active_epoch r) as [c|] eqn:Ec.
  - assert (Hkeep : rx_step g last r []) by (apply rx_step_nil; split; [done..|by rewrite Ec]).
    destruct (Z.eqb_spec e c) as [->|Hne]; [by eexists _, _, _|]. case_test; [|by eexists _, _, _].
    eexists _, _, _. split; [reflexivity|]. split; [|done].
    destruct (discontinue_ok e e g (reassembly r) EpochTransition) as [HR (g' & Hg & HG)].
    exists g', None. split; [exact Hg|]. split; [done|]. split; [apply new_inv|done|done].
  - eexists _, _, _. split; [reflexivity|]. split; [|done]. apply rx_step_nil. split; cbn; [done..|].
    destruct H3 as [-> ->]. split; [apply initial_ok|done].
Qed.

Lemma process_event_ok g last r e v now ev :
  rx_inv g last r -> active_epoch r = Some e -> event_bytes ev ->
  exists r' out, process_event e v now r ev = Some (r', out) /\ rx_step g last r' out /\ active_epoch r' = Some e.
Proof.
  intros HI He Hb. pose proof HI as [H1 H2 H3]. rewrite He in H3. destruct H3 as [HR HG].
  destruct ev as [seq p via| |]; cbn [process_event]; [|by eexists _, _; split; [done|split; [by apply rx_step_nil|]]..].
  destruct (deliver_chunk_ok e g (reassembly r) v p via now HR HG Hb) as (s & evs & E & Hs).
  pose proof (deliver_chunk_no_ack _ _ _ _ _ _ _ _ E) as Hn. rewrite E. cbn [mbind option_bind].
  destruct (tick_ack (rx_decoder r) (ack_state r) now) as [a ack] eqn:Ea.
  pose proof (tick_ack_ok _ _ _ _ _ Ea) as Hack. rewrite H2 in Hack.
  eexists _, _. split; [reflexivity|]. split; [|done].
  destruct Hs as [HR' (g' & Hg & HG')]. eapply rx_step_app; [exact Hg|by apply ack_run_quiet|].
  exists g', (last_acked_highest a). rewrite gate_run_acks. do 2 (split; [done|]).
  split; cbn; [done..|]. by rewrite He.
Qed.

Lemma process_events_ok g last r e v now evs :
  rx_inv g last r -> active_epoch r = Some e -> Forall event_bytes evs ->
  exists r' out, process_events e v now r evs = Some (r', out) /\ rx_step g last r' out /\ active_epoch r' = Some e.
Proof.
  intros HI He Hb. revert g last r HI He. induction Hb as [|ev evs Hev _ IH]; intros g last r HI He; cbn [process_events].
  - eexists _, _. split; [done|]. split; [by apply rx_step_nil|done].
  - destruct (process_event_ok g last r e v now ev HI He Hev) as (r1 & o1 & -> & (g1 & l1 & G1 & L1 & HI1) & He1).
    destruct (IH g1 l1 r1 HI1 He1) as (r2 & o2 & E & Hs & He2). cbn -[process_events]. rewrite E.
    eexists _, _. split; [reflexivity|]. split; [by eapply rx_step_app|done].
Qed.

Lemma process_decoder_events_ok g last r e v now evs :
  rx_inv g last r -> active_epoch r = Some e -> Forall event_bytes evs ->
  exists r' out, process_decoder_events e v now r evs = Some (r', out) /\ rx_step g last r' out /\
    active_epoch r' = Some e.
Proof.
  intros HI He Hb. unfold process_decoder_events. destruct (existsb is_discontinuity evs).
  - pose proof (discontinue_ok e e g (reassembly r) FecEviction) as Hd.
    pose proof (discontinue_no_ack (reassembly r) e FecEviction ltac:(done)) as Hn.
    destruct (discontinue (reassembly r) e FecEviction) as [s1 o1]. cbn [fst snd] in *.
    destruct (rx_reassembly_step g last r e _ _ HI He Hd Hn) as (g1 & l1 & G1 & L1 & HI1).
    destruct (process_events_ok g1 l1 _ e v now evs HI1 He Hb) as (r2 & o2 & E & Hs & He2).
    rewrite E. cbn [mbind option_bind].
    eexists _, _. split; [reflexivity|]. split; [by eapply rx_step_app|done].
  - destruct (process_events_ok g last r e v now evs HI He Hb) as (r2 & o2 & E & Hs & He2). rewrite E. cbn.
    eexists _, _. by split; [reflexivity|].
Qed.

Lemma flush_receiver_ok g last r now :
  rx_inv g last r ->
  exists r' out, flush_receiver r now = Some (r', out) /\ rx_step g last r' out.
Proof.
  intros HI. pose proof HI as [H1 H2 H3]. unfold flush_receiver. destruct (active_epoch r) as [e|] eqn:He.
  - destruct H3 as [HR HG]. destruct (flush_reorder_ok e g _ now HR HG) as (s & evs & E & Hs). rewrite E. cbn.
    eexists _, _. split; [reflexivity|].
    pose proof (rx_reassembly_step g last r e s evs HI He Hs) as Hr. rewrite He in Hr.
    apply Hr. by eapply flush_reorder_no_ack.
  - destruct H3 as [E ->]. rewrite E. cbn. eexists _, _. split; [reflexivity|]. by apply rx_step_nil.
Qed.

Lemma symbol_of_wf buf m :
  bytes buf -> parse_symbol_msg_versioned buf = Ok m -> symbol_wf (symbol_of m).2.
Proof.
  intros Hb H. pose proof (parse_symbol_inv _ _ Hb H) as Hp.
  destruct m as [[q p|r b n p]|[e q p|e r b n p]]; cbn in *; tauto.
Qed.

(** [on_message] returns and keeps the invariant. *)
Lemma on_message_ok g last r buf now :
  rx_inv g last r -> bytes buf ->
  exists r' out, on_message r buf now = Some (r', out) /\ rx_step g last r' out.
Proof.
  intros HI Hb. unfold on_message. destruct (parse_symbol_msg_versioned buf) as [m|err] eqn:Em.
  2: { eexists _, _. split; [done|]. by apply rx_step_nil. }
  pose proof (symbol_of_wf _ _ Hb Em) as Hwf. destruct (symbol_of m) as [[e v] sym]. cbn [snd] in Hwf.
  destruct (accept_epoch_ok g last r e v now HI) as (r1 & o1 & b & -> & (g1 & l1 & G1 & L1 & HI1) & Hacc).
  destruct b; cbn [negb]; [|eexists _, _; split; [done|by exists g1, l1]]. specialize (Hacc eq_refl).
  destruct (push_symbol_bytes (rx_decoder r1) sym (rxi_decoder _ _ _ HI1) Hwf) as (d & evs & E & Hd & Hev).
  rewrite E. cbn [mbind option_bind].
  assert (HI2 : rx_inv g1 l1 (mkReceiver d (active_epoch r1) (reassembly r1) (ack_state r1)))
    by (destruct HI1; by split).
  destruct (process_decoder_events_ok g1 l1 _ e v now evs HI2 Hacc Hev)
    as (r3 & o3 & -> & (g3 & l3 & G3 & L3 & HI3) & _). cbn [mbind option_bind].
  destruct (flush_receiver_ok g3 l3 r3 now HI3) as (r4 & o4 & E4 & Hs4).
  rewrite E4. cbn [mbind option_bind]. eexists _, _. split; [reflexivity|].
  eapply rx_step_app; [exact G1|exact L1|]. by eapply rx_step_app.
Qed.

Lemma tick_events_ok g last r now :
  rx_inv g last r ->
  exists r' out, tick_events r now = Some (r', out) /\ rx_step g last r' out.
Proof.
  intros HI. unfold tick_events. destruct (flush_receiver_ok g last r now HI) as (r1 & o1 & -> & (g1 & l1 & G1 & L1 & HI1)).
  cbn [mbind option_bind]. unfold tick. destruct (tick_ack (rx_decoder r1) (ack_state r1) now) as [a ack] eqn:Ea.
  pose proof (tick_ack_ok _ _ _ _ _ Ea) as Hack. eexists _, _. split; [reflexivity|].
  eapply rx_step_app; [done..|]. exists g1, (last_acked_highest a). rewrite gate_run_acks.
  destruct HI1 as [H1 H2 H3]. rewrite H2 in Hack. by do 2 (split; [done|]).
Qed.

(** ** Runs *)

Inductive rx_op : Type :=
| OpMessage (buf : list Z) (now_ms : Z)
| OpTick (now_ms : Z).

Definition rx_do (r : VideoReceiver) (op : rx_op) : option (VideoReceiver * list RxEvent) :=
  match op with OpMessage buf now => on_message r buf now | OpTick now => tick_events r now end.

Fixpoint rx_run (r : VideoReceiver) (ops : list rx_op) : option (VideoReceiver * list RxEvent) :=
  match ops with
  | [] => Some (r, [])
  | op :: ops =>
      '(r, out) ← rx_do r op;
      '(r, out') ← rx_run r ops;
      Some (r, out ++ out')
  end.

Definition op_bytes (op : rx_op) : Prop := match op with OpMessage buf _ => bytes buf | OpTick _ => True end.

#[export] Instance op_bytes_dec op : Decision (op_bytes op).
Proof. destruct op; cbn; apply _. Defined.

Lemma rx_run_ok ops : Forall op_bytes ops -> forall g last r, rx_inv g last r ->
  exists r' out, rx_run r ops = Some (r', out) /\ rx_step g last r' out.
Proof.
  induction 1 as [|op ops Hop _ IH]; intros g last r HI; cbn [rx_run].
  - exists r, []. split; [done|]. by apply rx_step_nil.
  - assert (H : exists r1 o1, rx_do r op = Some (r1, o1) /\ rx_step g last r1 o1)
      by (destruct op; [by apply on_message_ok|by apply tick_events_ok]).
    destruct H as (r1 & o1 & -> & (g1 & l1 & G1 & L1 & HI1)).
    destruct (IH g1 l1 r1 HI1) as (r2 & o2 & E & Hs). cbn [mbind option_bind]. rewrite E. cbn.
    eexists _, _. split; [reflexivity|]. by eapply rx_step_app.
Qed.

(** ** Properties *)

(** C5: whatever bytes arrive, whenever, the receiver returns without a panic
    (no [expect] fails, [buffered_bytes] never underflows, the loops end); at
    most 8 frames and 16 MiB are buffered and the decoder keeps its caps; the
    frames presented follow the gate: after a discontinuity (a CRC failure
    apart) the first is a key frame, and within an epoch each is the successor
    of the one before; and the ACKs of an epoch strictly advance. *)
Theorem receiver_safe now ops :
  Forall op_bytes ops ->
  exists r evs g last, rx_run (rx_new now) ops = Some (r, evs) /\
    len (pending_order (reassembly r)) + len (completed_order (reassembly r)) <= MAX_PENDING_FRAMES /\
    0 <= buffered_bytes (reassembly r) <= RX_DECODER_MAX_BYTES /\
    retained_bytes (accounting (rx_decoder r)) <= max_bytes (rx_decoder r) + 8 /\
    gate_run Fresh evs = Some g /\ ack_run None evs = Some last.
Proof.
  intros Hops. destruct (rx_run_ok ops Hops Fresh None _ (rx_new_inv now)) as (r & evs & E & g & last & HG & HL & HI).
  exists r, evs, g, last. split; [exact E|]. destruct HI as [[_ [_ _ Hc]] _ HR].
  assert (HR' : exists e, ra_ok e (reassembly r)).
  { destruct (active_epoch r) as [e|]; [exists e; apply HR|]. exists 0. destruct HR as [-> _]. apply initial_ok. }
  destruct HR' as [e HR']. unfold MAX_PENDING_FRAMES. split; [apply (ra_cap _ _ HR')|].
  split; [|split; [exact Hc|done]]. split; [|apply (ra_limit _ _ HR')]. rewrite (ra_bytes _ _ HR').
  pose proof (frames_cost_nonneg _ _ (fun _ _ H => proj1 H) (ra_frames _ _ HR')).
  pose proof (completed_cost_nonneg _ _ (fun _ _ H => proj1 H) (ra_done _ _ HR')). lia.
Qed.

(** A one-chunk frame in a v2 source message; [crc] is what the header claims. *)
Definition demo_msg (seq id : Z) (key : bool) (data : list Z) (crc : Z) : list Z :=
  match encode_chunk_v2 (mkChunkV2 id 0 1 key 0 (len data) crc) data with
  | Ok chunk => match encode_symbol_msg_v2 (V2Source 1 seq chunk) with Ok m => m | Err _ => [] end
  | Err _ => []
  end.

(** A frame with a wrong CRC, then a key frame, then the delta frame before it. *)
Definition crc_ops : list rx_op :=
  [OpMessage (demo_msg 0 0 true [1; 2] (ieee_crc32 [9])) 0;
   OpMessage (demo_msg 1 2 true [3] (ieee_crc32 [3])) 10;
   OpMessage (demo_msg 2 1 false [4] (ieee_crc32 [4])) 20].

(** The same frame, then a lone key frame. *)
Definition crc_key_ops : list rx_op :=
  [OpMessage (demo_msg 0 0 true [1; 2] (ieee_crc32 [9])) 0;
   OpMessage (demo_msg 1 5 true [3] (ieee_crc32 [3])) 10; OpTick 50; OpTick 110].

Lemma receiver_safe_witness : exists r evs g, rx_run (rx_new 0) crc_ops = Some (r, evs) /\ gate_run Fresh evs = Some g.
Proof.
  destruct (receiver_safe 0 crc_ops) as (r & evs & g & last & E & _ & _ & _ & HG & _); [by_decide|].
  exists r, evs, g. exact (conj E HG).
Defined.

(** After a CRC failure the gate is open to the wrong frames:
    [flush_reorder] overwrites the [next_frame_id] that the discontinuity has
    just cleared, so a delta frame can be the first frame presented after it,
    and a complete key frame can be thrown away as a [ReorderGap]. *)
Theorem frame_crc_gate_hole :
  (exists r, rx_run (rx_new 0) crc_ops = Some (r, [Discontinuity 1 FrameCrc;
    RxFrame (mkDecodeUnit 1 1 false 0 0 [4]); RxFrame (mkDecodeUnit 2 1 true 0 0 [3])])) /\
  (exists r, rx_run (rx_new 0) crc_key_ops = Some (r, [Discontinuity 1 FrameCrc; RxAck 1;
    Discontinuity 1 ReorderGap])).
Proof. split; eexists; vm_compute; reflexivity. Qed.
