(* ===== verification/VideoRxFaithful.v ===== *)
(** * The receiver reassembles what the sender chunked

    Chunks of sent frames, in any order and with any repetition, give back those
    frames and nothing else; and all the chunks of one frame give it back. *)
From S2P Require Import Prelude Serial Gf256 FecEncoder Gauss FecDecoder DecoderBounds FecWire VideoRx VideoRxSafe.

(** What a sender encodes under a frame id. *)
Record SentFrame := mkSent {
  sf_key : bool;
  sf_ts : Z;
  sf_data : list Z
}.

Definition sent_ok (m : SentFrame) : Prop := in_u32 (sf_ts m) /\ bytes (sf_data m) /\ len (sf_data m) <= 4194304.

(** The chunk of fragment [i]. *)
Definition sent_chunk (fid : Z) (m : SentFrame) (i : nat) (fragment : list Z) : Chunk :=
  mkChunk fid (Z.of_nat i) (len (v2_fragments (sf_data m))) (sf_key m) (sf_ts m) (len (sf_data m))
    (ieee_crc32 (sf_data m)) fragment.

(** [payload] is one of the messages of [chunk_frame_v2] for that frame. *)
Definition sent_message (fid : Z) (m : SentFrame) (payload : list Z) : Prop :=
  exists msgs, chunk_frame_v2 fid (sf_key m) (sf_ts m) (sf_data m) = Some (Ok msgs) /\ payload ∈ msgs.

Lemma sent_message_parse fid m payload :
  in_u32 fid -> sent_ok m -> sent_message fid m payload ->
  exists i f, v2_fragments (sf_data m) !! i = Some f /\ bytes payload /\
    parse_delivered true payload = Some (sent_chunk fid m i f).
Proof.
  intros Hf (Ht & Hb & Hl) (msgs & E & Hin).
  destruct (chunk_frame_v2_msgs fid (sf_key m) (sf_ts m) (sf_data m) Hl) as (msgs' & E' & HF).
  rewrite E in E'. injection E' as <-. apply list_elem_of_lookup in Hin as [i Hi].
  pose proof (chunk_frame_v2_parse _ _ _ _ _ Hf Ht Hb Hl HF) as HP.
  destruct (Forall2_lookup_l _ _ _ _ _ HP Hi) as ([h f] & Hhf & Hp & Hbp & _).
  rewrite list_lookup_imap, fmap_Some in Hhf. destruct Hhf as (f' & Hf' & [= -> ->]).
  exists i, f'. split; [done|]. split; [done|]. unfold parse_delivered. by rewrite Hp.
Qed.

(** ** Faithful frames *)

Definition frame_faithful (m : SentFrame) (f : PendingFrame) : Prop :=
  pf_is_v2 f = true /\ pf_is_key f = sf_key m /\ pf_timestamp_us f = sf_ts m /\
  pf_chunk_count f = len (v2_fragments (sf_data m)) /\ pf_encoded_len f = len (sf_data m) /\
  pf_encoded_crc f = ieee_crc32 (sf_data m) /\
  length (pf_parts f) = length (v2_fragments (sf_data m)) /\
  forall i p, pf_parts f !! i = Some (Some p) -> v2_fragments (sf_data m) !! i = Some p.

Lemma new_pending_faithful fid m i f : frame_faithful m (new_pending true (sent_chunk fid m i f)).
Proof.
  unfold frame_faithful. cbn. do 6 (split; [done|]). split.
  - rewrite length_replicate. unfold len. lia.
  - intros j p Hj. apply lookup_replicate in Hj as [? _]. done.
Qed.

Lemma add_part_faithful m f i frag via :
  frame_faithful m f -> v2_fragments (sf_data m) !! i = Some frag -> frame_faithful m (add_part f i frag via).
Proof.
  intros (F1 & F2 & F3 & F4 & F5 & F6 & F7 & F8) Hi. unfold frame_faithful. cbn. do 6 (split; [done|]). split.
  - by rewrite length_insert.
  - intros j p Hj. apply list_lookup_insert_Some in Hj as [(<- & [= ->] & _)|[_ Hj]]; [done|]. by apply F8.
Qed.

(** A faithful frame whose parts concatenate is the frame. *)
Lemma concat_parts_spec parts data : concat_parts parts = Some data -> exists l, parts = Some <$> l /\ data = concat l.
Proof.
  revert data. induction parts as [|[p|] parts IH]; intros data H; cbn in H; [|..|done].
  - injection H as <-. by exists [].
  - destruct (concat_parts parts) as [rest|] eqn:E; [|done]. injection H as <-.
    destruct (IH rest eq_refl) as (l & -> & ->). by exists (p :: l).
Qed.

Lemma concat_parts_faithful m f data :
  sent_ok m -> frame_faithful m f -> concat_parts (pf_parts f) = Some data -> data = sf_data m.
Proof.
  intros (_ & _ & Hl) (_ & _ & _ & _ & _ & _ & F7 & F8) H.
  destruct (concat_parts_spec _ _ H) as (l & Hp & ->). rewrite Hp, length_fmap in F7.
  replace l with (v2_fragments (sf_data m)); [by apply v2_fragments_ok|].
  apply list_eq. intros i. destruct (l !! i) as [p|] eqn:E.
  - apply F8. by rewrite Hp, list_lookup_fmap, E.
  - apply lookup_ge_None in E. apply lookup_ge_None. lia.
Qed.

(** ** Faithful states *)

Section faithful.
Context (sent : Z -> SentFrame) (sent_all_ok : forall fid, sent_ok (sent fid)).

Definition unit_faithful (ev : RxEvent) : Prop :=
  match ev with
  | RxFrame u => du_data u = sf_data (sent (du_frame_id u)) /\ du_is_key u = sf_key (sent (du_frame_id u)) /\
      du_timestamp_us u = sf_ts (sent (du_frame_id u))
  | _ => True
  end.

Record ra_faithful (s : Reassembly) : Prop := {
  rf_pending : map_Forall (fun k f => frame_faithful (sent (snd k)) f) (pending s);
  rf_completed : map_Forall (fun k c => frame_faithful (sent (cf_frame_id c)) (cf_frame c)) (completed s)
}.

Lemma discontinue_faithful s e r :
  ra_faithful (discontinue s e r).1 /\ Forall unit_faithful (discontinue s e r).2.
Proof. split; [split; cbn; intros k x; by rewrite lookup_empty|by constructor]. Qed.

Lemma register_frame_faithful s e fid i f :
  ra_faithful s ->
  match register_frame s e true (sent_chunk fid (sent fid) i f) with
  | inl s' => ra_faithful s'
  | inr (s', evs) => ra_faithful s' /\ Forall unit_faithful evs
  end.
Proof.
  intros [Hp Hc]. unfold register_frame. destruct (pending s !! _); [by split|].
  case_test; [apply discontinue_faithful|]. case_test; [apply discontinue_faithful|].
  assert (HG : forall n, ra_faithful (set_next (insert_pending s (e, fid)
    (new_pending true (sent_chunk fid (sent fid) i f))) n)).
  { intros n. split; cbn; [|done]. apply map_Forall_insert_2; [apply new_pending_faithful|done]. }
  destruct (bool_decide _ && _)%bool; [apply HG|apply (HG (next_frame_id s))].
Qed.

Lemma complete_frame_faithful s e fid i fr f now s' :
  ra_faithful s -> frame_faithful (sent fid) f ->
  complete_frame s e (sent_chunk fid (sent fid) i fr) f now = Some s' -> ra_faithful s'.
Proof.
  intros [Hp Hc] Hf. unfold complete_frame.
  assert (Hd : map_Forall (fun k f => frame_faithful (sent (snd k)) f) (delete (e, fid) (pending s)))
    by (by apply map_Forall_delete).
  intros H. repeat case_match; simplify_eq/=; split; cbn; auto;
    apply map_Forall_insert_2; auto.
Qed.

Lemma place_chunk_faithful s e fid i fr via now s' evs :
  ra_faithful s -> v2_fragments (sf_data (sent fid)) !! i = Some fr ->
  place_chunk s e true (sent_chunk fid (sent fid) i fr) via now = Some (s', evs) ->
  ra_faithful s' /\ Forall unit_faithful evs.
Proof.
  intros Hs Hi. unfold place_chunk. cbn [ck_frame_id ck_index ck_fragment sent_chunk]. rewrite Nat2Z.id.
  destruct (pending s !! (e, fid)) as [f|] eqn:Ef.
  2: { intros [= <- <-]. apply discontinue_faithful. }
  case_test; [intros [= <- <-]; apply discontinue_faithful|].
  destruct (pf_parts f !! i) as [[p|]|]; [intros [= <- <-]; by split|..|intros [= <- <-]; by split].
  case_test; [intros [= <- <-]; apply discontinue_faithful|].
  pose proof (add_part_faithful _ _ i fr via (rf_pending _ Hs _ _ Ef) Hi) as Hf.
  assert (Hs1 : ra_faithful (update_pending s (e, fid) (add_part f i fr via) (buffered_bytes s + len fr))).
  { destruct Hs as [Hp Hc]. split; cbn; [by apply map_Forall_insert_2|done]. }
  case_test; [intros [= <- <-]; by split|].
  fold (update_pending s (e, fid) (add_part f i fr via) (buffered_bytes s + len fr)).
  destruct (complete_frame _ _ _ _ _) as [s2|] eqn:Ec; [|done]. cbn. intros [= <- <-]. split; [|done].
  by eapply complete_frame_faithful.
Qed.

Lemma deliver_faithful s e payload via now fid s' evs :
  ra_faithful s -> in_u32 fid -> sent_message fid (sent fid) payload ->
  deliver_chunk s e true payload via now = Some (s', evs) -> ra_faithful s' /\ Forall unit_faithful evs.
Proof.
  intros Hs Hfid Hm. destruct (sent_message_parse _ _ _ Hfid (sent_all_ok fid) Hm) as (i & fr & Hi & _ & Hp).
  unfold deliver_chunk. rewrite Hp. destruct (chunk_admissible _ _) as [b|]; [|done]. cbn [mbind option_bind].
  destruct b; cbn [negb]; [|intros [= <- <-]; by split].
  case_match; [intros [= <- <-]; by split|].
  pose proof (register_frame_faithful s e fid i fr Hs) as Hr.
  destruct (register_frame _ _ _ _) as [s1|[s1 ev1]]; [|intros [= <- <-]; done].
  by apply place_chunk_faithful.
Qed.

Lemma assemble_frame_faithful s fid f e s' evs u :
  ra_faithful s -> frame_faithful (sent fid) f -> assemble_frame s fid f e = Some (s', evs, u) ->
  ra_faithful s' /\ Forall unit_faithful (evs ++ frame_events u).
Proof.
  intros Hs Hf. unfold assemble_frame. destruct (concat_parts (pf_parts f)) as [data|] eqn:E.
  2: { intros [= <- <- <-]. by split. }
  case_test; [done|].
  assert (Hs1 : ra_faithful (set_buffered s (buffered_bytes s - pf_bytes f))) by (by destruct Hs; split).
  case_match; intros [= <- <- <-].
  - destruct (discontinue_faithful (set_buffered s (buffered_bytes s - pf_bytes f)) e FrameCrc) as [H1 H2].
    split; [exact H1|]. apply Forall_app. by split.
  - split; [by destruct Hs1; split|]. constructor; [|constructor]. cbn.
    split; [by eapply concat_parts_faithful|]. by destruct Hf as (_ & ? & ? & _).
Qed.

Lemma flush_faithful s now s' evs :
  ra_faithful s -> flush_reorder s now = Some (s', evs) -> ra_faithful s' /\ Forall unit_faithful evs.
Proof.
  intros Hs. unfold flush_reorder. destruct (loop_fuel _ _ _) as [r|] eqn:E; [|done]. cbn. intros ->.
  eapply (loop_fuel_inv (flush_body now) (fun st => ra_faithful st.1 /\ Forall unit_faithful st.2)
    (fun r => match r with Some (s, evs) => ra_faithful s /\ Forall unit_faithful evs | None => True end)) in E;
    [exact E| | |by split].
  - intros [s0 out] st' [H0 Hout] H. unfold flush_body in H. cbn in H0, Hout.
    destruct (head _) as [k0|]; [|done]. destruct (completed s0 !! k0) as [f0|]; [|done].
    destruct (completed s0 !! _) as [c|] eqn:Ec in H; [|by repeat case_match].
    destruct (assemble_frame _ _ _ _) as [[[s1 ev1] u]|] eqn:Ea; simplify_eq. cbn.
    apply assemble_frame_faithful in Ea as [H1 H2].
    + split; [by destruct H1; split|]. by apply Forall_app.
    + destruct H0 as [Hp Hc]. split; cbn; [done|]. by apply map_Forall_delete.
    + by apply (rf_completed _ H0 _ _ Ec).
  - intros [s0 out] r0 [H0 Hout] H. unfold flush_body in H. cbn in H0, Hout.
    destruct (head _) as [k0|]; [|by simplify_eq]. destruct (completed s0 !! k0) as [f0|]; [|by simplify_eq].
    destruct (completed s0 !! _) as [c|] in H.
    + destruct (assemble_frame _ _ _ _) as [[[s1 ev1] u]|] eqn:Ea; by simplify_eq.
    + revert H. case_test; intros [= <-]; [done|]. split; [apply (discontinue_faithful s0 (fst k0) ReorderGap)|].
      apply Forall_app. split; [done|]. by constructor.
Qed.
End faithful.

(** ** Runs of the reassembly *)

Inductive ra_op : Type :=
| RaDeliver (fid : Z) (payload : list Z) (via_fec : bool) (now_ms : Z)
| RaFlush (now_ms : Z)
| RaDiscontinue (reason : DiscontinuityReason).

Definition ra_do (e : Z) (s : Reassembly) (op : ra_op) : option (Reassembly * list RxEvent) :=
  match op with
  | RaDeliver _ payload via now => deliver_chunk s e true payload via now
  | RaFlush now => flush_reorder s now
  | RaDiscontinue r => Some (discontinue s e r)
  end.

Fixpoint ra_run (e : Z) (s : Reassembly) (ops : list ra_op) : option (Reassembly * list RxEvent) :=
  match ops with
  | [] => Some (s, [])
  | op :: ops =>
      '(s, out) ← ra_do e s op;
      '(s, out') ← ra_run e s ops;
      Some (s, out ++ out')
  end.

Definition op_sent (sent : Z -> SentFrame) (op : ra_op) : Prop :=
  match op with
  | RaDeliver fid payload _ _ => in_u32 fid /\ sent_message fid (sent fid) payload
  | _ => True
  end.

Definition ra_initial : Reassembly := reassembly (rx_new 0).

Lemma ra_do_ok sent e g s op :
  (forall fid, sent_ok (sent fid)) -> ra_ok e s -> gate_inv g e s -> ra_faithful sent s -> op_sent sent op ->
  exists s' evs g', ra_do e s op = Some (s', evs) /\ ra_ok e s' /\ gate_inv g' e s' /\ ra_faithful sent s' /\
    Forall (unit_faithful sent) evs.
Proof.
  intros Hok HR HG HF Hop. destruct op as [fid p via now|now|r]; cbn in *.
  - destruct Hop as [Hfid Hm]. destruct (sent_message_parse _ _ _ Hfid (Hok fid) Hm) as (i & fr & _ & Hb & _).
    destruct (deliver_chunk_ok e g s true p via now HR HG Hb) as (s' & evs & E & HR' & g' & _ & HG').
    destruct (deliver_faithful sent Hok s e p via now fid s' evs HF Hfid Hm E). eauto 10.
  - destruct (flush_reorder_ok e g s now HR HG) as (s' & evs & E & HR' & g' & _ & HG').
    destruct (flush_faithful sent Hok s now s' evs HF E). eauto 10.
  - destruct (discontinue_ok e e g s r) as (HR' & g' & _ & HG').
    destruct (discontinue_faithful sent s e r). eexists _, _, g'. split; [reflexivity|done].
Qed.

Lemma ra_run_ok sent e ops :
  (forall fid, sent_ok (sent fid)) -> Forall (op_sent sent) ops ->
  forall g s, ra_ok e s -> gate_inv g e s -> ra_faithful sent s ->
  exists s' evs, ra_run e s ops = Some (s', evs) /\ Forall (unit_faithful sent) evs.
Proof.
  intros Hok. induction 1 as [|op ops Hop _ IH]; intros g s HR HG HF; [by exists s, []|]. cbn [ra_run].
  destruct (ra_do_ok sent e g s op Hok HR HG HF Hop) as (s1 & ev1 & g1 & -> & HR1 & HG1 & HF1 & He1).
  destruct (IH g1 s1 HR1 HG1 HF1) as (s2 & ev2 & E & He2). cbn [mbind option_bind]. rewrite E. cbn.
  exists s2, (ev1 ++ ev2). split; [done|]. by apply Forall_app.
Qed.

Lemma initial_faithful sent : ra_faithful sent ra_initial.
Proof. split; cbn; intros k x; by rewrite lookup_empty. Qed.

(** ** One frame, all its chunks *)

Section one_frame.
Context (fid : Z) (m : SentFrame) (e : Z) (fid_ok : in_u32 fid) (m_ok : sent_ok m).

Notation frags := (v2_fragments (sf_data m)).
Notation key := (e, fid).

(** The fragments of [I] have arrived: the frame is still pending and has
    exactly those, or it has them all and is queued. *)
Definition collecting (I : list nat) (s : Reassembly) : Prop :=
  ra_ok e s /\ gate_inv Fresh e s /\ ra_faithful (fun _ => m) s /\ awaiting_idr s = false /\ next_frame_id s = Some fid /\
  ((exists f, pending s = {[key := f]} /\ pending_order s = [key] /\ completed s = ∅ /\
      forall i, i ∈ I -> exists p, pf_parts f !! i = Some (Some p)) \/
   (exists c, pending s = ∅ /\ completed s = {[key := c]} /\ completed_order s = [key] /\ cf_frame_id c = fid)).

(** The parts of a faithful frame hold at most the frame. *)
Lemma faithful_bytes f : frame_ok f -> frame_faithful m f -> pf_bytes f <= len (sf_data m).
Proof.
  intros Hf (_ & _ & _ & _ & _ & _ & F7 & F8). rewrite (fo_bytes _ Hf). destruct m_ok as (_ & _ & Hl).
  destruct (v2_fragments_ok _ Hl) as (Hcat & _). rewrite <- Hcat. clear Hcat.
  revert F7 F8. generalize (v2_fragments (sf_data m)) as l. generalize (pf_parts f) as parts. clear.
  induction parts as [|p parts IH]; intros [|x l] Hl Hp; try done. cbn [concat]. rewrite fmap_cons, sumZ_cons, len_app.
  injection Hl as Hl. specialize (IH l Hl (fun i => Hp (S i))).
  destruct p as [p|].
  - specialize (Hp 0%nat p eq_refl). cbn in Hp. injection Hp as ->. change (part_bytes (Some p)) with (len p). lia.
  - change (part_bytes None) with 0. pose proof (len_nonneg x). lia.
Qed.

Lemma fragment_admissible i fr :
  frags !! i = Some fr -> chunk_admissible true (sent_chunk fid m i fr) = Some true.
Proof.
  intros Hi. destruct m_ok as (_ & _ & Hl). destruct (v2_fragments_ok _ Hl) as (Hcat & Hn & Hc & Hsz).
  pose proof (lookup_lt_Some _ _ _ Hi) as Hlt.
  unfold chunk_admissible, V2_CHUNK_COUNT_MAX, ENCODED_FRAME_MAX. cbn [ck_count ck_encoded_len ck_fragment sent_chunk].
  rewrite (proj2 (Z.eqb_neq _ _)), !(proj2 (Z.ltb_ge _ _)) by lia. cbn [orb].
  unfold CHUNK_V2_FRAGMENT_MAX. rewrite <- Hn, Z.eqb_refl. cbn [negb].
  unfold expected_fragment_len, CHUNK_V2_FRAGMENT_MAX, u16_max. cbn [ck_count ck_encoded_len ck_index sent_chunk].
  unfold len in Hc. rewrite (proj2 (Z.ltb_ge _ _)) by lia.
  destruct (v2_fragment_length _ _ _ Hl Hi) as [Hlast Hinner]. unfold len in Hlast, Hinner |- *.
  case_test.
  - rewrite (proj2 (Z.ltb_ge _ _)) by lia. cbn. f_equal. apply Z.eqb_eq. lia.
  - cbn. f_equal. apply Z.eqb_eq. lia.
Qed.

Notation chunk := (sent_chunk fid m).

(** What one delivery does to a collecting state. *)
Lemma collect_pending I s i fr via now f :
  ra_ok e s -> gate_inv Fresh e s -> ra_faithful (fun _ => m) s -> awaiting_idr s = false ->
  next_frame_id s = Some fid -> pending s = {[key := f]} -> pending_order s = [key] -> completed s = ∅ ->
  (forall j, j ∈ I -> exists p, pf_parts f !! j = Some (Some p)) ->
  frags !! i = Some fr ->
  exists s', place_chunk s e true (chunk i fr) via now = Some (s', []) /\ collecting (i :: I) s'.
Proof.
  intros HR HG HF Ha Hn Hp Ho Hc HI Hi.
  assert (Hpk : pending s !! key = Some f) by (rewrite Hp; apply lookup_singleton_eq).
  pose proof (rf_pending _ _ HF _ _ Hpk) as Hff. cbn in Hff.
  destruct (ra_frames _ _ HR _ _ Hpk) as [Hfo Hrec].
  assert (Hchunk : chunk_in_range (chunk i fr)).
  { destruct m_ok as (_ & _ & Hl). destruct (v2_fragments_ok _ Hl) as (_ & _ & Hcnt & _).
    apply lookup_lt_Some in Hi. unfold chunk_in_range. cbn. unfold len in *. lia. }
  destruct (place_chunk_ok e Fresh s true (chunk i fr) via now HR HG Hchunk) as (s' & evs & E & Hs); [by exists f|].
  pose proof (place_chunk_faithful (fun _ => m) s e fid i fr via now s' evs HF Hi E) as [HF' _].
  revert E. unfold place_chunk. cbn [ck_frame_id ck_index ck_fragment sent_chunk]. rewrite Hpk, Nat2Z.id.
  pose proof Hff as (F1 & F2 & F3 & F4 & F5 & F6 & F7 & F8).
  assert (Hmeta : metadata_matches true (chunk i fr) f = true).
  { unfold metadata_matches. cbn. rewrite F1, F2, F3, F4, F5, F6, !Z.eqb_refl. by destruct (sf_key m). }
  rewrite Hmeta. cbn [negb].
  assert (Hlt : (i < length (pf_parts f))%nat) by (rewrite F7; by eapply lookup_lt_Some).
  destruct (lookup_lt_is_Some_2 _ _ Hlt) as [part Hpart]. rewrite Hpart. destruct part as [p|].
  - intros [= <- <-]. exists s. split; [done|]. do 5 (split; [done|]). left. exists f. do 3 (split; [done|]).
    intros j [->|Hj]%elem_of_cons; [by exists p|by apply HI].
  - assert (Hroom : (RX_DECODER_MAX_BYTES <? sat_add usize_max (buffered_bytes s) (len fr)) = false).
    { apply Z.ltb_ge. pose proof (ra_bytes _ _ HR) as Hb. rewrite Hp, Hc, map_cost_empty in Hb.
      rewrite <- insert_empty, map_cost_insert_new, map_cost_empty in Hb by apply lookup_empty.
      pose proof (faithful_bytes f Hfo Hff). destruct m_ok as (_ & _ & Hl).
      destruct (v2_fragments_ok _ Hl) as (_ & _ & _ & Hsz). rewrite Forall_forall in Hsz.
      specialize (Hsz fr (list_elem_of_lookup_2 _ _ _ Hi)). unfold RX_DECODER_MAX_BYTES, sat_add. lia. }
    rewrite Hroom. case_test.
    + intros [= <- <-]. eexists. split; [reflexivity|]. destruct Hs as [HR' _].
      split; [exact HR'|]. split; [done|]. split; [exact HF'|]. do 2 (split; [done|]).
      left. exists (add_part f i fr via). cbn. split; [by rewrite Hp, insert_singleton_eq|]. do 2 (split; [done|]).
      intros j [->|Hj]%elem_of_cons; [exists fr; by apply list_lookup_insert_eq|].
      destruct (HI j Hj) as [p Hpj]. destruct (decide (j = i)) as [->|Hne]; [congruence|].
      exists p. by rewrite list_lookup_insert_ne.
    + unfold complete_frame. cbn [awaiting_idr set_pending]. rewrite Ha. cbn [andb mbind option_bind].
      intros [= <- <-]. eexists. split; [reflexivity|]. destruct Hs as [HR' _].
      split; [exact HR'|]. split; [done|]. split; [exact HF'|].
      set (b := pf_is_key (add_part f i fr via)) in *. clearbody b.
      split; [by destruct b|]. split; [by destruct b|]. right. eexists.
      split; [|split; [|split]].
      * destruct b; cbn; rewrite Hp, insert_singleton_eq; apply delete_singleton_eq.
      * destruct b; cbn; rewrite Hc; reflexivity.
      * assert (Hco : completed_order s = []).
        { destruct (completed_order s) as [|k l] eqn:Eo; [done|]. exfalso.
          assert (k ∈ completed_order s) as Hk by (rewrite Eo; left).
          apply (ra_completed _ _ HR) in Hk. rewrite Hc, lookup_empty in Hk. by destruct Hk. }
        destruct b; cbn; by rewrite Hco.
      * by destruct b.
Qed.

Lemma collect_deliver I s i fr payload via now :
  collecting I s -> frags !! i = Some fr -> parse_delivered true payload = Some (chunk i fr) ->
  exists s', deliver_chunk s e true payload via now = Some (s', []) /\ collecting (i :: I) s'.
Proof.
  intros (HR & HG & HF & Ha & Hn & Hst) Hi Hp. unfold deliver_chunk. rewrite Hp, (fragment_admissible _ _ Hi).
  cbn [mbind option_bind negb ck_frame_id sent_chunk]. destruct Hst as [(f & P1 & P2 & P3 & P4)|(c & P1 & P2 & P3 & P4)].
  - rewrite P3, lookup_empty. unfold register_frame. cbn [ck_frame_id sent_chunk].
    rewrite P1, lookup_singleton_eq. by eapply collect_pending.
  - rewrite P2, lookup_singleton_eq. exists s. split; [done|]. do 5 (split; [done|]). right. by exists c.
Qed.

(** The first chunk registers the frame. *)
Lemma collect_first i fr payload via now :
  frags !! i = Some fr -> parse_delivered true payload = Some (chunk i fr) ->
  exists s', deliver_chunk ra_initial e true payload via now = Some (s', []) /\ collecting [i] s'.
Proof.
  intros Hi Hp. unfold deliver_chunk. rewrite Hp, (fragment_admissible _ _ Hi).
  cbn [mbind option_bind negb ck_frame_id sent_chunk].
  change (completed ra_initial) with (∅ : gmap (Z * Z) CompletedFrame). rewrite lookup_empty.
  assert (HR0 : ra_ok e ra_initial) by (apply initial_ok).
  assert (Hchunk : chunk_in_range (chunk i fr)).
  { destruct m_ok as (_ & _ & Hl). destruct (v2_fragments_ok _ Hl) as (_ & _ & Hcnt & Hsz).
    apply lookup_lt_Some in Hi. unfold chunk_in_range. cbn. unfold len in *. lia. }
  pose proof (register_frame_ok e Fresh ra_initial true (chunk i fr) HR0 I Hchunk (lookup_empty _)) as H.
  pose proof (register_frame_faithful (fun _ => m) ra_initial e fid i fr (initial_faithful _)) as HF. cbn beta in HF.
  assert (Hroom : (RX_DECODER_MAX_BYTES <? sat_add usize_max 0 (len fr)) = false).
  { apply Z.ltb_ge. destruct m_ok as (_ & _ & Hl). destruct (v2_fragments_ok _ Hl) as (_ & _ & _ & Hsz).
    rewrite Forall_forall in Hsz. specialize (Hsz fr (list_elem_of_lookup_2 _ _ _ Hi)).
    unfold RX_DECODER_MAX_BYTES, sat_add. lia. }
  assert (Hreg : register_frame ra_initial e true (chunk i fr) =
    inl (set_next (insert_pending ra_initial key (new_pending true (chunk i fr))) (Some fid))).
  { unfold register_frame. change (pending ra_initial) with (∅ : gmap (Z * Z) PendingFrame).
    rewrite lookup_empty. cbn [ck_fragment sent_chunk ra_initial reassembly rx_new buffered_bytes].
    rewrite Hroom. reflexivity. }
  rewrite Hreg in H, HF |- *. destruct H as (HR & HG & _). eapply collect_pending; eauto; try done.
  by intros j ?%elem_of_nil.
Qed.

Lemma collect_run ds :
  Forall (fun d => sent_message fid m d.1.1) ds ->
  forall I s, collecting I s ->
  exists s' I', ra_run e s ((fun d => RaDeliver fid d.1.1 d.1.2 d.2) <$> ds) = Some (s', []) /\ collecting I' s' /\
    I ⊆ I' /\ forall d i fr, d ∈ ds -> parse_delivered true d.1.1 = Some (chunk i fr) -> i ∈ I'.
Proof.
  induction 1 as [|[[p via] now] ds Hm _ IH]; intros I s HC.
  - exists s, I. split; [done|]. split; [done|]. split; [done|]. by intros d i fr ?%elem_of_nil.
  - cbn [fst snd] in Hm. destruct (sent_message_parse _ _ _ fid_ok m_ok Hm) as (i & fr & Hi & _ & Hp).
    destruct (collect_deliver I s i fr p via now HC Hi Hp) as (s1 & E & HC1).
    destruct (IH (i :: I) s1 HC1) as (s2 & I2 & E2 & HC2 & Hsub & Hall).
    exists s2, I2. rewrite fmap_cons. cbn [ra_run ra_do fst snd]. rewrite E. cbn [mbind option_bind]. rewrite E2.
    cbn. split; [done|]. split; [done|]. split; [set_solver|].
    intros d j fr' [->|Hd]%elem_of_cons Hj; [|by eapply Hall]. pose proof (eq_trans (eq_sym Hp) Hj) as Hij. injection Hij as Hij _.
    apply Hsub. replace j with i by lia. left.
Qed.

(** Every fragment there: the frame is queued, and the queue presents it. *)
Lemma collected_flush I s now :
  collecting I s -> (forall i, (i < length frags)%nat -> i ∈ I) ->
  exists s' dur, flush_reorder s now = Some (s', [RxFrame (mkDecodeUnit fid e (sf_key m) (sf_ts m) dur (sf_data m))]).
Proof.
  intros (HR & HG & HF & Ha & Hn & Hst) Hall.
  destruct Hst as [(f & P1 & P2 & P3 & P4)|(c & P1 & P2 & P3 & P4)].
  - exfalso. assert (Hpk : pending s !! key = Some f) by (rewrite P1; apply lookup_singleton_eq).
    destruct (ra_frames _ _ HR _ _ Hpk) as [Hfo Hlt]. pose proof (rf_pending _ _ HF _ _ Hpk) as Hff. cbn in Hff.
    destruct Hff as (_ & _ & _ & _ & _ & _ & F7 & _). rewrite (fo_received _ Hfo), <- (fo_parts _ Hfo) in Hlt.
    assert (Hfull : forall parts, (forall i, (i < length parts)%nat -> exists p, parts !! i = Some (Some p)) ->
      sumZ (part_present <$> parts) = len parts).
    { clear. induction parts as [|p parts IH]; intros H; [done|]. rewrite fmap_cons, sumZ_cons, len_cons.
      rewrite IH by (intros i Hi; apply (H (S i)); cbn; lia).
      destruct (H 0%nat) as [q Hq]; [cbn; lia|]. cbn in Hq. injection Hq as ->. done. }
    rewrite Hfull in Hlt; [lia|]. intros i Hi. apply P4, Hall. lia.
  - assert (Hck : completed s !! key = Some c) by (rewrite P2; apply lookup_singleton_eq).
    pose proof (rf_completed _ _ HF _ _ Hck) as Hff. cbn in Hff.
    destruct (ra_done _ _ HR _ _ Hck) as (Hfo & Hrec & _).
    destruct (concat_parts_complete (pf_parts (cf_frame c))) as (data & Ed & _).
    { rewrite <- (fo_received _ Hfo), (fo_parts _ Hfo). done. }
    pose proof (concat_parts_faithful _ _ _ m_ok Hff Ed) as ->.
    destruct (dequeue_ok e s key c HR Hck) as (_ & Hle & _). unfold completed_bytes in Hle.
    destruct Hff as (F1 & F2 & F3 & F4 & F5 & F6 & F7 & F8).
    eexists _, _. unfold flush_reorder. rewrite P3. cbn [length loop_fuel].
    unfold flush_body at 1. cbn beta iota. rewrite P3. cbn [head fst]. rewrite Hck, Hn. cbn [default].
    change (id fid) with fid. rewrite Hck. unfold assemble_frame at 1. rewrite Ed. cbn [buffered_bytes set_completed].
    rewrite (proj2 (Z.ltb_ge _ _)) by done. rewrite P4, F1, F2, F3, F4, F5, F6.
    unfold validate_encoded_frame_v2. cbn [encoded_frame_len encoded_frame_crc32]. rewrite !Z.eqb_refl. cbn [negb andb].
    rewrite filter_cons, decide_False by tauto. cbn. reflexivity.
Qed.
End one_frame.

(** ** Properties *)

(** whatever order, repetition or loss the chunks of sent frames arrive
    with, and whenever the queue is flushed or a discontinuity drops the state,
    the reassembly returns and every frame it presents is, byte for byte and
    with its key flag and timestamp, the frame sent under that id. *)
Theorem reassembly_faithful sent e ops :
  (forall fid, sent_ok (sent fid)) -> Forall (op_sent sent) ops ->
  exists s evs, ra_run e ra_initial ops = Some (s, evs) /\ Forall (unit_faithful sent) evs.
Proof.
  intros Hok Hops. eapply (ra_run_ok sent e ops Hok Hops Fresh); [apply initial_ok|done|apply initial_faithful].
Qed.

(** C13: a frame of up to 4 MiB survives [chunk_frame_v2] and the reassembly:
    delivering its chunks in any order, with any repetition, presents nothing
    before the flush and exactly that frame at the flush. *)
Theorem frame_roundtrip fid m e msgs (ds : list (list Z * bool * Z)) now :
  in_u32 fid -> sent_ok m ->
  chunk_frame_v2 fid (sf_key m) (sf_ts m) (sf_data m) = Some (Ok msgs) ->
  (forall p, p ∈ msgs <-> p ∈ (fun d => d.1.1) <$> ds) ->
  exists s s' dur, ra_run e ra_initial ((fun d => RaDeliver fid d.1.1 d.1.2 d.2) <$> ds) = Some (s, []) /\
    flush_reorder s now = Some (s', [RxFrame (mkDecodeUnit fid e (sf_key m) (sf_ts m) dur (sf_data m))]).
Proof.
  intros Hfid Hm E Hds. pose proof Hm as (Hts & Hb & Hl).
  destruct (chunk_frame_v2_msgs fid (sf_key m) (sf_ts m) (sf_data m) Hl) as (msgs' & E' & HF).
  rewrite E in E'. injection E' as <-. pose proof (chunk_frame_v2_parse _ _ _ _ _ Hfid Hts Hb Hl HF) as HP.
  assert (Hsent : Forall (fun d => sent_message fid m d.1.1) ds).
  { apply Forall_forall. intros d Hd. exists msgs. split; [done|]. apply Hds. by apply (list_elem_of_fmap_2 (fun d => d.1.1)). }
  destruct (v2_fragments_ok _ Hl) as (_ & _ & Hcnt & _).
  destruct ds as [|[[p via] t] ds].
  { pose proof (Forall2_length _ _ _ HF) as Hlen. rewrite length_imap in Hlen.
    destruct msgs as [|p msgs]; [cbn in Hlen; unfold len in Hcnt; lia|].
    pose proof (proj1 (Hds p) ltac:(left)) as Hin. by apply elem_of_nil in Hin. }
  apply Forall_cons in Hsent as [Hm1 Hsent]. cbn [fst snd] in Hm1.
  destruct (sent_message_parse _ _ _ Hfid Hm Hm1) as (i & fr & Hi & _ & Hp).
  destruct (collect_first fid m e Hm i fr p via t Hi Hp) as (s1 & E1 & HC1).
  destruct (collect_run fid m e Hfid Hm ds Hsent [i] s1 HC1) as (s2 & J & E2 & HC2 & Hsub & Hall).
  exists s2. destruct (collected_flush fid m e Hm J s2 now HC2) as (s3 & dur & E3).
  - intros j Hj. destruct (lookup_lt_is_Some_2 _ _ Hj) as [fj Hfj].
    assert (Himap : imap (fun i f => (frame_header fid (sf_key m) (sf_ts m) (sf_data m) i, f)) (v2_fragments (sf_data m)) !! j
      = Some (frame_header fid (sf_key m) (sf_ts m) (sf_data m) j, fj)) by (by rewrite list_lookup_imap, Hfj).
    destruct (Forall2_lookup_r _ _ _ _ _ HP Himap) as (pj & Hpj & Hparse & _).
    assert (Hpd : parse_delivered true pj = Some (sent_chunk fid m j fj)) by (unfold parse_delivered; by rewrite Hparse).
    pose proof (proj1 (Hds pj) (list_elem_of_lookup_2 _ _ _ Hpj)) as Hin.
    rewrite fmap_cons in Hin. apply elem_of_cons in Hin as [->|Hin].
    + apply Hsub. cbn [fst] in Hpd. pose proof (eq_trans (eq_sym Hp) Hpd) as Hij. injection Hij as Hij _.
      replace j with i by lia. left.
    + apply list_elem_of_fmap in Hin as (d & -> & Hd). by eapply Hall.
  - exists s3, dur. split; [|done]. rewrite fmap_cons. cbn [ra_run ra_do fst snd]. rewrite E1. cbn [mbind option_bind].
    rewrite E2. done.
Qed.

Definition demo_sent : SentFrame := mkSent true 7 (replicate 1200 5).

Lemma demo_sent_ok : sent_ok demo_sent.
Proof. split; [|split]; by_decide. Qed.

Definition demo_msgs : list (list Z) :=
  match chunk_frame_v2 9 true 7 (replicate 1200 5) with Some (Ok msgs) => msgs | _ => [] end.

Lemma frame_roundtrip_witness :
  exists s s' dur,
    ra_run 3 ra_initial ((fun d => RaDeliver 9 d.1.1 d.1.2 d.2) <$> ((fun p => (p, false, 0)) <$> reverse demo_msgs)) = Some (s, []) /\
    flush_reorder s 5 = Some (s', [RxFrame (mkDecodeUnit 9 3 true 7 dur (replicate 1200 5))]).
Proof.
  apply (frame_roundtrip 9 demo_sent 3 demo_msgs ((fun p => (p, false, 0)) <$> reverse demo_msgs) 5).
  - unfold in_u; lia.
  - exact demo_sent_ok.
  - vm_compute. reflexivity.
  - intros p. rewrite <- list_fmap_compose. rewrite (list_fmap_ext _ id); [|done]. rewrite list_fmap_id.
    symmetry. apply elem_of_reverse.
Defined.

Lemma reassembly_faithful_witness :
  exists s evs, ra_run 3 ra_initial ((fun p => RaDeliver 9 p true 0) <$> demo_msgs) = Some (s, evs) /\
    Forall (unit_faithful (fun _ => demo_sent)) evs.
Proof.
  apply (reassembly_faithful (fun _ => demo_sent)); [intros _; exact demo_sent_ok|].
  apply Forall_fmap, Forall_forall. intros p Hp. cbn. split; [unfold in_u; lia|].
  exists demo_msgs. split; [vm_compute; reflexivity|exact Hp].
Defined.
