(* ===== verification/FecSender.v ===== *)
(** * The FEC sender task (streamer/src/transport/webrtc/fec_sender.rs)

    The handle held by the stream, the task that owns the encoder, and what they
    share: the frame queue, the control channel, the flags and the exit slot.
    A step is what one party does between two points where the other may run
    (an [await], a lock, an atomic access that orders the shutdown); what the
    environment decides (the clock, the generation, the outcome of a send, the
    branch [select!] takes) is an argument of the step. *)
From S2P Require Import Prelude Serial Gf256 FecEncoder FecWire.

(** ** Data *)

Definition QUEUE_CAPACITY : Z := 4.
Definition QUEUE_RESIDENCE_MAX : Z := 100.
(** The capacity of the control channel, [mpsc::channel(16)]. *)
Definition ACK_CHANNEL_CAPACITY : Z := 16.

Record FecFrame := mkFecFrame {
  fr_data : list Z;
  fr_key : bool;
  fr_timestamp_us : Z;
  enqueued_at : Z
}.

Inductive AckCmd : Type :=
| CmdSubscribe
| CmdAck (v : Z)
| CmdNeedsIdr.

Inductive FecSenderExit : Type :=
| SinkClosed | EncodeFailed | ChannelClosed | AckChannelClosed | Superseded.

#[export] Instance FecSenderExit_eq_dec : EqDecision FecSenderExit.
Proof. solve_decision. Defined.

Definition error_code (e : FecSenderExit) : option Z :=
  match e with
  | SinkClosed => Some (-1)
  | EncodeFailed => Some (-2)
  | ChannelClosed => Some (-3)
  | AckChannelClosed => Some (-4)
  | Superseded => None
  end.

(** What the handle and the task share; the queue has its front first, and
    [notified] is the permit [notify_one] stores. *)
Record Shared := mkShared {
  active : bool;
  live : bool;
  queue : list FecFrame;
  notified : bool;
  ack_chan : list AckCmd;
  ack_open : bool;
  snd_needs_idr : bool;
  exit_slot : option FecSenderExit
}.

(** The immutable part of the handle. *)
Record SenderWire := mkSenderWire {
  wire_version : WireVersion;
  snd_epoch : Epoch
}.

(** Where the task stands: at the [select!], draining the queue, before a chunk,
    before a repair of the last source, and the stores of the shutdown. *)
Inductive Pc : Type :=
| Select
| Drain
| Sending (frame : FecFrame) (chunks : list (list Z))
| Repairs (frame : FecFrame) (repairs : list Symbol) (chunks : list (list Z))
| Leaving (e : FecSenderExit)
| AskIdr (e : FecSenderExit)
| WriteExit (e : FecSenderExit)
| FlipLive (e : FecSenderExit)
| ClearQueue (e : FecSenderExit)
| Exited (e : FecSenderExit).

Record Task := mkTask {
  encoder : FecEncoder;
  next_seq : Z;
  snd_next_frame_id : Z;
  pc : Pc
}.

(** ** Field updates *)

Definition set_active (s : Shared) (b : bool) : Shared :=
  mkShared b (live s) (queue s) (notified s) (ack_chan s) (ack_open s) (snd_needs_idr s) (exit_slot s).
Definition set_live (s : Shared) (b : bool) : Shared :=
  mkShared (active s) b (queue s) (notified s) (ack_chan s) (ack_open s) (snd_needs_idr s) (exit_slot s).
Definition set_queue (s : Shared) (q : list FecFrame) : Shared :=
  mkShared (active s) (live s) q (notified s) (ack_chan s) (ack_open s) (snd_needs_idr s) (exit_slot s).
Definition set_notified (s : Shared) (b : bool) : Shared :=
  mkShared (active s) (live s) (queue s) b (ack_chan s) (ack_open s) (snd_needs_idr s) (exit_slot s).
Definition set_acks (s : Shared) (l : list AckCmd) : Shared :=
  mkShared (active s) (live s) (queue s) (notified s) l (ack_open s) (snd_needs_idr s) (exit_slot s).
Definition close_acks (s : Shared) : Shared :=
  mkShared (active s) (live s) (queue s) (notified s) (ack_chan s) false (snd_needs_idr s) (exit_slot s).
Definition request_idr (s : Shared) : Shared :=
  mkShared (active s) (live s) (queue s) (notified s) (ack_chan s) (ack_open s) true (exit_slot s).
Definition set_needs_idr (s : Shared) (b : bool) : Shared :=
  mkShared (active s) (live s) (queue s) (notified s) (ack_chan s) (ack_open s) b (exit_slot s).
Definition set_exit (s : Shared) (e : option FecSenderExit) : Shared :=
  mkShared (active s) (live s) (queue s) (notified s) (ack_chan s) (ack_open s) (snd_needs_idr s) e.
Definition at_pc (t : Task) (p : Pc) : Task := mkTask (encoder t) (next_seq t) (snd_next_frame_id t) p.

(** ** The handle *)

Definition spawn : Shared * Task :=
  (mkShared false true [] false [] true false None,
   mkTask (FecEncoder.new default_streaming) 0 0 Select).

Definition is_active (s : Shared) : bool := (active s && live s)%bool.
Definition is_live (s : Shared) : bool := live s.

Definition take_terminal_exit (s : Shared) : Shared * option FecSenderExit :=
  if live s then (s, None) else (set_exit s None, exit_slot s).

(** [enqueue] up to the lock of the queue; the result says whether it goes on. *)
Definition enqueue_check (w : SenderWire) (s : Shared) (data : list Z) (is_key : bool) : Shared * bool :=
  if negb (is_active s) then (s, false)
  else if (negb is_key && snd_needs_idr s)%bool then (s, false)
  else if (match wire_version w with V2 => true | V1 => false end && (ENCODED_FRAME_MAX <? len data))%bool
  then (request_idr s, false)
  else (s, true).

Definition expired (now enqueued : Z) : bool := QUEUE_RESIDENCE_MAX <=? sat_sub now enqueued.

(** [enqueue] under the lock. *)
Definition enqueue_locked (s : Shared) (data : list Z) (is_key : bool) (timestamp_us now : Z) : Shared * bool :=
  if negb (is_active s) then (s, false)
  else
    let kept := filter (fun f => expired now (enqueued_at f) = false) (queue s) in
    let s :=
      if existsb (fun f => expired now (enqueued_at f)) (queue s) then request_idr (set_queue s kept)
      else set_queue s kept in
    let frame := mkFecFrame data is_key timestamp_us now in
    if (negb is_key && (QUEUE_CAPACITY <=? len (queue s)))%bool then (request_idr s, false)
    else
      let base := if is_key then [] else queue s in
      (set_notified (set_queue s (frame :: base)) true, true).

(** [ack_tx.try_send]: dropped when the channel is full or closed. *)
Definition try_send (s : Shared) (cmd : AckCmd) : Shared :=
  if (ack_open s && (len (ack_chan s) <? ACK_CHANNEL_CAPACITY))%bool then set_acks s (ack_chan s ++ [cmd]) else s.

(** The control messages of this wire version and epoch. *)
Definition accepted_control (w : SenderWire) (msg : ParsedControlMsg) : option AckMsg :=
  match wire_version w, msg with
  | V1, ControlV1 msg => Some msg
  | V2, ControlV2 (V2Subscribe epoch) => if epoch =? snd_epoch w then Some Subscribe else None
  | V2, ControlV2 (V2Ack epoch highest_seq) => if epoch =? snd_epoch w then Some (Ack highest_seq) else None
  | V2, ControlV2 (V2NeedsIdr epoch _) => if epoch =? snd_epoch w then Some NeedsIdr else None
  | _, _ => None
  end.

Definition forward_control (w : SenderWire) (s : Shared) (msg : ParsedControlMsg) : Shared :=
  match accepted_control w msg with
  | None => s
  | Some Subscribe => try_send s CmdSubscribe
  | Some NeedsIdr => try_send s CmdNeedsIdr
  | Some (Ack v) => try_send s (CmdAck v)
  end.

Definition v2_epoch (w : SenderWire) : option Epoch :=
  match wire_version w with V2 => Some (snd_epoch w) | V1 => None end.

(** ** The task *)

Definition encode_symbol (w : SenderWire) (sym : Symbol) : result (list Z) FecWireError :=
  match wire_version w with
  | V1 => Ok (encode_symbol_msg sym)
  | V2 =>
      encode_symbol_msg_v2
        match sym with
        | Source seq payload => V2Source (snd_epoch w) seq payload
        | Repair repair_seq window_base window_end payload =>
            V2Repair (snd_epoch w) repair_seq window_base window_end payload
        end
  end.

(** The environment of one step: the clock, whether the generation is still the
    task's own, whether the sink takes the message, and which ready branch
    [select!] picks. *)
Record Env := mkEnv {
  now : Z;
  current : bool;
  sink_ok : bool;
  pick_ack : bool
}.

(** The outer [None] is a panic, in [chunk_frame_v2]. *)
Definition frame_chunks (w : SenderWire) (frame_id : Z) (f : FecFrame) :
  option (result (list (list Z)) FecWireError) :=
  match wire_version w with
  | V1 => Some (Ok (chunk_frame frame_id (fr_key f) (fr_timestamp_us f) (fr_data f)))
  | V2 => chunk_frame_v2 frame_id (fr_key f) (fr_timestamp_us f) (fr_data f)
  end.

(** The [select!]: a ready branch runs, otherwise the task waits. *)
Definition step_select (e : Env) (s : Shared) (t : Task) : option (Shared * Task) :=
  let ack_ready := (negb (len (ack_chan s) =? 0) || negb (ack_open s))%bool in
  if (notified s && negb (pick_ack e && ack_ready))%bool then Some (set_notified s false, at_pc t Drain)
  else
    match ack_chan s with
    | CmdSubscribe :: acks => Some (set_active (set_acks s acks) true, t)
    | CmdAck v :: acks =>
        enc ← acknowledge (encoder t) v;
        Some (set_acks s acks, mkTask enc (next_seq t) (snd_next_frame_id t) (pc t))
    | CmdNeedsIdr :: acks => Some (request_idr (set_acks s acks), t)
    | [] =>
        if ack_open s then Some (s, t)
        else Some (s, at_pc t (Leaving (if current e then AckChannelClosed else Superseded)))
    end.

(** One frame off the back of the queue. *)
Definition step_drain (w : SenderWire) (e : Env) (s : Shared) (t : Task) : option (Shared * Task) :=
  match last (queue s) with
  | None => Some (s, at_pc t Select)
  | Some frame =>
      let s := set_queue s (removelast (queue s)) in
      if expired (now e) (enqueued_at frame) then Some (request_idr s, t)
      else
        let frame_id := snd_next_frame_id t in
        let t := mkTask (encoder t) (next_seq t) (wrap32 (frame_id + 1)) (pc t) in
        chunks ← frame_chunks w frame_id frame;
        match chunks with
        | Ok chunks => Some (s, at_pc t (Sending frame chunks))
        | Err _ => Some (request_idr s, t)
        end
  end.

(** One chunk: the source is pushed, encoded and sent. The list is what the sink took. *)
Definition step_sending (w : SenderWire) (e : Env) (s : Shared) (t : Task) (frame : FecFrame)
    (chunks : list (list Z)) : option (Shared * Task * list (list Z)) :=
  match chunks with
  | [] => Some (s, at_pc t Drain, [])
  | chunk :: chunks =>
      if expired (now e) (enqueued_at frame) then Some (request_idr s, at_pc t (Sending frame chunks), [])
      else if negb (current e) then Some (s, at_pc t (Leaving Superseded), [])
      else
        let seq := next_seq t in
        '(enc, out) ← push_source (encoder t) seq chunk;
        let t := mkTask enc (wrap32 (seq + 1)) (snd_next_frame_id t) (pc t) in
        match encode_symbol w (out_source out) with
        | Err _ => Some (s, at_pc t (Leaving EncodeFailed), [])
        | Ok msg =>
            if negb (sink_ok e) then Some (s, at_pc t (Leaving SinkClosed), [])
            else Some (s, at_pc t (Repairs frame (out_repairs out) chunks), [msg])
        end
  end.

Definition step_repairs (w : SenderWire) (e : Env) (s : Shared) (t : Task) (frame : FecFrame)
    (repairs : list Symbol) (chunks : list (list Z)) : Shared * Task * list (list Z) :=
  match repairs with
  | [] => (s, at_pc t (Sending frame chunks), [])
  | repair :: repairs =>
      if expired (now e) (enqueued_at frame) then (request_idr s, at_pc t (Sending frame chunks), [])
      else if negb (current e) then (s, at_pc t (Leaving Superseded), [])
      else
        match encode_symbol w repair with
        | Err _ => (s, at_pc t (Leaving EncodeFailed), [])
        | Ok msg =>
            if negb (sink_ok e) then (s, at_pc t (Leaving ChannelClosed), [])
            else (s, at_pc t (Repairs frame repairs chunks), [msg])
        end
  end.

(** One step of [run_fec_sender]; [None] is a panic. *)
Definition task_step (w : SenderWire) (e : Env) (s : Shared) (t : Task) :
  option (Shared * Task * list (list Z)) :=
  match pc t with
  | Select => '(s, t) ← step_select e s t; Some (s, t, [])
  | Drain => '(s, t) ← step_drain w e s t; Some (s, t, [])
  | Sending frame chunks => step_sending w e s t frame chunks
  | Repairs frame repairs chunks => Some (step_repairs w e s t frame repairs chunks)
  | Leaving r => Some (set_active s false, at_pc t (if bool_decide (r = Superseded) then WriteExit r else AskIdr r), [])
  | AskIdr r => Some (request_idr s, at_pc t (WriteExit r), [])
  | WriteExit r => Some (set_exit s (Some r), at_pc t (FlipLive r), [])
  | FlipLive r => Some (set_live s false, at_pc t (ClearQueue r), [])
  | ClearQueue r => Some (set_queue s [], at_pc t (Exited r), [])
  | Exited _ => Some (s, t, [])
  end.

(** ** Interleavings *)

(** What may happen next. The two halves of [enqueue] are separate steps, and
    the second may run in any state: a superset of the code's interleavings.
    [OpNeedsIdr] is the flag written by its other owners, [OpDrop] the handle
    dropped. *)
Inductive Op : Type :=
| OpEnqueueCheck (data : list Z) (is_key : bool)
| OpEnqueueLocked (data : list Z) (is_key : bool) (timestamp_us now : Z)
| OpControl (msg : ParsedControlMsg)
| OpTakeExit
| OpNeedsIdr (b : bool)
| OpDrop
| OpTask (e : Env).

(** The output of a step: what the sink took, and the exit a take returned. *)
Record Out := mkOut {
  sent : list (list Z);
  taken : option FecSenderExit
}.

Definition sender_step (w : SenderWire) (s : Shared) (t : Task) (op : Op) : option (Shared * Task * Out) :=
  match op with
  | OpEnqueueCheck data is_key => Some ((enqueue_check w s data is_key).1, t, mkOut [] None)
  | OpEnqueueLocked data is_key ts n => Some ((enqueue_locked s data is_key ts n).1, t, mkOut [] None)
  | OpControl msg => Some (forward_control w s msg, t, mkOut [] None)
  | OpTakeExit => let '(s, r) := take_terminal_exit s in Some (s, t, mkOut [] r)
  | OpNeedsIdr b => Some (set_needs_idr s b, t, mkOut [] None)
  | OpDrop => Some (close_acks s, t, mkOut [] None)
  | OpTask e => '(s, t, msgs) ← task_step w e s t; Some (s, t, mkOut msgs None)
  end.

Fixpoint sender_run (w : SenderWire) (s : Shared) (t : Task) (ops : list Op) : option (Shared * Task * list Out) :=
  match ops with
  | [] => Some (s, t, [])
  | op :: ops =>
      '(s, t, out) ← sender_step w s t op;
      '(s, t, outs) ← sender_run w s t ops;
      Some (s, t, out :: outs)
  end.
