(* ===== verification/FecSenderSafe.v ===== *)
(** * The FEC sender task is safe

    Under every interleaving: no panic, a bounded queue, an exit reported once,
    and on the wire nothing but truthful symbols. *)
From S2P Require Import Prelude Serial Gf256 FecEncoder FecWire FecSender.

(** ** Messages and sizes *)

Definition wire_ok (w : SenderWire) : Prop := epoch_ok (snd_epoch w).

(** The symbol a message carries for a receiver of this version and epoch. *)
Definition decode_msg (w : SenderWire) (msg : list Z) : option Symbol :=
  match wire_version w, parse_symbol_msg_versioned msg with
  | V1, Ok (SymbolV1 sym) => Some sym
  | V2, Ok (SymbolV2 (V2Source epoch seq payload)) =>
      if epoch =? snd_epoch w then Some (Source seq payload) else None
  | V2, Ok (SymbolV2 (V2Repair epoch repair_seq window_base window_end payload)) =>
      if epoch =? snd_epoch w then Some (Repair repair_seq window_base window_end payload) else None
  | _, _ => None
  end.

Definition chunk_max (w : SenderWire) : Z := match wire_version w with V1 => 1195 | V2 => 1185 end.

Definition chunk_ok (w : SenderWire) (c : list Z) : Prop := bytes c /\ len c <= chunk_max w.

Lemma chunk_ok_payload w c : chunk_ok w c -> payload_ok c.
Proof. intros [H1 H2]. split; [done|]. unfold chunk_max in H2. destruct (wire_version w); lia. Qed.

(** A symbol in range and small enough for either version. *)
Definition sendable (w : SenderWire) (sym : Symbol) : Prop :=
  v1_symbol_ok sym /\
  match sym with Source _ p => len p <= chunk_max w | Repair _ _ _ p => len p <= V2_REPAIR_PAYLOAD_MAX end.

(** A sendable symbol is encoded, and its message decodes to it. *)
Lemma encode_symbol_ok w sym :
  wire_ok w -> sendable w sym -> exists msg, encode_symbol w sym = Ok msg /\ decode_msg w msg = Some sym.
Proof.
  intros Hw [Hv Hl]. unfold encode_symbol, decode_msg, chunk_max in *. destruct (wire_version w).
  - exists (encode_symbol_msg sym). split; [done|]. by rewrite parse_encode_v1.
  - destruct sym as [q p|r b n p]; cbn in Hv.
    + destruct (encode_symbol_msg_v2 (V2Source (snd_epoch w) q p)) as [msg|err] eqn:E.
      2: { unfold encode_symbol_msg_v2, V2_SOURCE_PAYLOAD_MAX in E. rewrite (proj2 (Z.ltb_ge _ _)) in E by exact Hl. done. }
      exists msg. split; [done|].
      destruct (parse_encode_source (snd_epoch w) q p) as (buf & E' & _ & Hp).
      { unfold v2_symbol_ok, V2_SOURCE_PAYLOAD_MAX. by destruct Hv. }
      rewrite E in E'. apply Ok_inj in E' as ->. by rewrite Hp, Z.eqb_refl.
    + destruct (encode_symbol_msg_v2 (V2Repair (snd_epoch w) r b n p)) as [msg|err] eqn:E.
      2: { unfold encode_symbol_msg_v2 in E. rewrite (proj2 (Z.ltb_ge _ _)) in E by exact Hl. done. }
      exists msg. split; [done|].
      destruct (parse_encode_repair (snd_epoch w) r b n p) as (buf & E' & _ & Hp).
      { unfold v2_symbol_ok. by destruct Hv as (? & ? & ? & ?). }
      rewrite E in E'. apply Ok_inj in E' as ->. by rewrite Hp, Z.eqb_refl.
Qed.

Lemma chunk_frame_ok_v1 fid key ts data :
  bytes data -> Forall (fun c => bytes c /\ len c <= 1195) (chunk_frame fid key ts data).
Proof.
  intros Hb. unfold chunk_frame. destruct data as [|x data].
  - constructor; [|constructor]. split; [|by unfold len].
    unfold encode_chunk. repeat (apply bytes_app; [first [apply bytes_le_bytes|apply bytes_bool]|]). apply bytes_nil.
  - apply Forall_lookup. intros i c Hc. rewrite list_lookup_imap, fmap_Some in Hc. destruct Hc as (f & Hf & ->).
    pose proof (chunks_sizes (Z.to_nat CHUNK_FRAGMENT_MAX) (x :: data) ltac:(unfold CHUNK_FRAGMENT_MAX; lia)) as Hs.
    rewrite Forall_lookup in Hs. specialize (Hs i f Hf). cbn beta in Hs. apply list_elem_of_lookup_2 in Hf.
    assert (Hfb : bytes f).
    { eapply bytes_concat_elem; [|exact Hf]. rewrite chunks_concat by (unfold CHUNK_FRAGMENT_MAX; lia). done. }
    unfold encode_chunk. split.
    + repeat (apply bytes_app; [first [apply bytes_le_bytes|apply bytes_bool]|]). done.
    + unfold CHUNK_FRAGMENT_MAX in Hs. rewrite !len_app, !len_le_bytes. unfold len in *. cbn. lia.
Qed.

Definition frame_wf (f : FecFrame) : Prop := bytes (fr_data f) /\ in_u32 (fr_timestamp_us f).

Lemma frame_chunks_ok w fid f :
  in_u32 fid -> frame_wf f ->
  exists r, frame_chunks w fid f = Some r /\ match r with Ok chunks => Forall (chunk_ok w) chunks | Err _ => True end.
Proof.
  intros Hfid [Hb Ht]. unfold frame_chunks, chunk_ok, chunk_max. destruct (wire_version w).
  - eexists. split; [done|]. by apply chunk_frame_ok_v1.
  - destruct (Z.leb_spec (len (fr_data f)) 4194304) as [Hl|Hl].
    + destruct (chunk_frame_v2_msgs fid (fr_key f) (fr_timestamp_us f) (fr_data f) Hl) as (msgs & E & HF).
      exists (Ok msgs). split; [done|]. pose proof (chunk_frame_v2_parse _ _ _ _ _ Hfid Ht Hb Hl HF) as HP.
      apply Forall_lookup. intros i msg Hi. destruct (Forall2_lookup_l _ _ _ _ _ HP Hi) as (hf & _ & _ & Hm & Hlm).
      by split.
    + exists (Err InvalidEncodedFrameLength). split; [|done]. unfold chunk_frame_v2, ENCODED_FRAME_MAX.
      by rewrite (proj2 (Z.ltb_lt _ _)) by lia.
Qed.

(** ** The window stays small, so a repair fits its message *)

Definition small (en : WindowEntry) : Prop := len (prefixed_payload en) <= 1197.

Lemma maxZ_le dflt l b : dflt <= b -> Forall (fun x => x <= b) l -> maxZ dflt l <= b.
Proof.
  intros Hd Hl. destruct Hl as [|x l Hx Hl]; [done|]. cbn. revert x Hx. induction Hl as [|y l Hy _ IH]; intros x Hx; cbn; [done|].
  specialize (IH x Hx). lia.
Qed.

Lemma repair_of_small win r :
  Forall small win -> repair_of win r -> match r with Repair _ _ _ p => len p <= V2_REPAIR_PAYLOAD_MAX | Source _ _ => True end.
Proof.
  intros Hs (e & Hw & _ & ->). unfold build_repair. rewrite Hw.
  destruct (head win); [|done]. destruct (last win); [|done]. cbn [snd].
  unfold len. rewrite length_combine, length_replicate.
  assert (maxZ 2 ((fun en => len (prefixed_payload en)) <$> win) <= 1197).
  { apply maxZ_le; [lia|]. apply Forall_fmap. eapply Forall_impl; [exact Hs|]. done. }
  unfold V2_REPAIR_PAYLOAD_MAX, len in *. lia.
Qed.

(** What the sender keeps of its encoder. *)
Definition enc_plain (e : FecEncoder) (next : Z) : Prop :=
  enc_wf e /\ in_u32 next /\ ends_at next (window e) /\ Forall small (window e).

Lemma repair_of_sendable w win r :
  Forall entry_ok win -> Forall small win -> repair_of win r -> sendable w r.
Proof.
  intros He Hs Hr. pose proof (repair_of_small _ _ Hs Hr) as Hl.
  destruct Hr as (e & Hw & Hq & ->). revert Hl. unfold sendable, build_repair. rewrite Hw.
  assert (H0 : sendable w (Repair (next_repair_seq e) 0 0 [])) by (split; [cbn; unfold in_u in *; repeat split; try lia; constructor|done]).
  destruct (head win) as [front|] eqn:Ef; [|done]. destruct (last win) as [back|]; [|done].
  intros Hl. split; [|exact Hl]. cbn [snd v1_symbol_ok]. split; [done|].
  rewrite Forall_forall in He. rewrite head_lookup in Ef. apply list_elem_of_lookup_2 in Ef.
  split; [apply (He _ Ef)|]. split; [apply wrap32_in|]. apply bytes_combine; [|apply bytes_replicate].
  apply Forall_forall. intros en Hen. destruct (He en Hen) as (_ & p & [Hp _] & ->). by apply bytes_eff.
Qed.

Lemma push_plain w e next c :
  enc_plain e next -> chunk_ok w c ->
  exists e' out, push_source e next c = Some (e', out) /\ out_source out = Source next c /\
    sendable w (out_source out) /\ Forall (sendable w) (out_repairs out) /\ enc_plain e' (wrap32 (next + 1)).
Proof.
  intros (Hwf & Hn & Hends & Hs) Hc. pose proof (chunk_ok_payload _ _ Hc) as Hp.
  destruct (push_source_run e next c Hwf Hn Hp) as (e' & out & E & Hwf' & _ & Hsrc & [k Hw] & _ & _ & Hreps).
  assert (Hs' : Forall small (window e')).
  { rewrite Hw. apply Forall_app. split; [by apply Forall_drop|]. constructor; [|constructor].
    unfold small. cbn [prefixed_payload]. rewrite len_eff. destruct Hc as [_ Hl]. unfold chunk_max in Hl.
    destruct (wire_version w); lia. }
  exists e', out. split; [done|]. split; [done|]. split; [rewrite Hsrc; by destruct Hc|]. split.
  - eapply Forall_impl; [exact Hreps|]. intros r. apply repair_of_sendable; [apply Hwf'|done].
  - split; [done|]. split; [apply wrap32_in|]. split; [|done]. rewrite Hw. apply ends_at_snoc; [by apply ends_at_drop|done..].
Qed.

Lemma ack_plain e next v :
  enc_plain e next -> in_u32 v -> exists e', acknowledge e v = Some e' /\ enc_plain e' next /\
    exists k, window e' = drop k (window e).
Proof.
  intros (Hwf & Hn & Hends & Hs) Hv.
  destruct (acknowledge_run e next v Hwf Hn Hends Hv) as (e' & E & Hwf' & _ & _ & Hw).
  exists e'. split; [done|]. split; [|by eexists]. split; [done|]. split; [done|]. rewrite Hw.
  split; [by apply ends_at_drop|by apply Forall_drop].
Qed.

(** With a log that has the chunk, the window stays logged and the repairs are truthful. *)
Lemma push_logged w truth e next e' out :
  enc_plain e next -> logged truth (window e) -> chunk_ok w (truth next) ->
  push_source e next (truth next) = Some (e', out) ->
  logged truth (window e') /\ Forall (truthful truth) (out_repairs out).
Proof.
  intros (Hwf & Hn & Hends & Hs) Hlog Hc E. pose proof (chunk_ok_payload _ _ Hc) as Hp.
  destruct (push_source_run e next (truth next) Hwf Hn Hp) as (e1 & out1 & E1 & Hwf' & _ & _ & [k Hw] & _ & _ & Hreps).
  rewrite E in E1. injection E1 as <- <-.
  assert (Hlog' : logged truth (window e')).
  { rewrite Hw. apply Forall_app_2; [by apply Forall_drop|]. constructor; [done|constructor]. }
  split; [done|]. eapply Forall_impl; [exact Hreps|]. intros r Hr.
  destruct (repair_of_truthful truth (wrap32 (next + 1)) (window e') r) as (q & p & _ & Ht); try done.
  - rewrite Hw. by destruct (drop k (window e)).
  - apply wrap32_in.
  - destruct Hwf'. lia.
  - rewrite Hw. apply ends_at_snoc; [by apply ends_at_drop|done..].
Qed.

(** ** The invariant *)

Definition cmd_ok (c : AckCmd) : Prop := match c with CmdAck v => in_u32 v | _ => True end.

Record shared_ok (s : Shared) : Prop := {
  so_queue : len (queue s) <= QUEUE_CAPACITY;
  so_frames : Forall frame_wf (queue s);
  so_acks : Forall cmd_ok (ack_chan s)
}.

Definition pc_ok (w : SenderWire) (p : Pc) : Prop :=
  match p with
  | Select | Drain => True
  | Sending _ chunks => Forall (chunk_ok w) chunks
  | Repairs _ repairs chunks => Forall (sendable w) repairs /\ Forall (chunk_ok w) chunks
  | Leaving r | AskIdr r | WriteExit r | FlipLive r | ClearQueue r | Exited r => r <> EncodeFailed
  end.

Definition task_ok (w : SenderWire) (t : Task) : Prop :=
  in_u32 (snd_next_frame_id t) /\ pc_ok w (pc t) /\ enc_plain (encoder t) (next_seq t).

(** Where the exit reason is: nowhere, in the slot, or taken. [tk] is what has been taken. *)
Definition exit_ok (tk : list FecSenderExit) (s : Shared) (p : Pc) : Prop :=
  match p with
  | Select | Drain | Sending _ _ | Repairs _ _ _ | Leaving _ => live s = true /\ tk = [] /\ exit_slot s = None
  | AskIdr _ | WriteExit _ => live s = true /\ active s = false /\ tk = [] /\ exit_slot s = None
  | FlipLive r => live s = true /\ active s = false /\ tk = [] /\ exit_slot s = Some r
  | ClearQueue r => live s = false /\ active s = false /\
      ((tk = [] /\ exit_slot s = Some r) \/ (tk = [r] /\ exit_slot s = None))
  | Exited r => live s = false /\ active s = false /\ queue s = [] /\
      ((tk = [] /\ exit_slot s = Some r) \/ (tk = [r] /\ exit_slot s = None))
  end.

Definition sender_inv (w : SenderWire) (tk : list FecSenderExit) (s : Shared) (t : Task) : Prop :=
  shared_ok s /\ task_ok w t /\ exit_ok tk s (pc t).

(** What the callers of the handle pass. *)
Definition op_ok (op : Op) : Prop :=
  match op with
  | OpEnqueueLocked data _ ts _ => bytes data /\ in_u32 ts
  | OpControl (ControlV1 (Ack v)) | OpControl (ControlV2 (V2Ack _ v)) => in_u32 v
  | _ => True
  end.

Definition take_list (r : option FecSenderExit) : list FecSenderExit := match r with Some e => [e] | None => [] end.

(** ** The steps of the handle *)

Lemma enqueue_locked_ok s data is_key ts n :
  shared_ok s -> bytes data -> in_u32 ts -> shared_ok (enqueue_locked s data is_key ts n).1.
Proof.
  intros [H1 H2 H3] Hb Ht. unfold enqueue_locked. case_test; [by split|].
  set (kept := filter _ (queue s)).
  assert (Hk : len kept <= QUEUE_CAPACITY) by (pose proof (length_filter (fun f => expired n (enqueued_at f) = false) (queue s)); unfold len, kept in *; lia).
  assert (Hkf : Forall frame_wf kept) by (rewrite Forall_forall in H2 |- *; intros f [_ Hf]%list_elem_of_filter; auto).
  set (s1 := if existsb _ _ then _ else _).
  assert (E1 : queue s1 = kept /\ ack_chan s1 = ack_chan s) by (unfold s1; by case_match).
  destruct E1 as [Eq Ea]. case_test; [split; cbn; by rewrite ?Eq, ?Ea|].
  assert (Hf : frame_wf (mkFecFrame data is_key ts n)) by (by split).
  destruct is_key; split; cbn; rewrite ?Ea, ?Eq; auto.
  - done.
  - rewrite len_cons. cbn in *. unfold QUEUE_CAPACITY in *. reflect_bools. rewrite Eq in *. lia.
Qed.

Lemma forward_control_ok w s msg :
  shared_ok s -> op_ok (OpControl msg) -> shared_ok (forward_control w s msg).
Proof.
  intros Hs Ho. unfold forward_control.
  assert (Hsend : forall c, cmd_ok c -> shared_ok (try_send s c)).
  { intros c Hc. unfold try_send. destruct Hs as [H1 H2 H3]. case_test; split; cbn; auto.
    apply Forall_app. split; [done|]. by constructor. }
  destruct (accepted_control w msg) as [[| |v]|] eqn:E; [by apply Hsend..| |done].
  apply Hsend. cbn. unfold accepted_control in E.
  destruct (wire_version w), msg as [m|[e|e q|e r]]; try case_match; simplify_eq; done.
Qed.

(** [exit_ok] reads only the flags, the slot and, at the end, the queue. *)
Lemma exit_ok_flags tk s s' p :
  live s' = live s -> active s' = active s -> exit_slot s' = exit_slot s ->
  (queue s = [] -> active s = false -> queue s' = []) -> exit_ok tk s p -> exit_ok tk s' p.
Proof. intros Hl Ha He Hq. destruct p; cbn; rewrite Hl, ?Ha, He; naive_solver. Qed.

Lemma enqueue_locked_flags s data is_key ts n :
  let s' := (enqueue_locked s data is_key ts n).1 in
  live s' = live s /\ active s' = active s /\ exit_slot s' = exit_slot s /\
  (active s = false -> s' = s).
Proof.
  unfold enqueue_locked, is_active. destruct (active s) eqn:Ea; cbn [andb negb].
  - destruct (live s) eqn:El; cbn [negb]; [|cbn; auto].
    destruct (existsb _ _), is_key; cbn [negb andb]; try case_match; by cbn.
  - cbn. auto.
Qed.

Lemma forward_control_flags w s msg :
  let s' := forward_control w s msg in
  live s' = live s /\ active s' = active s /\ exit_slot s' = exit_slot s /\ queue s' = queue s.
Proof. unfold forward_control, try_send. by repeat case_match. Qed.

(** ** The steps of the task *)

Lemma step_select_ok w tk e s t :
  sender_inv w tk s t -> pc t = Select ->
  exists s' t', step_select e s t = Some (s', t') /\ sender_inv w tk s' t' /\
    exists k, window (encoder t') = drop k (window (encoder t)) /\ next_seq t' = next_seq t /\
      (forall f rs cs, pc t' <> Repairs f rs cs).
Proof.
  intros ([H1 H2 H3] & (Hf & _ & He) & Hx) Hpc. unfold step_select. rewrite Hpc in Hx. cbn in Hx.
  assert (Hk : exists k, window (encoder t) = drop k (window (encoder t))) by (by exists 0%nat).
  assert (Hp : forall f rs cs, pc t <> Repairs f rs cs) by (intros; by rewrite Hpc).
  destruct Hk as [k Hk].
  case_test.
  { eexists _, _. split; [done|]. split; [|by exists k]. split; [by split|]. split; [done|]. cbn. done. }
  destruct (ack_chan s) as [|[|v|] acks] eqn:Eacks.
  - destruct (ack_open s).
    + eexists _, _. split; [done|]. split; [|by exists k]. split; [split; auto; by rewrite Eacks|].
      split; [split; [done|split; [by rewrite Hpc|done]]|by rewrite Hpc].
    + eexists _, _. split; [done|]. split; [|by exists k]. split; [split; auto; by rewrite Eacks|].
      split; [|done]. split; [done|]. split; [cbn; by destruct (current e)|done].
  - apply Forall_cons in H3 as [_ H3].
    eexists _, _. split; [done|]. split; [|by exists k]. split; [by split|].
    split; [split; [done|split; [by rewrite Hpc|done]]|rewrite Hpc; cbn; tauto].
  - apply Forall_cons in H3 as [Hv H3]. destruct (ack_plain _ _ _ He Hv) as (enc & -> & He' & k' & Hk').
    eexists _, _. split; [done|]. split; [|by exists k'].
    split; [by split|]. split; [split; [done|split; [cbn; by rewrite Hpc|done]]|cbn; by rewrite Hpc].
  - apply Forall_cons in H3 as [_ H3].
    eexists _, _. split; [done|]. split; [|by exists k]. split; [by split|].
    split; [split; [done|split; [by rewrite Hpc|done]]|rewrite Hpc; cbn; tauto].
Qed.

Lemma step_drain_ok w tk e s t :
  sender_inv w tk s t -> pc t = Drain ->
  exists s' t', step_drain w e s t = Some (s', t') /\ sender_inv w tk s' t' /\
    encoder t' = encoder t /\ next_seq t' = next_seq t /\ (forall f rs cs, pc t' <> Repairs f rs cs).
Proof.
  intros ([H1 H2 H3] & (Hf & _ & He) & Hx) Hpc. unfold step_drain. rewrite Hpc in Hx. cbn in Hx.
  destruct (last (queue s)) as [f|] eqn:El.
  2: { eexists _, _. split; [done|]. by split. }
  apply last_Some in El as [q Hq].
  assert (Hrl : removelast (queue s) = q) by (rewrite Hq; apply removelast_last).
  rewrite Hrl. rewrite Hq in H1, H2. apply Forall_app in H2 as [H2 Hff]. apply Forall_cons in Hff as [Hff _].
  assert (Hs' : forall b, shared_ok (set_needs_idr (set_queue s q) b)).
  { intros b. split; cbn; auto. rewrite len_snoc in H1. lia. }
  case_test.
  { eexists _, _. split; [done|]. split; [|split; [done|split; [done|by rewrite Hpc]]].
    split; [apply (Hs' true)|]. split; [split; [done|by rewrite Hpc]|by rewrite Hpc]. }
  destruct (frame_chunks_ok w (snd_next_frame_id t) f Hf Hff) as ([chunks|err] & -> & Hc); cbn [mbind option_bind].
  - eexists _, _. split; [done|]. split; [|by cbn]. split; [split; cbn; auto; rewrite len_snoc in H1; lia|].
    split; [|done]. split; [apply wrap32_in|]. by split.
  - eexists _, _. split; [done|]. split; [|split; [done|split; [done|cbn; by rewrite Hpc]]].
    split; [apply (Hs' true)|]. split; [split; [apply wrap32_in|cbn; by rewrite Hpc]|cbn; by rewrite Hpc].
Qed.

(** Every message of a step decodes to the symbol that was due. *)
Lemma step_sending_ok w tk e s t f chunks :
  wire_ok w -> sender_inv w tk s t -> pc t = Sending f chunks ->
  exists s' t' msgs, step_sending w e s t f chunks = Some (s', t', msgs) /\ sender_inv w tk s' t' /\
    (msgs = [] /\ (encoder t' = encoder t /\ next_seq t' = next_seq t /\ (forall f rs cs, pc t' <> Repairs f rs cs) \/
        exists r, pc t' = Leaving r) \/
     exists c cs out msg, chunks = c :: cs /\ push_source (encoder t) (next_seq t) c = Some (encoder t', out) /\
       out_source out = Source (next_seq t) c /\ chunk_ok w c /\ next_seq t' = wrap32 (next_seq t + 1) /\
       pc t' = Repairs f (out_repairs out) cs /\ msgs = [msg] /\ decode_msg w msg = Some (out_source out)).
Proof.
  intros Hw (Hs & (Hf & Hp & He) & Hx) Hpc. unfold step_sending. rewrite Hpc in Hx, Hp. cbn in Hx, Hp.
  destruct chunks as [|c cs].
  { eexists _, _, _. split; [done|]. split; [by split|]. left. split; [done|]. by left. }
  apply Forall_cons in Hp as [Hc Hcs]. case_test.
  { eexists _, _, _. split; [done|]. split; [|left; split; [done|by left]].
    split; [by destruct Hs|]. by split. }
  case_test.
  { eexists _, _, _. split; [done|]. split; [by split|]. left. split; [done|]. right. by eexists. }
  destruct (push_plain w _ _ _ He Hc) as (enc & out & E & Hsrc & Hsend & Hreps & He').
  rewrite E. cbn [mbind option_bind].
  destruct (encode_symbol_ok w _ Hw Hsend) as (msg & -> & Hd).
  case_test.
  - eexists _, _, _. split; [done|]. split; [by split|]. left. split; [done|]. right. by eexists.
  - eexists _, _, _. split; [done|]. split; [by split|]. right. by exists c, cs, out, msg.
Qed.

Lemma step_repairs_ok w tk e s t f repairs chunks :
  wire_ok w -> sender_inv w tk s t -> pc t = Repairs f repairs chunks ->
  exists s' t' msgs, step_repairs w e s t f repairs chunks = (s', t', msgs) /\ sender_inv w tk s' t' /\
    encoder t' = encoder t /\ next_seq t' = next_seq t /\
    (msgs = [] /\ (forall f rs cs, pc t' <> Repairs f rs cs) \/
     exists r rs msg, repairs = r :: rs /\ pc t' = Repairs f rs chunks /\ msgs = [msg] /\
       decode_msg w msg = Some r).
Proof.
  intros Hw (Hs & (Hf & Hp & He) & Hx) Hpc. unfold step_repairs. rewrite Hpc in Hx, Hp. cbn in Hx, Hp.
  destruct Hp as [Hr Hcs]. destruct repairs as [|r rs].
  { eexists _, _, _. split; [done|]. split; [by split|]. do 2 (split; [done|]). by left. }
  apply Forall_cons in Hr as [Hr Hrs]. case_test.
  { eexists _, _, _. split; [done|]. split; [split; [by destruct Hs|by split]|]. do 2 (split; [done|]). by left. }
  case_test.
  { eexists _, _, _. split; [done|]. split; [by split|]. do 2 (split; [done|]). by left. }
  destruct (encode_symbol_ok w r Hw Hr) as (msg & -> & Hd). case_test.
  - eexists _, _, _. split; [done|]. split; [by split|]. do 2 (split; [done|]). by left.
  - eexists _, _, _. split; [done|]. split; [by split|]. do 2 (split; [done|]). right. by exists r, rs, msg.
Qed.

(** ** The log of what was sent *)

(** The window and the repairs still to send agree with [truth]; a task on its way out sends nothing more. *)
Definition log_inv (truth : Z -> list Z) (t : Task) : Prop :=
  match pc t with
  | Select | Drain | Sending _ _ => logged truth (window (encoder t))
  | Repairs _ repairs _ => logged truth (window (encoder t)) /\ Forall (truthful truth) repairs
  | _ => True
  end.

(** [truth] has every source among [msgs]. *)
Definition sources_in (w : SenderWire) (truth : Z -> list Z) (msgs : list (list Z)) : Prop :=
  forall msg q p, msg ∈ msgs -> decode_msg w msg = Some (Source q p) -> p = truth q.

Definition msg_true (w : SenderWire) (truth : Z -> list Z) (msg : list Z) : Prop :=
  exists sym, decode_msg w msg = Some sym /\ truthful truth sym.

Lemma log_inv_window truth t : logged truth (window (encoder t)) ->
  (forall f rs cs, pc t <> Repairs f rs cs) -> log_inv truth t.
Proof. unfold log_inv. intros H Hp. destruct (pc t); try done. by exfalso; eapply Hp. Qed.

Lemma log_inv_logged truth t f rs cs : log_inv truth t -> pc t = Select \/ pc t = Drain \/ pc t = Sending f cs \/ pc t = Repairs f rs cs ->
  logged truth (window (encoder t)).
Proof. unfold log_inv. by intros H [E|[E|[E|E]]]; rewrite E in H; try apply H. Qed.

(** What a step promises about the log. *)
Definition log_step (w : SenderWire) (t t' : Task) (msgs : list (list Z)) : Prop :=
  forall truth, log_inv truth t -> sources_in w truth msgs -> log_inv truth t' /\ Forall (msg_true w truth) msgs.

Lemma sending_log w tk e s t f chunks :
  wire_ok w -> sender_inv w tk s t -> pc t = Sending f chunks ->
  exists s' t' msgs, step_sending w e s t f chunks = Some (s', t', msgs) /\ sender_inv w tk s' t' /\ log_step w t t' msgs.
Proof.
  intros Hw HI Hpc. destruct (step_sending_ok w tk e s t f chunks Hw HI Hpc) as (s' & t' & msgs & E & HI' & Hc).
  exists s', t', msgs. do 2 (split; [done|]). intros truth HL Hsrc.
  pose proof (log_inv_logged _ _ f [] chunks HL ltac:(auto)) as Hlog.
  destruct HI as (_ & (_ & _ & He) & _). pose proof He as (_ & Hn & _).
  destruct Hc as [[-> [(Hen & _ & Hp)|[r Hp]]]|(c & cs & out & msg & -> & Hpush & Hs & Hc & _ & Hp & -> & Hd)].
  - split; [|constructor]. apply log_inv_window; [by rewrite Hen|done].
  - split; [|constructor]. unfold log_inv. by rewrite Hp.
  - rewrite Hs in Hd. assert (Hct : c = truth (next_seq t)) by (eapply Hsrc; [left|exact Hd]). subst c.
    destruct (push_logged w truth _ _ _ _ He Hlog Hc Hpush) as [Hlog' Ht].
    split; [unfold log_inv; by rewrite Hp|]. constructor; [|constructor].
    eexists. split; [exact Hd|]. split; [done|]. split; [done|]. by eapply chunk_ok_payload.
Qed.

Lemma repairs_log w tk e s t f repairs chunks :
  wire_ok w -> sender_inv w tk s t -> pc t = Repairs f repairs chunks ->
  exists s' t' msgs, step_repairs w e s t f repairs chunks = (s', t', msgs) /\ sender_inv w tk s' t' /\ log_step w t t' msgs.
Proof.
  intros Hw HI Hpc. destruct (step_repairs_ok w tk e s t f repairs chunks Hw HI Hpc) as (s' & t' & msgs & E & HI' & Hen & _ & Hc).
  exists s', t', msgs. do 2 (split; [done|]). intros truth HL _. unfold log_inv in HL. rewrite Hpc in HL. destruct HL as [Hlog Hrs].
  destruct Hc as [[-> Hp]|(r & rs & msg & -> & Hp & -> & Hd)].
  - split; [|constructor]. apply log_inv_window; [by rewrite Hen|done].
  - apply Forall_cons in Hrs as [Hr Hrs]. unfold log_inv. rewrite Hp, Hen. split; [done|].
    constructor; [by exists r|constructor].
Qed.

Lemma task_step_ok w tk e s t :
  wire_ok w -> sender_inv w tk s t ->
  exists s' t' msgs, task_step w e s t = Some (s', t', msgs) /\ sender_inv w tk s' t' /\ log_step w t t' msgs.
Proof.
  intros Hw HI. unfold task_step. destruct (pc t) as [| |f cs|f rs cs|r|r|r|r|r|r] eqn:Hpc.
  - destruct (step_select_ok w tk e s t HI Hpc) as (s' & t' & -> & HI' & k & Hk & _ & Hp).
    exists s', t', []. do 2 (split; [done|]). intros truth HL _. split; [|constructor].
    apply log_inv_window; [|done]. rewrite Hk. apply Forall_drop.
    apply (log_inv_logged _ _ (mkFecFrame [] false 0 0) [] [] HL). auto.
  - destruct (step_drain_ok w tk e s t HI Hpc) as (s' & t' & -> & HI' & Hen & _ & Hp).
    exists s', t', []. do 2 (split; [done|]). intros truth HL _. split; [|constructor].
    apply log_inv_window; [|done]. rewrite Hen. apply (log_inv_logged _ _ (mkFecFrame [] false 0 0) [] [] HL). auto.
  - by apply (sending_log w tk).
  - destruct (repairs_log w tk e s t f rs cs Hw HI Hpc) as (s' & t' & msgs & -> & H). by exists s', t', msgs.
  - destruct HI as ([H1 H2 H3] & (Hf & Hp & He) & Hx). rewrite Hpc in Hx, Hp. cbn in Hx, Hp. destruct Hx as (Hl & Htk & Hex).
    case_bool_decide; eexists _, _, []; (split; [done|]); (split; [|intros truth _ _; split; [done|constructor]]); by split; [split|split; [split|]].
  - eexists _, _, []. split; [done|]. split; [|intros truth _ _; split; [done|constructor]].
    destruct HI as ([H1 H2 H3] & (Hf & Hp & He) & Hx). rewrite Hpc in Hx, Hp. cbn in Hx, Hp.
    destruct Hx as (Hl & Ha & Htk & Hex). by split; [split|split; [split|]].
  - eexists _, _, []. split; [done|]. split; [|intros truth _ _; split; [done|constructor]].
    destruct HI as ([H1 H2 H3] & (Hf & Hp & He) & Hx). rewrite Hpc in Hx, Hp. cbn in Hx, Hp.
    destruct Hx as (Hl & Ha & Htk & Hex). by split; [split|split; [split|]].
  - eexists _, _, []. split; [done|]. split; [|intros truth _ _; split; [done|constructor]].
    destruct HI as ([H1 H2 H3] & (Hf & Hp & He) & Hx). rewrite Hpc in Hx, Hp. cbn in Hx, Hp.
    destruct Hx as (Hl & Ha & Htk & Hex). split; [by split|]. split; [by split|]. cbn. auto.
  - eexists _, _, []. split; [done|]. split; [|intros truth _ _; split; [done|constructor]].
    destruct HI as ([H1 H2 H3] & (Hf & Hp & He) & Hx). rewrite Hpc in Hx, Hp. cbn in Hx, Hp.
    split; [by split|]. split; [by split|]. cbn. tauto.
  - eexists _, _, []. split; [done|]. split; [done|]. intros truth HL _. split; [done|constructor].
Qed.

(** ** Runs *)

Definition sent_of (outs : list Out) : list (list Z) := concat (sent <$> outs).
Definition taken_of (outs : list Out) : list FecSenderExit := concat ((fun o => take_list (taken o)) <$> outs).

Lemma exit_ok_live tk s p : exit_ok tk s p -> live s = false -> exists r,
  (p = ClearQueue r \/ p = Exited r) /\ active s = false /\ (p = Exited r -> queue s = []) /\
  ((tk = [] /\ exit_slot s = Some r) \/ (tk = [r] /\ exit_slot s = None)).
Proof. destruct p as [| | | | | | | |r|r]; cbn; intros H Hl; rewrite Hl in H; try (by destruct H); exists r; naive_solver. Qed.

Lemma take_exit_ok w tk s t :
  sender_inv w tk s t ->
  sender_inv w (tk ++ take_list (take_terminal_exit s).2) (take_terminal_exit s).1 t.
Proof.
  intros ([H1 H2 H3] & Ht & Hx). unfold take_terminal_exit. destruct (live s) eqn:El; cbn [fst snd take_list].
  { rewrite app_nil_r. by split. }
  destruct (exit_ok_live _ _ _ Hx El) as (r & Hp & Ha & Hq & Hs).
  split; [by split|]. split; [done|].
  destruct Hp as [Hp|Hp]; rewrite Hp in Hx |- *; cbn in Hx |- *;
    destruct Hs as [[-> Hs]|[-> Hs]]; rewrite Hs; cbn; naive_solver.
Qed.

Lemma sender_step_ok w tk s t op :
  wire_ok w -> sender_inv w tk s t -> op_ok op ->
  exists s' t' out, sender_step w s t op = Some (s', t', out) /\
    sender_inv w (tk ++ take_list (taken out)) s' t' /\ log_step w t t' (sent out).
Proof.
  intros Hw HI Hop.
  assert (Hlog : log_step w t t []) by (intros truth HL _; split; [done|constructor]).
  pose proof HI as (Hs & Ht & Hx).
  destruct op as [data key|data key ts n|msg| |b| |e]; cbn [sender_step].
  - eexists _, _, _. split; [done|]. cbn [taken take_list sent]. rewrite app_nil_r. split; [|done].
    unfold enqueue_check. repeat case_match; try done. split; [by destruct Hs|]. split; [done|].
    eapply exit_ok_flags, Hx; done.
  - eexists _, _, _. split; [done|]. cbn [taken take_list sent]. rewrite app_nil_r. split; [|done].
    destruct Hop as [Hb Hts]. destruct (enqueue_locked_flags s data key ts n) as (F1 & F2 & F3 & F4).
    split; [by apply enqueue_locked_ok|]. split; [done|]. eapply exit_ok_flags, Hx; try done.
    intros Hq Ha. by rewrite F4.
  - eexists _, _, _. split; [done|]. cbn [taken take_list sent]. rewrite app_nil_r. split; [|done].
    destruct (forward_control_flags w s msg) as (F1 & F2 & F3 & F4).
    split; [by apply forward_control_ok|]. split; [done|]. eapply exit_ok_flags, Hx; try done. by rewrite F4.
  - pose proof (take_exit_ok w tk s t HI) as HI'. destruct (take_terminal_exit s) as [s' r].
    eexists _, _, _. split; [done|]. by split.
  - eexists _, _, _. split; [done|]. cbn [taken take_list sent]. rewrite app_nil_r. split; [|done].
    split; [by destruct Hs|]. split; [done|]. eapply exit_ok_flags, Hx; done.
  - eexists _, _, _. split; [done|]. cbn [taken take_list sent]. rewrite app_nil_r. split; [|done].
    split; [by destruct Hs|]. split; [done|]. eapply exit_ok_flags, Hx; done.
  - destruct (task_step_ok w tk e s t Hw HI) as (s' & t' & msgs & -> & HI' & HL). cbn [mbind option_bind].
    eexists _, _, _. split; [done|]. cbn [taken take_list sent]. rewrite app_nil_r. by split.
Qed.

Lemma sender_run_ok w ops : wire_ok w -> Forall op_ok ops -> forall tk s t, sender_inv w tk s t ->
  exists s' t' outs, sender_run w s t ops = Some (s', t', outs) /\
    sender_inv w (tk ++ taken_of outs) s' t' /\
    forall truth, log_inv truth t -> sources_in w truth (sent_of outs) -> Forall (msg_true w truth) (sent_of outs).
Proof.
  intros Hw. induction 1 as [|op ops Hop _ IH]; intros tk s t HI; cbn [sender_run].
  - exists s, t, []. split; [done|]. unfold taken_of, sent_of. cbn. rewrite app_nil_r. split; [done|]. constructor.
  - destruct (sender_step_ok w tk s t op Hw HI Hop) as (s1 & t1 & o1 & -> & HI1 & HL1). cbn [mbind option_bind].
    destruct (IH _ s1 t1 HI1) as (s2 & t2 & outs & -> & HI2 & HL2). cbn [mbind option_bind].
    exists s2, t2, (o1 :: outs). split; [done|]. unfold taken_of, sent_of in *. rewrite !fmap_cons. cbn [concat].
    rewrite app_assoc. split; [done|]. intros truth HL Hsrc.
    destruct (HL1 truth HL) as [HL' Hm]; [intros msg q p Hin; apply Hsrc; apply elem_of_app; by left|].
    apply Forall_app. split; [done|]. apply HL2; [done|]. intros msg q p Hin. apply Hsrc. apply elem_of_app. by right.
Qed.

Lemma spawn_inv w : sender_inv w [] spawn.1 spawn.2.
Proof.
  split; [|split; [|done]].
  - split; cbn; [done|constructor|constructor].
  - split; [unfold in_u; cbn; lia|]. split; [done|]. cbn. split.
    + apply new_wf. unfold config_ok, in_u. cbn. lia.
    + split; [unfold in_u; lia|]. split; [by intros i en|constructor].
Qed.

(** ** Properties *)

(** C29: under every interleaving of the stream's calls, the control messages and
    the task, with any clock, any send failure and any generation change: the
    sender never panics, never holds more than four frames, and every message
    the sink takes decodes to a truthful symbol: a source as pushed, or the
    GF(256) combination of the window it names, with [truth] any log that has
    the sources sent (there is one while fewer than 2^32 are sent). *)
Theorem sender_wire_truthful w ops :
  wire_ok w -> Forall op_ok ops ->
  exists s t outs, sender_run w spawn.1 spawn.2 ops = Some (s, t, outs) /\ len (queue s) <= QUEUE_CAPACITY /\
    forall truth, sources_in w truth (sent_of outs) -> Forall (msg_true w truth) (sent_of outs).
Proof.
  intros Hw Hops. destruct (sender_run_ok w ops Hw Hops [] _ _ (spawn_inv w)) as (s & t & outs & E & HI & HL).
  exists s, t, outs. split; [done|]. split; [apply HI|]. intros truth. apply HL. apply Forall_nil_2.
Qed.

(** the exit of the task is reported exactly once, whatever races: no exit
    is taken while the task lives, at most one ever is, it is the reason the
    task left for, and it waits in the slot until then. [EncodeFailed] never
    happens, so every reason but the retirement has a code; and once the task
    is gone no frame is stranded in the queue. *)
Theorem sender_exit_once w ops s t outs :
  wire_ok w -> Forall op_ok ops -> sender_run w spawn.1 spawn.2 ops = Some (s, t, outs) ->
  (live s = true -> taken_of outs = []) /\
  (forall r, pc t = Exited r -> live s = false /\ is_active s = false /\ queue s = [] /\
     taken_of outs ++ take_list (exit_slot s) = [r] /\
     r <> EncodeFailed /\ (error_code r = None <-> r = Superseded)) /\
  len (taken_of outs) <= 1.
Proof.
  intros Hw Hops E. destruct (sender_run_ok w ops Hw Hops [] _ _ (spawn_inv w)) as (s' & t' & outs' & E' & HI & _).
  rewrite E in E'. injection E' as <- <- <-. destruct HI as (Hs & (_ & Hp & _) & Hx). cbn [app] in Hx.
  split; [|split].
  - intros Hl. destruct (pc t); cbn in Hx; rewrite Hl in Hx; naive_solver.
  - intros r Hr. rewrite Hr in Hx, Hp. cbn in Hx, Hp. unfold is_active. destruct Hx as (Hl & Ha & Hq & Hx).
    rewrite Ha. do 3 (split; [done|]). split.
    + by destruct Hx as [[-> ->]|[-> ->]].
    + split; [done|]. by destruct r.
  - assert (Htk : taken_of outs = [] \/ exists r, taken_of outs = [r]) by (destruct (pc t); cbn in Hx; naive_solver).
    by destruct Htk as [->|[r ->]].
Qed.

(** Admission to the queue. A key frame offered to an active sender is
    accepted and is then alone in the queue; a delta frame is accepted exactly
    when fewer than four unexpired frames wait, behind them; when it is refused
    or a waiting frame has expired, an IDR is requested; an inactive sender
    takes nothing. *)
Theorem enqueue_admission s data is_key ts n :
  let kept := filter (fun f => expired n (enqueued_at f) = false) (queue s) in
  let frame := mkFecFrame data is_key ts n in
  let '(s', accepted) := enqueue_locked s data is_key ts n in
  accepted = (is_active s && (is_key || (len kept <? QUEUE_CAPACITY)))%bool /\
  queue s' = (if negb (is_active s) then queue s else if is_key then [frame]
              else if len kept <? QUEUE_CAPACITY then frame :: kept else kept) /\
  (is_active s = true -> accepted = false \/ kept <> queue s -> snd_needs_idr s' = true) /\
  (accepted = true -> notified s' = true).
Proof.
  cbv zeta. unfold enqueue_locked. destruct (is_active s) eqn:Ea; cbn [negb andb]; [|done].
  set (kept := filter _ (queue s)). set (frame := mkFecFrame data is_key ts n).
  assert (Hkept : existsb (fun f => expired n (enqueued_at f)) (queue s) = false -> kept = queue s).
  { unfold kept. clear. induction (queue s) as [|f q IH]; [done|]. cbn [existsb]. destruct (expired n (enqueued_at f)) eqn:Ef; [done|].
    intros H. rewrite filter_cons_True by done. by rewrite IH. }
  destruct (existsb (fun f => expired n (enqueued_at f)) (queue s)), is_key;
    cbn [negb andb orb queue set_queue request_idr];
    try (destruct (Z.leb_spec QUEUE_CAPACITY (len kept)) as [Hl|Hl];
         [rewrite (proj2 (Z.ltb_ge _ _)) by done|rewrite (proj2 (Z.ltb_lt _ _)) by done]);
    cbn; try specialize (Hkept eq_refl); (split; [done|]); (split; [done|]); (split; [|done]);
    intros _ [H|H]; done || congruence.
Qed.

(** ** Witnesses *)

Definition demo_wire : SenderWire := mkSenderWire V2 9.

Lemma demo_wire_ok : wire_ok demo_wire.
Proof. unfold wire_ok, epoch_ok, in_u. cbn. lia. Qed.

(** Subscribe, a key frame, its chunk, then a sink that fails; the exit is taken twice. *)
Definition demo_sender_ops : list Op :=
  let e := mkEnv 5 true true true in
  [OpControl (ControlV2 (V2Subscribe 9)); OpTask e; OpEnqueueCheck [1; 2; 3] true;
   OpEnqueueLocked [1; 2; 3] true 77 5; OpTask e; OpTask e; OpTask e; OpTask e; OpTask e; OpTask e;
   OpEnqueueLocked [4] false 78 6; OpTask e; OpTask e; OpTask (mkEnv 7 true false true);
   OpTakeExit; OpTask e; OpTask e; OpTask e; OpTask e; OpTakeExit; OpTakeExit; OpTask e].

Lemma demo_sender_ops_ok : Forall op_ok demo_sender_ops.
Proof.
  repeat (apply Forall_cons; split; [cbn; first [exact I|split; [by_decide|unfold in_u; lia]]|]). apply Forall_nil_2.
Qed.

Lemma sender_wire_truthful_witness :
  exists s t outs, sender_run demo_wire spawn.1 spawn.2 demo_sender_ops = Some (s, t, outs) /\
    len (queue s) <= QUEUE_CAPACITY.
Proof.
  destruct (sender_wire_truthful demo_wire demo_sender_ops demo_wire_ok demo_sender_ops_ok) as (s & t & outs & E & H & _).
  exists s, t, outs. exact (conj E H).
Defined.

Lemma sender_exit_once_witness :
  exists s t outs, sender_run demo_wire spawn.1 spawn.2 demo_sender_ops = Some (s, t, outs) /\
    len (sent_of outs) = 1 /\ taken_of outs = [SinkClosed] /\ pc t = Exited SinkClosed /\ queue s = [].
Proof.
  destruct (sender_run demo_wire spawn.1 spawn.2 demo_sender_ops) as [[[s t] outs]|] eqn:E;
    [|vm_compute in E; discriminate E].
  destruct (sender_exit_once demo_wire demo_sender_ops s t outs demo_wire_ok demo_sender_ops_ok E) as (_ & Hx & _).
  vm_compute in E. injection E as <- <- <-. eexists _, _, _. split; [reflexivity|].
  do 3 (split; [reflexivity|]). by apply (Hx SinkClosed).
Defined.
