(* ===== verification/EndToEnd.v ===== *)
(** * From the sender task to the decoder

    FecSender, FecWire and FecDecoder composed: what the sink took, lost,
    repeated and reordered at will, makes the decoder emit sent chunks only. *)
From S2P Require Import Prelude Serial Gf256 FecEncoder Gauss FecDecoder DecoderBounds DecoderSound.
From S2P Require Import FecWire FecSender FecSenderSafe.

(** End to end across processes. Take any interleaving of the sender task
    with its callers, and let any selection of the messages its sink took arrive
    in any order and multiplicity: each decodes to a symbol, and a decoder that
    keeps its entries (room for each source, no loss span given up) emits, as
    received or recovered, only the chunk the sender sent under that number. *)
Theorem sender_to_decoder w ops truth msgs ms mb :
  wire_ok w -> Forall op_ok ops ->
  exists s t outs, sender_run w spawn.1 spawn.2 ops = Some (s, t, outs) /\
    (sources_in w truth (sent_of outs) -> msgs ⊆ sent_of outs ->
     exists syms, mapM (decode_msg w) msgs = Some syms /\
       forall d events, roomy_run (new ms mb) syms -> push_symbols (new ms mb) syms = Some (d, events) ->
         no_loss events -> forall q p via_fec, Recovered q p via_fec ∈ events -> p = truth q).
Proof.
  intros Hw Hops. destruct (sender_run_ok w ops Hw Hops [] _ _ (spawn_inv w)) as (s & t & outs & E & _ & HL).
  exists s, t, outs. split; [exact E|]. intros Hsrc Hsub. specialize (HL truth (Forall_nil_2 _) Hsrc).
  assert (Hmsgs : Forall (msg_true w truth) msgs).
  { rewrite Forall_forall in HL |- *. auto. }
  assert (Hsyms : exists syms, mapM (decode_msg w) msgs = Some syms /\ Forall (truthful truth) syms).
  { clear -Hmsgs. induction Hmsgs as [|msg msgs (sym & Hd & Ht) _ (syms & Em & IH)]; [by exists []|].
    exists (sym :: syms). cbn. rewrite Hd. cbn. rewrite Em. split; [done|by constructor]. }
  destruct Hsyms as (syms & Em & Ht). exists syms. split; [exact Em|].
  intros d events Hroom Hp Hn q p v Hin. destruct (new_consistent truth ms mb) as [Hc Hv].
  pose proof (run_sound truth syms _ _ _ (new_inv ms mb) Hc Hv Ht Hroom Hp Hn) as H.
  rewrite Forall_forall in H. exact (H _ Hin).
Qed.

(** Nine key frames of one chunk each, so that a repair is due after the eighth. *)
Definition demo_frame_ops (i : Z) : list Op :=
  OpEnqueueLocked [i; 7] true 77 5 :: replicate 8 (OpTask (mkEnv 5 true true true)).

Definition demo_long_ops : list Op :=
  OpControl (ControlV2 (V2Subscribe 9)) :: OpTask (mkEnv 5 true true true) ::
  concat (demo_frame_ops <$> [0; 1; 2; 3; 4; 5; 6; 7; 8]).

Lemma demo_long_ops_ok : Forall op_ok demo_long_ops.
Proof.
  repeat (apply Forall_cons; split; [cbn; first [exact I|split; [by_decide|unfold in_u; lia]]|]). apply Forall_nil_2.
Qed.

Definition demo_long_sent : list (list Z) :=
  match sender_run demo_wire spawn.1 spawn.2 demo_long_ops with Some (_, _, outs) => sent_of outs | None => [] end.

(** The log read off the messages. *)
Definition demo_long_truth (q : Z) : list Z :=
  default [] (head (omap (fun msg => match decode_msg demo_wire msg with
    | Some (Source q' p) => if q' =? q then Some p else None | _ => None end) demo_long_sent)).

Definition check_sources (truth : Z -> list Z) (msgs : list (list Z)) : bool :=
  forallb (fun msg => match decode_msg demo_wire msg with
    | Some (Source q p) => bool_decide (p = truth q) | _ => true end) msgs.

Lemma check_sources_ok truth msgs : check_sources truth msgs = true -> sources_in demo_wire truth msgs.
Proof.
  unfold check_sources. intros H msg q p Hin Hd. rewrite forallb_forall in H.
  specialize (H msg (proj1 (list_elem_of_In _ _) Hin)). rewrite Hd in H. by apply bool_decide_eq_true in H.
Qed.

(** Chunk 3 is lost; the repair after chunk 7 gives it back. *)
Lemma sender_to_decoder_witness :
  exists msgs syms d events, mapM (decode_msg demo_wire) msgs = Some syms /\
    push_symbols (new 64 100000) syms = Some (d, events) /\
    Recovered 3 (demo_long_truth 3) true ∈ events /\
    forall q p via_fec, Recovered q p via_fec ∈ events -> p = demo_long_truth q.
Proof.
  set (msgs := take 3 demo_long_sent ++ drop 4 demo_long_sent).
  destruct (sender_to_decoder demo_wire demo_long_ops demo_long_truth msgs 64 100000 demo_wire_ok demo_long_ops_ok)
    as (s & t & outs & E & H).
  assert (Es : sent_of outs = demo_long_sent) by (unfold demo_long_sent; rewrite E; reflexivity).
  rewrite Es in H. destruct H as (syms & Em & H).
  - apply check_sources_ok. vm_compute. reflexivity.
  - intros msg [Hm|Hm]%elem_of_app; [by apply subseteq_take in Hm|by apply subseteq_drop in Hm].
  - destruct (push_symbols (new 64 100000) syms) as [[d events]|] eqn:Ep.
    2: { vm_compute in Em. injection Em as <-. vm_compute in Ep. discriminate Ep. }
    exists msgs, syms, d, events. split; [exact Em|]. split; [exact Ep|].
    assert (Hroom : roomy_run (new 64 100000) syms /\ no_loss events /\ Recovered 3 (demo_long_truth 3) true ∈ events).
    { vm_compute in Em. injection Em as <-. vm_compute in Ep. injection Ep as <- <-. split; [by_decide|].
      split; by_decide. }
    destruct Hroom as (Hr & Hn & Hin). split; [exact Hin|]. exact (H d events Hr eq_refl Hn).
Defined.
