(* ===== verification/FrameEndToEnd.v ===== *)
(** * From the host's frame queue to the frames the client presents

    FecSender, FecWire, FecDecoder and VideoRx composed: a frame the receiver
    presents is one the host enqueued, whatever the network lost, repeated or
    reordered. *)
From S2P Require Import Prelude Serial Gf256 FecEncoder Gauss FecDecoder DecoderBounds DecoderSound.
From S2P Require Import FecWire VideoRx VideoRxSafe VideoRxRun VideoRxFaithful FecSender FecSenderSafe EndToEnd.

(** ** Where the sender's chunks come from *)

Section provenance.
Context (w : SenderWire) (Hw : wire_ok w).

(** [log] is the frames taken off the queue, in the order of their ids. *)
Definition from_log (log : list FecFrame) (p : list Z) : Prop :=
  exists k f chunks, log !! k = Some f /\
    frame_chunks w (wrap32 (Z.of_nat k)) f = Some (Ok chunks) /\ p ∈ chunks.

Lemma from_log_app log l p : from_log log p -> from_log (log ++ l) p.
Proof. intros (k & f & chunks & Hk & H). exists k, f, chunks. split; [by apply lookup_app_l_Some|done]. Qed.

Definition is_repair (sym : Symbol) : Prop := match sym with Repair _ _ _ _ => True | Source _ _ => False end.

Definition pc_from (log : list FecFrame) (p : Pc) : Prop :=
  match p with
  | Sending _ cs => Forall (from_log log) cs
  | Repairs _ rs cs => Forall is_repair rs /\ Forall (from_log log) cs
  | _ => True
  end.

(** [E] is what was enqueued, [srcs] the chunks pushed, by sequence number. *)
Record prov (E log : list FecFrame) (srcs : list (list Z)) (s : Shared) (t : Task) : Prop := {
  pv_queue : Forall (fun f => f ∈ E) (queue s);
  pv_log : Forall (fun f => f ∈ E) log;
  pv_fid : snd_next_frame_id t = wrap32 (len log);
  pv_seq : next_seq t = wrap32 (len srcs);
  pv_srcs : Forall (from_log log) srcs;
  pv_pc : pc_from log (pc t)
}.

Lemma pc_from_app log l p : pc_from log p -> pc_from (log ++ l) p.
Proof.
  destruct p; cbn; try done.
  - intros H. eapply Forall_impl; [exact H|]. intros. by apply from_log_app.
  - intros [Hr H]. split; [done|]. eapply Forall_impl; [exact H|]. intros. by apply from_log_app.
Qed.

(** What a step adds: at most one frame, at most one source, and messages whose
    sources are among those pushed. *)
Definition prov_step (E E' log : list FecFrame) (srcs : list (list Z)) (s' : Shared) (t' : Task)
    (msgs : list (list Z)) : Prop :=
  exists l k, prov (E ++ E') (log ++ l) (srcs ++ k) s' t' /\ (length l <= 1)%nat /\ (length k <= 1)%nat /\
    forall msg q p, msg ∈ msgs -> decode_msg w msg = Some (Source q p) ->
      exists i, (srcs ++ k) !! i = Some p /\ q = wrap32 (Z.of_nat i).

Lemma prov_quiet E E' log srcs s t s' t' :
  prov E log srcs s t -> (forall f, f ∈ queue s' -> f ∈ queue s \/ f ∈ E') ->
  snd_next_frame_id t' = snd_next_frame_id t -> next_seq t' = next_seq t -> pc_from log (pc t') ->
  prov_step E E' log srcs s' t' [].
Proof.
  intros [P1 P2 P3 P4 P5 P6] Hq Hf Hs Hp. exists [], []. rewrite !app_nil_r.
  split; [|split; [cbn; lia|split; [cbn; lia|by intros ? ? ? ?%elem_of_nil]]].
  assert (Hin : forall f, f ∈ E -> f ∈ E ++ E') by (intros; apply elem_of_app; by left).
  split; [|by eapply Forall_impl|by rewrite Hf|by rewrite Hs|done|done].
  rewrite Forall_forall in P1. apply Forall_forall. intros f H. apply elem_of_app.
  destruct (Hq f H); [left; auto|by right].
Qed.

(** A step that sends nothing and keeps the counters. *)
Ltac quiet Hpc := eapply prov_quiet; [eassumption|by auto|done|done|cbn; rewrite ?Hpc; by auto].

Lemma sending_prov tk e E log srcs s t f chunks s' t' msgs :
  sender_inv w tk s t -> pc t = Sending f chunks -> prov E log srcs s t ->
  step_sending w e s t f chunks = Some (s', t', msgs) -> prov_step E [] log srcs s' t' msgs.
Proof.
  intros (_ & (_ & Hp & He) & _) Hpc HP. pose proof (pv_pc _ _ _ _ _ HP) as Hcs. rewrite Hpc in Hp, Hcs. cbn in Hp, Hcs.
  unfold step_sending. destruct chunks as [|c cs].
  { intros [= <- <- <-]. quiet Hpc. }
  apply Forall_cons in Hp as [Hc _]. apply Forall_cons in Hcs as [Hfrom Hcs].
  case_test; [intros [= <- <- <-]; quiet Hpc|].
  case_test; [intros [= <- <- <-]; quiet Hpc|].
  destruct (push_plain w _ _ _ He Hc) as (enc & out & E1 & Hsrc & Hsend & _ & _). rewrite E1. cbn [mbind option_bind].
  assert (Hreps : Forall is_repair (out_repairs out)).
  { destruct He as (Hwf & Hn & _ & _).
    destruct (push_source_run _ _ _ Hwf Hn (chunk_ok_payload _ _ Hc)) as (e2 & o2 & E2 & _ & _ & _ & _ & _ & _ & Hr).
    rewrite E1 in E2. injection E2 as <- <-. eapply Forall_impl; [exact Hr|].
    intros r (d & Hd & _ & ->). unfold build_repair. rewrite Hd.
    destruct (head _); [|done]. by destruct (last _). }
  destruct (encode_symbol_ok w _ Hw Hsend) as (msg & -> & Hd). rewrite Hsrc in Hd.
  destruct HP as [P1 P2 P3 P4 P5 P6].
  assert (Hpush : forall p msgs', pc_from log p ->
    (forall m q x, m ∈ msgs' -> decode_msg w m = Some (Source q x) -> m = msg) ->
    prov_step E [] log srcs s (at_pc (mkTask enc (wrap32 (next_seq t + 1)) (snd_next_frame_id t) (pc t)) p) msgs').
  { intros p msgs' Hpf Hm. exists [], [c]. rewrite !app_nil_r. split; [|split; [cbn; lia|split; [done|]]].
    - split; try done; cbn.
      + rewrite P4, wrap32_wrap_l, len_snoc. done.
      + apply Forall_app. by split; [|constructor].
    - intros m q x Hin Hdm. rewrite (Hm m q x Hin Hdm), Hd in Hdm. injection Hdm as <- <-.
      exists (length srcs). rewrite lookup_app_r, Nat.sub_diag by done. split; [done|]. exact P4. }
  case_test; intros [= <- <- <-].
  - apply Hpush; [done|]. by intros m q x ?%elem_of_nil.
  - apply Hpush; [done|]. by intros m q x ->%list_elem_of_singleton.
Qed.

Lemma repairs_prov tk e E log srcs s t f repairs chunks s' t' msgs :
  sender_inv w tk s t -> pc t = Repairs f repairs chunks -> prov E log srcs s t ->
  step_repairs w e s t f repairs chunks = (s', t', msgs) -> prov_step E [] log srcs s' t' msgs.
Proof.
  intros (_ & (_ & Hp & He) & _) Hpc HP. pose proof (pv_pc _ _ _ _ _ HP) as Hcs. rewrite Hpc in Hp, Hcs. cbn in Hp, Hcs.
  destruct Hcs as [Hreps Hcs]. unfold step_repairs. destruct repairs as [|r rs].
  { intros [= <- <- <-]. quiet Hpc. }
  destruct Hp as [Hsend _]. apply Forall_cons in Hsend as [Hr _]. apply Forall_cons in Hreps as [Hir Hreps].
  case_test; [intros [= <- <- <-]; quiet Hpc|].
  case_test; [intros [= <- <- <-]; quiet Hpc|].
  destruct (encode_symbol_ok w _ Hw Hr) as (msg & -> & Hd).
  case_test; [intros [= <- <- <-]; quiet Hpc|].
  intros [= <- <- <-]. destruct (prov_quiet E [] log srcs s t s (at_pc t (Repairs f rs chunks)) HP) as (l & k & H1 & H2 & H3 & _);
    [by left|done..|].
  exists l, k. split_and!; [done..|]. intros m q p ->%list_elem_of_singleton Hdm. rewrite Hd in Hdm.
  injection Hdm as ->. done.
Qed.

Lemma drain_prov e E log srcs s t s' t' :
  pc t = Drain -> prov E log srcs s t -> step_drain w e s t = Some (s', t') -> prov_step E [] log srcs s' t' [].
Proof.
  intros Hpc HP. unfold step_drain. destruct (last (queue s)) as [f|] eqn:El.
  2: { intros [= <- <-]. quiet Hpc. }
  apply last_Some in El as [q Hq].
  assert (Hrl : removelast (queue s) = q) by (rewrite Hq; apply removelast_last). rewrite Hrl.
  assert (Hqs : forall x, x ∈ q -> x ∈ queue s \/ x ∈ @nil FecFrame)
    by (intros x Hx; left; rewrite Hq; apply elem_of_app; by left).
  case_test; [intros [= <- <-]; quiet Hpc|].
  pose proof (pv_fid _ _ _ _ _ HP) as Hfid.
  destruct (frame_chunks w (snd_next_frame_id t) f) as [chunks|] eqn:Ec; [|done]. cbn [mbind option_bind].
  destruct HP as [P1 P2 P3 P4 P5 P6].
  assert (Hlog : forall s1 p, queue s1 = q -> pc_from (log ++ [f]) p ->
    prov_step E [] log srcs s1 (at_pc (mkTask (encoder t) (next_seq t) (wrap32 (snd_next_frame_id t + 1)) (pc t)) p) []).
  { intros s1 p Hs1 Hp. exists [f], []. rewrite !app_nil_r.
    split; [|split; [done|split; [cbn; lia|by intros ? ? ? ?%elem_of_nil]]].
    rewrite Hq in P1. apply Forall_app in P1 as [Pq Pf]. apply Forall_cons in Pf as [Pf _].
    split; cbn; [by rewrite Hs1|apply Forall_app; by split; [|constructor]| |done| |done].
    - rewrite P3, wrap32_wrap_l, len_snoc. done.
    - eapply Forall_impl; [exact P5|]. intros. by apply from_log_app. }
  destruct chunks as [chunks|err]; intros [= <- <-].
  - apply Hlog; [done|]. cbn. apply Forall_forall. intros c Hc. exists (length log), f, chunks.
    rewrite lookup_app_r, Nat.sub_diag by done. split; [done|]. split; [|done].
    unfold len in P3. by rewrite <- P3.
  - apply (Hlog _ (pc t)); [done|]. by rewrite Hpc.
Qed.

Lemma select_prov e E log srcs s t s' t' :
  pc t = Select -> prov E log srcs s t -> step_select e s t = Some (s', t') -> prov_step E [] log srcs s' t' [].
Proof.
  intros Hpc HP. unfold step_select.
  case_test; [intros [= <- <-]; quiet Hpc|].
  destruct (ack_chan s) as [|[|v|] acks].
  - destruct (ack_open s); intros [= <- <-]; quiet Hpc.
  - intros [= <- <-]. quiet Hpc.
  - destruct (acknowledge _ v) as [enc|]; [|done]. cbn. intros [= <- <-]. quiet Hpc.
  - intros [= <- <-]. quiet Hpc.
Qed.

Lemma task_step_prov tk e E log srcs s t s' t' msgs :
  sender_inv w tk s t -> prov E log srcs s t -> task_step w e s t = Some (s', t', msgs) ->
  prov_step E [] log srcs s' t' msgs.
Proof.
  intros HI HP. unfold task_step. destruct (pc t) as [| |f cs|f rs cs|r|r|r|r|r|r] eqn:Hpc.
  - destruct (step_select e s t) as [[s1 t1]|] eqn:Es; [|done]. cbn. intros [= <- <- <-]. by eapply select_prov.
  - destruct (step_drain w e s t) as [[s1 t1]|] eqn:Es; [|done]. cbn. intros [= <- <- <-]. by eapply drain_prov.
  - by eapply sending_prov.
  - intros [= H]. by eapply repairs_prov.
  - intros [= <- <- <-]. case_match; quiet Hpc.
  - intros [= <- <- <-]. quiet Hpc.
  - intros [= <- <- <-]. quiet Hpc.
  - intros [= <- <- <-]. quiet Hpc.
  - intros [= <- <- <-]. eapply prov_quiet; [eassumption|by intros f ?%elem_of_nil|done..].
  - intros [= <- <- <-]. quiet Hpc.
Qed.

(** The frames a caller hands to [enqueue]. *)
Definition enqueued (op : Op) : list FecFrame :=
  match op with OpEnqueueLocked data key ts n => [mkFecFrame data key ts n] | _ => [] end.

Lemma enqueue_locked_queue s data key ts n f :
  f ∈ queue (enqueue_locked s data key ts n).1 -> f ∈ queue s \/ f = mkFecFrame data key ts n.
Proof.
  unfold enqueue_locked. case_test; [by left|].
  set (kept := filter _ (queue s)). set (s1 := if existsb _ _ then _ else _).
  assert (Hk : forall f, f ∈ queue s1 -> f ∈ queue s).
  { intros g Hg. assert (queue s1 = kept) as E by (unfold s1; by case_match). rewrite E in Hg.
    by apply list_elem_of_filter in Hg as [_ Hg]. }
  case_test; [left; auto|]. cbn. intros [->|Hf]%elem_of_cons; [by right|left].
  destruct key; [by apply elem_of_nil in Hf|auto].
Qed.

Lemma forward_control_queue s msg : queue (forward_control w s msg) = queue s.
Proof. unfold forward_control, try_send. by repeat case_match. Qed.

Lemma sender_step_prov tk E log srcs s t op s' t' out :
  sender_inv w tk s t -> prov E log srcs s t -> sender_step w s t op = Some (s', t', out) ->
  prov_step E (enqueued op) log srcs s' t' (sent out).
Proof.
  intros HI HP. pose proof (pv_pc _ _ _ _ _ HP) as Hpc.
  destruct op as [data key|data key ts n|msg| |b| |e]; cbn [sender_step enqueued].
  - intros [= <- <- <-]. eapply prov_quiet; [eassumption| |done..]. unfold enqueue_check.
    repeat case_match; cbn; auto.
  - intros [= <- <- <-]. eapply prov_quiet; [eassumption| |done..].
    intros f [Hf| ->]%enqueue_locked_queue; [by left|right; left].
  - intros [= <- <- <-]. eapply prov_quiet; [eassumption| |done..]. rewrite forward_control_queue. auto.
  - destruct (take_terminal_exit s) as [s1 r] eqn:Ex. intros [= <- <- <-].
    assert (Hq : queue s1 = queue s) by (unfold take_terminal_exit in Ex; destruct (live s); by simplify_eq/=).
    eapply prov_quiet; [eassumption| |done..]. rewrite Hq. auto.
  - intros [= <- <- <-]. eapply prov_quiet; [eassumption| |done..]. auto.
  - intros [= <- <- <-]. eapply prov_quiet; [eassumption| |done..]. auto.
  - destruct (task_step w e s t) as [[[s1 t1] msgs]|] eqn:Et; [|done]. cbn. intros [= <- <- <-].
    by eapply task_step_prov.
Qed.

Definition frames_of (ops : list Op) : list FecFrame := concat (enqueued <$> ops).

Lemma sender_run_prov ops : Forall op_ok ops -> forall tk E log srcs s t s' t' outs,
  sender_inv w tk s t -> prov E log srcs s t -> sender_run w s t ops = Some (s', t', outs) ->
  exists l k, prov (E ++ frames_of ops) (log ++ l) (srcs ++ k) s' t' /\
    (length l <= length ops)%nat /\ (length k <= length ops)%nat /\
    forall msg q p, msg ∈ sent_of outs -> decode_msg w msg = Some (Source q p) ->
      exists i, (srcs ++ k) !! i = Some p /\ q = wrap32 (Z.of_nat i).
Proof.
  induction 1 as [|op ops Hop _ IH]; intros tk E log srcs s t s' t' outs HI HP; cbn [sender_run].
  - intros [= <- <- <-]. exists [], []. unfold frames_of. cbn. rewrite !app_nil_r.
    split_and!; [done|lia|lia|by intros ? ? ? ?%elem_of_nil].
  - destruct (sender_step_ok w tk s t op Hw HI Hop) as (s1 & t1 & o1 & E1 & HI1 & _). rewrite E1. cbn [mbind option_bind].
    destruct (sender_step_prov tk E log srcs s t op s1 t1 o1 HI HP E1) as (l1 & k1 & HP1 & L1 & K1 & M1).
    destruct (sender_run w s1 t1 ops) as [[[s2 t2] outs2]|] eqn:E2; [|done].
    cbn [mbind option_bind]. intros [= <- <- <-].
    destruct (IH _ _ _ _ _ _ _ _ _ HI1 HP1 E2) as (l2 & k2 & HP2 & L2 & K2 & M2).
    exists (l1 ++ l2), (k1 ++ k2). change (frames_of (op :: ops)) with (enqueued op ++ frames_of ops).
    rewrite !(assoc_L (++)). split; [done|]. rewrite !length_app. cbn [length]. split; [lia|]. split; [lia|].
    intros msg q p Hin Hd. unfold sent_of in Hin. rewrite fmap_cons in Hin. cbn [concat] in Hin.
    apply elem_of_app in Hin as [Hin|Hin]; [|by apply (M2 msg)].
    destruct (M1 msg q p Hin Hd) as (i & Hi & ->). exists i. split; [by apply lookup_app_l_Some|done].
Qed.

Lemma spawn_prov : prov [] [] [] spawn.1 spawn.2.
Proof. split; cbn; try done; constructor. Qed.
End provenance.

(** ** What the receiver makes of sent chunks *)

(** The messages of a run of the receiver. *)
Definition rx_messages (ops : list rx_op) : list (list Z) :=
  concat ((fun op => match op with OpMessage buf _ => [buf] | OpTick _ => [] end) <$> ops).

Section receiver.
Context (e : Z) (sentf : Z -> SentFrame) (sentf_ok : forall fid, sent_ok (sentf fid)).
Notation w := (mkSenderWire V2 e).

Definition payload_sent (p : list Z) : Prop := exists fid, in_u32 fid /\ sent_message fid (sentf fid) p.

Definition event_sent (ev : DecoderEvent) : Prop :=
  match ev with Recovered _ p _ => payload_sent p | _ => True end.

Lemma ack_events_faithful a : Forall (unit_faithful sentf) (ack_events a).
Proof. destruct a; repeat constructor. Qed.

Lemma process_events_faithful now evs : Forall event_sent evs -> forall r r' out,
  ra_faithful sentf (reassembly r) -> process_events e true now r evs = Some (r', out) ->
  ra_faithful sentf (reassembly r') /\ Forall (unit_faithful sentf) out /\
  rx_decoder r' = rx_decoder r /\ active_epoch r' = active_epoch r.
Proof.
  induction 1 as [|ev evs Hev _ IH]; intros r r' out HF; cbn [process_events].
  - intros [= <- <-]. by split_and!; [|constructor|..].
  - destruct (process_event e true now r ev) as [[r1 o1]|] eqn:E1; [|done]. cbn [mbind option_bind].
    destruct (process_events e true now r1 evs) as [[r2 o2]|] eqn:E2; [|done]. cbn [mbind option_bind].
    intros [= <- <-].
    assert (H1 : ra_faithful sentf (reassembly r1) /\ Forall (unit_faithful sentf) o1 /\
      rx_decoder r1 = rx_decoder r /\ active_epoch r1 = active_epoch r).
    { destruct ev as [seq p via| |]; cbn in E1; [|injection E1 as <- <-; by split_and!; [|constructor|..]..].
      destruct Hev as (fid & Hfid & Hm).
      destruct (deliver_chunk _ _ _ _ _ _) as [[s1 ev1]|] eqn:Ed; [|done]. cbn in E1.
      destruct (deliver_faithful sentf sentf_ok _ _ _ _ _ fid _ _ HF Hfid Hm Ed) as [HF1 Hu1].
      destruct (tick_ack _ _ _) as [a ack]. injection E1 as <- <-. split_and!; [done| |done..].
      apply Forall_app. split; [done|apply ack_events_faithful]. }
    destruct H1 as (HF1 & Hu1 & D1 & A1). destruct (IH r1 r2 o2 HF1 E2) as (HF2 & Hu2 & D2 & A2).
    split; [done|]. split; [by apply Forall_app|]. by rewrite D2, A2.
Qed.

Lemma process_decoder_events_faithful now evs r r' out :
  Forall event_sent evs -> ra_faithful sentf (reassembly r) ->
  process_decoder_events e true now r evs = Some (r', out) ->
  ra_faithful sentf (reassembly r') /\ Forall (unit_faithful sentf) out /\
  rx_decoder r' = rx_decoder r /\ active_epoch r' = active_epoch r.
Proof.
  intros Hev HF. unfold process_decoder_events. destruct (existsb _ evs).
  - destruct (discontinue_faithful sentf (reassembly r) e FecEviction) as [HF0 Hu0].
    destruct (discontinue _ _ _) as [s1 o1]. cbn [fst snd] in *.
    destruct (process_events _ _ _ _ evs) as [[r2 o2]|] eqn:E2; [|done]. cbn. intros [= <- <-].
    destruct (process_events_faithful now evs Hev (mkReceiver (rx_decoder r) (active_epoch r) s1 (ack_state r)) _ _ HF0 E2)
      as (HF2 & Hu2 & D2 & A2).
    split; [done|]. split; [by apply Forall_app|done].
  - destruct (process_events _ _ _ r evs) as [[r2 o2]|] eqn:E2; [|done]. cbn. intros [= <- <-].
    by apply (process_events_faithful now evs Hev r).
Qed.

Lemma flush_receiver_faithful now r r' out :
  ra_faithful sentf (reassembly r) -> flush_receiver r now = Some (r', out) ->
  ra_faithful sentf (reassembly r') /\ Forall (unit_faithful sentf) out /\
  rx_decoder r' = rx_decoder r /\ active_epoch r' = active_epoch r.
Proof.
  intros HF. unfold flush_receiver. destruct (flush_reorder _ now) as [[s1 o1]|] eqn:E1; [|done]. cbn.
  intros [= <- <-]. destruct (flush_faithful sentf sentf_ok _ now _ _ HF E1). done.
Qed.

Definition in_epoch (r : VideoReceiver) : Prop := active_epoch r = None \/ active_epoch r = Some e.

Lemma decode_symbol_of buf sym :
  decode_msg w buf = Some sym ->
  exists m, parse_symbol_msg_versioned buf = Ok m /\ symbol_of m = (e, true, sym).
Proof.
  unfold decode_msg. cbn. destruct (parse_symbol_msg_versioned buf) as [[m|[ep q p|ep r b n p]]|]; try done.
  - destruct (Z.eqb_spec ep e) as [->|]; [|done]. intros [= <-]. by eexists.
  - destruct (Z.eqb_spec ep e) as [->|]; [|done]. intros [= <-]. by eexists.
Qed.

Lemma on_message_faithful now r buf sym d evs r' out :
  in_epoch r -> ra_faithful sentf (reassembly r) -> decode_msg w buf = Some sym ->
  push_symbol (rx_decoder r) sym = Some (d, evs) -> Forall event_sent evs ->
  on_message r buf now = Some (r', out) ->
  in_epoch r' /\ ra_faithful sentf (reassembly r') /\ rx_decoder r' = d /\ Forall (unit_faithful sentf) out.
Proof.
  intros Hin HF Hd Hp Hev. destruct (decode_symbol_of buf sym Hd) as (m & Em & Es).
  unfold on_message. rewrite Em, Es.
  assert (Ha : accept_epoch r e true now =
    (mkReceiver (rx_decoder r) (Some e) (reassembly r) (ack_state r), [], true)).
  { unfold accept_epoch. destruct Hin as [E|E]; rewrite E; [done|]. rewrite Z.eqb_refl.
    destruct r; cbn in *; by subst. }
  rewrite Ha. cbn [negb rx_decoder reassembly active_epoch ack_state]. rewrite Hp. cbn [mbind option_bind].
  destruct (process_decoder_events _ _ _ _ evs) as [[r1 o1]|] eqn:E1; [|done]. cbn [mbind option_bind].
  destruct (flush_receiver r1 now) as [[r2 o2]|] eqn:E2; [|done]. cbn [mbind option_bind]. intros [= <- <-].
  destruct (process_decoder_events_faithful now evs
    (mkReceiver d (Some e) (reassembly r) (ack_state r)) r1 o1 Hev HF E1) as (HF1 & Hu1 & D1 & A1).
  destruct (flush_receiver_faithful now r1 r2 o2 HF1 E2) as (HF2 & Hu2 & D2 & A2).
  split; [right; by rewrite A2, A1|]. split; [done|]. split; [by rewrite D2, D1|]. by apply Forall_app.
Qed.

Lemma tick_faithful now r r' out :
  in_epoch r -> ra_faithful sentf (reassembly r) -> tick_events r now = Some (r', out) ->
  in_epoch r' /\ ra_faithful sentf (reassembly r') /\ rx_decoder r' = rx_decoder r /\
  Forall (unit_faithful sentf) out.
Proof.
  intros Hin HF. unfold tick_events. destruct (flush_receiver r now) as [[r1 o1]|] eqn:E1; [|done].
  cbn [mbind option_bind]. destruct (flush_receiver_faithful now r r1 o1 HF E1) as (HF1 & Hu1 & D1 & A1).
  unfold tick. destruct (tick_ack _ _ _) as [a ack]. intros [= <- <-]. cbn.
  split; [unfold in_epoch; cbn; by rewrite A1|]. split; [done|]. split; [done|].
  apply Forall_app. split; [done|apply ack_events_faithful].
Qed.

Lemma rx_run_faithful ops : forall r syms d evs r' out,
  in_epoch r -> ra_faithful sentf (reassembly r) ->
  mapM (decode_msg w) (rx_messages ops) = Some syms ->
  push_symbols (rx_decoder r) syms = Some (d, evs) -> Forall event_sent evs ->
  rx_run r ops = Some (r', out) -> Forall (unit_faithful sentf) out.
Proof.
  induction ops as [|op ops IH]; intros r syms d evs r' out Hin HF Hm Hp Hev; cbn [rx_run].
  - by intros [= <- <-].
  - destruct (rx_do r op) as [[r1 o1]|] eqn:E1; [|done]. cbn [mbind option_bind].
    destruct (rx_run r1 ops) as [[r2 o2]|] eqn:E2; [|done]. cbn [mbind option_bind]. intros [= <- <-].
    apply Forall_app. destruct op as [buf now|now].
    + change (rx_messages (OpMessage buf now :: ops)) with (buf :: rx_messages ops) in Hm.
      cbn [mapM] in Hm. destruct (decode_msg w buf) as [sym|] eqn:Ed; [|done]. cbn [mbind option_bind] in Hm.
      destruct (mapM (decode_msg w) (rx_messages ops)) as [syms'|] eqn:Em; [|done].
      cbn [mbind option_bind] in Hm. injection Hm as <-.
      cbn [push_symbols] in Hp. destruct (push_symbol (rx_decoder r) sym) as [[d1 ev1]|] eqn:Ep; [|done].
      cbn [mbind option_bind] in Hp. destruct (push_symbols d1 syms') as [[d2 ev2]|] eqn:Ep2; [|done].
      cbn [mbind option_bind] in Hp. injection Hp as <- <-. apply Forall_app in Hev as [Hev1 Hev2].
      destruct (on_message_faithful now r buf sym d1 ev1 r1 o1 Hin HF Ed Ep Hev1 E1) as (Hin1 & HF1 & D1 & Hu1).
      split; [done|]. rewrite <- D1 in Ep2. by apply (IH r1 syms' _ ev2 r2 o2 Hin1 HF1 eq_refl Ep2).
    + change (rx_messages (OpTick now :: ops)) with (rx_messages ops) in Hm.
      destruct (tick_faithful now r r1 o1 Hin HF E1) as (Hin1 & HF1 & D1 & Hu1).
      split; [done|]. rewrite <- D1 in Hp. by apply (IH r1 syms d evs r2 o2 Hin1 HF1 Hm Hp).
Qed.
End receiver.

(** ** Composition *)

Section compose.
Context (e : Z).
Notation w := (mkSenderWire V2 e).
Context (log : list FecFrame) (srcs : list (list Z)).
Context (Hlog : len log <= 4294967296) (Hsrcs : len srcs <= 4294967296).
Context (Hwf : Forall frame_wf log) (Hfrom : Forall (from_log w log) srcs).

(** What was sent under a sequence number, and under a frame id. *)
Definition source_log (q : Z) : list Z := default [] (srcs !! Z.to_nat q).

(** The frame of an id; where there is none, an empty one of timestamp [dummy]. *)
Definition frame_log (dummy fid : Z) : SentFrame :=
  match log !! Z.to_nat fid with
  | Some f => if len (fr_data f) <=? 4194304 then mkSent (fr_key f) (fr_timestamp_us f) (fr_data f)
              else mkSent false dummy []
  | None => mkSent false dummy []
  end.

Lemma frame_log_ok dummy fid : in_u32 dummy -> sent_ok (frame_log dummy fid).
Proof.
  intros Hd. assert (H0 : sent_ok (mkSent false dummy [])) by (split; [done|split; [constructor|done]]).
  unfold frame_log. destruct (log !! Z.to_nat fid) as [f|] eqn:Ef; [|done].
  destruct (Z.leb_spec (len (fr_data f)) 4194304); [|done].
  rewrite Forall_forall in Hwf. destruct (Hwf f) as [Hb Ht]; [by apply list_elem_of_lookup_2 in Ef|]. done.
Qed.

Lemma index_wrap {A} (l : list A) i x :
  len l <= 4294967296 -> l !! i = Some x -> Z.to_nat (wrap32 (Z.of_nat i)) = i.
Proof.
  intros Hl Hi. apply lookup_lt_Some in Hi. unfold len in Hl. unfold wrap32.
  rewrite Z.mod_small by lia. lia.
Qed.

Lemma source_is_sent dummy p : p ∈ srcs -> payload_sent (frame_log dummy) p.
Proof.
  intros Hp. rewrite Forall_forall in Hfrom. destruct (Hfrom p Hp) as (k & f & chunks & Hk & Hc & Hin).
  exists (wrap32 (Z.of_nat k)). split; [apply wrap32_in|].
  unfold frame_chunks in Hc. cbn in Hc. unfold sent_message, frame_log.
  rewrite (index_wrap log k f Hlog Hk), Hk.
  destruct (Z.leb_spec (len (fr_data f)) 4194304) as [Hl|Hl]; [by exists chunks|].
  unfold chunk_frame_v2, ENCODED_FRAME_MAX in Hc. by rewrite (proj2 (Z.ltb_lt _ _)) in Hc by lia.
Qed.

Lemma source_log_in msgs :
  (forall msg q p, msg ∈ msgs -> decode_msg w msg = Some (Source q p) ->
    exists i, srcs !! i = Some p /\ q = wrap32 (Z.of_nat i)) -> sources_in w source_log msgs.
Proof.
  intros Hmsgs msg q p Hm Hd. destruct (Hmsgs msg q p Hm Hd) as (i & Hi & ->).
  unfold source_log. by rewrite (index_wrap srcs i p Hsrcs Hi), Hi.
Qed.

(** A presented frame that agrees with the log whatever the dummy is in the log. *)
Lemma presented_in_log u :
  (forall dummy, in_u32 dummy -> unit_faithful (frame_log dummy) (RxFrame u)) ->
  exists f, f ∈ log /\ du_data u = fr_data f /\ du_is_key u = fr_key f /\ du_timestamp_us u = fr_timestamp_us f.
Proof.
  intros H. pose proof (H 0 ltac:(done)) as H0. pose proof (H 1 ltac:(done)) as H1.
  cbn in H0, H1. unfold frame_log in H0, H1.
  destruct (log !! Z.to_nat (du_frame_id u)) as [f|] eqn:Ef.
  - apply list_elem_of_lookup_2 in Ef. destruct (len (fr_data f) <=? 4194304); [by exists f|].
    cbn in H0, H1. destruct H0 as (_ & _ & H0), H1 as (_ & _ & H1). congruence.
  - cbn in H0, H1. destruct H0 as (_ & _ & H0), H1 as (_ & _ & H1). congruence.
Qed.

(** A recovered payload is a source that was sent: any log that agrees with the
    sources contains it, and two such logs may differ everywhere else. *)
Lemma recovered_is_sent msgs syms ms mb d events q p v :
  (forall msg q p, msg ∈ msgs -> decode_msg w msg = Some (Source q p) ->
    exists i, srcs !! i = Some p /\ q = wrap32 (Z.of_nat i)) ->
  (forall truth, sources_in w truth msgs -> Forall (truthful truth) syms) ->
  roomy_run (new ms mb) syms -> push_symbols (new ms mb) syms = Some (d, events) -> no_loss events ->
  Recovered q p v ∈ events -> p ∈ srcs.
Proof.
  intros Hmsgs Htrue Hroom Hp Hn Hin.
  assert (Hval : forall truth, sources_in w truth msgs -> p = truth q).
  { intros truth Hsrc. destruct (new_consistent truth ms mb) as [Hc Hv].
    pose proof (run_sound truth syms _ _ _ (new_inv ms mb) Hc Hv (Htrue truth Hsrc) Hroom Hp Hn) as H.
    rewrite Forall_forall in H. exact (H _ Hin). }
  assert (Hsrc : forall f, (forall q, is_Some (srcs !! Z.to_nat q) -> f q = source_log q) -> sources_in w f msgs).
  { intros f Hf msg q' p' Hm Hd. destruct (Hmsgs msg q' p' Hm Hd) as (i & Hi & ->).
    pose proof (index_wrap srcs i p' Hsrcs Hi) as E. rewrite Hf by (rewrite E; eauto).
    unfold source_log. by rewrite E, Hi. }
  destruct (srcs !! Z.to_nat q) as [x|] eqn:Eq.
  - rewrite (Hval source_log) by (by apply Hsrc). unfold source_log. rewrite Eq.
    by apply list_elem_of_lookup_2 in Eq.
  - exfalso. assert (E1 : p = default [1] (srcs !! Z.to_nat q)).
    { apply (Hval (fun q => default [1] (srcs !! Z.to_nat q))).
      apply Hsrc. intros q' [y Hy]. unfold source_log. by rewrite Hy. }
    rewrite Eq in E1. cbn in E1.
    assert (E0 : p = []).
    { rewrite (Hval source_log) by (by apply Hsrc). unfold source_log. by rewrite Eq. }
    congruence.
Qed.
End compose.

Lemma frames_of_wf ops f : Forall op_ok ops -> f ∈ frames_of ops -> frame_wf f.
Proof.
  unfold frames_of. induction 1 as [|op ops Hop _ IH]; [by intros ?%elem_of_nil|].
  rewrite fmap_cons. cbn [concat]. intros [Hin|Hin]%elem_of_app; [|auto].
  destruct op; cbn in Hin; try (by apply elem_of_nil in Hin). apply list_elem_of_singleton in Hin as ->. exact Hop.
Qed.

(** C1: end to end, from the host's queue to the client's screen. Take any
    interleaving of the host's callers, control messages and FEC task, of a v2
    sender of one epoch and of fewer than 2^32 steps, and let any selection of the
    messages the network took arrive in any order and multiplicity, and none else,
    with ticks in between. Both ends run without a panic, and as long as the decoder
    keeps its entries ([roomy_run]) and gives up no loss span ([no_loss]), every frame it presents is, byte for byte, with its key flag and timestamp,
    one that a caller enqueued. *)
Theorem frames_end_to_end e ops rx_ops now :
  epoch_ok e -> Forall op_ok ops -> len ops < 4294967296 -> Forall op_bytes rx_ops ->
  exists s t outs r evs,
    sender_run (mkSenderWire V2 e) spawn.1 spawn.2 ops = Some (s, t, outs) /\
    rx_run (rx_new now) rx_ops = Some (r, evs) /\
    (rx_messages rx_ops ⊆ sent_of outs ->
     exists syms d events,
       mapM (decode_msg (mkSenderWire V2 e)) (rx_messages rx_ops) = Some syms /\
       push_symbols rx_decoder_new syms = Some (d, events) /\
       (roomy_run rx_decoder_new syms -> no_loss events ->
        forall u, RxFrame u ∈ evs -> exists f, f ∈ frames_of ops /\
          du_data u = fr_data f /\ du_is_key u = fr_key f /\ du_timestamp_us u = fr_timestamp_us f)).
Proof.
  intros He Hops Hlen Hbytes. set (w := mkSenderWire V2 e). assert (Hw : wire_ok w) by exact He.
  destruct (sender_run_ok w ops Hw Hops [] _ _ (spawn_inv w)) as (s & t & outs & Es & _ & HL).
  destruct (rx_run_ok rx_ops Hbytes Fresh None _ (rx_new_inv now)) as (r & evs & Er & _).
  exists s, t, outs, r, evs. do 2 (split; [done|]). intros Hsub.
  destruct (sender_run_prov w Hw ops Hops [] [] [] [] _ _ s t outs (spawn_inv w) (spawn_prov w) Es)
    as (log & srcs & [_ Plog _ _ Psrc _] & Llog & Lsrc & Hmsgs). cbn [app] in *.
  assert (Htrue : forall truth, sources_in w truth (sent_of outs) -> Forall (msg_true w truth) (rx_messages rx_ops)).
  { intros truth Hsrc. specialize (HL truth (Forall_nil_2 _) Hsrc). rewrite Forall_forall in HL |- *. auto. }
  assert (Hlogl : len log <= 4294967296) by (unfold len in *; lia).
  assert (Hsrcl : len srcs <= 4294967296) by (unfold len in *; lia).
  assert (Hwf : Forall frame_wf log) by (eapply Forall_impl; [exact Plog|]; intros f; by apply frames_of_wf).
  assert (Hdec : exists syms, mapM (decode_msg w) (rx_messages rx_ops) = Some syms /\
    forall truth, sources_in w truth (sent_of outs) -> Forall (truthful truth) syms).
  { pose proof (Htrue (source_log srcs) (source_log_in e srcs Hsrcl _ Hmsgs)) as H0.
    assert (Hm : exists syms, mapM (decode_msg w) (rx_messages rx_ops) = Some syms).
    { clear -H0. induction H0 as [|msg msgs (sym & Hd & _) _ [syms IH]]; [by eexists|].
      exists (sym :: syms). cbn [mapM]. rewrite Hd. cbn [mbind option_bind]. by rewrite IH. }
    destruct Hm as [syms Em]. exists syms. split; [done|]. intros truth Hsrc.
    specialize (Htrue truth Hsrc). apply mapM_Some_1 in Em.
    clear -Em Htrue. induction Em as [|msg sym msgs syms Hd _ IH]; [done|].
    apply Forall_cons in Htrue as [(sym' & Hd' & Ht) Hts]. constructor; [congruence|auto]. }
  destruct Hdec as (syms & Em & Ht).
  assert (Hwfs : Forall symbol_wf syms).
  { eapply Forall_impl; [apply (Ht (source_log srcs)), (source_log_in e srcs Hsrcl _ Hmsgs)|].
    intros sym. apply truthful_wf. }
  destruct (push_symbols_inv _ _ (new_inv RX_DECODER_MAX_SYMBOLS RX_DECODER_MAX_BYTES) Hwfs) as (d & events & Ep & _).
  exists syms, d, events. do 2 (split; [done|]). intros Hroom Hn u Hu.
  destruct (presented_in_log log u) as (f & Hf & Hd).
  - intros dummy Hdu.
    assert (Hev : Forall (event_sent (frame_log log dummy)) events).
    { apply Forall_forall. intros [q p v| |] Hin; cbn; [|done..].
      apply (source_is_sent e log srcs Hlogl Psrc).
      by eapply (recovered_is_sent e srcs Hsrcl (sent_of outs) syms). }
    pose proof (rx_run_faithful e (frame_log log dummy) (fun fid => frame_log_ok log Hwf dummy fid Hdu) rx_ops
      (rx_new now) syms d events r evs (or_introl eq_refl) (initial_faithful (frame_log log dummy)) Em Ep Hev Er) as HF.
    rewrite Forall_forall in HF. exact (HF _ Hu).
  - exists f. split; [|done]. rewrite Forall_forall in Plog. by apply Plog.
Qed.

(** Nine key frames of one chunk each: the message of frame 3 is lost, the first is
    repeated, and all nine are presented. *)
Definition demo_rx_ops : list rx_op :=
  ((fun m => OpMessage m 20) <$> take 3 demo_long_sent ++ take 1 demo_long_sent ++ drop 4 demo_long_sent) ++ [OpTick 30].

Definition demo_presented : list RxEvent :=
  match rx_run (rx_new 0) demo_rx_ops with Some (_, evs) => evs | None => [] end.

Definition is_frame (d : list Z) (ev : RxEvent) : bool :=
  match ev with RxFrame u => bool_decide (du_data u = d) | _ => false end.

Lemma frames_end_to_end_witness :
  existsb (is_frame [3; 7]) demo_presented = true /\
  forall u, RxFrame u ∈ demo_presented -> exists f, f ∈ frames_of demo_long_ops /\
    du_data u = fr_data f /\ du_is_key u = fr_key f /\ du_timestamp_us u = fr_timestamp_us f.
Proof.
  split; [vm_compute; reflexivity|].
  destruct (frames_end_to_end 9 demo_long_ops demo_rx_ops 0) as (s & t & outs & r & evs & Es & Er & H).
  - exact demo_wire_ok.
  - exact demo_long_ops_ok.
  - vm_compute. reflexivity.
  - by_decide.
  - assert (Eo : sent_of outs = demo_long_sent).
    { unfold demo_long_sent, demo_wire. rewrite Es. reflexivity. }
    assert (Ev : demo_presented = evs) by (unfold demo_presented; rewrite Er; reflexivity).
    rewrite Ev. destruct H as (syms & d & events & Em & Ep & H).
    { rewrite Eo. by_decide. }
    assert (Hroom : roomy_run rx_decoder_new syms /\ no_loss events).
    { vm_compute in Em. injection Em as <-. vm_compute in Ep. injection Ep as _ <-. split; by_decide. }
    destruct Hroom as [Hr Hn]. exact (H Hr Hn).
Defined.
