(* ===== verification/FrameQueue.v ===== *)
(** * The client's queues (client-transport/src/frame_queue.rs)

    [FrameQueue], the bounded queue of frames and discontinuities between the
    receive thread and the decoder thread, and [SampleQueue], its audio
    counterpart. Every operation runs under one lock, so it is one function on
    the state; a blocking wait is the alternation of its lock-held parts with
    whatever the other threads do while it waits. *)
From S2P Require Import Prelude VideoRx.

Definition DEFAULT_FRAME_CAP : Z := 16.
Definition DEFAULT_AUDIO_CAP : Z := 64.

(** ** State *)

Inductive VideoEvent : Type :=
| EvFrame (u : DecodeUnit)
| EvDiscontinuity (generation : Z) (epoch : Z) (reason : DiscontinuityReason).

Definition as_frame (ev : VideoEvent) : option DecodeUnit :=
  match ev with EvFrame u => Some u | EvDiscontinuity _ _ _ => None end.

Record QueueState := mkQueueState {
  events : list VideoEvent;
  closed : bool;
  overflowed : bool;
  next_generation : Z;
  recovery : option (Z * Z)
}.

Record FrameQueue := mkFrameQueue {
  fq_state : QueueState;
  fq_cap : Z
}.

Record FramePush := mkFramePush {
  push_overflowed : bool;
  push_generation : option Z
}.

Definition queue_state_default : QueueState := mkQueueState [] false false 0 None.

Definition fq_new (cap : Z) : FrameQueue := mkFrameQueue queue_state_default (Z.max cap 1).

(** ** Operations *)

Definition open_recovery_locked (st : QueueState) (epoch : Z) : QueueState * Z :=
  let generation := Z.max (wrap64 (next_generation st + 1)) 1 in
  (mkQueueState (events st) (closed st) (overflowed st) generation (Some (generation, epoch)), generation).

Definition set_events (st : QueueState) (l : list VideoEvent) : QueueState :=
  mkQueueState l (closed st) (overflowed st) (next_generation st) (recovery st).
Definition set_overflowed (st : QueueState) (b : bool) : QueueState :=
  mkQueueState (events st) (closed st) b (next_generation st) (recovery st).
Definition set_recovery (st : QueueState) (r : option (Z * Z)) : QueueState :=
  mkQueueState (events st) (closed st) (overflowed st) (next_generation st) r.
Definition push_back (st : QueueState) (ev : VideoEvent) : QueueState := set_events st (events st ++ [ev]).

Definition push_frame_reporting_overflow (cap : Z) (st : QueueState) (unit : DecodeUnit) :
  QueueState * option FramePush :=
  if closed st then (st, None)
  else if cap <=? len (events st) then
    let epoch := du_epoch unit in
    let '(st, opened) := open_recovery_locked (set_events st []) epoch in
    let st := set_overflowed (push_back st (EvDiscontinuity opened epoch QueueOverflow)) true in
    (push_back st (EvFrame unit), Some (mkFramePush true (Some opened)))
  else (push_back st (EvFrame unit), Some (mkFramePush false None)).

Definition push_frame (cap : Z) (st : QueueState) (unit : DecodeUnit) : QueueState * bool :=
  let '(st, r) := push_frame_reporting_overflow cap st unit in
  (st, match r with Some _ => true | None => false end).

Definition push_discontinuity (cap : Z) (st : QueueState) (epoch : Z) (reason : DiscontinuityReason) :
  QueueState * option Z :=
  if closed st then (st, None)
  else
    let st := if cap <=? len (events st) then set_events (set_overflowed st true) [] else st in
    let '(st, generation) := open_recovery_locked st epoch in
    (push_back st (EvDiscontinuity generation epoch reason), Some generation).

Definition try_event (st : QueueState) : QueueState * option VideoEvent :=
  match events st with
  | [] => (st, None)
  | ev :: evs => (set_events st evs, Some ev)
  end.

Definition close (st : QueueState) : QueueState :=
  mkQueueState (events st) true (overflowed st) (next_generation st) (recovery st).

Definition take_overflowed (st : QueueState) : QueueState * bool := (set_overflowed st false, overflowed st).

Definition acknowledge_recovery (st : QueueState) (generation epoch : Z) : QueueState * bool :=
  if bool_decide (recovery st = Some (generation, epoch)) then (set_recovery st None, true) else (st, false).

Definition clear_recovery (st : QueueState) : QueueState := set_recovery st None.

(** [try_pop]: discontinuities in front are skipped. The code takes the lock once
    per event; a [try_pop] that others interrupt is a sequence of [try_event]. *)
Fixpoint pop_frame (evs : list VideoEvent) : list VideoEvent * option DecodeUnit :=
  match evs with
  | [] => ([], None)
  | EvFrame u :: evs => (evs, Some u)
  | EvDiscontinuity _ _ _ :: evs => pop_frame evs
  end.
Definition try_pop (st : QueueState) : QueueState * option DecodeUnit :=
  let '(evs, u) := pop_frame (events st) in (set_events st evs, u).

Definition fq_len (st : QueueState) : Z := len (events st).
Definition fq_is_empty (st : QueueState) : bool := fq_len st =? 0.

(** ** What other threads do *)

Inductive QOp : Type :=
| QPushFrame (u : DecodeUnit)
| QPushDiscontinuity (epoch : Z) (reason : DiscontinuityReason)
| QTryEvent
| QTryPop
| QClose
| QTakeOverflowed
| QAcknowledge (generation epoch : Z)
| QClear.

Definition q_step (cap : Z) (st : QueueState) (op : QOp) : QueueState :=
  match op with
  | QPushFrame u => (push_frame_reporting_overflow cap st u).1
  | QPushDiscontinuity epoch reason => (push_discontinuity cap st epoch reason).1
  | QTryEvent => (try_event st).1
  | QTryPop => (try_pop st).1
  | QClose => close st
  | QTakeOverflowed => (take_overflowed st).1
  | QAcknowledge g e => (acknowledge_recovery st g e).1
  | QClear => clear_recovery st
  end.

Definition q_run (cap : Z) (st : QueueState) (ops : list QOp) : QueueState := foldl (q_step cap) st ops.

(** [wait_event]. Each element of [waits] is one wait on the condition variable:
    what the others did meanwhile, and whether it timed out or no time remained.
    The outer [None]: still waiting when the schedule ends. *)
Fixpoint wait_event (cap : Z) (st : QueueState) (waits : list (list QOp * bool)) :
  option (QueueState * option VideoEvent) :=
  match events st with
  | ev :: evs => Some (set_events st evs, Some ev)
  | [] =>
      if closed st then Some (st, None)
      else
        match waits with
        | [] => None
        | (ops, timed_out) :: waits =>
            let st := q_run cap st ops in
            if (timed_out && (len (events st) =? 0))%bool then Some (st, None) else wait_event cap st waits
        end
  end.

(** [wait_pop]: each element is one call of [wait_event], what the others did
    after it, and whether the deadline has then passed. *)
Fixpoint wait_pop (cap : Z) (st : QueueState) (calls : list (list (list QOp * bool) * list QOp * bool)) :
  option (QueueState * option DecodeUnit) :=
  match calls with
  | [] => None
  | (waits, ops, late) :: calls =>
      '(st, r) ← wait_event cap st waits;
      match r with
      | None => Some (st, None)
      | Some (EvFrame u) => Some (st, Some u)
      | Some (EvDiscontinuity _ _ _) =>
          let st := q_run cap st ops in
          if late then Some (st, None) else wait_pop cap st calls
      end
  end.

(** ** Audio *)

Record SampleState := mkSampleState {
  packets : list (list Z);
  smp_closed : bool
}.

Record SampleQueue := mkSampleQueue {
  sq_state : SampleState;
  sq_cap : Z
}.

Definition sample_new : SampleState := mkSampleState [] false.
Definition sample_queue_new (cap : Z) : SampleQueue := mkSampleQueue sample_new (Z.max cap 1).

Definition drop_body (cap : Z) (l : list (list Z)) : list (list Z) + list (list Z) :=
  if cap <=? len l then inl (tail l) else inr l.

(** [push]; the loop's fuel is its length, [drop_body_exact] in FrameQueueSafe shows it suffices. *)
Definition sample_push (cap : Z) (st : SampleState) (pkt : list Z) : option (SampleState * bool) :=
  if smp_closed st then Some (st, false)
  else
    kept ← loop_fuel (S (length (packets st))) (drop_body cap) (packets st);
    Some (mkSampleState (kept ++ [pkt]) false, true).

Definition sample_try_pop (st : SampleState) : SampleState * option (list Z) :=
  match packets st with
  | [] => (st, None)
  | p :: ps => (mkSampleState ps (smp_closed st), Some p)
  end.

Inductive SOp : Type :=
| SPush (pkt : list Z)
| SPop
| SClose.

Definition s_step (cap : Z) (st : SampleState) (op : SOp) : option SampleState :=
  match op with
  | SPush pkt => fst <$> sample_push cap st pkt
  | SPop => Some (sample_try_pop st).1
  | SClose => Some (mkSampleState (packets st) true)
  end.

Fixpoint s_run (cap : Z) (st : SampleState) (ops : list SOp) : option SampleState :=
  match ops with
  | [] => Some st
  | op :: ops => st ← s_step cap st op; s_run cap st ops
  end.

(** [SampleQueue::wait_pop]; the waits as in [wait_event]. *)
Fixpoint sample_wait_pop (cap : Z) (st : SampleState) (waits : list (list SOp * bool)) :
  option (SampleState * option (list Z)) :=
  match packets st with
  | p :: ps => Some (mkSampleState ps (smp_closed st), Some p)
  | [] =>
      if smp_closed st then Some (st, None)
      else
        match waits with
        | [] => None
        | (ops, timed_out) :: waits =>
            st ← s_run cap st ops;
            if (timed_out && (len (packets st) =? 0))%bool then Some (st, None)
            else sample_wait_pop cap st waits
        end
  end.
