(* ===== verification/FrameQueueSafe.v ===== *)
(** * The client's queues lose nothing silently

    The frame queue as a log with cuts: whatever it drops, a discontinuity
    stands where the loss was; recoveries have identities of their own. *)
From S2P Require Import Prelude VideoRx FrameQueue.

(** ** Logs with cuts *)

Definition is_disc (ev : VideoEvent) : Prop :=
  match ev with EvDiscontinuity _ _ _ => True | EvFrame _ => False end.

(** [lossy L K]: [K] is the published log [L] less some blocks, each followed by a discontinuity. *)
Inductive lossy : list VideoEvent -> list VideoEvent -> Prop :=
| lossy_nil : lossy [] []
| lossy_keep L K ev : lossy L K -> lossy (L ++ [ev]) (K ++ [ev])
| lossy_cut L A B ev : lossy L (A ++ B) -> is_disc ev -> lossy (L ++ [ev]) (A ++ [ev]).

Lemma lossy_sublist L K : lossy L K -> K `sublist_of` L.
Proof.
  induction 1 as [|L K ev _ IH|L A B ev _ IH _]; [done| |].
  - by apply sublist_app.
  - apply sublist_app; [|done]. etrans; [|exact IH]. by apply sublist_inserts_r.
Qed.

Lemma lossy_last L K : lossy L K -> last L = last K.
Proof. induction 1; [done|by rewrite !last_snoc..]. Qed.

Lemma snoc_pair {A} (l K B : list A) x e y : l ++ [x; y] ++ B = K ++ [e] ->
  (B = [] /\ y = e /\ K = l ++ [x]) \/ (exists B', K = l ++ [x; y] ++ B').
Proof.
  destruct B as [|z B _] using rev_ind.
  - intros H. left. rewrite app_nil_r in H. change (l ++ [x; y]) with (l ++ [x] ++ [y]) in H. rewrite app_assoc in H.
    by apply app_inj_tail in H as [<- <-].
  - intros H. right. exists B. rewrite !app_assoc in H. apply app_inj_tail in H as [H _]. by rewrite <- H, <- app_assoc.
Qed.

(** What precedes a frame in [K] preceded it in [L]. *)
Lemma lossy_adjacent L K A x u B :
  lossy L K -> K = A ++ [x; EvFrame u] ++ B -> exists A' B', L = A' ++ [x; EvFrame u] ++ B'.
Proof.
  intros HL. revert A B. induction HL as [|L K ev HL IH|L A0 B0 ev HL IH Hd]; intros A B HK.
  - by destruct A.
  - symmetry in HK. apply snoc_pair in HK as [(-> & <- & ->)|(B' & HK)].
    + apply lossy_last in HL. rewrite last_snoc in HL. apply last_Some in HL as [L' ->].
      exists L', []. by rewrite app_nil_r, <- app_assoc.
    + destruct (IH A B' HK) as (A' & B'' & ->). exists A', (B'' ++ [ev]). by rewrite !app_assoc.
  - symmetry in HK. apply snoc_pair in HK as [(-> & <- & _)|(B' & HK)]; [done|].
    destruct (IH A (B' ++ B0)) as (A' & B'' & ->); [by rewrite HK, !app_assoc|].
    exists A', (B'' ++ [ev]). by rewrite !app_assoc.
Qed.

Lemma lossy_first L K u B : lossy L K -> K = EvFrame u :: B -> exists B', L = EvFrame u :: B'.
Proof.
  intros HL. revert B. induction HL as [|L K ev HL IH|L A0 B0 ev HL IH Hd]; intros B HK; [done| |].
  - destruct K as [|k K]; cbn in HK; injection HK as -> <-.
    + apply lossy_last in HL. destruct L as [|x L] using rev_ind; [by eexists|by rewrite last_snoc in HL].
    + destruct (IH K eq_refl) as [B' ->]. by eexists.
  - destruct A0 as [|a A0]; cbn in HK; injection HK as -> <-; [done|].
    destruct (IH (A0 ++ B0) eq_refl) as [B' ->]. by eexists.
Qed.

(** ** Published and popped *)

(** What a step publishes. *)
Definition q_published (cap : Z) (st : QueueState) (op : QOp) : list VideoEvent :=
  match op with
  | QPushFrame u =>
      match (push_frame_reporting_overflow cap st u).2 with
      | None => []
      | Some (mkFramePush _ (Some g)) => [EvDiscontinuity g (du_epoch u) QueueOverflow; EvFrame u]
      | Some (mkFramePush _ None) => [EvFrame u]
      end
  | QPushDiscontinuity epoch reason =>
      match (push_discontinuity cap st epoch reason).2 with
      | None => []
      | Some g => [EvDiscontinuity g epoch reason]
      end
  | _ => []
  end.

(** The discontinuities a [try_pop] skips. *)
Fixpoint front_discs (evs : list VideoEvent) : list VideoEvent :=
  match evs with EvDiscontinuity g e r :: evs => EvDiscontinuity g e r :: front_discs evs | _ => [] end.

(** What a step returns to the consumer, after what it skips. *)
Definition q_popped (cap : Z) (st : QueueState) (op : QOp) : list VideoEvent :=
  match op with
  | QTryEvent => option_list (try_event st).2
  | QTryPop => front_discs (events st) ++ (EvFrame <$> option_list (try_pop st).2)
  | _ => []
  end.

(** The frames pushed before the queue is closed. *)
Fixpoint pushed_frames (ops : list QOp) : list DecodeUnit :=
  match ops with
  | [] | QClose :: _ => []
  | QPushFrame u :: ops => u :: pushed_frames ops
  | _ :: ops => pushed_frames ops
  end.

Fixpoint q_log (cap : Z) (st : QueueState) (ops : list QOp) : list VideoEvent :=
  match ops with [] => [] | op :: ops => q_published cap st op ++ q_log cap (q_step cap st op) ops end.
Fixpoint q_seen (cap : Z) (st : QueueState) (ops : list QOp) : list VideoEvent :=
  match ops with [] => [] | op :: ops => q_popped cap st op ++ q_seen cap (q_step cap st op) ops end.

Lemma pop_frame_spec evs :
  front_discs evs ++ (EvFrame <$> option_list (pop_frame evs).2) ++ (pop_frame evs).1 = evs /\
  (pop_frame evs).2 = head (omap as_frame evs).
Proof. induction evs as [|[u|g e r] evs [IH1 IH2]]; cbn [pop_frame front_discs]; [done..|]. split; [cbn; by rewrite IH1|exact IH2]. Qed.

Lemma pop_frame_suffix evs : exists k, (pop_frame evs).1 = drop k evs.
Proof.
  destruct (pop_frame_spec evs) as [E _]. rewrite app_assoc in E. eexists.
  rewrite <- E at 2. by rewrite drop_app_length.
Qed.

Lemma try_pop_events st : (try_pop st).2 = (pop_frame (events st)).2 /\ events (try_pop st).1 = (pop_frame (events st)).1.
Proof. unfold try_pop. by destruct (pop_frame _). Qed.

Lemma try_event_head st : (try_event st).2 = head (events st).
Proof. unfold try_event. by destruct (events st). Qed.

Lemma try_pop_head st : (try_pop st).2 = head (omap as_frame (events st)).
Proof. destruct (try_pop_events st) as [-> _]. apply pop_frame_spec. Qed.

(** A pop takes what it returns off the front. *)
Lemma q_popped_app cap st op :
  match op with QTryEvent | QTryPop => True | _ => False end ->
  q_popped cap st op ++ events (q_step cap st op) = events st.
Proof.
  destruct op; try done; intros _; cbn [q_popped q_step].
  - unfold try_event. by destruct (events st) eqn:E.
  - destruct (try_pop_events st) as [-> ->]. rewrite <- app_assoc. apply pop_frame_spec.
Qed.

(** A push on an open queue is published, on a closed one it is not; only a close closes. *)
Lemma q_step_published cap st op :
  omap as_frame (q_published cap st op) =
    match op with QPushFrame u => if closed st then [] else [u] | _ => [] end /\
  closed (q_step cap st op) = (closed st || match op with QClose => true | _ => false end)%bool.
Proof.
  destruct op as [u|e r| | | | |g e|]; cbn [q_published q_step]; (split; [|try (by rewrite orb_false_r)]); try done.
  - unfold push_frame_reporting_overflow. destruct (closed st); [done|]. by case_test.
  - unfold push_frame_reporting_overflow. destruct (closed st) eqn:E; [done|]. by case_test.
  - unfold push_discontinuity. destruct (closed st); [done|]. by case_test.
  - unfold push_discontinuity. destruct (closed st) eqn:E; [done|]. by case_test.
  - unfold try_event. destruct (events st); by rewrite orb_false_r.
  - unfold try_pop. destruct (pop_frame _). by rewrite orb_false_r.
  - by rewrite orb_true_r.
  - unfold acknowledge_recovery. case_bool_decide; by rewrite orb_false_r.
Qed.

Lemma q_log_closed cap ops : forall st, closed st = true -> omap as_frame (q_log cap st ops) = [].
Proof.
  induction ops as [|op ops IH]; intros st Hc; cbn [q_log]; [done|].
  destruct (q_step_published cap st op) as [Hp Hcl]. rewrite omap_app, Hp, IH by (by rewrite Hcl, Hc).
  rewrite Hc. by destruct op.
Qed.

Lemma q_log_frames cap ops : forall st, closed st = false -> omap as_frame (q_log cap st ops) = pushed_frames ops.
Proof.
  induction ops as [|op ops IH]; intros st Hc; cbn [q_log]; [done|].
  destruct (q_step_published cap st op) as [Hp Hcl]. rewrite omap_app, Hp, Hc. rewrite Hc in Hcl.
  destruct op; cbn [pushed_frames]; try (by rewrite IH by exact Hcl). by rewrite q_log_closed.
Qed.

Lemma q_run_open cap ops : forall st, closed st = false -> QClose ∉ ops -> closed (q_run cap st ops) = false.
Proof.
  induction ops as [|op ops IH]; intros st Hc Hn; [done|]. apply not_elem_of_cons in Hn as [Ho Hn].
  apply (IH (q_step cap st op)); [|done]. destruct (q_step_published cap st op) as [_ ->]. rewrite Hc. by destruct op.
Qed.

Lemma q_step_lossy cap st op L X :
  lossy L (X ++ events st) ->
  lossy (L ++ q_published cap st op) ((X ++ q_popped cap st op) ++ events (q_step cap st op)).
Proof.
  intros HL.
  assert (Hsame : forall st', events st' = events st -> lossy (L ++ []) ((X ++ []) ++ events st'))
    by (intros st' ->; by rewrite !app_nil_r).
  destruct op as [u|e r| | | | |g e|]; cbn [q_published q_popped q_step]; try (by apply Hsame).
  - unfold push_frame_reporting_overflow. destruct (closed st); [by apply Hsame|].
    case_test; cbn; rewrite app_nil_r.
    + change [?a; ?b] with ([a] ++ [b]). rewrite !app_assoc. apply lossy_keep.
      by eapply lossy_cut.
    + rewrite app_assoc. by apply lossy_keep.
  - unfold push_discontinuity. destruct (closed st); [by apply Hsame|].
    case_test; cbn; rewrite app_nil_r.
    + by eapply lossy_cut.
    + rewrite app_assoc. by apply lossy_keep.
  - pose proof (q_popped_app cap st QTryEvent I) as E. cbn [q_popped q_step] in E. by rewrite app_nil_r, <- app_assoc, E.
  - pose proof (q_popped_app cap st QTryPop I) as E. cbn [q_popped q_step] in E. by rewrite app_nil_r, <- app_assoc, E.
  - apply Hsame. unfold acknowledge_recovery. by case_bool_decide.
Qed.

Lemma q_run_lossy cap ops : forall st L X, lossy L (X ++ events st) ->
  lossy (L ++ q_log cap st ops) ((X ++ q_seen cap st ops) ++ events (q_run cap st ops)).
Proof.
  induction ops as [|op ops IH]; intros st L X HL; cbn [q_log q_seen].
  - by rewrite !app_nil_r.
  - rewrite !app_assoc. apply (IH (q_step cap st op)). by apply q_step_lossy.
Qed.

(** ** Capacity *)

Lemma q_step_cap cap st op :
  len (events st) <= Z.max cap 2 -> len (events (q_step cap st op)) <= Z.max cap 2.
Proof.
  intros H. pose proof (len_nonneg (events st)).
  destruct op as [u|e r| | | | |g e|]; cbn [q_step]; try done.
  - unfold push_frame_reporting_overflow. destruct (closed st); [done|]. case_test; cbn; rewrite ?len_snoc; [|lia].
    unfold len. cbn. lia.
  - unfold push_discontinuity. destruct (closed st); [done|]. case_test; cbn; rewrite ?len_snoc; [|lia].
    unfold len. cbn. lia.
  - pose proof (q_popped_app cap st QTryEvent I) as E. apply (f_equal len) in E. rewrite len_app in E.
    pose proof (len_nonneg (q_popped cap st QTryEvent)). cbn [q_step] in E. lia.
  - pose proof (q_popped_app cap st QTryPop I) as E. apply (f_equal len) in E. rewrite len_app in E.
    pose proof (len_nonneg (q_popped cap st QTryPop)). cbn [q_step] in E. lia.
  - unfold acknowledge_recovery. by case_bool_decide.
Qed.

(** ** Recoveries *)

Definition disc_id (ev : VideoEvent) : option (Z * Z) :=
  match ev with EvDiscontinuity g e _ => Some (g, e) | EvFrame _ => None end.
Definition disc_ids (l : list VideoEvent) : list (Z * Z) := omap disc_id l.

(** Fewer than 2^64 recoveries have been opened; their generations rise by one. *)
Record gen_inv (n : nat) (L : list VideoEvent) (st : QueueState) : Prop := {
  gi_range : 0 <= next_generation st <= Z.of_nat n;
  gi_ids : fst <$> disc_ids L = seqZ 1 (next_generation st);
  gi_recovery : forall r, recovery st = Some r -> last (disc_ids L) = Some r
}.

Lemma open_recovery_spec st e :
  0 <= next_generation st < 18446744073709551615 ->
  open_recovery_locked st e =
    (mkQueueState (events st) (closed st) (overflowed st) (next_generation st + 1) (Some (next_generation st + 1, e)),
     next_generation st + 1).
Proof. intros H. unfold open_recovery_locked. replace (Z.max _ 1) with (next_generation st + 1) by wrap_lia. done. Qed.

Lemma last_seqZ n : 0 < n -> last (seqZ 1 n) = Some n.
Proof.
  intros H. replace n with (n - 1 + 1) at 1 by lia. rewrite seqZ_app by lia.
  rewrite (seqZ_cons (1 + (n - 1)) 1), (seqZ_nil _ (Z.pred 1)) by done. rewrite last_snoc. f_equal. lia.
Qed.

Lemma disc_ids_app l k : disc_ids (l ++ k) = disc_ids l ++ disc_ids k.
Proof. apply omap_app. Qed.

(** Opening a recovery and publishing its event. *)
Lemma gen_inv_open n L st st' e ev evs :
  gen_inv n L st -> 0 <= next_generation st ->
  next_generation st' = next_generation st + 1 -> recovery st' = Some (next_generation st + 1, e) ->
  disc_id ev = Some (next_generation st + 1, e) -> disc_ids evs = [] ->
  gen_inv (S n) (L ++ ev :: evs) st'.
Proof.
  intros [G1 G2 G3] H0 Hg Hr Hd He.
  assert (E : disc_ids (L ++ ev :: evs) = disc_ids L ++ [(next_generation st + 1, e)]).
  { rewrite disc_ids_app. f_equal. change (ev :: evs) with ([ev] ++ evs). rewrite disc_ids_app, He, app_nil_r.
    unfold disc_ids. cbn. by rewrite Hd. }
  split; rewrite ?E, ?Hg.
  - lia.
  - rewrite fmap_app, G2. cbn. rewrite (seqZ_app 1 (next_generation st) 1) by lia.
    f_equal. rewrite seqZ_cons by lia. rewrite seqZ_nil by lia. f_equal. lia.
  - intros r. rewrite Hr, last_snoc. congruence.
Qed.

Lemma gen_inv_same n L st st' evs :
  gen_inv n L st -> next_generation st' = next_generation st -> (recovery st' = recovery st \/ recovery st' = None) ->
  disc_ids evs = [] -> gen_inv (S n) (L ++ evs) st'.
Proof.
  intros [G1 G2 G3] Hg Hr He. split; rewrite ?disc_ids_app, ?He, ?app_nil_r, ?Hg; [lia|done|].
  intros r H. apply G3. destruct Hr; congruence.
Qed.

Lemma q_step_gen cap n L st op :
  Z.of_nat n < 18446744073709551615 -> gen_inv n L st -> gen_inv (S n) (L ++ q_published cap st op) (q_step cap st op).
Proof.
  intros Hn HG. pose proof (gi_range _ _ _ HG) as Hr.
  assert (Hopen : forall s e, next_generation s = next_generation st -> open_recovery_locked s e =
    (mkQueueState (events s) (closed s) (overflowed s) (next_generation st + 1) (Some (next_generation st + 1, e)),
     next_generation st + 1)) by (intros s e Es; rewrite open_recovery_spec; rewrite Es; [done|lia]).
  destruct op as [u|e r| | | | |g e|]; cbn [q_published q_step].
  - unfold push_frame_reporting_overflow. destruct (closed st); [by apply (gen_inv_same n L st); auto|].
    case_test; [|apply (gen_inv_same n L st); auto].
    rewrite (Hopen (set_events st [])) by done. cbn [fst snd]. eapply (gen_inv_open n L st); try done. lia.
  - unfold push_discontinuity. destruct (closed st); [by apply (gen_inv_same n L st); auto|].
    rewrite Hopen by (by case_match). cbn [fst snd]. eapply (gen_inv_open n L st); try done. lia.
  - apply (gen_inv_same n L st); auto; unfold try_event; destruct (events st); cbn; auto.
  - apply (gen_inv_same n L st); auto; unfold try_pop; destruct (pop_frame _); cbn; auto.
  - apply (gen_inv_same n L st); auto.
  - apply (gen_inv_same n L st); auto.
  - apply (gen_inv_same n L st); auto; unfold acknowledge_recovery; case_bool_decide; cbn; auto.
  - apply (gen_inv_same n L st); cbn; auto.
Qed.

Lemma q_run_gen cap ops : forall n L st, Z.of_nat (n + length ops) < 18446744073709551616 -> gen_inv n L st ->
  gen_inv (n + length ops) (L ++ q_log cap st ops) (q_run cap st ops).
Proof.
  induction ops as [|op ops IH]; intros n L st Hn HG; cbn [q_log length].
  - by rewrite app_nil_r, Nat.add_0_r.
  - rewrite app_assoc. replace (n + S (length ops))%nat with (S n + length ops)%nat by lia.
    apply (IH (S n)); [cbn in *; lia|]. apply q_step_gen; [cbn in *; lia|done].
Qed.

(** ** Waiting *)

(** The state after the first [k] waits. *)
Definition after_waits (cap : Z) (st : QueueState) (waits : list (list QOp * bool)) (k : nat) : QueueState :=
  foldl (fun st w => q_run cap st w.1) st (take k waits).

Lemma wait_event_run cap waits : forall st st' r, wait_event cap st waits = Some (st', r) ->
  exists k, (k <= length waits)%nat /\
    match r with
    | Some ev => events (after_waits cap st waits k) = ev :: events st' /\ st' = set_events (after_waits cap st waits k) (events st')
    | None => events st' = [] /\ st' = after_waits cap st waits k /\
        (closed st' = true \/ exists j ops, waits !! j = Some (ops, true) /\ k = S j)
    end.
Proof.
  induction waits as [|[ops late] waits IH]; intros st st' r; cbn [wait_event];
    (destruct (events st) as [|ev evs] eqn:E; [|intros [= <- <-]; exists 0%nat; exact (conj (Nat.le_0_l _) (conj E eq_refl))]);
    destruct (closed st) eqn:Ec; try (intros [= <- <-]; exists 0%nat; split; [lia|by auto]); [done|].
  case_test.
  - destruct late; [|done]. cbn [andb] in *. intros [= <- <-]. exists 1%nat. split; [cbn; lia|]. reflect_bools.
    split; [by apply len_zero|]. split; [done|]. right. by exists 0%nat, ops.
  - intros H. destruct (IH _ _ _ H) as (k & Hk & Hr). exists (S k). split; [cbn; lia|].
    change (after_waits cap st ((ops, late) :: waits) (S k)) with (after_waits cap (q_run cap st ops) waits k).
    destruct r as [ev|]; [done|]. destruct Hr as (H1 & H2 & [H3|(j & o & Hj & ->)]); (split; [done|]; split; [done|]);
      [by left|right; by exists (S j), o].
Qed.

(** ** Audio *)

(** The last [cap] elements. *)
Definition lastn {A} (cap : Z) (l : list A) : list A := drop (length l - Z.to_nat cap) l.

(** What the queue promises: it holds the newest [cap] packets. *)
Definition s_spec (cap : Z) (st : SampleState) (op : SOp) : SampleState :=
  match op with
  | SPush pkt => if smp_closed st then st else mkSampleState (lastn cap (packets st ++ [pkt])) false
  | SPop => mkSampleState (tail (packets st)) (smp_closed st)
  | SClose => mkSampleState (packets st) true
  end.

(** The loop drops no more than it must. *)
Lemma drop_body_exact cap (l : list (list Z)) : 1 <= cap ->
  loop_fuel (S (length l)) (drop_body cap) l = Some (drop (length l + 1 - Z.to_nat cap) l).
Proof.
  intros Hc. induction l as [|p l IH].
  - cbn [loop_fuel length]. unfold drop_body. rewrite (proj2 (Z.leb_gt _ _)) by (unfold len; cbn; lia). by rewrite drop_nil.
  - change (loop_fuel (S (length (p :: l))) (drop_body cap) (p :: l)) with (match drop_body cap (p :: l) with
      inl s => loop_fuel (S (length l)) (drop_body cap) s | inr r => Some r end).
    unfold drop_body at 1. cbn [length]. case_test; cbn [tail].
    + rewrite IH. f_equal. unfold len in *; cbn in *.
      by replace (S (length l + 1) - Z.to_nat cap)%nat with (S (length l + 1 - Z.to_nat cap)) by lia.
    + unfold len in *; cbn in *. by replace (S (length l + 1) - Z.to_nat cap)%nat with 0%nat by lia.
Qed.

Lemma s_step_spec cap st op : 1 <= cap -> s_step cap st op = Some (s_spec cap st op).
Proof.
  intros Hc. destruct op as [pkt| |]; cbn [s_step s_spec]; [|by destruct st as [[]]|done].
  unfold sample_push. destruct (smp_closed st); [done|]. rewrite drop_body_exact by done.
  cbn [mbind option_bind fmap option_fmap option_map fst]. unfold lastn. do 2 f_equal. rewrite length_app. cbn [length].
  rewrite drop_app_le by lia. done.
Qed.

Lemma s_run_spec cap ops : 1 <= cap -> forall st, s_run cap st ops = Some (foldl (s_spec cap) st ops).
Proof.
  intros Hc. induction ops as [|op ops IH]; intros st; [done|]. cbn [s_run]. rewrite s_step_spec by done. apply IH.
Qed.

Lemma s_spec_cap cap st op : 1 <= cap -> len (packets st) <= cap -> len (packets (s_spec cap st op)) <= cap.
Proof.
  intros Hc Hl. unfold len in *. destruct op as [pkt| |]; cbn [s_spec].
  - destruct (smp_closed st); [done|]. cbn [packets]. unfold lastn. rewrite length_drop, length_app. cbn. lia.
  - cbn [packets]. destruct (packets st); cbn in *; lia.
  - done.
Qed.

(** ** Properties *)


(** recoveries have identities. The generations published are 1, 2, 3, ...
    in order; a recovery that is open is the one of the newest discontinuity;
    so an acknowledgement of any other generation, or with another epoch,
    changes nothing, and the right one closes it. *)
Theorem recovery_identity cap ops :
  Z.of_nat (length ops) < 18446744073709551616 ->
  let cap := fq_cap (fq_new cap) in
  let L := q_log cap queue_state_default ops in
  let st := q_run cap queue_state_default ops in
  fst <$> disc_ids L = seqZ 1 (next_generation st) /\
  (forall g e, recovery st = Some (g, e) -> g = next_generation st /\ last (disc_ids L) = Some (g, e) /\
     acknowledge_recovery st g e = (set_recovery st None, true)) /\
  (forall g e, last (disc_ids L) <> Some (g, e) -> acknowledge_recovery st g e = (st, false)).
Proof.
  intros Hn. cbv zeta. set (c := fq_cap _).
  assert (G0 : gen_inv 0 [] queue_state_default) by (split; cbn; [lia|done|done]).
  pose proof (q_run_gen c ops 0 [] queue_state_default Hn G0) as [G1 G2 G3]. cbn [app] in *.
  split; [done|]. split.
  - intros g e Hr. pose proof (G3 _ Hr) as Hl. split.
    + assert (Hl2 : last (fst <$> disc_ids (q_log c queue_state_default ops)) = Some g) by (by rewrite fmap_last, Hl).
      rewrite G2 in Hl2. destruct (decide (next_generation (q_run c queue_state_default ops) = 0)) as [E|E].
      * by rewrite E in Hl2.
      * rewrite last_seqZ in Hl2 by lia. congruence.
    + split; [done|]. unfold acknowledge_recovery. by rewrite bool_decide_eq_true_2.
  - intros g e Hne. unfold acknowledge_recovery. rewrite bool_decide_eq_false_2; [done|]. intros Hr. by apply Hne, G3.
Qed.

(** A blocking wait returns the oldest event as soon as the consumer holds
    the lock with one queued, and gives up with the queue empty, closed or
    after a wait that timed out. *)
Theorem wait_event_ok cap st waits st' r :
  wait_event cap st waits = Some (st', r) ->
  exists k, (k <= length waits)%nat /\
    match r with
    | Some ev => events (after_waits cap st waits k) = ev :: events st' /\
        st' = set_events (after_waits cap st waits k) (events st')
    | None => events st' = [] /\ st' = after_waits cap st waits k /\
        (closed st' = true \/ exists j ops, waits !! j = Some (ops, true) /\ k = S j)
    end.
Proof. apply wait_event_run. Qed.

(** The audio queue implements its specification: whatever the threads do,
    every push returns, and the queue is that of a specification in which a push
    on an open queue keeps the newest [cap] packets, a pop takes the oldest, and
    a close stops the pushes but not the pops; it never holds more than its
    capacity. *)
Theorem sample_queue_newest cap ops :
  let cap := sq_cap (sample_queue_new cap) in
  s_run cap sample_new ops = Some (foldl (s_spec cap) sample_new ops) /\
  len (packets (foldl (s_spec cap) sample_new ops)) <= cap.
Proof.
  cbv zeta. assert (Hc : 1 <= sq_cap (sample_queue_new cap)) by (cbn; lia). split; [by apply s_run_spec|].
  set (c := sq_cap _) in *. clearbody c. assert (H0 : len (packets sample_new) <= c) by (unfold len; cbn; lia).
  revert H0. generalize sample_new. induction ops as [|op ops IH]; intros st H0; [done|]. apply IH. by apply s_spec_cap.
Qed.

(** ** Witnesses *)

Definition demo_unit (i : Z) : DecodeUnit := mkDecodeUnit i 1 false 0 0 [i].

Definition demo_qops : list QOp :=
  [QPushFrame (demo_unit 0); QTryEvent; QPushFrame (demo_unit 1); QPushFrame (demo_unit 2); QPushFrame (demo_unit 3);
   QPushDiscontinuity 1 ReorderGap; QTryEvent].

Lemma recovery_identity_witness :
  let st := q_run 2 queue_state_default demo_qops in
  recovery st = Some (2, 1) /\ acknowledge_recovery st 1 1 = (st, false) /\
  acknowledge_recovery st 2 1 = (set_recovery st None, true).
Proof.
  destruct (recovery_identity 2 demo_qops ltac:(cbn; lia)) as (_ & H1 & H2).
  split; [reflexivity|]. split; [apply (H2 1 1); discriminate|apply (H1 2 1); reflexivity].
Defined.

Lemma wait_event_ok_witness :
  exists k, (k <= 2)%nat /\ events (after_waits 2 queue_state_default
    [([QTakeOverflowed], false); ([QPushFrame (demo_unit 4)], true)] k) = [EvFrame (demo_unit 4)].
Proof.
  destruct (wait_event_ok 2 queue_state_default [([QTakeOverflowed], false); ([QPushFrame (demo_unit 4)], true)]
    queue_state_default (Some (EvFrame (demo_unit 4))) eq_refl) as (k & Hk & H & _).
  exists k. split; [exact Hk|exact H].
Defined.
