(* ===== verification/RxCore.v ===== *)
(** * The receive core of a client (client-transport/src/capi.rs, [RxCore])

    The receiver, its queues and latches, and the lease that gives them to one
    session. Each operation is one function on the whole state, as one thread
    runs it; [None] is a panic of the receiver, which RxCoreSafe excludes. *)
From S2P Require Import Prelude FecDecoder FecWire VideoRx FrameQueue.

(** ** State *)

Inductive FecCodec : Type :=
| Unconfigured
| CodecV1
| CodecV2 (epoch : Epoch).

Inductive FecControl : Type :=
| FcSubscribe
| FcAck (seq : Z)
| FcNeedsIdr (reason : Z).

Record LeaseState := mkLease {
  lease_active : option Z;
  ever_started : bool;
  lease_closed : bool;
  lease_next_generation : Z
}.

Record RxCore := mkRxCore {
  rx : VideoReceiver;
  fec_codec : FecCodec;
  lease : LeaseState;
  v2_key_gate : bool;
  fec_configured : bool;
  core_queue : QueueState;
  pending_ack : option Z;
  discontinuity : option RxEvent;
  decode_needs_idr : bool;
  frames_delivered : Z;
  audio : SampleState;
  audio_channels : Z;
  audio_pushed : Z;
  decoded_output : Z;
  presented : Z;
  last_ack_seen : option Z;
  last_frame_id : option Z
}.

Definition core_cap : Z := fq_cap (fq_new DEFAULT_FRAME_CAP).

Definition audio_cap : Z := sq_cap (sample_queue_new DEFAULT_AUDIO_CAP).

Definition core_new (now_ms : Z) : RxCore :=
  mkRxCore (rx_new now_ms) CodecV1 (mkLease None false false 0) false false queue_state_default None None false 0
    sample_new 0 0 0 0 None None.

(** Field updates. *)
Definition set_rx (c : RxCore) (r : VideoReceiver) : RxCore :=
  mkRxCore r (fec_codec c) (lease c) (v2_key_gate c) (fec_configured c) (core_queue c) (pending_ack c)
    (discontinuity c) (decode_needs_idr c) (frames_delivered c) (audio c) (audio_channels c) (audio_pushed c)
    (decoded_output c) (presented c) (last_ack_seen c) (last_frame_id c).
Definition set_lease (c : RxCore) (l : LeaseState) : RxCore :=
  mkRxCore (rx c) (fec_codec c) l (v2_key_gate c) (fec_configured c) (core_queue c) (pending_ack c)
    (discontinuity c) (decode_needs_idr c) (frames_delivered c) (audio c) (audio_channels c) (audio_pushed c)
    (decoded_output c) (presented c) (last_ack_seen c) (last_frame_id c).
Definition set_codec (c : RxCore) (codec : FecCodec) (gate configured : bool) : RxCore :=
  mkRxCore (rx c) codec (lease c) gate configured (core_queue c) (pending_ack c)
    (discontinuity c) (decode_needs_idr c) (frames_delivered c) (audio c) (audio_channels c) (audio_pushed c)
    (decoded_output c) (presented c) (last_ack_seen c) (last_frame_id c).
Definition set_core_queue (c : RxCore) (q : QueueState) : RxCore :=
  mkRxCore (rx c) (fec_codec c) (lease c) (v2_key_gate c) (fec_configured c) q (pending_ack c)
    (discontinuity c) (decode_needs_idr c) (frames_delivered c) (audio c) (audio_channels c) (audio_pushed c)
    (decoded_output c) (presented c) (last_ack_seen c) (last_frame_id c).
Definition set_latches (c : RxCore) (ack : option Z) (d : option RxEvent) (idr : bool) : RxCore :=
  mkRxCore (rx c) (fec_codec c) (lease c) (v2_key_gate c) (fec_configured c) (core_queue c) ack d idr
    (frames_delivered c) (audio c) (audio_channels c) (audio_pushed c)
    (decoded_output c) (presented c) (last_ack_seen c) (last_frame_id c).
Definition set_audio (c : RxCore) (a : SampleState) (channels pushed : Z) : RxCore :=
  mkRxCore (rx c) (fec_codec c) (lease c) (v2_key_gate c) (fec_configured c) (core_queue c) (pending_ack c)
    (discontinuity c) (decode_needs_idr c) (frames_delivered c) a channels pushed
    (decoded_output c) (presented c) (last_ack_seen c) (last_frame_id c).
Definition set_counts (c : RxCore) (decoded shown : Z) : RxCore :=
  mkRxCore (rx c) (fec_codec c) (lease c) (v2_key_gate c) (fec_configured c) (core_queue c) (pending_ack c)
    (discontinuity c) (decode_needs_idr c) (frames_delivered c) (audio c) (audio_channels c) (audio_pushed c)
    decoded shown (last_ack_seen c) (last_frame_id c).

(** ** The lease *)

Definition acquire_session_lease (c : RxCore) : RxCore * option Z :=
  let l := lease c in
  if lease_closed l then (c, None)
  else
    match lease_active l with
    | Some _ => (c, None)
    | None =>
        if ever_started l then (c, None)
        else
          let generation := Z.max (wrap64 (lease_next_generation l + 1)) 1 in
          (set_lease c (mkLease (Some generation) true (lease_closed l) generation), Some generation)
    end.

Definition release_session_lease (c : RxCore) (generation : Z) : RxCore * bool :=
  let l := lease c in
  if bool_decide (lease_active l = Some generation)
  then (set_lease c (mkLease None (ever_started l) (lease_closed l) (lease_next_generation l)), true)
  else (c, false).

(** ** The codec *)

(** [while self.queue.try_pop().is_some() {}] *)
Definition drain_body (st : QueueState) : QueueState + QueueState :=
  match try_pop st with
  | (st, Some _) => inl st
  | (st, None) => inr st
  end.

Definition begin_fec_negotiation (c : RxCore) : option RxCore :=
  let c := set_rx c (rx_new 0) in
  let c := set_codec c Unconfigured false false in
  let c := set_latches c None None false in
  let q := clear_recovery (core_queue c) in
  q ← loop_fuel (S (length (events q))) drain_body q;
  Some (set_core_queue c (take_overflowed q).1).

(** [epoch] is an [Option<NonZeroU32>]. *)
Definition configure_fec (c : RxCore) (version : Z) (epoch : option Z) : RxCore * bool :=
  let codec :=
    match epoch with
    | None => if version =? 1 then Some CodecV1 else None
    | Some e => if version =? 2 then Some (CodecV2 e) else None
    end in
  match codec with
  | None => (c, false)
  | Some codec =>
      if fec_configured c then (c, false)
      else (set_codec c codec (match codec with CodecV2 _ => true | _ => false end) true, true)
  end.

Definition selected_epoch (c : RxCore) : option Z :=
  match fec_codec c with CodecV2 e => Some e | _ => None end.

Definition control_message (c : RxCore) (control : FecControl) : option (list Z) :=
  match fec_codec c with
  | Unconfigured => None
  | CodecV1 =>
      Some (encode_ack_msg
        match control with FcSubscribe => Subscribe | FcAck seq => Ack seq | FcNeedsIdr _ => NeedsIdr end)
  | CodecV2 epoch =>
      Some (encode_control_msg_v2
        match control with
        | FcSubscribe => V2Subscribe epoch
        | FcAck seq => V2Ack epoch seq
        | FcNeedsIdr reason => V2NeedsIdr epoch reason
        end)
  end.

Definition accepts_message (c : RxCore) (buf : list Z) : bool :=
  match fec_codec c with
  | Unconfigured => false
  | CodecV1 => match head buf with Some k => ((k =? 0) || (k =? 1))%bool | None => false end
  | CodecV2 epoch =>
      (match head buf with Some k => (k =? 2) || (k =? 3) | None => false end &&
       (5 <=? len buf) && (le_field buf 1 5 =? epoch))%bool
  end.

(** ** The receive path *)

Definition consume_frame (c : RxCore) (unit : DecodeUnit) : RxCore :=
  if (v2_key_gate c && negb (du_is_key unit))%bool then c
  else
    let c := set_codec c (fec_codec c) false (fec_configured c) in
    let '(q, r) := push_frame_reporting_overflow core_cap (core_queue c) unit in
    match r with
    | None => set_core_queue c q
    | Some _ =>
        mkRxCore (rx c) (fec_codec c) (lease c) (v2_key_gate c) (fec_configured c) q (pending_ack c)
          (discontinuity c) (decode_needs_idr c) (wrap64 (frames_delivered c + 1)) (audio c) (audio_channels c)
          (audio_pushed c) (decoded_output c) (presented c) (last_ack_seen c) (Some (du_frame_id unit))
    end.

Definition consume_ack (c : RxCore) (a : Z) : RxCore :=
  mkRxCore (rx c) (fec_codec c) (lease c) (v2_key_gate c) (fec_configured c) (core_queue c) (Some a)
    (discontinuity c) (decode_needs_idr c) (frames_delivered c) (audio c) (audio_channels c) (audio_pushed c)
    (decoded_output c) (presented c) (Some a) (last_frame_id c).

Definition consume_event (c : RxCore) (ev : RxEvent) : RxCore :=
  match ev with
  | RxFrame unit => consume_frame c unit
  | RxAck a => consume_ack c a
  | Discontinuity epoch reason =>
      let c := set_latches c (pending_ack c) (Some ev) (decode_needs_idr c) in
      set_core_queue c (push_discontinuity core_cap (core_queue c) epoch reason).1
  end.

Definition consume_events (c : RxCore) (evs : list RxEvent) : RxCore := foldl consume_event c evs.

Definition core_on_message (c : RxCore) (buf : list Z) (now_ms : Z) : option RxCore :=
  if negb (accepts_message c buf) then Some c
  else
    '(r, evs) ← on_message (rx c) buf now_ms;
    Some (consume_events (set_rx c r) evs).

Definition core_tick (c : RxCore) (now_ms : Z) : option RxCore :=
  '(r, evs) ← tick_events (rx c) now_ms;
  Some (consume_events (set_rx c r) evs).

(** ** The polls *)

Definition poll_ack (c : RxCore) : RxCore * option Z :=
  (set_latches c None (discontinuity c) (decode_needs_idr c), pending_ack c).

Definition core_poll_needs_idr (c : RxCore) : RxCore * bool :=
  let '(r, rx_flag) := poll_needs_idr (rx c) in
  let '(q, overflow) := take_overflowed (core_queue c) in
  let decode := decode_needs_idr c in
  (set_latches (set_core_queue (set_rx c r) q) (pending_ack c) (discontinuity c) false,
   (rx_flag || overflow || decode)%bool).

Definition take_discontinuity (c : RxCore) : RxCore * option RxEvent :=
  (set_latches c (pending_ack c) None (decode_needs_idr c), discontinuity c).

Definition core_request_idr (c : RxCore) : RxCore := set_latches c (pending_ack c) (discontinuity c) true.

Definition video_stats (c : RxCore) : VideoReceiverStats := rx_stats (rx c).
Definition queue_len (c : RxCore) : Z := fq_len (core_queue c).

Definition core_try_frame (c : RxCore) : RxCore * option DecodeUnit :=
  let '(q, u) := try_pop (core_queue c) in (set_core_queue c q, u).
Definition core_try_event (c : RxCore) : RxCore * option VideoEvent :=
  let '(q, ev) := try_event (core_queue c) in (set_core_queue c q, ev).

(** The blocking waits; their arguments are those of the queue's waits. *)
Definition core_wait_frame (c : RxCore) (calls : list (list (list QOp * bool) * list QOp * bool)) :
  option (RxCore * option DecodeUnit) :=
  '(q, u) ← wait_pop core_cap (core_queue c) calls; Some (set_core_queue c q, u).
Definition core_wait_event (c : RxCore) (waits : list (list QOp * bool)) : option (RxCore * option VideoEvent) :=
  '(q, ev) ← wait_event core_cap (core_queue c) waits; Some (set_core_queue c q, ev).

Definition core_recovery (c : RxCore) : option (Z * Z) := recovery (core_queue c).

(** The frame id is not validated, as in the code. *)
Definition acknowledge_decoded_key (c : RxCore) (generation epoch frame_id : Z) : RxCore * bool :=
  let '(q, b) := acknowledge_recovery (core_queue c) generation epoch in (set_core_queue c q, b).

(** ** Audio and heartbeats *)

Definition push_audio (c : RxCore) (pkt : list Z) : option RxCore :=
  '(a, _) ← sample_push audio_cap (audio c) pkt;
  Some (set_audio c a (audio_channels c) (wrap64 (audio_pushed c + 1))).

Definition core_wait_audio (c : RxCore) (waits : list (list SOp * bool)) : option (RxCore * option (list Z)) :=
  '(a, p) ← sample_wait_pop audio_cap (audio c) waits; Some (set_audio c a (audio_channels c) (audio_pushed c), p).

(** A wait for audio that finds a packet, or gives up. *)
Definition core_try_audio (c : RxCore) : RxCore * option (list Z) :=
  let '(a, p) := sample_try_pop (audio c) in (set_audio c a (audio_channels c) (audio_pushed c), p).

Definition set_audio_channels (c : RxCore) (channels : Z) : RxCore := set_audio c (audio c) channels (audio_pushed c).
Definition note_decoded_output (c : RxCore) : RxCore := set_counts c (wrap64 (decoded_output c + 1)) (presented c).
Definition note_presented (c : RxCore) : RxCore := set_counts c (decoded_output c) (wrap64 (presented c + 1)).

Definition core_close (c : RxCore) : RxCore :=
  let l := lease c in
  let c := set_lease c (mkLease (lease_active l) (ever_started l) true (lease_next_generation l)) in
  let c := set_core_queue c (close (core_queue c)) in
  set_audio c (mkSampleState (packets (audio c)) true) (audio_channels c) (audio_pushed c).

(** ** Without a session *)

Definition on_standalone_message (c : RxCore) (buf : list Z) (now_ms : Z) : option RxCore :=
  match lease_active (lease c) with None => core_on_message c buf now_ms | Some _ => Some c end.
Definition on_standalone_tick (c : RxCore) (now_ms : Z) : option RxCore :=
  match lease_active (lease c) with None => core_tick c now_ms | Some _ => Some c end.
Definition poll_standalone_ack (c : RxCore) : RxCore * option Z :=
  match lease_active (lease c) with None => poll_ack c | Some _ => (c, None) end.
Definition poll_standalone_needs_idr (c : RxCore) : RxCore * bool :=
  match lease_active (lease c) with None => core_poll_needs_idr c | Some _ => (c, false) end.
Definition poll_standalone_discontinuity (c : RxCore) : RxCore * option RxEvent :=
  match lease_active (lease c) with None => take_discontinuity c | Some _ => (c, None) end.

(** ** Runs *)

Inductive CoreOp : Type :=
| CoreBegin
| CoreAcquire
| CoreRelease (generation : Z)
| CoreConfigure (version : Z) (epoch : option Z)
| CoreMessage (buf : list Z) (now_ms : Z)
| CoreTick (now_ms : Z)
| CoreStandaloneMessage (buf : list Z) (now_ms : Z)
| CoreStandaloneTick (now_ms : Z)
| CoreStandaloneAck
| CoreStandaloneNeedsIdr
| CoreStandaloneDiscontinuity
| CorePollAck
| CorePollNeedsIdr
| CoreTakeDiscontinuity
| CoreRequestIdr
| CoreTryFrame
| CoreTryEvent
| CoreAcknowledge (generation epoch frame_id : Z)
| CorePushAudio (pkt : list Z)
| CoreTryAudio
| CoreSetChannels (channels : Z)
| CoreDecoded
| CorePresented
| CoreClose.

Definition core_step (c : RxCore) (op : CoreOp) : option RxCore :=
  match op with
  | CoreBegin => begin_fec_negotiation c
  | CoreAcquire => Some (acquire_session_lease c).1
  | CoreRelease g => Some (release_session_lease c g).1
  | CoreConfigure v e => Some (configure_fec c v e).1
  | CoreMessage buf now => core_on_message c buf now
  | CoreTick now => core_tick c now
  | CoreStandaloneMessage buf now => on_standalone_message c buf now
  | CoreStandaloneTick now => on_standalone_tick c now
  | CoreStandaloneAck => Some (poll_standalone_ack c).1
  | CoreStandaloneNeedsIdr => Some (poll_standalone_needs_idr c).1
  | CoreStandaloneDiscontinuity => Some (poll_standalone_discontinuity c).1
  | CorePollAck => Some (poll_ack c).1
  | CorePollNeedsIdr => Some (core_poll_needs_idr c).1
  | CoreTakeDiscontinuity => Some (take_discontinuity c).1
  | CoreRequestIdr => Some (core_request_idr c)
  | CoreTryFrame => Some (core_try_frame c).1
  | CoreTryEvent => Some (core_try_event c).1
  | CoreAcknowledge g e f => Some (acknowledge_decoded_key c g e f).1
  | CorePushAudio pkt => push_audio c pkt
  | CoreTryAudio => Some (core_try_audio c).1
  | CoreSetChannels n => Some (set_audio_channels c n)
  | CoreDecoded => Some (note_decoded_output c)
  | CorePresented => Some (note_presented c)
  | CoreClose => Some (core_close c)
  end.

Fixpoint core_run (c : RxCore) (ops : list CoreOp) : option RxCore :=
  match ops with
  | [] => Some c
  | op :: ops => c ← core_step c op; core_run c ops
  end.
