(* ===== verification/RxCoreSafe.v ===== *)
(** * The receive core is safe

    Totality and bounds of every operation, the isolation of the negotiated
    epoch, the key-frame gate as a filter in front of the queue, and the lease. *)
From S2P Require Import Prelude Serial Gf256 FecEncoder Gauss FecDecoder DecoderBounds FecWire VideoRx VideoRxSafe.
From S2P Require Import VideoRxRun FrameQueue FrameQueueSafe RxCore.

(** ** The epochs of the receiver's events *)

Definition ev_epoch (e : Z) (ev : RxEvent) : Prop :=
  match ev with RxFrame u => du_epoch u = e | Discontinuity e' _ => e' = e | RxAck _ => True end.

Lemma register_frame_epoch s e v c s' evs : register_frame s e v c = inr (s', evs) -> Forall (ev_epoch e) evs.
Proof. unfold register_frame, discontinue. intros H. repeat case_match; simplify_eq; by constructor. Qed.

Lemma place_chunk_epoch s e v c via now s' evs :
  place_chunk s e v c via now = Some (s', evs) -> Forall (ev_epoch e) evs.
Proof.
  unfold place_chunk, discontinue. intros H.
  repeat (case_match; simplify_eq; try by constructor).
  destruct (complete_frame _ _ _ _ _); simplify_eq/=. constructor.
Qed.

Lemma deliver_chunk_epoch s e v p via now s' evs :
  deliver_chunk s e v p via now = Some (s', evs) -> Forall (ev_epoch e) evs.
Proof.
  unfold deliver_chunk. intros H. destruct (parse_delivered v p) as [c|]; [|simplify_eq; constructor].
  destruct (chunk_admissible v c) as [b|]; [|done]. cbn in H. destruct b; cbn in H; [|simplify_eq; constructor].
  case_match; [simplify_eq; constructor|]. destruct (register_frame s e v c) as [s1|[s1 ev1]] eqn:E.
  - by eapply place_chunk_epoch.
  - simplify_eq. by eapply register_frame_epoch.
Qed.

Lemma assemble_frame_epoch s i f e s' evs u :
  assemble_frame s i f e = Some (s', evs, u) -> Forall (ev_epoch e) (evs ++ frame_events u).
Proof. unfold assemble_frame, discontinue. intros H. repeat case_match; simplify_eq; by constructor. Qed.

Lemma flush_reorder_epoch e s now s' evs :
  ra_ok e s -> flush_reorder s now = Some (s', evs) -> Forall (ev_epoch e) evs.
Proof.
  intros HR. unfold flush_reorder. destruct (loop_fuel _ _ _) as [r|] eqn:E; [|done]. cbn. intros ->.
  assert (Hkey : forall s k f, ra_ok e s -> completed s !! k = Some f -> fst k = e)
    by (intros s0 k f H0 H; by destruct (ra_done _ _ H0 _ _ H) as (_ & _ & ->)).
  eapply (loop_fuel_inv (flush_body now)
    (fun st => (exists n, flush_inv e Fresh n st) /\ Forall (ev_epoch e) st.2)
    (fun r => match r with Some (_, evs) => Forall (ev_epoch e) evs | None => True end)) in E; [exact E| | |].
  - intros [s0 out] st' [[n HI] Hout] H. split; [destruct (flush_body_step _ _ _ _ _ _ HI H) as (m & _ & ?); by exists m|].
    destruct HI as [_ [H0 _]]. unfold flush_body in H. cbn in H0, Hout.
    destruct (head _) as [k0|]; [|done]. destruct (completed s0 !! k0) as [f0|] eqn:E0; [|done].
    destruct (completed s0 !! _) as [c|] eqn:Ec in H; [|by repeat case_match].
    destruct (assemble_frame _ _ _ _) as [[[s1 ev1] u]|] eqn:Ea; simplify_eq. cbn.
    apply Forall_app. split; [done|]. apply assemble_frame_epoch in Ea. cbn in Ea. by rewrite (Hkey _ _ _ H0 E0) in Ea.
  - intros [s0 out] r0 [[n [_ [H0 _]]] Hout] H. unfold flush_body in H. cbn in H0, Hout.
    destruct (head _) as [k0|]; [|by simplify_eq]. destruct (completed s0 !! k0) as [f0|] eqn:E0; [|by simplify_eq].
    destruct (completed s0 !! _) as [c|] in H.
    + destruct (assemble_frame _ _ _ _) as [[[s1 ev1] u]|] eqn:Ea; by simplify_eq.
    + revert H. case_test; intros [= <-]; [done|]. apply Forall_app. split; [done|]. constructor; [|constructor].
      cbn. by apply (Hkey _ _ _ H0 E0).
  - split; [|constructor]. eexists. split; [done|]. by apply step_quiet.
Qed.

Lemma ack_events_epoch e a : Forall (ev_epoch e) (ack_events a).
Proof. destruct a; by repeat constructor. Qed.

(** The receiver has seen no epoch but [e]. *)
Definition only_epoch (e : Z) (r : VideoReceiver) : Prop := active_epoch r = None \/ active_epoch r = Some e.

Lemma flush_receiver_epoch g last r e now r' out :
  rx_inv g last r -> only_epoch e r -> flush_receiver r now = Some (r', out) ->
  only_epoch e r' /\ Forall (ev_epoch e) out.
Proof.
  intros HI Ho. unfold flush_receiver. destruct (flush_reorder (reassembly r) now) as [[s evs]|] eqn:E; [|done].
  cbn. intros [= <- <-]. split; [done|]. eapply flush_reorder_epoch; [|exact E].
  pose proof (rxi_reassembly _ _ _ HI) as HR. destruct Ho as [Ho|Ho]; rewrite Ho in HR.
  - destruct HR as [-> _]. apply initial_ok.
  - apply HR.
Qed.

Lemma process_events_epoch e v now evs : forall r r' out,
  process_events e v now r evs = Some (r', out) -> active_epoch r' = active_epoch r /\ Forall (ev_epoch e) out.
Proof.
  induction evs as [|ev evs IH]; intros r r' out; cbn [process_events]; [by intros [= <- <-]|].
  destruct (process_event e v now r ev) as [[r1 o1]|] eqn:E1; [|done]. cbn -[process_events].
  destruct (process_events e v now r1 evs) as [[r2 o2]|] eqn:E2; [|done]. cbn. intros [= <- <-].
  destruct (IH _ _ _ E2) as [Ha Ho].
  assert (H1 : active_epoch r1 = active_epoch r /\ Forall (ev_epoch e) o1).
  { destruct ev as [seq p via| |]; cbn [process_event] in E1; [|by simplify_eq..].
    destruct (deliver_chunk (reassembly r) e v p via now) as [[s ev1]|] eqn:Ed; [|done]. cbn [mbind option_bind] in E1.
    destruct (tick_ack _ _ _) as [a ack]. injection E1 as <- <-. split; [done|]. apply Forall_app.
    split; [by eapply deliver_chunk_epoch|apply ack_events_epoch]. }
  destruct H1 as [H1a H1]. split; [congruence|]. by apply Forall_app.
Qed.

Lemma on_message_epoch g last r e buf now r' out :
  rx_inv g last r -> only_epoch e r -> bytes buf ->
  (forall m, parse_symbol_msg_versioned buf = Ok m -> (symbol_of m).1.1 = e) ->
  on_message r buf now = Some (r', out) -> only_epoch e r' /\ Forall (ev_epoch e) out.
Proof.
  intros HI Ho Hb Hp H. unfold on_message in H. destruct (parse_symbol_msg_versioned buf) as [m|err] eqn:Em; [|by simplify_eq].
  specialize (Hp m eq_refl). pose proof (symbol_of_wf _ _ Hb Em) as Hwf.
  destruct (symbol_of m) as [[e' v] sym]. cbn in Hp, Hwf. subst e'.
  destruct (accept_epoch_ok g last r e v now HI) as (r1 & o1 & b & E1 & (g1 & l1 & _ & _ & HI1) & Hacc).
  assert (H1 : only_epoch e r1 /\ o1 = [] /\ b = true).
  { unfold accept_epoch in E1. destruct Ho as [Ho|Ho]; rewrite Ho in E1; [simplify_eq; split; [by right|done]|].
    rewrite Z.eqb_refl in E1. simplify_eq. by split; [right|]. }
  destruct H1 as (Ho1 & -> & ->). rewrite E1 in H. cbn [negb] in H. specialize (Hacc eq_refl).
  destruct (push_symbol_bytes (rx_decoder r1) sym (rxi_decoder _ _ _ HI1) Hwf) as (d & evs & E & Hd & Hev).
  rewrite E in H. cbn [mbind option_bind] in H.
  assert (HI2 : rx_inv g1 l1 (mkReceiver d (active_epoch r1) (reassembly r1) (ack_state r1))) by (destruct HI1; by split).
  destruct (process_decoder_events_ok g1 l1 _ e v now evs HI2 Hacc Hev) as (r3 & o3 & E3 & (g3 & l3 & _ & _ & HI3) & He3).
  rewrite E3 in H. cbn [mbind option_bind] in H.
  destruct (flush_receiver r3 now) as [[r4 o4]|] eqn:E4; [|done]. cbn in H. injection H as <- <-.
  destruct (flush_receiver_epoch g3 l3 r3 e now _ _ HI3 (or_intror He3) E4) as [Ho4 Hf4]. split; [done|].
  apply Forall_app. split; [|done]. clear -E3. unfold process_decoder_events in E3.
  destruct (existsb is_discontinuity evs); [unfold discontinue in E3|];
    (destruct (process_events e v now _ evs) as [[r5 o5]|] eqn:E5; [|done]); cbn in E3; injection E3 as <- <-;
    apply process_events_epoch in E5 as [_ H5]; [by constructor|done].
Qed.

Lemma tick_events_epoch g last r e now r' out :
  rx_inv g last r -> only_epoch e r -> tick_events r now = Some (r', out) -> only_epoch e r' /\ Forall (ev_epoch e) out.
Proof.
  intros HI Ho. unfold tick_events. destruct (flush_receiver r now) as [[r1 o1]|] eqn:E1; [|done]. cbn [mbind option_bind].
  destruct (flush_receiver_epoch g last r e now _ _ HI Ho E1) as [Ho1 Hf1].
  unfold tick. destruct (tick_ack _ _ _) as [a ack]. intros [= <- <-]. split; [done|].
  apply Forall_app. split; [done|apply ack_events_epoch].
Qed.

(** A v2 message of this epoch parses to a symbol of this epoch. *)
Lemma parsed_epoch buf e m :
  match head buf with Some k => (k =? 2) || (k =? 3) | None => false end%bool = true -> le_field buf 1 5 = e ->
  parse_symbol_msg_versioned buf = Ok m -> (symbol_of m).1.1 = e.
Proof.
  intros Hk <- H. unfold parse_symbol_msg_versioned in H. destruct (head buf) as [k|]; [|done]. cbn [ok_or] in H.
  apply orb_true_iff in Hk as [Hk|Hk]; reflect_bools; subst k; cbn -[parse_v2_source parse_v2_repair] in H.
  - unfold parse_v2_source in H. destruct (len buf <? _); [done|]. destruct (_ <? len buf); [done|].
    destruct (ok_or _ _) as [e|] eqn:Ee in H; [|done]. apply Epoch_new_ok in Ee as [-> _]. cbv zeta in H.
    destruct (_ || _)%bool in H; [done|]. destruct (negb _) in H; [done|]. cbn in H. by injection H as <-.
  - unfold parse_v2_repair in H. destruct (len buf <? _); [done|]. destruct (_ <? len buf); [done|].
    destruct (ok_or _ _) as [e|] eqn:Ee in H; [|done]. apply Epoch_new_ok in Ee as [-> _]. cbv zeta in H.
    destruct (_ || _)%bool in H; [done|]. destruct (negb _) in H; [done|]. cbn in H. by injection H as <-.
Qed.

(** ** Consuming events *)

(** The queue operations the events amount to: the gate drops the delta frames
    before the first key frame. *)
Fixpoint queue_ops (gate : bool) (evs : list RxEvent) : list QOp :=
  match evs with
  | [] => []
  | RxFrame u :: evs =>
      if (gate && negb (du_is_key u))%bool then queue_ops gate evs else QPushFrame u :: queue_ops false evs
  | Discontinuity e r :: evs => QPushDiscontinuity e r :: queue_ops gate evs
  | RxAck _ :: evs => queue_ops gate evs
  end.

Fixpoint gate_after (gate : bool) (evs : list RxEvent) : bool :=
  match evs with
  | [] => gate
  | RxFrame u :: evs => gate_after (gate && negb (du_is_key u)) evs
  | _ :: evs => gate_after gate evs
  end.

(** What consuming leaves alone. *)
Record same_rest (c c' : RxCore) : Prop := {
  sr_rx : rx c' = rx c;
  sr_codec : fec_codec c' = fec_codec c;
  sr_configured : fec_configured c' = fec_configured c;
  sr_lease : lease c' = lease c;
  sr_audio : audio c' = audio c
}.

Lemma consume_event_spec c ev :
  same_rest c (consume_event c ev) /\
  core_queue (consume_event c ev) = q_run core_cap (core_queue c) (queue_ops (v2_key_gate c) [ev]) /\
  v2_key_gate (consume_event c ev) = gate_after (v2_key_gate c) [ev].
Proof.
  destruct ev as [u|e r|a]; cbn [consume_event queue_ops gate_after q_run foldl].
  - unfold consume_frame. destruct (v2_key_gate c && negb (du_is_key u))%bool eqn:Eg.
    { apply andb_true_iff in Eg as [-> _]. by split; [split|]. }
    cbn [core_queue set_codec foldl q_step].
    destruct (push_frame_reporting_overflow core_cap (core_queue c) u) as [q [r|]]; by split; [split|].
  - by split; [split|].
  - by split; [split|].
Qed.

Lemma consume_events_spec evs : forall c,
  same_rest c (consume_events c evs) /\
  core_queue (consume_events c evs) = q_run core_cap (core_queue c) (queue_ops (v2_key_gate c) evs) /\
  v2_key_gate (consume_events c evs) = gate_after (v2_key_gate c) evs.
Proof.
  induction evs as [|ev evs IH]; intros c; [by split; [split|]|].
  change (consume_events c (ev :: evs)) with (consume_events (consume_event c ev) evs).
  destruct (consume_event_spec c ev) as ([S1 S2 S3 S4 S5] & Hq & Hg).
  destruct (IH (consume_event c ev)) as ([T1 T2 T3 T4 T5] & Hq' & Hg'). split; [split; congruence|].
  rewrite Hq', Hg', Hq, Hg. clear.
  destruct ev as [u|e r|a]; cbn; [|done..]. by destruct (v2_key_gate c), (du_is_key u).
Qed.

(** The first frame behind a closed gate is a key frame. *)
Lemma queue_ops_key evs l1 u l2 :
  queue_ops true evs = l1 ++ QPushFrame u :: l2 -> (forall v, QPushFrame v ∉ l1) -> du_is_key u = true.
Proof.
  revert l1. induction evs as [|ev evs IH]; intros l1 E Hn; [by destruct l1|].
  destruct ev as [v|e r|a]; cbn in E.
  - destruct (du_is_key v) eqn:Ek; cbn in E; [|by eapply IH].
    destruct l1 as [|x l1]; [by injection E as -> _|]. injection E as <- _. exfalso. apply (Hn v). left.
  - destruct l1 as [|x l1]; [done|]. injection E as _ E. eapply (IH l1); [done|].
    intros v Hv. apply (Hn v). by right.
  - by eapply IH.
Qed.

(** ** The queue keeps what holds of all published events *)

Lemma pop_frame_sub P evs : Forall P evs -> Forall P (pop_frame evs).1.
Proof. intros H. destruct (pop_frame_suffix evs) as [k ->]. by apply Forall_drop. Qed.

Lemma q_step_Forall (P : VideoEvent -> Prop) cap st op :
  Forall P (events st) -> Forall P (q_published cap st op) -> Forall P (events (q_step cap st op)).
Proof.
  intros H Hp. destruct op as [u|e r| | | | |g e|]; cbn [q_step q_published] in *; try done.
  - unfold push_frame_reporting_overflow in *. destruct (closed st); [done|]. case_test; cbn in *; [done|].
    by apply Forall_app.
  - unfold push_discontinuity in *. destruct (closed st); [done|]. case_test; cbn in *; [done|]. by apply Forall_app.
  - unfold try_event. destruct (events st) as [|ev evs] eqn:E; cbn; [by rewrite E|]. by inversion H.
  - unfold try_pop. pose proof (pop_frame_sub P (events st) H). by destruct (pop_frame (events st)).
  - unfold acknowledge_recovery. by case_bool_decide.
Qed.

Definition vev_epoch (e : Z) (ev : VideoEvent) : Prop :=
  match ev with EvFrame u => du_epoch u = e | EvDiscontinuity _ e' _ => e' = e end.

Lemma q_run_epoch e cap evs : forall gate st,
  Forall (ev_epoch e) evs -> Forall (vev_epoch e) (events st) ->
  Forall (vev_epoch e) (events (q_run cap st (queue_ops gate evs))).
Proof.
  induction evs as [|ev evs IH]; intros gate st He Hst; [done|]. apply Forall_cons in He as [Hev He].
  destruct ev as [u|e' r|a]; cbn [queue_ops]; [case_match; [by apply IH|]|..|by apply IH].
  - apply (IH false (q_step cap st (QPushFrame u))); [done|]. apply q_step_Forall; [done|]. cbn in Hev |- *.
    repeat case_match; repeat (apply Forall_cons; split; [done|]); apply Forall_nil_2.
  - apply (IH gate (q_step cap st (QPushDiscontinuity e' r))); [done|]. apply q_step_Forall; [done|]. cbn in Hev |- *.
    case_match; repeat (apply Forall_cons; split; [done|]); apply Forall_nil_2.
Qed.

Lemma q_run_cap cap ops : forall st, len (events st) <= Z.max cap 2 -> len (events (q_run cap st ops)) <= Z.max cap 2.
Proof. induction ops as [|op ops IH]; intros st H; [done|]. apply IH. by apply q_step_cap. Qed.

(** ** The invariants *)

Definition core_max : Z := Z.max core_cap 2.

Record core_inv (c : RxCore) : Prop := {
  ci_rx : exists g last, rx_inv g last (rx c);
  ci_queue : len (events (core_queue c)) <= core_max;
  ci_audio : len (packets (audio c)) <= DEFAULT_AUDIO_CAP
}.

(** A negotiated session sees its own epoch only. *)
Record core_iso (c : RxCore) : Prop := {
  is_configured : fec_configured c = false -> fec_codec c = Unconfigured;
  is_unconfigured : fec_codec c = Unconfigured -> active_epoch (rx c) = None /\ events (core_queue c) = [];
  is_v2 : forall e, fec_codec c = CodecV2 e -> only_epoch e (rx c) /\ Forall (vev_epoch e) (events (core_queue c))
}.

Definition core_op_ok (op : CoreOp) : Prop :=
  match op with CoreMessage buf _ | CoreStandaloneMessage buf _ => bytes buf | _ => True end.

Lemma consume_inv c r evs :
  core_inv c -> (exists g last, rx_inv g last r) -> core_inv (consume_events (set_rx c r) evs).
Proof.
  intros [H1 H2 H3] Hr. destruct (consume_events_spec evs (set_rx c r)) as ([S1 S2 S3 S4 S5] & Hq & _).
  split; rewrite ?S1, ?S5, ?Hq; [done| |done]. by apply q_run_cap.
Qed.

Lemma core_on_message_ok c buf now :
  core_inv c -> bytes buf -> exists c', core_on_message c buf now = Some c' /\ core_inv c'.
Proof.
  intros HI Hb. unfold core_on_message. case_test; [eauto|].
  destruct (ci_rx _ HI) as (g & last & Hrx).
  destruct (on_message_ok g last (rx c) buf now Hrx Hb) as (r & out & -> & g' & l' & _ & _ & Hr).
  cbn. eexists. split; [done|]. apply consume_inv; eauto.
Qed.

Lemma core_tick_ok c now : core_inv c -> exists c', core_tick c now = Some c' /\ core_inv c'.
Proof.
  intros HI. unfold core_tick. destruct (ci_rx _ HI) as (g & last & Hrx).
  destruct (tick_events_ok g last (rx c) now Hrx) as (r & out & -> & g' & l' & _ & _ & Hr).
  cbn. eexists. split; [done|]. apply consume_inv; eauto.
Qed.

(** The queue operations of the core, as steps of the queue. *)
Lemma queue_step_inv c op : core_inv c -> core_inv (set_core_queue c (q_step core_cap (core_queue c) op)).
Proof. intros [H1 H2 H3]. split; cbn; [done| |done]. by apply q_step_cap. Qed.

Lemma poll_needs_idr_rx g last r : rx_inv g last r -> rx_inv g last (poll_needs_idr r).1.
Proof.
  intros [H1 H2 H3]. split; cbn; [done..|].
  destruct (active_epoch r) as [e|].
  - destruct H3 as [[] HG]. split; [by split|]. destruct g; exact HG.
  - destruct H3 as [-> ->]. done.
Qed.

(** Draining takes every event, and begins the negotiation anew. *)
Lemma pop_frame_progress evs l u :
  pop_frame evs = (l, u) -> match u with Some _ => (length l < length evs)%nat | None => l = [] end.
Proof.
  revert l u. induction evs as [|[v|g e r] evs IH]; intros l u; cbn [pop_frame].
  - by intros [= <- <-].
  - intros [= <- <-]. cbn. lia.
  - intros E. specialize (IH _ _ E). destruct u; cbn; [lia|done].
Qed.

Lemma drain_loop st :
  exists st', loop_fuel (S (length (events st))) drain_body st = Some st' /\ events st' = [].
Proof.
  destruct (loop_fuel_spec drain_body (fun n st' => n = length (events st')) (fun r => events r = []))
    with (fuel := S (length (events st))) (n := length (events st)) (s := st) as (r & E & Hr); [..|by exists r].
  - intros n s s' ->. unfold drain_body, try_pop. destruct (pop_frame (events s)) as [l [u|]] eqn:E; [|done].
    apply pop_frame_progress in E. intros [= <-]. eexists. split; [exact E|done].
  - intros n s r ->. unfold drain_body, try_pop. destruct (pop_frame (events s)) as [l [u|]] eqn:E; [done|].
    apply pop_frame_progress in E. by intros [= <-].
  - done.
  - lia.
Qed.

Record begun (c c' : RxCore) : Prop := {
  bg_rx : rx c' = rx_new 0;
  bg_codec : fec_codec c' = Unconfigured;
  bg_configured : fec_configured c' = false;
  bg_queue : events (core_queue c') = [];
  bg_audio : audio c' = audio c
}.

Lemma begin_spec c : exists c', begin_fec_negotiation c = Some c' /\ begun c c'.
Proof.
  unfold begin_fec_negotiation. cbn [core_queue set_rx set_codec set_latches].
  destruct (drain_loop (clear_recovery (core_queue c))) as (q & E & Hq). cbn [events clear_recovery set_recovery] in E |- *.
  rewrite E. eexists. split; [reflexivity|]. by split.
Qed.

Lemma begin_inv c c' : core_inv c -> begun c c' -> core_inv c'.
Proof.
  intros [_ _ H3] [B1 _ _ B4 B5]. split; [rewrite B1; eexists _, _; apply rx_new_inv|by rewrite B4|by rewrite B5].
Qed.

Lemma poll_idr_inv c : core_inv c -> core_inv (core_poll_needs_idr c).1.
Proof.
  intros HI. destruct (ci_rx _ HI) as (g & last & Hrx). pose proof (poll_needs_idr_rx _ _ _ Hrx).
  destruct (queue_step_inv c QTakeOverflowed HI) as [_ Q2 _]. destruct HI. split; cbn in *; eauto.
Qed.

Lemma core_step_ok c op : core_inv c -> core_op_ok op -> exists c', core_step c op = Some c' /\ core_inv c'.
Proof.
  intros HI Hop. pose proof HI as [H1 H2 H3].
  assert (Hq : forall qop, core_inv (set_core_queue c (q_step core_cap (core_queue c) qop))) by (intros; by apply queue_step_inv).
  destruct op; cbn [core_step]; try (eexists; split; [reflexivity|]).
  - destruct (begin_spec c) as (c' & -> & Hb). eexists. split; [done|]. by eapply begin_inv.
  - unfold acquire_session_lease. repeat case_match; by split.
  - unfold release_session_lease. case_match; by split.
  - unfold configure_fec. repeat case_match; by split.
  - by apply core_on_message_ok.
  - by apply core_tick_ok.
  - unfold on_standalone_message. case_match; [eauto|by apply core_on_message_ok].
  - unfold on_standalone_tick. case_match; [eauto|by apply core_tick_ok].
  - unfold poll_standalone_ack. by case_match; split.
  - unfold poll_standalone_needs_idr. case_match; [by split|by apply poll_idr_inv].
  - unfold poll_standalone_discontinuity. by case_match; split.
  - by split.
  - by apply poll_idr_inv.
  - by split.
  - by split.
  - pose proof (Hq QTryPop) as Hp. cbn [q_step] in Hp. unfold core_try_frame. by destruct (try_pop (core_queue c)).
  - pose proof (Hq QTryEvent) as Hp. cbn [q_step] in Hp. unfold core_try_event. by destruct (try_event (core_queue c)).
  - pose proof (Hq (QAcknowledge generation epoch)) as Hp. cbn [q_step] in Hp. unfold acknowledge_decoded_key.
    by destruct (acknowledge_recovery (core_queue c) generation epoch).
  - unfold push_audio. pose proof (s_step_spec audio_cap (audio c) (SPush pkt) ltac:(done)) as E. cbn [s_step] in E.
    destruct (sample_push _ _ _) as [[a b]|]; [|done]. injection E as ->. eexists. split; [reflexivity|].
    split; [done..|]. exact (s_spec_cap audio_cap (audio c) (SPush pkt) ltac:(done) H3).
  - unfold core_try_audio, sample_try_pop. destruct (packets (audio c)) as [|p ps] eqn:E; [split; cbn; rewrite ?E; done|].
    rewrite len_cons in H3. split; cbn; [done..|lia].
  - by split.
  - by split.
  - by split.
  - by split.
Qed.

Lemma core_run_ok ops : Forall core_op_ok ops -> forall c, core_inv c ->
  exists c', core_run c ops = Some c' /\ core_inv c'.
Proof.
  induction 1 as [|op ops Hop _ IH]; intros c HI; [by exists c|].
  destruct (core_step_ok c op HI Hop) as (c1 & E & H1). cbn [core_run]. rewrite E. by apply IH.
Qed.

Lemma core_new_inv now : core_inv (core_new now).
Proof. split; cbn; [eexists _, _; apply rx_new_inv|done..]. Qed.

(** ** Epoch isolation *)

Lemma only_epoch_none r : (forall e, only_epoch e r) -> active_epoch r = None.
Proof. intros H. destruct (H 1) as [?|E1]; [done|]. destruct (H 2) as [?|E2]; [done|]. congruence. Qed.

Lemma queue_ops_acks evs : (forall e, Forall (ev_epoch e) evs) -> forall gate, queue_ops gate evs = [].
Proof.
  induction evs as [|ev evs IH]; intros H gate; [done|].
  assert (Hev : forall e, ev_epoch e ev) by (intros e; by destruct (proj1 (Forall_cons _ _ _) (H e))).
  destruct ev as [u|e r|a]; cbn in *; [pose proof (Hev 1); pose proof (Hev 2); lia..|].
  apply IH. intros e. by destruct (proj1 (Forall_cons _ _ _) (H e)).
Qed.

(** Consuming what the receiver says keeps a session isolated if every epoch the
    codec admits is kept by the receiver and its events. *)
Lemma consume_iso c r evs :
  core_iso c ->
  (fec_codec c <> CodecV1 -> forall e, only_epoch e (rx c) -> (forall e', fec_codec c = CodecV2 e' -> e' = e) ->
    only_epoch e r /\ Forall (ev_epoch e) evs) ->
  core_iso (consume_events (set_rx c r) evs).
Proof.
  intros [H1 H2 H3] HR. destruct (consume_events_spec evs (set_rx c r)) as ([S1 S2 S3 S4 S5] & Hq & _).
  cbn in S1, S2, S3, Hq. split; rewrite S2, ?S3, ?S1, ?Hq.
  - done.
  - intros E. destruct (H2 E) as [Ha Hev].
    assert (HR' : forall e, only_epoch e r /\ Forall (ev_epoch e) evs).
    { intros e. apply HR; [congruence|by left|congruence]. }
    split; [by apply only_epoch_none; intros e; apply HR'|]. by rewrite queue_ops_acks; [|intros e; apply HR'].
  - intros e E. destruct (H3 e E) as [Ho Hev].
    destruct (HR ltac:(congruence) e Ho) as [Ho' He]; [congruence|]. split; [done|]. by apply q_run_epoch.
Qed.

Lemma core_on_message_iso c buf now c' :
  core_inv c -> core_iso c -> bytes buf -> core_on_message c buf now = Some c' -> core_iso c'.
Proof.
  intros HI Hs Hb. unfold core_on_message. destruct (accepts_message c buf) eqn:Ha; cbn [negb]; [|by intros [= <-]].
  destruct (on_message (rx c) buf now) as [[r evs]|] eqn:E; [|done]. cbn. intros [= <-]. apply consume_iso; [done|].
  intros Hv1 e Ho He. destruct (ci_rx _ HI) as (g & last & Hrx). unfold accepts_message in Ha.
  destruct (fec_codec c) as [| |e'] eqn:Ec; [done..|]. specialize (He _ eq_refl) as ->.
  apply andb_true_iff in Ha as [Ha Hf]. apply andb_true_iff in Ha as [Hk _]. reflect_bools.
  eapply on_message_epoch; [done..| |exact E]. intros m Hm. by eapply parsed_epoch.
Qed.

Lemma core_tick_iso c now c' : core_inv c -> core_iso c -> core_tick c now = Some c' -> core_iso c'.
Proof.
  intros HI Hs. unfold core_tick. destruct (tick_events (rx c) now) as [[r evs]|] eqn:E; [|done]. cbn. intros [= <-].
  apply consume_iso; [done|]. intros _ e Ho _. destruct (ci_rx _ HI) as (g & last & Hrx).
  by eapply tick_events_epoch.
Qed.

(** What only takes from the queue keeps a session isolated. *)
Lemma core_iso_sub c c' :
  core_iso c -> active_epoch (rx c') = active_epoch (rx c) -> fec_codec c' = fec_codec c ->
  fec_configured c' = fec_configured c ->
  (exists k, events (core_queue c') = drop k (events (core_queue c))) -> core_iso c'.
Proof.
  intros [H1 H2 H3] Ea Ec Ef [k Eq]. split; rewrite ?Ec, ?Ef, ?Ea, ?Eq; [done|..].
  - intros E. destruct (H2 E) as [? ->]. by rewrite drop_nil.
  - intros e E. destruct (H3 e E) as [? ?]. split; [|by apply Forall_drop].
    unfold only_epoch in *. by rewrite Ea.
Qed.

Lemma begin_iso c c' : begun c c' -> core_iso c'.
Proof. intros [B1 B2 B3 B4 _]. split; rewrite ?B1, ?B2, ?B4; done. Qed.

Lemma configure_iso c version epoch : core_iso c -> core_iso (configure_fec c version epoch).1.
Proof.
  intros Hs. unfold configure_fec. destruct (match epoch with Some _ => _ | None => _ end) as [codec|] eqn:Ec; [|done].
  destruct (fec_configured c) eqn:Ef; [done|]. destruct Hs as [H1 H2 _]. destruct (H2 (H1 Ef)) as [Ha Hq].
  split; cbn; [done| |].
  - intros ->. by repeat case_match.
  - intros e _. split; [by left|]. by rewrite Hq.
Qed.

Lemma core_step_iso c op c' :
  core_inv c -> core_iso c -> core_op_ok op -> core_step c op = Some c' -> core_iso c'.
Proof.
  intros HI Hs Hop E. pose proof (fun c' => core_iso_sub c c' Hs) as G.
  destruct op; cbn [core_step] in E; try (injection E as <-; apply G; (done || by exists 0%nat)).
  - destruct (begin_spec c) as (c1 & E1 & B). rewrite E1 in E. injection E as <-. by eapply begin_iso.
  - injection E as <-. unfold acquire_session_lease. repeat case_match; apply G; (done || by exists 0%nat).
  - injection E as <-. unfold release_session_lease. case_match; apply G; (done || by exists 0%nat).
  - injection E as <-. by apply configure_iso.
  - by eapply core_on_message_iso.
  - by eapply core_tick_iso.
  - unfold on_standalone_message in E. case_match; [by simplify_eq|]. by eapply core_on_message_iso.
  - unfold on_standalone_tick in E. case_match; [by simplify_eq|]. by eapply core_tick_iso.
  - injection E as <-. unfold poll_standalone_ack. case_match; apply G; (done || by exists 0%nat).
  - injection E as <-. unfold poll_standalone_needs_idr. case_match; apply G; (done || by exists 0%nat).
  - injection E as <-. unfold poll_standalone_discontinuity. case_match; apply G; (done || by exists 0%nat).
  - injection E as <-. unfold core_try_frame, try_pop. destruct (pop_frame_suffix (events (core_queue c))) as [k Hk].
    destruct (pop_frame (events (core_queue c))) as [l u]. cbn in Hk. subst l. apply G; (done || by exists k).
  - injection E as <-. unfold core_try_event, try_event. destruct (events (core_queue c)) as [|ev evs] eqn:Eq;
      apply G; try done; cbn; rewrite ?Eq; [by exists 0%nat|by exists 1%nat].
  - injection E as <-. unfold acknowledge_decoded_key, acknowledge_recovery. case_bool_decide; apply G; (done || by exists 0%nat).
  - unfold push_audio in E. destruct (sample_push _ _ _) as [[a b]|]; [|done]. injection E as <-. apply G; (done || by exists 0%nat).
  - injection E as <-. unfold core_try_audio. destruct (sample_try_pop _). apply G; (done || by exists 0%nat).
Qed.

Lemma core_run_iso ops : Forall core_op_ok ops -> forall c c',
  core_inv c -> core_iso c -> core_run c ops = Some c' -> core_iso c'.
Proof.
  induction 1 as [|op ops Hop _ IH]; intros c c' HI Hs E; cbn [core_run] in E; [by simplify_eq|].
  destruct (core_step_ok c op HI Hop) as (c1 & E1 & H1). rewrite E1 in E. cbn [mbind option_bind] in E.
  eapply IH; [exact H1| |exact E]. exact (core_step_iso c op c1 HI Hs Hop E1).
Qed.

Lemma core_run_app ops1 ops2 : forall c, core_run c (ops1 ++ ops2) = c ← core_run c ops1; core_run c ops2.
Proof. induction ops1 as [|op ops1 IH]; intros c; [done|]. cbn. destruct (core_step c op); [apply IH|done]. Qed.

(** ** The lease *)

Lemma lease_step c op c' :
  core_step c op = Some c' ->
  lease c' =
    match op with
    | CoreAcquire => lease (acquire_session_lease c).1
    | CoreRelease g => lease (release_session_lease c g).1
    | CoreClose => mkLease (lease_active (lease c)) (ever_started (lease c)) true (lease_next_generation (lease c))
    | _ => lease c
    end.
Proof.
  assert (G : forall c r evs, lease (consume_events (set_rx c r) evs) = lease c)
    by (intros c0 r evs; by destruct (consume_events_spec evs (set_rx c0 r)) as ([_ _ _ S4 _] & _)).
  assert (Gm : forall buf now, core_on_message c buf now = Some c' -> lease c' = lease c).
  { intros buf now. unfold core_on_message. case_test; [by intros [= <-]|].
    destruct (on_message _ _ _) as [[r evs]|]; [|done]. cbn. intros [= <-]. apply G. }
  assert (Gt : forall now, core_tick c now = Some c' -> lease c' = lease c).
  { intros now. unfold core_tick. destruct (tick_events _ _) as [[r evs]|]; [|done]. cbn. intros [= <-]. apply G. }
  destruct op; cbn [core_step]; intros E; try (by injection E as <-); try (by eapply Gm); try (by eapply Gt).
  - unfold begin_fec_negotiation in E. destruct (loop_fuel _ _ _) as [q|]; [|done]. by injection E as <-.
  - injection E as <-. unfold configure_fec. by repeat case_match.
  - unfold on_standalone_message in E. case_match; [by simplify_eq|by eapply Gm].
  - unfold on_standalone_tick in E. case_match; [by simplify_eq|by eapply Gt].
  - injection E as <-. unfold poll_standalone_ack. by case_match.
  - injection E as <-. unfold poll_standalone_needs_idr. by case_match.
  - injection E as <-. unfold poll_standalone_discontinuity. by case_match.
  - injection E as <-. unfold core_try_frame. by destruct (try_pop _).
  - injection E as <-. unfold core_try_event. by destruct (try_event _).
  - injection E as <-. unfold acknowledge_decoded_key. by destruct (acknowledge_recovery _ _ _).
  - unfold push_audio in E. destruct (sample_push _ _ _) as [[a b]|]; [|done]. by injection E as <-.
  - injection E as <-. unfold core_try_audio. by destruct (sample_try_pop _).
Qed.

(** Generation [g] was granted, and [released] says whether it was given back. *)
Definition granted (g : Z) (released : bool) (l : LeaseState) : Prop :=
  ever_started l = true /\ lease_active l = if released then None else Some g.

Lemma granted_step g b c op c' :
  granted g b (lease c) -> core_step c op = Some c' ->
  granted g (b || match op with CoreRelease g' => g' =? g | _ => false end) (lease c').
Proof.
  intros [He Ha] E. rewrite (lease_step _ _ _ E). destruct op; rewrite ?orb_false_r; try done.
  - unfold acquire_session_lease. rewrite He, Ha. by destruct (lease_closed _), b.
  - unfold release_session_lease. rewrite Ha. case_bool_decide as Hg; cbn.
    + destruct b; [done|]. injection Hg as ->. by rewrite Z.eqb_refl.
    + split; [done|]. rewrite Ha. destruct b; [done|]. destruct (Z.eqb_spec generation g) as [->|]; done.
Qed.

Lemma granted_run g ops : forall b c c',
  granted g b (lease c) -> core_run c ops = Some c' ->
  granted g (b || existsb (fun op => match op with CoreRelease g' => g' =? g | _ => false end) ops) (lease c').
Proof.
  induction ops as [|op ops IH]; intros b c c' H E; cbn [core_run] in E; [simplify_eq; by rewrite orb_false_r|].
  destruct (core_step c op) as [c1|] eqn:E1; [|done]. cbn [existsb]. rewrite orb_assoc. eapply IH; [|exact E].
  by eapply granted_step.
Qed.

Lemma existsb_released g ops :
  let released := existsb (fun op => match op with CoreRelease g' => g' =? g | _ => false end) ops in
  (released = true /\ CoreRelease g ∈ ops) \/ (released = false /\ CoreRelease g ∉ ops).
Proof.
  induction ops as [|op ops IH]; cbn; [right; split; [done|by apply not_elem_of_nil]|].
  destruct IH as [[-> ?]|[-> ?]]; [left; rewrite orb_true_r; split; [done|by right]|]. rewrite orb_false_r.
  destruct op; try (right; split; [done|]; by apply not_elem_of_cons).
  destruct (Z.eqb_spec generation g) as [->|Hne]; [left; split; [done|by left]|].
  right. split; [done|]. apply not_elem_of_cons. split; [congruence|done].
Qed.

#[export] Instance core_op_ok_dec op : Decision (core_op_ok op).
Proof. destruct op; apply _. Defined.

(** ** Properties *)

(** C30: whatever the transport, decoder, audio and control threads do, in
    whatever order, no operation of the receive core panics or runs forever:
    every run from a new core returns, with at most 16 queued video events, 64
    queued audio packets, and the receiver in its invariant. *)
Theorem rx_core_safe now ops :
  Forall core_op_ok ops ->
  exists c, core_run (core_new now) ops = Some c /\
    queue_len c <= DEFAULT_FRAME_CAP /\ len (packets (audio c)) <= DEFAULT_AUDIO_CAP /\
    exists g last, rx_inv g last (rx c).
Proof.
  intros H. destruct (core_run_ok ops H _ (core_new_inv now)) as (c & E & [H1 H2 H3]). exists c. by split; [|split].
Qed.

(** A negotiated session: its key frame arrives after a delta frame, then a
    message of another epoch. *)
Definition demo_session : list CoreOp :=
  [CoreMessage (demo_msg 9 9 true [7] (ieee_crc32 [7])) 0; CoreAcquire; CoreBegin; CoreConfigure 2 (Some 1);
   CoreMessage (demo_msg 0 0 false [1; 2] (ieee_crc32 [1; 2])) 0;
   CoreMessage (demo_msg 1 1 true [3] (ieee_crc32 [3])) 10;
   CoreMessage ([2; 0; 0; 0; 9] ++ drop 5 (demo_msg 2 2 true [4] (ieee_crc32 [4]))) 20; CorePollNeedsIdr].

Lemma rx_core_safe_witness : exists c, core_run (core_new 0) demo_session = Some c /\ queue_len c <= 16.
Proof.
  destruct (rx_core_safe 0 demo_session) as (c & E & H & _); [by_decide|]. exists c. exact (conj E H).
Defined.

(** C9: a negotiated session is isolated. Whatever happened before
    [begin_fec_negotiation], once a session has selected the codec with epoch
    [e], every event waiting in the queue carries [e], the receiver has seen no
    other epoch, and every control message it sends is tagged with [e]; before
    the selection nothing is queued at all and no control message is sent. *)
Theorem session_epoch_isolated now before after c :
  Forall core_op_ok (before ++ CoreBegin :: after) ->
  core_run (core_new now) (before ++ CoreBegin :: after) = Some c ->
  match fec_codec c with
  | Unconfigured => events (core_queue c) = [] /\ forall control, control_message c control = None
  | CodecV1 => True
  | CodecV2 e =>
      only_epoch e (rx c) /\ Forall (vev_epoch e) (events (core_queue c)) /\
      forall control, exists msg, control_message c control = Some (encode_control_msg_v2 msg) /\
        match msg with V2Subscribe e' | V2Ack e' _ | V2NeedsIdr e' _ => e' = e end
  end.
Proof.
  intros H E. apply Forall_app in H as [Hb Ha]. apply Forall_cons in Ha as [_ Ha].
  destruct (core_run_ok before Hb _ (core_new_inv now)) as (c1 & E1 & H1).
  rewrite core_run_app, E1 in E. cbn [mbind option_bind core_run core_step] in E.
  destruct (begin_spec c1) as (c2 & E2 & B). rewrite E2 in E. cbn [mbind option_bind] in E.
  pose proof (core_run_iso after Ha c2 c (begin_inv _ _ H1 B) (begin_iso _ _ B) E) as [_ I2 I3].
  unfold control_message. destruct (fec_codec c) as [| |e]; [by destruct (I2 eq_refl)|done|].
  destruct (I3 e eq_refl) as [Ho Hq]. split; [done|]. split; [done|]. intros []; by eexists.
Qed.

Lemma session_epoch_isolated_witness :
  exists c, core_run (core_new 0) demo_session = Some c /\ fec_codec c = CodecV2 1 /\
    events (core_queue c) = [EvFrame (mkDecodeUnit 1 1 true 0 0 [3])] /\ Forall (vev_epoch 1) (events (core_queue c)).
Proof.
  assert (E : exists c, core_run (core_new 0) demo_session = Some c /\ fec_codec c = CodecV2 1 /\
    events (core_queue c) = [EvFrame (mkDecodeUnit 1 1 true 0 0 [3])]) by (eexists; split; [|split]; vm_compute; reflexivity).
  destruct E as (c & E & Hc & Hq). exists c. split; [exact E|]. split; [exact Hc|]. split; [exact Hq|].
  assert (H : Forall core_op_ok (take 2 demo_session ++ CoreBegin :: drop 3 demo_session)) by by_decide.
  pose proof (session_epoch_isolated 0 (take 2 demo_session) (drop 3 demo_session) c H E) as HI.
  rewrite Hc in HI. exact (proj1 (proj2 HI)).
Defined.

(** the receive core is a filter in front of its queue: accepting a message
    does to the queue what the frames and discontinuities the receiver reports
    do, in their order, except that after a v2 negotiation the delta frames
    before the first key frame are dropped; so the first frame of a session is
    a key frame. A message of another codec or epoch changes nothing. *)
Theorem consume_is_filter c buf now c' :
  core_on_message c buf now = Some c' ->
  if accepts_message c buf
  then
    exists r evs, on_message (rx c) buf now = Some (r, evs) /\ rx c' = r /\
      core_queue c' = q_run core_cap (core_queue c) (queue_ops (v2_key_gate c) evs) /\
      v2_key_gate c' = gate_after (v2_key_gate c) evs /\
      (v2_key_gate c = true -> forall l1 u l2, queue_ops true evs = l1 ++ QPushFrame u :: l2 ->
        (forall v, QPushFrame v ∉ l1) -> du_is_key u = true)
  else c' = c.
Proof.
  unfold core_on_message. destruct (accepts_message c buf); cbn [negb]; [|by intros [= <-]].
  destruct (on_message (rx c) buf now) as [[r evs]|]; [|done]. cbn. intros [= <-]. exists r, evs.
  destruct (consume_events_spec evs (set_rx c r)) as ([S1 _ _ _ _] & Hq & Hg).
  split; [done|]. split; [done|]. split; [done|]. split; [done|]. intros _ l1 u l2. apply queue_ops_key.
Qed.

(** The core after the delta frame of the demo session. *)
Definition demo_core : RxCore := default (core_new 0) (core_run (core_new 0) (take 5 demo_session)).

Lemma consume_is_filter_witness :
  exists c', core_on_message demo_core (demo_msg 1 1 true [3] (ieee_crc32 [3])) 10 = Some c' /\
    v2_key_gate demo_core = true /\ v2_key_gate c' = false /\
    exists evs, core_queue c' = q_run core_cap (core_queue demo_core) (queue_ops true evs).
Proof.
  assert (E : exists c', core_on_message demo_core (demo_msg 1 1 true [3] (ieee_crc32 [3])) 10 = Some c' /\ v2_key_gate c' = false)
    by (eexists; split; vm_compute; reflexivity).
  destruct E as (c' & E & Hg). exists c'. split; [exact E|]. split; [vm_compute; reflexivity|]. split; [exact Hg|].
  pose proof (consume_is_filter demo_core _ 10 c' E) as H.
  replace (accepts_message demo_core _) with true in H by (vm_compute; reflexivity).
  destruct H as (r & evs & _ & _ & Hq & _). exists evs. rewrite Hq.
  replace (v2_key_gate demo_core) with true by (vm_compute; reflexivity). reflexivity.
Defined.

(** the lease is granted once: after a session has acquired it, every later
    acquisition fails, whatever happens in between; only the generation granted
    can release it, exactly as long as it has not; and while it is held the
    calls of a client without a session change nothing. *)
Theorem lease_exclusive c c1 g ops c2 :
  acquire_session_lease c = (c1, Some g) -> core_run c1 ops = Some c2 ->
  1 <= g /\ (acquire_session_lease c2).2 = None /\
  (forall g', (release_session_lease c2 g').2 = true <-> g' = g /\ CoreRelease g ∉ ops) /\
  (CoreRelease g ∉ ops -> forall buf now,
    on_standalone_message c2 buf now = Some c2 /\ on_standalone_tick c2 now = Some c2 /\
    poll_standalone_ack c2 = (c2, None) /\ poll_standalone_needs_idr c2 = (c2, false) /\
    poll_standalone_discontinuity c2 = (c2, None)).
Proof.
  intros Ha E.
  assert (H1 : 1 <= g /\ granted g false (lease c1)).
  { unfold acquire_session_lease in Ha. repeat case_match; simplify_eq. split; [lia|done]. }
  destruct H1 as [Hg H1]. apply (granted_run g ops false c1 c2 H1) in E. cbn [orb] in E. clear H1 Ha.
  destruct (existsb_released g ops) as [[Hb Hin]|[Hb Hin]]; rewrite Hb in E; destruct E as [Hs Hl].
  - split; [done|]. unfold acquire_session_lease, release_session_lease. rewrite Hs, Hl. split; [by destruct (lease_closed _)|].
    split; [|done]. intros g'. case_bool_decide; [done|]. by split; [|intros [_ ?]].
  - split; [done|]. unfold acquire_session_lease, release_session_lease. rewrite Hs, Hl. split; [by destruct (lease_closed _)|].
    split.
    + intros g'. case_bool_decide as Hg'; cbn; [simplify_eq; by split|]. split; [done|]. intros [-> _]. done.
    + intros _ buf now. unfold on_standalone_message, on_standalone_tick, poll_standalone_ack, poll_standalone_needs_idr,
        poll_standalone_discontinuity. by rewrite Hl.
Qed.

Lemma lease_exclusive_witness :
  exists c2, core_run (acquire_session_lease (core_new 0)).1 (drop 2 demo_session) = Some c2 /\
    (acquire_session_lease c2).2 = None.
Proof.
  destruct (core_run (acquire_session_lease (core_new 0)).1 (drop 2 demo_session)) as [c2|] eqn:E; [|by vm_compute in E].
  exists c2. split; [reflexivity|]. exact (proj1 (proj2 (lease_exclusive (core_new 0) _ 1 _ c2 eq_refl E))).
Defined.
