(* ===== verification/Flow.v ===== *)
(** * Signaling: the flow and the FEC negotiation

    The client's signaling state machine (client-transport/src/flow.rs), the
    messages it consumes and produces (common/src/api_bindings.rs), what the
    session does with a completed connection (client-transport/src/session.rs),
    and the host's half of the FEC negotiation (streamer/src/main.rs,
    transport/webrtc/mod.rs and video.rs). *)
From Stdlib Require String.
From S2P Require Import Prelude FecWire FecSender RxCore.

(** ** The signaling messages *)

Inductive RtcSdpType : Type := Offer | Answer | Pranswer | Rollback | Unspecified.

Record RtcSessionDescription := mkDescription {
  sd_ty : RtcSdpType;
  sd_sdp : String.string
}.

Record RtcIceCandidate := mkCandidate {
  candidate : String.string;
  sdp_mid : option String.string;
  sdp_mline_index : option Z;
  username_fragment : option String.string
}.

Record RtcIceServer := mkIceServer {
  is_default : bool;
  urls : list String.string;
  username : String.string;
  credential : String.string
}.

Inductive StreamSignalingMessage : Type :=
| Description (d : RtcSessionDescription)
| AddIceCandidate (c : RtcIceCandidate).

Inductive TransportType : Type := WebRTC | WebSocket.

Record StreamSettings := mkStreamSettings {
  st_bitrate_kbps : Z;
  st_width : Z;
  st_height : Z;
  st_fps : Z;
  play_audio_local : bool;
  st_supported_codecs : Z;
  hdr : bool;
  video_over_fec_only : bool;
  requested_fec_protocol_version : option Z
}.

Inductive StreamClientMessage : Type :=
| Init (host_id app_id video_frame_queue_size audio_sample_queue_size : Z)
| ClientWebRtc (m : StreamSignalingMessage)
| SetTransport (t : TransportType)
| StartStream (settings : StreamSettings)
| RequestIdr
| RestartIce.

Record StreamCapabilities := mkCapabilities {
  cap_touch : bool;
  selected_fec_protocol_version : option Z;
  fec_epoch : option Z
}.

Record App := mkApp {
  ap_app_id : Z;
  ap_title : String.string;
  is_hdr_supported : bool
}.

Inductive LogMessageType : Type := Fatal | IfErrorDescription | FatalDescription | Recover | InformError.

(** What [ConnectionComplete] says of the decoder and the audio. *)
Record StreamSetup := mkSetup {
  su_format : Z;
  su_width : Z;
  su_height : Z;
  su_fps : Z;
  audio_sample_rate : Z;
  audio_channel_count : Z;
  audio_streams : Z;
  audio_coupled_streams : Z;
  audio_samples_per_frame : Z;
  audio_mapping : list Z
}.

Inductive StreamServerMessage : Type :=
| Setup (ice_servers : list RtcIceServer)
| ServerWebRtc (m : StreamSignalingMessage)
| UpdateApp (app : App)
| DebugLog (message : String.string) (ty : option LogMessageType)
| ConnectionComplete (capabilities : StreamCapabilities) (setup : StreamSetup)
| ConnectionTerminated (error_code : Z).

(** ** The flow *)

Inductive FlowProtocolError : Type :=
| InvalidFecCapabilityTuple (selected_version epoch : option Z)
| ConnectionCompleteBeforeSetup
| DuplicateConnectionComplete
| ConnectionCompleteAfterTermination.

Record StreamParams := mkStreamParams {
  sp_setup : StreamSetup;
  fec_protocol_version : Z;
  sp_fec_epoch : option Z
}.

Inductive FlowAction : Type :=
| ActSend (m : StreamClientMessage)
| CreatePeer (ice_servers : list RtcIceServer)
| ApplyRemoteOffer (d : RtcSessionDescription)
| AddRemoteCandidate (c : RtcIceCandidate)
| ActComplete (p : StreamParams)
| ProtocolError (e : FlowProtocolError)
| ActTerminated (error_code : Z).

(** [u32] epochs; the second component is an [Option<NonZeroU32>]. *)
Definition negotiated_fec_parameters (capabilities : StreamCapabilities) :
  result (Z * option Z) FlowProtocolError :=
  match selected_fec_protocol_version capabilities, fec_epoch capabilities with
  | None, None => Ok (1, None)
  | Some v, None => if v =? 1 then Ok (1, None) else Err (InvalidFecCapabilityTuple (Some v) None)
  | Some v, Some epoch =>
      if ((v =? 2) && negb (epoch =? 0))%bool then Ok (2, Some epoch)
      else Err (InvalidFecCapabilityTuple (Some v) (Some epoch))
  | None, Some epoch => Err (InvalidFecCapabilityTuple None (Some epoch))
  end.

Definition negotiated_channels (sdp_ch : Z) : Z := if ((1 <=? sdp_ch) && (sdp_ch <=? 8))%bool then sdp_ch else 2.

Record FlowConfig := mkFlowConfig {
  host_id : Z;
  app_id : Z;
  video_frame_queue_size : Z;
  audio_sample_queue_size : Z;
  bitrate_kbps : Z;
  fc_width : Z;
  fc_height : Z;
  fc_fps : Z;
  supported_codecs : Z
}.

Inductive Phase : Type := AwaitSetup | Negotiating | Streaming | Terminated.

#[export] Instance Phase_eq_dec : EqDecision Phase.
Proof. solve_decision. Defined.

Record SignalingFlow := mkFlow {
  config : FlowConfig;
  phase : Phase
}.

Definition flow_new (config : FlowConfig) : SignalingFlow := mkFlow config AwaitSetup.

Definition init_message (f : SignalingFlow) : StreamClientMessage :=
  Init (host_id (config f)) (app_id (config f)) (video_frame_queue_size (config f)) (audio_sample_queue_size (config f)).

Definition stream_settings (c : FlowConfig) : StreamSettings :=
  mkStreamSettings (bitrate_kbps c) (fc_width c) (fc_height c) (fc_fps c) false (supported_codecs c) false true (Some 2).

Definition on_server_message (f : SignalingFlow) (msg : StreamServerMessage) : SignalingFlow * list FlowAction :=
  let terminate e := (mkFlow (config f) Terminated, [ProtocolError e]) in
  match msg with
  | Setup ice_servers =>
      match phase f with
      | AwaitSetup =>
          (mkFlow (config f) Negotiating,
           [CreatePeer ice_servers; ActSend (SetTransport WebRTC);
            ActSend (StartStream (stream_settings (config f)))])
      | _ => (f, [])
      end
  | ServerWebRtc (Description desc) => (f, [ApplyRemoteOffer desc])
  | ServerWebRtc (AddIceCandidate cand) => (f, [AddRemoteCandidate cand])
  | ConnectionComplete capabilities setup =>
      match phase f with
      | AwaitSetup => terminate ConnectionCompleteBeforeSetup
      | Streaming => terminate DuplicateConnectionComplete
      | Terminated => terminate ConnectionCompleteAfterTermination
      | Negotiating =>
          match negotiated_fec_parameters capabilities with
          | Err error => terminate error
          | Ok (version, epoch) =>
              (mkFlow (config f) Streaming, [ActComplete (mkStreamParams setup version epoch)])
          end
      end
  | ConnectionTerminated error_code => (mkFlow (config f) Terminated, [ActTerminated error_code])
  | UpdateApp _ | DebugLog _ _ => (f, [])
  end.

Definition on_local_answer (desc : RtcSessionDescription) : FlowAction := ActSend (ClientWebRtc (Description desc)).
Definition on_local_candidate (cand : RtcIceCandidate) : FlowAction := ActSend (ClientWebRtc (AddIceCandidate cand)).
Definition is_terminated (f : SignalingFlow) : bool := bool_decide (phase f = Terminated).

Fixpoint flow_run (f : SignalingFlow) (msgs : list StreamServerMessage) : SignalingFlow * list FlowAction :=
  match msgs with
  | [] => (f, [])
  | msg :: msgs =>
      let '(f, acts) := on_server_message f msg in
      let '(f, acts') := flow_run f msgs in
      (f, acts ++ acts')
  end.

(** ** The session's part: the start of a session, and [FlowAction::Complete]
    as far as the receive core sees it. [None]: the session fails. *)

Definition session_start (core : RxCore) : option (RxCore * Z) :=
  let '(core, generation) := acquire_session_lease core in
  generation ← generation;
  core ← begin_fec_negotiation core;
  Some (core, generation).

Definition session_complete (core : RxCore) (p : StreamParams) : option RxCore :=
  let '(core, ok) := configure_fec core (fec_protocol_version p) (sp_fec_epoch p) in
  if ok then Some (set_audio_channels core (negotiated_channels (audio_channel_count (sp_setup p)))) else None.

(** [SessionCleanup::drop]. *)
Definition session_cleanup (core : RxCore) (generation : Z) : RxCore :=
  (release_session_lease (core_close core) generation).1.

(** ** The host's part *)

Inductive SelectedFecProtocol : Type := SelectedV1 | SelectedV2.

Inductive FecCapabilitySelectionError : Type := SenderEpochRequired.

Definition select_fec_protocol (requested_version : option Z) : SelectedFecProtocol :=
  if 2 <=? default 1 requested_version then SelectedV2 else SelectedV1.

Definition selected_fec_capabilities (touch : bool) (selection : SelectedFecProtocol) (sender_epoch : option Z) :
  result StreamCapabilities FecCapabilitySelectionError :=
  match selection with
  | SelectedV1 => Ok (mkCapabilities touch None None)
  | SelectedV2 =>
      match sender_epoch with
      | Some epoch => Ok (mkCapabilities touch (Some 2) (Some epoch))
      | None => Err SenderEpochRequired
      end
  end.

(** The wire version the transport gives its senders. *)
Definition fec_wire_version (settings : StreamSettings) : WireVersion :=
  if 2 <=? default 1 (requested_fec_protocol_version settings) then V2 else V1.

Definition next_fec_epoch (current : Z) : Z :=
  let next := wrap32 (current + 1) in
  if next =? 0 then 1 else next.

(** [allocate_fec_epoch]; [None] would be the panic of its [expect]. *)
Definition allocate_fec_epoch (next : Z) : option (Z * Epoch) :=
  let next := next_fec_epoch next in
  epoch ← Epoch_new next;
  Some (next, epoch).
