(* ===== verification/FlowSafe.v ===== *)
(** * The negotiation agrees, and the flow keeps its order

    Both halves of the FEC negotiation select the same wire version and epoch; the
    control messages that then take effect are exactly those the core sends, and the
    symbols it admits those of that version and epoch; and the signaling state machine
    refines a fixed script. *)
From Stdlib Require String.
From S2P Require Import Prelude FecEncoder FecWire VideoRxRun FecSender FrameQueue RxCore RxCoreSafe Flow.

(** ** The negotiation *)

Lemma next_fec_epoch_ok next : in_u32 next -> in_u32 (next_fec_epoch next) /\ next_fec_epoch next <> 0.
Proof.
  intros _. unfold next_fec_epoch. case_test; [split; [|done]; by apply in_u32_iff|].
  split; [apply wrap32_in|done].
Qed.

Lemma allocate_fec_epoch_ok next :
  in_u32 next -> exists e, allocate_fec_epoch next = Some (e, e) /\ in_u32 e /\ e <> 0.
Proof.
  intros H. destruct (next_fec_epoch_ok next H) as [H1 H2]. exists (next_fec_epoch next).
  unfold allocate_fec_epoch, Epoch_new. by rewrite (proj2 (Z.eqb_neq _ 0)).
Qed.

(** What a control asks of the sender. *)
Definition control_meaning (c : FecControl) : AckMsg :=
  match c with FcSubscribe => Subscribe | FcAck seq => Ack seq | FcNeedsIdr _ => NeedsIdr end.

Definition control_ok (c : FecControl) : Prop :=
  match c with FcSubscribe => True | FcAck seq => in_u32 seq | FcNeedsIdr reason => 0 <= reason < 256 end.

(** The codec of a sender's wire. *)
Definition codec_of (w : SenderWire) : FecCodec := match wire_version w with V1 => CodecV1 | V2 => CodecV2 (snd_epoch w) end.

Lemma codec_of_iff w w' :
  codec_of w' = codec_of w <-> wire_version w' = wire_version w /\ (wire_version w = V2 -> snd_epoch w' = snd_epoch w).
Proof.
  unfold codec_of. destruct (wire_version w), (wire_version w'); split; try done; try by intros [? _].
  - by intros [= ->].
  - intros [_ H]. by rewrite H.
Qed.

(** A core with the sender's codec speaks the sender's language. *)
Lemma control_understood w core c :
  fec_codec core = codec_of w -> in_u32 (snd_epoch w) -> snd_epoch w <> 0 -> control_ok c ->
  exists buf, control_message core c = Some buf /\
    match parse_control_msg buf with
    | Ok m => accepted_control w m = Some (control_meaning c)
    | Err _ => wire_version w = V1 /\ reserved_ack (control_meaning c) = true
    end.
Proof.
  intros Hc He Hne Hok. unfold control_message. rewrite Hc. unfold codec_of, accepted_control.
  destruct (wire_version w) eqn:Ew; eexists; (split; [reflexivity|]).
  - change (match c with FcSubscribe => Subscribe | FcAck seq => Ack seq | FcNeedsIdr _ => NeedsIdr end)
      with (control_meaning c).
    rewrite parse_encode_ack by (by destruct c). by destruct (reserved_ack (control_meaning c)).
  - rewrite parse_encode_control by (by destruct c). destruct c; by rewrite Z.eqb_refl.
Qed.

Lemma encoded_head w sym buf :
  encode_symbol w sym = Ok buf ->
  exists k rest, buf = k :: rest /\
    match wire_version w with
    | V1 => k = 0 \/ k = 1
    | V2 => (k = 2 \/ k = 3) /\ 5 <= len buf /\ le_field buf 1 5 = of_le (u32_le (snd_epoch w))
    end.
Proof.
  unfold encode_symbol. destruct (wire_version w).
  - intros [= <-]. destruct sym; eexists _, _; (split; [reflexivity|]); auto.
  - destruct sym; cbn [encode_symbol_msg_v2]; case_test; [done| |done|]; intros [= <-]; eexists _, _;
      (split; [reflexivity|]); (split; [auto|]); (split; [|reflexivity]); unfold len; cbn [length app u32_le le_bytes]; lia.
Qed.

(** A core admits the symbols of a sender of its own version and epoch, and of no other. *)
Lemma symbol_admitted_iff w core w' sym buf :
  fec_codec core = codec_of w -> in_u32 (snd_epoch w') -> encode_symbol w' sym = Ok buf ->
  accepts_message core buf = true <-> codec_of w' = codec_of w.
Proof.
  intros Hc He E. apply encoded_head in E as (k & rest & -> & H). unfold accepts_message. rewrite Hc. unfold codec_of.
  destruct (wire_version w), (wire_version w').
  - by destruct H as [-> | ->].
  - by destruct H as [[-> | ->] _].
  - by destruct H as [-> | ->].
  - destruct H as (Hk & Hl & ->). rewrite u32_le_id by done. rewrite (proj2 (Z.leb_le _ _)) by done.
    assert (Hh : match head (k :: rest) with Some k => ((k =? 2) || (k =? 3))%bool | None => false end = true)
      by (by destruct Hk as [-> | ->]).
    rewrite Hh. cbn [andb]. rewrite Z.eqb_eq. split; congruence.
Qed.

(** An ACK read off four bytes is a [u32]. *)
Lemma parsed_ack_u32 buf seq :
  bytes buf -> parse_control_msg buf = Ok (ControlV1 (Ack seq)) -> in_u32 seq.
Proof.
  intros Hb. destruct buf as [|k rest]; [done|]. unfold parse_control_msg.
  case_test. { case_test; [done|]. case_test; [done|]. by destruct (ok_or _ _). }
  case_test. { case_test; [done|]. case_test; [done|]. by destruct (ok_or _ _). }
  case_test. { case_test; [done|]. case_test; [done|]. by destruct (ok_or _ _). }
  destruct rest as [|b [|c [|d [|? ?]]]]; try done; [by repeat case_test|].
  intros E. assert (of_le [k; b; c; d] = seq) as <- by congruence. by apply of_le_u32.
Qed.

(** The sender accepts a control message exactly when the core sends it, and
    takes it for what it means. *)
Lemma control_accepted_iff w core buf m a :
  fec_codec core = codec_of w -> in_u32 (snd_epoch w) -> snd_epoch w <> 0 ->
  bytes buf -> parse_control_msg buf = Ok m ->
  accepted_control w m = Some a <->
  exists c, control_ok c /\ control_message core c = Some buf /\ control_meaning c = a.
Proof.
  intros Hc He Hne Hb Hp. split.
  - pose proof (parse_control_inv buf m Hb Hp) as Hi. intros Ha.
    unfold accepted_control in Ha. unfold control_message. rewrite Hc. unfold codec_of.
    destruct (wire_version w), m as [m|m]; try done.
    + apply (inj Some) in Ha as ->. rewrite <- Hi. destruct a as [| |seq]; [exists FcSubscribe; by split_and!| |].
      * exists (FcNeedsIdr 0). by split_and!.
      * exists (FcAck seq). split_and!; [|done|done]. by eapply parsed_ack_u32.
    + destruct Hi as [Hok <-]. revert Ha. destruct m as [e|e q|e r]; case_test; try done; intros Ha; apply (inj Some) in Ha as <-; subst e.
      * exists FcSubscribe. by split_and!.
      * exists (FcAck q). split_and!; [apply Hok|done|done].
      * exists (FcNeedsIdr r). split_and!; [apply Hok|done|done].
  - intros (c & Hok & Hm & <-). destruct (control_understood w core c Hc He Hne Hok) as (buf' & Hm' & H).
    rewrite Hm in Hm'. apply (inj Some) in Hm' as <-. by rewrite Hp in H.
Qed.

(** The host's capabilities, and the parameters the client takes from them. *)
Lemma capabilities_agree settings touch e :
  e <> 0 ->
  let w := mkSenderWire (fec_wire_version settings) e in
  exists caps,
    selected_fec_capabilities touch (select_fec_protocol (requested_fec_protocol_version settings)) (v2_epoch w) = Ok caps /\
    negotiated_fec_parameters caps = Ok (match wire_version w with V1 => (1, None) | V2 => (2, Some e) end).
Proof.
  intros He. unfold select_fec_protocol, fec_wire_version, v2_epoch. cbn.
  case_test; eexists; (split; [reflexivity|]); [|done].
  unfold negotiated_fec_parameters. cbn. by rewrite (proj2 (Z.eqb_neq e 0)).
Qed.

(** A session's core takes them. *)
Lemma session_complete_ok core0 core g setup w :
  session_start core0 = Some (core, g) ->
  exists core',
    session_complete core (mkStreamParams setup
      (match wire_version w with V1 => 1 | V2 => 2 end) (match wire_version w with V1 => None | V2 => Some (snd_epoch w) end))
    = Some core' /\ fec_codec core' = codec_of w.
Proof.
  unfold session_start. destruct (acquire_session_lease core0) as [c1 [g1|]]; [|done]. cbn [mbind option_bind].
  destruct (begin_spec c1) as (c2 & -> & B). cbn. intros [= <- <-].
  unfold session_complete, configure_fec, codec_of. cbn [fec_protocol_version sp_fec_epoch].
  rewrite (bg_configured _ _ B). destruct (wire_version w); cbn; by eexists.
Qed.

(** ** The flow's script *)

(** The actions that only relay. *)
Definition is_relay (a : FlowAction) : bool :=
  match a with ApplyRemoteOffer _ | AddRemoteCandidate _ => true | _ => false end.
Definition is_failure (a : FlowAction) : bool :=
  match a with ProtocolError _ | ActTerminated _ => true | _ => false end.

(** The messages that only relay, as actions. *)
Definition relayed (msg : StreamServerMessage) : list FlowAction :=
  match msg with
  | ServerWebRtc (Description d) => [ApplyRemoteOffer d]
  | ServerWebRtc (AddIceCandidate c) => [AddRemoteCandidate c]
  | _ => []
  end.

Definition setup_script (cfg : FlowConfig) (ices : list RtcIceServer) : list FlowAction :=
  [CreatePeer ices; ActSend (SetTransport WebRTC); ActSend (StartStream (stream_settings cfg))].

(** What the milestones so far say of the phase. *)
Inductive script (cfg : FlowConfig) : Phase -> list FlowAction -> Prop :=
| sc_await : script cfg AwaitSetup []
| sc_negotiating ices : script cfg Negotiating (setup_script cfg ices)
| sc_streaming ices p : script cfg Streaming (setup_script cfg ices ++ [ActComplete p])
| sc_failed ph acts fail : script cfg ph acts -> is_failure fail = true -> script cfg Terminated (acts ++ [fail]).

Lemma flow_step cfg f msg acts :
  config f = cfg -> script cfg (phase f) acts ->
  let '(f', out) := on_server_message f msg in
  config f' = cfg /\ filter (fun a => is_relay a = true) out = relayed msg /\
  script cfg (phase f') (acts ++ filter (fun a => is_relay a = false) out).
Proof.
  intros Hc Hs.
  assert (Hf : forall e, script cfg Terminated (acts ++ [ProtocolError e])) by (intros; by eapply sc_failed).
  destruct msg as [ices|[d|c]|app|m ty|caps setup|code]; cbn [on_server_message relayed]; cbn -[setup_script];
    rewrite ?app_nil_r; try (by split).
  - destruct (phase f) eqn:Ep; cbn -[setup_script]; rewrite ?app_nil_r, ?Ep; try (by split).
    split; [done|]. split; [done|]. inversion Hs; subst. constructor.
  - destruct (phase f) eqn:Ep; cbn; try (split; [done|split; [done|apply Hf]]).
    destruct (negotiated_fec_parameters caps) as [[v e]|err]; cbn; [|split; [done|split; [done|apply Hf]]].
    split; [done|]. split; [done|]. inversion Hs; subst. constructor.
  - split; [done|]. split; [done|]. by eapply sc_failed.
Qed.

Lemma flow_run_script cfg msgs : forall f acts,
  config f = cfg -> script cfg (phase f) acts ->
  let '(f', out) := flow_run f msgs in
  config f' = cfg /\ filter (fun a => is_relay a = true) out = msgs ≫= relayed /\
  script cfg (phase f') (acts ++ filter (fun a => is_relay a = false) out).
Proof.
  induction msgs as [|msg msgs IH]; intros f acts Hc Hs; cbn [flow_run]; [by rewrite app_nil_r|].
  pose proof (flow_step cfg f msg acts Hc Hs) as H. destruct (on_server_message f msg) as [f1 out1].
  destruct H as (Hc1 & Hr1 & Hs1). specialize (IH f1 _ Hc1 Hs1). destruct (flow_run f1 msgs) as [f2 out2].
  destruct IH as (Hc2 & Hr2 & Hs2). rewrite !filter_app, app_assoc. split; [done|]. split; [|done].
  rewrite Hr1, Hr2. done.
Qed.

Lemma script_prefix cfg ph acts :
  script cfg ph acts ->
  exists ices p k fails,
    acts = take k (setup_script cfg ices ++ [ActComplete p]) ++ fails /\ Forall (fun a => is_failure a = true) fails /\
    ph = (if bool_decide (fails = []) then
            if bool_decide (k = 0%nat) then AwaitSetup else if bool_decide (k = 3%nat) then Negotiating else Streaming
          else Terminated) /\ (k = 0 \/ k = 3 \/ k = 4)%nat.
Proof.
  set (p0 := mkStreamParams (mkSetup 0 0 0 0 0 0 0 0 0 []) 0 None).
  induction 1 as [|ices|ices p|ph acts fail Hs (ices & p & k & fails & -> & Hf & _ & Hk) Hfail].
  - exists [], p0, 0%nat, []. split; [done|]. split; [done|]. split; [done|lia].
  - exists ices, p0, 3%nat, []. split; [done|]. split; [done|]. split; [done|lia].
  - exists ices, p, 4%nat, []. split; [done|]. split; [done|]. split; [done|lia].
  - exists ices, p, k, (fails ++ [fail]). split; [by rewrite app_assoc|].
    split; [by apply Forall_app; split; [|constructor]|]. split; [|done]. by destruct fails.
Qed.

(** ** Properties *)

(** C8: the two ends agree. Whatever version the client requests and whatever
    the epoch counter holds: the host's allocation and capability selection
    succeed, the client's flow accepts the capabilities, and a started session
    configures its receive core with the sender's wire version and epoch. Then
    every control message the core sends means to the sender what it meant to
    the client (but for the v1 ACKs whose first byte is reserved); conversely
    the sender accepts no other message, of whatever bytes: those it accepts are
    exactly the ones the core sends. And of the symbols any sender encodes the
    core admits exactly those of the selected version and, in v2, epoch. *)
Theorem negotiation_agrees cfg settings next touch setup core0 core g :
  in_u32 next -> session_start core0 = Some (core, g) ->
  exists e caps p core',
    let w := mkSenderWire (fec_wire_version settings) e in
    allocate_fec_epoch next = Some (e, e) /\
    selected_fec_capabilities touch (select_fec_protocol (requested_fec_protocol_version settings)) (v2_epoch w) = Ok caps /\
    on_server_message (mkFlow cfg Negotiating) (ConnectionComplete caps setup) = (mkFlow cfg Streaming, [ActComplete p]) /\
    session_complete core p = Some core' /\ fec_codec core' = codec_of w /\
    (forall c, control_ok c -> exists buf, control_message core' c = Some buf /\
       match parse_control_msg buf with
       | Ok m => accepted_control w m = Some (control_meaning c)
       | Err _ => wire_version w = V1 /\ reserved_ack (control_meaning c) = true
       end) /\
    (forall buf m a, bytes buf -> parse_control_msg buf = Ok m ->
       accepted_control w m = Some a <->
       exists c, control_ok c /\ control_message core' c = Some buf /\ control_meaning c = a) /\
    (forall w' sym buf, in_u32 (snd_epoch w') -> encode_symbol w' sym = Ok buf ->
       accepts_message core' buf = true <->
       wire_version w' = wire_version w /\ (wire_version w = V2 -> snd_epoch w' = e)).
Proof.
  intros Hn Hs. destruct (allocate_fec_epoch_ok next Hn) as (e & Ha & He & Hne).
  destruct (capabilities_agree settings touch e Hne) as (caps & Hcap & Hpar).
  destruct (session_complete_ok core0 core g setup (mkSenderWire (fec_wire_version settings) e) Hs) as (core' & Hcore & Hc).
  exists e, caps, (mkStreamParams setup (match fec_wire_version settings with V1 => 1 | V2 => 2 end)
    (match fec_wire_version settings with V1 => None | V2 => Some e end)), core'. cbv zeta.
  split; [exact Ha|]. split; [exact Hcap|]. split.
  { cbn. rewrite Hpar. by destruct (fec_wire_version settings). }
  split; [exact Hcore|]. split; [exact Hc|]. split; [|split].
  - intros c Hok. by apply control_understood.
  - intros buf m a. by apply control_accepted_iff.
  - intros w' sym buf He' E. rewrite (symbol_admitted_iff _ _ _ _ _ Hc He' E), codec_of_iff. done.
Qed.

(** The native client's settings, and a host on its first stream. *)
Definition demo_settings : StreamSettings := stream_settings (mkFlowConfig 1 2 3 20 8000 1920 1080 60 1).

Lemma negotiation_agrees_witness :
  exists core p core', session_start (core_new 0) = Some (core, 1) /\ session_complete core p = Some core' /\
    fec_codec core' = CodecV2 1.
Proof.
  assert (E : exists core, session_start (core_new 0) = Some (core, 1)) by (eexists; vm_compute; reflexivity).
  destruct E as [core E]. exists core.
  destruct (negotiation_agrees (mkFlowConfig 1 2 3 20 8000 1920 1080 60 1) demo_settings 0 false
    (mkSetup 1 1920 1080 60 48000 2 1 1 240 []) (core_new 0) core 1 ltac:(by_decide) E)
    as (e & caps & p & core' & Ha & _ & _ & Hs & Hc & _).
  exists p, core'. split; [exact E|]. split; [exact Hs|]. rewrite Hc.
  assert (He : e = 1) by (vm_compute in Ha; congruence). rewrite He. reflexivity.
Defined.

(** the signaling flow keeps its order. Whatever the server sends: the
    session's milestones are a prefix of the script (create the peer, select
    WebRTC, start the stream; then one completion), followed by failures only,
    and the phase says where in the script it stands; nothing but failures
    comes after a termination; and offers and candidates are relayed in the
    order they came. *)
Theorem signaling_order cfg msgs :
  let '(f, acts) := flow_run (flow_new cfg) msgs in
  filter (fun a => is_relay a = true) acts = msgs ≫= relayed /\
  exists ices p k fails,
    filter (fun a => is_relay a = false) acts = take k (setup_script cfg ices ++ [ActComplete p]) ++ fails /\
    Forall (fun a => is_failure a = true) fails /\
    phase f = (if bool_decide (fails = []) then
                 if bool_decide (k = 0%nat) then AwaitSetup else if bool_decide (k = 3%nat) then Negotiating else Streaming
               else Terminated) /\
    (k = 0 \/ k = 3 \/ k = 4)%nat.
Proof.
  pose proof (flow_run_script cfg msgs (flow_new cfg) [] eq_refl (sc_await cfg)) as H.
  destruct (flow_run (flow_new cfg) msgs) as [f acts]. destruct H as (_ & Hr & Hs). split; [exact Hr|].
  cbn [app] in Hs. by apply script_prefix.
Qed.
