(* ===== verification/LoginLimiter.v ===== *)
(** * The login-failure rate limiter (src/src/api/login_limiter.rs)

    A fixed window of failures per IP address in a bounded map. Instants and
    durations are nanoseconds; the iteration order of the [HashMap], which only
    decides between entries of equal age, is a parameter. *)
From S2P Require Import Prelude.

Inductive IpAddr : Type := IpV4 (a : Z) | IpV6 (a : Z).

#[export] Instance IpAddr_eq_dec : EqDecision IpAddr.
Proof. solve_decision. Defined.

#[export] Program Instance IpAddr_countable : Countable IpAddr :=
  inj_countable' (fun ip => match ip with IpV4 a => inl a | IpV6 a => inr a end)
    (fun s => match s with inl a => IpV4 a | inr a => IpV6 a end) _.
Next Obligation. by intros []. Qed.

Definition NANOS : Z := 1000000000.
Definition MAX_FAILURES : Z := 10.
Definition WINDOW : Z := 10 * 60 * NANOS.
Definition MAP_LIMIT : Z := 4096.

Record Entry := mkEntry {
  window_start : Z;
  failures : Z
}.

Inductive LimitCheck : Type := Allow | Deny (retry_after_secs : Z).

Notation limiter := (gmap IpAddr Entry).

Definition limit_check (map : limiter) (ip : IpAddr) (now : Z) : LimitCheck :=
  match map !! ip with
  | None => Allow
  | Some entry =>
      if WINDOW <=? sat_sub now (window_start entry) then Allow
      else if MAX_FAILURES <=? failures entry then
        let elapsed := sat_sub now (window_start entry) in
        Deny (Z.max (sat_sub WINDOW elapsed / NANOS) 1)
      else Allow
  end.

(** [Iterator::min_by_key]: the first of the smallest. *)
Fixpoint min_by_start (l : list (IpAddr * Entry)) : option (IpAddr * Entry) :=
  match l with
  | [] => None
  | x :: l =>
      match min_by_start l with
      | Some y => if window_start y.2 <? window_start x.2 then Some y else Some x
      | None => Some x
      end
  end.

Section limiter.
  (** [HashMap::iter]. *)
  Context (iter : limiter -> list (IpAddr * Entry)).

Definition limit_evict (map : limiter) (now : Z) : limiter :=
  let map := filter (fun p => sat_sub now (window_start p.2) < WINDOW) map in
  if MAP_LIMIT <=? Z.of_nat (size map) then
    match min_by_start (iter map) with
    | Some (oldest_ip, _) => delete oldest_ip map
    | None => map
    end
  else map.

(** What [record_failure] does to the entry of its address. *)
Definition entry_failure (o : option Entry) (now : Z) : Entry :=
  let entry := default (mkEntry now 0) o in
  let entry := if WINDOW <=? sat_sub now (window_start entry) then mkEntry now 0 else entry in
  mkEntry (window_start entry) (Z.min (failures entry + 1) 4294967295).

Definition record_failure (map : limiter) (ip : IpAddr) (now : Z) : limiter :=
  let map :=
    match map !! ip with
    | None => if MAP_LIMIT <=? Z.of_nat (size map) then limit_evict map now else map
    | Some _ => map
    end in
  <[ip := entry_failure (map !! ip) now]> map.

Definition limit_clear (map : limiter) (ip : IpAddr) : limiter := delete ip map.

Inductive LimOp : Type :=
| Failure (ip : IpAddr) (now : Z)
| Clear (ip : IpAddr).

Definition lim_step (map : limiter) (op : LimOp) : limiter :=
  match op with Failure ip now => record_failure map ip now | Clear ip => limit_clear map ip end.

Definition lim_run (map : limiter) (ops : list LimOp) : limiter := foldl lim_step map ops.

End limiter.

(** ** Specification: the history of one address *)

(** The failures since the last success; [Some t] is a failure at [t], [None] a successful login. *)
Fixpoint since_success (acc : list Z) (h : list (option Z)) : list Z :=
  match h with [] => acc | Some t :: h => since_success (acc ++ [t]) h | None :: h => since_success [] h end.

(** The window a failure falls in: that of the first failure in it, or a new one of its own. *)
Definition add_failure (w : list Z) (t : Z) : list Z :=
  match w with
  | t0 :: _ => if t <? t0 + 600 * 1000000000 then w ++ [t] else [t]
  | [] => [t]
  end.

(** The failures of the last window. *)
Definition last_window (h : list (option Z)) : list Z := foldl add_failure [] (since_success [] h).

(** What a window is remembered as: its first failure and their number. *)
Definition ip_spec (h : list (option Z)) : option Entry :=
  match last_window h with [] => None | t :: w => Some (mkEntry t (Z.min (len (t :: w)) 4294967295)) end.

Definition op_event (ip : IpAddr) (op : LimOp) : list (option Z) :=
  match op with
  | Failure ip' now => if bool_decide (ip' = ip) then [Some now] else []
  | Clear ip' => if bool_decide (ip' = ip) then [None] else []
  end.

Definition history (ip : IpAddr) (ops : list LimOp) : list (option Z) := ops ≫= op_event ip.

Definition failing (ops : list LimOp) : gset IpAddr :=
  list_to_set (ops ≫= fun op => match op with Failure ip _ => [ip] | Clear _ => [] end).

Lemma history_snoc ip ops op : history ip (ops ++ [op]) = history ip ops ++ op_event ip op.
Proof. unfold history. rewrite bind_app. cbn. by rewrite app_nil_r. Qed.

Lemma since_success_snoc h : forall acc ev,
  since_success acc (h ++ [ev]) = match ev with Some t => since_success acc h ++ [t] | None => [] end.
Proof. induction h as [|[t|] h IH]; intros acc ev; cbn [app since_success]; [by destruct ev|apply IH..]. Qed.

Lemma last_window_snoc h ev :
  last_window (h ++ [ev]) = match ev with Some t => add_failure (last_window h) t | None => [] end.
Proof. unfold last_window. rewrite since_success_snoc. destruct ev; [by rewrite foldl_snoc|done]. Qed.

(** The code counts what the specification lists. *)
Lemma ip_spec_snoc h ev :
  ip_spec (h ++ [ev]) = match ev with Some t => Some (entry_failure (ip_spec h) t) | None => None end.
Proof.
  unfold ip_spec. rewrite last_window_snoc. destruct ev as [t|]; [|done].
  destruct (last_window h) as [|t0 w]; cbn [add_failure].
  - unfold entry_failure. cbn [default from_option id window_start]. case_match; done.
  - unfold entry_failure. cbn [default from_option id window_start]. unfold sat_sub, WINDOW, NANOS in *.
    destruct (Z.ltb_spec t (t0 + 600 * 1000000000)).
    + rewrite (proj2 (Z.leb_gt _ _)) by lia. cbn [window_start failures app]. do 2 f_equal. unfold len. cbn [length].
      rewrite length_app. cbn [length]. lia.
    + rewrite (proj2 (Z.leb_le _ _)) by lia. done.
Qed.

Lemma min_by_start_spec l :
  match min_by_start l with
  | Some x => x ∈ l /\ forall y, y ∈ l -> window_start x.2 <= window_start y.2
  | None => l = []
  end.
Proof.
  induction l as [|x l IH]; cbn [min_by_start]; [done|]. destruct (min_by_start l) as [y|].
  - destruct IH as [Hin Hmin]. case_test.
    + split; [by right|]. intros z Hz. apply elem_of_cons in Hz as [->|Hz]; [lia|by apply Hmin].
    + split; [by left|]. intros z Hz. apply elem_of_cons in Hz as [->|Hz]; [lia|]. specialize (Hmin z Hz). lia.
  - subst l. split; [by left|]. intros z Hz. apply list_elem_of_singleton in Hz as ->. lia.
Qed.

Section limiter_proofs.
  Context (iter : limiter -> list (IpAddr * Entry)).
  Context (iter_perm : forall m, iter m ≡ₚ map_to_list m).

(** Eviction only removes, and makes room. *)
Lemma limit_evict_sub map now ip : limit_evict iter map now !! ip = map !! ip \/ limit_evict iter map now !! ip = None.
Proof.
  unfold limit_evict. set (kept := filter _ map).
  assert (Hk : kept !! ip = map !! ip \/ kept !! ip = None).
  { unfold kept. destruct (filter _ map !! ip) as [e|] eqn:E; [|by right]. apply map_lookup_filter_Some in E as [-> _]. by left. }
  case_test; [|done]. destruct (min_by_start (iter kept)) as [[ip' e]|]; [|done].
  destruct (decide (ip' = ip)) as [->|]; [right; apply lookup_delete_eq|by rewrite lookup_delete_ne].
Qed.

Lemma limit_evict_size map now :
  Z.of_nat (size map) <= MAP_LIMIT -> Z.of_nat (size (limit_evict iter map now)) < MAP_LIMIT.
Proof.
  intros Hs. unfold limit_evict. set (kept := filter _ map).
  assert (Hk : (size kept <= size map)%nat) by (apply map_subseteq_size, map_filter_subseteq).
  case_test; [|lia]. pose proof (min_by_start_spec (iter kept)) as H. destruct (min_by_start (iter kept)) as [[ip e]|].
  - destruct H as [Hin _]. rewrite iter_perm in Hin. apply elem_of_map_to_list in Hin.
    rewrite map_size_delete_Some by by exists e. unfold MAP_LIMIT in *. lia.
  - pose proof (iter_perm kept) as Hp. rewrite H in Hp. apply Permutation_nil in Hp.
    apply map_to_list_empty_iff in Hp. rewrite Hp, map_size_empty in *. unfold MAP_LIMIT in *. lia.
Qed.

Lemma lim_step_size map op : Z.of_nat (size map) <= MAP_LIMIT -> Z.of_nat (size (lim_step iter map op)) <= MAP_LIMIT.
Proof.
  intros Hs. destruct op as [ip now|ip]; cbn [lim_step].
  - unfold record_failure. destruct (map !! ip) as [e|] eqn:E; [by rewrite map_size_insert_Some|].
    set (m := if MAP_LIMIT <=? _ then _ else map).
    assert (Hm : Z.of_nat (size m) < MAP_LIMIT) by (unfold m; case_test; [by apply limit_evict_size|lia]).
    pose proof (map_size_insert ip (entry_failure (m !! ip) now) m) as H. destruct (m !! ip); cbn in H; lia.
  - unfold limit_clear. pose proof (map_subseteq_size _ _ (delete_subseteq map ip)). lia.
Qed.

(** A step extends the history of its own address and may forget others. *)
Lemma lim_step_history map op ip h k :
  (k <= length h)%nat -> map !! ip = ip_spec (drop k h) ->
  exists k', (k' <= length (h ++ op_event ip op))%nat /\
    lim_step iter map op !! ip = ip_spec (drop k' (h ++ op_event ip op)).
Proof.
  intros Hk Hm.
  assert (Hsnoc : forall k ev, (k <= length h)%nat -> ip_spec (drop k (h ++ [ev])) =
    match ev with Some t => Some (entry_failure (ip_spec (drop k h)) t) | None => None end).
  { intros k0 ev Hk0. by rewrite drop_app_le, ip_spec_snoc. }
  assert (Hnil : drop (length h) h = []) by by rewrite drop_all.
  destruct op as [ip' now|ip']; cbn [lim_step op_event]; case_bool_decide as Hip; subst; rewrite ?app_nil_r.
  - unfold record_failure. set (m := match map !! ip with Some _ => _ | None => _ end). rewrite lookup_insert_eq.
    assert (Hm' : m !! ip = map !! ip).
    { unfold m. destruct (map !! ip) eqn:E; [done|]. case_test; [|done]. destruct (limit_evict_sub map now ip); congruence. }
    exists k. split; [rewrite length_app; lia|]. by rewrite Hsnoc, Hm', Hm.
  - unfold record_failure. rewrite lookup_insert_ne by done. destruct (map !! ip'); [by exists k|].
    case_test; [|by exists k]. destruct (limit_evict_sub map now ip) as [-> | ->]; [by exists k|].
    exists (length h). by rewrite Hnil.
  - unfold limit_clear. rewrite lookup_delete_eq. exists k. split; [rewrite length_app; lia|]. by rewrite Hsnoc.
  - unfold limit_clear. rewrite lookup_delete_ne by done. by exists k.
Qed.

Lemma lim_run_history ops ip :
  exists k, (k <= length (history ip ops))%nat /\ lim_run iter ∅ ops !! ip = ip_spec (drop k (history ip ops)).
Proof.
  induction ops as [|op ops (k & Hk & E)] using rev_ind; [exists 0%nat; split; [cbn; lia|apply lookup_empty]|].
  unfold lim_run in *. rewrite foldl_snoc, history_snoc. by eapply lim_step_history.
Qed.

Lemma lim_run_size ops : Z.of_nat (size (lim_run iter ∅ ops)) <= MAP_LIMIT.
Proof.
  induction ops as [|op ops IH] using rev_ind; [by vm_compute|].
  unfold lim_run in *. rewrite foldl_snoc. by apply lim_step_size.
Qed.

(** While no more than [MAP_LIMIT] addresses fail, nothing is evicted. *)
Lemma lim_run_exact ops ip :
  Z.of_nat (size (failing ops)) <= MAP_LIMIT -> lim_run iter ∅ ops !! ip = ip_spec (history ip ops).
Proof.
  intros Hs.
  assert (H : dom (lim_run iter ∅ ops) ⊆ failing ops /\ lim_run iter ∅ ops !! ip = ip_spec (history ip ops)); [|by destruct H].
  induction ops as [|op ops IH] using rev_ind; [by split; [set_solver|apply lookup_empty]|].
  assert (Hf : failing (ops ++ [op]) = failing ops ∪ match op with Failure ip' _ => {[ip']} | Clear _ => ∅ end).
  { unfold failing. rewrite bind_app, list_to_set_app_L. f_equal. destruct op; cbn; set_solver. }
  destruct IH as [Hd IH]; [pose proof (subseteq_size (failing ops) (failing (ops ++ [op])) ltac:(set_solver)); lia|].
  unfold lim_run in *. rewrite foldl_snoc, history_snoc. set (map := foldl _ _ _) in *.
  assert (Hspec : forall ev, ip_spec (history ip ops ++ [ev]) =
    match ev with Some t => Some (entry_failure (map !! ip) t) | None => None end) by (intros ev; by rewrite ip_spec_snoc, IH).
  destruct op as [ip' now|ip']; cbn [lim_step op_event].
  - assert (Hm : record_failure iter map ip' now = <[ip' := entry_failure (map !! ip') now]> map).
    { unfold record_failure. destruct (map !! ip') eqn:E; [by rewrite E|]. rewrite (proj2 (Z.leb_gt _ _)); [by rewrite E|].
      assert (Hlt : (size (dom map) < size (failing (ops ++ [Failure ip' now])))%nat).
      { apply subset_size. apply not_elem_of_dom in E. set_solver. }
      rewrite size_dom in Hlt. lia. }
    rewrite Hm. split; [rewrite dom_insert_L; set_solver|].
    case_bool_decide as Hip; [subst; by rewrite lookup_insert_eq, Hspec|]. rewrite app_nil_r. by rewrite lookup_insert_ne.
  - unfold limit_clear. split; [rewrite dom_delete_L; set_solver|].
    case_bool_decide as Hip; [subst; by rewrite lookup_delete_eq, Hspec|]. rewrite app_nil_r. by rewrite lookup_delete_ne.
Qed.

(** The verdict of an entry. *)
Lemma limit_check_spec map ip now h :
  map !! ip = ip_spec h ->
  limit_check map ip now =
    match last_window h with
    | t :: w =>
        if (10 <=? len (t :: w)) && (now <? t + 600 * 1000000000)
        then Deny (Z.max 1 ((600 * 1000000000 - Z.max 0 (now - t)) / 1000000000)) else Allow
    | [] => Allow
    end.
Proof.
  unfold limit_check, ip_spec. intros ->. destruct (last_window h) as [|t w]; [done|]. cbn [window_start failures].
  unfold sat_sub, WINDOW, NANOS, MAX_FAILURES. destruct (Z.ltb_spec now (t + 600 * 1000000000)).
  - rewrite (proj2 (Z.leb_gt _ _)) by lia. rewrite andb_true_r.
    destruct (Z.leb_spec 10 (len (t :: w))); [rewrite (proj2 (Z.leb_le _ _)) by lia|by rewrite (proj2 (Z.leb_gt _ _)) by lia].
    f_equal. rewrite Z.max_comm. do 2 f_equal. lia.
  - rewrite (proj2 (Z.leb_le _ _)) by lia. by rewrite andb_false_r.
Qed.

Definition unexpired (now : Z) (e : Entry) : Prop := now < window_start e + 600 * 1000000000.

(** Eviction takes of the entries whose window has not passed the oldest one only, and only when they fill the map. *)
Lemma limit_evict_unexpired map now ip e :
  map !! ip = Some e -> unexpired now e ->
  limit_evict iter map now !! ip = Some e \/
  (MAP_LIMIT <= Z.of_nat (size map) /\ forall ip' e', map !! ip' = Some e' -> unexpired now e' -> window_start e <= window_start e').
Proof.
  intros He Hu. unfold unexpired in *. unfold limit_evict. set (kept := filter _ map).
  assert (Hkept : forall ip' e', map !! ip' = Some e' -> now < window_start e' + 600 * 1000000000 -> kept !! ip' = Some e').
  { intros ip' e' H1 H2. apply map_lookup_filter_Some. split; [done|]. cbn. unfold sat_sub, WINDOW, NANOS. lia. }
  assert (Hk : (size kept <= size map)%nat) by (apply map_subseteq_size, map_filter_subseteq).
  case_test; [|left; by apply Hkept]. pose proof (min_by_start_spec (iter kept)) as H. destruct (min_by_start (iter kept)) as [[ip' e']|].
  2:{ left. by apply Hkept. }
  destruct H as [Hin Hmin]. rewrite iter_perm in Hin. apply elem_of_map_to_list in Hin.
  destruct (decide (ip' = ip)) as [->|]; [right|left; rewrite lookup_delete_ne by done; by apply Hkept].
  split; [lia|]. intros ip2 e2 H2 Hu2. rewrite (Hkept ip e He Hu) in Hin. apply (inj Some) in Hin as <-.
  apply (Hmin (ip2, e2)). rewrite iter_perm. apply elem_of_map_to_list. by apply Hkept.
Qed.

(** A failure of another address leaves an entry whose window has not passed, unless it is the oldest of a full map. *)
Lemma record_failure_other map ip ip' now e :
  map !! ip = Some e -> unexpired now e -> ip' <> ip ->
  record_failure iter map ip' now !! ip = Some e \/
  (map !! ip' = None /\ MAP_LIMIT <= Z.of_nat (size map) /\
   forall ip2 e2, map !! ip2 = Some e2 -> unexpired now e2 -> window_start e <= window_start e2).
Proof.
  intros He Hu Hne. unfold record_failure. rewrite lookup_insert_ne by done. destruct (map !! ip') eqn:E; [by left|].
  case_test; [|by left]. destruct (limit_evict_unexpired map now ip e He Hu) as [H|[H1 H2]]; [by left|by right].
Qed.

(** ** A flood of other addresses *)

Definition other_ip (ip : IpAddr) (n : nat) : IpAddr :=
  match ip with IpV4 _ => IpV6 (Z.of_nat n) | IpV6 _ => IpV4 (Z.of_nat n) end.

Definition flood (ip : IpAddr) (n : nat) : list LimOp := (fun n => Failure (other_ip ip n) 1) <$> seq 0 n.

Definition blocked (ip : IpAddr) : limiter := lim_run iter ∅ (replicate 10 (Failure ip 0)).

Lemma blocked_map ip : blocked ip = {[ip := mkEntry 0 10]}.
Proof.
  assert (H : forall n, (n <= 9)%nat -> lim_run iter ∅ (replicate (S n) (Failure ip 0)) = {[ip := mkEntry 0 (Z.of_nat (S n))]}).
  { induction n as [|n IH]; intros Hn.
    - unfold lim_run. cbn [replicate foldl lim_step]. unfold record_failure. rewrite lookup_empty.
      rewrite (proj2 (Z.leb_gt _ _)) by by vm_compute. by rewrite lookup_empty.
    - rewrite replicate_S_end. unfold lim_run in *. rewrite foldl_snoc, IH by lia. cbn [lim_step]. unfold record_failure.
      rewrite !lookup_singleton_eq, insert_singleton. unfold entry_failure. cbn [default window_start failures].
      rewrite (proj2 (Z.leb_gt _ _)) by by vm_compute. rewrite decide_True by done. unfold id. cbn [window_start failures].
      do 2 f_equal. lia. }
  exact (H 9%nat ltac:(lia)).
Qed.

(** Until the map is full the flood adds young entries. *)
Lemma flood_map ip n :
  Z.of_nat n < MAP_LIMIT ->
  let map := lim_run iter (blocked ip) (flood ip n) in
  size map = S n /\ map !! ip = Some (mkEntry 0 10) /\
  (forall m, (n <= m)%nat -> map !! other_ip ip m = None) /\
  (forall ip' e, map !! ip' = Some e -> ip' = ip \/ window_start e = 1).
Proof.
  assert (Hne : forall m, other_ip ip m <> ip) by (intros m; by destruct ip).
  induction n as [|n IH]; intros Hn; cbn zeta.
  - unfold lim_run. cbn [flood seq fmap list_fmap foldl]. rewrite blocked_map, map_size_singleton, lookup_singleton_eq.
    split; [done|]. split; [done|]. split; [intros m _; by rewrite lookup_singleton_ne by done|].
    intros ip' e H. apply lookup_singleton_Some in H as [-> _]. by left.
  - unfold flood in *. rewrite seq_S, fmap_app. cbn [fmap list_fmap]. unfold lim_run in *. rewrite foldl_snoc.
    destruct IH as (Hs & Hip & Hnone & Hall); [lia|]. set (map := foldl _ _ _) in *. cbn [lim_step plus].
    unfold record_failure. rewrite (Hnone n) by lia. rewrite (proj2 (Z.leb_gt _ _)) by (rewrite Hs; unfold MAP_LIMIT in *; lia).
    rewrite (Hnone n) by lia. split; [rewrite map_size_insert_None by (apply Hnone; lia); lia|].
    split; [by rewrite lookup_insert_ne by done|]. split.
    + intros m Hm. rewrite lookup_insert_ne by (destruct ip; cbn; injection; lia). apply Hnone. lia.
    + intros ip' e H. apply lookup_insert_Some in H as [[<- <-]|[_ H]]; [by right|by eapply Hall].
Qed.

(** The address after that pushes the blocked one out. *)
Lemma flood_evicts ip n :
  Z.of_nat n = MAP_LIMIT - 1 -> lim_run iter (blocked ip) (flood ip (S n)) !! ip = None.
Proof.
  intros Hn.
  assert (Hne : forall m, other_ip ip m <> ip) by (intros m; by destruct ip).
  destruct (flood_map ip n) as (Hs & Hip & Hnone & Hall); [lia|]. unfold flood, lim_run in *.
  rewrite seq_S, fmap_app. cbn [fmap list_fmap]. rewrite foldl_snoc.
  set (map := foldl _ _ _) in *. cbn [lim_step plus]. unfold record_failure. rewrite (Hnone n) by lia.
  rewrite (proj2 (Z.leb_le _ _)) by (rewrite Hs; lia).
  rewrite lookup_insert_ne by done. unfold limit_evict.
  assert (Hkeep : filter (fun p => sat_sub 1 (window_start p.2) < WINDOW) map = map).
  { apply map_filter_id. intros ip' e He. cbn. unfold sat_sub, WINDOW, NANOS.
    destruct (Hall ip' e He) as [->|]; [|lia]. rewrite Hip in He. injection He as <-. cbn. lia. }
  rewrite Hkeep, (proj2 (Z.leb_le _ _)) by (rewrite Hs; lia).
  pose proof (min_by_start_spec (iter map)) as H. destruct (min_by_start (iter map)) as [[ip' e]|].
  - destruct H as [Hin Hmin]. rewrite iter_perm in Hin. apply elem_of_map_to_list in Hin.
    specialize (Hmin (ip, mkEntry 0 10)). rewrite iter_perm, elem_of_map_to_list in Hmin. specialize (Hmin Hip). cbn in Hmin.
    destruct (Hall ip' e Hin) as [->|]; [apply lookup_delete_eq|lia].
  - pose proof (iter_perm map) as Hp. rewrite H in Hp. apply Permutation_nil, map_to_list_empty_iff in Hp.
    rewrite Hp in Hip. by rewrite lookup_empty in Hip.
Qed.

End limiter_proofs.

(** ** Properties *)

(** C32: the limiter never invents failures and never grows: whatever the
    addresses do, at most [MAP_LIMIT] entries are held, and what it knows of an
    address is the last fixed window of a suffix of that address's own history: when
    its first failure since the last success or the previous window was, and how many
    there were. While no more than [MAP_LIMIT] addresses fail it is that of the whole
    history, so a check denies exactly after ten or more failures in a window that has
    not passed, for the seconds that remain. With more addresses a denial still means
    ten failures in a window that has not passed; what is forgotten is the oldest entry
    of a full map (see [eviction_unblocks] for a blocked address that it frees). *)
Theorem limiter_refines_history iter ops ip :
  (forall m, iter m ≡ₚ map_to_list m) ->
  let map := lim_run iter ∅ ops in
  Z.of_nat (size map) <= MAP_LIMIT /\
  (exists k, map !! ip = ip_spec (drop k (history ip ops))) /\
  (Z.of_nat (size (failing ops)) <= MAP_LIMIT ->
     map !! ip = ip_spec (history ip ops) /\
     forall now, limit_check map ip now =
       match last_window (history ip ops) with
       | t :: w =>
           if (10 <=? len (t :: w)) && (now <? t + 600 * 1000000000)
           then Deny (Z.max 1 ((600 * 1000000000 - Z.max 0 (now - t)) / 1000000000)) else Allow
       | [] => Allow
       end) /\
  (forall now s, limit_check map ip now = Deny s ->
     1 <= s <= 600 /\ exists k t w, last_window (drop k (history ip ops)) = t :: w /\ 10 <= len (t :: w) /\
       now < t + 600 * 1000000000) /\
  (forall e ip' now, map !! ip = Some e -> unexpired now e -> ip' <> ip ->
     record_failure iter map ip' now !! ip = Some e \/
     (map !! ip' = None /\ Z.of_nat (size map) = MAP_LIMIT /\
      forall ip2 e2, map !! ip2 = Some e2 -> unexpired now e2 -> window_start e <= window_start e2)).
Proof.
  intros Hiter map. destruct (lim_run_history iter ops ip) as (k & Hk & E). fold map in E.
  pose proof (lim_run_size iter Hiter ops) as Hs. fold map in Hs.
  split; [done|]. split; [by exists k|]. split.
  { intros Hf. pose proof (lim_run_exact iter Hiter ops ip Hf) as Ex. fold map in Ex. split; [done|]. intros now. by apply limit_check_spec. }
  split.
  - intros now s. rewrite (limit_check_spec map ip now _ E). destruct (last_window _) as [|t w] eqn:Ew; [done|].
    destruct (_ && _) eqn:Eb; [|done]. apply andb_true_iff in Eb as [E1%Z.leb_le E2%Z.ltb_lt]. intros [= <-].
    split; [Z.div_mod_to_equations; lia|]. by exists k, t, w.
  - intros e ip' now He Hu Hne. destruct (record_failure_other iter Hiter map ip ip' now e He Hu Hne) as [H|(H1 & H2 & H3)]; [by left|right].
    split_and!; [done|lia|done].
Qed.

(** Ten failures of one address, one of another. *)
Definition demo_attempts : list LimOp := Failure (IpV6 1) 5 :: replicate 10 (Failure (IpV4 1) 7).

Lemma limiter_refines_history_witness :
  limit_check (lim_run map_to_list ∅ demo_attempts) (IpV4 1) 8 = Deny 599 /\
  limit_check (lim_run map_to_list ∅ demo_attempts) (IpV6 1) 8 = Allow /\
  exists k t w, last_window (drop k (history (IpV4 1) demo_attempts)) = t :: w /\ 10 <= len (t :: w) /\ 8 < t + 600 * 1000000000.
Proof.
  destruct (limiter_refines_history map_to_list demo_attempts (IpV4 1) ltac:(reflexivity)) as (_ & _ & H1 & H2 & _).
  destruct (limiter_refines_history map_to_list demo_attempts (IpV6 1) ltac:(reflexivity)) as (_ & _ & H3 & _).
  assert (Hf : Z.of_nat (size (failing demo_attempts)) <= MAP_LIMIT) by by_decide.
  assert (E : limit_check (lim_run map_to_list ∅ demo_attempts) (IpV4 1) 8 = Deny 599)
    by (destruct (H1 Hf) as [_ ->]; vm_compute; reflexivity).
  split; [exact E|]. split; [destruct (H3 Hf) as [_ ->]; vm_compute; reflexivity|]. exact (proj2 (H2 8 599 E)).
Defined.

(** a full map forgets the blocked: an address with ten failures is denied,
    but after 4096 other addresses fail once each it is allowed again, long
    before its window has passed, although nothing it did cleared it. *)
Theorem eviction_unblocks iter ip :
  (forall m, iter m ≡ₚ map_to_list m) ->
  exists ops, Forall (fun op => match op with Failure ip' t => ip' <> ip /\ t = 1 | Clear _ => False end) ops /\
    limit_check (blocked iter ip) ip 2 = Deny 599 /\
    limit_check (lim_run iter (blocked iter ip) ops) ip 2 = Allow.
Proof.
  intros Hiter. exists (flood ip (S (Z.to_nat (MAP_LIMIT - 1)))). split; [|split].
  - unfold flood. apply Forall_fmap, Forall_true. intros n. split; [by destruct ip|done].
  - rewrite blocked_map. unfold limit_check. by rewrite lookup_singleton_eq.
  - unfold limit_check. by rewrite (flood_evicts iter Hiter ip (Z.to_nat (MAP_LIMIT - 1))) by (by vm_compute).
Qed.

Lemma eviction_unblocks_witness :
  exists ops, limit_check (blocked map_to_list (IpV4 1)) (IpV4 1) 2 = Deny 599 /\
    limit_check (lim_run map_to_list (blocked map_to_list (IpV4 1)) ops) (IpV4 1) 2 = Allow.
Proof.
  destruct (eviction_unblocks map_to_list (IpV4 1) ltac:(reflexivity)) as (ops & _ & H). exists ops. exact H.
Defined.
