(* ===== verification/Watchdog.v ===== *)
(** * The stall watchdog of the client (client-transport/src/watchdog.rs)

    The receive ladder, the two downstream stage clocks and the supervisor that
    composes them, and the specification they implement: three ladders of
    timed actions, at most one action per tick, the upstream ladder first.
    Times are u64 milliseconds; the code's sums wrap as in a release build. *)
From S2P Require Import Prelude.

(** ** The machine *)

Inductive WatchdogAction : Type :=
| Stall
| Recovered (stalled_ms : Z)
| RequestIdr (attempt : Z)
| RestartIce
| Reconnect
| DecodeStall (attempt : Z)
| PresentStall (attempt : Z).

Record WatchdogConfig := mkWatchdogConfig {
  stall_indicator_ms : Z;
  idr_first_ms : Z;
  idr_retry_ms : Z;
  idr_max_attempts : Z;
  ice_restart_ms : Z;
  reconnect_ms : Z;
  decode_stall_ms : Z;
  decode_retry_ms : Z;
  decode_max_attempts : Z;
  present_stall_ms : Z;
  present_retry_ms : Z;
  present_max_attempts : Z
}.

Definition default_watchdog : WatchdogConfig :=
  mkWatchdogConfig 1000 2000 2000 3 10000 20000 2000 2000 2 2000 2000 4.

Inductive Rung : Type := RungStall | RungIdr | RungIce | RungReconnect.

Record StallWatchdog := mkStallWatchdog {
  sw_config : WatchdogConfig;
  sw_running : bool;
  sw_paused : bool;
  last_frame_ms : Z;
  stall_shown : bool;
  idr_attempts : Z;
  ice_requested : bool;
  reconnect_requested : bool
}.

Definition stall_new (config : WatchdogConfig) : StallWatchdog := mkStallWatchdog config false false 0 false 0 false false.

Definition stalled (w : StallWatchdog) : bool := stall_shown w.

Definition stalled_ms (w : StallWatchdog) (now_ms : Z) : Z :=
  if (negb (sw_running w) || sw_paused w)%bool then 0 else sat_sub now_ms (last_frame_ms w).

(** [start]: the clock armed and the episode reset. *)
Definition stall_start (w : StallWatchdog) (now_ms : Z) : StallWatchdog :=
  mkStallWatchdog (sw_config w) true false now_ms false 0 false false.
Definition stall_stop (w : StallWatchdog) : StallWatchdog :=
  mkStallWatchdog (sw_config w) false (sw_paused w) (last_frame_ms w) false (idr_attempts w) (ice_requested w)
    (reconnect_requested w).
Definition stall_pause (w : StallWatchdog) : StallWatchdog :=
  mkStallWatchdog (sw_config w) (sw_running w) true (last_frame_ms w) (stall_shown w) (idr_attempts w) (ice_requested w)
    (reconnect_requested w).
Definition stall_resume (w : StallWatchdog) (now_ms : Z) : StallWatchdog :=
  if sw_paused w then
    mkStallWatchdog (sw_config w) (sw_running w) false now_ms (stall_shown w) (idr_attempts w) (ice_requested w)
      (reconnect_requested w)
  else w.

Definition frame_received (w : StallWatchdog) (now_ms : Z) : StallWatchdog * option WatchdogAction :=
  if negb (sw_running w) then (w, None)
  else
    (mkStallWatchdog (sw_config w) (sw_running w) (sw_paused w) now_ms false 0 false false,
     if stall_shown w then Some (Recovered (sat_sub now_ms (last_frame_ms w))) else None).

Definition next_rung (w : StallWatchdog) (elapsed_ms : Z) : option Rung :=
  let c := sw_config w in
  if negb (stall_shown w) then if stall_indicator_ms c <=? elapsed_ms then Some RungStall else None
  else if ((idr_attempts w <? idr_max_attempts c) &&
           (wrap64 (idr_first_ms c + wrap64 (idr_attempts w * idr_retry_ms c)) <=? elapsed_ms))%bool then Some RungIdr
  else if (negb (ice_requested w) && (ice_restart_ms c <=? elapsed_ms))%bool then Some RungIce
  else if reconnect_ms c <=? elapsed_ms then Some RungReconnect
  else None.

Definition stall_tick (w : StallWatchdog) (now_ms : Z) : StallWatchdog * option WatchdogAction :=
  if (negb (sw_running w) || sw_paused w || reconnect_requested w)%bool then (w, None)
  else
    let set shown idr ice rec :=
      mkStallWatchdog (sw_config w) (sw_running w) (sw_paused w) (last_frame_ms w) shown idr ice rec in
    match next_rung w (sat_sub now_ms (last_frame_ms w)) with
    | None => (w, None)
    | Some RungStall => (set true (idr_attempts w) (ice_requested w) (reconnect_requested w), Some Stall)
    | Some RungIdr =>
        let attempts := idr_attempts w + 1 in
        (set (stall_shown w) attempts (ice_requested w) (reconnect_requested w), Some (RequestIdr attempts))
    | Some RungIce => (set (stall_shown w) (idr_attempts w) true (reconnect_requested w), Some RestartIce)
    | Some RungReconnect => (set (stall_shown w) (idr_attempts w) (ice_requested w) true, Some Reconnect)
    end.

Inductive WatchdogStage : Type := Receive | Decode | Present.

Inductive StageRung : Type := Attempt (n : Z) | StageReconnect.

Record StageClock := mkStageClock {
  sc_running : bool;
  sc_paused : bool;
  armed : bool;
  last_progress_ms : Z;
  attempts : Z;
  exhausted : bool
}.

Definition stage_default : StageClock := mkStageClock false false false 0 0 false.
Definition stage_start (s : StageClock) : StageClock := mkStageClock true false false 0 0 false.
Definition stage_stop (s : StageClock) : StageClock :=
  mkStageClock false (sc_paused s) false (last_progress_ms s) (attempts s) (exhausted s).
Definition stage_pause (s : StageClock) : StageClock :=
  mkStageClock (sc_running s) true (armed s) (last_progress_ms s) (attempts s) (exhausted s).
Definition stage_resume (s : StageClock) (now_ms : Z) : StageClock :=
  if sc_paused s then mkStageClock (sc_running s) false (armed s) now_ms (attempts s) (exhausted s) else s.
Definition stage_progress (s : StageClock) (now_ms : Z) : StageClock :=
  if negb (sc_running s) then s else mkStageClock (sc_running s) (sc_paused s) true now_ms 0 false.
Definition age_ms (s : StageClock) (now_ms : Z) : Z :=
  if (negb (sc_running s) || sc_paused s || negb (armed s))%bool then 0 else sat_sub now_ms (last_progress_ms s).

Definition stage_tick (s : StageClock) (now_ms stall_ms retry_ms max_attempts : Z) : StageClock * option StageRung :=
  if (negb (sc_running s) || sc_paused s || negb (armed s) || exhausted s)%bool then (s, None)
  else
    let elapsed := sat_sub now_ms (last_progress_ms s) in
    if attempts s <? max_attempts then
      let due := wrap64 (stall_ms + wrap64 (attempts s * retry_ms)) in
      if due <=? elapsed then
        let n := attempts s + 1 in
        (mkStageClock (sc_running s) (sc_paused s) (armed s) (last_progress_ms s) n (exhausted s), Some (Attempt n))
      else (s, None)
    else
      let due := wrap64 (stall_ms + wrap64 (max_attempts * retry_ms)) in
      if due <=? elapsed then
        (mkStageClock (sc_running s) (sc_paused s) (armed s) (last_progress_ms s) (attempts s) true, Some StageReconnect)
      else (s, None).

Record WatchdogSupervisor := mkSupervisor {
  ws_config : WatchdogConfig;
  generation : Z;
  receive : StallWatchdog;
  decode : StageClock;
  present : StageClock
}.

Definition supervisor_new (config : WatchdogConfig) : WatchdogSupervisor :=
  mkSupervisor config 0 (stall_new config) stage_default stage_default.

Definition supervisor_start (s : WatchdogSupervisor) (now_ms gen : Z) : WatchdogSupervisor :=
  mkSupervisor (ws_config s) gen (stall_start (receive s) now_ms) (stage_start (decode s)) (stage_start (present s)).
Definition supervisor_stop (s : WatchdogSupervisor) : WatchdogSupervisor :=
  mkSupervisor (ws_config s) (generation s) (stall_stop (receive s)) (stage_stop (decode s)) (stage_stop (present s)).
Definition is_current (s : WatchdogSupervisor) (gen : Z) : bool := generation s =? gen.
Definition supervisor_pause (s : WatchdogSupervisor) : WatchdogSupervisor :=
  mkSupervisor (ws_config s) (generation s) (stall_pause (receive s)) (stage_pause (decode s)) (stage_pause (present s)).
Definition supervisor_resume (s : WatchdogSupervisor) (now_ms : Z) : WatchdogSupervisor :=
  mkSupervisor (ws_config s) (generation s) (stall_resume (receive s) now_ms) (stage_resume (decode s) now_ms)
    (stage_resume (present s) now_ms).
Definition supervisor_frame (s : WatchdogSupervisor) (now_ms : Z) : WatchdogSupervisor * option WatchdogAction :=
  let '(r, a) := frame_received (receive s) now_ms in
  (mkSupervisor (ws_config s) (generation s) r (decode s) (present s), a).
Definition decode_progress (s : WatchdogSupervisor) (now_ms : Z) : WatchdogSupervisor :=
  mkSupervisor (ws_config s) (generation s) (receive s) (stage_progress (decode s) now_ms) (present s).
Definition present_progress (s : WatchdogSupervisor) (now_ms : Z) : WatchdogSupervisor :=
  mkSupervisor (ws_config s) (generation s) (receive s) (decode s) (stage_progress (present s) now_ms).

Definition receive_age_ms (s : WatchdogSupervisor) (now_ms : Z) : Z := stalled_ms (receive s) now_ms.
Definition decode_age_ms (s : WatchdogSupervisor) (now_ms : Z) : Z := age_ms (decode s) now_ms.
Definition present_age_ms (s : WatchdogSupervisor) (now_ms : Z) : Z := age_ms (present s) now_ms.

Definition decode_action (r : StageRung) : WatchdogAction :=
  match r with Attempt n => DecodeStall n | StageReconnect => Reconnect end.
Definition present_action (r : StageRung) : WatchdogAction :=
  match r with Attempt n => PresentStall n | StageReconnect => Reconnect end.

Definition supervisor_tick (s : WatchdogSupervisor) (now_ms : Z) :
  WatchdogSupervisor * option (WatchdogStage * WatchdogAction * Z) :=
  let c := ws_config s in
  let '(r, a) := stall_tick (receive s) now_ms in
  let s := mkSupervisor c (generation s) r (decode s) (present s) in
  match a with
  | Some action => (s, Some (Receive, action, generation s))
  | None =>
      let '(d, a) := stage_tick (decode s) now_ms (decode_stall_ms c) (decode_retry_ms c) (decode_max_attempts c) in
      let s := mkSupervisor c (generation s) (receive s) d (present s) in
      match a with
      | Some rung => (s, Some (Decode, decode_action rung, generation s))
      | None =>
          let '(p, a) := stage_tick (present s) now_ms (present_stall_ms c) (present_retry_ms c) (present_max_attempts c) in
          let s := mkSupervisor c (generation s) (receive s) (decode s) p in
          match a with
          | Some rung => (s, Some (Present, present_action rung, generation s))
          | None => (s, None)
          end
      end
  end.

(** ** Runs *)

Inductive WdOp : Type :=
| WdStart (now_ms gen : Z)
| WdStop
| WdPause
| WdResume (now_ms : Z)
| WdFrame (now_ms : Z)
| WdDecode (now_ms : Z)
| WdPresent (now_ms : Z)
| WdTick (now_ms : Z).

(** What an operation says: a stage, an action and the generation. *)
Notation wd_out := (option (WatchdogStage * WatchdogAction * Z)).

Definition wd_step (s : WatchdogSupervisor) (op : WdOp) : WatchdogSupervisor * wd_out :=
  match op with
  | WdStart now gen => (supervisor_start s now gen, None)
  | WdStop => (supervisor_stop s, None)
  | WdPause => (supervisor_pause s, None)
  | WdResume now => (supervisor_resume s now, None)
  | WdFrame now =>
      let '(s, a) := supervisor_frame s now in (s, (fun a => (Receive, a, generation s)) <$> a)
  | WdDecode now => (decode_progress s now, None)
  | WdPresent now => (present_progress s now, None)
  | WdTick now => supervisor_tick s now
  end.

Fixpoint wd_run (s : WatchdogSupervisor) (ops : list WdOp) : list wd_out :=
  match ops with
  | [] => []
  | op :: ops => let '(s, o) := wd_step s op in o :: wd_run s ops
  end.
