(* ===== verification/WatchdogSafe.v ===== *)
(** * The watchdog implements three ladders

    A refinement: every run of the supervisor whose driver tears the session down at
    a reconnect says what the specification says, in which each stage climbs a fixed
    script of timed actions and the receive stage, once at the top, is silent until
    the next start. *)
From S2P Require Import Prelude Watchdog.

(** ** Specification *)

(** A stage climbs a script of actions, each due some time after [lad_since]. *)
Record Ladder := mkLadder {
  lad_since : Z;
  lad_script : list (Z * WatchdogAction);
  lad_pos : nat
}.

Definition lad_tick (l : Ladder) (now : Z) : Ladder * option WatchdogAction :=
  match lad_script l !! lad_pos l with
  | Some (due, a) =>
      if due <=? sat_sub now (lad_since l) then (mkLadder (lad_since l) (lad_script l) (S (lad_pos l)), Some a) else (l, None)
  | None => (l, None)
  end.

Definition lad_rebase (l : Ladder) (now : Z) : Ladder := mkLadder now (lad_script l) (lad_pos l).

(** The script has been climbed to its end. *)
Definition topped (l : Ladder) : bool := (length (lad_script l) <=? lad_pos l)%nat.

Definition receive_script (c : WatchdogConfig) : list (Z * WatchdogAction) :=
  (stall_indicator_ms c, Stall) ::
  ((fun k => (idr_first_ms c + k * idr_retry_ms c, RequestIdr (k + 1))) <$> seqZ 0 (idr_max_attempts c)) ++
  [(ice_restart_ms c, RestartIce); (reconnect_ms c, Reconnect)].

Definition stage_script (act : StageRung -> WatchdogAction) (stall retry max : Z) : list (Z * WatchdogAction) :=
  ((fun k => (stall + k * retry, act (Attempt (k + 1)))) <$> seqZ 0 max) ++ [(stall + max * retry, act StageReconnect)].

Definition decode_script (c : WatchdogConfig) : list (Z * WatchdogAction) :=
  stage_script decode_action (decode_stall_ms c) (decode_retry_ms c) (decode_max_attempts c).
Definition present_script (c : WatchdogConfig) : list (Z * WatchdogAction) :=
  stage_script present_action (present_stall_ms c) (present_retry_ms c) (present_max_attempts c).

Record WdSpec := mkWdSpec {
  sp_generation : Z;
  sp_running : bool;
  sp_paused : bool;
  sp_receive : Ladder;
  sp_decode : Ladder;
  sp_present : Ladder
}.

Definition unarmed : Ladder := mkLadder 0 [] 0.
Definition spec_new : WdSpec := mkWdSpec 0 false false unarmed unarmed unarmed.

Definition spec_tick (s : WdSpec) (now : Z) : WdSpec * wd_out :=
  let '(r, a) := lad_tick (sp_receive s) now in
  match a with
  | Some a => (mkWdSpec (sp_generation s) (sp_running s) (sp_paused s) r (sp_decode s) (sp_present s),
               Some (Receive, a, sp_generation s))
  | None =>
      let '(d, a) := lad_tick (sp_decode s) now in
      match a with
      | Some a => (mkWdSpec (sp_generation s) (sp_running s) (sp_paused s) (sp_receive s) d (sp_present s),
                   Some (Decode, a, sp_generation s))
      | None =>
          let '(p, a) := lad_tick (sp_present s) now in
          (mkWdSpec (sp_generation s) (sp_running s) (sp_paused s) (sp_receive s) (sp_decode s) p,
           (fun a => (Present, a, sp_generation s)) <$> a)
      end
  end.

Definition spec_step (c : WatchdogConfig) (s : WdSpec) (op : WdOp) : WdSpec * wd_out :=
  match op with
  | WdStart now gen => (mkWdSpec gen true false (mkLadder now (receive_script c) 0) unarmed unarmed, None)
  | WdStop => (mkWdSpec (sp_generation s) false (sp_paused s) (sp_receive s) (sp_decode s) (sp_present s), None)
  | WdPause => (mkWdSpec (sp_generation s) (sp_running s) true (sp_receive s) (sp_decode s) (sp_present s), None)
  | WdResume now =>
      (if sp_paused s
       then mkWdSpec (sp_generation s) (sp_running s) false (lad_rebase (sp_receive s) now)
              (lad_rebase (sp_decode s) now) (lad_rebase (sp_present s) now)
       else s, None)
  | WdFrame now =>
      if sp_running s && negb (topped (sp_receive s)) then
        (mkWdSpec (sp_generation s) true (sp_paused s) (mkLadder now (receive_script c) 0) (sp_decode s) (sp_present s),
         if bool_decide (0 < lad_pos (sp_receive s))%nat
         then Some (Receive, Recovered (sat_sub now (lad_since (sp_receive s))), sp_generation s) else None)
      else (s, None)
  | WdDecode now =>
      (if sp_running s
       then mkWdSpec (sp_generation s) true (sp_paused s) (sp_receive s) (mkLadder now (decode_script c) 0) (sp_present s)
       else s, None)
  | WdPresent now =>
      (if sp_running s
       then mkWdSpec (sp_generation s) true (sp_paused s) (sp_receive s) (sp_decode s) (mkLadder now (present_script c) 0)
       else s, None)
  | WdTick now => if (sp_running s && negb (sp_paused s))%bool then spec_tick s now else (s, None)
  end.

Fixpoint spec_run (c : WatchdogConfig) (s : WdSpec) (ops : list WdOp) : list wd_out :=
  match ops with
  | [] => []
  | op :: ops => let '(s, o) := spec_step c s op in o :: spec_run c s ops
  end.

(** ** The driver *)

Definition reconnects (o : wd_out) : bool := match o with Some (Receive, Reconnect, _) => true | _ => false end.
Definition of_receive (o : wd_out) : bool := match o with Some (Receive, _, _) => true | _ => false end.

(** Whether the receive stage has asked for a reconnect since the last start. *)
Definition now_down (down : bool) (op : WdOp) (o : wd_out) : bool :=
  match op with WdStart _ _ | WdStop => false | _ => down || reconnects o end.

(** The session is torn down at a reconnect: no frame arrives before the next start. *)
Fixpoint torn_down (down : bool) (l : list (WdOp * wd_out)) : Prop :=
  match l with
  | [] => True
  | (op, o) :: l => (match op with WdFrame _ => down = false | _ => True end) /\ torn_down (now_down down op o) l
  end.

(** After a reconnect the receive stage says nothing before the next start. *)
Fixpoint silent (down : bool) (l : list (WdOp * wd_out)) : Prop :=
  match l with
  | [] => True
  | (op, o) :: l => (down = true -> of_receive o = false) /\ silent (now_down down op o) l
  end.

(** ** Scripts *)

Lemma script_lookup {A} (f : Z -> A) max tl k :
  0 <= k < max -> ((f <$> seqZ 0 max) ++ tl) !! Z.to_nat k = Some (f k).
Proof.
  intros Hk. rewrite lookup_app_l by (rewrite length_fmap, length_seqZ; lia).
  rewrite list_lookup_fmap, lookup_seqZ_lt by lia. cbn. do 2 f_equal. lia.
Qed.

Lemma script_tail {A} (f : Z -> A) max tl i :
  0 <= max -> ((f <$> seqZ 0 max) ++ tl) !! (Z.to_nat max + i)%nat = tl !! i.
Proof. intros Hm. rewrite lookup_app_r; rewrite length_fmap, length_seqZ; [f_equal|]; lia. Qed.

(** ** One stage clock *)

Record stage_cfg_ok (stall retry max : Z) : Prop := {
  sg_stall : 0 <= stall;
  sg_retry : 0 <= retry;
  sg_max : 0 <= max;
  sg_fits : stall + max * retry < 18446744073709551616
}.

(** What a clock says of its ladder. *)
Inductive stage_rep (act : StageRung -> WatchdogAction) (stall retry max : Z) : StageClock -> Ladder -> Prop :=
| sr_unarmed r p since last n e : stage_rep act stall retry max (mkStageClock r p false last n e) (mkLadder since [] 0)
| sr_climbing r p since n : 0 <= n <= max ->
    stage_rep act stall retry max (mkStageClock r p true since n false)
      (mkLadder since (stage_script act stall retry max) (Z.to_nat n))
| sr_done r p since n : stage_rep act stall retry max (mkStageClock r p true since n true)
      (mkLadder since (stage_script act stall retry max) (S (Z.to_nat max))).

Lemma stage_tick_rep act stall retry max s l now :
  stage_cfg_ok stall retry max -> stage_rep act stall retry max s l ->
  sc_running s = true -> sc_paused s = false ->
  let '(s', a) := stage_tick s now stall retry max in
  let '(l', a') := lad_tick l now in
  stage_rep act stall retry max s' l' /\ a' = act <$> a /\ sc_running s' = true /\ sc_paused s' = false /\
  (a = None -> s' = s /\ l' = l).
Proof.
  intros [H1 H2 H3 H4] HR. destruct HR as [r p since last n e|r p since n Hn|r p since n]; cbn; intros -> ->.
  - split; [constructor|done].
  - unfold stage_tick, lad_tick, stage_script; cbn -[wrap64 sat_sub].
    assert (Hw : forall k, 0 <= k <= max -> wrap64 (stall + wrap64 (k * retry)) = stall + k * retry).
    { intros k Hk. assert (0 <= k * retry <= max * retry) by nia. unfold wrap64. rewrite (Z.mod_small (k * retry)) by lia. apply Z.mod_small. lia. }
    case_test.
    + rewrite script_lookup, Hw by lia. case_test; cbn; [|split; [by apply sr_climbing|done]].
      split; [|done]. replace (S (Z.to_nat n)) with (Z.to_nat (n + 1)) by lia. apply sr_climbing. lia.
    + assert (n = max) as -> by lia. pose proof (script_tail (fun k => (stall + k * retry, act (Attempt (k + 1)))) max
        [(stall + max * retry, act StageReconnect)] 0 H3) as E. rewrite Nat.add_0_r in E. rewrite E, Hw by lia. cbn.
      case_test; cbn; [|split; [by apply sr_climbing|done]]. split; [|done]. apply sr_done.
  - unfold stage_tick, lad_tick, stage_script; cbn. replace (S (Z.to_nat max)) with (Z.to_nat max + 1)%nat by lia.
    rewrite script_tail by done. cbn. split; [|done]. replace (Z.to_nat max + 1)%nat with (S (Z.to_nat max)) by lia. apply sr_done.
Qed.

(** ** The receive ladder *)

(** The configuration escalates: no IDR request is due after the ICE restart,
    and that not after the reconnect. *)
Record wd_cfg_ok (c : WatchdogConfig) : Prop := {
  wc_first : 0 <= idr_first_ms c;
  wc_retry : 0 <= idr_retry_ms c;
  wc_max : 0 <= idr_max_attempts c;
  wc_idr : idr_first_ms c + idr_max_attempts c * idr_retry_ms c - idr_retry_ms c <= ice_restart_ms c;
  wc_ice : ice_restart_ms c <= reconnect_ms c;
  wc_fits : idr_first_ms c + idr_max_attempts c * idr_retry_ms c < 18446744073709551616;
  wc_decode : stage_cfg_ok (decode_stall_ms c) (decode_retry_ms c) (decode_max_attempts c);
  wc_present : stage_cfg_ok (present_stall_ms c) (present_retry_ms c) (present_max_attempts c)
}.

(** What the flags of the watchdog say of the rung it stands on. *)
Inductive rung_rep (max : Z) : nat -> bool -> Z -> bool -> bool -> Prop :=
| rr_quiet : rung_rep max 0 false 0 false false
| rr_idr k : 0 <= k <= max -> rung_rep max (S (Z.to_nat k)) true k false false
| rr_ice : rung_rep max (2 + Z.to_nat max) true max true false
| rr_done : rung_rep max (3 + Z.to_nat max) true max true true.

Record receive_rep (c : WatchdogConfig) (w : StallWatchdog) (l : Ladder) : Prop := {
  rp_config : sw_config w = c;
  rp_since : lad_since l = last_frame_ms w;
  rp_script : lad_script l = receive_script c;
  rp_rung : rung_rep (idr_max_attempts c) (lad_pos l) (stall_shown w) (idr_attempts w) (ice_requested w)
              (reconnect_requested w)
}.

Lemma receive_lookup_idr c k :
  0 <= k < idr_max_attempts c ->
  receive_script c !! S (Z.to_nat k) = Some (idr_first_ms c + k * idr_retry_ms c, RequestIdr (k + 1)).
Proof. exact (script_lookup (fun k => (idr_first_ms c + k * idr_retry_ms c, RequestIdr (k + 1))) _ _ k). Qed.

Lemma receive_lookup_end c i :
  0 <= idr_max_attempts c ->
  receive_script c !! (S i + Z.to_nat (idr_max_attempts c))%nat =
    [(ice_restart_ms c, RestartIce); (reconnect_ms c, Reconnect)] !! i.
Proof.
  replace (S i + Z.to_nat (idr_max_attempts c))%nat with (S (Z.to_nat (idr_max_attempts c) + i)) by lia.
  exact (script_tail (fun k => (idr_first_ms c + k * idr_retry_ms c, RequestIdr (k + 1))) _ _ i).
Qed.

Lemma receive_tick_rep c w l now :
  wd_cfg_ok c -> receive_rep c w l -> sw_running w = true -> sw_paused w = false ->
  let '(w', a) := stall_tick w now in
  let '(l', a') := lad_tick l now in
  receive_rep c w' l' /\ a' = a /\ sw_running w' = true /\ sw_paused w' = false /\ (a = None -> w' = w /\ l' = l).
Proof.
  intros Hc [Hcf Hs Hscr Hr] Hrun Hpau. destruct w as [c' run pau since shown idr ice rec], l as [since' scr pos]. cbn in *.
  subst c' since' scr run pau. unfold stall_tick, lad_tick, next_rung. cbn -[wrap64 sat_sub receive_script lookup].
  pose proof (wc_max _ Hc) as Hm. pose proof (wc_idr _ Hc) as Hi. pose proof (wc_ice _ Hc) as Hice.
  assert (Hdue : forall k, 0 <= k < idr_max_attempts c ->
    wrap64 (idr_first_ms c + wrap64 (k * idr_retry_ms c)) = idr_first_ms c + k * idr_retry_ms c /\
    idr_first_ms c + k * idr_retry_ms c <= ice_restart_ms c).
  { intros k Hk. pose proof (wc_first _ Hc). pose proof (wc_retry _ Hc). pose proof (wc_fits _ Hc).
    assert (0 <= k * idr_retry_ms c <= idr_max_attempts c * idr_retry_ms c - idr_retry_ms c) by nia.
    split; [|lia]. unfold wrap64. rewrite (Z.mod_small (k * _)) by lia. apply Z.mod_small. lia. }
  inversion Hr as [|k Hk| |]; subst; cbn -[wrap64 sat_sub receive_script lookup plus].
  - cbn [receive_script lookup list_lookup]. case_test; cbn; [|by repeat split].
    split; [|done]. split; cbn; [done..|]. by apply (rr_idr _ 0).
  - destruct (Z.ltb_spec idr (idr_max_attempts c)); cbn [andb].
    + rewrite receive_lookup_idr by lia. destruct (Hdue idr) as [-> Hle]; [lia|]. case_test; cbn.
      * split; [|done]. split; cbn; [done..|]. replace (S (Z.to_nat idr)) with (Z.to_nat (idr + 1)) by lia. apply rr_idr. lia.
      * rewrite (proj2 (Z.leb_gt _ _)), (proj2 (Z.leb_gt _ _)) by lia. by repeat split.
    + assert (idr = idr_max_attempts c) as -> by lia. pose proof (receive_lookup_end c 0 Hm) as E.
      cbn [plus lookup list_lookup] in E. cbn [lookup] in E |- *. rewrite E. cbn [andb]. case_test; cbn.
      * split; [|done]. split; cbn; [done..|]. apply rr_ice.
      * rewrite (proj2 (Z.leb_gt _ _)) by lia. by repeat split.
  - rewrite (proj2 (Z.ltb_ge _ _)) by lia. pose proof (receive_lookup_end c 1 Hm) as E. cbn [plus] in *. rewrite E. cbn.
    case_test; cbn; [|by repeat split]. split; [|done]. split; cbn; [done..|]. apply rr_done.
  - pose proof (receive_lookup_end c 2 Hm) as E. cbn [plus] in *. rewrite E. cbn. by repeat split.
Qed.

(** ** The supervisor *)

Record wd_rep (c : WatchdogConfig) (s : WatchdogSupervisor) (a : WdSpec) : Prop := {
  wr_config : ws_config s = c /\ sw_config (receive s) = c;
  wr_generation : generation s = sp_generation a;
  wr_running : sw_running (receive s) = sp_running a /\ sc_running (decode s) = sp_running a /\
               sc_running (present s) = sp_running a;
  wr_paused : sw_paused (receive s) = sp_paused a /\ sc_paused (decode s) = sp_paused a /\
              sc_paused (present s) = sp_paused a;
  wr_receive : sp_running a = true -> receive_rep c (receive s) (sp_receive a);
  wr_decode : sp_running a = true -> stage_rep decode_action (decode_stall_ms c) (decode_retry_ms c)
                (decode_max_attempts c) (decode s) (sp_decode a);
  wr_present : sp_running a = true -> stage_rep present_action (present_stall_ms c) (present_retry_ms c)
                 (present_max_attempts c) (present s) (sp_present a)
}.

Lemma wd_new_rep c : wd_rep c (supervisor_new c) spec_new.
Proof. by split. Qed.

Lemma stage_start_rep act stall retry max s : stage_rep act stall retry max (stage_start s) unarmed.
Proof. constructor. Qed.

Lemma stage_progress_rep act stall retry max s now :
  0 <= max -> sc_running s = true ->
  stage_rep act stall retry max (stage_progress s now) (mkLadder now (stage_script act stall retry max) 0) /\
  sc_running (stage_progress s now) = true /\ sc_paused (stage_progress s now) = sc_paused s.
Proof.
  intros Hm Hr. unfold stage_progress. rewrite Hr. split; [|done]. cbn.
  apply (sr_climbing act stall retry max true (sc_paused s) now 0). lia.
Qed.

Lemma stage_pause_rep act stall retry max s l :
  stage_rep act stall retry max s l -> stage_rep act stall retry max (stage_pause s) l.
Proof. destruct 1; unfold stage_pause; cbn; by constructor. Qed.

Lemma stage_resume_rep act stall retry max s l now :
  stage_rep act stall retry max s l -> sc_paused s = true ->
  stage_rep act stall retry max (stage_resume s now) (lad_rebase l now).
Proof. destruct 1; cbn; intros ->; unfold stage_resume, lad_rebase; cbn; by constructor. Qed.

(** The flags after a pause and after a resume. *)
Lemma stage_resume_flags s now : sc_running (stage_resume s now) = sc_running s /\ sc_paused (stage_resume s now) = false.
Proof. unfold stage_resume. by destruct (sc_paused s) eqn:E. Qed.

Lemma supervisor_tick_rep c s a now :
  wd_cfg_ok c -> wd_rep c s a -> sp_running a = true -> sp_paused a = false ->
  let '(s', o) := supervisor_tick s now in
  let '(a', o') := spec_tick a now in
  wd_rep c s' a' /\ o = o'.
Proof.
  intros Hc [[Hcf Hcf'] Hg (Hr1 & Hr2 & Hr3) (Hp1 & Hp2 & Hp3) HR HD HP] Hrun Hpau.
  specialize (HR Hrun). specialize (HD Hrun). specialize (HP Hrun). rewrite Hrun, Hpau in *.
  unfold supervisor_tick, spec_tick.
  pose proof (receive_tick_rep c _ _ now Hc HR Hr1 Hp1) as H.
  destruct (stall_tick (receive s) now) as [r act], (lad_tick (sp_receive a) now) as [lr act'].
  destruct H as (HR' & -> & Hr' & Hp' & Hnone). destruct act as [act|].
  { split; [|by rewrite Hg]. split; cbn; rewrite ?Hrun, ?Hpau; try done. split; [done|apply HR']. }
  destruct (Hnone eq_refl) as [-> ->]. clear Hnone. cbn [decode present receive ws_config generation]. rewrite Hcf.
  pose proof (stage_tick_rep _ _ _ _ _ _ now (wc_decode _ Hc) HD Hr2 Hp2) as H.
  destruct (stage_tick (decode s) now _ _ _) as [d act], (lad_tick (sp_decode a) now) as [ld act'].
  destruct H as (HD' & -> & Hr2' & Hp2' & Hnone). destruct act as [rung|]; cbn [fmap option_fmap option_map].
  { split; [|by rewrite Hg]. split; cbn; rewrite ?Hrun, ?Hpau; done. }
  destruct (Hnone eq_refl) as [-> ->]. clear Hnone. cbn [decode present receive ws_config generation].
  pose proof (stage_tick_rep _ _ _ _ _ _ now (wc_present _ Hc) HP Hr3 Hp3) as H.
  destruct (stage_tick (present s) now _ _ _) as [p act], (lad_tick (sp_present a) now) as [lp act'].
  destruct H as (HP' & -> & Hr3' & Hp3' & _). destruct act as [rung|]; cbn [fmap option_fmap option_map];
    (split; [|by rewrite ?Hg]); (split; cbn; rewrite ?Hrun, ?Hpau; done).
Qed.

Lemma spec_quiet c s a now :
  wd_rep c s a -> (sp_running a && negb (sp_paused a))%bool = false -> supervisor_tick s now = (s, None).
Proof.
  intros [_ _ (Hr1 & Hr2 & Hr3) (Hp1 & Hp2 & Hp3) _ _ _] H.
  assert (Hq : (negb (sp_running a) || sp_paused a)%bool = true) by (by destruct (sp_running a), (sp_paused a)).
  unfold supervisor_tick, stall_tick, stage_tick. rewrite Hr1, Hp1, Hq. cbn [orb]. cbn. rewrite Hr2, Hp2, Hq. cbn.
  rewrite Hr3, Hp3, Hq. cbn. by destruct s.
Qed.

Lemma wd_step_rep c s a op :
  wd_cfg_ok c -> wd_rep c s a ->
  match op with WdFrame _ => sp_running a && topped (sp_receive a) = false | _ => True end ->
  let '(s', o) := wd_step s op in
  let '(a', o') := spec_step c a op in
  wd_rep c s' a' /\ o = o'.
Proof.
  intros Hc H Hdown. pose proof H as [[Hcf Hcf'] Hg (Hr1 & Hr2 & Hr3) (Hp1 & Hp2 & Hp3) HR HD HP].
  destruct op as [now gen| | |now|now|now|now|now]; cbn [wd_step spec_step].
  - split; [|done]. split; cbn; try done.
    + intros _. split; cbn; try done. constructor.
    + intros _. constructor.
    + intros _. constructor.
  - split; [|done]. split; cbn; done.
  - split; [|done]. split; cbn; try done.
    + intros E. destruct (HR E). by split.
    + intros E. by apply stage_pause_rep, HD.
    + intros E. by apply stage_pause_rep, HP.
  - split; [|done]. unfold supervisor_resume, stall_resume. rewrite Hp1.
    destruct (stage_resume_flags (decode s) now) as [F1 F2], (stage_resume_flags (present s) now) as [F3 F4].
    destruct (sp_paused a) eqn:Ep.
    + split; cbn; rewrite ?F1, ?F2, ?F3, ?F4; try done.
      * intros E. destruct (HR E). by split.
      * intros E. apply stage_resume_rep; [by apply HD|done].
      * intros E. apply stage_resume_rep; [by apply HP|done].
    + assert (G : forall st, sc_paused st = false -> stage_resume st now = st) by (intros st Hst; unfold stage_resume; by rewrite Hst).
      rewrite !G by done. by destruct s.
  - unfold supervisor_frame, frame_received. rewrite Hr1. destruct (sp_running a) eqn:Er; cbn [negb andb] in *.
    + rewrite Hdown. cbn. destruct (HR eq_refl) as [R1 R2 R3 R4]. split.
      * split; cbn; try done. intros _. split; cbn; try done. constructor.
      * rewrite R2, Hg. inversion R4; subst; rewrite ?bool_decide_true, ?bool_decide_false by lia; done.
    + cbn. split; [|done]. by destruct s.
  - split; [|done]. unfold decode_progress. destruct (sp_running a) eqn:Er.
    + destruct (stage_progress_rep decode_action (decode_stall_ms c) (decode_retry_ms c) (decode_max_attempts c)
        (decode s) now (sg_max _ _ _ (wc_decode _ Hc)) Hr2) as (G1 & G2 & G3).
      split; cbn; rewrite ?G2, ?G3; done.
    + assert (E : stage_progress (decode s) now = decode s) by (unfold stage_progress; by rewrite Hr2). rewrite E. by destruct s.
  - split; [|done]. unfold present_progress. destruct (sp_running a) eqn:Er.
    + destruct (stage_progress_rep present_action (present_stall_ms c) (present_retry_ms c) (present_max_attempts c)
        (present s) now (sg_max _ _ _ (wc_present _ Hc)) Hr3) as (G1 & G2 & G3).
      split; cbn; rewrite ?G2, ?G3; done.
    + assert (E : stage_progress (present s) now = present s) by (unfold stage_progress; by rewrite Hr3). rewrite E. by destruct s.
  - destruct (sp_running a && negb (sp_paused a))%bool eqn:E; [|by rewrite (spec_quiet c s a now H E)].
    apply andb_true_iff in E as [E1 E2]. apply negb_true_iff in E2. by apply supervisor_tick_rep.
Qed.

(** Only the last action of the receive script is a reconnect. *)
Lemma receive_script_last c :
  exists l due, receive_script c = l ++ [(due, Reconnect)] /\ Forall (fun e => e.2 <> Reconnect) l.
Proof.
  exists ((stall_indicator_ms c, Stall) ::
    ((fun k => (idr_first_ms c + k * idr_retry_ms c, RequestIdr (k + 1))) <$> seqZ 0 (idr_max_attempts c)) ++ [(ice_restart_ms c, RestartIce)]),
    (reconnect_ms c).
  split; [unfold receive_script; cbn [app]; by rewrite <- app_assoc|].
  constructor; [done|]. apply Forall_app. split; [|by constructor]. by apply Forall_fmap, Forall_true.
Qed.

Lemma receive_tick_top c l now :
  lad_script l = receive_script c ->
  let '(l', o) := lad_tick l now in
  match o with
  | Some act => topped l = false /\ topped l' = match act with Reconnect => true | _ => false end
  | None => l' = l
  end.
Proof.
  intros Es. destruct (receive_script_last c) as (l0 & due0 & E & Hl). unfold lad_tick. rewrite Es, E.
  destruct ((l0 ++ [(due0, Reconnect)]) !! lad_pos l) as [[due act]|] eqn:El; [|done]. destruct (due <=? _); [|done].
  pose proof (lookup_lt_Some _ _ _ El) as Hlt. rewrite length_app in Hlt. cbn [length] in Hlt.
  unfold topped. rewrite Es, E. cbn [lad_script lad_pos]. rewrite length_app. cbn [length].
  split; [by apply Nat.leb_gt|]. apply lookup_app_Some in El as [El|[Hge El]].
  - pose proof (lookup_lt_Some _ _ _ El). rewrite Forall_lookup in Hl. specialize (Hl _ _ El). cbn in Hl.
    destruct act; try done; apply Nat.leb_gt; lia.
  - assert (lad_pos l - length l0 = 0)%nat as E0 by lia. rewrite E0 in El. cbn in El. apply (inj Some), pair_eq in El as [_ <-].
    apply Nat.leb_le. lia.
Qed.

(** What the specification does about the top of the receive ladder. *)
Lemma spec_down c a op down :
  (sp_running a = true -> lad_script (sp_receive a) = receive_script c) ->
  down = sp_running a && topped (sp_receive a) ->
  match op with WdFrame _ => down = false | _ => True end ->
  let '(a', o) := spec_step c a op in
  now_down down op o = sp_running a' && topped (sp_receive a') /\ (down = true -> of_receive o = false).
Proof.
  intros Hs Hd Hf.
  destruct op as [now gen| | |now|now|now|now|now]; cbn [spec_step now_down].
  - done.
  - by split.
  - rewrite orb_false_r. by split.
  - rewrite orb_false_r. by destruct (sp_paused a).
  - rewrite Hd in Hf. destruct (sp_running a) eqn:Er; cbn [andb] in *; [rewrite Hf in *; cbn [negb]|].
    + split; [|by rewrite Hd]. rewrite Hd. by case_bool_decide.
    + rewrite Hd, Er. by split.
  - rewrite orb_false_r. by destruct (sp_running a) eqn:Er; rewrite ?Hd, ?Er.
  - rewrite orb_false_r. by destruct (sp_running a) eqn:Er; rewrite ?Hd, ?Er.
  - destruct (sp_running a && negb (sp_paused a))%bool eqn:E; [|by rewrite orb_false_r].
    apply andb_true_iff in E as [Er _]. rewrite Er in Hd. cbn [andb] in Hd.
    pose proof (receive_tick_top c (sp_receive a) now (Hs Er)) as Ht. unfold spec_tick.
    destruct (lad_tick (sp_receive a) now) as [r [act|]].
    + destruct Ht as [Ht1 Ht2]. cbn [sp_running sp_receive]. rewrite Er, Ht2, Hd, Ht1. split; [|done]. by destruct act.
    + subst r. destruct (lad_tick (sp_decode a) now) as [d [act|]]; cbn [sp_running sp_receive]; [by rewrite Er, orb_false_r|].
      destruct (lad_tick (sp_present a) now) as [p act]. cbn [sp_running sp_receive]. rewrite Er. by destruct act; rewrite orb_false_r.
Qed.

Lemma wd_run_rep c ops : wd_cfg_ok c -> forall s a, wd_rep c s a ->
  let down := sp_running a && topped (sp_receive a) in
  torn_down down (zip ops (wd_run s ops)) ->
  wd_run s ops = spec_run c a ops /\ silent down (zip ops (wd_run s ops)).
Proof.
  intros Hc. induction ops as [|op ops IH]; intros s a HR down Ht; [done|]. cbn [wd_run spec_run] in *.
  pose proof (wd_step_rep c s a op Hc HR) as H.
  pose proof (spec_down c a op down (fun Er => rp_script _ _ _ (wr_receive _ _ _ HR Er)) eq_refl) as Hsp.
  destruct (wd_step s op) as [s' o], (spec_step c a op) as [a' o']. cbn [zip zip_with torn_down silent] in *. destruct Ht as [Hf Ht].
  destruct H as [H ->]; [by destruct op|]. destruct (Hsp ltac:(by destruct op)) as [Ed Hq]. rewrite Ed in *.
  destruct (IH s' a' H Ht) as [-> IH2]. by split_and!.
Qed.

(** ** Properties *)

(** C31: the watchdog is three ladders. For a configuration that escalates (no IDR
    request due after the ICE restart, that not after the reconnect) and a driver that
    tears the session down at a reconnect of the receive stage, so that no frame
    arrives before the next start, and otherwise starts, stops, pauses, resumes, reports
    progress and ticks as it likes: the supervisor says exactly what the specification
    says. Each stage climbs its script of timed actions, every action due some time
    after the stage's last progress; a tick says at most one action, the receive stage's
    before the decode stage's before the present stage's; progress puts a stage back to
    the start of its script, a resume restarts the clocks, a stopped or paused watchdog
    is silent; and after its reconnect the receive stage says nothing until the next
    start. (What a frame does that arrives all the same, [reconnect_rearms] shows.) *)
Theorem watchdog_refines c ops :
  wd_cfg_ok c -> torn_down false (zip ops (wd_run (supervisor_new c) ops)) ->
  wd_run (supervisor_new c) ops = spec_run c spec_new ops /\
  silent false (zip ops (wd_run (supervisor_new c) ops)).
Proof. intros Hc Ht. by apply (wd_run_rep c ops Hc _ _ (wd_new_rep c)). Qed.

(** A stall on the defaults, with the decoder dead as well. *)
Definition demo_wd_ops : list WdOp :=
  [WdStart 0 7; WdFrame 100; WdDecode 100; WdTick 1200; WdTick 2300; WdTick 2400; WdFrame 2500; WdTick 2600; WdStop;
   WdTick 90000].

Lemma watchdog_refines_witness :
  wd_cfg_ok default_watchdog /\
  wd_run (supervisor_new default_watchdog) demo_wd_ops =
    [None; None; None; Some (Receive, Stall, 7); Some (Receive, RequestIdr 1, 7); Some (Decode, DecodeStall 1, 7);
     Some (Receive, Recovered 2400, 7); None; None; None].
Proof.
  assert (Hc : wd_cfg_ok default_watchdog) by (by repeat split).
  assert (Ht : torn_down false (zip demo_wd_ops (wd_run (supervisor_new default_watchdog) demo_wd_ops)))
    by (vm_compute; by repeat split).
  split; [exact Hc|]. rewrite (proj1 (watchdog_refines default_watchdog demo_wd_ops Hc Ht)). vm_compute. reflexivity.
Defined.

(** After [Reconnect] the watchdog is not silent until the next start: a frame
    arms the whole ladder again, and a second [Reconnect] follows. *)
Lemma reconnect_rearms :
  List.filter (fun o => match o with Some (_, Reconnect, _) => true | _ => false end)
    (wd_run (supervisor_new default_watchdog)
       (WdStart 0 7 :: (WdTick <$> replicate 6 20000) ++ [WdFrame 20001] ++ (WdTick <$> replicate 6 50000))) =
    [Some (Receive, Reconnect, 7); Some (Receive, Reconnect, 7)].
Proof. vm_compute. reflexivity. Qed.
