(* ===== verification/Text.v ===== *)
(** * Texts: Rust strings as lists of code points

    A [String] is the list of its Unicode scalar values. [str] comparison is by
    UTF-8 bytes, which orders strings as their code points do. [dec] is
    [to_string] of an integer. *)
From Stdlib Require Import Ascii.
From stdpp Require Export strings.
From S2P Require Import Prelude.
#[global] Open Scope Z_scope.

Notation text := (list Z).

(** A string literal of the source. *)
Definition lit (s : string) : text := (fun a => Z.of_N (N_of_ascii a)) <$> String.list_ascii_of_string s.
Arguments lit s%_string : simpl never.

(** ** Order *)

Fixpoint lex_leb (a b : text) : bool :=
  match a, b with
  | [], _ => true
  | _ :: _, [] => false
  | x :: a, y :: b => if x <? y then true else if x =? y then lex_leb a b else false
  end.

Definition text_le (a b : text) : Prop := lex_leb a b = true.

#[export] Instance text_le_dec a b : Decision (text_le a b) := ltac:(unfold text_le; apply _).

#[export] Instance text_le_refl : Reflexive text_le.
Proof. intros a. induction a as [|x a IH]; [done|]. unfold text_le in *. cbn. by rewrite Z.ltb_irrefl, Z.eqb_refl. Qed.

#[export] Instance text_le_trans : Transitive text_le.
Proof.
  unfold text_le. intros a. induction a as [|x a IH]; intros [|y b] [|z c] H K; cbn in *; try done.
  destruct (Z.ltb_spec x y), (Z.ltb_spec y z), (Z.ltb_spec x z), (Z.eqb_spec x y),
    (Z.eqb_spec y z), (Z.eqb_spec x z); try done; try lia; eauto.
Qed.

#[export] Instance text_le_antisym : AntiSymm (=) text_le.
Proof.
  unfold text_le. intros a. induction a as [|x a IH]; intros [|y b] H K; cbn in *; try done.
  destruct (Z.ltb_spec x y), (Z.ltb_spec y x), (Z.eqb_spec x y), (Z.eqb_spec y x); try done; try lia.
  f_equal; eauto.
Qed.

#[export] Instance text_le_total : Total text_le.
Proof.
  unfold text_le. intros a. induction a as [|x a IH]; intros [|y b]; cbn; auto.
  destruct (Z.ltb_spec x y), (Z.ltb_spec y x), (Z.eqb_spec x y), (Z.eqb_spec y x); auto; try lia.
Qed.

(** ** Decimal integers *)

Definition is_digit (c : Z) : Prop := 48 <= c <= 57.

#[export] Instance is_digit_dec c : Decision (is_digit c) := ltac:(unfold is_digit; apply _).

Fixpoint dec_fuel (fuel : nat) (n : Z) : text :=
  match fuel with
  | O => []
  | S fuel => (if n <? 10 then [] else dec_fuel fuel (n / 10)) ++ [48 + n mod 10]
  end.

(** Digits of a natural number: it has at most [log2 n + 1] of them. *)
Definition dec_nat (n : Z) : text := dec_fuel (S (Z.to_nat (Z.log2 n))) n.

Definition dec (n : Z) : text := if n <? 0 then 45 :: dec_nat (- n) else dec_nat n.

Definition undec (l : text) : Z := foldl (fun acc c => 10 * acc + (c - 48)) 0 l.

Lemma undec_snoc l c : undec (l ++ [c]) = 10 * undec l + (c - 48).
Proof. unfold undec. by rewrite foldl_app. Qed.

Lemma dec_fuel_spec fuel n :
  0 <= n < 2 ^ Z.of_nat fuel -> (0 < fuel)%nat ->
  undec (dec_fuel fuel n) = n /\ Forall is_digit (dec_fuel fuel n) /\ dec_fuel fuel n <> [].
Proof.
  revert n. induction fuel as [|fuel IH]; intros n Hn Hf; [lia|]. cbn [dec_fuel].
  rewrite undec_snoc. pose proof (Z_div_mod_eq_full n 10). pose proof (Z.mod_pos_bound n 10).
  assert (is_digit (48 + n mod 10)) by (unfold is_digit; lia).
  destruct (Z.ltb_spec n 10) as [Hlt|Hge].
  - split_and!; [cbn; rewrite Z.mod_small; lia|by constructor|done].
  - rewrite Nat2Z.inj_succ, Z.pow_succ_r in Hn by lia.
    assert (0 < fuel)%nat by (destruct fuel; [cbn in Hn; lia|lia]).
    destruct (IH (n / 10)) as (E & F & N); [|done|].
    { split; [apply Z.div_pos; lia|apply Z.div_lt_upper_bound; lia]. }
    split_and!; [rewrite E; lia|apply Forall_app; by split; [|constructor]|].
    by intros [? _]%app_eq_nil.
Qed.

Lemma dec_nat_spec n :
  0 <= n -> undec (dec_nat n) = n /\ Forall is_digit (dec_nat n) /\ dec_nat n <> [].
Proof.
  intros Hn. apply dec_fuel_spec; [|lia]. split; [done|].
  destruct (decide (n = 0)) as [->|]; [done|].
  rewrite Nat2Z.inj_succ, Z2Nat.id by apply Z.log2_nonneg. by apply Z.log2_spec; lia.
Qed.

(** The digits of an integer, before anything that is not one. *)
Lemma dec_app_inj n m r s :
  dec n ++ r = dec m ++ s -> (forall c, head r = Some c -> ~ is_digit c) ->
  (forall c, head s = Some c -> ~ is_digit c) -> n = m /\ r = s.
Proof.
  assert (Hdig : forall (l k r s : text), Forall is_digit l -> Forall is_digit k -> l ++ r = k ++ s ->
    (forall c, head r = Some c -> ~ is_digit c) -> (forall c, head s = Some c -> ~ is_digit c) ->
    l = k /\ r = s).
  { clear. induction l as [|x l IH]; intros [|y k] r s Hl Hk E Hr Hs; cbn in *; [done| | |].
    - subst r. inversion Hk; subst. by destruct (Hr y).
    - subst s. inversion Hl; subst. by destruct (Hs x).
    - injection E as -> E. inversion Hl; inversion Hk; subst.
      by destruct (IH k r s) as [-> ->]. }
  intros E Hr Hs. unfold dec in E.
  assert (Hhd : forall z (l : text), 0 <= z -> exists c t, dec_nat z ++ l = c :: t /\ is_digit c).
  { intros z l Hz. destruct (dec_nat_spec z Hz) as (_ & F & N). destruct (dec_nat z) as [|c t]; [done|].
    inversion F; subst. eauto. }
  destruct (Z.ltb_spec n 0) as [Hn|Hn], (Z.ltb_spec m 0) as [Hm|Hm].
  - cbn in E. injection E as E.
    destruct (dec_nat_spec (- n)) as (U & F & _); [lia|]. destruct (dec_nat_spec (- m)) as (U' & F' & _); [lia|].
    destruct (Hdig _ _ _ _ F F' E Hr Hs) as [Eq ->]. split; [|done]. rewrite Eq in U. lia.
  - destruct (Hhd m s Hm) as (c & t & Ec & Hc). rewrite Ec in E. cbn in E. injection E as <- _.
    by destruct Hc.
  - destruct (Hhd n r Hn) as (c & t & Ec & Hc). rewrite Ec in E. cbn in E. injection E as -> _.
    by destruct Hc.
  - destruct (dec_nat_spec n) as (U & F & _); [lia|]. destruct (dec_nat_spec m) as (U' & F' & _); [lia|].
    destruct (Hdig _ _ _ _ F F' E Hr Hs) as [Eq ->]. split; [|done]. by rewrite <- U, Eq.
Qed.

Lemma dec_head n : exists c t, dec n = c :: t /\ (is_digit c \/ c = 45).
Proof.
  unfold dec. destruct (Z.ltb_spec n 0) as [H|H]; [by eauto|].
  destruct (dec_nat_spec n H) as (_ & F & N). destruct (dec_nat n) as [|c t]; [done|].
  inversion F; subst. eauto.
Qed.

(** ** Pieces *)

(** [str::split] on a set of characters: [n] separators give [n+1] pieces. *)
Fixpoint split_on (p : Z -> bool) (s : text) : list text :=
  match s with
  | [] => [[]]
  | c :: s =>
      if p c then [] :: split_on p s
      else match split_on p s with
           | seg :: segs => (c :: seg) :: segs
           | [] => [[c]]
           end
  end.

(** [eq_ignore_ascii_case]. *)
Definition ascii_lower (c : Z) : Z := if (65 <=? c) && (c <=? 90) then c + 32 else c.
Definition eq_ignore_ascii_case (a b : text) : bool := bool_decide (map ascii_lower a = map ascii_lower b).
