(* ===== verification/Utf8.v ===== *)
(** * UTF-8 (the standard library's [str])

    The code keeps names as [String]: sequences of Unicode scalar values whose
    bytes are their UTF-8 encoding. [utf8] is [as_bytes], [from_utf8] is
    [std::str::from_utf8], which takes no overlong form, no surrogate and
    nothing above U+10FFFF. *)
From S2P Require Import Prelude Text.

Definition surrogate (c : Z) : bool := (55296 <=? c) && (c <? 57344).

(** What a [char] can be. *)
Definition scalar (c : Z) : Prop := 0 <= c < 1114112 /\ surrogate c = false.

Definition utf8_char (c : Z) : list Z :=
  if c <? 128 then [c]
  else if c <? 2048 then [192 + c / 64; 128 + c mod 64]
  else if c <? 65536 then [224 + c / 4096; 128 + c / 64 mod 64; 128 + c mod 64]
  else [240 + c / 262144; 128 + c / 4096 mod 64; 128 + c / 64 mod 64; 128 + c mod 64].

Definition utf8 (s : text) : list Z := s ≫= utf8_char.

Definition continuation (b : Z) : bool := (128 <=? b) && (b <? 192).

Definition push_char (c : Z) (r : option text) : option text := cons c <$> r.

Fixpoint from_utf8 (bs : list Z) : option text :=
  match bs with
  | [] => Some []
  | b0 :: bs0 =>
      if b0 <? 128 then push_char b0 (from_utf8 bs0)
      else if b0 <? 192 then None
      else
        match bs0 with
        | [] => None
        | b1 :: bs1 =>
            if negb (continuation b1) then None
            else if b0 <? 224 then
              let c := 64 * (b0 - 192) + (b1 - 128) in
              if c <? 128 then None else push_char c (from_utf8 bs1)
            else
              match bs1 with
              | [] => None
              | b2 :: bs2 =>
                  if negb (continuation b2) then None
                  else if b0 <? 240 then
                    let c := 4096 * (b0 - 224) + 64 * (b1 - 128) + (b2 - 128) in
                    if (c <? 2048) || surrogate c then None else push_char c (from_utf8 bs2)
                  else
                    match bs2 with
                    | [] => None
                    | b3 :: bs3 =>
                        if negb (continuation b3) then None
                        else
                          let c := 262144 * (b0 - 240) + 4096 * (b1 - 128) + 64 * (b2 - 128) + (b3 - 128) in
                          if (c <? 65536) || (1114112 <=? c) then None else push_char c (from_utf8 bs3)
                    end
              end
        end
  end.

Ltac utf8_lia := Z.div_mod_to_equations; lia.

(** Decides a test by arithmetic. *)
Ltac utf8_test :=
  match goal with
  | |- context [if ?b then _ else _] =>
      first [ replace b with true by (symmetry; unfold continuation, surrogate; reflect_utf8; utf8_lia)
            | replace b with false by (symmetry; unfold continuation, surrogate; reflect_utf8; utf8_lia) ]
  end
with reflect_utf8 :=
  rewrite ?orb_true_iff, ?orb_false_iff, ?andb_true_iff, ?negb_true_iff, ?negb_false_iff,
    ?andb_false_iff, ?Z.ltb_lt, ?Z.ltb_ge, ?Z.leb_le, ?Z.leb_gt.

Lemma from_utf8_char c bs : scalar c -> from_utf8 (utf8_char c ++ bs) = push_char c (from_utf8 bs).
Proof.
  intros [Hc Hs]. unfold surrogate in Hs. apply andb_false_iff in Hs.
  rewrite Z.leb_gt, Z.ltb_ge in Hs. unfold utf8_char.
  destruct (Z.ltb_spec c 128) as [H1|H1]; [cbn; by repeat utf8_test|].
  destruct (Z.ltb_spec c 2048) as [H2|H2].
  { cbn [app from_utf8]. repeat utf8_test. f_equal. utf8_lia. }
  destruct (Z.ltb_spec c 65536) as [H3|H3].
  { cbn [app from_utf8].
    replace (4096 * (224 + c / 4096 - 224) + 64 * (128 + c / 64 mod 64 - 128) + (128 + c mod 64 - 128))
      with c by utf8_lia.
    repeat utf8_test. done. }
  cbn [app from_utf8].
  replace (262144 * (240 + c / 262144 - 240) + 4096 * (128 + c / 4096 mod 64 - 128) +
    64 * (128 + c / 64 mod 64 - 128) + (128 + c mod 64 - 128)) with c by utf8_lia.
  repeat utf8_test. done.
Qed.

Lemma from_utf8_utf8 s : Forall scalar s -> from_utf8 (utf8 s) = Some s.
Proof.
  induction 1 as [|c s Hc _ IH]; [done|]. unfold utf8. rewrite bind_cons, from_utf8_char by done.
  fold (utf8 s). by rewrite IH.
Qed.

(** The encodings by the number of their bytes. *)
Lemma utf8_char_2 b0 b1 (c := 64 * (b0 - 192) + (b1 - 128)) :
  192 <= b0 < 224 -> continuation b1 = true -> 128 <= c -> utf8_char c = [b0; b1] /\ scalar c.
Proof.
  unfold continuation. rewrite andb_true_iff, Z.leb_le, Z.ltb_lt. intros H0 H1 Hc.
  assert (Hu : c < 2048) by (subst c; lia). split.
  - unfold utf8_char. repeat utf8_test. subst c. repeat f_equal; utf8_lia.
  - split; [lia|]. unfold surrogate. apply andb_false_iff. rewrite Z.leb_gt. lia.
Qed.

Lemma utf8_char_3 b0 b1 b2 (c := 4096 * (b0 - 224) + 64 * (b1 - 128) + (b2 - 128)) :
  224 <= b0 < 240 -> continuation b1 = true -> continuation b2 = true ->
  (c <? 2048) || surrogate c = false -> utf8_char c = [b0; b1; b2] /\ scalar c.
Proof.
  unfold continuation. rewrite !andb_true_iff, !Z.leb_le, !Z.ltb_lt, orb_false_iff, Z.ltb_ge.
  intros H0 H1 H2 [Hc Hs]. assert (Hu : c < 65536) by (subst c; lia). split.
  - unfold utf8_char. clear Hs. repeat utf8_test. subst c. repeat f_equal; utf8_lia.
  - split; [lia|done].
Qed.

Lemma utf8_char_4 b0 b1 b2 b3 (c := 262144 * (b0 - 240) + 4096 * (b1 - 128) + 64 * (b2 - 128) + (b3 - 128)) :
  240 <= b0 -> continuation b1 = true -> continuation b2 = true -> continuation b3 = true ->
  (c <? 65536) || (1114112 <=? c) = false -> utf8_char c = [b0; b1; b2; b3] /\ scalar c.
Proof.
  unfold continuation. rewrite !andb_true_iff, !Z.leb_le, !Z.ltb_lt, orb_false_iff, Z.ltb_ge, Z.leb_gt.
  intros H0 H1 H2 H3 [Hc Hu]. split.
  - unfold utf8_char. repeat utf8_test. subst c. repeat f_equal; utf8_lia.
  - split; [lia|]. unfold surrogate. apply andb_false_iff. rewrite Z.ltb_ge. lia.
Qed.

Lemma push_char_Some c r s : push_char c r = Some s -> exists s', r = Some s' /\ s = c :: s'.
Proof. destruct r; [intros [= <-]; eauto|done]. Qed.

(** [from_utf8] accepts only what [utf8] writes. *)
Lemma from_utf8_inv bs s : bytes bs -> from_utf8 bs = Some s -> utf8 s = bs /\ Forall scalar s.
Proof.
  remember (length bs) as n eqn:Hn. revert bs s Hn. induction n as [n IH] using lt_wf_ind.
  intros bs s -> Hb Hs.
  assert (Hrec : forall c cs bs' s', utf8_char c = cs /\ scalar c -> (length bs' < length bs)%nat -> bytes bs' ->
    push_char c (from_utf8 bs') = Some s' -> utf8 s' = cs ++ bs' /\ Forall scalar s').
  { intros c cs bs' s' [Ec Hc] Hl Hb' (s'' & E & ->)%push_char_Some.
    destruct (IH _ Hl bs' s'' eq_refl Hb' E) as [<- Hf]. split; [|by constructor].
    unfold utf8. by rewrite bind_cons, Ec. }
  clear IH. destruct bs as [|b0 bs0]; [injection Hs as <-; done|].
  cbn [from_utf8] in Hs. apply Forall_cons in Hb as [Hb0 Hbs0]. unfold is_byte in Hb0.
  destruct (Z.ltb_spec b0 128) as [H1|H1].
  { apply (Hrec b0 [b0] bs0); [|cbn; lia|done|done]. split.
    - unfold utf8_char. by repeat utf8_test.
    - split; [lia|]. unfold surrogate. apply andb_false_iff. rewrite Z.leb_gt. lia. }
  destruct (Z.ltb_spec b0 192) as [|H2]; [done|]. destruct bs0 as [|b1 bs1]; [done|].
  apply Forall_cons in Hbs0 as [_ Hbs1]. destruct (continuation b1) eqn:E1; cbn [negb] in Hs; [|done].
  destruct (Z.ltb_spec b0 224) as [H3|H3].
  { destruct (Z.ltb_spec (64 * (b0 - 192) + (b1 - 128)) 128) as [|Hc]; [done|].
    refine (Hrec _ [b0; b1] _ s _ _ _ Hs); [apply utf8_char_2; (done || lia)|cbn; lia|done]. }
  destruct bs1 as [|b2 bs2]; [done|]. apply Forall_cons in Hbs1 as [_ Hbs2].
  destruct (continuation b2) eqn:E2; cbn [negb] in Hs; [|done].
  destruct (Z.ltb_spec b0 240) as [H4|H4].
  { destruct (_ || _) eqn:Eb; [done|].
    refine (Hrec _ [b0; b1; b2] _ s _ _ _ Hs); [apply utf8_char_3; (done || lia)|cbn; lia|done]. }
  destruct bs2 as [|b3 bs3]; [done|]. apply Forall_cons in Hbs2 as [_ Hbs3].
  destruct (continuation b3) eqn:E3; cbn [negb] in Hs; [|done].
  destruct (_ || _) eqn:Eb; [done|].
  refine (Hrec _ [b0; b1; b2; b3] _ s _ _ _ Hs); [apply utf8_char_4; (done || lia)|cbn; lia|done].
Qed.

Lemma bytes_utf8_char c : scalar c -> bytes (utf8_char c).
Proof.
  intros [Hc _]. unfold utf8_char, bytes. repeat case_match; reflect_bools;
    repeat constructor; unfold is_byte; utf8_lia.
Qed.

Lemma bytes_utf8 s : Forall scalar s -> bytes (utf8 s).
Proof.
  induction 1 as [|c s Hc _ IH]; [constructor|]. unfold utf8. rewrite bind_cons.
  apply bytes_app; [by apply bytes_utf8_char|done].
Qed.

Lemma utf8_inj s s' : Forall scalar s -> Forall scalar s' -> utf8 s = utf8 s' -> s = s'.
Proof. intros Hs Hs' E. apply Some_inj. by rewrite <- !from_utf8_utf8, E. Qed.

Example euro : utf8 [8364] = [226; 130; 172] /\ from_utf8 [226; 130; 172] = Some [8364].
Proof. done. Qed.
(** A surrogate and an overlong slash. *)
Example rejected : from_utf8 [237; 160; 128] = None /\ from_utf8 [192; 175] = None.
Proof. done. Qed.
