(* ===== verification/Wire.v ===== *)
(** * Codecs

    What the wire formats of the repository share: reading little-endian fields
    back out of a concatenation, and the class of what a message's encoder and
    decoder promise the code that frames and dispatches it. *)
From S2P Require Import Prelude.

#[local] Arguments le_bytes : simpl never.

Lemma le_field_skip n z k a b : (n <= a)%nat ->
  le_field (le_bytes n z ++ k) a b = le_field k (a - n) (b - n).
Proof. intros H. unfold le_field. by rewrite (slice_shift _ _ n) by (rewrite ?length_le_bytes; lia). Qed.

Lemma le_field_skip1 x k a b : (1 <= a)%nat -> le_field ([x] ++ k) a b = le_field k (a - 1) (b - 1).
Proof. intros H. unfold le_field. by rewrite (slice_shift _ _ 1). Qed.

Lemma le_field_here n z k : 0 <= z < 256 ^ Z.of_nat n -> le_field (le_bytes n z ++ k) 0 n = z.
Proof.
  intros H. unfold le_field. rewrite slice_app_l by apply length_le_bytes. by apply of_le_le_bytes.
Qed.

Lemma at0_skip n z k i : (n <= i)%nat -> at0 (le_bytes n z ++ k) i = at0 k (i - n).
Proof. intros H. rewrite at0_app_r; rewrite length_le_bytes; [done|lia]. Qed.

Lemma at0_skip1 x k i : (1 <= i)%nat -> at0 ([x] ++ k) i = at0 k (i - 1).
Proof. intros H. by rewrite at0_app_r. Qed.

Lemma at0_here x k : at0 ([x] ++ k) 0 = x.
Proof. done. Qed.

(** A prefix has the fields that lie inside it. *)
Lemma le_field_take n buf a b : (b <= n)%nat -> le_field (take n buf) a b = le_field buf a b.
Proof.
  intros H. unfold le_field, slice. f_equal. destruct (decide (b <= a)%nat).
  - by replace (b - a)%nat with 0%nat by lia.
  - rewrite !take_drop_commute, take_take. f_equal. f_equal. lia.
Qed.

Lemma at0_take n buf i : (i < n)%nat -> at0 (take n buf) i = at0 buf i.
Proof. intros H. unfold at0. by rewrite lookup_take_lt. Qed.

Lemma drop_field n z k i : (n <= i)%nat -> drop i (le_bytes n z ++ k) = drop (i - n) k.
Proof. intros H. rewrite drop_app_ge; rewrite length_le_bytes; [done|lia]. Qed.

Lemma drop_field1 {A} (x : A) k i : (1 <= i)%nat -> drop i ([x] ++ k) = drop (i - 1) k.
Proof. intros H. by rewrite drop_app_ge. Qed.

Lemma take_len_app {A} (l k : list A) : take (Z.to_nat (len l)) (l ++ k) = l.
Proof. unfold len. rewrite Nat2Z.id. apply take_app_length. Qed.

(** The condition [le_field_here] leaves. *)
Ltac in_range :=
  first [ assumption
        | match goal with H : in_u _ ?z |- 0 <= ?z < _ => exact H end
        | lia ].

(** Reads fields and bytes out of an encoding followed by anything. *)
Ltac read_fields :=
  repeat first
    [ rewrite <- app_assoc | rewrite le_field_here by in_range | rewrite at0_here
    | rewrite drop_0 | rewrite le_field_skip by lia | rewrite le_field_skip1 by lia
    | rewrite at0_skip by lia | rewrite at0_skip1 by lia | rewrite drop_field by lia
    | rewrite drop_field1 by lia | progress cbn [Nat.sub] ].

(** Lengths of concatenated fields. *)
Ltac wire_lens :=
  repeat first [ rewrite len_app in * | rewrite len_le_bytes in * | rewrite len_cons in * | rewrite len_nil in * ].

Lemma len_take_lt {A} (l : list A) n : (n < length l)%nat -> len (take n l) < len l.
Proof. intros H. unfold len. rewrite length_take. lia. Qed.

(** A message type under its tag: the values in range, the value an encoding
    reads back as, the longest encoding, and the laws. *)
Class Codec {K : Type} (tag : K) (A : Type) := {
  wire_encode : A -> option (list Z);
  wire_decode : list Z -> option A;
  wire_ok : A -> Prop;
  wire_norm : A -> A;
  wire_max : Z;
  wire_total a : wire_ok a -> exists buf, wire_encode a = Some buf /\ bytes buf /\ len buf <= wire_max;
  wire_decode_encode a buf rest :
    wire_ok a -> wire_encode a = Some buf -> wire_decode (buf ++ rest) = Some (wire_norm a);
  wire_decode_short a buf n :
    wire_ok a -> wire_encode a = Some buf -> (n < length buf)%nat -> wire_decode (take n buf) = None;
  wire_decode_ok buf a : bytes buf -> wire_decode buf = Some a -> wire_ok a /\ wire_norm a = a
}.

(** A decoded value survives a second trip unchanged. *)
Lemma wire_redecode {K} {tag : K} `{!Codec tag A} buf a :
  bytes buf -> wire_decode buf = Some a ->
  exists buf', wire_encode a = Some buf' /\ wire_decode buf' = Some a.
Proof.
  intros Hb Hd. destruct (wire_decode_ok buf a Hb Hd) as [Ha En].
  destruct (wire_total a Ha) as (buf' & He & _). exists buf'. split; [done|].
  rewrite <- (app_nil_r buf'), (wire_decode_encode a buf' [] Ha He). by rewrite En.
Qed.
