(* ===== verification/Canon.v ===== *)
(** * Canonical JSON of the updater (tools/updater/src/canon.rs)

    The bytes a manifest is signed over. [serde_json]'s number type is a
    parameter with the three accessors the code calls; its [Map] is the list of
    its entries, in any order, with distinct keys. *)
From S2P Require Import Prelude Text.

Inductive Value (Number : Type) : Type :=
| VNull
| VBool (b : bool)
| VNumber (n : Number)
| VString (s : text)
| VArray (items : list (Value Number))
| VObject (map : list (text * Value Number)).
Arguments VNull {Number}.
Arguments VBool {Number} b.
Arguments VNumber {Number} n.
Arguments VString {Number} s.
Arguments VArray {Number} items.
Arguments VObject {Number} map.

(** [ExpectFailed]: the [expect] on [map.get] would panic. *)
Inductive CanonError : Type :=
| NonIntegerNumber (n : text)
| ExpectFailed.

(** ** Writing *)

(** One digit of [{:x}]. *)
Definition hex_digit (n : Z) : Z := if n <? 10 then 48 + n else 87 + n.

Definition escape_char (c : Z) : text :=
  if c =? 34 then [92; 34]
  else if c =? 92 then [92; 92]
  else if c =? 8 then [92; 98]
  else if c =? 12 then [92; 102]
  else if c =? 10 then [92; 110]
  else if c =? 13 then [92; 114]
  else if c =? 9 then [92; 116]
  else if c <? 32 then [92; 117; 48; 48; hex_digit (c / 16); hex_digit (c mod 16)]
  else [c].

Definition write_canonical_string (s : text) : text := 34 :: (s ≫= escape_char) ++ [34].

(** The loops' [if i > 0 { out.push(',') }]. *)
Fixpoint join_commas (parts : list text) : text :=
  match parts with
  | [] => []
  | [t] => t
  | t :: parts => t ++ 44 :: join_commas parts
  end.

(** [?] in a loop: the first error wins. *)
Fixpoint collect {A E} (l : list (result A E)) : result (list A) E :=
  match l with
  | [] => Ok []
  | x :: l => let? a := x in let? rest := collect l in Ok (a :: rest)
  end.

(** [Map::get]. *)
Fixpoint map_get {A} (key : text) (m : list (text * A)) : option A :=
  match m with
  | [] => None
  | (k, a) :: m => if bool_decide (k = key) then Some a else map_get key m
  end.

Section canon.
  Context {Number : Type} (as_u64 as_i64 : Number -> option Z) (number_text : Number -> text).
  Notation value := (Value Number).

Definition write_number (n : Number) : result text CanonError :=
  match as_u64 n with
  | Some u => Ok (dec u)
  | None =>
      match as_i64 n with
      | Some i => Ok (dec i)
      | None => Err (NonIntegerNumber (number_text n))
      end
  end.

Definition write_member (key : text) (r : option (result text CanonError)) : result text CanonError :=
  match r with
  | Some r => let? t := r in Ok (write_canonical_string key ++ 58 :: t)
  | None => Err ExpectFailed
  end.

(** The text pushed for a value. *)
Fixpoint write_canonical (v : value) : result text CanonError :=
  match v with
  | VNull => Ok (lit "null")
  | VBool b => Ok (if b then lit "true" else lit "false")
  | VNumber n => write_number n
  | VString s => Ok (write_canonical_string s)
  | VArray items =>
      let? parts := collect (map write_canonical items) in
      Ok (91 :: join_commas parts ++ [93])
  | VObject m =>
      let written := map (fun kv => (kv.1, write_canonical kv.2)) m in
      let keys := merge_sort text_le (map fst m) in
      let? parts := collect (map (fun key => write_member key (map_get key written)) keys) in
      Ok (123 :: join_commas parts ++ [125])
  end.

Definition canonicalize (v : value) : result text CanonError := write_canonical v.

(** ** What a value says *)

Definition char (c : Z) : Prop := 0 <= c < 1114112.

Inductive wf_value : value -> Prop :=
| wf_null : wf_value VNull
| wf_bool b : wf_value (VBool b)
| wf_number n : wf_value (VNumber n)
| wf_string s : Forall char s -> wf_value (VString s)
| wf_array items : Forall wf_value items -> wf_value (VArray items)
| wf_object m :
    NoDup m.*1 -> Forall (Forall char) m.*1 -> Forall wf_value m.*2 -> wf_value (VObject m).

(** A number is the integer it is exactly, or else its own text. *)
Definition number_value (n : Number) : Z + text :=
  match as_u64 n with
  | Some u => inl u
  | None => match as_i64 n with Some i => inl i | None => inr (number_text n) end
  end.

(** The same JSON value: objects are compared as maps. *)
Inductive value_eq : value -> value -> Prop :=
| eq_null : value_eq VNull VNull
| eq_bool b : value_eq (VBool b) (VBool b)
| eq_number n n' : number_value n = number_value n' -> value_eq (VNumber n) (VNumber n')
| eq_string s : value_eq (VString s) (VString s)
| eq_array l l' : Forall2 value_eq l l' -> value_eq (VArray l) (VArray l')
| eq_object m m' :
    m.*1 ≡ₚ m'.*1 ->
    (forall k a a', map_get k m = Some a -> map_get k m' = Some a' -> value_eq a a') ->
    value_eq (VObject m) (VObject m').

(** Every number below [v] is an integer. *)
Inductive integral : value -> Prop :=
| int_null : integral VNull
| int_bool b : integral (VBool b)
| int_number n z : number_value n = inl z -> integral (VNumber n)
| int_string s : integral (VString s)
| int_array items : Forall integral items -> integral (VArray items)
| int_object m : Forall integral m.*2 -> integral (VObject m).

(** Induction through the nested lists. *)
Definition value_nested_ind (P : value -> Prop)
    (Hnull : P VNull) (Hbool : forall b, P (VBool b)) (Hnum : forall n, P (VNumber n))
    (Hstr : forall s, P (VString s))
    (Harr : forall l, Forall P l -> P (VArray l))
    (Hobj : forall m, Forall (fun kv => P kv.2) m -> P (VObject m)) : forall v, P v :=
  fix F (v : value) : P v :=
    match v return P v with
    | VNull => Hnull
    | VBool b => Hbool b
    | VNumber n => Hnum n
    | VString s => Hstr s
    | VArray l =>
        Harr l ((fix G (l : list value) : Forall P l :=
          match l with
          | [] => List.Forall_nil _
          | x :: l => List.Forall_cons P x l (F x) (G l)
          end) l)
    | VObject m =>
        Hobj m ((fix G (m : list (text * value)) : Forall (fun kv => P kv.2) m :=
          match m with
          | [] => List.Forall_nil _
          | x :: m => List.Forall_cons (fun kv => P kv.2) x m (F x.2) (G m)
          end) m)
    end.

End canon.

(** ** Strings are read back uniquely *)

Lemma hex_digit_inj a b : 0 <= a < 16 -> 0 <= b < 16 -> hex_digit a = hex_digit b -> a = b.
Proof. unfold hex_digit. destruct (Z.ltb_spec a 10), (Z.ltb_spec b 10); lia. Qed.

(** An escaped character: a short escape, a numeric escape, or itself. *)
Lemma escape_char_cases c :
  char c ->
  (exists x, escape_char c = [92; x] /\ x <> 117 /\
     (c, x) ∈ [(34, 34); (92, 92); (8, 98); (12, 102); (10, 110); (13, 114); (9, 116)])
  \/ (c < 32 /\ escape_char c = [92; 117; 48; 48; hex_digit (c / 16); hex_digit (c mod 16)])
  \/ (c <> 34 /\ c <> 92 /\ escape_char c = [c]).
Proof.
  intros _. unfold escape_char.
  destruct (Z.eqb_spec c 34) as [->|]; [left; eexists; split_and!; [done|done|set_solver]|].
  destruct (Z.eqb_spec c 92) as [->|]; [left; eexists; split_and!; [done|done|set_solver]|].
  destruct (Z.eqb_spec c 8) as [->|]; [left; eexists; split_and!; [done|done|set_solver]|].
  destruct (Z.eqb_spec c 12) as [->|]; [left; eexists; split_and!; [done|done|set_solver]|].
  destruct (Z.eqb_spec c 10) as [->|]; [left; eexists; split_and!; [done|done|set_solver]|].
  destruct (Z.eqb_spec c 13) as [->|]; [left; eexists; split_and!; [done|done|set_solver]|].
  destruct (Z.eqb_spec c 9) as [->|]; [left; eexists; split_and!; [done|done|set_solver]|].
  destruct (Z.ltb_spec c 32); [right; left; done|right; right; done].
Qed.

Lemma short_escape_inj c d x :
  (c, x) ∈ [(34, 34); (92, 92); (8, 98); (12, 102); (10, 110); (13, 114); (9, 116)] ->
  (d, x) ∈ [(34, 34); (92, 92); (8, 98); (12, 102); (10, 110); (13, 114); (9, 116)] -> c = d.
Proof.
  intros H K. repeat setoid_rewrite elem_of_cons in H. repeat setoid_rewrite elem_of_cons in K.
  rewrite elem_of_nil in H, K. naive_solver.
Qed.

Lemma escape_char_read c d r s :
  char c -> char d -> escape_char c ++ r = escape_char d ++ s -> c = d /\ r = s.
Proof.
  intros Hc Hd.
  destruct (escape_char_cases c Hc) as [(x & -> & Hx & Ex)|[[Lc ->]|(N1 & N2 & ->)]],
    (escape_char_cases d Hd) as [(y & -> & Hy & Ey)|[[Ld ->]|(M1 & M2 & ->)]]; cbn; intros [=];
    subst; try congruence.
  - split; [by eapply short_escape_inj|done].
  - unfold char in *.
    pose proof (Z_div_mod_eq_full c 16). pose proof (Z_div_mod_eq_full d 16).
    assert (c / 16 = d / 16).
    { apply hex_digit_inj; [split; [apply Z.div_pos|apply Z.div_lt_upper_bound]; lia..|done]. }
    assert (c mod 16 = d mod 16).
    { apply hex_digit_inj; [apply Z.mod_pos_bound; lia..|done]. }
    split; [lia|done].
  - done.
Qed.

Lemma escape_char_head c : char c -> exists x t, escape_char c = x :: t /\ x <> 34.
Proof.
  intros Hc. destruct (escape_char_cases c Hc) as [(x & -> & _)|[[_ ->]|(N & _ & ->)]]; by eauto.
Qed.

Lemma escape_read s t r r' :
  Forall char s -> Forall char t ->
  (s ≫= escape_char) ++ 34 :: r = (t ≫= escape_char) ++ 34 :: r' -> s = t /\ r = r'.
Proof.
  intros Hs. revert t. induction Hs as [|c s Hc Hs IH]; intros [|d t] Ht E; cbn in E.
  - by injection E.
  - inversion Ht; subst. destruct (escape_char_head d) as (x & u & Eu & Hx); [done|].
    rewrite Eu in E. cbn in E. by injection E as <-.
  - destruct (escape_char_head c Hc) as (x & u & Eu & Hx). rewrite Eu in E. cbn in E. by injection E as ->.
  - inversion Ht; subst. rewrite <- !(assoc_L (++)) in E.
    apply escape_char_read in E as [<- E]; [|done..]. by destruct (IH t) as [<- <-].
Qed.

Lemma write_string_read s t r r' :
  Forall char s -> Forall char t ->
  write_canonical_string s ++ r = write_canonical_string t ++ r' -> s = t /\ r = r'.
Proof.
  intros Hs Ht E. unfold write_canonical_string in E. cbn in E. injection E as E.
  rewrite <- !(assoc_L (++)) in E. by apply escape_read in E.
Qed.

(** ** Comma-separated lists are read back uniquely *)

(** What may follow a value inside a text. *)
Definition tail (r : text) : Prop := forall c, head r = Some c -> ~ is_digit c.

Lemma tail_nil : tail [].
Proof. by intros c. Qed.

Lemma tail_cons c r : ~ is_digit c -> tail (c :: r).
Proof. by intros H d [= <-]. Qed.

Section join.
Context {A B : Type} (f : A -> text) (g : B -> text) (Q : A -> B -> Prop) (close : Z).
Context (Hclose : ~ is_digit close) (Hcomma : close <> 44).

Lemma join_commas_read (l : list A) (k : list B) r s :
  (forall a, a ∈ l -> exists c t, f a = c :: t /\ c <> close) ->
  (forall b, b ∈ k -> exists c t, g b = c :: t /\ c <> close) ->
  (forall a b r s, a ∈ l -> b ∈ k -> f a ++ r = g b ++ s -> tail r -> tail s -> Q a b /\ r = s) ->
  join_commas (map f l) ++ close :: r = join_commas (map g k) ++ close :: s ->
  Forall2 Q l k /\ r = s.
Proof.
  assert (H44 : ~ is_digit 44) by (unfold is_digit; lia).
  revert k. induction l as [|a l IH]; intros [|b k] Hf Hg HQ E.
  - cbn in E. injection E as <-. by split.
  - destruct (Hg b) as (c & t & Eb & Hc); [left|]. cbn [map join_commas] in E.
    destruct k; rewrite Eb in E; cbn in E; by injection E as <-.
  - destruct (Hf a) as (c & t & Ea & Hc); [left|]. cbn [map join_commas] in E.
    destruct l; rewrite Ea in E; cbn in E; by injection E as ->.
  - assert (Hhead : forall l (x : text), join_commas (x :: l) =
      x ++ match l with [] => [] | _ => 44 :: join_commas l end).
    { intros [|y l'] x; cbn; by rewrite ?app_nil_r. }
    cbn [map] in E. rewrite !Hhead, <- !(assoc_L (++)) in E.
    apply HQ in E as [HQab E]; [|by left..| |].
    2,3: match goal with |- tail (match ?m with _ => _ end ++ _) => destruct m end; by apply tail_cons.
    destruct l as [|a' l], k as [|b' k]; cbn [map] in E.
    + cbn in E. injection E as <-. by repeat constructor.
    + cbn in E. by injection E as ->.
    + cbn in E. by injection E as <-.
    + cbn [app] in E. injection E as E. apply (IH (b' :: k)) in E as [Hall <-].
      * split; [by constructor|done].
      * intros; apply Hf; by right.
      * intros; apply Hg; by right.
      * intros; eapply HQ; by eauto using list_elem_of_further.
Qed.
End join.

(** ** Collecting results, looking up members *)

Lemma collect_Ok {A E} (l : list (result A E)) ts :
  collect l = Ok ts <-> Forall2 (fun r t => r = Ok t) l ts.
Proof.
  revert ts. induction l as [|r l IH]; intros ts; cbn.
  - split; [by intros [= <-]|]. by inversion 1.
  - destruct r as [a|e]; [|split; [done|by inversion 1]]. split.
    + destruct (collect l) as [rest|e]; [|done]. intros [= <-]. constructor; [done|]. by apply IH.
    + inversion 1 as [|? ? ? ? Ea Hrest]; subst. injection Ea as <-. apply IH in Hrest. by rewrite Hrest.
Qed.

Lemma map_get_map {A B} (f : A -> B) k (m : list (text * A)) :
  map_get k (map (fun kv => (kv.1, f kv.2)) m) = f <$> map_get k m.
Proof. induction m as [|[k' a] m IH]; [done|]. cbn. by case_bool_decide. Qed.

Lemma map_get_Some {A} k (a : A) m : map_get k m = Some a -> (k, a) ∈ m.
Proof.
  induction m as [|[k' a'] m IH]; [done|]. cbn. case_bool_decide as E; [|right; auto].
  subst. intros [= ->]. left.
Qed.

Lemma map_get_is_Some {A} k (m : list (text * A)) : k ∈ m.*1 <-> is_Some (map_get k m).
Proof.
  induction m as [|[k' a'] m IH]; cbn.
  - split; [by intros ?%elem_of_nil|by intros []].
  - rewrite elem_of_cons, IH. case_bool_decide as E; subst.
    + split; eauto.
    + split; [intros [->|?]; done|auto].
Qed.

Lemma map_get_in {A} k (a : A) m : NoDup m.*1 -> (k, a) ∈ m -> map_get k m = Some a.
Proof.
  induction m as [|[k' a'] m IH]; cbn; [by intros _ ?%elem_of_nil|].
  intros [Hk Hm]%NoDup_cons Hin%elem_of_cons.
  case_bool_decide as E; destruct Hin as [Hin|Hin]; simplify_eq; auto.
  destruct Hk. apply list_elem_of_fmap. by exists (k, a).
Qed.

(** ** Values are read back uniquely *)

Lemma write_number_spec {Number} (as_u64 as_i64 : Number -> option Z) number_text n :
  write_number as_u64 as_i64 number_text n =
  match number_value as_u64 as_i64 number_text n with
  | inl z => Ok (dec z)
  | inr t => Err (NonIntegerNumber t)
  end.
Proof. unfold write_number, number_value. destruct (as_u64 n); [done|]. by destruct (as_i64 n). Qed.

Section read.
Context {Number : Type} (as_u64 as_i64 : Number -> option Z) (number_text : Number -> text).
Notation value := (Value Number).
Notation write_canonical := (write_canonical as_u64 as_i64 number_text).
Notation number_value := (number_value as_u64 as_i64 number_text).
Notation value_eq := (value_eq as_u64 as_i64 number_text).
Notation integral := (integral as_u64 as_i64 number_text).

Definition value_kind (v : value) : Z :=
  match v with
  | VNull => 110 | VBool b => if b then 116 else 102 | VNumber _ => 48
  | VString _ => 34 | VArray _ => 91 | VObject _ => 123
  end.

(** What the first character of a value's text says. *)
Definition head_kind (c : Z) : Z := if bool_decide (is_digit c \/ c = 45) then 48 else c.

Lemma write_head v t :
  write_canonical v = Ok t ->
  exists c u, t = c :: u /\ head_kind c = value_kind v /\ c <> 93 /\ c <> 125.
Proof.
  destruct v as [|b|n|str|items|m]; cbn -[collect].
  - intros [= <-]. by eexists _, _.
  - destruct b; intros [= <-]; by eexists _, _.
  - rewrite write_number_spec. destruct (number_value n) as [z|]; [|done]. intros [= <-].
    destruct (dec_head z) as (c & u & -> & Hc). exists c, u. unfold head_kind.
    rewrite bool_decide_true by done. unfold is_digit in Hc. split_and!; [done..|lia|lia].
  - intros [= <-]. by eexists _, _.
  - destruct (collect _); [|done]. intros [= <-]. by eexists _, _.
  - destruct (collect _); [|done]. intros [= <-]. by eexists _, _.
Qed.

Definition sorted_member_keys (m : list (text * value)) : list text := merge_sort text_le (map fst m).

Lemma sorted_member_keys_perm m : sorted_member_keys m ≡ₚ m.*1.
Proof. apply (merge_sort_Permutation text_le). Qed.

Definition value_text (v : value) : text := default [] (ok (write_canonical v)).

Definition member_text (m : list (text * value)) (k : text) : text :=
  write_canonical_string k ++ 58 :: default [] (value_text <$> map_get k m).

Lemma elem_of_sorted_keys' m k : k ∈ sorted_member_keys m <-> is_Some (map_get k m).
Proof. unfold sorted_member_keys. rewrite merge_sort_Permutation. apply map_get_is_Some. Qed.

Lemma value_text_Ok v t : write_canonical v = Ok t -> value_text v = t.
Proof. intros E. unfold value_text. by rewrite E. Qed.

Lemma write_array_Ok items t :
  write_canonical (VArray items) = Ok t ->
  Forall (fun v => write_canonical v = Ok (value_text v)) items /\
  t = 91 :: join_commas (map value_text items) ++ [93].
Proof.
  cbn -[collect]. destruct (collect _) as [parts|] eqn:C; [|done]. intros [= <-].
  apply collect_Ok, Forall2_fmap_l in C.
  assert (Forall (fun v => write_canonical v = Ok (value_text v)) items /\ parts = map value_text items)
    as [? ->]; [|done].
  induction C as [|v u items parts E _ [IH ->]]; [done|].
  split; [constructor; [by rewrite (value_text_Ok v u E)|done]|]. cbn. by rewrite (value_text_Ok v u E).
Qed.

Lemma write_object_Ok m t :
  write_canonical (VObject m) = Ok t ->
  (forall k a, map_get k m = Some a -> write_canonical a = Ok (value_text a)) /\
  t = 123 :: join_commas (map (member_text m) (sorted_member_keys m)) ++ [125].
Proof.
  cbn -[collect]. destruct (collect _) as [parts|] eqn:C; [|done]. intros [= <-].
  apply collect_Ok, Forall2_fmap_l in C. fold (sorted_member_keys m) in C.
  assert (Forall (fun k => forall a, map_get k m = Some a -> write_canonical a = Ok (value_text a))
            (sorted_member_keys m) /\ parts = map (member_text m) (sorted_member_keys m)) as [Hall ->].
  { assert (Hin : forall k, k ∈ sorted_member_keys m -> is_Some (map_get k m))
      by (intros k; apply elem_of_sorted_keys').
    induction C as [|k u keys parts E _ IH]; [done|].
    destruct IH as [IH ->]; [intros; apply Hin; by right|].
    unfold compose in E. rewrite map_get_map in E. destruct (Hin k) as [a Ea]; [left|]. rewrite Ea in E. cbn in E.
    destruct (write_canonical a) as [ta|] eqn:W; [|done]. injection E as <-.
    split.
    - constructor; [|done]. intros a' Ea'. rewrite Ea in Ea'. injection Ea' as <-. by rewrite (value_text_Ok a ta W).
    - cbn. f_equal. unfold member_text. rewrite Ea. cbn. by rewrite (value_text_Ok a ta W). }
  split; [|done]. intros k a Ea. rewrite Forall_forall in Hall. apply (Hall k); [|done].
  apply elem_of_sorted_keys'. eauto.
Qed.

Lemma wf_map_get (m : list (text * value)) k a : wf_value (VObject m) -> map_get k m = Some a -> Forall char k /\ wf_value a.
Proof.
  inversion 1 as [| | | | |? _ Hk Hv]; subst. intros Ea%map_get_Some.
  rewrite Forall_forall in Hk. rewrite Forall_forall in Hv. split.
  - apply Hk, list_elem_of_fmap. by exists (k, a).
  - apply Hv, list_elem_of_fmap. by exists (k, a).
Qed.

Definition reads_back (v : value) : Prop := forall w r s t t',
  wf_value v -> wf_value w -> write_canonical v = Ok t -> write_canonical w = Ok t' ->
  t ++ r = t' ++ s -> tail r -> tail s -> value_eq v w /\ r = s.

Lemma value_text_head v :
  write_canonical v = Ok (value_text v) -> exists c t, value_text v = c :: t /\ c <> 93.
Proof. intros E. destruct (write_head v _ E) as (c & u & -> & _ & ? & ?). by eauto. Qed.

Lemma reads_back_array items : Forall reads_back items -> reads_back (VArray items).
Proof.
  intros IH w r s t t' Hv Hw Ev Ew E _ _.
  destruct (write_head _ _ Ev) as (c & u & -> & Hk & _), (write_head _ _ Ew) as (c' & u' & -> & Hk' & _).
  assert (c = c') as <- by (by injection E). rewrite Hk in Hk'. clear Hk.
  destruct w as [|[]|n|str|items'|m']; try done. clear Hk'.
  destruct (write_array_Ok _ _ Ev) as [Fv Ht], (write_array_Ok _ _ Ew) as [Fw Ht'].
  injection Ht as -> ->. injection Ht' as ->. cbn in E. injection E as E.
  rewrite <- !(assoc_L (++)) in E. inversion Hv as [| | | |? Wv|]; inversion Hw as [| | | |? Ww|]; subst.
  rewrite Forall_forall in IH. rewrite Forall_forall in Fv. rewrite Forall_forall in Fw.
  rewrite Forall_forall in Wv. rewrite Forall_forall in Ww.
  apply (join_commas_read _ _ value_eq) in E as [HF <-]; [split; [by constructor|done]|..].
  - by unfold is_digit; lia.
  - done.
  - intros a Ha. by apply value_text_head, Fv.
  - intros a Ha. by apply value_text_head, Fw.
  - intros a b r1 s1 Ha Hb E1 Hr Hs. by eapply (IH a Ha b); eauto.
Qed.

Lemma reads_back_object m : Forall (fun kv => reads_back kv.2) m -> reads_back (VObject m).
Proof.
  intros IH w r s t t' Hv Hw Ev Ew E _ _.
  destruct (write_head _ _ Ev) as (c & u & -> & Hk & _), (write_head _ _ Ew) as (c' & u' & -> & Hk' & _).
  assert (c = c') as <- by (by injection E). rewrite Hk in Hk'. clear Hk.
  destruct w as [|[]|n|str|items'|m']; try done. clear Hk'.
  destruct (write_object_Ok _ _ Ev) as [Fv Ht], (write_object_Ok _ _ Ew) as [Fw Ht'].
  injection Ht as -> ->. injection Ht' as ->. cbn in E. injection E as E.
  rewrite <- !(assoc_L (++)) in E. rewrite Forall_forall in IH.
  apply (join_commas_read _ _ (fun k k' => k = k' /\ forall a a',
    map_get k m = Some a -> map_get k m' = Some a' -> value_eq a a')) in E as [HF <-].
  - split; [|done].
    assert (sorted_member_keys m = sorted_member_keys m') as Hkeys.
    { clear -HF. induction HF as [|k k' l l' [-> _] _ IH]; [done|]. by rewrite IH. }
    constructor.
    + by rewrite <- (sorted_member_keys_perm m), <- (sorted_member_keys_perm m'), Hkeys.
    + intros k a a' Ea Ea'.
      assert (k ∈ sorted_member_keys m) as [i Hi]%list_elem_of_lookup
        by (apply elem_of_sorted_keys'; eauto).
      destruct (Forall2_lookup_l _ _ _ _ _ HF Hi) as (k' & _ & -> & HQ). eauto.
  - by unfold is_digit; lia.
  - done.
  - intros k _. by eexists _, _.
  - intros k _. by eexists _, _.
  - intros k k' r1 s1 [a Ea]%elem_of_sorted_keys' [a' Ea']%elem_of_sorted_keys' E1 Hr Hs.
    unfold member_text in E1. rewrite Ea, Ea', <- !(assoc_L (++)) in E1.
    destruct (wf_map_get _ _ _ Hv Ea) as [Ck Wa], (wf_map_get _ _ _ Hw Ea') as [Ck' Wa'].
    apply write_string_read in E1 as [<- E1]; [|done..]. cbn in E1. injection E1 as E1.
    destruct (IH (k, a) (map_get_Some _ _ _ Ea) a' r1 s1 _ _ Wa Wa' (Fv _ _ Ea) (Fw _ _ Ea') E1 Hr Hs)
      as [He <-].
    split; [|done]. split; [done|]. intros. by simplify_eq.
Qed.

Lemma reads_back_all v : reads_back v.
Proof.
  induction v as [|b|n|str|items IH|m IH] using value_nested_ind;
    [..|by apply reads_back_array|by apply reads_back_object];
    intros w r s t t' Hv Hw Ev Ew E Tr Ts;
    destruct (write_head _ _ Ev) as (c & u & Et & Hk & _), (write_head _ _ Ew) as (c' & u' & Et' & Hk' & _);
    assert (c = c') as <- by (subst t t'; by injection E); rewrite Hk in Hk'; clear Hk;
    destruct w as [|b'|n'|str'|items'|m'];
    try (cbn in Hk'; repeat match goal with b : bool |- _ => destruct b end; done).
  - cbn in Ev, Ew. simplify_eq. split; [constructor|]. by simplify_list_eq.
  - assert (b = b') as <- by (destruct b, b'; done). split; [constructor|].
    rewrite Ev in Ew. injection Ew as <-. by apply app_inv_head in E.
  - cbn in Ev, Ew. rewrite write_number_spec in Ev, Ew.
    destruct (number_value n) as [z|] eqn:Hz; [|done]. destruct (number_value n') as [z'|] eqn:Hz'; [|done].
    apply Ok_inj in Ev as <-. apply Ok_inj in Ew as <-.
    apply dec_app_inj in E as [<- <-]; [|done..].
    split; [constructor; by rewrite Hz, Hz'|done].
  - clear Et Et'. inversion Hv; inversion Hw; subst. cbn in Ev, Ew. apply Ok_inj in Ev as <-. apply Ok_inj in Ew as <-.
    apply write_string_read in E as [<- <-]; [|done..]. split; [constructor|done].
Qed.
End read.

(** ** Equal values are written equally *)

Lemma merge_sort_keys_perm (l k : list text) : l ≡ₚ k -> merge_sort text_le l = merge_sort text_le k.
Proof.
  intros H. eapply (Sorted_unique text_le); [apply Sorted_merge_sort, _..|].
  by rewrite !merge_sort_Permutation.
Qed.

Section written.
Context {Number : Type} (as_u64 as_i64 : Number -> option Z) (number_text : Number -> text).
Notation value := (Value Number).
Notation write_canonical := (write_canonical as_u64 as_i64 number_text).
Notation value_eq := (value_eq as_u64 as_i64 number_text).
Notation integral := (integral as_u64 as_i64 number_text).

Lemma value_eq_write v : forall w, value_eq v w -> write_canonical v = write_canonical w.
Proof.
  induction v as [|b|n|str|items IH|m IH] using value_nested_ind; intros w E;
    inversion E as [| |? ? En| |? ? El|? m' Ek Ev]; subst; try done; cbn -[collect].
  - by rewrite !write_number_spec, En.
  - replace (map write_canonical l') with (map write_canonical items); [done|].
    clear E. induction El as [|x y l l' Exy _ IHl]; [done|]. inversion IH; subst. cbn. f_equal; auto.
  - rewrite (merge_sort_keys_perm (map fst m) (map fst m')) by done.
    set (keys := merge_sort text_le (map fst m')).
    assert (Hin : forall k, k ∈ keys -> is_Some (map_get k m) /\ is_Some (map_get k m')).
    { intros k Hk. unfold keys in Hk. rewrite merge_sort_Permutation in Hk.
      split; apply map_get_is_Some; [by rewrite Ek|done]. }
    match goal with |- match collect ?p with _ => _ end = match collect ?q with _ => _ end =>
      replace p with q; [done|] end.
    clearbody keys. induction keys as [|k keys IHk]; [done|]. cbn. f_equal; [|apply IHk; intros; apply Hin; by right].
    destruct (Hin k) as [[a Ea] [a' Ea']]; [left|]. rewrite !map_get_map, Ea, Ea'. cbn.
    rewrite Forall_forall in IH. specialize (IH (k, a) (map_get_Some _ _ _ Ea) a' (Ev _ _ _ Ea Ea')).
    cbn in IH. by rewrite IH.
Qed.

(** A value is written exactly when its numbers are integers. *)
Lemma integral_write v :
  wf_value v -> (exists t, write_canonical v = Ok t) <-> integral v.
Proof.
  induction v as [|b|n|str|items IH|m IH] using value_nested_ind; intros Hw; cbn -[collect].
  - split; [constructor|by eauto].
  - split; [constructor|by eauto].
  - rewrite write_number_spec. destruct (number_value _ _ _ n) as [z|u] eqn:E.
    + split; [by econstructor|by eauto].
    + split; [by intros []|]. inversion 1 as [| |? z Ez| | |]; subst. congruence.
  - split; [constructor|by eauto].
  - inversion Hw as [| | | |? Wi|]; subst. split.
    + intros [t Et]. destruct (write_array_Ok _ _ _ items t Et) as [Fi _]. constructor.
      rewrite Forall_forall in IH. rewrite Forall_forall in Fi. rewrite Forall_forall in Wi.
      apply Forall_forall. intros x Hx. apply IH; eauto.
    + inversion 1 as [| | | |? Ii|]; subst.
      assert (exists parts, collect (map write_canonical items) = Ok parts) as [parts ->]; [|by eauto].
      clear Hw H. induction items as [|x items IHi]; [by eexists|].
      inversion IH; inversion Wi; inversion Ii; subst. cbn.
      destruct (proj2 (H1 H5)) as [t ->]; [done|]. destruct IHi as [ts ->]; [done..|]. by eexists.
  - inversion Hw as [| | | | |? Nm Cm Wm]; subst. rewrite Forall_forall in IH. rewrite Forall_fmap in Wm.
    rewrite Forall_forall in Wm. split.
    + intros [t Et]. destruct (write_object_Ok _ _ _ m t Et) as [Fi _]. constructor.
      apply Forall_fmap, Forall_forall. intros [k a] Hx. apply (IH (k, a) Hx); [by apply (Wm (k, a))|].
      eexists. apply (Fi k). by apply map_get_in.
    + inversion 1 as [| | | | |? Im]; subst. rewrite Forall_fmap, Forall_forall in Im.
      set (written := map _ m).
      assert (exists parts, collect (map (fun key => write_member key (map_get key written))
        (merge_sort text_le (map fst m))) = Ok parts) as [parts ->]; [|by eauto].
      assert (Hin : forall k, k ∈ merge_sort text_le (map fst m) -> exists u, map_get k written = Some (Ok u)).
      { intros k Hk. rewrite merge_sort_Permutation in Hk. apply map_get_is_Some in Hk as [a Ea].
        unfold written. rewrite map_get_map, Ea. cbn. apply map_get_Some in Ea.
        destruct (IH (k, a) Ea) as [_ [u Hu]]; [by apply (Wm (k, a))|by apply (Im (k, a))|].
        cbn in Hu. rewrite Hu. by exists u. }
      induction (merge_sort text_le (map fst m)) as [|k keys IHk]; [by eexists|]. cbn.
      destruct (Hin k) as [u ->]; [left|]. destruct IHk as [ts Ets]; [intros; apply Hin; by right|].
      cbn. rewrite Ets. by eexists.
Qed.

(** The [expect] never fires. *)
Lemma write_no_panic v : write_canonical v <> Err ExpectFailed.
Proof.
  induction v as [|b|n|str|items IH|m IH] using value_nested_ind; cbn -[collect]; try done.
  - rewrite write_number_spec. by destruct (number_value _ _ _ n).
  - assert (collect (map write_canonical items) <> Err ExpectFailed) as Hc; [|by destruct (collect _); congruence].
    induction IH as [|x items Hx _ IHi]; [done|]. cbn. destruct (write_canonical x) as [t|e] eqn:Ex; [|by intros [= ->]].
    destruct (collect _) as [ts|e] eqn:E; [done|]. by intros [= ->].
  - rewrite Forall_forall in IH. set (written := map _ m).
    assert (collect (map (fun key => write_member key (map_get key written))
      (merge_sort text_le (map fst m))) <> Err ExpectFailed) as Hc; [|by destruct (collect _); congruence].
    assert (Hin : forall k, k ∈ merge_sort text_le (map fst m) ->
      exists r, map_get k written = Some r /\ r <> Err ExpectFailed).
    { intros k Hk. rewrite merge_sort_Permutation in Hk. apply map_get_is_Some in Hk as [a Ea].
      unfold written. rewrite map_get_map, Ea. eexists. split; [done|].
      apply (IH (k, a)). by apply map_get_Some. }
    induction (merge_sort text_le (map fst m)) as [|k keys IHk]; [done|]. cbn.
    destruct (Hin k) as (r & -> & Hr); [left|]. cbn. destruct r as [t|e]; [|by intros [= ->]].
    destruct (collect _) as [ts|e] eqn:E; [done|]. intros [= ->].
    apply IHk; [|done].
    intros; apply Hin; by right.
Qed.
End written.

(** ** The property *)

(** C19: the canonical text identifies the value: a value is written exactly when
    all its numbers are integers, the [expect] never fires, and two
    well-formed values have the same text exactly when they are the same JSON
    value, whatever the order of the members of their objects. *)
Theorem canonical_form {Number} (as_u64 as_i64 : Number -> option Z) (number_text : Number -> text) v w t :
  wf_value v -> wf_value w -> canonicalize as_u64 as_i64 number_text v = Ok t ->
  (canonicalize as_u64 as_i64 number_text w = Ok t <-> value_eq as_u64 as_i64 number_text v w) /\
  integral as_u64 as_i64 number_text v /\
  (integral as_u64 as_i64 number_text w <->
    exists t', canonicalize as_u64 as_i64 number_text w = Ok t') /\
  (forall x : Value Number, canonicalize as_u64 as_i64 number_text x <> Err ExpectFailed).
Proof.
  unfold canonicalize. intros Hv Hw Et. split_and!.
  - split.
    + intros Et'. apply (reads_back_all as_u64 as_i64 number_text v w [] [] t t); auto using tail_nil.
    + intros E. by rewrite <- (value_eq_write _ _ _ v w E).
  - apply (integral_write as_u64 as_i64 number_text v Hv). eauto.
  - symmetry. by apply integral_write.
  - intros x. apply write_no_panic.
Qed.

(** A number type for examples: an integer, or a text that is not one. *)
Definition ex_u64 (n : Z + text) : option Z :=
  match n with inl z => if (0 <=? z) && (z <=? u64_max) then Some z else None | inr _ => None end.
Definition ex_i64 (n : Z + text) : option Z :=
  match n with
  | inl z => if (-9223372036854775808 <=? z) && (z <=? 9223372036854775807) then Some z else None
  | inr _ => None
  end.
Definition ex_number_text (n : Z + text) : text := match n with inl z => dec z | inr t => t end.

Definition ex_object : Value (Z + text) :=
  VObject [(lit "b", VNumber (inl 12)); (lit "a", VArray [VBool true; VNull])].
Definition ex_object' : Value (Z + text) :=
  VObject [(lit "a", VArray [VBool true; VNull]); (lit "b", VNumber (inl 12))].

Lemma ex_object_wf : wf_value ex_object /\ wf_value ex_object'.
Proof.
  assert (Ha : Forall char (lit "a")) by by_decide. assert (Hb : Forall char (lit "b")) by by_decide.
  split; constructor; cbn; repeat constructor; try done; try by_decide.
  all: by rewrite ?elem_of_cons, ?elem_of_nil; intros [].
Qed.

Lemma canonical_form_witness :
  canonicalize ex_u64 ex_i64 ex_number_text ex_object' =
    Ok (lit "{" ++ 34 :: lit "a" ++ 34 :: lit ":[true,null]," ++ 34 :: lit "b" ++ 34 :: lit ":12}") /\
  value_eq ex_u64 ex_i64 ex_number_text ex_object ex_object'.
Proof.
  split; [reflexivity|].
  assert (Et : canonicalize ex_u64 ex_i64 ex_number_text ex_object' =
    canonicalize ex_u64 ex_i64 ex_number_text ex_object) by reflexivity.
  destruct (canonicalize ex_u64 ex_i64 ex_number_text ex_object) as [t|] eqn:E; [|discriminate E].
  apply (canonical_form ex_u64 ex_i64 ex_number_text ex_object ex_object' t); [apply ex_object_wf..|exact E|exact Et].
Defined.
