(* ===== verification/Manifest.v ===== *)
(** * Signed manifests and staged sets (tools/updater/src/manifest.rs, verify.rs)

    A manifest lists the files of one release; a staged directory is installed
    only after its manifest and every file have been verified. Parameters:
    [serde_json] numbers, Ed25519, SHA-256 and hex (third-party crates), and
    what the operating system takes for a path separator. *)
From S2P Require Import Prelude Text Canon.

Definition FEC_PROTOCOL_VERSION : Z := 2.
Definition CONNECTION_TERMINATED_CODE_TABLE_VERSION : Z := 1.
Definition MANIFEST_FILE_NAME : text := lit "manifest.json".

Inductive Role : Type := RClient | RHost | RShared.

Record ComponentEntry := mkComponent {
  name : text;
  role : Role;
  sha256 : text;
  size : Z
}.

Record ProtocolVersions := mkProtocol {
  fec : Z;
  connection_terminated_codes : Z
}.

Definition protocol_default : ProtocolVersions :=
  mkProtocol FEC_PROTOCOL_VERSION CONNECTION_TERMINATED_CODE_TABLE_VERSION.

Record Manifest := mkManifest {
  set_version : text;
  protocol : ProtocolVersions;
  components : list ComponentEntry;
  signing_key_id : text
}.

Record SignedManifest := mkSigned {
  manifest : Manifest;
  signature : text
}.

#[export] Instance Role_eq_dec : EqDecision Role.
Proof. solve_decision. Defined.
#[export] Instance ComponentEntry_eq_dec : EqDecision ComponentEntry.
Proof. solve_decision. Defined.
#[export] Instance ProtocolVersions_eq_dec : EqDecision ProtocolVersions.
Proof. solve_decision. Defined.
#[export] Instance Manifest_eq_dec : EqDecision Manifest.
Proof. solve_decision. Defined.

Inductive VerifyError : Type :=
| BadSignature
| MalformedSignature
| MixedVersionSet (n : text)
| ProtocolMismatch (m running : ProtocolVersions)
| MissingComponent (n : text)
| SizeMismatch (n : text) (expected actual : Z)
| HashMismatch (n : text)
| Canonicalization (e : CanonError)
| UnlistedFile (n : text)
| EnumerationFailed
| UnsafeComponentName (n : text).

(** ** Checks on the manifest alone *)

Definition consistent_step (seen : gmap text (text * Z)) (c : ComponentEntry) :
    result (gmap text (text * Z)) VerifyError :=
  match seen !! name c with
  | Some (sha, sz) =>
      if negb (bool_decide (sha = sha256 c)) || negb (sz =? size c) then Err (MixedVersionSet (name c))
      else Ok (<[name c := (sha256 c, size c)]> seen)
  | None => Ok (<[name c := (sha256 c, size c)]> seen)
  end.

Fixpoint check_consistent (seen : gmap text (text * Z)) (cs : list ComponentEntry) : result unit VerifyError :=
  match cs with
  | [] => Ok tt
  | c :: cs => let? seen := consistent_step seen c in check_consistent seen cs
  end.

Definition check_internally_consistent (m : Manifest) : result unit VerifyError :=
  check_consistent ∅ (components m).

Definition check_protocol_compatible (m : Manifest) (running : ProtocolVersions) : result unit VerifyError :=
  if negb (fec (protocol m) =? fec running)
     || negb (connection_terminated_codes (protocol m) =? connection_terminated_codes running)
  then Err (ProtocolMismatch (protocol m) running)
  else Ok tt.

Definition slash : Z := 47.
Definition backslash : Z := 92.
Definition is_slash (c : Z) : bool := (c =? slash) || (c =? backslash).
Definition dotdot : text := lit "..".

(** [name.get(1..2) == Some(":")]: a one-byte character, then a colon. *)
Definition drive_prefix (n : text) : bool :=
  match n with
  | c :: d :: _ => (c <? 128) && (d =? 58)
  | _ => false
  end.

Definition starts_with (c : Z) (n : text) : bool :=
  match n with d :: _ => d =? c | [] => false end.

Definition validate_component_name (n : text) : result unit VerifyError :=
  let is_absolute := starts_with slash n || starts_with backslash n || drive_prefix n in
  let has_parent_segment := existsb (fun seg => bool_decide (seg = dotdot)) (split_on is_slash n) in
  if is_absolute || has_parent_segment then Err (UnsafeComponentName n) else Ok tt.

(** ** The staged directory *)

(** A directory lists its entries in the order [read_dir] yields them. *)
Inductive node : Type :=
| NFile (content : list Z)
| NDir (entries : list (text * node)).

(** [replace('\\', "/")]. *)
Definition fix_slashes (s : text) : text := map (fun c => if c =? backslash then slash else c) s.

Fixpoint entry_get (n : text) (entries : list (text * node)) : option node :=
  match entries with
  | [] => None
  | (k, x) :: entries => if bool_decide (k = n) then Some x else entry_get n entries
  end.

(** What the operating system finds at a relative path without [..]: empty and
    [.] segments stay in a directory, and no segment leads out of a file. *)
Fixpoint resolve (segs : list text) (x : node) : option node :=
  match segs with
  | [] => Some x
  | seg :: segs =>
      match x with
      | NFile _ => None
      | NDir entries =>
          if bool_decide (seg = []) || bool_decide (seg = lit ".") then resolve segs x
          else match entry_get seg entries with Some y => resolve segs y | None => None end
      end
  end.

(** The order [sort_by] gives components. *)
Definition name_le (a b : ComponentEntry) : Prop := text_le (name a) (name b).

#[export] Instance name_le_dec a b : Decision (name_le a b) := ltac:(unfold name_le; apply _).

Section verify.
  Context {Number : Type} (as_u64 as_i64 : Number -> option Z) (number_text : Number -> text).
  (** [serde_json::Number] of an unsigned integer. *)
  Context (number_of : Z -> Number).
  Context {Key SigningKey : Type}.
  (** [hex::decode]/[encode], [VerifyingKey::verify], [SigningKey::sign],
      SHA-256 in lowercase hex. *)
  Context (hex_decode : text -> option (list Z)) (hex_encode : list Z -> text).
  Context (ed_verify : Key -> text -> list Z -> bool) (ed_sign : SigningKey -> text -> list Z).
  Context (sha256_hex : list Z -> text).
  (** The path separators, and what [metadata().len()] gives for a directory. *)
  Context (is_sep : Z -> bool) (dir_len : Z).

(** ** The manifest as [serde] serializes it *)

Definition role_value (r : Role) : Value Number :=
  VString (match r with RClient => lit "client" | RHost => lit "host" | RShared => lit "shared" end).

Definition component_value (c : ComponentEntry) : Value Number :=
  VObject [(lit "name", VString (name c)); (lit "role", role_value (role c));
           (lit "sha256", VString (sha256 c)); (lit "size", VNumber (number_of (size c)))].

Definition protocol_value (p : ProtocolVersions) : Value Number :=
  VObject [(lit "fec", VNumber (number_of (fec p)));
           (lit "connection_terminated_codes", VNumber (number_of (connection_terminated_codes p)))].

Definition manifest_value (m : Manifest) : Value Number :=
  VObject [(lit "set_version", VString (set_version m)); (lit "protocol", protocol_value (protocol m));
           (lit "components", VArray (map component_value (components m)));
           (lit "signing_key_id", VString (signing_key_id m))].

Definition canonical_bytes (m : Manifest) : result text VerifyError :=
  match canonicalize as_u64 as_i64 number_text (manifest_value m) with
  | Ok s => Ok s
  | Err e => Err (Canonicalization e)
  end.

Definition sign (m : Manifest) (k : SigningKey) : result SignedManifest VerifyError :=
  let? bytes := canonical_bytes m in
  Ok (mkSigned m (hex_encode (ed_sign k bytes))).

Definition verify_signature (signed : SignedManifest) (trust_root : Key) : result unit VerifyError :=
  match hex_decode (signature signed) with
  | None => Err MalformedSignature
  | Some sig_bytes =>
      if negb (len sig_bytes =? 64) then Err MalformedSignature
      else
        let? bytes := canonical_bytes (manifest signed) in
        if ed_verify trust_root bytes sig_bytes then Ok tt else Err BadSignature
  end.

(** ** Files *)

Definition metadata_len (x : node) : Z :=
  match x with NFile content => len content | NDir _ => dir_len end.

(** [sha256_file]: reading a directory is an error. *)
Definition sha256_file (x : node) : option text :=
  match x with NFile content => Some (sha256_hex content) | NDir _ => None end.

Definition verify_component_file (staged : node) (n expected_sha256 : text) (expected_size : Z) :
    result unit VerifyError :=
  match resolve (split_on is_sep n) staged with
  | None => Err (MissingComponent n)
  | Some x =>
      let actual_size := metadata_len x in
      if negb (actual_size =? expected_size) then Err (SizeMismatch n expected_size actual_size)
      else
        match sha256_file x with
        | None => Err (MissingComponent n)
        | Some actual_hash =>
            if negb (eq_ignore_ascii_case actual_hash expected_sha256) then Err (HashMismatch n)
            else Ok tt
        end
  end.

(** One entry of a directory: a subdirectory goes on the stack, a file must be
    listed. [prefix] is the directory's path below the staged root. *)
Definition child_path (prefix n : text) : text :=
  match prefix with [] => n | _ => prefix ++ slash :: n end.

Definition scan_entry (listed : gset text) (prefix : text) (stack : list (text * list (text * node)))
    (e : text * node) : result (list (text * list (text * node))) VerifyError :=
  let path := child_path prefix e.1 in
  match e.2 with
  | NDir entries => Ok ((path, entries) :: stack)
  | NFile _ =>
      let rel := fix_slashes path in
      if bool_decide (rel = MANIFEST_FILE_NAME) then Ok stack
      else if bool_decide (rel ∈ listed) then Ok stack
      else Err (UnlistedFile rel)
  end.

Fixpoint scan_entries (listed : gset text) (prefix : text) (es : list (text * node))
    (stack : list (text * list (text * node))) : result (list (text * list (text * node))) VerifyError :=
  match es with
  | [] => Ok stack
  | e :: es => let? stack := scan_entry listed prefix stack e in scan_entries listed prefix es stack
  end.

(** [while let Some(dir) = stack.pop()]; the head of the list is the top. *)
Definition walk_body (listed : gset text) (stack : list (text * list (text * node))) :
    list (text * list (text * node)) + result unit VerifyError :=
  match stack with
  | [] => inr (Ok tt)
  | (prefix, entries) :: stack =>
      match scan_entries listed prefix entries stack with
      | Ok stack => inl stack
      | Err e => inr (Err e)
      end
  end.

Fixpoint dir_count (x : node) : nat :=
  match x with
  | NFile _ => 0
  | NDir entries => S (list_sum (map (fun e => dir_count e.2) entries))
  end.

Definition listed_names (m : Manifest) : gset text :=
  list_to_set (map (fun c => fix_slashes (name c)) (components m)).

(** [None]: the walk ran out of fuel. A staged path that is missing is an empty
    walk, one that is a file cannot be read as a directory. *)
Definition check_no_unlisted_files (staged : option node) (m : Manifest) : option (result unit VerifyError) :=
  match staged with
  | None => Some (Ok tt)
  | Some (NFile _) => Some (Err EnumerationFailed)
  | Some (NDir entries) =>
      loop_fuel (S (dir_count (NDir entries))) (walk_body (listed_names m)) [([], entries)]
  end.

Definition check_component (staged : option node) (c : ComponentEntry) : result unit VerifyError :=
  let? _u := validate_component_name (name c) in
  match staged with
  | None => Err (MissingComponent (name c))
  | Some x => verify_component_file x (name c) (sha256 c) (size c)
  end.

Fixpoint check_components (staged : option node) (cs : list ComponentEntry) : result unit VerifyError :=
  match cs with
  | [] => Ok tt
  | c :: cs => let? _u := check_component staged c in check_components staged cs
  end.

Definition verify_staged_set (staged : option node) (signed : SignedManifest) (trust_root : Key)
    (running : ProtocolVersions) : option (result unit VerifyError) :=
  let m := manifest signed in
  match
    let? _u := verify_signature signed trust_root in
    let? _v := check_internally_consistent m in
    let? _w := check_protocol_compatible m running in
    check_components staged (components m)
  with
  | Err e => Some (Err e)
  | Ok _ => check_no_unlisted_files staged m
  end.

(** ** The [sign] command (main.rs [run_sign]) *)

Inductive SignError : Type :=
| EmptySpec
| SpecEntry (e : VerifyError)
| StatFailed (n : text)
| HashFailed (n : text)
| SigningFailed (e : VerifyError).

Definition spec_component (staged : node) (entry : text * Role) : result ComponentEntry SignError :=
  match validate_component_name entry.1 with
  | Err e => Err (SpecEntry e)
  | Ok _ =>
      match resolve (split_on is_sep entry.1) staged with
      | None => Err (StatFailed entry.1)
      | Some x =>
          match sha256_file x with
          | None => Err (HashFailed entry.1)
          | Some hash => Ok (mkComponent entry.1 entry.2 hash (metadata_len x))
          end
      end
  end.

Definition run_sign (staged : node) (spec : list (text * Role)) (version key_id : text) (k : SigningKey) :
    result SignedManifest SignError :=
  match spec with
  | [] => Err EmptySpec
  | _ =>
      let? cs := collect (map (spec_component staged) spec) in
      let m := mkManifest version protocol_default (merge_sort name_le cs) key_id in
      match sign m k with Ok s => Ok s | Err e => Err (SigningFailed e) end
  end.

End verify.
