(* ===== verification/ManifestSafe.v ===== *)
(** * What a verified set guarantees (about Manifest)

    The manifest's bytes determine the manifest; the walk of the staged
    directory terminates and visits every file; a verified directory holds no file
    but those its manifest lists, names being read with backslashes as slashes; a safe
    name stays below the root. *)
From S2P Require Import Prelude Text Canon Manifest.

(** ** The canonical bytes determine the manifest *)

Definition wf_component (c : ComponentEntry) : Prop :=
  Forall char (name c) /\ Forall char (sha256 c) /\ in_u64 (size c).

Definition wf_manifest (m : Manifest) : Prop :=
  Forall char (set_version m) /\ Forall char (signing_key_id m) /\
  in_u32 (fec (protocol m)) /\ in_u32 (connection_terminated_codes (protocol m)) /\
  Forall wf_component (components m).

Section bytes.
Context {Number : Type} (as_u64 as_i64 : Number -> option Z) (number_text : Number -> text).
Context (number_of : Z -> Number).
(** [Number::from(u64)] is read back by [as_u64]. *)
Context (number_of_u64 : forall z, in_u64 z -> as_u64 (number_of z) = Some z).
Notation canonical_bytes := (canonical_bytes as_u64 as_i64 number_text number_of).
Notation manifest_value := (manifest_value number_of).
Notation component_value := (component_value number_of).
Notation value_eq := (value_eq as_u64 as_i64 number_text).

Lemma wf_object_lits (m : list (string * Value Number)) :
  NoDup m.*1 -> Forall (fun kv => Forall char (lit kv.1)) m -> Forall (fun kv => wf_value kv.2) m ->
  wf_value (VObject (map (fun kv => (lit kv.1, kv.2)) m)).
Proof.
  intros Hn Hc Hv. constructor.
  - replace (_.*1) with (lit <$> m.*1) by (clear; induction m as [|kv m IH]; cbn; [done|by f_equal]).
    apply NoDup_fmap_2; [|done]. intros s t E. unfold lit in E.
    apply list_fmap_eq_inj in E; [|intros a b Eab; apply N2Z.inj in Eab; by rewrite <- (Ascii.ascii_N_embedding a), Eab, Ascii.ascii_N_embedding].
    by rewrite <- (String.string_of_list_ascii_of_string s), E, String.string_of_list_ascii_of_string.
  - rewrite !Forall_fmap. done.
  - rewrite !Forall_fmap. done.
Qed.

Lemma wf_component_value c : wf_component c -> wf_value (component_value c).
Proof.
  intros (Hn & Hs & _).
  apply (wf_object_lits [("name", VString (name c)); ("role", role_value (role c));
    ("sha256", VString (sha256 c)); ("size", VNumber (number_of (size c)))]%string).
  - by_decide.
  - repeat constructor; by_decide.
  - repeat constructor; try done. destruct (role c); by_decide.
Qed.

Lemma wf_manifest_value m : wf_manifest m -> wf_value (manifest_value m).
Proof.
  intros (Hv & Hk & _ & _ & Hc).
  apply (wf_object_lits [("set_version", VString (set_version m));
    ("protocol", protocol_value number_of (protocol m));
    ("components", VArray (map component_value (components m)));
    ("signing_key_id", VString (signing_key_id m))]%string).
  - by_decide.
  - repeat constructor; by_decide.
  - constructor; [by constructor|]. constructor; [|constructor; [|by repeat constructor]].
    + apply (wf_object_lits [("fec", VNumber (number_of (fec (protocol m))));
        ("connection_terminated_codes", VNumber (number_of (connection_terminated_codes (protocol m))))]%string).
      * by_decide.
      * repeat constructor; by_decide.
      * repeat constructor.
    + cbn. constructor. apply Forall_fmap. eapply Forall_impl; [exact Hc|]. apply wf_component_value.
Qed.

(** Equal objects agree member by member. *)
Lemma value_eq_get m m' k a a' :
  value_eq (VObject m) (VObject m') -> map_get k m = Some a -> map_get k m' = Some a' -> value_eq a a'.
Proof. inversion 1; eauto. Qed.

Lemma value_eq_string s s' : value_eq (VString s) (VString s') -> s = s'.
Proof. by inversion 1. Qed.

Lemma value_eq_number a b :
  in_u64 a -> in_u64 b -> value_eq (VNumber (number_of a)) (VNumber (number_of b)) -> a = b.
Proof.
  intros Ha Hb. inversion 1 as [| |? ? E| | |]; subst. unfold number_value in E.
  rewrite !number_of_u64 in E by done. by injection E.
Qed.

Lemma component_value_inj c c' :
  wf_component c -> wf_component c' -> value_eq (component_value c) (component_value c') -> c = c'.
Proof.
  intros (_ & _ & Hs) (_ & _ & Hs') E.
  assert (En : name c = name c') by (by apply value_eq_string, (value_eq_get _ _ (lit "name") _ _ E)).
  assert (Eh : sha256 c = sha256 c') by (by apply value_eq_string, (value_eq_get _ _ (lit "sha256") _ _ E)).
  assert (Ez : size c = size c') by (by apply value_eq_number, (value_eq_get _ _ (lit "size") _ _ E)).
  assert (Er : role c = role c').
  { assert (Er : value_eq (role_value (role c)) (role_value (role c')))
      by (by apply (value_eq_get _ _ (lit "role") _ _ E)).
    apply value_eq_string in Er. by destruct (role c), (role c'). }
  destruct c, c'; cbn in *. by subst.
Qed.

Lemma manifest_value_inj m m' :
  wf_manifest m -> wf_manifest m' -> value_eq (manifest_value m) (manifest_value m') -> m = m'.
Proof.
  intros (_ & _ & F & C & Hc) (_ & _ & F' & C' & Hc') E.
  assert (Ev : set_version m = set_version m')
    by (by apply value_eq_string, (value_eq_get _ _ (lit "set_version") _ _ E)).
  assert (Ek : signing_key_id m = signing_key_id m')
    by (by apply value_eq_string, (value_eq_get _ _ (lit "signing_key_id") _ _ E)).
  assert (Ep : value_eq (protocol_value number_of (protocol m)) (protocol_value number_of (protocol m')))
    by (by apply (value_eq_get _ _ (lit "protocol") _ _ E)).
  assert (Ea : value_eq (VArray (map component_value (components m))) (VArray (map component_value (components m'))))
    by (by apply (value_eq_get _ _ (lit "components") _ _ E)).
  assert (H32 : forall z, in_u32 z -> in_u64 z) by (unfold in_u; lia).
  assert (Ef : fec (protocol m) = fec (protocol m'))
    by (apply value_eq_number; [auto..|by apply (value_eq_get _ _ (lit "fec") _ _ Ep)]).
  assert (Ec : connection_terminated_codes (protocol m) = connection_terminated_codes (protocol m'))
    by (apply value_eq_number; [auto..|by apply (value_eq_get _ _ (lit "connection_terminated_codes") _ _ Ep)]).
  assert (El : components m = components m').
  { inversion Ea as [| | | |? ? El|]; subst. clear -El Hc Hc' number_of_u64.
    apply (Forall2_fmap component_value component_value) in El. revert El Hc Hc'. generalize (components m), (components m').
    intros l0 k0 El. induction El as [|c c' l l' Ecc _ IH]; intros Hc Hc'; [done|].
    inversion Hc; inversion Hc'; subst. f_equal; [by apply component_value_inj|auto]. }
  destruct m as [? [] ? ?], m' as [? [] ? ?]; cbn in *. by subst.
Qed.

Lemma canonical_bytes_inj m m' t :
  wf_manifest m -> wf_manifest m' -> canonical_bytes m = Ok t -> canonical_bytes m' = Ok t -> m = m'.
Proof.
  unfold Manifest.canonical_bytes. intros Hm Hm' E E'. apply manifest_value_inj; [done..|].
  destruct (canonicalize _ _ _ (manifest_value m)) as [s|] eqn:W; [|done].
  destruct (canonicalize _ _ _ (manifest_value m')) as [s'|] eqn:W'; [|done].
  apply Ok_inj in E as ->. apply Ok_inj in E' as ->.
  apply (reads_back_all as_u64 as_i64 number_text _ _ [] [] t t);
    auto using tail_nil, wf_manifest_value.
Qed.

Lemma integral_number z : in_u64 z -> integral as_u64 as_i64 number_text (VNumber (number_of z)).
Proof. intros Hz. econstructor. unfold number_value. by rewrite number_of_u64. Qed.

Lemma manifest_canonical m : wf_manifest m -> exists t, canonical_bytes m = Ok t.
Proof.
  intros Hm. unfold Manifest.canonical_bytes.
  destruct (proj2 (integral_write as_u64 as_i64 number_text (manifest_value m) (wf_manifest_value m Hm)))
    as [t E]; [|exists t; unfold canonicalize; by rewrite E].
  destruct Hm as (_ & _ & F & C & Hc).
  assert (H32 : forall z, in_u32 z -> in_u64 z) by (unfold in_u; lia).
  assert (Hobj : forall m : list (text * Value Number),
    Forall (fun kv => integral as_u64 as_i64 number_text kv.2) m ->
    integral as_u64 as_i64 number_text (VObject m)) by (intros l H; constructor; by apply Forall_fmap).
  repeat (apply Hobj || apply List.Forall_cons || apply List.Forall_nil); cbn [fst snd];
    try constructor; try (by apply integral_number, H32).
  apply Forall_fmap. eapply Forall_impl; [exact Hc|]. intros c (_ & _ & Hs). apply Hobj.
  repeat (apply List.Forall_cons || apply List.Forall_nil); cbn [fst snd]; try constructor.
  by apply integral_number.
Qed.
End bytes.

(** ** Trees and paths *)

Definition node_nested_ind (P : node -> Prop)
    (Hfile : forall c, P (NFile c))
    (Hdir : forall es, Forall (fun e => P e.2) es -> P (NDir es)) : forall x, P x :=
  fix F (x : node) : P x :=
    match x with
    | NFile c => Hfile c
    | NDir es =>
        Hdir es ((fix G (es : list (text * node)) : Forall (fun e => P e.2) es :=
          match es with
          | [] => List.Forall_nil _
          | e :: es => List.Forall_cons (fun e => P e.2) e es (F e.2) (G es)
          end) es)
    end.

(** A name a directory can hold; neither separator occurs in it. *)
Definition valid_name (n : text) : Prop :=
  n <> [] /\ n <> lit "." /\ n <> dotdot /\ Forall (fun c => is_slash c = false) n.

#[export] Instance valid_name_dec n : Decision (valid_name n) := ltac:(unfold valid_name; apply _).

Inductive wf_tree : node -> Prop :=
| wf_file c : wf_tree (NFile c)
| wf_dir es :
    NoDup es.*1 -> Forall valid_name es.*1 -> Forall wf_tree es.*2 -> wf_tree (NDir es).

(** The files of a tree, by the segments of their paths. *)
Fixpoint tree_files (x : node) : list (list text * list Z) :=
  match x with
  | NFile c => [([], c)]
  | NDir es => concat (map (fun e => map (fun f => (e.1 :: f.1, f.2)) (tree_files e.2)) es)
  end.

Definition path_text (segs : list text) : text := foldl child_path [] segs.

Lemma elem_of_tree_files_dir es p c :
  (p, c) ∈ tree_files (NDir es) <->
  exists n y q, (n, y) ∈ es /\ p = n :: q /\ (q, c) ∈ tree_files y.
Proof.
  cbn. rewrite list_elem_of_In, in_concat. split.
  - intros (l & Hl & Hp). apply in_map_iff in Hl as ([n y] & <- & Hin).
    apply in_map_iff in Hp as ([q c'] & Heq & Hq). simplify_eq/=.
    exists n, y, q. by rewrite !list_elem_of_In.
  - intros (n & y & q & Hin & -> & Hq). rewrite list_elem_of_In in Hin. rewrite list_elem_of_In in Hq. eexists. split.
    + apply in_map_iff. exists (n, y). by split.
    + apply in_map_iff. exists (q, c). by split.
Qed.

Lemma entry_get_in n y es : NoDup es.*1 -> (n, y) ∈ es -> entry_get n es = Some y.
Proof.
  induction es as [|[k x] es IH]; cbn; [by intros _ ?%elem_of_nil|].
  intros [Hk Hes]%NoDup_cons Hin%elem_of_cons.
  case_bool_decide as E; destruct Hin as [Hin|Hin]; simplify_eq; auto.
  destruct Hk. apply list_elem_of_fmap. by exists (n, y).
Qed.

Lemma tree_files_resolve x : wf_tree x -> forall p c, (p, c) ∈ tree_files x ->
  resolve p x = Some (NFile c) /\ Forall valid_name p.
Proof.
  induction x as [c0|es IH] using node_nested_ind; intros Hw p c Hp.
  - cbn in Hp. apply list_elem_of_singleton in Hp. by simplify_eq.
  - inversion Hw as [|? Hn Hv Hc]; subst. apply elem_of_tree_files_dir in Hp as (n & y & q & Hin & -> & Hq).
    rewrite Forall_fmap in Hv. rewrite Forall_fmap in Hc. rewrite Forall_forall in IH. rewrite Forall_forall in Hv.
    rewrite Forall_forall in Hc. destruct (IH _ Hin (Hc _ Hin) q c Hq) as [Hr Hq'].
    pose proof (Hv _ Hin) as Hvn. cbn in Hvn. split; [|by constructor].
    destruct Hvn as (N1 & N2 & _). cbn. rewrite !bool_decide_false by done. cbn.
    by rewrite (entry_get_in n y).
Qed.

Lemma path_text_snoc segs n : path_text (segs ++ [n]) = child_path (path_text segs) n.
Proof. unfold path_text. by rewrite foldl_app. Qed.

Lemma path_text_nonempty segs : segs <> [] -> Forall valid_name segs -> path_text segs <> [].
Proof.
  destruct segs as [|n segs _] using rev_ind; [done|]. intros _ [_ Hn]%Forall_app.
  rewrite path_text_snoc. inversion Hn as [|? ? (N & _) _]; subst. unfold child_path.
  destruct (path_text segs); [done|]. by destruct n.
Qed.

(** ** Splitting is the inverse of joining *)

Lemma split_on_nonempty p s : split_on p s <> [].
Proof. destruct s as [|c s]; cbn; [done|]. destruct (p c); [done|]. by destruct (split_on p s). Qed.

Lemma split_on_one p s : Forall (fun c => p c = false) s -> split_on p s = [s].
Proof. induction 1 as [|c s Hc _ IH]; [done|]. cbn. by rewrite Hc, IH. Qed.

Lemma split_on_sep p s d t : p d = true -> split_on p (s ++ d :: t) = split_on p s ++ split_on p t.
Proof.
  intros Hd. induction s as [|c s IH]; cbn; [by rewrite Hd|].
  destruct (p c); [by rewrite IH|]. rewrite IH.
  pose proof (split_on_nonempty p s). by destruct (split_on p s).
Qed.

Lemma split_on_ext p q s : Forall (fun c => p c = q c) s -> split_on p s = split_on q s.
Proof. induction 1 as [|c s Hc _ IH]; [done|]. cbn. by rewrite Hc, IH. Qed.

Lemma split_path_text segs :
  segs <> [] -> Forall valid_name segs -> split_on is_slash (path_text segs) = segs.
Proof.
  induction segs as [|n segs IH] using rev_ind; [done|]. intros _ [Hs Hn]%Forall_app.
  inversion Hn as [|? ? (N & _ & _ & Hc) _]; subst. rewrite path_text_snoc.
  destruct (decide (segs = [])) as [->|Hne]; [by apply split_on_one|].
  unfold child_path. destruct (path_text segs) as [|c t] eqn:E; [by apply path_text_nonempty in E|].
  rewrite split_on_sep by done. rewrite IH by done. by rewrite split_on_one.
Qed.

(** The pieces between slashes are not changed by turning the backslashes. *)
Lemma split_fix_slashes s : split_on is_slash (fix_slashes s) = split_on is_slash s.
Proof.
  induction s as [|c s IH]; [done|]. cbn. fold (fix_slashes s).
  destruct (Z.eqb_spec c backslash) as [->|]; by rewrite IH.
Qed.

(** ** The walk *)

Lemma fix_slashes_path segs : Forall valid_name segs -> fix_slashes (path_text segs) = path_text segs.
Proof.
  assert (Hid : forall n, valid_name n -> fix_slashes n = n).
  { intros n (_ & _ & _ & Hn). induction Hn as [|c n Hc _ IH]; [done|]. cbn. fold (fix_slashes n).
    rewrite IH. unfold is_slash in Hc. apply orb_false_iff in Hc as [_ Hc]. by rewrite Hc. }
  induction segs as [|n segs IH] using rev_ind; [done|]. intros [Hs Hn]%Forall_app.
  inversion Hn as [|? ? Hv _]; subst. rewrite path_text_snoc. unfold child_path.
  specialize (IH Hs). destruct (path_text segs) as [|c t]; [by apply Hid|].
  unfold fix_slashes in *. rewrite map_app, IH. f_equal. cbn. f_equal. by apply Hid.
Qed.

Section walk.
Context (listed : gset text).

Definition path_listed (p : text) : Prop :=
  fix_slashes p = MANIFEST_FILE_NAME \/ fix_slashes p ∈ listed.

(** Every file below a directory whose path is [prefix]. *)
Fixpoint subtree_listed (prefix : text) (x : node) : Prop :=
  match x with
  | NFile _ => path_listed prefix
  | NDir es => foldr (fun e P => subtree_listed (child_path prefix e.1) e.2 /\ P) True es
  end.

Definition entries_listed (d : text * list (text * node)) : Prop := subtree_listed d.1 (NDir d.2).

Definition stack_dirs (stack : list (text * list (text * node))) : nat :=
  list_sum (map (fun d => dir_count (NDir d.2)) stack).

Lemma dirs_cons n x (es : list (text * node)) :
  list_sum (map (fun e => dir_count e.2) ((n, x) :: es)) =
  (dir_count x + list_sum (map (fun e : text * node => dir_count e.2) es))%nat.
Proof. done. Qed.

Lemma stack_dirs_cons p es stack :
  stack_dirs ((p, es) :: stack) = (dir_count (NDir es) + stack_dirs stack)%nat.
Proof. done. Qed.

Lemma subtree_cons prefix n x es :
  subtree_listed prefix (NDir ((n, x) :: es)) <->
  subtree_listed (child_path prefix n) x /\ subtree_listed prefix (NDir es).
Proof. done. Qed.

(** What is left to check when the entries [es] of a directory are still to be
    scanned. *)
Lemma scan_entries_spec prefix es stack :
  match scan_entries listed prefix es stack with
  | Ok stack' =>
      (stack_dirs stack' = stack_dirs stack + list_sum (map (fun e => dir_count e.2) es))%nat /\
      (Forall entries_listed stack' <->
        Forall entries_listed stack /\ subtree_listed prefix (NDir es))
  | Err _ => ~ subtree_listed prefix (NDir es)
  end.
Proof.
  revert stack. induction es as [|[n x] es IH]; intros stack; cbn [scan_entries]; [cbn; split; [lia|tauto]|].
  rewrite dirs_cons. pose proof (subtree_cons prefix n x es) as Hcons. unfold scan_entry. cbn [fst snd].
  destruct x as [c|es'].
  - specialize (IH stack). change (dir_count (NFile c)) with O.
    change (subtree_listed (child_path prefix n) (NFile c)) with (path_listed (child_path prefix n)) in Hcons.
    unfold path_listed in Hcons. case_bool_decide as Hm; [|case_bool_decide as Hl; [|tauto]];
      (destruct (scan_entries _ _ _ _) as [st|]; [destruct IH as [-> ->]; split; [lia|tauto]|tauto]).
  - specialize (IH ((child_path prefix n, es') :: stack)).
    destruct (scan_entries _ _ _ _) as [st|]; [|tauto].
    destruct IH as [-> ->]. rewrite Forall_cons, stack_dirs_cons. change (entries_listed (child_path prefix n, es'))
      with (subtree_listed (child_path prefix n) (NDir es')).
    split; [lia|tauto].
Qed.

Lemma walk_spec stack :
  exists r, loop_fuel (S (stack_dirs stack)) (walk_body listed) stack = Some r /\
    (r = Ok tt <-> Forall entries_listed stack).
Proof.
  apply (loop_fuel_spec (walk_body listed)
    (fun n st => n = stack_dirs st /\ (Forall entries_listed st <-> Forall entries_listed stack))
    (fun r => r = Ok tt <-> Forall entries_listed stack)) with (n := stack_dirs stack); [..|done|lia].
  - intros n st st' [-> Hst] E. destruct st as [|[prefix es] st]; [done|]. cbn in E.
    pose proof (scan_entries_spec prefix es st) as Hs. destruct (scan_entries _ _ _ _) as [st1|]; [|done].
    simplify_eq. destruct Hs as [H1 H2]. exists (stack_dirs st'). split.
    + rewrite H1, stack_dirs_cons.
      change (dir_count (NDir es)) with (S (list_sum (map (fun e : text * node => dir_count e.2) es))). lia.
    + split; [done|]. rewrite H2, <- Hst, Forall_cons. unfold entries_listed at 2. cbn [fst snd]. tauto.
  - intros n st r [-> Hst] E. destruct st as [|[prefix es] st]; cbn in E.
    + simplify_eq. rewrite <- Hst. split; [constructor|done].
    + pose proof (scan_entries_spec prefix es st) as Hs. destruct (scan_entries _ _ _ _) as [st1|]; [done|].
      simplify_eq. rewrite <- Hst, Forall_cons. split; [done|]. intros [? _]. by destruct Hs.
Qed.

(** The walk checks exactly the files of the tree. *)
Lemma subtree_listed_files x : forall segs,
  subtree_listed (path_text segs) x <->
  forall p c, (p, c) ∈ tree_files x -> path_listed (path_text (segs ++ p)).
Proof.
  induction x as [c0|es IH] using node_nested_ind; intros segs.
  - cbn. split.
    + intros H p c Hp%list_elem_of_singleton. simplify_eq. by rewrite app_nil_r.
    + intros H. specialize (H [] c0). rewrite app_nil_r in H. apply H. by left.
  - transitivity (forall e, e ∈ es -> subtree_listed (path_text (segs ++ [e.1])) e.2).
    + clear IH. cbn. induction es as [|e es IHe]; cbn.
      * split; [by intros _ e ?%elem_of_nil|done].
      * rewrite IHe. setoid_rewrite elem_of_cons. rewrite <- path_text_snoc. naive_solver.
    + rewrite Forall_forall in IH. split.
      * intros H p c (n & y & q & Hin & -> & Hq)%elem_of_tree_files_dir.
        replace (segs ++ n :: q) with ((segs ++ [n]) ++ q) by by rewrite <- (assoc_L (++)).
        by eapply (IH _ Hin); [apply (H _ Hin)|].
      * intros H [n y] Hin. apply (IH _ Hin). intros q c Hq. cbn.
        rewrite <- (assoc_L (++)). apply (H (n :: q) c), elem_of_tree_files_dir. by exists n, y, q.
Qed.
End walk.

Lemma check_no_unlisted_spec x m :
  exists r, check_no_unlisted_files (Some x) m = Some r /\
    (r = Ok tt <-> (exists es, x = NDir es) /\
      forall p c, (p, c) ∈ tree_files x -> path_listed (listed_names m) (path_text p)).
Proof.
  destruct x as [c|es].
  - eexists. split; [done|]. split; [done|]. by intros [[? ?] _].
  - destruct (walk_spec (listed_names m) [([], es)]) as (r & E & Hr). exists r. split.
    + rewrite <- E. cbn -[loop_fuel]. unfold stack_dirs. cbn -[loop_fuel]. by rewrite Nat.add_0_r.
    + rewrite Hr, Forall_singleton. unfold entries_listed. rewrite (subtree_listed_files _ (NDir es) []).
      naive_solver.
Qed.

(** ** The checks on the manifest *)

Lemma check_consistent_spec cs : forall seen,
  check_consistent seen cs = Ok tt <->
  (forall c v, c ∈ cs -> seen !! name c = Some v -> v = (sha256 c, size c)) /\
  (forall c c', c ∈ cs -> c' ∈ cs -> name c = name c' -> sha256 c = sha256 c' /\ size c = size c').
Proof.
  induction cs as [|c cs IH]; intros seen; cbn [check_consistent].
  - split; [intros _; split; intros ? ? []%elem_of_nil|done].
  - assert (Hrest : forall seen', seen' = <[name c := (sha256 c, size c)]> seen ->
      (forall v, seen !! name c = Some v -> v = (sha256 c, size c)) ->
      check_consistent seen' cs = Ok tt <->
      (forall c' v, c' ∈ c :: cs -> seen !! name c' = Some v -> v = (sha256 c', size c')) /\
      (forall a b, a ∈ c :: cs -> b ∈ c :: cs -> name a = name b -> sha256 a = sha256 b /\ size a = size b)).
    { intros seen' -> Hc. rewrite IH. setoid_rewrite elem_of_cons. split.
      - intros [H1 H2].
        assert (Hcc : forall b, b ∈ cs -> name c = name b -> sha256 c = sha256 b /\ size c = size b).
        { intros b Hb En. specialize (H1 b (sha256 c, size c) Hb). rewrite En, lookup_insert_eq in H1.
          by injection (H1 eq_refl). }
        split.
        + intros c' v [->|Hin] Ev; [by apply Hc|].
          destruct (decide (name c = name c')) as [En|Hne].
          * destruct (Hcc c' Hin En) as [<- <-]. apply Hc. by rewrite En.
          * apply (H1 c' v Hin). by rewrite lookup_insert_ne.
        + intros a b [->|Ha] [->|Hb] En; [done|by apply Hcc| |by apply H2].
          destruct (Hcc a Ha (eq_sym En)) as [-> ->]. done.
      - intros [H1 H2]. split.
        + intros c' v Hin Ev. destruct (decide (name c = name c')) as [En|Hne].
          * rewrite En, lookup_insert_eq in Ev. injection Ev as <-.
            destruct (H2 c c') as [-> ->]; auto.
          * rewrite lookup_insert_ne in Ev by done. apply H1; auto.
        + intros; apply H2; auto. }
    unfold consistent_step. destruct (seen !! name c) as [[sha sz]|] eqn:Es.
    + case_bool_decide as Eh; cbn [negb orb]; [|split; [done|intros [H _]; exfalso]].
      * destruct (Z.eqb_spec sz (size c)) as [Ez|Ez]; cbn [negb].
        -- apply Hrest; [done|]. intros v Ev. simplify_eq. done.
        -- split; [done|]. intros [H _]. specialize (H c (sha, sz)). destruct Ez.
           by injection (H ltac:(left) Es).
      * specialize (H c (sha, sz)). destruct Eh. by injection (H ltac:(left) Es).
    + apply Hrest; [done|]. intros v Ev. simplify_eq.
Qed.

Lemma check_consistent_ok m :
  check_internally_consistent m = Ok tt <->
  forall c c', c ∈ components m -> c' ∈ components m -> name c = name c' ->
    sha256 c = sha256 c' /\ size c = size c'.
Proof.
  unfold check_internally_consistent. rewrite check_consistent_spec. split; [tauto|].
  intros H. split; [|done]. intros c v _ Ev. by rewrite lookup_empty in Ev.
Qed.

Lemma check_protocol_ok m running : check_protocol_compatible m running = Ok tt <-> protocol m = running.
Proof.
  unfold check_protocol_compatible. destruct (protocol m) as [f t], running as [f' t']. cbn.
  destruct (Z.eqb_spec f f'), (Z.eqb_spec t t'); cbn; split; congruence.
Qed.

(** A name without a root, a drive or a parent segment. *)
Definition safe_name (n : text) : Prop :=
  (forall c t, n = c :: t -> is_slash c = false) /\ drive_prefix n = false /\
  dotdot ∉ split_on is_slash n.

Lemma validate_ok n : validate_component_name n = Ok tt <-> safe_name n.
Proof.
  unfold validate_component_name, safe_name.
  assert (Hp : existsb (fun seg => bool_decide (seg = dotdot)) (split_on is_slash n) = false <->
    dotdot ∉ split_on is_slash n).
  { rewrite <- not_true_iff_false, existsb_exists. apply not_iff_compat. split.
    - intros (s & Hs & ->%bool_decide_eq_true). by apply list_elem_of_In.
    - intros H. exists dotdot. split; [by apply list_elem_of_In|]. by apply bool_decide_eq_true. }
  assert (Ha : starts_with slash n || starts_with backslash n = false <->
    forall c t, n = c :: t -> is_slash c = false).
  { destruct n as [|c t]; [by split|]. split; [by intros H c' t' [= -> ->]|]. intros H. by apply (H c t). }
  rewrite <- Hp, <- Ha. destruct (starts_with slash n || starts_with backslash n); cbn [orb]; [by split; [|intros []]|].
  destruct (drive_prefix n); cbn [orb]; [by split; [|intros (_ & ? & _)]|].
  destruct (existsb _ _); by split; [|intros (_ & _ & ?)].
Qed.

Section verified.
Context {Number : Type} (as_u64 as_i64 : Number -> option Z) (number_text : Number -> text).
Context (number_of : Z -> Number).
Context {Key : Type} (hex_decode : text -> option (list Z)) (ed_verify : Key -> text -> list Z -> bool).
Context (sha256_hex : list Z -> text) (is_sep : Z -> bool) (dir_len : Z).
Notation check_component := (check_component sha256_hex is_sep dir_len).
Notation check_components := (check_components sha256_hex is_sep dir_len).
Notation canonical_bytes := (canonical_bytes as_u64 as_i64 number_text number_of).
Notation verify_signature := (verify_signature as_u64 as_i64 number_text number_of hex_decode ed_verify).

(** The size and the hash of a component are those of a content. *)
Definition matches (c : ComponentEntry) (content : list Z) : Prop :=
  len content = size c /\ eq_ignore_ascii_case (sha256_hex content) (sha256 c) = true.

Lemma check_component_ok x c :
  check_component (Some x) c = Ok tt <->
  safe_name (name c) /\
  exists content, resolve (split_on is_sep (name c)) x = Some (NFile content) /\ matches c content.
Proof.
  unfold Manifest.check_component. rewrite <- validate_ok.
  destruct (validate_component_name (name c)) as [[]|e]; [|by split; [|intros [? _]]].
  unfold verify_component_file, matches.
  destruct (resolve _ x) as [[content|es]|]; cbn [metadata_len sha256_file].
  - destruct (Z.eqb_spec (len content) (size c)); cbn [negb].
    + destruct (eq_ignore_ascii_case _ _) eqn:Eh; cbn [negb].
      * split; [by eauto 10|done].
      * split; [done|]. intros (_ & ? & [= ->] & _ & ?). congruence.
    + split; [done|]. by intros (_ & ? & [= ->] & ? & _).
  - destruct (_ =? _); cbn [negb]; split; try done; by intros (_ & ? & ? & _).
  - split; [done|]. by intros (_ & ? & ? & _).
Qed.

Lemma check_components_ok o cs :
  check_components o cs = Ok tt <-> Forall (fun c => check_component o c = Ok tt) cs.
Proof.
  induction cs as [|c cs IH]; cbn; [by split|]. rewrite Forall_cons, <- IH.
  destruct (check_component o c) as [[]|e]; [tauto|]. split; [done|]. by intros [? _].
Qed.

Lemma all_components_ok x cs :
  (forall c, c ∈ cs -> safe_name (name c) /\
    exists content, resolve (split_on is_sep (name c)) x = Some (NFile content) /\ matches c content) <->
  check_components (Some x) cs = Ok tt.
Proof. rewrite check_components_ok, Forall_forall. by setoid_rewrite check_component_ok. Qed.

Lemma listed_file_segments n p :
  Forall (fun ch => is_sep ch = is_slash ch) n -> Forall valid_name p -> p <> [] ->
  fix_slashes n = path_text p -> split_on is_sep n = p.
Proof.
  intros Hn Hv Hp E. rewrite (split_on_ext _ is_slash) by done.
  rewrite <- split_fix_slashes, E. by apply split_path_text.
Qed.

Lemma verified_files x cs p content :
  wf_tree x -> Forall (fun c => Forall (fun ch => is_sep ch = is_slash ch) (name c)) cs ->
  Forall (fun c => check_component (Some x) c = Ok tt) cs ->
  (exists es, x = NDir es) -> (p, content) ∈ tree_files x ->
  fix_slashes (path_text p) ∈ (list_to_set (map (fun c => fix_slashes (name c)) cs) : gset text) ->
  exists c, c ∈ cs /\ fix_slashes (name c) = path_text p /\ matches c content.
Proof.
  intros Hw Hsep Hc [es ->] Hin Hl. apply elem_of_list_to_set, list_elem_of_fmap in Hl as (c & E & Hcin).
  destruct (tree_files_resolve _ Hw p content Hin) as [Hr Hv].
  assert (Hne : p <> []) by (apply elem_of_tree_files_dir in Hin as (? & ? & ? & _ & -> & _); done).
  rewrite fix_slashes_path in E by done. exists c. split_and!; [done..|].
  rewrite Forall_forall in Hsep. rewrite Forall_forall in Hc.
  destruct (proj1 (check_component_ok _ _) (Hc c Hcin)) as (_ & content' & Hr' & Hm).
  rewrite (listed_file_segments (name c) p) in Hr' by eauto. congruence.
Qed.

Lemma path_listed_iff m p :
  path_listed (listed_names m) p <->
  fix_slashes p = MANIFEST_FILE_NAME \/ exists c, c ∈ components m /\ fix_slashes (name c) = fix_slashes p.
Proof.
  unfold path_listed, listed_names. rewrite elem_of_list_to_set, list_elem_of_fmap.
  split; (intros [E|(c & E & Hc)]; [by left|right; by exists c]).
Qed.

(** ** The properties *)

(** C7: a staged directory passes the verification, whose walk terminates,
    exactly when the signature verifies, the protocol versions are the running
    ones, no component name carries two hashes or sizes, every component
    has a safe name and is a file of the recorded size and hash, and every file
    of the tree has, with backslashes read as slashes, the path of the manifest or
    of a component. When moreover no name of the tree holds a backslash (the
    separators of the platform being those of the manifest's names), every file of
    a verified tree but the manifest is a listed component of the recorded size
    and hash; [backslash_file_unchecked] shows what the condition is for. *)
Theorem verified_set_ok x signed trust_root running :
  (exists es, x = NDir es) ->
  exists r,
  verify_staged_set as_u64 as_i64 number_text number_of hex_decode ed_verify sha256_hex is_sep dir_len
    (Some x) signed trust_root running = Some r /\
  (r = Ok tt <->
    verify_signature signed trust_root = Ok tt /\
    protocol (manifest signed) = running /\
    (forall c c', c ∈ components (manifest signed) -> c' ∈ components (manifest signed) ->
      name c = name c' -> sha256 c = sha256 c' /\ size c = size c') /\
    (forall c, c ∈ components (manifest signed) -> safe_name (name c) /\
      exists content, resolve (split_on is_sep (name c)) x = Some (NFile content) /\ matches c content) /\
    (forall p content, (p, content) ∈ tree_files x ->
      fix_slashes (path_text p) = MANIFEST_FILE_NAME \/
      exists c, c ∈ components (manifest signed) /\ fix_slashes (name c) = fix_slashes (path_text p))) /\
  (r = Ok tt -> wf_tree x ->
    Forall (fun c => Forall (fun ch => is_sep ch = is_slash ch) (name c)) (components (manifest signed)) ->
    forall p content, (p, content) ∈ tree_files x ->
      path_text p = MANIFEST_FILE_NAME \/
      exists c, c ∈ components (manifest signed) /\ fix_slashes (name c) = path_text p /\ matches c content).
Proof.
  intros Hx. unfold verify_staged_set.
  setoid_rewrite <- check_consistent_ok. setoid_rewrite <- check_protocol_ok.
  setoid_rewrite all_components_ok.
  destruct (verify_signature signed trust_root) as [[]|e]; [|by exists (Err e); split; [|split; [split; [|intros []]|]]].
  destruct (check_internally_consistent _) as [[]|e];
    [|by exists (Err e); split; [|split; [split; [|intros (_ & _ & ? & _)]|]]].
  destruct (check_protocol_compatible _ _) as [[]|e];
    [|by exists (Err e); split; [|split; [split; [|intros (_ & ? & _)]|]]].
  destruct (check_components _ _) as [[]|e] eqn:Ec;
    [|by exists (Err e); split; [|split; [split; [|intros (_ & _ & _ & ? & _)]|]]].
  apply check_components_ok in Ec.
  destruct (check_no_unlisted_spec x (manifest signed)) as (r & -> & Hr). exists r. split; [done|].
  rewrite Hr. setoid_rewrite path_listed_iff. split; [by tauto|].
  intros [_ Hf] Hw Hsep p content Hin. destruct (tree_files_resolve _ Hw p content Hin) as [_ Hv].
  destruct (Hf p content Hin) as [E|(c & Hc & E)]; [left; by rewrite fix_slashes_path in E|right].
  eapply verified_files; [done..|]. apply elem_of_list_to_set, list_elem_of_fmap. by exists c.
Qed.

(** signing and verifying agree, and a signature speaks for one manifest:
    what [sign] produces verifies, and if the trust root accepts only
    texts its owner signed, a manifest that verifies is one the owner issued. *)
Theorem signature_binds_manifest {SigningKey} (hex_encode : list Z -> text)
    (ed_sign : SigningKey -> text -> list Z) (public : SigningKey -> Key) (issued : Manifest -> Prop) trust_root :
  (forall z, in_u64 z -> as_u64 (number_of z) = Some z) ->
  (forall b, hex_decode (hex_encode b) = Some b) ->
  (forall k msg, len (ed_sign k msg) = 64 /\ ed_verify (public k) msg (ed_sign k msg) = true) ->
  (forall msg sig, ed_verify trust_root msg sig = true ->
    exists m, issued m /\ wf_manifest m /\ canonical_bytes m = Ok msg) ->
  (forall m k, wf_manifest m -> exists s,
    sign as_u64 as_i64 number_text number_of hex_encode ed_sign m k = Ok s /\
    manifest s = m /\ verify_signature s (public k) = Ok tt) /\
  (forall s, wf_manifest (manifest s) -> verify_signature s trust_root = Ok tt -> issued (manifest s)).
Proof.
  intros Hnum Hhex Hsig Hunf. split.
  - intros m k Hm. destruct (manifest_canonical as_u64 as_i64 number_text number_of Hnum m Hm) as [t Et].
    unfold sign. rewrite Et. eexists. split_and!; [done..|]. unfold Manifest.verify_signature. cbn.
    destruct (Hsig k t) as [Hl Hv]. rewrite Hhex, Hl, Et. cbn. by rewrite Hv.
  - intros s Hs Hv. unfold Manifest.verify_signature in Hv.
    destruct (hex_decode _) as [sig|]; [|done]. destruct (negb _); [done|].
    destruct (canonical_bytes (manifest s)) as [t|] eqn:Et; [|done].
    destruct (ed_verify trust_root t sig) eqn:Ev; [|done].
    destruct (Hunf t sig Ev) as (m & Hi & Hm & Em).
    by rewrite (canonical_bytes_inj as_u64 as_i64 number_text number_of Hnum _ _ _ Hs Hm Et Em).
Qed.

(** What [run_sign] records of a file is what the verification checks. *)
Definition recorded (x : node) (c : ComponentEntry) : Prop :=
  safe_name (name c) /\ exists content, resolve (split_on is_sep (name c)) x = Some (NFile content) /\
    sha256 c = sha256_hex content /\ size c = len content.

Lemma spec_component_ok x entry c :
  spec_component sha256_hex is_sep dir_len x entry = Ok c -> name c = entry.1 /\ recorded x c.
Proof.
  unfold spec_component, recorded. intros H.
  destruct (validate_component_name entry.1) as [[]|] eqn:Ev; [|done].
  destruct (resolve _ x) as [y|] eqn:Er; [|done]. destruct y as [content|]; [|done].
  cbn in H. injection H as <-. split; [done|]. split; [by apply validate_ok|]. by exists content.
Qed.

Lemma recorded_check x c : recorded x c -> check_component (Some x) c = Ok tt.
Proof.
  intros (Hs & content & Hr & Eh & Es). apply check_component_ok. split; [done|]. exists content.
  split; [done|]. split; [done|]. rewrite Eh. by apply bool_decide_eq_true.
Qed.

(** what the sign command signs, the swap command accepts: a staged directory
    that holds exactly the files of the specification, and the manifest,
    passes the verification against the manifest signed over it. *)
Theorem sign_then_verify {SigningKey} (hex_encode : list Z -> text)
    (ed_sign : SigningKey -> text -> list Z) (public : SigningKey -> Key) x spec version key_id k signed :
  (forall b, hex_decode (hex_encode b) = Some b) ->
  (forall k msg, len (ed_sign k msg) = 64 /\ ed_verify (public k) msg (ed_sign k msg) = true) ->
  wf_tree x -> (exists es, x = NDir es) ->
  run_sign as_u64 as_i64 number_text number_of hex_encode ed_sign sha256_hex is_sep dir_len
    x spec version key_id k = Ok signed ->
  (forall p content, (p, content) ∈ tree_files x ->
    path_text p = MANIFEST_FILE_NAME \/ exists e, e ∈ spec /\ fix_slashes e.1 = path_text p) ->
  verify_staged_set as_u64 as_i64 number_text number_of hex_decode ed_verify sha256_hex is_sep dir_len
    (Some x) signed (public k) protocol_default = Some (Ok tt).
Proof.
  intros Hhex Hsig Hw Hx Hrun Hfiles. unfold run_sign in Hrun. destruct spec as [|e0 spec0]; [done|].
  set (spec := e0 :: spec0) in *.
  destruct (collect (map _ spec)) as [cs|] eqn:Ec; [|done].
  apply collect_Ok in Ec.
  assert (Hcs : Forall2 (fun e c => name c = e.1 /\ recorded x c) spec cs).
  { clear -Ec. revert Ec. generalize cs. induction spec as [|e l IH]; intros [|c k] H; inversion H; subst.
    - constructor.
    - constructor; [by apply spec_component_ok|by apply IH]. }
  unfold sign in Hrun. set (m := mkManifest _ _ _ _) in *.
  destruct (canonical_bytes m) as [t|] eqn:Et; [|done]. injection Hrun as <-.
  assert (Hm : components m ≡ₚ cs) by apply merge_sort_Permutation.
  assert (Hrec : Forall (recorded x) (components m)).
  { rewrite Hm. clear -Hcs. induction Hcs as [|e c l k [_ H] _ IH]; by constructor. }
  assert (Hall : Forall (fun c => check_component (Some x) c = Ok tt) (components m))
    by (eapply Forall_impl; [exact Hrec|apply recorded_check]).
  unfold verify_staged_set. cbn [manifest].
  assert (Hv : verify_signature (mkSigned m (hex_encode (ed_sign k t))) (public k) = Ok tt).
  { unfold Manifest.verify_signature. cbn [signature manifest]. destruct (Hsig k t) as [Hl Hv].
    rewrite Hhex, Hl, Et. cbn [negb Z.eqb Pos.eqb]. by rewrite Hv. }
  rewrite Hv, (proj2 (check_consistent_ok m)), (proj2 (check_protocol_ok m _)),
    (proj2 (check_components_ok _ _) Hall); [|done|].
  - destruct (check_no_unlisted_spec x m) as (r & -> & Hr). f_equal. apply Hr. split; [done|].
    intros p content Hin. destruct (tree_files_resolve _ Hw p content Hin) as [_ Hpv].
    unfold path_listed. rewrite fix_slashes_path by done.
    destruct (Hfiles p content Hin) as [E|(e & He & E)]; [by left|right].
    apply list_elem_of_lookup in He as [i Hi].
    destruct (Forall2_lookup_l _ _ _ _ _ Hcs Hi) as (c & Hc & Hn & _).
    apply elem_of_list_to_set, list_elem_of_fmap. exists c. split; [by rewrite Hn|].
    rewrite Hm. by apply list_elem_of_lookup_2 in Hc.
  - intros c c' Hc Hc' En. rewrite Forall_forall in Hrec.
    destruct (Hrec c Hc) as (_ & d & Hd & -> & ->), (Hrec c' Hc') as (_ & d' & Hd' & -> & ->).
    rewrite En in Hd. by assert (d' = d) as -> by congruence.
Qed.
End verified.

(** ** A safe name stays below its root *)

(** [Path::join]: a rooted name replaces the base. *)
Definition os_join (is_sep : Z -> bool) (base : list text) (n : text) : list text :=
  match n with
  | c :: _ => if is_sep c || drive_prefix n then split_on is_sep n else base ++ split_on is_sep n
  | [] => base ++ split_on is_sep n
  end.

(** Lexical normalization: [.] and empty segments vanish, [..] goes up. *)
Definition normal_step (acc : list text) (seg : text) : list text :=
  if bool_decide (seg = []) || bool_decide (seg = lit ".") then acc
  else if bool_decide (seg = dotdot) then removelast acc
  else acc ++ [seg].

Definition normalize (segs : list text) : list text := foldl normal_step [] segs.

(** A piece between the separators of [q] that holds none of [p] is one between
    those of [p] too, and the first stays the first. *)
Lemma split_on_finer (p q : Z -> bool) s :
  (forall c, q c = true -> p c = true) ->
  (Forall (fun c => p c = false) (hd [] (split_on q s)) -> hd [] (split_on p s) = hd [] (split_on q s)) /\
  (forall seg, seg ∈ tl (split_on q s) -> Forall (fun c => p c = false) seg -> seg ∈ tl (split_on p s)).
Proof.
  intros Hqp. induction s as [|c s [IH1 IH2]]; [by split|]. cbn.
  pose proof (split_on_nonempty q s). pose proof (split_on_nonempty p s).
  destruct (split_on q s) as [|h t]; [done|]. destruct (split_on p s) as [|h' t']; [done|]. cbn in *.
  destruct (q c) eqn:Eq.
  - rewrite (Hqp c Eq). cbn. split; [done|]. intros seg [->|Hin]%elem_of_cons Hp.
    + rewrite IH1 by done. left.
    + right. auto.
  - destruct (p c) eqn:Ep; cbn.
    + split; [by inversion 1; congruence|]. intros seg Hin Hp. right. auto.
    + split; [|done]. inversion 1; subst. by rewrite IH1.
Qed.

Lemma safe_no_parent is_sep n :
  (forall c, is_sep c = true -> is_slash c = true) -> dotdot ∉ split_on is_slash n ->
  dotdot ∉ split_on is_sep n.
Proof.
  intros Hs Hn Hin. apply Hn. destruct (split_on_finer is_slash is_sep n Hs) as [H1 H2].
  pose proof (split_on_nonempty is_sep n). pose proof (split_on_nonempty is_slash n).
  assert (Hd : Forall (fun c => is_slash c = false) dotdot) by by_decide.
  destruct (split_on is_sep n) as [|h t]; [done|]. destruct (split_on is_slash n) as [|h' t']; [done|].
  cbn in *. apply elem_of_cons in Hin as [<-|Hin]; [rewrite H1 by done; left|right; auto].
Qed.

Lemma normalize_below base segs :
  normalize base = base -> dotdot ∉ segs ->
  exists rest, normalize (base ++ segs) = base ++ rest /\ dotdot ∉ rest.
Proof.
  intros Hb. induction segs as [|seg segs IH] using rev_ind; intros Hn.
  - exists []. by rewrite !app_nil_r.
  - destruct IH as (rest & E & Hr); [set_solver|]. unfold normalize in *.
    rewrite (assoc_L (++)), foldl_app. cbn [foldl]. rewrite E. unfold normal_step.
    destruct (_ || _); [by exists rest|]. rewrite bool_decide_false by set_solver.
    exists (rest ++ [seg]). split; [by rewrite (assoc_L (++))|set_solver].
Qed.

(** A component name that passes the validation names a path below the
    directory it is joined to, on every platform whose separators are among
    the two slashes; it never replaces the base and never leaves it. *)
Theorem validated_name_inside is_sep base n :
  (forall c, is_sep c = true -> is_slash c = true) -> normalize base = base ->
  validate_component_name n = Ok tt ->
  os_join is_sep base n = base ++ split_on is_sep n /\
  exists rest, normalize (os_join is_sep base n) = base ++ rest /\ dotdot ∉ rest.
Proof.
  intros Hs Hb (Hroot & Hdrive & Hp)%validate_ok.
  assert (E : os_join is_sep base n = base ++ split_on is_sep n).
  { unfold os_join. destruct n as [|c t]; [done|]. rewrite Hdrive, orb_false_r.
    destruct (is_sep c) eqn:Ec; [|done]. specialize (Hroot c t eq_refl). by rewrite (Hs c Ec) in Hroot. }
  rewrite E. split; [done|]. apply normalize_below; [done|]. by apply safe_no_parent.
Qed.

Lemma validated_name_inside_witness :
  validate_component_name (lit "bin/../x") = Err (UnsafeComponentName (lit "bin/../x")) /\
  exists rest, normalize (os_join is_slash [lit "staged"] (lit "bin\.\x.exe")) = [lit "staged"] ++ rest /\
    dotdot ∉ rest.
Proof.
  split; [reflexivity|].
  apply (validated_name_inside is_slash [lit "staged"] (lit "bin\.\x.exe")); [done|reflexivity|reflexivity].
Defined.

(** ** Examples *)

Definition ex_hash (content : list Z) : text :=
  [hex_digit (sumZ content mod 256 / 16); hex_digit (sumZ content mod 16)].

Definition ex_component : ComponentEntry := mkComponent (lit "bin/app.exe") RClient (lit "C8") 2.
Definition ex_manifest : Manifest :=
  mkManifest (lit "1.2.0") protocol_default [ex_component] (lit "dev").
Definition ex_tree : node :=
  NDir [(lit "manifest.json", NFile [1]); (lit "bin", NDir [(lit "app.exe", NFile [100; 100])])].

Notation ex_bytes := (canonical_bytes ex_u64 ex_i64 ex_number_text inl).

Definition ex_public (k : Z) : Z := Z.abs k + 1.
Definition ex_mac (key : Z) (msg : text) : list Z := take 64 (key :: msg ++ replicate 64 0).
Definition ex_sign (k : Z) (msg : text) : list Z := ex_mac (ex_public k) msg.
(** Key 0 is the trust root: its owner signed [ex_manifest] only. *)
Definition ex_verify (key : Z) (msg : text) (sg : list Z) : bool :=
  if key =? 0 then bool_decide (ok (ex_bytes ex_manifest) = Some msg)
  else bool_decide (sg = ex_mac key msg).

Lemma ex_manifest_wf : wf_manifest ex_manifest.
Proof.
  split_and!; [by_decide|by_decide|done|done|]. constructor; [|constructor].
  split_and!; [by_decide|by_decide|done].
Qed.

Lemma ex_tree_wf : wf_tree ex_tree.
Proof.
  constructor; cbn; [by_decide|by_decide|]. repeat constructor; cbn; by_decide.
Qed.

Lemma ex_u64_of z : in_u64 z -> ex_u64 (inl z) = Some z.
Proof.
  intros [H1 H2]. unfold ex_u64, u64_max. rewrite (proj2 (Z.leb_le _ _)) by lia.
  by rewrite (proj2 (Z.leb_le _ _)) by lia.
Qed.

Lemma verified_set_ok_witness : exists r,
  verify_staged_set ex_u64 ex_i64 ex_number_text inl Some ex_verify ex_hash is_slash 0
    (Some ex_tree) (mkSigned ex_manifest (replicate 64 0)) 0 protocol_default = Some r /\
  (r = Ok tt -> forall p content, (p, content) ∈ tree_files ex_tree ->
     path_text p = MANIFEST_FILE_NAME \/
     exists c, c ∈ [ex_component] /\ fix_slashes (name c) = path_text p /\ matches ex_hash c content).
Proof.
  destruct (verified_set_ok ex_u64 ex_i64 ex_number_text inl Some ex_verify ex_hash is_slash 0
    ex_tree (mkSigned ex_manifest (replicate 64 0)) 0 protocol_default) as (r & E & _ & Hr).
  - by eexists.
  - exists r. split; [exact E|]. intros Ho. apply (Hr Ho); [exact ex_tree_wf|].
    constructor; [by apply Forall_true|constructor].
Defined.

Example ex_tree_verified :
  verify_staged_set ex_u64 ex_i64 ex_number_text inl Some ex_verify ex_hash is_slash 0
    (Some ex_tree) (mkSigned ex_manifest (replicate 64 0)) 0 protocol_default = Some (Ok tt).
Proof. vm_compute. reflexivity. Qed.

(** Where only [/] separates, a file whose name holds a backslash is taken for the
    listed file of that path and is never hashed. *)
Definition ex_backslash_tree : node :=
  NDir [(lit "bin\app.exe", NFile [9; 9; 9]); (lit "bin", NDir [(lit "app.exe", NFile [100; 100])])].

Example backslash_file_unchecked :
  verify_staged_set ex_u64 ex_i64 ex_number_text inl Some ex_verify ex_hash (fun c => c =? slash) 0
    (Some ex_backslash_tree) (mkSigned ex_manifest (replicate 64 0)) 0 protocol_default = Some (Ok tt).
Proof. vm_compute. reflexivity. Qed.

Lemma ex_sign_verifies k msg :
  len (ex_sign k msg) = 64 /\ ex_verify (ex_public k) msg (ex_sign k msg) = true.
Proof.
  split.
  - unfold ex_sign, ex_mac, len. rewrite length_take, length_cons, length_app, length_replicate. lia.
  - unfold ex_verify. destruct (Z.eqb_spec (ex_public k) 0) as [E|_]; [unfold ex_public in E; lia|].
    by apply bool_decide_eq_true.
Qed.

Lemma ex_root_issued msg sg :
  ex_verify 0 msg sg = true -> exists m, m = ex_manifest /\ wf_manifest m /\ ex_bytes m = Ok msg.
Proof.
  intros H. exists ex_manifest. split_and!; [done|exact ex_manifest_wf|].
  cbn [ex_verify Z.eqb] in H. by apply bool_decide_eq_true, ok_Some in H.
Qed.

Lemma signature_binds_manifest_witness :
  (exists s, sign ex_u64 ex_i64 ex_number_text inl id ex_sign ex_manifest 7 = Ok s) /\
  forall s, wf_manifest (manifest s) ->
    verify_signature ex_u64 ex_i64 ex_number_text inl Some ex_verify s 0 = Ok tt -> manifest s = ex_manifest.
Proof.
  destruct (signature_binds_manifest ex_u64 ex_i64 ex_number_text inl Some ex_verify id ex_sign
    ex_public (fun m => m = ex_manifest) 0) as [H1 H2].
  - exact ex_u64_of.
  - done.
  - exact ex_sign_verifies.
  - exact ex_root_issued.
  - split; [|exact H2]. destruct (H1 ex_manifest 7 ex_manifest_wf) as (s & E & _). by exists s.
Defined.

Lemma sign_then_verify_witness :
  exists signed,
    run_sign ex_u64 ex_i64 ex_number_text inl id ex_sign ex_hash is_slash 0 ex_tree
      [(lit "bin/app.exe", RClient)] (lit "1.2.0") (lit "dev") 7 = Ok signed /\
    verify_staged_set ex_u64 ex_i64 ex_number_text inl Some ex_verify ex_hash is_slash 0
      (Some ex_tree) signed (ex_public 7) protocol_default = Some (Ok tt).
Proof.
  eexists. split; [reflexivity|].
  apply (sign_then_verify ex_u64 ex_i64 ex_number_text inl Some ex_verify ex_hash is_slash 0 id ex_sign
    ex_public ex_tree [(lit "bin/app.exe", RClient)] (lit "1.2.0") (lit "dev") 7).
  - done.
  - exact ex_sign_verifies.
  - exact ex_tree_wf.
  - by eexists.
  - reflexivity.
  - intros p content Hin. cbn in Hin. apply elem_of_cons in Hin as [E|[E|[]%elem_of_nil]%elem_of_cons].
    + left. injection E as -> _. reflexivity.
    + right. injection E as -> _. eexists. split; [left|reflexivity].
Defined.
