(* ===== verification/Swap.v ===== *)
(** * The atomic swap of the updater (tools/updater/src/swap.rs, main.rs)

    A file system is a map from paths to trees. The code is a program of file
    system calls: [exec] runs it with every call allowed to fail and a crash
    allowed anywhere, inside a write too; [run] is the run without faults.
    [serde_json] on journals and manifests is a parameter. *)
From S2P Require Import Prelude Text Canon Manifest.

Notation fs := (gmap text node).

(** ** File system calls *)

Inductive removal : Type := Removed | NotFound | RemoveFailed.

Inductive io (A : Type) : Type :=
| Ret (a : A)
| Exists (p : text) (k : bool -> io A)
| ReadFile (p : text) (k : option (list Z) -> io A)
| WriteFile (p : text) (s : list Z) (k : bool -> io A)
| Rename (a b : text) (k : bool -> io A)
| RemoveFile (p : text) (k : removal -> io A)
| Now (k : Z -> io A)
| ReadTree (p : text) (k : option node -> io A)
| ReadIn (d n : text) (k : option (list Z) -> io A)
| WriteIn (d n : text) (s : list Z) (k : bool -> io A).
Arguments Ret {A} a.
Arguments Exists {A} p k.
Arguments ReadFile {A} p k.
Arguments WriteFile {A} p s k.
Arguments Rename {A} a b k.
Arguments RemoveFile {A} p k.
Arguments Now {A} k.
Arguments ReadTree {A} p k.
Arguments ReadIn {A} d n k.
Arguments WriteIn {A} d n s k.

Fixpoint io_bind {A B : Type} (m : io A) (f : A -> io B) : io B :=
  match m with
  | Ret a => f a
  | Exists p k => Exists p (fun b => io_bind (k b) f)
  | ReadFile p k => ReadFile p (fun r => io_bind (k r) f)
  | WriteFile p s k => WriteFile p s (fun b => io_bind (k b) f)
  | Rename a b k => Rename a b (fun r => io_bind (k r) f)
  | RemoveFile p k => RemoveFile p (fun r => io_bind (k r) f)
  | Now k => Now (fun t => io_bind (k t) f)
  | ReadTree p k => ReadTree p (fun o => io_bind (k o) f)
  | ReadIn d n k => ReadIn d n (fun r => io_bind (k r) f)
  | WriteIn d n s k => WriteIn d n s (fun b => io_bind (k b) f)
  end.

(** [?] on a fallible action. *)
Notation "'do?' x ':=' m 'in' k" :=
  (io_bind m (fun r => match r with Ok x => k | Err err => Ret (Err err) end))
  (at level 10, x name, m at level 100, k at level 200) : bp_scope.
Notation "'do!' x ':=' m 'in' k" := (io_bind m (fun x => k))
  (at level 10, x name, m at level 100, k at level 200) : bp_scope.

Definition exists_ (p : text) : io bool := Exists p Ret.
Definition now : io Z := Now Ret.

(** A file directly below a directory. *)
Definition file_in (m : fs) (d n : text) : option (list Z) :=
  match m !! d with
  | Some (NDir es) => match entry_get n es with Some (NFile c) => Some c | _ => None end
  | _ => None
  end.

Fixpoint entry_set (n : text) (x : node) (es : list (text * node)) : list (text * node) :=
  match es with
  | [] => [(n, x)]
  | (k, y) :: es => if bool_decide (k = n) then (n, x) :: es else (k, y) :: entry_set n x es
  end.

(** The directory with that file written, when there is one and the name is not
    that of a subdirectory. *)
Definition put_in (m : fs) (d n : text) (s : list Z) : option fs :=
  match m !! d with
  | Some (NDir es) =>
      match entry_get n es with
      | Some (NDir _) => None
      | _ => Some (<[d := NDir (entry_set n (NFile s) es)]> m)
      end
  | _ => None
  end.

(** What a program can do. [None]: it crashed. A write truncates the file and
    fills it, and a crash or an error may leave any part of it; a rename is
    atomic, and refuses a target that exists. *)
Definition is_dir (o : option node) : Prop := match o with Some (NDir _) => True | _ => False end.

Inductive exec {A : Type} : fs -> io A -> fs -> option A -> Prop :=
| exec_crash m i : exec m i m None
| exec_ret m a : exec m (Ret a) m (Some a)
| exec_exists m p k m' r :
    exec m (k (bool_decide (is_Some (m !! p)))) m' r -> exec m (Exists p k) m' r
| exec_read m p k c m' r :
    m !! p = Some (NFile c) -> exec m (k (Some c)) m' r -> exec m (ReadFile p k) m' r
| exec_read_fail m p k m' r : exec m (k None) m' r -> exec m (ReadFile p k) m' r
| exec_write m p s k m' r :
    ~ is_dir (m !! p) -> exec (<[p := NFile s]> m) (k true) m' r -> exec m (WriteFile p s k) m' r
| exec_write_torn m p s k n :
    ~ is_dir (m !! p) -> exec m (WriteFile p s k) (<[p := NFile (take n s)]> m) None
| exec_write_part m p s k n m' r :
    ~ is_dir (m !! p) -> exec (<[p := NFile (take n s)]> m) (k false) m' r -> exec m (WriteFile p s k) m' r
| exec_write_fail m p s k m' r : exec m (k false) m' r -> exec m (WriteFile p s k) m' r
| exec_rename m a b x k m' r :
    m !! a = Some x -> m !! b = None ->
    exec (<[b := x]> (delete a m)) (k true) m' r -> exec m (Rename a b k) m' r
| exec_rename_fail m a b k m' r : exec m (k false) m' r -> exec m (Rename a b k) m' r
| exec_remove m p c k m' r :
    m !! p = Some (NFile c) -> exec (delete p m) (k Removed) m' r -> exec m (RemoveFile p k) m' r
| exec_remove_none m p k m' r :
    m !! p = None -> exec m (k NotFound) m' r -> exec m (RemoveFile p k) m' r
| exec_remove_fail m p k m' r : exec m (k RemoveFailed) m' r -> exec m (RemoveFile p k) m' r
| exec_now m t k m' r : exec m (k t) m' r -> exec m (Now k) m' r
| exec_tree m p k m' r : exec m (k (m !! p)) m' r -> exec m (ReadTree p k) m' r
| exec_read_in m d n k c m' r :
    file_in m d n = Some c -> exec m (k (Some c)) m' r -> exec m (ReadIn d n k) m' r
| exec_read_in_fail m d n k m' r : exec m (k None) m' r -> exec m (ReadIn d n k) m' r
| exec_write_in m d n s k m1 m' r :
    put_in m d n s = Some m1 -> exec m1 (k true) m' r -> exec m (WriteIn d n s k) m' r
| exec_write_in_torn m d n s k i m1 :
    put_in m d n (take i s) = Some m1 -> exec m (WriteIn d n s k) m1 None
| exec_write_in_part m d n s k i m1 m' r :
    put_in m d n (take i s) = Some m1 -> exec m1 (k false) m' r -> exec m (WriteIn d n s k) m' r
| exec_write_in_fail m d n s k m' r : exec m (k false) m' r -> exec m (WriteIn d n s k) m' r.

(** The run without crashes and device errors, at a given time. *)
Fixpoint run {A : Type} (t : Z) (m : fs) (i : io A) : (fs * A)%type :=
  match i with
  | Ret a => (m, a)
  | Exists p k => run t m (k (bool_decide (is_Some (m !! p))))
  | ReadFile p k =>
      match m !! p with
      | Some (NFile c) => run t m (k (Some c))
      | _ => run t m (k None)
      end
  | WriteFile p s k =>
      match m !! p with
      | Some (NDir _) => run t m (k false)
      | _ => run t (<[p := NFile s]> m) (k true)
      end
  | Rename a b k =>
      match m !! a, m !! b with
      | Some x, None => run t (<[b := x]> (delete a m)) (k true)
      | _, _ => run t m (k false)
      end
  | RemoveFile p k =>
      match m !! p with
      | None => run t m (k NotFound)
      | Some (NFile _) => run t (delete p m) (k Removed)
      | Some (NDir _) => run t m (k RemoveFailed)
      end
  | Now k => run t m (k t)
  | ReadTree p k => run t m (k (m !! p))
  | ReadIn d n k => run t m (k (file_in m d n))
  | WriteIn d n s k =>
      match put_in m d n s with
      | Some m1 => run t m1 (k true)
      | None => run t m (k false)
      end
  end.

(** ** The swap *)

Inductive SwapError : Type :=
| SwapIo (step : text)
| CorruptJournal.

Inductive Phase : Type := PrevRenamed | StagedMoved.

Record Journal := mkJournal {
  phase : Phase;
  prev_path_of : text
}.

Inductive RecoveryAction : Type := RestorePrev | NoOp.

#[export] Instance RecoveryAction_eq_dec : EqDecision RecoveryAction.
Proof. solve_decision. Defined.

Definition decide_recovery (p : Phase) (install_exists prev_exists : bool) : RecoveryAction :=
  match p with
  | PrevRenamed => if negb install_exists && prev_exists then RestorePrev else NoOp
  | StagedMoved => NoOp
  end.

(** [install.with_file_name(name + suffix)]: [install] ends in its name. *)
Definition journal_path (install : text) : text := install ++ lit ".update-journal.json".

Definition is_ascii_alphanumeric (c : Z) : bool :=
  ((48 <=? c) && (c <=? 57)) || ((65 <=? c) && (c <=? 90)) || ((97 <=? c) && (c <=? 122)).

Definition underscore : Z := 95.

Definition filename_char (c : Z) : Z :=
  if is_ascii_alphanumeric c || (c =? 46) || (c =? 45) || (c =? underscore) then c else underscore.

Fixpoint trim_start (c : Z) (s : text) : text :=
  match s with
  | d :: t => if d =? c then trim_start c t else s
  | [] => []
  end.
Definition trim_matches (c : Z) (s : text) : text := rev (trim_start c (rev (trim_start c s))).

Definition sanitize_version_for_filename (version : text) : text :=
  let sanitized := map filename_char version in
  match trim_matches underscore sanitized with
  | [] => lit "unknown"
  | _ => sanitized
  end.

Definition prev_candidate (install version : text) : text :=
  install ++ lit ".prev-" ++ sanitize_version_for_filename version.

Definition prev_path (install outgoing_version : text) : io text :=
  let candidate := prev_candidate install outgoing_version in
  do! taken := exists_ candidate in
  if negb taken then Ret candidate
  else
    do! timestamp := now in
    Ret (candidate ++ lit "-" ++ dec timestamp).

Definition rename (a b : text) (step : text) : io (result unit SwapError) :=
  Rename a b (fun ok => Ret (if ok then Ok tt else Err (SwapIo step))).

Definition remove_journal (path : text) : io (result unit SwapError) :=
  RemoveFile path (fun r =>
    Ret (match r with
         | Removed | NotFound => Ok tt
         | RemoveFailed => Err (SwapIo (lit "remove journal"))
         end)).

Section swap.
  (** [serde_json::to_string] and [from_str] at [Journal]. *)
  Context (print_journal : Journal -> text) (parse_journal : text -> option Journal).

Definition write_journal (path : text) (j : Journal) : io (result unit SwapError) :=
  WriteFile path (print_journal j)
    (fun ok => Ret (if ok then Ok tt else Err (SwapIo (lit "write journal")))).

Definition read_journal (path : text) : io (result Journal SwapError) :=
  ReadFile path (fun r =>
    Ret (match r with
         | None => Err (SwapIo (lit "read journal"))
         | Some s => match parse_journal s with Some j => Ok j | None => Err CorruptJournal end
         end)).

Definition recover_if_interrupted (install : text) : io (result unit SwapError) :=
  let jpath := journal_path install in
  do! present := exists_ jpath in
  if negb present then Ret (Ok tt)
  else
    do? journal := read_journal jpath in
    do! install_exists := exists_ install in
    do! prev_exists := exists_ (prev_path_of journal) in
    do? _u :=
      (if bool_decide (decide_recovery (phase journal) install_exists prev_exists = RestorePrev)
       then rename (prev_path_of journal) install (lit "restore previous set")
       else Ret (Ok tt)) in
    remove_journal jpath.

Definition perform_swap (staged install outgoing_version : text) : io (result unit SwapError) :=
  do? _r := recover_if_interrupted install in
  do! prev := prev_path install outgoing_version in
  let jpath := journal_path install in
  do? _w := write_journal jpath (mkJournal PrevRenamed prev) in
  do! present := exists_ install in
  do? _m := (if present then rename install prev (lit "rename install to prev") else Ret (Ok tt)) in
  do? _s := rename staged install (lit "rename staged into install") in
  do? _x := write_journal jpath (mkJournal StagedMoved prev) in
  remove_journal jpath.

(** ** The [swap] command *)

Definition INSTALLED_MANIFEST : text := lit "update-manifest.json".

Inductive CliError : Type :=
| ReadingManifest
| ParsingManifest
| Verification (e : VerifyError)
| OutOfFuel
| SwapFailed (e : SwapError)
| WritingManifest.

Section command.
  (** The parameters of Manifest, and [from_str] at [SignedManifest]. *)
  Context {Number : Type} (as_u64 as_i64 : Number -> option Z) (number_text : Number -> text).
  Context (number_of : Z -> Number) {Key : Type}.
  Context (hex_decode : text -> option (list Z)) (ed_verify : Key -> text -> list Z -> bool).
  Context (sha256_hex : list Z -> text) (is_sep : Z -> bool) (dir_len : Z).
  Context (parse_signed : text -> option SignedManifest) (dev_trust_root : Key).

Definition read_installed_version (install : text) : io (option text) :=
  ReadIn install INSTALLED_MANIFEST (fun r =>
    Ret (match r with
         | None => None
         | Some s => (fun signed => set_version (manifest signed)) <$> parse_signed s
         end)).

(** [OutOfFuel]: the walk of the verification did not end. *)
Definition verify_command (tree : option node) (signed : SignedManifest) : result unit CliError :=
  match verify_staged_set as_u64 as_i64 number_text number_of hex_decode ed_verify sha256_hex is_sep dir_len
          tree signed dev_trust_root protocol_default with
  | Some (Ok _) => Ok tt
  | Some (Err e) => Err (Verification e)
  | None => Err OutOfFuel
  end.

(** The manifest is the file [manifest_name] of the directory [manifest_dir]; the
    verification reads the staged tree while nothing else writes to it. *)
Definition run_swap (staged install manifest_dir manifest_name : text) : io (result unit CliError) :=
  ReadIn manifest_dir manifest_name (fun r =>
    match r with
    | None => Ret (Err ReadingManifest)
    | Some manifest_text =>
        match parse_signed manifest_text with
        | None => Ret (Err ParsingManifest)
        | Some signed =>
            ReadTree staged (fun tree =>
              match verify_command tree signed with
              | Err e => Ret (Err e)
              | Ok _ =>
                  do! outgoing := read_installed_version install in
                  do! swapped := perform_swap staged install (default (lit "unknown") outgoing) in
                  match swapped with
                  | Err e => Ret (Err (SwapFailed e))
                  | Ok _ =>
                      WriteIn install INSTALLED_MANIFEST manifest_text (fun ok =>
                        Ret (if ok then Ok tt else Err WritingManifest))
                  end
              end)
        end
    end).

End command.

End swap.
