(* ===== verification/SwapSafe.v ===== *)
(** * The swap never loses an installed set (about Swap)

    A crash condition [C] that every intermediate state satisfies, carried
    through the program by [wp]; the set that recovery will restore is either
    the old one or the staged one, after any number of crashed, failed and
    completed swaps and recoveries. *)
From S2P Require Import Prelude Text Canon Manifest Swap.

(** ** Crash conditions *)

(** [C] holds in every state a crash can leave, [Q] when the program returns. *)
Fixpoint wp {A : Type} (C : fs -> Prop) (Q : fs -> A -> Prop) (i : io A) (m : fs) : Prop :=
  C m /\
  match i with
  | Ret a => Q m a
  | Exists p k => wp C Q (k (bool_decide (is_Some (m !! p)))) m
  | ReadFile p k =>
      (forall c, m !! p = Some (NFile c) -> wp C Q (k (Some c)) m) /\ wp C Q (k None) m
  | WriteFile p s k =>
      (~ is_dir (m !! p) ->
        wp C Q (k true) (<[p := NFile s]> m) /\
        forall n, C (<[p := NFile (take n s)]> m) /\ wp C Q (k false) (<[p := NFile (take n s)]> m)) /\
      wp C Q (k false) m
  | Rename a b k =>
      (forall x, m !! a = Some x -> m !! b = None -> wp C Q (k true) (<[b := x]> (delete a m))) /\
      wp C Q (k false) m
  | RemoveFile p k =>
      (forall c, m !! p = Some (NFile c) -> wp C Q (k Removed) (delete p m)) /\
      (m !! p = None -> wp C Q (k NotFound) m) /\ wp C Q (k RemoveFailed) m
  | Now k => forall t, wp C Q (k t) m
  | ReadTree p k => wp C Q (k (m !! p)) m
  | ReadIn d n k => (forall c, file_in m d n = Some c -> wp C Q (k (Some c)) m) /\ wp C Q (k None) m
  | WriteIn d n s k =>
      (forall m1, put_in m d n s = Some m1 -> wp C Q (k true) m1) /\
      (forall i m1, put_in m d n (take i s) = Some m1 -> C m1 /\ wp C Q (k false) m1) /\
      wp C Q (k false) m
  end.

Lemma wp_crash {A : Type} C Q (i : io A) m : wp C Q i m -> C m.
Proof. by destruct i; intros [? _]. Qed.

Lemma wp_sound {A : Type} C Q (i : io A) m m' r :
  wp C Q i m -> exec m i m' r -> C m' /\ forall a, r = Some a -> Q m' a.
Proof.
  intros Hw He. induction He; try (cbn in Hw; naive_solver).
  - split; [by eapply wp_crash|done].
Qed.

Lemma wp_mono {A : Type} (C C' : fs -> Prop) (Q Q' : fs -> A -> Prop) (i : io A) m :
  (forall m, C m -> C' m) -> (forall m a, Q m a -> Q' m a) -> wp C Q i m -> wp C' Q' i m.
Proof.
  intros HC HQ. revert m. induction i as [a|p k IH|p k IH|p s k IH|a b k IH|p k IH|k IH|p k IH|d n k IH|d n s k IH]; intros m; cbn;
    naive_solver.
Qed.

Lemma wp_bind {A B : Type} C Q (i : io A) (f : A -> io B) m :
  wp C (fun m a => wp C Q (f a) m) i m -> wp C Q (io_bind i f) m.
Proof.
  revert m. induction i as [a|p k IH|p k IH|p s k IH|a b k IH|p k IH|k IH|p k IH|d n k IH|d n s k IH]; intros m; cbn; naive_solver.
Qed.

(** A fallible action: an error only has to satisfy the crash condition. *)
Definition returns {A E : Type} (C R : fs -> Prop) (m : fs) (r : result A E) : Prop :=
  C m /\ (forall a, r = Ok a -> R m).

Lemma wp_try {A B E : Type} (C : fs -> Prop) (Q : fs -> result B E -> Prop) (i : io (result A E)) k m :
  (forall m e, C m -> Q m (Err e)) ->
  wp C (fun m r => C m /\ forall a, r = Ok a -> wp C Q (k a) m) i m ->
  wp C Q (do? a := i in k a) m.
Proof.
  intros He Hw. apply wp_bind. eapply wp_mono; [done| |exact Hw].
  intros m' [a|e] [HC Hk]; [by apply Hk|]. cbn. auto.
Qed.

Lemma wp_exists {A : Type} (C : fs -> Prop) (Q : fs -> A -> Prop) p k m :
  C m -> wp C Q (k (bool_decide (is_Some (m !! p)))) m -> wp C Q (do! b := exists_ p in k b) m.
Proof. intros HC Hk. by split. Qed.

Lemma wp_ret {A : Type} (C : fs -> Prop) (Q : fs -> A -> Prop) a m : C m -> Q m a -> wp C Q (Ret a) m.
Proof. by split. Qed.

Lemma wp_read_journal {A : Type} (C : fs -> Prop) (Q : fs -> result A SwapError -> Prop) parse p k m :
  C m -> (forall e, Q m (Err e)) ->
  (forall c j, m !! p = Some (NFile c) -> parse c = Some j -> wp C Q (k j) m) ->
  wp C Q (do? j := read_journal parse p in k j) m.
Proof.
  intros HC He Hk. split; [done|]. split; [|by split].
  intros c Hc. destruct (parse c) as [j|] eqn:Ep; [by apply (Hk c)|by split].
Qed.

Section calls.
Context (C R : fs -> Prop).

Lemma wp_rename a b step m :
  C m -> (forall x, m !! a = Some x -> m !! b = None ->
    C (<[b := x]> (delete a m)) /\ R (<[b := x]> (delete a m))) ->
  wp C (returns C R) (rename a b step) m.
Proof. intros HC Hx. cbn. unfold returns. split_and!; naive_solver. Qed.

Lemma wp_write_journal print_journal p j m :
  C m -> (forall s, C (<[p := NFile s]> m)) -> R (<[p := NFile (print_journal j)]> m) ->
  wp C (returns C R) (write_journal print_journal p j) m.
Proof. intros HC Hs HR. cbn. unfold returns. split_and!; naive_solver. Qed.

Lemma wp_remove_journal p m :
  C m -> C (delete p m) -> (forall m', m' = m \/ m' = delete p m -> m' !! p = None -> R m') ->
  wp C (returns C R) (remove_journal p) m.
Proof.
  intros HC Hd HR. cbn. unfold returns. split; [done|]. split; [|split].
  - intros c Hc. split; [done|]. split; [done|]. intros _ _. apply HR; [by right|]. by rewrite lookup_delete_eq.
  - intros Hn. split; [done|]. split; [done|]. intros _ _. apply HR; [by left|done].
  - done.
Qed.
End calls.

(** ** The paths of a swap are distinct *)

Lemma journal_path_ne install : journal_path install <> install.
Proof. unfold journal_path. intros E. rewrite <- (app_nil_r install) in E at 2. by apply app_inv_head in E. Qed.

Definition is_prev_path (install p : text) : Prop := exists t, p = install ++ lit ".prev-" ++ t.

Lemma prev_path_ne install p :
  is_prev_path install p -> p <> install /\ p <> journal_path install.
Proof.
  intros [t ->]. split; intros E.
  - rewrite <- (app_nil_r install) in E at 2. by apply app_inv_head in E.
  - by apply app_inv_head in E.
Qed.

Lemma wp_prev_path (C : fs -> Prop) install v m :
  C m -> wp C (fun m' p => m' = m /\ is_prev_path install p) (prev_path install v) m.
Proof.
  intros HC. unfold prev_path, prev_candidate. apply wp_bind. cbn. split_and!; [done..|].
  destruct (negb _); cbn; split_and!; try done.
  - by eexists.
  - intros t. split_and!; [done..|]. eexists. by rewrite <- !(assoc_L (++)).
Qed.

(** ** What recovery will find *)

Section recovery.
Context (parse_journal : text -> option Journal) (install : text).
Notation jpath := (journal_path install).

(** [o] is installed, or it is missing and the journal says where it is. *)
Definition recoverable (o : node) (m : fs) : Prop :=
  m !! install = Some o \/
  (m !! install = None /\ exists c prev, m !! jpath = Some (NFile c) /\
    parse_journal c = Some (mkJournal PrevRenamed prev) /\ prev <> jpath /\ m !! prev = Some o).

Lemma recoverable_jpath o m x : m !! install = Some o -> recoverable o (<[jpath := x]> m).
Proof. intros H. left. rewrite lookup_insert_ne; [done|apply journal_path_ne]. Qed.

(** What a recovery does to every other path. *)
Definition recovery_frame (o : node) (m m' : fs) : Prop := forall p,
  p <> install -> p <> jpath -> m' !! p = m !! p \/ (m' !! p = None /\ m !! p = Some o).

Lemma recovery_frame_refl o m : recovery_frame o m m.
Proof. intros p _ _. by left. Qed.

Lemma recovery_frame_delete o m m' : recovery_frame o m m' -> recovery_frame o m (delete jpath m').
Proof. intros H p H1 H2. rewrite lookup_delete_ne by done. by apply H. Qed.

Lemma wp_recover o m :
  recoverable o m ->
  wp (fun m' => recoverable o m' /\ recovery_frame o m m')
    (returns (fun m' => recoverable o m' /\ recovery_frame o m m')
       (fun m' => m' !! install = Some o /\ m' !! jpath = None /\ recovery_frame o m m'))
    (recover_if_interrupted parse_journal install) m.
Proof.
  intros Hr. pose proof (recovery_frame_refl o m) as Hf. unfold recover_if_interrupted.
  set (C := fun m' => recoverable o m' /\ recovery_frame o m m').
  assert (HC : C m) by by split.
  apply wp_exists; [done|]. case_bool_decide as Hj; cbn [negb].
  2: { cbn. split; [done|]. split; [done|]. intros _ _.
       apply eq_None_not_Some in Hj. destruct Hr as [Hr|(_ & c & prev & Hc & _)]; [done|congruence]. }
  apply wp_read_journal; [done|by intros; split|]. intros c j Hc Ep.
  do 2 (apply wp_exists; [done|]).
  assert (Hend : forall m1, m1 !! install = Some o -> recovery_frame o m m1 ->
    wp C (returns C (fun m' => m' !! install = Some o /\ m' !! jpath = None /\ recovery_frame o m m'))
      (remove_journal jpath) m1).
  { intros m1 Hi Hf1. pose proof (journal_path_ne install) as Hne.
    assert (Hd : delete jpath m1 !! install = Some o) by by rewrite lookup_delete_ne.
    apply wp_remove_journal.
    - by split; [left|].
    - split; [by left|by apply recovery_frame_delete].
    - intros m' [->| ->] Hn; split_and!; try done. by apply recovery_frame_delete. }
  destruct Hr as [Hi|(Hi & c' & prev & Hc' & Ep' & Hpj & Hp)].
  - (* installed: nothing to restore *)
    assert (HN : decide_recovery (phase j) (bool_decide (is_Some (m !! install)))
      (bool_decide (is_Some (m !! prev_path_of j))) = NoOp)
      by (rewrite Hi; by destruct (phase j)).
    rewrite HN. apply wp_try; [by intros; split|]. apply wp_ret; [done|]. split; [done|].
    intros [] _. by apply Hend.
  - assert (c' = c) as -> by congruence. assert (j = mkJournal PrevRenamed prev) as -> by congruence.
    cbn [phase prev_path_of]. rewrite Hi, Hp. cbn [bool_decide decide_recovery].
    assert (prev <> install) by congruence.
    apply wp_try; [by intros; split|]. set (m1 := <[install := o]> (delete prev m)).
    assert (Hi1 : m1 !! install = Some o) by apply lookup_insert_eq.
    assert (Hf1 : recovery_frame o m m1).
    { intros p H1 H2. unfold m1. rewrite lookup_insert_ne by done.
      destruct (decide (prev = p)) as [->|Hpp]; [right; by rewrite lookup_delete_eq|left; by rewrite lookup_delete_ne]. }
    eapply wp_mono; [done| |apply (wp_rename C (fun m' => m' = m1))]; [|done|].
    + intros m' r [HC' Hr']. split; [done|]. intros [] ->. rewrite (Hr' tt) by done. by apply Hend.
    + intros x Hx _. assert (x = o) as -> by congruence. split; [|done]. by split; [left|].
Qed.
End recovery.

(** ** The swap *)

Section swapping.
Context (print_journal : Journal -> text) (parse_journal : text -> option Journal).
(** [from_str] reads what [to_string] wrote. *)
Context (parse_print : forall j, parse_journal (print_journal j) = Some j).
Context (install staged : text) (o : node) (m0 : fs).
Context (Hsi : staged <> install) (Hsj : staged <> journal_path install).
Notation jpath := (journal_path install).
Notation recoverable := (recoverable parse_journal install).

(** In every state one complete set can be restored, the old one or the
    staged one, and the old one is still on disk. *)
Definition swap_safe (m : fs) : Prop :=
  exists s, (s = o \/ m0 !! staged = Some s) /\ recoverable s m /\
    exists p, p <> jpath /\ m !! p = Some o.

Definition swap_done (m : fs) : Prop :=
  exists s, (m0 !! staged = Some s \/ (m0 !! staged = None /\ s = o)) /\
    m !! install = Some s /\ m !! jpath = None.

Lemma recoverable_kept s m : recoverable s m -> exists p, p <> jpath /\ m !! p = Some s.
Proof.
  intros [Hi|(_ & c & prev & _ & _ & Hp & Ho)]; [|by exists prev].
  exists install. split; [|done]. intros E. by apply (journal_path_ne install).
Qed.

Lemma safe_old m : recoverable o m -> swap_safe m.
Proof. intros Hr. exists o. split; [by left|]. split; [done|]. by apply recoverable_kept. Qed.

Lemma safe_installed m : m !! install = Some o -> swap_safe m.
Proof. intros H. apply safe_old. by left. Qed.

(** Once the staged set [x] is in place, only the journal is still written. *)
Lemma wp_swap_finish prev x m :
  (m0 !! staged = Some x \/ (m0 !! staged = None /\ x = o)) -> m !! install = Some x ->
  (exists p, p <> jpath /\ m !! p = Some o) ->
  wp swap_safe (returns swap_safe swap_done)
    (do? _x := write_journal print_journal jpath (mkJournal StagedMoved prev) in remove_journal jpath) m.
Proof.
  intros Hx Hi Hk.
  assert (Hsafe : forall m', m' !! install = Some x -> (exists p, p <> jpath /\ m' !! p = Some o) -> swap_safe m').
  { intros m' Hi' Hk'. exists x. split; [naive_solver|]. split; [by left|done]. }
  assert (Hins : forall s, <[jpath := NFile s]> m !! install = Some x)
    by (intros; rewrite lookup_insert_ne; [done|apply journal_path_ne]).
  assert (Hkept : forall s, exists p, p <> jpath /\ <[jpath := NFile s]> m !! p = Some o)
    by (intros s; destruct Hk as (p & Hp & Ho); exists p; by rewrite lookup_insert_ne).
  apply wp_try; [by intros; split|].
  eapply wp_mono; [done| |apply (wp_write_journal swap_safe
    (fun m' => m' = <[jpath := NFile (print_journal (mkJournal StagedMoved prev))]> m)); auto].
  intros m' r [HC Hr]. split; [done|]. intros [] ->. rewrite (Hr tt eq_refl) in *.
  assert (Hd : delete jpath (<[jpath := NFile (print_journal (mkJournal StagedMoved prev))]> m) !! install = Some x)
    by (rewrite lookup_delete_ne; [done|apply journal_path_ne]).
  apply wp_remove_journal; [done| |].
  - apply Hsafe; [done|]. destruct Hk as (p & Hp & Ho). exists p.
    by rewrite lookup_delete_ne, lookup_insert_ne.
  - intros m1 [->| ->] Hn; exists x; auto.
Qed.

(** The renames, from a state without a pending recovery. *)
Lemma wp_swap_renames prev m :
  is_prev_path install prev -> m !! install = Some o -> recovery_frame install o m0 m ->
  wp swap_safe (returns swap_safe swap_done)
    (do? _w := write_journal print_journal jpath (mkJournal PrevRenamed prev) in
     do! present := exists_ install in
     do? _m := (if present then rename install prev (lit "rename install to prev") else Ret (Ok tt)) in
     do? _s := rename staged install (lit "rename staged into install") in
     do? _x := write_journal print_journal jpath (mkJournal StagedMoved prev) in
     remove_journal jpath) m.
Proof.
  intros Hprev Hi Hf. destruct (prev_path_ne _ _ Hprev) as [Hpi Hpj].
  pose proof (journal_path_ne install) as Hji.
  set (j := print_journal (mkJournal PrevRenamed prev)). set (m1 := <[jpath := NFile j]> m).
  assert (Hi1 : m1 !! install = Some o) by by unfold m1; rewrite lookup_insert_ne.
  apply wp_try; [by intros; split|].
  eapply wp_mono; [done| |apply (wp_write_journal swap_safe (fun m' => m' = m1)); [by apply safe_installed| |done]].
  2: { intros s. apply safe_installed. by rewrite lookup_insert_ne. }
  intros m' r [HC Hr]. split; [done|]. intros [] ->. rewrite (Hr tt eq_refl) in *. clear Hr.
  apply wp_exists; [done|]. rewrite Hi1. cbn [bool_decide].
  apply wp_try; [by intros; split|].
  set (m2 := <[prev := o]> (delete install m1)).
  assert (Hi2 : m2 !! install = None) by by unfold m2; rewrite lookup_insert_ne, lookup_delete_eq.
  assert (Hp2 : m2 !! prev = Some o) by apply lookup_insert_eq.
  assert (Hs2 : swap_safe m2).
  { apply safe_old. right. split; [done|]. exists j, prev. split_and!; [|by apply parse_print|done..].
    unfold m2, m1. by rewrite lookup_insert_ne, lookup_delete_ne, lookup_insert_eq. }
  eapply wp_mono; [done| |apply (wp_rename swap_safe (fun m' => m' = m2 /\ m1 !! prev = None)); [done|]].
  2: { intros x Hx Hn. assert (x = o) as -> by congruence. by split_and!. }
  intros m3 r [HC' Hr]. split; [done|]. intros [] ->. destruct (Hr tt eq_refl) as [-> Hnp].
  apply wp_try; [by intros; split|].
  assert (Hstaged : forall x, m2 !! staged = Some x ->
    (m0 !! staged = Some x \/ (m0 !! staged = None /\ x = o)) /\
    exists p, p <> jpath /\ <[install := x]> (delete staged m2) !! p = Some o).
  { intros x Hx. destruct (decide (staged = prev)) as [->|Hsp].
    - assert (x = o) as -> by congruence. split; [|exists install; split; [done|apply lookup_insert_eq]].
      unfold m1 in Hnp. rewrite lookup_insert_ne in Hnp by done.
      destruct (Hf prev Hpi Hpj) as [Hsame|[_ Hold]]; [right; split; [congruence|done]|by left].
    - split; [left|exists prev; split; [done|]; by rewrite lookup_insert_ne, lookup_delete_ne].
      unfold m2, m1 in Hx. rewrite lookup_insert_ne, lookup_delete_ne, lookup_insert_ne in Hx by done.
      destruct (Hf staged Hsi Hsj) as [<-|[Hn _]]; congruence. }
  eapply wp_mono; [done| |apply (wp_rename swap_safe (fun m' => exists x, m2 !! staged = Some x /\
    m' = <[install := x]> (delete staged m2))); [done|]].
  - intros m4 r [HC2 Hr2]. split; [done|]. intros [] ->. destruct (Hr2 tt eq_refl) as (x & Hx & ->).
    destruct (Hstaged x Hx). apply (wp_swap_finish prev x); [done|apply lookup_insert_eq|done].
  - intros x Hx _. destruct (Hstaged x Hx) as [Hor Hk]. split; [|by exists x].
    exists x. split; [naive_solver|]. split; [left; apply lookup_insert_eq|done].
Qed.

Lemma wp_swap v :
  recoverable o m0 ->
  wp swap_safe (returns swap_safe swap_done) (perform_swap print_journal parse_journal staged install v) m0.
Proof.
  intros Hr. unfold perform_swap. apply wp_try; [by intros; split|].
  eapply wp_mono; [| |exact (wp_recover parse_journal install o m0 Hr)].
  - intros m [Hm _]. by apply safe_old.
  - intros m r [[HC _] Hok]. split; [by apply safe_old|]. intros [] ->.
    destruct (Hok tt eq_refl) as (Hi & _ & Hf).
    apply wp_bind. eapply wp_mono; [done| |apply (wp_prev_path swap_safe); by apply safe_old].
    intros m' prev [-> Hprev]. by apply wp_swap_renames.
Qed.
End swapping.

(** ** Runs without faults *)

Lemma run_exec {A : Type} t (i : io A) : forall m, exec m i (run t m i).1 (Some (run t m i).2).
Proof.
  induction i as [a|p k IH|p k IH|p s k IH|a b k IH|p k IH|k IH|p k IH|d n k IH|d n s k IH]; intros m; cbn.
  - constructor.
  - constructor. apply IH.
  - destruct (m !! p) as [[c|es]|] eqn:E; [eapply exec_read; [exact E|]|apply exec_read_fail..]; apply IH.
  - destruct (m !! p) as [[c|es]|] eqn:E;
      [apply exec_write; [rewrite E; intros []|]|apply exec_write_fail|apply exec_write; [rewrite E; intros []|]]; apply IH.
  - destruct (m !! a) as [x|] eqn:Ea, (m !! b) as [y|] eqn:Eb;
      try (apply exec_rename_fail; apply IH). eapply exec_rename; [exact Ea|exact Eb|apply IH].
  - destruct (m !! p) as [[c|es]|] eqn:E;
      [eapply exec_remove; [exact E|]|apply exec_remove_fail|apply exec_remove_none; [exact E|]]; apply IH.
  - eapply exec_now, IH.
  - constructor. apply IH.
  - destruct (file_in m d n) as [c|] eqn:E; [eapply exec_read_in; [exact E|]|apply exec_read_in_fail]; apply IH.
  - destruct (put_in m d n s) as [m1|] eqn:E; [eapply exec_write_in; [exact E|]|apply exec_write_in_fail]; apply IH.
Qed.

Section properties.
Context (print_journal : Journal -> text) (parse_journal : text -> option Journal) (install : text).
Notation jpath := (journal_path install).
Notation recoverable := (recoverable parse_journal install).
Notation perform_swap := (perform_swap print_journal parse_journal).
Notation recover_if_interrupted := (recover_if_interrupted parse_journal).

(** There is no journal, or it can be read. *)
Definition journal_readable (m : fs) : Prop :=
  match m !! jpath with
  | None => True
  | Some (NFile c) => is_Some (parse_journal c)
  | Some (NDir _) => False
  end.

Lemma recover_run t o m :
  recoverable o m -> journal_readable m -> (run t m (recover_if_interrupted install)).2 = Ok tt.
Proof.
  intros Hr Hj. unfold journal_readable in Hj. unfold Swap.recover_if_interrupted. cbn.
  destruct (m !! jpath) as [[c|es]|] eqn:Ej; [|done|done]. cbn. rewrite Ej. cbn.
  destruct (parse_journal c) as [j|] eqn:Ep; [|by destruct Hj]. cbn.
  case_bool_decide as Hd; cbn; [|by rewrite Ej].
  destruct j as [[] prev]; cbn in *; [|done].
  destruct (m !! install) as [y|] eqn:Ei; [done|]. destruct (m !! prev) as [x|] eqn:Ex; [|done]. cbn.
  pose proof (journal_path_ne install). rewrite lookup_insert_ne by congruence.
  destruct (decide (prev = jpath)) as [->|Hp]; [by rewrite lookup_delete_eq|].
  by rewrite lookup_delete_ne, Ej.
Qed.

(** Histories: swaps and recoveries that complete, fail or crash, and new
    trees put on disk; [sets] are the trees the swaps were given. *)
Inductive updates (m : fs) : list node -> fs -> Prop :=
| up_start : updates m [] m
| up_swap sets m1 staged v m2 r :
    updates m sets m1 -> staged <> install -> staged <> jpath ->
    exec m1 (perform_swap staged install v) m2 r ->
    updates m (option_list (m1 !! staged) ++ sets) m2
| up_recover sets m1 m2 r :
    updates m sets m1 -> exec m1 (recover_if_interrupted install) m2 r -> updates m sets m2
| up_new sets m1 p x :
    updates m sets m1 -> p <> install -> p <> jpath -> m1 !! p = None -> updates m sets (<[p := x]> m1).

Lemma recoverable_new s m p x :
  p <> install -> p <> jpath -> m !! p = None -> recoverable s m -> recoverable s (<[p := x]> m).
Proof.
  intros Hi Hj Hn [H|(H & c & prev & Hc & Hp & Hpj & Hs)]; [left|right; split; [|exists c, prev; split_and!]];
    try (by rewrite lookup_insert_ne); try done.
  rewrite lookup_insert_ne; [done|congruence].
Qed.

Lemma updates_recoverable o m sets m' :
  (forall j, parse_journal (print_journal j) = Some j) ->
  recoverable o m -> updates m sets m' -> exists s, s ∈ o :: sets /\ recoverable s m'.
Proof.
  intros Hpp Hr Hu. induction Hu as [|sets m1 staged v m2 r _ IH Hsi Hsj He|sets m1 m2 r _ IH He|sets m1 p x _ IH Hi Hj Hn].
  - exists o. split; [left|done].
  - destruct IH as (s & Hs & Hrs).
    destruct (wp_sound _ _ _ _ _ _ (wp_swap print_journal parse_journal Hpp install staged s m1 Hsi Hsj v Hrs) He)
      as [(s' & Hs' & Hrs' & _) _].
    exists s'. split; [|done]. destruct Hs' as [->|Hst].
    + apply elem_of_cons in Hs as [->|Hs]; [left|right]. apply elem_of_app. by right.
    + right. rewrite Hst. cbn. left.
  - destruct IH as (s & Hs & Hrs).
    destruct (wp_sound _ _ _ _ _ _ (wp_recover parse_journal install s m1 Hrs) He) as [[Hrs' _] _]. by exists s.
  - destruct IH as (s & Hs & Hrs). exists s. split; [done|]. by apply recoverable_new.
Qed.
End properties.

(** ** The properties *)


(** a swap that returns [Ok] has installed the tree that was staged, left no
    journal, and kept the previous set somewhere on disk; without faults it does
    return [Ok], and changes nothing but the staged path, the installed path and
    the path the previous set moves to. *)
Theorem swap_installs print_journal parse_journal install staged v o s m :
  (forall j, parse_journal (print_journal j) = Some j) ->
  staged <> install -> staged <> journal_path install ->
  m !! install = Some o -> m !! staged = Some s ->
  (forall m', exec m (perform_swap print_journal parse_journal staged install v) m' (Some (Ok tt)) ->
    m' !! install = Some s /\ m' !! journal_path install = None /\ exists p, m' !! p = Some o) /\
  (m !! journal_path install = None -> m !! prev_candidate install v = None ->
    forall t, run t m (perform_swap print_journal parse_journal staged install v) =
      (<[install := s]> (delete staged (<[prev_candidate install v := o]> (delete install m))), Ok tt)).
Proof.
  intros Hpp Hsi Hsj Hi Hs. split.
  - intros m' He.
    destruct (wp_sound _ _ _ _ _ _ (wp_swap print_journal parse_journal Hpp install staged o m Hsi Hsj v
      (or_introl Hi)) He) as [(_ & _ & _ & p & _ & Ho) HQ].
    destruct (HQ _ eq_refl) as [_ Hret]. destruct (Hret tt eq_refl) as (s' & Hs' & Hi' & Hj').
    split_and!; [|done|by exists p]. destruct Hs' as [Hs'|[Hn _]]; congruence.
  - intros Hj Hp t. set (prev := prev_candidate install v).
    destruct (prev_path_ne install prev) as [Hpi Hpj].
    { unfold prev, prev_candidate. by eexists. }
    pose proof (journal_path_ne install) as Hji.
    assert (Hsp : staged <> prev) by (intros E; rewrite E in Hs; unfold prev in Hs; congruence).
    unfold perform_swap, recover_if_interrupted, prev_path, remove_journal, rename, write_journal, exists_.
    fold prev. change (m !! prev = None) in Hp. clearbody prev.
    set (jpath := journal_path install) in *. clearbody jpath.
    cbn. rewrite Hj. cbn. rewrite Hp. cbn. rewrite Hj. cbn. simplify_map_eq.
    f_equal. apply map_eq. intros p.
    destruct (decide (p = jpath)) as [->|]; [by simplify_map_eq|].
    destruct (decide (p = install)) as [->|]; [by simplify_map_eq|].
    destruct (decide (p = staged)) as [->|]; [by simplify_map_eq|].
    by destruct (decide (p = prev)) as [->|]; simplify_map_eq.
Qed.

(** A crash while the journal is being written can leave an empty journal, and
    from then on no swap ever succeeds or changes anything, until somebody
    removes the journal by hand. *)
Theorem torn_journal_blocks print_journal parse_journal install staged v o m :
  parse_journal [] = None ->
  m !! install = Some o -> m !! journal_path install = None -> m !! prev_candidate install v = None ->
  exists m1,
    exec m (perform_swap print_journal parse_journal staged install v) m1 None /\
    m1 !! install = Some o /\
    forall staged' v' m2 r,
      exec m1 (perform_swap print_journal parse_journal staged' install v') m2 r ->
      m2 = m1 /\ r <> Some (Ok tt).
Proof.
  intros Hparse Hi Hj Hp. set (m1 := <[journal_path install := NFile []]> m).
  assert (Hj1 : m1 !! journal_path install = Some (NFile [])) by apply lookup_insert_eq.
  exists m1. split_and!.
  - unfold perform_swap, recover_if_interrupted, prev_path, exists_. cbn -[journal_path prev_candidate].
    constructor. rewrite Hj. cbn -[journal_path prev_candidate]. constructor. rewrite Hp.
    cbn -[journal_path prev_candidate]. apply (exec_write_torn _ _ _ _ 0). rewrite Hj. intros [].
  - unfold m1. rewrite lookup_insert_ne; [done|apply journal_path_ne].
  - intros staged' v' m2 r He.
    assert (Hwp : wp (fun m' => m' = m1) (fun m' (r : result unit SwapError) => m' = m1 /\ r <> Ok tt)
      (perform_swap print_journal parse_journal staged' install v') m1).
    { unfold perform_swap. apply wp_try; [by intros|]. unfold recover_if_interrupted.
      apply wp_exists; [done|]. rewrite Hj1. cbn [bool_decide negb].
      apply wp_read_journal; [done|by split; intros|]. intros c j Hc Hpc. congruence. }
    destruct (wp_sound _ _ _ _ _ _ Hwp He) as [-> HQ]. split; [done|].
    intros ->. by destruct (HQ _ eq_refl) as [_ Hr].
Qed.

Section command.
Context (print_journal : Journal -> text) (parse_journal : text -> option Journal).
Context {Number : Type} (as_u64 as_i64 : Number -> option Z) (number_text : Number -> text).
Context (number_of : Z -> Number) {Key : Type}.
Context (hex_decode : text -> option (list Z)) (ed_verify : Key -> text -> list Z -> bool).
Context (sha256_hex : list Z -> text) (is_sep : Z -> bool) (dir_len : Z).
Context (parse_signed : text -> option SignedManifest) (dev_trust_root : Key).
Notation verify := (verify_staged_set as_u64 as_i64 number_text number_of hex_decode ed_verify
  sha256_hex is_sep dir_len).
Notation verify_command := (verify_command as_u64 as_i64 number_text number_of hex_decode ed_verify
  sha256_hex is_sep dir_len dev_trust_root).
Notation run_swap := (run_swap print_journal parse_journal as_u64 as_i64 number_text number_of hex_decode
  ed_verify sha256_hex is_sep dir_len parse_signed dev_trust_root).

(** The staged tree passed the verification against the manifest file. *)
Definition passed (m : fs) (staged mdir mname : text) (t : text) : Prop :=
  exists signed, file_in m mdir mname = Some t /\ parse_signed t = Some signed /\
    verify (m !! staged) signed dev_trust_root protocol_default = Some (Ok tt).

Lemma verify_command_ok tree signed :
  verify_command tree signed = Ok tt -> verify tree signed dev_trust_root protocol_default = Some (Ok tt).
Proof.
  unfold Swap.verify_command. destruct (verify tree signed _ _) as [[[]|e]|]; done.
Qed.

(** the command touches the disk only after the staged tree has passed the
    verification against the manifest it read; when it succeeds over an
    existing installation, what is installed is that very tree, with the
    manifest's text as its [update-manifest.json]. *)
Theorem run_swap_verified staged install mdir mname o x m m' r :
  (forall j, parse_journal (print_journal j) = Some j) ->
  staged <> install -> staged <> journal_path install -> m !! install = Some o -> m !! staged = Some x ->
  exec m (run_swap staged install mdir mname) m' r ->
  (m' = m \/ exists t, passed m staged mdir mname t) /\
  (r = Some (Ok tt) -> exists t es, passed m staged mdir mname t /\ m !! staged = Some (NDir es) /\
    m' !! install = Some (NDir (entry_set INSTALLED_MANIFEST (NFile t) es))).
Proof.
  intros Hpp Hsi Hsj Hi Hx He. set (C := fun m' : fs => m' = m \/ exists t, passed m staged mdir mname t).
  assert (HCm : C m) by by left.
  enough (Hwp : wp C (fun m' r => r = Ok tt -> exists t es, passed m staged mdir mname t /\
    m !! staged = Some (NDir es) /\ m' !! install = Some (NDir (entry_set INSTALLED_MANIFEST (NFile t) es)))
    (run_swap staged install mdir mname) m).
  { destruct (wp_sound _ _ _ _ _ _ Hwp He) as [HC HQ]. split; [done|]. intros ->. by apply (HQ (Ok tt)). }
  unfold Swap.run_swap. split; [done|]. split; [|by split].
  intros t Ht. destruct (parse_signed t) as [signed|] eqn:Ep; [|by split].
  split; [done|]. destruct (verify_command (m !! staged) signed) as [[]|e] eqn:Ev; [|by split].
  assert (Hpass : passed m staged mdir mname t) by (exists signed; split_and!; [done..|by apply verify_command_ok]).
  assert (HC : forall m', C m') by (intros; right; by exists t).
  apply wp_bind. assert (Hres : forall ver, wp C (fun m' r => r = Ok tt -> exists t es,
    passed m staged mdir mname t /\ m !! staged = Some (NDir es) /\
    m' !! install = Some (NDir (entry_set INSTALLED_MANIFEST (NFile t) es)))
    (do! swapped := perform_swap print_journal parse_journal staged install ver in
     match swapped with
     | Err e => Ret (Err (SwapFailed e))
     | Ok _ => WriteIn install INSTALLED_MANIFEST t (fun ok => Ret (if ok then Ok tt else Err WritingManifest))
     end) m);
    [|unfold read_installed_version; split; [done|]; split; [intros c _|]; (split; [done|]; apply Hres)].
  intros ver. apply wp_bind. eapply wp_mono; [by auto| |
    exact (wp_swap print_journal parse_journal Hpp install staged o m Hsi Hsj ver (or_introl Hi))].
  intros m1 [[]|e] [_ Hret]; [|by split].
  destruct (Hret tt eq_refl) as (s & Hs & Hi1 & _).
  assert (Hst : m !! staged = Some s).
  { destruct Hs as [|[Hn _]]; [done|congruence]. }
  split; [done|]. split; [|split; [by split; auto; intros|by split; auto; intros]].
  intros m2 Hput. split; [done|]. intros _. unfold put_in in Hput. rewrite Hi1 in Hput.
  destruct s as [c|es]; [done|]. exists t, es. split; [done|]. split; [done|].
  destruct (entry_get _ es) as [[|]|]; simplify_eq; by rewrite lookup_insert_eq.
Qed.
End command.

(** ** Examples *)

Definition ex_print_journal (j : Journal) : text :=
  (match phase j with PrevRenamed => 1 | StagedMoved => 2 end) :: prev_path_of j.
Definition ex_parse_journal (s : text) : option Journal :=
  match s with
  | c :: p => if c =? 1 then Some (mkJournal PrevRenamed p)
              else if c =? 2 then Some (mkJournal StagedMoved p) else None
  | [] => None
  end.

Lemma ex_parse_print j : ex_parse_journal (ex_print_journal j) = Some j.
Proof. by destruct j as [[] p]. Qed.

Definition ex_set (n : Z) : node := NDir [(lit "app.exe", NFile [n])].
Definition ex_install : text := lit "app".
Definition ex_staged : text := lit "staged".
Definition ex_fs : fs := {[ ex_install := ex_set 1; ex_staged := ex_set 2 ]}.

(** A crash between the two renames. *)
Definition ex_crashed : fs :=
  <[prev_candidate ex_install (lit "1.0") := ex_set 1]> (delete ex_install
    (<[journal_path ex_install :=
         NFile (ex_print_journal (mkJournal PrevRenamed (prev_candidate ex_install (lit "1.0"))))]> ex_fs)).

Lemma exec_exists_eq {A : Type} m p (k : bool -> io A) b m' r :
  bool_decide (is_Some (m !! p)) = b -> exec m (k b) m' r -> exec m (Exists p k) m' r.
Proof. intros <-. apply exec_exists. Qed.

Lemma ex_crash_exec :
  exec ex_fs (perform_swap ex_print_journal ex_parse_journal ex_staged ex_install (lit "1.0")) ex_crashed None.
Proof.
  apply (exec_exists_eq _ _ _ false); [reflexivity|]. apply (exec_exists_eq _ _ _ false); [reflexivity|].
  apply exec_write; [by intros []|]. apply (exec_exists_eq _ _ _ true); [reflexivity|].
  apply (exec_rename _ _ _ (ex_set 1)); [reflexivity|reflexivity|]. apply exec_crash.
Qed.


Lemma swap_installs_witness :
  run 0 ex_fs (perform_swap ex_print_journal ex_parse_journal ex_staged ex_install (lit "1.0")) =
    (<[ex_install := ex_set 2]> (delete ex_staged
      (<[prev_candidate ex_install (lit "1.0") := ex_set 1]> (delete ex_install ex_fs))), Ok tt).
Proof.
  destruct (swap_installs ex_print_journal ex_parse_journal ex_install ex_staged (lit "1.0")
    (ex_set 1) (ex_set 2) ex_fs) as [_ H].
  - exact ex_parse_print.
  - by_decide.
  - by_decide.
  - reflexivity.
  - reflexivity.
  - apply H; reflexivity.
Defined.

Lemma torn_journal_blocks_witness :
  exists m1, m1 !! ex_install = Some (ex_set 1) /\
    forall staged' v' m2 r,
      exec m1 (perform_swap ex_print_journal ex_parse_journal staged' ex_install v') m2 r ->
      m2 = m1 /\ r <> Some (Ok tt).
Proof.
  destruct (torn_journal_blocks ex_print_journal ex_parse_journal ex_install ex_staged (lit "1.0")
    (ex_set 1) ex_fs) as (m1 & _ & H1 & H2); [reflexivity..|].
  exists m1. split; [exact H1|exact H2].
Defined.

(** A command over concrete parameters: manifests are looked up by their text. *)
Definition ex_cli_manifest : Manifest.Manifest :=
  mkManifest (lit "2.0") protocol_default [mkComponent (lit "app.exe") RClient (lit "02") 1] (lit "dev").
Definition ex_parse_signed (t : text) : option SignedManifest :=
  if bool_decide (t = [77]) then Some (mkSigned ex_cli_manifest []) else None.
Definition ex_hash2 (content : list Z) : text :=
  [hex_digit (sumZ content mod 256 / 16); hex_digit (sumZ content mod 16)].

Definition ex_cli_fs : fs :=
  {[ ex_install := ex_set 1; ex_staged := ex_set 2; lit "dist" := NDir [(lit "m.json", NFile [77])] ]}.

Notation ex_run_swap := (run_swap ex_print_journal ex_parse_journal ex_u64 ex_i64 ex_number_text inl
  (fun _ => Some (replicate 64 0)) (fun (_ : unit) _ _ => true) ex_hash2 is_slash 0 ex_parse_signed tt).

Lemma run_swap_verified_witness :
  (run 0 ex_cli_fs (ex_run_swap ex_staged ex_install (lit "dist") (lit "m.json"))).2 = Ok tt /\
  exists t es, ex_cli_fs !! ex_staged = Some (NDir es) /\
    (run 0 ex_cli_fs (ex_run_swap ex_staged ex_install (lit "dist") (lit "m.json"))).1 !! ex_install =
      Some (NDir (entry_set INSTALLED_MANIFEST (NFile t) es)).
Proof.
  assert (E : (run 0 ex_cli_fs (ex_run_swap ex_staged ex_install (lit "dist") (lit "m.json"))).2 = Ok tt)
    by reflexivity.
  split; [exact E|].
  destruct (run_swap_verified ex_print_journal ex_parse_journal ex_u64 ex_i64 ex_number_text inl
    (fun _ => Some (replicate 64 0)) (fun (_ : unit) _ _ => true) ex_hash2 is_slash 0 ex_parse_signed tt
    ex_staged ex_install (lit "dist") (lit "m.json") (ex_set 1) (ex_set 2) ex_cli_fs
    (run 0 ex_cli_fs (ex_run_swap ex_staged ex_install (lit "dist") (lit "m.json"))).1
    (Some (run 0 ex_cli_fs (ex_run_swap ex_staged ex_install (lit "dist") (lit "m.json"))).2)) as [_ H].
  - exact ex_parse_print.
  - by_decide.
  - by_decide.
  - reflexivity.
  - reflexivity.
  - apply run_exec.
  - destruct (H (f_equal Some E)) as (t & es & _ & H1 & H2). exists t, es. split; [exact H1|exact H2].
Defined.
