(* ===== verification/DesktopControl.v ===== *)
(** * The desktop-control contract (common/src/desktop_control.rs)

    One framing for the cursor, display, privacy, clipboard and file-transfer
    domains: the envelope, the ownership lease, and each domain's messages.
    Bytes are [Z] in [0, 256); a [&str] is its characters (Text, Utf8). *)
From S2P Require Import Prelude Text Utf8.

Definition CONTROL_VERSION : Z := 1.
Definition CONTROL_HEADER_LEN : Z := 12.
Definition CONTROL_MAX_PAYLOAD : Z := 262144.

Inductive ControlDomain : Type := DCursor | DDisplay | DPrivacy | DClipboard | DFileTransfer.

Definition domain_to_u8 (d : ControlDomain) : Z :=
  match d with DCursor => 1 | DDisplay => 2 | DPrivacy => 3 | DClipboard => 4 | DFileTransfer => 5 end.

Definition domain_from_u8 (code : Z) : option ControlDomain :=
  if code =? 1 then Some DCursor
  else if code =? 2 then Some DDisplay
  else if code =? 3 then Some DPrivacy
  else if code =? 4 then Some DClipboard
  else if code =? 5 then Some DFileTransfer
  else None.

Inductive DowngradeReason : Type :=
| Unsupported
| CapabilityMismatch
| ResourceBusy
| StaleGeneration
| PolicyDenied
| TransientError
| VersionMismatch
| Unknown (raw : Z).

Definition reason_to_u8 (r : DowngradeReason) : Z :=
  match r with
  | Unsupported => 1
  | CapabilityMismatch => 2
  | ResourceBusy => 3
  | StaleGeneration => 4
  | PolicyDenied => 5
  | TransientError => 6
  | VersionMismatch => 7
  | Unknown raw => raw
  end.

Definition reason_from_u8 (code : Z) : option DowngradeReason :=
  if code =? 0 then None
  else if code =? 1 then Some Unsupported
  else if code =? 2 then Some CapabilityMismatch
  else if code =? 3 then Some ResourceBusy
  else if code =? 4 then Some StaleGeneration
  else if code =? 5 then Some PolicyDenied
  else if code =? 6 then Some TransientError
  else if code =? 7 then Some VersionMismatch
  else Some (Unknown code).

(** [reason.map_or(0, DowngradeReason::to_u8)]. *)
Definition reason_byte (r : option DowngradeReason) : Z :=
  match r with Some r => reason_to_u8 r | None => 0 end.

(** ** Generations and the lease *)

Definition ControlGeneration : Type := Z.

Definition next (g : ControlGeneration) : ControlGeneration := wrap32 (g + 1).

Definition supersedes (self other : ControlGeneration) : bool :=
  negb (self =? other) && (wrap32 (self - other) <? 2147483648).

(** [OwnershipLease]: its generation. *)
Definition OwnershipLease : Type := option ControlGeneration.

Definition lease_new : OwnershipLease := None.

Definition admit_claim (l : OwnershipLease) (incoming : ControlGeneration) : OwnershipLease * bool :=
  match l with
  | None => (Some incoming, true)
  | Some current =>
      if (incoming =? current) || supersedes incoming current then (Some incoming, true)
      else (Some current, false)
  end.

Definition release (l : OwnershipLease) : OwnershipLease := None.

(** ** The envelope *)

Record ControlEnvelope := mkEnvelope {
  domain : Z;
  kind : Z;
  generation : ControlGeneration;
  payload : list Z
}.

Definition typed_domain (e : ControlEnvelope) : option ControlDomain := domain_from_u8 (domain e).

Definition encode_envelope (d : ControlDomain) (kind : Z) (generation : ControlGeneration) (payload : list Z) :
    option (list Z) :=
  if CONTROL_MAX_PAYLOAD <? len payload then None
  else Some ([CONTROL_VERSION] ++ [domain_to_u8 d] ++ u16_le kind ++ u32_le generation
             ++ u32_le (wrap32 (len payload)) ++ payload).

Definition decode_envelope (buf : list Z) : option ControlEnvelope :=
  if len buf <? CONTROL_HEADER_LEN then None
  else if negb (at0 buf 0 =? CONTROL_VERSION) then None
  else
    let payload_len := le_field buf 8 12 in
    if CONTROL_MAX_PAYLOAD <? payload_len then None
    else if len buf <? CONTROL_HEADER_LEN + payload_len then None
    else Some (mkEnvelope (at0 buf 1) (le_field buf 2 4) (le_field buf 4 8)
                 (take (Z.to_nat payload_len) (drop 12 buf))).

Inductive TransitionStatus : Type := Applied | Downgraded | Rejected.

Definition status_to_u8 (s : TransitionStatus) : Z :=
  match s with Applied => 0 | Downgraded => 1 | Rejected => 2 end.

Definition status_from_u8 (code : Z) : option TransitionStatus :=
  if code =? 0 then Some Applied
  else if code =? 1 then Some Downgraded
  else if code =? 2 then Some Rejected
  else None.

(** ** Display *)

Definition DISPLAY_KIND_MODE_REQUEST : Z := 1.
Definition DISPLAY_KIND_MODE_RESULT : Z := 2.
Definition MODE_REQUEST_LEN : Z := 10.
Definition MODE_RESULT_LEN : Z := 12.

Record ModeRequest := mkModeRequest {
  rq_output_id : Z;
  rq_width : Z;
  rq_height : Z;
  rq_refresh_mhz : Z
}.

Record ModeResult := mkModeResult {
  rs_output_id : Z;
  rs_width : Z;
  rs_height : Z;
  rs_refresh_mhz : Z;
  rs_status : TransitionStatus;
  rs_reason : option DowngradeReason
}.

Definition encode_mode_request (r : ModeRequest) : list Z :=
  u16_le (rq_output_id r) ++ u16_le (rq_width r) ++ u16_le (rq_height r) ++ u32_le (rq_refresh_mhz r).

Definition decode_mode_request (buf : list Z) : option ModeRequest :=
  if len buf <? MODE_REQUEST_LEN then None
  else Some (mkModeRequest (le_field buf 0 2) (le_field buf 2 4) (le_field buf 4 6) (le_field buf 6 10)).

Definition encode_mode_result (r : ModeResult) : list Z :=
  u16_le (rs_output_id r) ++ u16_le (rs_width r) ++ u16_le (rs_height r) ++ u32_le (rs_refresh_mhz r)
  ++ [status_to_u8 (rs_status r)] ++ [reason_byte (rs_reason r)].

Definition decode_mode_result (buf : list Z) : option ModeResult :=
  if len buf <? MODE_RESULT_LEN then None
  else
    match status_from_u8 (at0 buf 10) with
    | None => None
    | Some status =>
        Some (mkModeResult (le_field buf 0 2) (le_field buf 2 4) (le_field buf 4 6) (le_field buf 6 10)
                status (reason_from_u8 (at0 buf 11)))
    end.

(** [AppliedMode] has the fields of a request. *)
Record AppliedMode := mkApplied {
  ap_output_id : Z;
  ap_width : Z;
  ap_height : Z;
  ap_refresh_mhz : Z
}.

Record OutputSelection := mkSelection {
  applied : option AppliedMode;
  pending : option ModeRequest
}.

Definition selection_default : OutputSelection := mkSelection None None.

Definition request (s : OutputSelection) (r : ModeRequest) : OutputSelection := mkSelection (applied s) (Some r).

Definition reconcile (s : OutputSelection) (r : ModeResult) : OutputSelection * TransitionStatus :=
  let a :=
    match rs_status r with
    | Applied | Downgraded =>
        Some (mkApplied (rs_output_id r) (rs_width r) (rs_height r) (rs_refresh_mhz r))
    | Rejected => applied s
    end in
  (mkSelection a None, rs_status r).

Definition on_output_removed (s : OutputSelection) (output_id fallback_output : Z) :
    OutputSelection * option ModeRequest :=
  if bool_decide (ap_output_id <$> applied s = Some output_id) then
    let r := mkModeRequest fallback_output 0 0 0 in
    (mkSelection None (Some r), Some r)
  else (s, None).

(** ** Privacy *)

Definition PRIVACY_KIND_REQUEST : Z := 1.
Definition PRIVACY_KIND_STATE : Z := 2.
Definition PROTECT_BLANK_DISPLAY : Z := 1.
Definition PROTECT_BLOCK_LOCAL_INPUT : Z := 2.
Definition PROTECT_ALL : Z := Z.lor PROTECT_BLANK_DISPLAY PROTECT_BLOCK_LOCAL_INPUT.
Definition PRIVACY_REQUEST_LEN : Z := 2.
Definition PRIVACY_STATE_LEN : Z := 4.

Record PrivacyRequest := mkPrivacyRequest {
  enable : bool;
  pr_protections : Z
}.

Record PrivacyState := mkPrivacyState {
  ps_active : bool;
  protections_effective : Z;
  ps_status : TransitionStatus;
  ps_reason : option DowngradeReason
}.

Definition encode_privacy_request (r : PrivacyRequest) : list Z := [bool_byte (enable r); pr_protections r].

Definition decode_privacy_request (buf : list Z) : option PrivacyRequest :=
  if len buf <? PRIVACY_REQUEST_LEN then None
  else
    let protections := at0 buf 1 in
    if negb (Z.land protections (Z.lnot PROTECT_ALL) =? 0) then None
    else Some (mkPrivacyRequest (negb (at0 buf 0 =? 0)) protections).

Definition encode_privacy_state (s : PrivacyState) : list Z :=
  [bool_byte (ps_active s); protections_effective s; status_to_u8 (ps_status s); reason_byte (ps_reason s)].

Definition decode_privacy_state (buf : list Z) : option PrivacyState :=
  if len buf <? PRIVACY_STATE_LEN then None
  else
    match status_from_u8 (at0 buf 2) with
    | None => None
    | Some status =>
        Some (mkPrivacyState (negb (at0 buf 0 =? 0)) (at0 buf 1) status (reason_from_u8 (at0 buf 3)))
    end.

(** ** Cursor *)

Definition CURSOR_KIND_AUTHORITY : Z := 1.
Definition CURSOR_AUTHORITY_LEN : Z := 1.

Inductive CursorOwner : Type := OwnerHost | OwnerClient.

Definition owner_to_u8 (o : CursorOwner) : Z := match o with OwnerHost => 0 | OwnerClient => 1 end.

Definition owner_from_u8 (code : Z) : option CursorOwner :=
  if code =? 0 then Some OwnerHost else if code =? 1 then Some OwnerClient else None.

Definition encode_authority (o : CursorOwner) : list Z := [owner_to_u8 o].

Definition decode_authority (buf : list Z) : option CursorOwner :=
  if len buf <? CURSOR_AUTHORITY_LEN then None else owner_from_u8 (at0 buf 0).

(** ** Clipboard *)

Definition CLIPBOARD_KIND_OFFER : Z := 1.
Definition CLIPBOARD_KIND_REQUEST : Z := 2.
Definition CLIP_TEXT : Z := 1.
Definition CLIP_PNG : Z := 2.
Definition CLIP_FILE_LIST : Z := 4.
Definition CLIP_ALL : Z := Z.lor (Z.lor CLIP_TEXT CLIP_PNG) CLIP_FILE_LIST.
Definition CLIPBOARD_OFFER_LEN : Z := 1.
Definition CLIPBOARD_REQUEST_LEN : Z := 1.

Definition encode_clip_offer (kinds : Z) : list Z := [Z.land kinds CLIP_ALL].

Definition decode_clip_offer (buf : list Z) : option Z :=
  if len buf <? CLIPBOARD_OFFER_LEN then None else Some (Z.land (at0 buf 0) CLIP_ALL).

(** [u8::count_ones]. *)
Definition count_ones (b : Z) : nat := length (filter (fun i => Z.testbit b (Z.of_nat i) = true) (seq 0 8)).

Definition encode_clip_request (kind : Z) : list Z := [kind].

Definition decode_clip_request (buf : list Z) : option Z :=
  if len buf <? CLIPBOARD_REQUEST_LEN then None
  else
    let kind := at0 buf 0 in
    if negb (Z.land kind (Z.lnot CLIP_ALL) =? 0) || negb (count_ones kind =? 1)%nat then None
    else Some kind.

(** ** File transfer *)

Definition FT_KIND_OFFER : Z := 1.
Definition FT_KIND_ACCEPT : Z := 2.
Definition FT_KIND_CANCEL : Z := 3.
Definition FT_KIND_PROGRESS : Z := 4.
Definition FT_OFFER_HEADER_LEN : Z := 14.
Definition FT_MAX_NAME_LEN : Z := 1024.

Record FileOffer := mkOffer {
  transfer_id : Z;
  total_size : Z;
  file_name : text
}.

Definition encode_file_offer (o : FileOffer) : option (list Z) :=
  let name := utf8 (file_name o) in
  if FT_MAX_NAME_LEN <? len name then None
  else Some (u32_le (transfer_id o) ++ le_bytes 8 (total_size o) ++ u16_le (wrap16 (len name)) ++ name).

Definition decode_file_offer (buf : list Z) : option FileOffer :=
  if len buf <? FT_OFFER_HEADER_LEN then None
  else
    let name_len := le_field buf 12 14 in
    if FT_MAX_NAME_LEN <? name_len then None
    else if len buf <? FT_OFFER_HEADER_LEN + name_len then None
    else
      match from_utf8 (take (Z.to_nat name_len) (drop 14 buf)) with
      | None => None
      | Some name => Some (mkOffer (le_field buf 0 4) (le_field buf 4 12) name)
      end.

Definition encode_accept (id : Z) : list Z := u32_le id.

Definition decode_accept (buf : list Z) : option Z :=
  if len buf <? 4 then None else Some (le_field buf 0 4).

Definition encode_cancel (id : Z) (reason : option DowngradeReason) : list Z := u32_le id ++ [reason_byte reason].

Definition decode_cancel (buf : list Z) : option (Z * option DowngradeReason) :=
  if len buf <? 5 then None else Some (le_field buf 0 4, reason_from_u8 (at0 buf 4)).

Definition encode_progress (id bytes_done : Z) : list Z := u32_le id ++ le_bytes 8 bytes_done.

Definition decode_progress (buf : list Z) : option (Z * Z) :=
  if len buf <? 12 then None else Some (le_field buf 0 4, le_field buf 4 12).
