(* ===== verification/DesktopControlSafe.v ===== *)
(** * The desktop-control contract: proofs

    Every message of DesktopControl is an instance of the class of Wire under
    its domain and kind, the envelope carries any of them, and the lease is
    related to generations that never wrap. *)
From S2P Require Import Prelude Text Utf8 Wire DesktopControl.

#[local] Arguments le_bytes : simpl never.
#[local] Arguments le_field : simpl never.
#[local] Arguments at0 : simpl never.

(** ** Codes *)

Lemma domain_code d : domain_from_u8 (domain_to_u8 d) = Some d /\ is_byte (domain_to_u8 d).
Proof. destruct d; split; (reflexivity || (unfold is_byte; cbn; lia)). Qed.

Lemma domain_from_inv c d : domain_from_u8 c = Some d -> domain_to_u8 d = c.
Proof. unfold domain_from_u8. repeat case_test; intros; simplify_eq; done. Qed.

Lemma status_code s : status_from_u8 (status_to_u8 s) = Some s /\ is_byte (status_to_u8 s).
Proof. destruct s; split; (reflexivity || (unfold is_byte; cbn; lia)). Qed.

Lemma owner_code o : owner_from_u8 (owner_to_u8 o) = Some o /\ is_byte (owner_to_u8 o).
Proof. destruct o; split; (reflexivity || (unfold is_byte; cbn; lia)). Qed.

(** A reason in range: a byte, when it is unknown. *)
Definition reason_ok (r : option DowngradeReason) : Prop :=
  match r with Some (Unknown raw) => is_byte raw | _ => True end.

(** What a reason reads as: [Unknown] of a code this build knows is that reason. *)
Definition reason_norm (r : option DowngradeReason) : option DowngradeReason := reason_from_u8 (reason_byte r).

Lemma reason_byte_ok r : reason_ok r -> is_byte (reason_byte r).
Proof. destruct r as [[]|]; cbn; unfold is_byte; lia. Qed.

Lemma reason_from_ok c : is_byte c -> reason_ok (reason_from_u8 c).
Proof. unfold reason_from_u8. intros H. by repeat case_test. Qed.

Lemma reason_from_norm c : is_byte c -> reason_norm (reason_from_u8 c) = reason_from_u8 c.
Proof.
  unfold reason_norm. intros H. f_equal. unfold reason_from_u8. repeat (case_test; [by subst|]). done.
Qed.

Lemma bool_byte_ok b : is_byte (bool_byte b) /\ negb (bool_byte b =? 0) = b.
Proof. by destruct b. Qed.

#[local] Hint Resolve reason_byte_ok reason_from_ok : bytes.

(** ** The messages *)

Ltac enc_total := eexists; split; [reflexivity|]; split; [solve_bytes|wire_lens; unfold len; cbn; lia].

(** The length tests of a decoder on a whole encoding, and on a part of one. *)
Ltac long_enough :=
  match goal with
  | |- context [len ?b <? ?c] =>
      rewrite (proj2 (Z.ltb_ge (len b) c)) by (unfold len; rewrite ?length_app, ?length_le_bytes; cbn; lia)
  end.

Ltac too_short :=
  match goal with
  | H : (_ < _)%nat |- context [len ?b <? ?c] =>
      rewrite (proj2 (Z.ltb_lt (len b) c)); [done|];
      unfold len; rewrite ?length_take, ?length_app, ?length_le_bytes in *; cbn in H |- *; lia
  end.

(** The fields a decoder read are in range. *)
Ltac fields_ok :=
  unfold len in *;
  repeat match goal with |- _ /\ _ => split end;
  first [ done | by (apply (le_field_bound _ _ _ 2); (done || lia)) | by (apply (le_field_bound _ _ _ 4); (done || lia))
        | by (apply (le_field_bound _ _ _ 8); (done || lia)) | by apply is_byte_at0 | solve [auto with bytes] ].

#[export, program] Instance mode_request_codec : Codec (DDisplay, 1) ModeRequest := {
  wire_encode r := Some (encode_mode_request r);
  wire_decode := decode_mode_request;
  wire_ok r := in_u16 (rq_output_id r) /\ in_u16 (rq_width r) /\ in_u16 (rq_height r) /\ in_u32 (rq_refresh_mhz r);
  wire_norm r := r;
  wire_max := MODE_REQUEST_LEN
}.
Next Obligation. intros r _. unfold encode_mode_request, MODE_REQUEST_LEN. enc_total. Qed.
Next Obligation.
  intros [o w h f] buf rest (Ho & Hw & Hh & Hf) [= <-]. cbn in *. unfold decode_mode_request, encode_mode_request, MODE_REQUEST_LEN.
  cbn [rq_output_id rq_width rq_height rq_refresh_mhz]. long_enough.
  by read_fields.
Qed.
Next Obligation.
  intros r buf n _ [= <-] Hn. unfold decode_mode_request, encode_mode_request, MODE_REQUEST_LEN in *. too_short.
Qed.
Next Obligation.
  intros buf r Hb. unfold decode_mode_request. case_test; [done|]. intros [= <-]. cbn. unfold MODE_REQUEST_LEN in *.
  fields_ok.
Qed.

#[export, program] Instance mode_result_codec : Codec (DDisplay, 2) ModeResult := {
  wire_encode r := Some (encode_mode_result r);
  wire_decode := decode_mode_result;
  wire_ok r := in_u16 (rs_output_id r) /\ in_u16 (rs_width r) /\ in_u16 (rs_height r) /\
    in_u32 (rs_refresh_mhz r) /\ reason_ok (rs_reason r);
  wire_norm r := mkModeResult (rs_output_id r) (rs_width r) (rs_height r) (rs_refresh_mhz r) (rs_status r)
    (reason_norm (rs_reason r));
  wire_max := MODE_RESULT_LEN
}.
Next Obligation.
  intros r (_ & _ & _ & _ & Hr). unfold encode_mode_result, MODE_RESULT_LEN.
  pose proof (proj2 (status_code (rs_status r))). enc_total.
Qed.
Next Obligation.
  intros [o w h f s c] buf rest (Ho & Hw & Hh & Hf & Hc) [= <-]. cbn in *.
  unfold decode_mode_result, encode_mode_result, MODE_RESULT_LEN.
  cbn [rs_output_id rs_width rs_height rs_refresh_mhz rs_status rs_reason]. long_enough.
  read_fields. by rewrite (proj1 (status_code s)).
Qed.
Next Obligation.
  intros r buf n _ [= <-] Hn. unfold decode_mode_result, encode_mode_result, MODE_RESULT_LEN in *. too_short.
Qed.
Next Obligation.
  intros buf r Hb. unfold decode_mode_result. case_test; [done|].
  destruct (status_from_u8 _) as [s|]; [|done]. intros [= <-]. cbn. unfold MODE_RESULT_LEN in *.
  rewrite reason_from_norm by auto with bytes. fields_ok.
Qed.

#[export, program] Instance privacy_request_codec : Codec (DPrivacy, 1) PrivacyRequest := {
  wire_encode r := Some (encode_privacy_request r);
  wire_decode := decode_privacy_request;
  wire_ok r := is_byte (pr_protections r) /\ Z.land (pr_protections r) (Z.lnot PROTECT_ALL) = 0;
  wire_norm r := r;
  wire_max := PRIVACY_REQUEST_LEN
}.
Next Obligation.
  intros r [Hr _]. pose proof (proj1 (bool_byte_ok (enable r))). unfold encode_privacy_request, PRIVACY_REQUEST_LEN. enc_total.
Qed.
Next Obligation.
  intros [e p] buf rest [Hp Hl] [= <-]. cbn [enable pr_protections] in *.
  change (encode_privacy_request _) with ([bool_byte e] ++ [p]). unfold decode_privacy_request, PRIVACY_REQUEST_LEN.
  long_enough. read_fields. by rewrite Hl, (proj2 (bool_byte_ok e)).
Qed.
Next Obligation.
  intros r buf n _ [= <-] Hn. unfold decode_privacy_request, encode_privacy_request, PRIVACY_REQUEST_LEN in *. too_short.
Qed.
Next Obligation.
  intros buf r Hb. unfold decode_privacy_request. case_test; [done|]. case_test; [done|]. intros [= <-]. cbn. fields_ok.
Qed.

#[export, program] Instance privacy_state_codec : Codec (DPrivacy, 2) PrivacyState := {
  wire_encode s := Some (encode_privacy_state s);
  wire_decode := decode_privacy_state;
  wire_ok s := is_byte (protections_effective s) /\ reason_ok (ps_reason s);
  wire_norm s := mkPrivacyState (ps_active s) (protections_effective s) (ps_status s) (reason_norm (ps_reason s));
  wire_max := PRIVACY_STATE_LEN
}.
Next Obligation.
  intros s [Hp Hr]. pose proof (proj1 (bool_byte_ok (ps_active s))). pose proof (proj2 (status_code (ps_status s))).
  unfold encode_privacy_state, PRIVACY_STATE_LEN. enc_total.
Qed.
Next Obligation.
  intros [a p s r] buf rest [Hp Hr] [= <-]. cbn [ps_active protections_effective ps_status ps_reason] in *.
  change (encode_privacy_state _) with ([bool_byte a] ++ [p] ++ [status_to_u8 s] ++ [reason_byte r]).
  unfold decode_privacy_state, PRIVACY_STATE_LEN. long_enough. read_fields.
  by rewrite (proj1 (status_code s)), (proj2 (bool_byte_ok a)).
Qed.
Next Obligation.
  intros r buf n _ [= <-] Hn. unfold decode_privacy_state, encode_privacy_state, PRIVACY_STATE_LEN in *. too_short.
Qed.
Next Obligation.
  intros buf s Hb. unfold decode_privacy_state. case_test; [done|].
  destruct (status_from_u8 _) as [st|]; [|done]. intros [= <-]. cbn.
  rewrite reason_from_norm by auto with bytes. fields_ok.
Qed.

#[export, program] Instance cursor_codec : Codec (DCursor, 1) CursorOwner := {
  wire_encode o := Some (encode_authority o);
  wire_decode := decode_authority;
  wire_ok _ := True;
  wire_norm o := o;
  wire_max := CURSOR_AUTHORITY_LEN
}.
Next Obligation.
  intros o _. pose proof (proj2 (owner_code o)). unfold encode_authority, CURSOR_AUTHORITY_LEN. enc_total.
Qed.
Next Obligation.
  intros o buf rest _ [= <-]. unfold decode_authority, encode_authority, CURSOR_AUTHORITY_LEN. long_enough. read_fields.
  apply owner_code.
Qed.
Next Obligation.
  intros o buf n _ [= <-] Hn. unfold decode_authority, encode_authority, CURSOR_AUTHORITY_LEN in *. too_short.
Qed.
Next Obligation. done. Qed.

Lemma clip_mask b : is_byte (Z.land b CLIP_ALL) /\ Z.land (Z.land b CLIP_ALL) CLIP_ALL = Z.land b CLIP_ALL.
Proof.
  split; [|by rewrite <- Z.land_assoc]. change CLIP_ALL with (Z.ones 3). rewrite Z.land_ones by lia.
  unfold is_byte. pose proof (Z.mod_pos_bound b (2 ^ 3)). lia.
Qed.

#[export, program] Instance clip_offer_codec : Codec (DClipboard, 1) Z := {
  wire_encode k := Some (encode_clip_offer k);
  wire_decode := decode_clip_offer;
  wire_ok := is_byte;
  wire_norm k := Z.land k CLIP_ALL;
  wire_max := CLIPBOARD_OFFER_LEN
}.
Next Obligation.
  intros k _. pose proof (proj1 (clip_mask k)). unfold encode_clip_offer, CLIPBOARD_OFFER_LEN. enc_total.
Qed.
Next Obligation.
  intros k buf rest _ [= <-]. unfold decode_clip_offer, encode_clip_offer, CLIPBOARD_OFFER_LEN. long_enough. read_fields.
  f_equal. apply clip_mask.
Qed.
Next Obligation.
  intros k buf n _ [= <-] Hn. unfold decode_clip_offer, encode_clip_offer, CLIPBOARD_OFFER_LEN in *. too_short.
Qed.
Next Obligation.
  intros buf k _. unfold decode_clip_offer. case_test; [done|]. intros [= <-]. apply clip_mask.
Qed.

(** Exactly one known kind. *)
Definition clip_kind (k : Z) : Prop := k = CLIP_TEXT \/ k = CLIP_PNG \/ k = CLIP_FILE_LIST.

Lemma clip_request_test k : is_byte k ->
  negb (Z.land k (Z.lnot CLIP_ALL) =? 0) || negb (count_ones k =? 1)%nat = false <-> clip_kind k.
Proof.
  intros Hk. unfold clip_kind. split.
  - intros H. assert (Hall : forall x, is_byte x ->
      (negb (Z.land x (Z.lnot CLIP_ALL) =? 0) || negb (count_ones x =? 1)%nat)
      || ((x =? CLIP_TEXT) || (x =? CLIP_PNG) || (x =? CLIP_FILE_LIST)) = true) by (apply byte_forall; by vm_compute).
    specialize (Hall k Hk). rewrite H in Hall. cbn [orb] in Hall. rewrite !orb_true_iff, !Z.eqb_eq in Hall. tauto.
  - by intros [-> | [-> | ->]].
Qed.

#[export, program] Instance clip_request_codec : Codec (DClipboard, 2) Z := {
  wire_encode k := Some (encode_clip_request k);
  wire_decode := decode_clip_request;
  wire_ok := clip_kind;
  wire_norm k := k;
  wire_max := CLIPBOARD_REQUEST_LEN
}.
Next Obligation.
  intros k Hk. assert (is_byte k) by (destruct Hk as [-> | [-> | ->]]; done).
  unfold encode_clip_request, CLIPBOARD_REQUEST_LEN. enc_total.
Qed.
Next Obligation.
  intros k buf rest Hk [= <-]. unfold decode_clip_request, encode_clip_request, CLIPBOARD_REQUEST_LEN. long_enough.
  read_fields. by destruct Hk as [-> | [-> | ->]].
Qed.
Next Obligation.
  intros k buf n _ [= <-] Hn. unfold decode_clip_request, encode_clip_request, CLIPBOARD_REQUEST_LEN in *. too_short.
Qed.
Next Obligation.
  intros buf k Hb. unfold decode_clip_request. case_test; [done|]. destruct (_ || _) eqn:E; [done|]. intros [= <-].
  split; [|done]. apply clip_request_test; [by apply is_byte_at0|done].
Qed.

Lemma wrap32_len {A} (l : list A) : len l <= CONTROL_MAX_PAYLOAD -> wrap32 (len l) = len l.
Proof. intros H. pose proof (len_nonneg l). unfold CONTROL_MAX_PAYLOAD in H. apply Z.mod_small. lia. Qed.

#[export, program] Instance file_offer_codec : Codec (DFileTransfer, 1) FileOffer := {
  wire_encode := encode_file_offer;
  wire_decode := decode_file_offer;
  wire_ok o := in_u32 (transfer_id o) /\ in_u64 (total_size o) /\ Forall scalar (file_name o) /\
    len (utf8 (file_name o)) <= FT_MAX_NAME_LEN;
  wire_norm o := o;
  wire_max := FT_OFFER_HEADER_LEN + FT_MAX_NAME_LEN
}.
Next Obligation.
  intros o (_ & _ & Hs & Hl). unfold encode_file_offer. rewrite (proj2 (Z.ltb_ge _ _)) by done.
  eexists. split; [reflexivity|]. unfold FT_MAX_NAME_LEN, FT_OFFER_HEADER_LEN in *.
  pose proof (bytes_utf8 _ Hs). split; [solve_bytes|wire_lens; lia].
Qed.
Next Obligation.
  intros [i t s] buf rest (Hi & Ht & Hs & Hl) He. cbn [transfer_id total_size file_name] in *. revert He.
  unfold encode_file_offer. cbn [transfer_id total_size file_name]. rewrite (proj2 (Z.ltb_ge _ _)) by done.
  intros He. apply (inj Some) in He as <-. unfold FT_MAX_NAME_LEN in Hl. pose proof (len_nonneg (utf8 s)).
  assert (Hw : wrap16 (len (utf8 s)) = len (utf8 s)) by (apply Z.mod_small; lia).
  assert (Hn : in_u16 (len (utf8 s))) by (unfold in_u; lia). rewrite Hw.
  unfold decode_file_offer, FT_OFFER_HEADER_LEN, FT_MAX_NAME_LEN.
  rewrite (proj2 (Z.ltb_ge _ 14)) by (wire_lens; pose proof (len_nonneg rest); lia). read_fields.
  rewrite (proj2 (Z.ltb_ge 1024 (len (utf8 s)))) by lia.
  rewrite (proj2 (Z.ltb_ge _ (14 + _))) by (wire_lens; pose proof (len_nonneg rest); lia).
  rewrite take_len_app. by rewrite from_utf8_utf8.
Qed.
Next Obligation.
  intros [i t s] buf n (Hi & Ht & Hs & Hl) He Hn. cbn [transfer_id total_size file_name] in *. revert He.
  unfold encode_file_offer. cbn [transfer_id total_size file_name]. rewrite (proj2 (Z.ltb_ge _ _)) by done.
  intros He. apply (inj Some) in He as <-. unfold FT_MAX_NAME_LEN in Hl. pose proof (len_nonneg (utf8 s)).
  assert (Hw : wrap16 (len (utf8 s)) = len (utf8 s)) by (apply Z.mod_small; lia).
  assert (Hn16 : in_u16 (len (utf8 s))) by (unfold in_u; lia). rewrite Hw in *.
  set (buf := u32_le i ++ _) in *. unfold decode_file_offer, FT_OFFER_HEADER_LEN, FT_MAX_NAME_LEN.
  destruct (Z.ltb_spec (len (take n buf)) 14) as [|H14]; [done|].
  assert (H14n : (14 <= n)%nat) by (unfold len in H14; rewrite length_take in H14; lia).
  assert (E : le_field (take n buf) 12 14 = len (utf8 s)).
  { rewrite le_field_take by done. unfold buf. by read_fields. }
  rewrite E, (proj2 (Z.ltb_ge 1024 _)) by lia. rewrite (proj2 (Z.ltb_lt _ _)); [done|].
  pose proof (len_take_lt buf n Hn) as Hlt. unfold buf in Hlt at 2. wire_lens. lia.
Qed.
Next Obligation.
  intros buf o Hb. unfold decode_file_offer, FT_OFFER_HEADER_LEN, FT_MAX_NAME_LEN.
  case_test; [done|]. case_test; [done|]. case_test; [done|].
  destruct (from_utf8 _) as [name|] eqn:E; [|done]. intros Ho. apply (inj Some) in Ho as <-.
  cbn [transfer_id total_size file_name wire_ok].
  apply from_utf8_inv in E as [E Hs]; [|auto with bytes]. split; [|done].
  split_and!; try done; try (unfold len in *; fields_ok).
  rewrite E. unfold len in *. rewrite length_take, length_drop. lia.
Qed.

#[export, program] Instance accept_codec : Codec (DFileTransfer, 2) Z := {
  wire_encode i := Some (encode_accept i);
  wire_decode := decode_accept;
  wire_ok := in_u32;
  wire_norm i := i;
  wire_max := 4
}.
Next Obligation. intros i _. unfold encode_accept. enc_total. Qed.
Next Obligation.
  intros i buf rest Hi [= <-]. unfold decode_accept, encode_accept. long_enough. by read_fields.
Qed.
Next Obligation. intros i buf n _ [= <-] Hn. unfold decode_accept, encode_accept in *. too_short. Qed.
Next Obligation.
  intros buf i Hb. unfold decode_accept. case_test; [done|]. intros [= <-]. fields_ok.
Qed.

#[export, program] Instance cancel_codec : Codec (DFileTransfer, 3) (Z * option DowngradeReason) := {
  wire_encode m := Some (encode_cancel m.1 m.2);
  wire_decode := decode_cancel;
  wire_ok m := in_u32 m.1 /\ reason_ok m.2;
  wire_norm m := (m.1, reason_norm m.2);
  wire_max := 5
}.
Next Obligation. intros [i r] [_ Hr]. unfold encode_cancel. cbn [fst snd] in *. enc_total. Qed.
Next Obligation.
  intros [i r] buf rest [Hi Hr] [= <-]. cbn [fst snd] in *. unfold decode_cancel, encode_cancel. long_enough. by read_fields.
Qed.
Next Obligation. intros [i r] buf n _ [= <-] Hn. unfold decode_cancel, encode_cancel in *. too_short. Qed.
Next Obligation.
  intros buf m Hb. unfold decode_cancel. case_test; [done|]. intros [= <-]. cbn [fst snd].
  rewrite reason_from_norm by auto with bytes. fields_ok.
Qed.

#[export, program] Instance progress_codec : Codec (DFileTransfer, 4) (Z * Z) := {
  wire_encode m := Some (encode_progress m.1 m.2);
  wire_decode := decode_progress;
  wire_ok m := in_u32 m.1 /\ in_u64 m.2;
  wire_norm m := m;
  wire_max := 12
}.
Next Obligation. intros [i d] _. unfold encode_progress. cbn [fst snd]. enc_total. Qed.
Next Obligation.
  intros [i d] buf rest [Hi Hd] [= <-]. cbn [fst snd] in *. unfold decode_progress, encode_progress. long_enough. by read_fields.
Qed.
Next Obligation. intros [i d] buf n _ [= <-] Hn. unfold decode_progress, encode_progress in *. too_short. Qed.
Next Obligation.
  intros buf m Hb. unfold decode_progress. case_test; [done|]. intros [= <-]. fields_ok.
Qed.

(** ** The envelope *)

(** The layout: [u8 version | u8 domain | u16 kind | u32 generation | u32 payload_len | payload]. *)
Definition envelope_bytes (e : ControlEnvelope) : list Z :=
  [CONTROL_VERSION] ++ [domain e] ++ u16_le (kind e) ++ u32_le (generation e) ++ u32_le (len (payload e)) ++ payload e.

Definition envelope_ok (e : ControlEnvelope) : Prop :=
  is_byte (domain e) /\ in_u16 (kind e) /\ in_u32 (generation e) /\ bytes (payload e) /\
  len (payload e) <= CONTROL_MAX_PAYLOAD.

Lemma encode_envelope_bytes d k g p :
  len p <= CONTROL_MAX_PAYLOAD ->
  encode_envelope d k g p = Some (envelope_bytes (mkEnvelope (domain_to_u8 d) k g p)).
Proof.
  intros H. unfold encode_envelope. rewrite (proj2 (Z.ltb_ge _ _)) by done.
  by rewrite wrap32_len.
Qed.

Lemma len_envelope e : len (envelope_bytes e) = 12 + len (payload e).
Proof. unfold envelope_bytes. wire_lens. lia. Qed.

Lemma bytes_envelope e : envelope_ok e -> bytes (envelope_bytes e).
Proof. intros (H1 & _ & _ & H2 & _). unfold envelope_bytes. solve_bytes. Qed.

Lemma payload_len_in (p : list Z) : len p <= CONTROL_MAX_PAYLOAD -> in_u32 (len p).
Proof. intros H. pose proof (len_nonneg p). unfold CONTROL_MAX_PAYLOAD in H. unfold in_u. lia. Qed.

Lemma decode_envelope_bytes e rest : envelope_ok e -> decode_envelope (envelope_bytes e ++ rest) = Some e.
Proof.
  destruct e as [c k g p]. intros (_ & Hk & Hg & _ & Hp). cbn in Hk, Hg, Hp. pose proof (payload_len_in p Hp) as Hl.
  pose proof (len_nonneg p). pose proof (len_nonneg rest).
  unfold decode_envelope, CONTROL_HEADER_LEN. rewrite (proj2 (Z.ltb_ge _ 12)) by (rewrite len_app, len_envelope; cbn; lia).
  unfold envelope_bytes. cbn [domain kind generation payload]. read_fields.
  rewrite (proj2 (Z.ltb_ge CONTROL_MAX_PAYLOAD _)) by done. cbn [negb Z.eqb Pos.eqb CONTROL_VERSION].
  rewrite (proj2 (Z.ltb_ge _ _)) by (wire_lens; lia). by rewrite take_len_app.
Qed.

Lemma decode_envelope_short e n : envelope_ok e -> (n < length (envelope_bytes e))%nat ->
  decode_envelope (take n (envelope_bytes e)) = None.
Proof.
  intros (_ & _ & _ & _ & Hp) Hn. pose proof (payload_len_in _ Hp) as Hl.
  unfold decode_envelope, CONTROL_HEADER_LEN. destruct (Z.ltb_spec (len (take n (envelope_bytes e))) 12) as [|H12]; [done|].
  destruct (negb _); [done|].
  assert (H12n : (12 <= n)%nat) by (unfold len in H12; rewrite length_take in H12; lia).
  assert (E : le_field (take n (envelope_bytes e)) 8 12 = len (payload e)).
  { rewrite le_field_take by done. unfold envelope_bytes. by read_fields. }
  rewrite E, (proj2 (Z.ltb_ge CONTROL_MAX_PAYLOAD _)), (proj2 (Z.ltb_lt _ _)); [done| |done].
  pose proof (len_take_lt _ _ Hn) as Hlt. rewrite len_envelope in Hlt. done.
Qed.

Lemma decode_envelope_inv buf e : bytes buf -> decode_envelope buf = Some e ->
  envelope_ok e /\ exists rest, buf = envelope_bytes e ++ rest.
Proof.
  intros Hb. unfold decode_envelope, CONTROL_HEADER_LEN.
  case_test; [done|]. case_test; [done|]. case_test; [done|]. case_test; [done|].
  intros He. apply (inj Some) in He as <-.
  assert (Hl : len (take (Z.to_nat (le_field buf 8 12)) (drop 12 buf)) = le_field buf 8 12).
  { pose proof (le_field_nonneg buf 8 12 Hb). unfold len in *. rewrite length_take, length_drop. lia. }
  split.
  - unfold envelope_ok. cbn [domain kind generation payload]. rewrite Hl.
    split_and!; try done; unfold len in *; fields_ok.
  - exists (drop (Z.to_nat (le_field buf 8 12)) (drop 12 buf)). unfold envelope_bytes.
    cbn [domain kind generation payload]. rewrite Hl.
    rewrite (le_bytes_field buf 2 4 2), (le_bytes_field buf 4 8 4), (le_bytes_field buf 8 12 4)
      by (done || unfold len in *; lia).
    rewrite <- !app_assoc, take_drop, !slice_drop by lia.
    destruct buf as [|v [|c buf]]; [done..|].
    assert (Hv : v = CONTROL_VERSION) by done. subst v.
    done.
Qed.

(** the envelope parser accepts a buffer exactly when it starts with the
    documented layout of an envelope in range, of any domain and kind, and then
    gives back that envelope, whatever follows; no proper prefix of an envelope is
    accepted, and the encoder refuses exactly the payloads beyond the cap. *)
Theorem envelope_exact :
  (forall buf e, bytes buf ->
    decode_envelope buf = Some e <-> envelope_ok e /\ exists rest, buf = envelope_bytes e ++ rest) /\
  (forall e n, envelope_ok e -> (n < length (envelope_bytes e))%nat ->
    decode_envelope (take n (envelope_bytes e)) = None) /\
  (forall d k g p, encode_envelope d k g p =
    if CONTROL_MAX_PAYLOAD <? len p then None else Some (envelope_bytes (mkEnvelope (domain_to_u8 d) k g p))).
Proof.
  split_and!.
  - intros buf e Hb. split; [by apply decode_envelope_inv|]. intros [He [rest ->]]. by apply decode_envelope_bytes.
  - exact decode_envelope_short.
  - intros d k g p. destruct (Z.ltb_spec CONTROL_MAX_PAYLOAD (len p)) as [H|H].
    + unfold encode_envelope. by rewrite (proj2 (Z.ltb_lt _ _)).
    + by apply encode_envelope_bytes.
Qed.

Lemma envelope_exact_witness :
  decode_envelope (envelope_bytes (mkEnvelope 9 300 7 [1; 2]) ++ [255; 255]) = Some (mkEnvelope 9 300 7 [1; 2]).
Proof.
  assert (H : envelope_ok (mkEnvelope 9 300 7 [1; 2])) by (split_and!; cbn; (solve_bytes || done)).
  apply (proj1 envelope_exact); [|by split; [|exists [255; 255]]].
  apply bytes_app; [by apply bytes_envelope|solve_bytes].
Defined.

(** Any codec's messages travel in an envelope. *)
Lemma carried {A} d k g `{!Codec (d, k) A} (a : A) :
  wire_ok a -> in_u16 k -> in_u32 g -> wire_max (A := A) (tag := (d, k)) <= CONTROL_MAX_PAYLOAD ->
  exists p frame, wire_encode a = Some p /\ encode_envelope d k g p = Some frame /\
    (forall rest, decode_envelope (frame ++ rest) = Some (mkEnvelope (domain_to_u8 d) k g p)) /\
    wire_decode p = Some (wire_norm a) /\
    (forall n, (n < length frame)%nat -> decode_envelope (take n frame) = None) /\
    (forall n, (n < length p)%nat -> wire_decode (take n p) = None).
Proof.
  intros Ha Hk Hg Hm. destruct (wire_total a Ha) as (p & Hp & Hb & Hl). exists p.
  set (e := mkEnvelope (domain_to_u8 d) k g p).
  assert (He : envelope_ok e) by (split_and!; [apply domain_code|done..|cbn; lia]).
  exists (envelope_bytes e). split; [done|]. split; [apply encode_envelope_bytes; lia|].
  split; [intros rest; by apply decode_envelope_bytes|].
  split; [by rewrite <- (app_nil_r p); apply wire_decode_encode|].
  split; [intros n Hn; by apply decode_envelope_short|]. intros n Hn. by apply (wire_decode_short a p).
Qed.

(** Every message of the contract. *)
Inductive typed_message : Type :=
| MsgModeRequest (r : ModeRequest)
| MsgModeResult (r : ModeResult)
| MsgPrivacyRequest (r : PrivacyRequest)
| MsgPrivacyState (s : PrivacyState)
| MsgAuthority (o : CursorOwner)
| MsgClipOffer (kinds : Z)
| MsgClipRequest (k : Z)
| MsgFileOffer (o : FileOffer)
| MsgAccept (id : Z)
| MsgCancel (id : Z) (reason : option DowngradeReason)
| MsgProgress (id done : Z).

Definition message_domain (m : typed_message) : ControlDomain :=
  match m with
  | MsgModeRequest _ | MsgModeResult _ => DDisplay
  | MsgPrivacyRequest _ | MsgPrivacyState _ => DPrivacy
  | MsgAuthority _ => DCursor
  | MsgClipOffer _ | MsgClipRequest _ => DClipboard
  | _ => DFileTransfer
  end.

(** The [.._KIND_..] constants. *)
Definition message_kind (m : typed_message) : Z :=
  match m with
  | MsgModeRequest _ => DISPLAY_KIND_MODE_REQUEST
  | MsgModeResult _ => DISPLAY_KIND_MODE_RESULT
  | MsgPrivacyRequest _ => PRIVACY_KIND_REQUEST
  | MsgPrivacyState _ => PRIVACY_KIND_STATE
  | MsgAuthority _ => CURSOR_KIND_AUTHORITY
  | MsgClipOffer _ => CLIPBOARD_KIND_OFFER
  | MsgClipRequest _ => CLIPBOARD_KIND_REQUEST
  | MsgFileOffer _ => FT_KIND_OFFER
  | MsgAccept _ => FT_KIND_ACCEPT
  | MsgCancel _ _ => FT_KIND_CANCEL
  | MsgProgress _ _ => FT_KIND_PROGRESS
  end.

Definition message_payload (m : typed_message) : option (list Z) :=
  match m with
  | MsgModeRequest r => Some (encode_mode_request r)
  | MsgModeResult r => Some (encode_mode_result r)
  | MsgPrivacyRequest r => Some (encode_privacy_request r)
  | MsgPrivacyState s => Some (encode_privacy_state s)
  | MsgAuthority o => Some (encode_authority o)
  | MsgClipOffer k => Some (encode_clip_offer k)
  | MsgClipRequest k => Some (encode_clip_request k)
  | MsgFileOffer o => encode_file_offer o
  | MsgAccept i => Some (encode_accept i)
  | MsgCancel i r => Some (encode_cancel i r)
  | MsgProgress i d => Some (encode_progress i d)
  end.

(** The decoder of the envelope's domain and kind. *)
Definition read_message (e : ControlEnvelope) : option typed_message :=
  let p := payload e in
  match typed_domain e, kind e with
  | Some DDisplay, 1 => MsgModeRequest <$> decode_mode_request p
  | Some DDisplay, 2 => MsgModeResult <$> decode_mode_result p
  | Some DPrivacy, 1 => MsgPrivacyRequest <$> decode_privacy_request p
  | Some DPrivacy, 2 => MsgPrivacyState <$> decode_privacy_state p
  | Some DCursor, 1 => MsgAuthority <$> decode_authority p
  | Some DClipboard, 1 => MsgClipOffer <$> decode_clip_offer p
  | Some DClipboard, 2 => MsgClipRequest <$> decode_clip_request p
  | Some DFileTransfer, 1 => MsgFileOffer <$> decode_file_offer p
  | Some DFileTransfer, 2 => MsgAccept <$> decode_accept p
  | Some DFileTransfer, 3 => (fun m => MsgCancel m.1 m.2) <$> decode_cancel p
  | Some DFileTransfer, 4 => (fun m => MsgProgress m.1 m.2) <$> decode_progress p
  | _, _ => None
  end.

Definition message_ok (m : typed_message) : Prop :=
  match m with
  | MsgModeRequest r => wire_ok (tag := (DDisplay, 1)) r
  | MsgModeResult r => wire_ok (tag := (DDisplay, 2)) r
  | MsgPrivacyRequest r => wire_ok (tag := (DPrivacy, 1)) r
  | MsgPrivacyState s => wire_ok (tag := (DPrivacy, 2)) s
  | MsgAuthority _ => True
  | MsgClipOffer k => is_byte k
  | MsgClipRequest k => clip_kind k
  | MsgFileOffer o => wire_ok (tag := (DFileTransfer, 1)) o
  | MsgAccept i => in_u32 i
  | MsgCancel i r => in_u32 i /\ reason_ok r
  | MsgProgress i d => in_u32 i /\ in_u64 d
  end.

(** What a message reads back as: only a reason or a clipboard offer that names
    what this build knows otherwise changes. *)
Definition message_norm (m : typed_message) : typed_message :=
  match m with
  | MsgModeResult r => MsgModeResult (wire_norm (tag := (DDisplay, 2)) r)
  | MsgPrivacyState s => MsgPrivacyState (wire_norm (tag := (DPrivacy, 2)) s)
  | MsgClipOffer k => MsgClipOffer (Z.land k CLIP_ALL)
  | MsgCancel i r => MsgCancel i (reason_norm r)
  | _ => m
  end.

(** One message, by its codec [a] and its constructor [con]. *)
Lemma carried_message {A} d k g m (con : A -> typed_message) `{!Codec (d, k) A} (a : A) :
  message_domain m = d -> message_kind m = k -> message_payload m = wire_encode a ->
  message_norm m = con (wire_norm a) ->
  (forall p, read_message (mkEnvelope (domain_to_u8 d) k g p) = con <$> wire_decode p) ->
  wire_ok a -> in_u16 k -> in_u32 g -> wire_max (A := A) (tag := (d, k)) <= CONTROL_MAX_PAYLOAD ->
  exists p frame, message_payload m = Some p /\
    encode_envelope (message_domain m) (message_kind m) g p = Some frame /\
    (forall rest, exists e, decode_envelope (frame ++ rest) = Some e /\ generation e = g /\
      read_message e = Some (message_norm m)) /\
    (forall n, (n < length frame)%nat -> decode_envelope (take n frame) = None) /\
    (forall n, (n < length p)%nat -> read_message (mkEnvelope (domain_to_u8 d) k g (take n p)) = None).
Proof.
  intros -> -> -> -> Hr Ha Hk Hg Hm.
  destruct (carried d k g a Ha Hk Hg Hm) as (p & frame & Hp & Hf & Hd & Hw & Hs & Hs').
  exists p, frame. split_and!; [done|done| |done|].
  - intros rest. eexists. split; [apply Hd|]. split; [done|]. by rewrite Hr, Hw.
  - intros n Hn. by rewrite Hr, Hs'.
Qed.

(** every message of the contract survives its encoder, the envelope, the
    envelope's decoder and the decoder of its domain and kind, whatever bytes
    follow and whatever the generation, up to reasons and clipboard kinds
    this build does not name; a truncated envelope or a truncated payload is
    rejected. *)
Theorem control_message_roundtrip m g :
  message_ok m -> in_u32 g ->
  exists p frame, message_payload m = Some p /\
    encode_envelope (message_domain m) (message_kind m) g p = Some frame /\
    (forall rest, exists e, decode_envelope (frame ++ rest) = Some e /\ generation e = g /\
      read_message e = Some (message_norm m)) /\
    (forall n, (n < length frame)%nat -> decode_envelope (take n frame) = None) /\
    (forall n, (n < length p)%nat ->
      read_message (mkEnvelope (domain_to_u8 (message_domain m)) (message_kind m) g (take n p)) = None).
Proof.
  intros Hm Hg. destruct m; cbn [message_ok] in Hm.
  - by apply (carried_message _ _ g _ MsgModeRequest r).
  - by apply (carried_message _ _ g _ MsgModeResult r).
  - by apply (carried_message _ _ g _ MsgPrivacyRequest r).
  - by apply (carried_message _ _ g _ MsgPrivacyState s).
  - by apply (carried_message _ _ g _ MsgAuthority o).
  - by apply (carried_message _ _ g _ MsgClipOffer kinds).
  - by apply (carried_message _ _ g _ MsgClipRequest k).
  - by apply (carried_message _ _ g _ MsgFileOffer o).
  - by apply (carried_message _ _ g _ MsgAccept id).
  - by apply (carried_message _ _ g _ (fun x => MsgCancel x.1 x.2) (id, reason)).
  - by apply (carried_message _ _ g _ (fun x => MsgProgress x.1 x.2) (id, done)).
Qed.

Definition ex_offer : typed_message := MsgFileOffer (mkOffer 7 1048576 (lit "report.pdf" ++ [8364])).

Lemma control_message_roundtrip_witness :
  exists p frame, message_payload ex_offer = Some p /\ encode_envelope DFileTransfer FT_KIND_OFFER 4294967295 p = Some frame /\
    exists e, decode_envelope (frame ++ [1; 2; 3]) = Some e /\ read_message e = Some ex_offer.
Proof.
  destruct (control_message_roundtrip ex_offer 4294967295) as (p & frame & Hp & Hf & Hd & _).
  - split_and!; cbn; [by unfold in_u|by unfold in_u| |by vm_compute].
    repeat constructor; by vm_compute.
  - by unfold in_u.
  - exists p, frame. split; [exact Hp|]. split; [exact Hf|].
    destruct (Hd [1; 2; 3]) as (e & He & _ & Hr). exists e. split; [exact He|exact Hr].
Defined.

(** ** The lease *)

Lemma supersedes_wrap G c : -2147483648 <= G - c < 2147483648 ->
  supersedes (wrap32 G) (wrap32 c) = (c <? G) /\ (wrap32 G =? wrap32 c) = (G =? c).
Proof.
  intros H.
  assert (E : wrap32 (wrap32 G - wrap32 c) = (G - c) mod 4294967296) by (autorewrite with wrap32; reflexivity).
  assert (Heq : (wrap32 G =? wrap32 c) = (G =? c)).
  { destruct (Z.eqb_spec G c) as [->|Hn]; [by rewrite Z.eqb_refl|]. apply Z.eqb_neq. intros Ew.
    assert (Hz : (G - c) mod 4294967296 = 0) by (by rewrite <- E, Ew, Z.sub_diag).
    revert Hz. Z.div_mod_to_equations. lia. }
  split; [|done]. unfold supersedes. rewrite Heq, E.
  destruct (Z.eqb_spec G c) as [->|Hn]; cbn [negb andb].
  - symmetry. apply Z.ltb_irrefl.
  - destruct (Z.ltb_spec c G); [apply Z.ltb_lt|apply Z.ltb_ge]; Z.div_mod_to_equations; lia.
Qed.

(** A run of claims ([Some g]) and releases ([None]), with the answers. *)
Fixpoint lease_run (l : OwnershipLease) (ops : list (option ControlGeneration)) : OwnershipLease * list bool :=
  match ops with
  | [] => (l, [])
  | Some g :: ops =>
      let '(l, ok) := admit_claim l g in
      let '(l, oks) := lease_run l ops in (l, ok :: oks)
  | None :: ops => lease_run (release l) ops
  end.

(** The same with generations that never wrap: the newest claim owns the resource. *)
Fixpoint newest_run (top : option Z) (ops : list (option Z)) : option Z * list bool :=
  match ops with
  | [] => (top, [])
  | Some g :: ops =>
      let ok := match top with Some c => c <=? g | None => true end in
      let '(top, oks) := newest_run (Some (match top with Some c => Z.max c g | None => g end)) ops in
      (top, ok :: oks)
  | None :: ops => newest_run None ops
  end.

(** Every claim is within half the range of the newest one so far. *)
Fixpoint within_half (top : option Z) (ops : list (option Z)) : Prop :=
  match ops with
  | [] => True
  | Some g :: ops =>
      match top with Some c => -2147483648 <= g - c < 2147483648 | None => True end /\
      within_half (Some (match top with Some c => Z.max c g | None => g end)) ops
  | None :: ops => within_half None ops
  end.

Lemma lease_run_newest top ops : within_half top ops ->
  lease_run (option_map wrap32 top) (map (option_map wrap32) ops) =
    (option_map wrap32 (newest_run top ops).1, (newest_run top ops).2).
Proof.
  revert top. induction ops as [|[g|] ops IH]; intros top; [done| |apply IH].
  cbn [within_half]. intros [Hg Ho]. cbn [map option_map lease_run newest_run].
  destruct top as [c|]; cbn [option_map admit_claim].
  - destruct (supersedes_wrap g c Hg) as [-> ->].
    specialize (IH _ Ho). destruct (newest_run _ ops) as [top' oks]. cbn [fst snd] in *.
    destruct (Z.leb_spec c g) as [Hle|Hlt].
    + replace ((g =? c) || (c <? g)) with true by (symmetry; rewrite orb_true_iff, Z.eqb_eq, Z.ltb_lt; lia).
      replace (Z.max c g) with g in IH by lia. cbn in IH |- *. unfold OwnershipLease, ControlGeneration in *. by rewrite IH.
    + replace ((g =? c) || (c <? g)) with false by (symmetry; rewrite orb_false_iff, Z.eqb_neq, Z.ltb_ge; lia).
      replace (Z.max c g) with c in IH by lia. cbn in IH |- *. unfold OwnershipLease, ControlGeneration in *. by rewrite IH.
  - specialize (IH _ Ho). destruct (newest_run _ ops) as [top' oks]. cbn in IH |- *. unfold OwnershipLease, ControlGeneration in *. by rewrite IH.
Qed.

(** across the wrap-around the lease is the register of the newest claim: on
    claims whose generations lie within half the range of the newest one so far,
    its answers and its generation are those of the specification with
    generations that never wrap, where a claim is granted exactly when no newer
    one was made since the last release, and a refused claim changes nothing. *)
Theorem lease_newest ops :
  within_half None ops ->
  lease_run lease_new (map (option_map wrap32) ops) =
    (option_map wrap32 (newest_run None ops).1, (newest_run None ops).2) /\
  (forall l g, (admit_claim l g).2 = false -> (admit_claim l g).1 = l) /\
  (forall G, supersedes (next (wrap32 G)) (wrap32 G) = true).
Proof.
  intros H. split_and!.
  - by apply (lease_run_newest None).
  - intros [c|] g; [|done]. cbn. by destruct (_ || _).
  - intros G. unfold next. rewrite wrap32_wrap_l.
    destruct (supersedes_wrap (G + 1) G ltac:(lia)) as [-> _]. apply Z.ltb_lt. lia.
Qed.

Lemma lease_newest_witness :
  lease_run lease_new [Some 4294967295; Some 0; Some 4294967295; Some 1; None; Some 3] =
    (Some 3, [true; true; false; true; true]).
Proof.
  apply (lease_newest [Some 4294967295; Some 4294967296; Some 4294967295; Some 4294967297; None; Some 3]).
  cbn. lia.
Defined.
