(* ===== verification/HostAuthority.v ===== *)
(** * Host authority, privacy mode and outputs
    (app-native/src/host_authority.rs, privacy_mode.rs, output_registry.rs)

    Three automata of the host. Their times come from the caller; the platform
    actions of the privacy mode are closures, modelled by the log of their calls. *)
From S2P Require Import Prelude DesktopControl.

(** ** The authority lease *)

Inductive HostAuthority : Type :=
| Local
| Held (owner : Z) (generation : ControlGeneration) (deadline_ms : Z)
| Degraded (reason : DowngradeReason).

Inductive Acquire : Type := Granted | Renewed | Denied.

Record HostAuthorityJournal := mkHostJournal {
  held_owner : option Z;
  jr_generation : option Z
}.

Definition journal_default : HostAuthorityJournal := mkHostJournal None None.

Record HostAuthorityLease := mkHostLease {
  ha_state : HostAuthority;
  lease_ms : Z
}.

Definition lease_fresh (lease_ms : Z) : HostAuthorityLease := mkHostLease Local lease_ms.

Definition set_authority (l : HostAuthorityLease) (s : HostAuthority) : HostAuthorityLease :=
  mkHostLease s (lease_ms l).

Definition local_control (l : HostAuthorityLease) : bool :=
  match ha_state l with Held _ _ _ => false | _ => true end.

Definition degraded_reason (l : HostAuthorityLease) : option DowngradeReason :=
  match ha_state l with Degraded reason => Some reason | _ => None end.

Definition poll (l : HostAuthorityLease) (now_ms : Z) : HostAuthorityLease * bool :=
  match ha_state l with
  | Held _ _ deadline_ms => if deadline_ms <=? now_ms then (set_authority l Local, true) else (l, false)
  | _ => (l, false)
  end.

Definition acquire (l : HostAuthorityLease) (owner : Z) (generation : ControlGeneration) (now_ms : Z) :
    HostAuthorityLease * Acquire :=
  let l := (poll l now_ms).1 in
  let held := Held owner generation (sat_add u64_max now_ms (lease_ms l)) in
  match ha_state l with
  | Degraded _ => (l, Denied)
  | Local => (set_authority l held, Granted)
  | Held cur_owner cur_gen _ =>
      if negb (owner =? cur_owner) then (l, Denied)
      else if (generation =? cur_gen) || supersedes generation cur_gen then (set_authority l held, Renewed)
      else (l, Denied)
  end.

Definition release_owner (l : HostAuthorityLease) (owner : Z) : HostAuthorityLease * bool :=
  match ha_state l with
  | Held cur _ _ => if cur =? owner then (set_authority l Local, true) else (l, false)
  | _ => (l, false)
  end.

Definition fault (l : HostAuthorityLease) (reason : DowngradeReason) : HostAuthorityLease :=
  set_authority l (Degraded reason).

Definition clear_fault (l : HostAuthorityLease) : HostAuthorityLease :=
  match ha_state l with Degraded _ => set_authority l Local | _ => l end.

Definition journal (l : HostAuthorityLease) : HostAuthorityJournal :=
  match ha_state l with
  | Held owner generation _ => mkHostJournal (Some owner) (Some generation)
  | _ => journal_default
  end.

Definition recover (j : HostAuthorityJournal) (lease_ms : Z) : HostAuthorityLease * option Z :=
  (lease_fresh lease_ms, held_owner j).

(** ** Privacy *)

Definition PROTECTION_BITS : list Z := [PROTECT_BLANK_DISPLAY; PROTECT_BLOCK_LOCAL_INPUT].

Record PrivacyMode := mkPrivacy {
  active : bool;
  protections : Z
}.

Definition privacy_new : PrivacyMode := mkPrivacy false 0.

(** A call of the platform closures, the newest first in a log. *)
Inductive platform_call : Type :=
| Apply (bit : Z) (worked : bool)
| Rollback (bit : Z).

Definition privacy_state (m : PrivacyMode) : PrivacyState :=
  mkPrivacyState (active m) (protections m) Applied None.

(** [for &bit in &PROTECTION_BITS { if set & bit != 0 { rollback(bit) } }] *)
Fixpoint rollback_bits (bits : list Z) (set : Z) (log : list platform_call) : list platform_call :=
  match bits with
  | [] => log
  | bit :: bits => rollback_bits bits set (if Z.land set bit =? 0 then log else Rollback bit :: log)
  end.

Section engage.
  (** Whether a call of the [apply] closure succeeds, after the calls so far. *)
  Context (apply : list platform_call -> Z -> bool).

(** The loop of [engage]: [inl] the bits applied, [inr tt] after the failure of one. *)
Fixpoint apply_bits (bits : list Z) (requested applied : Z) (log : list platform_call) :
    (Z + unit) * list platform_call :=
  match bits with
  | [] => (inl applied, log)
  | bit :: bits =>
      if Z.land requested bit =? 0 then apply_bits bits requested applied log
      else
        let worked := apply log bit in
        let log := Apply bit worked :: log in
        if worked then apply_bits bits requested (Z.lor applied bit) log
        else (inr tt, rollback_bits PROTECTION_BITS applied log)
  end.

Definition engage (m : PrivacyMode) (requested : Z) (log : list platform_call) :
    PrivacyMode * PrivacyState * list platform_call :=
  if (requested =? 0) || negb (Z.land requested (Z.lnot PROTECT_ALL) =? 0) then
    (m, mkPrivacyState (active m) (protections m) Rejected (Some Unsupported), log)
  else
    let log := if active m then rollback_bits PROTECTION_BITS (protections m) log else log in
    match apply_bits PROTECTION_BITS requested 0 log with
    | (inl _, log) =>
        (mkPrivacy true requested, mkPrivacyState true requested Applied None, log)
    | (inr _, log) =>
        (mkPrivacy false 0, mkPrivacyState false 0 Rejected (Some PolicyDenied), log)
    end.

End engage.

Definition disengage (m : PrivacyMode) (log : list platform_call) : PrivacyMode * list platform_call :=
  (mkPrivacy false 0, rollback_bits PROTECTION_BITS (protections m) log).

Definition fail_open (m : PrivacyMode) : PrivacyMode * bool := (mkPrivacy false 0, active m).

(** ** Outputs *)

Definition FNV_OFFSET : Z := 14695981039346656037.
Definition FNV_PRIME : Z := 1099511628211.

Definition fnv_byte (hash byte : Z) : Z := wrap64 (Z.lxor hash byte * FNV_PRIME).

Definition edid_output_id (edid : list Z) : Z := foldl fnv_byte FNV_OFFSET edid.

Record OutputSample := mkSample {
  edid : list Z;
  sm_os_index : Z;
  sm_dpi : Z
}.

Record OutputEntry := mkEntry {
  id : Z;
  os_index : Z;
  dpi : Z;
  connected : bool;
  streaming : bool
}.

Record OutputRegistry := mkRegistry {
  outputs : list OutputEntry;
  max_streams : Z
}.

Definition registry_new (max_streams : Z) : OutputRegistry := mkRegistry [] max_streams.

Definition set_connected (c : bool) (e : OutputEntry) : OutputEntry :=
  mkEntry (id e) (os_index e) (dpi e) c (streaming e).
Definition set_streaming (s : bool) (e : OutputEntry) : OutputEntry :=
  mkEntry (id e) (os_index e) (dpi e) (connected e) s.

(** [iter_mut().find(|e| e.id == id)], updated in place. *)
Fixpoint update_first (i : Z) (f : OutputEntry -> OutputEntry) (es : list OutputEntry) : list OutputEntry :=
  match es with
  | [] => []
  | e :: es => if id e =? i then f e :: es else e :: update_first i f es
  end.

Fixpoint find_entry (i : Z) (es : list OutputEntry) : option OutputEntry :=
  match es with
  | [] => None
  | e :: es => if id e =? i then Some e else find_entry i es
  end.

Definition enumerate_sample (es : list OutputEntry) (s : OutputSample) : list OutputEntry :=
  let i := edid_output_id (edid s) in
  match find_entry i es with
  | Some _ => update_first i (fun e => mkEntry (id e) (sm_os_index s) (sm_dpi s) true (streaming e)) es
  | None => es ++ [mkEntry i (sm_os_index s) (sm_dpi s) true false]
  end.

Definition enumerate (r : OutputRegistry) (samples : list OutputSample) : OutputRegistry :=
  let es := foldl enumerate_sample (map (set_connected false) (outputs r)) samples in
  mkRegistry (map (fun e => if connected e then e else set_streaming false e) es) (max_streams r).

Definition get (r : OutputRegistry) (i : Z) : option OutputEntry := find_entry i (outputs r).

Definition connected_count (r : OutputRegistry) : Z := len (filter (fun e => connected e = true) (outputs r)).
Definition streaming_count (r : OutputRegistry) : Z := len (filter (fun e => streaming e = true) (outputs r)).

Definition try_stream (r : OutputRegistry) (i : Z) : OutputRegistry * bool :=
  if max_streams r <=? streaming_count r then (r, false)
  else
    match find_entry i (outputs r) with
    | Some e =>
        if connected e && negb (streaming e)
        then (mkRegistry (update_first i (set_streaming true) (outputs r)) (max_streams r), true)
        else (r, false)
    | None => (r, false)
    end.

Definition stop_stream (r : OutputRegistry) (i : Z) : OutputRegistry * bool :=
  match find_entry i (outputs r) with
  | Some e =>
      if streaming e then (mkRegistry (update_first i (set_streaming false) (outputs r)) (max_streams r), true)
      else (r, false)
  | None => (r, false)
  end.

(** [as i32]. *)
Definition to_i32 (x : Z) : Z := (x + 2147483648) mod 4294967296 - 2147483648.

Definition transform_point (r : OutputRegistry) (from to x y : Z) : option (Z * Z) :=
  match get r from, get r to with
  | Some src, Some dst =>
      if dpi src =? 0 then None
      else
        let scale v := to_i32 (Z.quot (v * dpi dst) (dpi src)) in
        Some (scale x, scale y)
  | _, _ => None
  end.
