(* ===== verification/HostAuthoritySafe.v ===== *)
(** * Host authority, privacy mode and outputs: proofs

    The lease over its history, the privacy mode against the platform it
    drives, and the registry against the enumerations it was given. *)
From S2P Require Import Prelude DesktopControl HostAuthority.

(** ** The authority lease over a history *)

Inductive authority_op : Type :=
| OpPoll (now : Z)
| OpAcquire (owner : Z) (generation : ControlGeneration) (now : Z)
| OpRelease (owner : Z)
| OpFault (reason : DowngradeReason)
| OpClearFault.

(** An operation with its outcome: whether an acquisition was granted. *)
Definition authority_step (l : HostAuthorityLease) (op : authority_op) : HostAuthorityLease * option Acquire :=
  match op with
  | OpPoll now => ((poll l now).1, None)
  | OpAcquire o g now => let '(l, a) := acquire l o g now in (l, Some a)
  | OpRelease o => ((release_owner l o).1, None)
  | OpFault r => (fault l r, None)
  | OpClearFault => (clear_fault l, None)
  end.

Fixpoint authority_run (l : HostAuthorityLease) (ops : list authority_op) :
    HostAuthorityLease * list (authority_op * option Acquire) :=
  match ops with
  | [] => (l, [])
  | op :: ops =>
      let '(l, a) := authority_step l op in
      let '(l, h) := authority_run l ops in (l, (op, a) :: h)
  end.

(** The event ends a lease of [owner] whose deadline is [deadline]. *)
Definition ends (owner deadline : Z) (ev : authority_op * option Acquire) : Prop :=
  match ev.1 with
  | OpPoll now | OpAcquire _ _ now => deadline <= now
  | OpRelease o => o = owner
  | OpFault _ => True
  | OpClearFault => False
  end.

Definition grants (ev : authority_op * option Acquire) : Prop :=
  ev.2 = Some Granted \/ ev.2 = Some Renewed.

#[export] Instance Acquire_eq_dec : EqDecision Acquire.
Proof. solve_decision. Defined.

Lemma authority_run_app l ops ops' :
  authority_run l (ops ++ ops') =
    let '(l, h) := authority_run l ops in
    let '(l, h') := authority_run l ops' in (l, h ++ h').
Proof.
  revert l. induction ops as [|op ops IH]; intros l; cbn.
  - by destruct (authority_run l ops').
  - destruct (authority_step l op) as [l1 a]. rewrite IH. destruct (authority_run l1 ops) as [l2 h].
    by destruct (authority_run l2 ops').
Qed.

Lemma authority_run_ops l ops : (authority_run l ops).2.*1 = ops.
Proof.
  revert l. induction ops as [|op ops IH]; intros l; [done|]. cbn.
  destruct (authority_step l op) as [l1 a]. specialize (IH l1). destruct (authority_run l1 ops) as [l2 h].
  cbn in *. by rewrite IH.
Qed.

Lemma poll_lease_ms l now : lease_ms (poll l now).1 = lease_ms l.
Proof. unfold poll. by repeat case_match. Qed.

Lemma authority_step_lease_ms l op : lease_ms (authority_step l op).1 = lease_ms l.
Proof.
  destruct op; cbn; unfold acquire, release_owner, clear_fault; repeat case_match; simplify_eq;
    rewrite ?poll_lease_ms; cbn; rewrite ?poll_lease_ms; done.
Qed.

(** A granting step is an acquisition that leaves its lease in force. *)
Lemma authority_grant l op : grants (op, (authority_step l op).2) ->
  exists o g now, op = OpAcquire o g now /\
    ha_state (authority_step l op).1 = Held o g (sat_add u64_max now (lease_ms l)).
Proof.
  destruct op as [| o g now | | |]; unfold grants; cbn; try by intros [].
  unfold acquire. rewrite <- (poll_lease_ms l now). set (l1 := (poll l now).1).
  intros H. exists o, g, now. split; [done|]. repeat case_match; cbn in *; simplify_eq; try done; by destruct H.
Qed.

(** A step that grants nothing keeps a lease, unless it ends it; it never starts one. *)
Lemma held_step l op o g d : ha_state l = Held o g d -> ~ grants (op, (authority_step l op).2) ->
  ends o d (op, (authority_step l op).2) \/ ha_state (authority_step l op).1 = Held o g d.
Proof.
  intros Hl Hg. unfold ends. destruct op as [now|o' g' now|o'|r|]; cbn [authority_step fst] in *; [..|by left|right].
  - unfold poll. rewrite Hl. case_test; [by left|by right].
  - unfold acquire, poll in *. rewrite Hl in *. revert Hg.
    case_test; cbn; [by left|]. rewrite Hl.
    destruct (negb (o' =? o)); [by right|]. destruct (_ || _); [|by right].
    intros Hg. destruct Hg. by right.
  - unfold release_owner. rewrite Hl. case_test; cbn; [by left|by right].
  - unfold clear_fault. by rewrite Hl.
Qed.

Lemma free_step l op : local_control l = true -> ~ grants (op, (authority_step l op).2) ->
  local_control (authority_step l op).1 = true.
Proof.
  unfold local_control. intros Hl Hg. destruct (ha_state l) eqn:E; [|done|];
    destruct op as [now|o g now|o|r|]; cbn [authority_step fst] in *;
    unfold acquire, release_owner, clear_fault, poll in *; rewrite ?E in *; cbn in *; rewrite ?E in *; try done.
  all: cbn; rewrite ?E; try done; destruct Hg; by left.
Qed.

Lemma ended_step l op o g d : ha_state l = Held o g d -> ends o d (op, (authority_step l op).2) ->
  ~ grants (op, (authority_step l op).2) -> local_control (authority_step l op).1 = true.
Proof.
  intros Hl He Hg. unfold ends, local_control in *. destruct op as [now|o' g' now|o'|r|]; cbn [authority_step fst] in *.
  - unfold poll. rewrite Hl. by rewrite (proj2 (Z.leb_le _ _)).
  - unfold acquire, poll in *. rewrite Hl in *. rewrite (proj2 (Z.leb_le _ _)) in * by done. cbn in *.
    destruct Hg. by left.
  - unfold release_owner. rewrite Hl. subst. by rewrite Z.eqb_refl.
  - done.
  - done.
Qed.

(** From a lease in force, a run without grants keeps it or has ended it. *)
Lemma held_run l ops o g d :
  ha_state l = Held o g d -> Forall (fun ev => ~ grants ev) (authority_run l ops).2 ->
  Exists (ends o d) (authority_run l ops).2 /\ local_control (authority_run l ops).1 = true \/
  ha_state (authority_run l ops).1 = Held o g d.
Proof.
  assert (Hfree : forall l ops, local_control l = true -> Forall (fun ev => ~ grants ev) (authority_run l ops).2 ->
    local_control (authority_run l ops).1 = true).
  { clear. intros l ops. revert l. induction ops as [|op ops IH]; intros l Hl; [done|]. cbn.
    pose proof (free_step l op Hl) as Hs. destruct (authority_step l op) as [l1 a]. specialize (IH l1).
    destruct (authority_run l1 ops) as [l2 h]. cbn in *. intros [Hg Hh]%Forall_cons. auto. }
  revert l. induction ops as [|op ops IH]; intros l Hl; [by right|]. cbn.
  pose proof (held_step l op o g d Hl) as Hs. pose proof (ended_step l op o g d Hl) as He.
  destruct (authority_step l op) as [l1 a]. specialize (IH l1). specialize (Hfree l1 ops).
  destruct (authority_run l1 ops) as [l2 h]. cbn in *. intros [Hg Hh]%Forall_cons.
  destruct (Hs Hg) as [Hend|Hl1].
  - left. split; [by left|]. auto.
  - destruct (IH Hl1 Hh) as [[Hex Hloc]|H2]; [left; split; [by right|done]|by right].
Qed.

Lemma authority_run_split l ops h1 h2 : (authority_run l ops).2 = h1 ++ h2 ->
  exists l1 ops1 ops2, ops = ops1 ++ ops2 /\ authority_run l ops1 = (l1, h1) /\
    authority_run l1 ops2 = ((authority_run l ops).1, h2).
Proof.
  revert l ops. induction h1 as [|ev h1 IH]; intros l ops E.
  - exists l, [], ops. split; [done|]. split; [done|]. destruct (authority_run l ops). cbn in *. by subst.
  - destruct ops as [|op ops]; [done|]. cbn in *. destruct (authority_step l op) as [l0 a] eqn:Es.
    destruct (authority_run l0 ops) as [l2 h] eqn:Er. cbn in E. injection E as <- E.
    destruct (IH l0 ops) as (l1 & ops1 & ops2 & -> & E1 & E2); [by rewrite Er|].
    exists l1, (op :: ops1), ops2. rewrite Er in E2. cbn. by rewrite Es, E1.
Qed.

Lemma authority_run_cons l op ops ev h : (authority_run l (op :: ops)).2 = ev :: h ->
  ev = (op, (authority_step l op).2) /\ h = (authority_run (authority_step l op).1 ops).2.
Proof.
  cbn. destruct (authority_step l op) as [l1 a]. cbn. destruct (authority_run l1 ops) as [l2 k].
  by intros [= <- <-].
Qed.

Lemma authority_run_lease_ms l ops : lease_ms (authority_run l ops).1 = lease_ms l.
Proof.
  revert l. induction ops as [|op ops IH]; intros l; [done|]. cbn.
  pose proof (authority_step_lease_ms l op) as H. destruct (authority_step l op) as [l1 a].
  specialize (IH l1). destruct (authority_run l1 ops). cbn in *. congruence.
Qed.

(** The lease in force is the last grant, with nothing since that ends it. *)
Definition last_grant (L : Z) (h : list (authority_op * option Acquire)) (o g d : Z) : Prop :=
  exists pre t a post, h = pre ++ (OpAcquire o g t, Some a) :: post /\ grants (OpAcquire o g t, Some a) /\
    d = sat_add u64_max t L /\ Forall (fun ev => ~ grants ev /\ ~ ends o d ev) post.

Lemma held_last_grant L ops o g d :
  ha_state (authority_run (lease_fresh L) ops).1 = Held o g d ->
  last_grant L (authority_run (lease_fresh L) ops).2 o g d.
Proof.
  revert o g d. induction ops as [|op ops IH] using rev_ind; intros o g d; [done|].
  rewrite authority_run_app. pose proof (authority_run_lease_ms (lease_fresh L) ops) as Hms.
  destruct (authority_run (lease_fresh L) ops) as [l h]. cbn in Hms, IH |- *.
  pose proof (authority_grant l op) as Hgr. pose proof (held_step l op) as Hhs.
  pose proof (free_step l op) as Hfr. pose proof (ended_step l op) as Hen.
  destruct (authority_step l op) as [l1 a]. cbn in *. intros Hst.
  destruct (decide (a = Some Granted \/ a = Some Renewed)) as [Hg|Hg].
  - destruct (Hgr Hg) as (o' & g' & t & -> & Hs). rewrite Hst in Hs. injection Hs as -> -> ->.
    destruct a as [a|]; [|by destruct Hg].
    exists h, t, a, []. split; [done|]. split; [done|]. split; [by rewrite Hms|constructor].
  - destruct (ha_state l) as [|o' g' d'|r] eqn:El.
    + exfalso. unfold local_control in Hfr. rewrite El, Hst in Hfr. by discriminate (Hfr eq_refl Hg).
    + assert (He : ~ ends o' d' (op, a)).
      { intros He. specialize (Hen o' g' d' eq_refl He Hg). unfold local_control in Hen. by rewrite Hst in Hen. }
      destruct (Hhs o' g' d' eq_refl Hg) as [?|Hsame]; [done|]. rewrite Hst in Hsame. injection Hsame as -> -> ->.
      destruct (IH o' g' d' eq_refl) as (pre & t & a' & post & -> & Ha' & Hd & Hp).
      exists pre, t, a', (post ++ [(op, a)]). split; [by rewrite <- app_assoc|]. split; [done|]. split; [done|].
      apply Forall_app. split; [done|]. by constructor.
    + exfalso. unfold local_control in Hfr. rewrite El, Hst in Hfr. by discriminate (Hfr eq_refl Hg).
Qed.

Lemma acquire_held l o g t o0 g0 d0 a : ha_state l = Held o0 g0 d0 ->
  authority_step l (OpAcquire o g t) = ((authority_step l (OpAcquire o g t)).1, Some a) ->
  a = Granted \/ a = Renewed ->
  d0 <= t /\ a = Granted \/ a = Renewed /\ o = o0 /\ (g = g0 \/ supersedes g g0 = true).
Proof.
  intros Hl. cbn. unfold acquire, poll. rewrite Hl. case_test; cbn.
  - intros [= <-] _. by left.
  - rewrite Hl. destruct (Z.eqb_spec o o0) as [->|]; cbn; [|intros [= <-]; by intros []].
    destruct (_ || _) eqn:E; [|intros [= <-]; by intros []]. intros [= <-] _. right.
    split; [done|]. split; [done|]. apply orb_true_iff in E as [E|E]; [left; by apply Z.eqb_eq|by right].
Qed.

Lemma acquire_free l o g t a : local_control l = true ->
  (authority_step l (OpAcquire o g t)).2 = Some a -> a = Granted \/ a = Renewed -> a = Granted.
Proof.
  unfold local_control. cbn. unfold acquire, poll. destruct (ha_state l) eqn:E; [|done|]; rewrite ?E; cbn; rewrite ?E.
  - by intros _ [= <-].
  - intros _ [= <-]. by intros [].
Qed.

(** C22: one owner at a time. In the history of any calls at any times, the next
    acquisition to succeed after one either renews it, for the same owner with the
    same or a newer generation, or grants a new lease after the first one
    ended: its owner released it, a fault was recorded, or the clock was read at
    or past its deadline, one lease after the grant. The host is out of local
    control exactly while the last grant has not so ended, and a restart from the
    journal is in local control and reports the owner that was dropped. *)
Theorem authority_exclusive L ops :
  (forall pre o1 g1 t1 a1 mid o2 g2 t2 a2 post,
    (authority_run (lease_fresh L) ops).2 =
      pre ++ (OpAcquire o1 g1 t1, Some a1) :: mid ++ (OpAcquire o2 g2 t2, Some a2) :: post ->
    grants (OpAcquire o1 g1 t1, Some a1) -> grants (OpAcquire o2 g2 t2, Some a2) ->
    Forall (fun ev => ~ grants ev) mid ->
    a2 = Renewed /\ o2 = o1 /\ (g2 = g1 \/ supersedes g2 g1 = true) \/
    a2 = Granted /\ Exists (ends o1 (sat_add u64_max t1 L)) (mid ++ [(OpAcquire o2 g2 t2, Some a2)])) /\
  (local_control (authority_run (lease_fresh L) ops).1 = false <->
    exists o g d, last_grant L (authority_run (lease_fresh L) ops).2 o g d) /\
  local_control (recover (journal (authority_run (lease_fresh L) ops).1) L).1 = true /\
  (forall o g d, ha_state (authority_run (lease_fresh L) ops).1 = Held o g d ->
    (recover (journal (authority_run (lease_fresh L) ops).1) L).2 = Some o).
Proof.
  split_and!.
  - intros pre o1 g1 t1 a1 mid o2 g2 t2 a2 post E G1 G2 Hmid.
    apply authority_run_split in E as (l1 & ops1 & ops2 & -> & E1 & E2).
    destruct ops2 as [|op ops2]; [done|].
    pose proof (authority_run_lease_ms (lease_fresh L) ops1) as Hms. rewrite E1 in Hms. cbn in Hms.
    destruct (authority_run_cons l1 op ops2 _ _ (f_equal snd E2)) as [Hev Hrest]. injection Hev as <- Ha1.
    destruct (authority_grant l1 (OpAcquire o1 g1 t1)) as (o & g & t & [= <- <- <-] & Hst); [by rewrite <- Ha1|].
    rewrite Hms in Hst. set (l2 := (authority_step l1 (OpAcquire o1 g1 t1)).1) in *.
    symmetry in Hrest. apply authority_run_split in Hrest as (l3 & ops3 & ops4 & -> & E3 & E4).
    destruct ops4 as [|op ops4]; [done|].
    destruct (authority_run_cons l3 op ops4 _ _ (f_equal snd E4)) as [Hev _]. injection Hev as <- Ha2.
    assert (G2' : a2 = Granted \/ a2 = Renewed) by (unfold grants in G2; cbn in G2; naive_solver).
    destruct (held_run l2 ops3 o1 g1 (sat_add u64_max t1 L) Hst) as [[Hex Hloc]|Hkept].
    + by rewrite E3.
    + rewrite E3 in Hex, Hloc. cbn in Hex, Hloc. right. split; [by eapply (acquire_free l3)|].
      apply Exists_app. by left.
    + rewrite E3 in Hkept. cbn in Hkept.
      destruct (acquire_held l3 o2 g2 t2 o1 g1 _ a2 Hkept) as [[Hd ->]|(-> & -> & Hg)]; [|done| |].
      * rewrite Ha2. by destruct (authority_step l3 (OpAcquire o2 g2 t2)).
      * right. split; [done|]. apply Exists_app. right. by left.
      * by left.
  - split.
    + unfold local_control. destruct (ha_state _) as [|o g d|] eqn:E; [done| |done]. intros _.
      exists o, g, d. by apply held_last_grant.
    + intros (o & g & d & pre & t & a & post & E & G & -> & Hpost).
      apply authority_run_split in E as (l1 & ops1 & ops2 & -> & E1 & E2).
      destruct ops2 as [|op ops2]; [done|].
      pose proof (authority_run_lease_ms (lease_fresh L) ops1) as Hms. rewrite E1 in Hms. cbn in Hms.
      destruct (authority_run_cons l1 op ops2 _ _ (f_equal snd E2)) as [Hev Hrest]. injection Hev as <- Ha1.
      destruct (authority_grant l1 (OpAcquire o g t)) as (o' & g' & t' & [= <- <- <-] & Hst); [by rewrite <- Ha1|].
      rewrite Hms in Hst. apply (f_equal fst) in E2. cbn [fst] in E2.
      destruct (held_run _ ops2 o g _ Hst) as [[Hex _]|Hk].
      * rewrite <- Hrest. eapply Forall_impl; [exact Hpost|]. by intros ev [].
      * exfalso. rewrite <- Hrest in Hex. apply Exists_exists in Hex as (ev & Hin & He).
        rewrite Forall_forall in Hpost. by destruct (Hpost ev Hin).
      * rewrite <- E2. cbn [authority_run]. unfold local_control. revert Hk.
        destruct (authority_step l1 (OpAcquire o g t)) as [l2 a2]. cbn [fst].
        destruct (authority_run l2 ops2) as [l3 h3]. cbn [fst]. by intros ->.
  - done.
  - intros o g d E. unfold journal. by rewrite E.
Qed.

Lemma authority_exclusive_witness :
  let h := (authority_run (lease_fresh 500) [OpAcquire 1 5 0; OpAcquire 2 9 499; OpAcquire 1 6 400; OpAcquire 2 9 900]).2 in
  h = [(OpAcquire 1 5 0, Some Granted); (OpAcquire 2 9 499, Some Denied); (OpAcquire 1 6 400, Some Renewed);
       (OpAcquire 2 9 900, Some Granted)] /\
  Exists (ends 1 900) [(OpAcquire 2 9 900, Some Granted)].
Proof.
  intros h. split; [reflexivity|].
  destruct (proj1 (authority_exclusive 500 [OpAcquire 1 5 0; OpAcquire 2 9 499; OpAcquire 1 6 400; OpAcquire 2 9 900])
    [(OpAcquire 1 5 0, Some Granted); (OpAcquire 2 9 499, Some Denied)] 1 6 400 Renewed [] 2 9 900 Granted [])
    as [[H _]|[_ H]].
  - reflexivity.
  - by right.
  - by left.
  - constructor.
  - discriminate H.
  - exact H.
Defined.

(** ** Privacy against the platform *)

(** The protections in force on the platform after a log of calls. *)
Fixpoint in_force (log : list platform_call) : Z :=
  match log with
  | [] => 0
  | Apply bit worked :: log => if worked then Z.lor (in_force log) bit else in_force log
  | Rollback bit :: log => Z.ldiff (in_force log) bit
  end.

(** No protection is applied twice, and only one in force is rolled back. *)
Fixpoint orderly (log : list platform_call) : Prop :=
  match log with
  | [] => True
  | Apply bit _ :: log => Z.land (in_force log) bit = 0 /\ orderly log
  | Rollback bit :: log => Z.land (in_force log) bit = bit /\ orderly log
  end.

(** The sets of protections. *)
Definition protection_set (p : Z) : Prop := p = 0 \/ p = 1 \/ p = 2 \/ p = 3.

Lemma protection_set_test p : 0 <= p -> (p =? 0) || negb (Z.land p (Z.lnot PROTECT_ALL) =? 0) = false ->
  p = 1 \/ p = 2 \/ p = 3.
Proof.
  intros Hp. rewrite orb_false_iff, negb_false_iff, Z.eqb_neq, Z.eqb_eq. intros [Hn Hl].
  assert (E : Z.land p 3 = p).
  { change PROTECT_ALL with 3 in Hl. rewrite <- (Z.lor_0_r (Z.land p 3)), <- Hl, <- Z.land_lor_distr_r.
    by rewrite Z.lor_lnot_diag, Z.land_m1_r. }
  change 3 with (Z.ones 2) in E. rewrite Z.land_ones in E by lia. pose proof (Z.mod_pos_bound p (2 ^ 2)). lia.
Qed.

(** Evaluates the two loops on a concrete set of protections. *)
Ltac eval_bits :=
  cbv [PROTECTION_BITS PROTECT_BLANK_DISPLAY PROTECT_BLOCK_LOCAL_INPUT rollback_bits apply_bits
       Z.land Z.lor Z.eqb Pos.land Pos.lor Pos.eqb Pos.Ndouble Pos.Nsucc_double Z.of_N].

(** Rolling back what is in force leaves nothing in force. *)
Lemma rollback_all p log : protection_set p -> in_force log = p -> orderly log ->
  in_force (rollback_bits PROTECTION_BITS p log) = 0 /\ orderly (rollback_bits PROTECTION_BITS p log).
Proof.
  intros [-> | [-> | [-> | ->]]] E H; eval_bits; cbn [in_force orderly]; rewrite ?E; repeat split; done.
Qed.

(** The whole loop of [engage], from nothing in force. *)
Lemma apply_all apply r log : r = 1 \/ r = 2 \/ r = 3 -> in_force log = 0 -> orderly log ->
  match apply_bits apply PROTECTION_BITS r 0 log with
  | (inl a, log') => a = r /\ in_force log' = r /\ orderly log'
  | (inr _, log') => in_force log' = 0 /\ orderly log'
  end.
Proof.
  intros [-> | [-> | ->]] E H; eval_bits.
  - destruct (apply log 1); cbn [in_force orderly]; rewrite ?E; repeat split; done.
  - destruct (apply log 2); cbn [in_force orderly]; rewrite ?E; repeat split; done.
  - destruct (apply log 1); [|cbn [in_force orderly]; rewrite ?E; repeat split; done].
    destruct (apply _ 2); cbn [in_force orderly]; rewrite ?E; repeat split; done.
Qed.

(** The calls of the host: requests with what the platform answers, leaving, and
    faults, after which the platform holds nothing. *)
Inductive privacy_op : Type :=
| OpEngage (requested : Z) (apply : list platform_call -> Z -> bool)
| OpDisengage
| OpFailOpen.

(** The mode and the log of the platform since the last fault. *)
Definition privacy_step (s : PrivacyMode * list platform_call) (op : privacy_op) :
    PrivacyMode * list platform_call * option PrivacyState :=
  match op with
  | OpEngage r apply => let '(m, st, log) := engage apply s.1 r s.2 in (m, log, Some st)
  | OpDisengage => (disengage s.1 s.2, None)
  | OpFailOpen => ((fail_open s.1).1, [], None)
  end.

Definition privacy_run (ops : list privacy_op) : PrivacyMode * list platform_call :=
  foldl (fun s op => (privacy_step s op).1) (privacy_new, []) ops.

Definition privacy_inv (s : PrivacyMode * list platform_call) : Prop :=
  protection_set (protections s.1) /\ in_force s.2 = protections s.1 /\ orderly s.2 /\
  active s.1 = negb (protections s.1 =? 0).

(** The request carries a byte. *)
Definition privacy_op_ok (op : privacy_op) : Prop :=
  match op with OpEngage r _ => is_byte r | _ => True end.

(** What a request leaves and answers: refused and unchanged, all, or nothing. *)
Definition engaged (s s' : PrivacyMode * list platform_call) (r : Z) (st : PrivacyState) : Prop :=
  (s' = s /\ ~ (r = 1 \/ r = 2 \/ r = 3) /\
    st = mkPrivacyState (active s.1) (protections s.1) Rejected (Some Unsupported)) \/
  ((r = 1 \/ r = 2 \/ r = 3) /\ in_force s'.2 = r /\ st = mkPrivacyState true r Applied None) \/
  ((r = 1 \/ r = 2 \/ r = 3) /\ in_force s'.2 = 0 /\ st = mkPrivacyState false 0 Rejected (Some PolicyDenied)).

Lemma engage_inv apply m log r : privacy_inv (m, log) -> is_byte r ->
  let '(m', st, log') := engage apply m r log in
  privacy_inv (m', log') /\ engaged (m, log) (m', log') r st.
Proof.
  intros (Hp & Hf & Ho & Ha) [Hr _]. cbn [fst snd] in *. unfold engage, engaged.
  destruct (_ || _) eqn:E.
  - split; [done|]. left. split; [done|]. split; [|done]. intros Hr3.
    by destruct Hr3 as [-> | [-> | ->]].
  - pose proof (protection_set_test r Hr E) as Hr3.
    assert (Hclean : in_force (if active m then rollback_bits PROTECTION_BITS (protections m) log else log) = 0 /\
      orderly (if active m then rollback_bits PROTECTION_BITS (protections m) log else log)).
    { destruct (active m) eqn:Eact; [by apply rollback_all|]. split; [|done]. rewrite Hf.
      symmetry in Ha. rewrite negb_false_iff in Ha. by apply Z.eqb_eq. }
    destruct Hclean as [Hc Hco]. pose proof (apply_all apply r _ Hr3 Hc Hco) as Hall.
    destruct (apply_bits apply PROTECTION_BITS r 0 _) as [[a|[]] log'].
    + destruct Hall as (-> & Hf' & Ho'). split.
      * split_and!; cbn; [unfold protection_set; tauto|done|done|]. by destruct Hr3 as [-> | [-> | ->]].
      * right; left. done.
    + destruct Hall as (Hf' & Ho'). split; [split_and!; cbn; (done || by left)|]. right; right. done.
Qed.

Lemma privacy_step_inv s op : privacy_inv s -> privacy_op_ok op -> privacy_inv (privacy_step s op).1.
Proof.
  destruct s as [m log], op as [r apply| |]; intros Hi Hop; cbn.
  - pose proof (engage_inv apply m log r Hi Hop) as H. destruct (engage apply m r log) as [[m' st] log'].
    exact (proj1 H).
  - destruct Hi as (Hp & Hf & Ho & Ha). cbn in *. destruct (rollback_all _ _ Hp Hf Ho) as [H1 H2].
    split_and!; cbn; (done || by left).
  - split_and!; cbn; (done || by left).
Qed.

Lemma privacy_run_inv ops : Forall privacy_op_ok ops -> privacy_inv (privacy_run ops).
Proof.
  unfold privacy_run. assert (H0 : privacy_inv (privacy_new, [])) by (split_and!; cbn; (done || by left)).
  intros H. revert H0. generalize (privacy_new, @nil platform_call).
  induction H as [|op ops Hop _ IH]; intros s Hs; [done|]. cbn. apply IH. by apply privacy_step_inv.
Qed.

(** C23: privacy is transactional, whatever the platform's closures answer. After
    any calls, the protections the mode reports are those in force on the
    platform since the last fault, and none when it is inactive; no protection was
    applied while in force or rolled back while not. A request that names no
    known protection, or an unknown one, changes nothing; any other leaves either
    exactly what it asked for or nothing in force, and its answer says which. *)
Theorem privacy_transactional ops :
  Forall privacy_op_ok ops ->
  let s := privacy_run ops in
  in_force s.2 = protections s.1 /\ (active s.1 = true <-> in_force s.2 <> 0) /\ orderly s.2 /\
  (forall r apply, is_byte r ->
    exists st, (privacy_step s (OpEngage r apply)).2 = Some st /\
      engaged s (privacy_step s (OpEngage r apply)).1 r st) /\
  in_force (privacy_step s OpDisengage).1.2 = 0.
Proof.
  intros Hops s. pose proof (privacy_run_inv ops Hops) as Hi. fold s in Hi.
  pose proof (privacy_step_inv s OpDisengage Hi I) as (_ & Hd & _). 
  pose proof Hi as (Hp & Hf & Ho & Ha). split_and!; [done| |done| |].
  - rewrite Ha, Hf, negb_true_iff, Z.eqb_neq. done.
  - intros r apply Hr. destruct s as [m log]. pose proof (engage_inv apply m log r Hi Hr) as H. cbn.
    destruct (engage apply m r log) as [[m' st] log']. exists st. by destruct H.
  - rewrite Hd. done.
Qed.

Lemma privacy_transactional_witness :
  let s := privacy_run [OpEngage 3 (fun _ _ => true); OpEngage 1 (fun _ _ => true); OpEngage 3 (fun _ b => b =? 1)] in
  in_force s.2 = 0 /\ in_force s.2 = protections s.1.
Proof.
  split; [reflexivity|].
  apply (privacy_transactional
    [OpEngage 3 (fun _ _ => true); OpEngage 1 (fun _ _ => true); OpEngage 3 (fun _ b => b =? 1)]).
  repeat constructor; unfold is_byte; lia.
Defined.

(** ** Outputs *)

Lemma find_update i j f es : (forall e, id (f e) = id e) ->
  find_entry j (update_first i f es) = if j =? i then f <$> find_entry i es else find_entry j es.
Proof.
  intros Hf. induction es as [|e es IH]; cbn; [by destruct (j =? i)|].
  destruct (Z.eqb_spec (id e) i) as [Hi|Hi]; cbn; rewrite ?Hf.
  - destruct (Z.eqb_spec j i) as [->|Hj]; [by rewrite (proj2 (Z.eqb_eq _ _))|].
    by rewrite !(proj2 (Z.eqb_neq (id e) j)) by congruence.
  - rewrite IH. destruct (Z.eqb_spec j i) as [->|Hj]; [by rewrite (proj2 (Z.eqb_neq (id e) i))|done].
Qed.

Lemma ids_update i f es : (forall e, id (f e) = id e) -> map id (update_first i f es) = map id es.
Proof. intros Hf. induction es as [|e es IH]; cbn; [done|]. case_test; cbn; [by rewrite Hf|by rewrite IH]. Qed.

Lemma find_map j f es : (forall e, id (f e) = id e) -> find_entry j (map f es) = f <$> find_entry j es.
Proof. intros Hf. induction es as [|e es IH]; cbn; [done|]. rewrite Hf. by destruct (_ =? _). Qed.

Lemma ids_map f es : (forall e, id (f e) = id e) -> map id (map f es) = map id es.
Proof. intros Hf. rewrite map_map. by apply map_ext. Qed.

Lemma find_snoc j es e : find_entry j (es ++ [e]) =
  match find_entry j es with Some e' => Some e' | None => if id e =? j then Some e else None end.
Proof. induction es as [|e' es IH]; cbn; [done|]. by destruct (id e' =? j); rewrite ?IH. Qed.

Lemma find_entry_id i es e : find_entry i es = Some e -> id e = i /\ e ∈ es.
Proof.
  induction es as [|e' es IH]; cbn; [done|]. destruct (Z.eqb_spec (id e') i) as [<-|_].
  - intros [= ->]. split; [done|by left].
  - intros H. destruct (IH H). split; [done|by right].
Qed.

Lemma find_entry_none i es : find_entry i es = None <-> i ∉ map id es.
Proof.
  induction es as [|e es IH]; cbn; [split; [by intros _ ?%elem_of_nil|done]|].
  rewrite not_elem_of_cons. destruct (Z.eqb_spec (id e) i) as [<-|Hn].
  - split; [done|]. by intros [? _].
  - rewrite IH. split; [intros; split; [congruence|done]|by intros [_ ?]].
Qed.

Lemma find_entry_NoDup es e : NoDup (map id es) -> e ∈ es -> find_entry (id e) es = Some e.
Proof.
  induction es as [|e' es IH]; cbn; [by intros _ ?%elem_of_nil|].
  intros [Hn Hd]%NoDup_cons [->|Hin]%elem_of_cons; [by rewrite Z.eqb_refl|].
  rewrite (proj2 (Z.eqb_neq _ _)); [auto|]. intros E. apply Hn. rewrite E.
  apply list_elem_of_In, in_map, list_elem_of_In, Hin.
Qed.

(** The newest sample of an output. *)
Definition newest_sample (samples : list OutputSample) (i : Z) : option OutputSample :=
  last (filter (fun s => edid_output_id (edid s) = i) samples).

Lemma newest_sample_snoc samples s i :
  newest_sample (samples ++ [s]) i = if edid_output_id (edid s) =? i then Some s else newest_sample samples i.
Proof.
  unfold newest_sample. rewrite filter_app. cbn [filter list_filter].
  destruct (Z.eqb_spec (edid_output_id (edid s)) i) as [E|E]; [rewrite decide_True|rewrite decide_False]; try done.
  - by rewrite last_snoc.
  - by rewrite app_nil_r.
Qed.

(** What the samples make of an entry. *)
Definition sampled (o : option OutputSample) (i : Z) (e : option OutputEntry) : option OutputEntry :=
  match o with
  | Some s => Some (mkEntry i (sm_os_index s) (sm_dpi s) true (match e with Some e => streaming e | None => false end))
  | None => e
  end.

Lemma find_samples samples es i :
  find_entry i (foldl enumerate_sample es samples) = sampled (newest_sample samples i) i (find_entry i es).
Proof.
  induction samples as [|s samples IH] using rev_ind; [done|].
  rewrite foldl_snoc, newest_sample_snoc. unfold enumerate_sample at 1.
  set (es' := foldl enumerate_sample es samples) in *. set (k := edid_output_id (edid s)).
  destruct (find_entry k es') as [e|] eqn:Ek.
  - rewrite find_update by done. rewrite (Z.eqb_sym i k). destruct (Z.eqb_spec k i) as [<-|_]; [|done].
    rewrite Ek. cbn. destruct (find_entry_id _ _ _ Ek) as [-> _]. f_equal. f_equal.
    rewrite IH in Ek. destruct (newest_sample samples k); cbn in Ek; [by injection Ek as <-|by rewrite Ek].
  - rewrite find_snoc. cbn [id]. destruct (Z.eqb_spec k i) as [<-|_].
    + rewrite Ek. rewrite IH in Ek. destruct (newest_sample samples k); cbn in Ek; [done|]. by rewrite Ek.
    + by rewrite IH; destruct (sampled _ _ _).
Qed.

Lemma ids_samples samples es :
  NoDup (map id es) ->
  NoDup (map id (foldl enumerate_sample es samples)) /\
  map id es `prefix_of` map id (foldl enumerate_sample es samples).
Proof.
  intros H. induction samples as [|s samples IH] using rev_ind; [by split|].
  rewrite foldl_snoc. unfold enumerate_sample at 1 3. destruct (find_entry _ _) eqn:E.
  - by rewrite ids_update.
  - destruct IH as [Hd Hp]. rewrite map_app. split.
    + apply NoDup_app. split; [done|]. split; [|apply NoDup_singleton].
      intros x Hx ->%list_elem_of_singleton. by apply find_entry_none in E.
    + by apply prefix_app_r.
Qed.

(** The entry of an output after an enumeration. *)
Definition enumerated (samples : list OutputSample) (i : Z) (e : option OutputEntry) : option OutputEntry :=
  match newest_sample samples i, e with
  | Some s, _ => Some (mkEntry i (sm_os_index s) (sm_dpi s) true (match e with Some e => streaming e | None => false end))
  | None, Some e => Some (mkEntry i (os_index e) (dpi e) false false)
  | None, None => None
  end.

Lemma get_enumerate r samples i : get (enumerate r samples) i = enumerated samples i (get r i).
Proof.
  unfold get, enumerate. cbn [outputs]. rewrite find_map by (intros e; by destruct (connected e)).
  rewrite find_samples, find_map by done. unfold enumerated.
  destruct (newest_sample samples i) as [s|]; cbn [sampled fmap option_fmap option_map connected].
  - by destruct (find_entry i (outputs r)).
  - destruct (find_entry i (outputs r)) as [e|] eqn:E; [|done].
    by destruct (find_entry_id _ _ _ E) as [<- _].
Qed.

(** At most [max_streams] streams, of connected outputs with distinct identities. *)
Definition registry_inv (r : OutputRegistry) : Prop :=
  NoDup (map id (outputs r)) /\ Forall (fun e => streaming e = true -> connected e = true) (outputs r) /\
  streaming_count r <= max_streams r.

Notation streams es := (len (filter (fun e => streaming e = true) es)).

Lemma streams_cons e es : streams (e :: es) = (if streaming e then 1 else 0) + streams es.
Proof. rewrite filter_cons. destruct (streaming e); [rewrite decide_True by done; by rewrite len_cons|by rewrite decide_False]. Qed.

Lemma streams_app es es' : streams (es ++ es') = streams es + streams es'.
Proof. by rewrite filter_app, len_app. Qed.

Lemma streams_map_le f es : (forall e, streaming (f e) = true -> streaming e = true) -> streams (map f es) <= streams es.
Proof.
  intros Hf. induction es as [|e es IH]; [done|]. cbn [map]. rewrite !streams_cons. specialize (Hf e).
  destruct (streaming (f e)); [rewrite Hf by done|destruct (streaming e)]; lia.
Qed.

Lemma streams_update i f es (k : Z) : 0 <= k ->
  (forall e, (if streaming (f e) then 1 else 0) <= (if streaming e then 1 else 0) + k) ->
  streams (update_first i f es) <= streams es + k.
Proof.
  intros Hk Hf. induction es as [|e es IH]; cbn [update_first]; [cbn; lia|].
  case_test; rewrite !streams_cons; [specialize (Hf e)|]; lia.
Qed.

Lemma streams_samples samples es : streams (foldl enumerate_sample es samples) <= streams es.
Proof.
  induction samples as [|s samples IH] using rev_ind; [done|]. rewrite foldl_snoc. unfold enumerate_sample at 1.
  destruct (find_entry _ _).
  - etrans; [apply (streams_update _ _ _ 0); [lia|intros e; cbn; destruct (streaming e); lia]|].
    lia.
  - rewrite streams_app, streams_cons. cbn [streaming]. change (streams []) with 0. lia.
Qed.

Lemma enumerate_inv r samples : registry_inv r -> registry_inv (enumerate r samples).
Proof.
  intros (Hd & Hs & Hc). unfold enumerate. split_and!; cbn [outputs].
  - rewrite ids_map by (intros e; by destruct (connected e)). apply ids_samples. by rewrite ids_map.
  - apply Forall_forall. intros e (e' & -> & _)%list_elem_of_fmap. by destruct (connected e') eqn:E; cbn; rewrite ?E.
  - unfold streaming_count. cbn [outputs max_streams]. etrans; [|exact Hc].
    etrans; [apply streams_map_le; intros e; by destruct (connected e)|].
    etrans; [apply streams_samples|]. by apply streams_map_le.
Qed.

Lemma Forall_update (P : OutputEntry -> Prop) i f es :
  Forall P es -> (forall e, find_entry i es = Some e -> P (f e)) -> Forall P (update_first i f es).
Proof.
  intros H Hf. induction H as [|e es He Hes IH]; cbn in *; [constructor|].
  destruct (id e =? i); constructor; auto.
Qed.

Lemma update_inv r i f k : registry_inv r -> 0 <= k -> streaming_count r + k <= max_streams r ->
  (forall e, id (f e) = id e) ->
  (forall e, (if streaming (f e) then 1 else 0) <= (if streaming e then 1 else 0) + k) ->
  (forall e, find_entry i (outputs r) = Some e -> streaming (f e) = true -> connected (f e) = true) ->
  registry_inv (mkRegistry (update_first i f (outputs r)) (max_streams r)).
Proof.
  intros (Hd & Hs & _) Hk Hc Hid Hst Hcon. split_and!; cbn [outputs].
  - by rewrite ids_update.
  - by apply Forall_update.
  - unfold streaming_count in *. cbn [outputs max_streams] in *.
    etrans; [by apply (streams_update _ _ _ k)|done].
Qed.

Lemma try_stream_inv r i : registry_inv r -> registry_inv (try_stream r i).1.
Proof.
  intros Hi. unfold try_stream. case_test; [done|]. destruct (find_entry i (outputs r)) as [e|] eqn:E; [|done].
  destruct (connected e && negb (streaming e)) eqn:Ec; [|done]. cbn [fst].
  apply (update_inv r i _ 1); [done|lia|lia|done| |].
  - intros e'. cbn. destruct (streaming e'); lia.
  - intros e' He' _. cbn. rewrite E in He'. injection He' as <-. by apply andb_true_iff in Ec as [? _].
Qed.

Lemma stop_stream_inv r i : registry_inv r -> registry_inv (stop_stream r i).1.
Proof.
  intros Hi. unfold stop_stream. destruct (find_entry i (outputs r)) as [e|]; [|done].
  destruct (streaming e); [|done]. cbn [fst].
  apply (update_inv r i _ 0); [done|lia|destruct Hi as (_ & _ & ?); lia|done|intros e'; cbn; destruct (streaming e'); lia|done].
Qed.

Inductive registry_op : Type :=
| OpEnumerate (samples : list OutputSample)
| OpTryStream (i : Z)
| OpStopStream (i : Z).

Definition registry_step (r : OutputRegistry) (op : registry_op) : OutputRegistry :=
  match op with
  | OpEnumerate samples => enumerate r samples
  | OpTryStream i => (try_stream r i).1
  | OpStopStream i => (stop_stream r i).1
  end.

Definition registry_run (max : Z) (ops : list registry_op) : OutputRegistry :=
  foldl registry_step (registry_new max) ops.

Lemma registry_run_inv max ops : 0 <= max -> registry_inv (registry_run max ops).
Proof.
  intros Hm. unfold registry_run. assert (H0 : registry_inv (registry_new max)) by (split_and!; [constructor..|done]).
  revert H0. generalize (registry_new max). induction ops as [|op ops IH]; intros r Hr; [done|]. cbn. apply IH.
  destruct op; cbn; [by apply enumerate_inv|by apply try_stream_inv|by apply stop_stream_inv].
Qed.

Lemma registry_step_ids r op : registry_inv r ->
  map id (outputs r) `prefix_of` map id (outputs (registry_step r op)).
Proof.
  intros (Hd & _). destruct op as [samples|i|i]; cbn.
  - rewrite ids_map by (intros e; by destruct (connected e)).
    rewrite <- (ids_map (set_connected false) (outputs r)) by done. apply ids_samples. by rewrite ids_map.
  - unfold try_stream. case_test; [done|]. destruct (find_entry _ _); [|done]. destruct (_ && _); [|done].
    cbn. by rewrite ids_update.
  - unfold stop_stream. destruct (find_entry _ _); [|done]. destruct (streaming _); [|done]. cbn. by rewrite ids_update.
Qed.

Lemma newest_sample_permutation samples samples' i :
  NoDup (map (fun s => edid_output_id (edid s)) samples) -> samples ≡ₚ samples' ->
  newest_sample samples i = newest_sample samples' i.
Proof.
  intros Hd Hp. unfold newest_sample.
  assert (Hl : (length (filter (fun s => edid_output_id (edid s) = i) samples) <= 1)%nat).
  { clear Hp. induction samples as [|s samples IH]; [cbn; lia|]. apply NoDup_cons in Hd as [Hn Hd].
    rewrite filter_cons. destruct (decide _) as [E|]; [|auto]. cbn.
    destruct (filter _ samples) as [|s' l] eqn:Ef; [cbn; lia|]. exfalso. apply Hn.
    assert (Hin : s' ∈ filter (fun s => edid_output_id (edid s) = i) samples) by (rewrite Ef; by left).
    apply list_elem_of_filter in Hin as [E' Hin]. rewrite E, <- E'.
    apply list_elem_of_In, (in_map (fun s => edid_output_id (edid s))), list_elem_of_In, Hin. }
  apply (filter_Permutation (fun s => edid_output_id (edid s) = i)) in Hp.
  destruct (filter _ samples) as [|s [|s2 l]]; [| |cbn in Hl; lia].
  - apply Permutation_nil in Hp. by rewrite Hp.
  - apply Permutation_singleton_l in Hp. by rewrite Hp.
Qed.

(** the registry is a map from identities to outputs. After any enumerations
    and streams, the identities are distinct, no more than the cap stream, and
    only connected outputs do; no operation forgets or moves an identity. An
    enumeration gives every output what its newest sample says, in any order of the
    samples, and disconnects and stops the others; a stream starts exactly
    when the cap leaves room and the output is connected and idle. *)
Theorem registry_stable max ops :
  0 <= max ->
  let r := registry_run max ops in
  registry_inv r /\
  (forall op, map id (outputs r) `prefix_of` map id (outputs (registry_step r op))) /\
  (forall samples i, get (enumerate r samples) i = enumerated samples i (get r i)) /\
  (forall samples samples' i, NoDup (map (fun s => edid_output_id (edid s)) samples) -> samples ≡ₚ samples' ->
    get (enumerate r samples) i = get (enumerate r samples') i) /\
  (forall i, (try_stream r i).2 = true <->
    streaming_count r < max_streams r /\
    exists e, get r i = Some e /\ connected e = true /\ streaming e = false) /\
  (forall i j, get (try_stream r i).1 j =
    if (try_stream r i).2 && (j =? i) then set_streaming true <$> get r i else get r j).
Proof.
  intros Hm r. pose proof (registry_run_inv max ops Hm) as Hi. fold r in Hi. split_and!.
  - done.
  - intros op. by apply registry_step_ids.
  - apply get_enumerate.
  - intros samples samples' i Hd Hp. rewrite !get_enumerate. unfold enumerated.
    by rewrite (newest_sample_permutation samples samples' i).
  - intros i. unfold try_stream, get. destruct (Z.leb_spec (max_streams r) (streaming_count r)) as [|Hlt].
    + split; [done|]. intros [? _]. lia.
    + destruct (find_entry i (outputs r)) as [e|]; [|split; [done|]; by intros (_ & ? & ? & _)].
      destruct (connected e) eqn:Ec, (streaming e) eqn:Es; cbn; (split; [try done|]); try by intros (_ & ? & [= <-] & ? & ?); congruence.
      intros _. split; [done|]. by exists e.
  - intros i j. unfold try_stream, get. case_test; [done|].
    destruct (find_entry i (outputs r)) as [e|] eqn:E; [|done].
    destruct (connected e && negb (streaming e)); [|done]. cbn [fst snd outputs andb].
    rewrite find_update by done. by rewrite E.
Qed.

Definition ex_samples : list OutputSample := [mkSample [65] 0 96; mkSample [66] 1 192].

Lemma registry_stable_witness :
  let r := registry_run 1 [OpEnumerate ex_samples; OpTryStream (edid_output_id [65])] in
  registry_inv r /\ os_index <$> get (enumerate r (rev ex_samples)) (edid_output_id [66]) = Some 1.
Proof.
  destruct (registry_stable 1 [OpEnumerate ex_samples; OpTryStream (edid_output_id [65])] ltac:(lia))
    as (H & _ & He & _).
  split; [exact H|]. rewrite He. reflexivity.
Defined.
