(* ===== verification/FileTransfer.v ===== *)
(** * Receiving files (common/src/file_transfer.rs)

    The destination-name sanitizer and the automaton of one transfer, with the
    theorems on both; ManifestSafe has what the operating system makes of a name. *)
From S2P Require Import Prelude Text Utf8 Manifest ManifestSafe.

Definition RESERVED : list text := map lit
  ["CON"; "PRN"; "AUX"; "NUL"; "COM1"; "COM2"; "COM3"; "COM4"; "COM5"; "COM6"; "COM7"; "COM8";
   "COM9"; "LPT1"; "LPT2"; "LPT3"; "LPT4"; "LPT5"; "LPT6"; "LPT7"; "LPT8"; "LPT9"]%string.

Definition is_bidi_or_format (c : Z) : bool :=
  ((8203 <=? c) && (c <=? 8207)) || ((8234 <=? c) && (c <=? 8238)) || ((8294 <=? c) && (c <=? 8297)) || (c =? 65279).

(** [char::is_control]: the general category Cc. *)
Definition is_control (c : Z) : bool := (c <? 32) || ((127 <=? c) && (c <? 160)).

(** A path separator, NUL, a character Windows refuses in names, or one of the above. *)
Definition is_illegal (c : Z) : bool :=
  existsb (Z.eqb c) [47; 92; 0; 58; 60; 62; 34; 124; 63; 42] || is_control c || is_bidi_or_format c.

Definition stem_of (n : text) : text := default n (head (split_on (Z.eqb 46) n)).

Definition ends_with (c : Z) (n : text) : bool := bool_decide (last n = Some c).

Definition safe_dest_name (n : text) : option text :=
  if bool_decide (n = []) || (255 <? len (utf8 n)) then None
  else if existsb is_illegal n then None
  else if bool_decide (n = lit ".") || bool_decide (n = lit "..") then None
  else if existsb (fun r => eq_ignore_ascii_case r (stem_of n)) RESERVED then None
  else if ends_with 32 n || ends_with 46 n then None
  else Some n.

(** ** One transfer *)

Inductive TransferPhase : Type := Offered | Accepted | Complete | Cancelled.

Record FileTransfer := mkTransfer {
  phase : TransferPhase;
  total : Z;
  received : Z
}.

#[export] Instance TransferPhase_eq_dec : EqDecision TransferPhase.
Proof. solve_decision. Defined.

Definition offer (total quota : Z) : FileTransfer :=
  mkTransfer (if quota <? total then Cancelled else Offered) total 0.

Definition set_phase (t : FileTransfer) (p : TransferPhase) : FileTransfer := mkTransfer p (total t) (received t).

Definition accept (t : FileTransfer) : FileTransfer * bool :=
  if bool_decide (phase t = Offered) then (set_phase t Accepted, true) else (t, false).

Definition receive (t : FileTransfer) (ln : Z) : FileTransfer * bool :=
  if bool_decide (phase t <> Accepted) then (t, false)
  else
    let next := sat_add u64_max (received t) ln in
    if total t <? next then (set_phase t Cancelled, false)
    else (mkTransfer (phase t) (total t) next, true).

Definition fully_received (t : FileTransfer) : bool :=
  bool_decide (phase t = Accepted) && (received t =? total t).

Definition commit (t : FileTransfer) (hash_matches : bool) : FileTransfer * bool :=
  if bool_decide (phase t = Accepted) && (received t =? total t) && hash_matches then (set_phase t Complete, true)
  else if bool_decide (phase t = Accepted) then (set_phase t Cancelled, false)
  else (t, false).

Definition cancel (t : FileTransfer) : FileTransfer :=
  match phase t with Offered | Accepted => set_phase t Cancelled | _ => t end.

(** ** Names *)

Lemma existsb_Forall {A} (f : A -> bool) l : existsb f l = false -> Forall (fun x => f x = false) l.
Proof.
  intros H. induction l as [|x l IH]; [constructor|]. cbn in H. apply orb_false_iff in H as [? ?]. by constructor; auto.
Qed.

Lemma is_slash_illegal c : is_slash c = true -> is_illegal c = true.
Proof.
  unfold is_slash, slash, backslash. rewrite orb_true_iff, !Z.eqb_eq. by intros [-> | ->].
Qed.

Lemma no_drive n : Forall (fun c => is_illegal c = false) n -> drive_prefix n = false.
Proof.
  intros H. destruct n as [|c [|d t]]; [done..|]. cbn. apply Forall_cons in H as [_ H].
  apply Forall_cons in H as [Hd _]. destruct (Z.eqb_spec d 58) as [->|]; [done|]. by rewrite andb_false_r.
Qed.

Lemma stem_of_spec s ext n : n = s \/ n = s ++ 46 :: ext -> 46 ∉ s -> stem_of n = s.
Proof.
  intros Hn Hs. assert (Hf : Forall (fun c => (46 =? c) = false) s).
  { apply Forall_forall. intros c Hc. apply Z.eqb_neq. by intros <-. }
  unfold stem_of. destruct Hn as [-> | ->].
  - by rewrite split_on_one.
  - by rewrite split_on_sep, split_on_one.
Qed.

(** a name the sanitizer accepts comes back unchanged, is at most 255 bytes of
    UTF-8 without control characters, and is one path segment on every platform
    whose separators are among the two slashes: joined to a directory it
    names an entry of that directory, never the directory itself, its parent, a
    drive or a reserved device, with or without an extension. *)
Theorem safe_dest_name_inside is_sep base n m :
  (forall c, is_sep c = true -> is_slash c = true) -> normalize base = base ->
  safe_dest_name n = Some m ->
  m = n /\ n <> [] /\ len (utf8 n) <= 255 /\ Forall (fun c => is_control c = false) n /\
  os_join is_sep base n = base ++ [n] /\ normalize (os_join is_sep base n) = base ++ [n] /\
  (forall r s ext, r ∈ RESERVED -> n = s \/ n = s ++ 46 :: ext -> 46 ∉ s -> eq_ignore_ascii_case r s = false).
Proof.
  intros Hsep Hb. unfold safe_dest_name.
  destruct (bool_decide_reflect (n = [])) as [|Hn]; [done|]. cbn [orb].
  destruct (Z.ltb_spec 255 (len (utf8 n))) as [|Hl]; [done|].
  destruct (existsb is_illegal n) eqn:Ei; [done|]. apply existsb_Forall in Ei.
  destruct (bool_decide_reflect (n = lit ".")) as [|Hd]; [done|].
  destruct (bool_decide_reflect (n = lit "..")) as [|Hdd]; [done|]. cbn [orb].
  destruct (existsb _ RESERVED) eqn:Er; [done|]. apply existsb_Forall in Er.
  destruct (_ || _); [done|]. intros [= <-].
  assert (Hs : Forall (fun c => is_sep c = false) n).
  { eapply Forall_impl; [exact Ei|]. intros c Hc. apply not_true_iff_false. intros H%Hsep%is_slash_illegal.
    cbn beta in Hc. congruence. }
  assert (Hj : os_join is_sep base n = base ++ [n]).
  { unfold os_join. rewrite (split_on_one is_sep n Hs). destruct n as [|c t]; [done|].
    pose proof (Forall_inv Hs) as Hc. cbn beta in Hc. rewrite Hc.
    by rewrite (no_drive _ Ei). }
  split_and!; [done|done|lia| |done| |].
  - eapply Forall_impl; [exact Ei|]. intros c. unfold is_illegal. by destruct (is_control c); rewrite ?orb_true_r.
  - rewrite Hj. unfold normalize in *. rewrite foldl_app, Hb. cbn. unfold normal_step.
    by rewrite !bool_decide_false.
  - intros r s ext Hr Hns Hs46. rewrite Forall_forall in Er. rewrite <- (Er r Hr). f_equal. symmetry.
    by apply (stem_of_spec s ext).
Qed.

Lemma safe_dest_name_inside_witness :
  safe_dest_name (lit "../evil") = None /\ safe_dest_name (lit "con.txt") = None /\
  os_join is_slash [lit "downloads"] (lit "report.pdf") = [lit "downloads"; lit "report.pdf"].
Proof.
  split; [reflexivity|]. split; [reflexivity|].
  apply (safe_dest_name_inside is_slash [lit "downloads"] (lit "report.pdf") (lit "report.pdf"));
    [done|reflexivity|reflexivity].
Defined.

(** U+061C, a bidirectional control of category Cf, passes. *)
Example arabic_letter_mark_accepted :
  safe_dest_name (lit "photo" ++ [1564] ++ lit "gpj.exe") = Some (lit "photo" ++ [1564] ++ lit "gpj.exe") /\
  safe_dest_name (lit "photo" ++ [8238] ++ lit "gpj.exe") = None.
Proof. split; reflexivity. Qed.

(** ** Transfers *)

Inductive transfer_op : Type :=
| OpAccept
| OpReceive (ln : Z)
| OpCommit (hash_matches : bool)
| OpCancel.

(** An operation and its answer; [cancel] has none. *)
Definition transfer_step (t : FileTransfer) (op : transfer_op) : FileTransfer * bool :=
  match op with
  | OpAccept => accept t
  | OpReceive ln => receive t ln
  | OpCommit h => commit t h
  | OpCancel => (cancel t, false)
  end.

Definition transfer_log (s : FileTransfer * list (transfer_op * bool)) (op : transfer_op) :
    FileTransfer * list (transfer_op * bool) :=
  let '(t, b) := transfer_step s.1 op in (t, s.2 ++ [(op, b)]).

Definition transfer_run (total quota : Z) (ops : list transfer_op) : FileTransfer * list (transfer_op * bool) :=
  foldl transfer_log (offer total quota, []) ops.

(** The bytes of the chunks that were taken. *)
Definition taken (h : list (transfer_op * bool)) : Z :=
  sumZ ((fun e => match e with (OpReceive ln, true) => ln | _ => 0 end) <$> h).

(** What must precede an answer of [true] to a chunk or a commit. *)
Definition consented (total quota : Z) (pre : list (transfer_op * bool)) : Prop :=
  total <= quota /\ (OpAccept, true) ∈ pre /\ OpCancel ∉ pre.*1 /\ (OpCommit true, true) ∉ pre.

Definition event_ok (total quota : Z) (pre : list (transfer_op * bool)) (e : transfer_op * bool)
    (post : list (transfer_op * bool)) : Prop :=
  match e with
  | (OpReceive _, true) => consented total quota pre
  | (OpCommit hash, true) =>
      hash = true /\ consented total quota pre /\ taken pre = total /\ Forall (fun e => e.2 = false) post
  | _ => True
  end.

Definition transfer_inv (tot quota : Z) (t : FileTransfer) (h : list (transfer_op * bool)) : Prop :=
  total t = tot /\ received t = taken h /\ 0 <= received t <= tot /\
  (forall pre e post, h = pre ++ e :: post -> event_ok tot quota pre e post) /\
  match phase t with
  | Offered => tot <= quota /\ Forall (fun e => e.2 = false /\ e.1 <> OpCancel) h
  | Accepted => consented tot quota h
  | Complete => (OpCommit true, true) ∈ h
  | Cancelled => (OpCommit true, true) ∉ h
  end.

Lemma taken_snoc h e :
  taken (h ++ [e]) = taken h + match e with (OpReceive ln, true) => ln | _ => 0 end.
Proof. unfold taken. rewrite fmap_app, sumZ_app. cbn. lia. Qed.

(** A history grows by a refused event, or by one that keeps the conditions. *)
Lemma events_snoc tot quota h e :
  (forall pre e post, h = pre ++ e :: post -> event_ok tot quota pre e post) ->
  event_ok tot quota h e [] -> (e.2 = true -> (OpCommit true, true) ∉ h) ->
  forall pre e' post, h ++ [e] = pre ++ e' :: post -> event_ok tot quota pre e' post.
Proof.
  intros Hh He Hc pre e' post E. destruct post as [|x post _] using rev_ind.
  - apply app_inj_tail in E as [-> ->]. done.
  - rewrite app_comm_cons, app_assoc in E. apply app_inj_tail in E as [-> ->].
    specialize (Hh pre e' post eq_refl). unfold event_ok in *. destruct e' as [[] []]; try done.
    destruct Hh as (-> & Hp & Ht & Hf). split_and!; [done..|]. apply Forall_app. split; [done|].
    constructor; [|done]. destruct x.2 eqn:Ex; [|done]. destruct (Hc eq_refl). apply elem_of_app. right. by left.
Qed.

Lemma offered_consented tot quota h b : tot <= quota ->
  Forall (fun e : transfer_op * bool => e.2 = false /\ e.1 <> OpCancel) h -> b = true ->
  consented tot quota (h ++ [(OpAccept, b)]).
Proof.
  intros Hq Hh ->. rewrite Forall_forall in Hh. split_and!; [done| | |].
  - apply elem_of_app. right. by left.
  - rewrite fmap_app. intros [Hin|Hin]%elem_of_app.
    + apply list_elem_of_fmap in Hin as (e & E & Hin). by destruct (Hh e Hin).
    + by apply list_elem_of_singleton in Hin.
  - intros [Hin|Hin]%elem_of_app; [by destruct (Hh _ Hin)|by apply list_elem_of_singleton in Hin].
Qed.

Lemma consented_snoc tot quota h op b : consented tot quota h -> op <> OpCancel -> (op, b) <> (OpCommit true, true) ->
  consented tot quota (h ++ [(op, b)]).
Proof.
  intros (Hq & Ha & Hc & Hm) Hop Hne. split_and!; [done|set_solver| |].
  - rewrite fmap_app. intros [Hin|Hin]%elem_of_app; [done|]. apply list_elem_of_singleton in Hin. cbn in Hin. congruence.
  - intros [Hin|Hin]%elem_of_app; [done|]. by apply list_elem_of_singleton in Hin.
Qed.

Lemma not_in_snoc {A} (x y : A) l : x ∉ l -> x <> y -> x ∉ l ++ [y].
Proof. intros Hl Hn [H|H]%elem_of_app; [done|]. by apply list_elem_of_singleton in H. Qed.

Lemma offered_no_commit (h : list (transfer_op * bool)) :
  Forall (fun e => e.2 = false /\ e.1 <> OpCancel) h -> (OpCommit true, true) ∉ h.
Proof. intros H Hin. rewrite Forall_forall in H. by destruct (H _ Hin). Qed.

Definition transfer_op_ok (op : transfer_op) : Prop := match op with OpReceive ln => 0 <= ln | _ => True end.

Lemma transfer_inv_step tot quota t h op :
  in_u64 tot -> tot < u64_max -> transfer_op_ok op -> transfer_inv tot quota t h ->
  transfer_inv tot quota (transfer_step t op).1 (h ++ [(op, (transfer_step t op).2)]).
Proof.
  intros Htot Hmax Hop (Et & Er & Hb & Hev & Hph).
  (* a step that answers [false] and leaves the phase and the bytes *)
  assert (Hidle : transfer_step t op = (t, false) ->
    (phase t = Offered -> op <> OpCancel) -> (phase t = Accepted -> op <> OpCancel) ->
    transfer_inv tot quota (transfer_step t op).1 (h ++ [(op, (transfer_step t op).2)])).
  { intros -> Ho Ha. unfold transfer_inv; cbn. split_and!; [done| |lia|lia| |].
    - rewrite taken_snoc. destruct op; cbn; lia.
    - apply events_snoc; [done|by destruct op|done].
    - destruct (phase t) eqn:Ep.
      + destruct Hph as [Hq Hh]. split; [done|]. apply Forall_app. split; [done|]. constructor; [|done]. split; [done|]. auto.
      + apply consented_snoc; [done|auto|by destruct op].
      + set_solver.
      + by apply not_in_snoc. }
  (* a step that cancels *)
  assert (Hcan : transfer_step t op = (set_phase t Cancelled, false) -> (OpCommit true, true) ∉ h ->
    transfer_inv tot quota (transfer_step t op).1 (h ++ [(op, (transfer_step t op).2)])).
  { intros -> Hn. unfold transfer_inv; cbn. split_and!; [done| |lia|lia| |by apply not_in_snoc].
    - rewrite taken_snoc. destruct op; cbn; lia.
    - apply events_snoc; [done|by destruct op|done]. }
  destruct op as [|ln|hash|]; cbn [transfer_step] in *.
  - unfold accept in *. destruct (bool_decide_reflect (phase t = Offered)) as [Ep|Ep]; [|by apply Hidle].
    rewrite Ep in Hph. destruct Hph as [Hq Hh]. unfold transfer_inv; cbn. split_and!; [done| |lia|lia| |].
    + rewrite taken_snoc. lia.
    + apply events_snoc; [done|done|]. intros _. by apply offered_no_commit.
    + by apply offered_consented.
  - unfold receive in *. destruct (bool_decide_reflect (phase t <> Accepted)) as [Ep|Ep]; [by apply Hidle|].
    apply dec_stable in Ep. rewrite Ep in *. assert (Hno : (OpCommit true, true) ∉ h) by apply Hph.
    destruct (Z.ltb_spec (total t) (sat_add u64_max (received t) ln)) as [Hlt|Hle]; [by apply Hcan|].
    assert (Hsum : sat_add u64_max (received t) ln = received t + ln).
    { unfold sat_add in *. cbn in Hop. lia. }
    rewrite Hsum in *. cbn in Hop. unfold transfer_inv; cbn.
    split_and!; [done| |lia|lia| |].
    + rewrite taken_snoc. lia.
    + apply events_snoc; [done|done|done].
    + by apply consented_snoc.
  - unfold commit in *. destruct (bool_decide_reflect (phase t = Accepted)) as [Ep|Ep]; [|by apply Hidle].
    rewrite Ep in Hph. assert (Hno : (OpCommit true, true) ∉ h) by apply Hph.
    cbn [andb] in *. destruct (Z.eqb_spec (received t) (total t)) as [Ef|Ef]; [|by apply Hcan].
    destruct hash; cbn [andb] in *; [|by apply Hcan]. unfold transfer_inv; cbn. split_and!; [done| |lia|lia| |set_solver].
    + rewrite taken_snoc. lia.
    + apply events_snoc; [done| |done]. unfold transfer_inv; cbn. split_and!; [done|apply Hph..|lia|constructor].
  - unfold cancel in *. destruct (phase t) eqn:Ep.
    + apply Hcan; [done|]. by apply offered_no_commit, Hph.
    + apply Hcan; [done|apply Hph].
    + by apply Hidle.
    + by apply Hidle.
Qed.

Lemma transfer_run_inv tot quota ops :
  in_u64 tot -> tot < u64_max -> Forall transfer_op_ok ops ->
  transfer_inv tot quota (transfer_run tot quota ops).1 (transfer_run tot quota ops).2.
Proof.
  intros Htot Hmax Hops. unfold transfer_run.
  assert (H0 : transfer_inv tot quota (offer tot quota) []).
  { unfold in_u in Htot. split_and!; cbn; [done|done|lia|lia| |].
    - intros pre e post E. by destruct pre.
    - destruct (Z.ltb_spec quota tot); cbn; [by intros ?%elem_of_nil|by split]. }
  revert H0. generalize (offer tot quota), (@nil (transfer_op * bool)).
  induction Hops as [|op ops Hop _ IH]; intros t h H; [done|]. cbn [foldl].
  pose proof (transfer_inv_step tot quota t h op Htot Hmax Hop H) as Hs. unfold transfer_log at 2 4. cbn [fst snd].
  destruct (transfer_step t op) as [t1 b]. by apply IH.
Qed.

(** C27: nothing unverified is kept. Over any calls, of chunks of any length, the
    bytes received are the sum of the chunks taken and never exceed the offered
    total; a chunk is taken only after an explicit accept of a transfer within
    the quota, before any cancellation or completion; the transfer commits at
    most once, exactly when the hash matches and the chunks add up to the
    total, nothing is taken afterwards, and the phase is [Complete] exactly when it
    has committed. (The total is below 2^64 - 1.) *)
Theorem transfer_commits_verified tot quota ops :
  in_u64 tot -> tot < u64_max -> Forall transfer_op_ok ops ->
  let '(t, h) := transfer_run tot quota ops in
  received t = taken h /\ received t <= tot /\
  (forall pre ln post, h = pre ++ (OpReceive ln, true) :: post -> consented tot quota pre) /\
  (forall pre hash post, h = pre ++ (OpCommit hash, true) :: post ->
    hash = true /\ consented tot quota pre /\ taken pre = tot /\ Forall (fun e => e.2 = false) post) /\
  (phase t = Complete <-> (OpCommit true, true) ∈ h).
Proof.
  intros Htot Hmax Hops. pose proof (transfer_run_inv tot quota ops Htot Hmax Hops) as H.
  destruct (transfer_run tot quota ops) as [t h]. destruct H as (Et & Er & Hb & Hev & Hph). cbn [fst snd] in *.
  split_and!; [done|lia| | |].
  - intros pre ln post E. exact (Hev _ _ _ E).
  - intros pre hash post E. exact (Hev _ _ _ E).
  - destruct (phase t); [split; [done|]..|by split|by split].
    + intros Hin. by destruct (offered_no_commit h (proj2 Hph)).
    + intros Hin. by destruct Hph as (_ & _ & _ & Hno).
Qed.

Lemma transfer_commits_verified_witness :
  let '(t, h) := transfer_run 10 100 [OpReceive 3; OpAccept; OpReceive 4; OpReceive 6; OpCommit true; OpReceive 1] in
  phase t = Complete /\ received t = 10.
Proof.
  pose proof (transfer_commits_verified 10 100
    [OpReceive 3; OpAccept; OpReceive 4; OpReceive 6; OpCommit true; OpReceive 1]) as H.
  cbn in H. cbn. destruct H as (Hr & _ & _ & _ & Hc).
  - unfold in_u. lia.
  - reflexivity.
  - repeat constructor; cbn; lia.
  - split; [apply Hc; set_solver|exact Hr].
Defined.

(** At a total of 2^64 - 1 the saturating sum takes a chunk beyond it. *)
Example saturating_total :
  let t := (receive (receive (accept (offer u64_max u64_max)).1 10).1 u64_max) in
  t.2 = true /\ received t.1 = total t.1.
Proof. split; reflexivity. Qed.
