(* ===== verification/QuWire.v ===== *)
(** * The QU tile wire format (streamer/src/transport/webrtc/qu_wire.rs)

    The messages of the [video_qu] channel, with their round trip and what the
    parser accepts. *)
From S2P Require Import Prelude Wire.

Definition KIND_QU_CONFIG : Z := 1.
Definition KIND_QU_TILE : Z := 2.
Definition KIND_QU_INVALIDATE : Z := 3.
Definition KIND_QU_EPOCH : Z := 4.
Definition KIND_QU_SUBSCRIBE : Z := 129.
Definition KIND_QU_BUDGET : Z := 130.

Definition CONFIG_LEN : Z := 13.
Definition TILE_HDR : Z := 19.
Definition INVALIDATE_HDR : Z := 7.
Definition EPOCH_LEN : Z := 5.
Definition SUBSCRIBE_LEN : Z := 2.
Definition BUDGET_LEN : Z := 5.

Inductive QuMsg : Type :=
| QuConfig (tile_w tile_h grid_cols grid_rows epoch : Z)
| QuTile (epoch col row format flags crc32_bgra : Z) (payload : list Z)
| QuInvalidate (epoch : Z) (tiles : list (Z * Z))
| QuEpoch (new_epoch : Z)
| QuSubscribe (version : Z)
| QuBudget (kbps : Z).

Definition encode_config (tile_w tile_h grid_cols grid_rows epoch : Z) : list Z :=
  [KIND_QU_CONFIG] ++ u16_le tile_w ++ u16_le tile_h ++ u16_le grid_cols ++ u16_le grid_rows ++ u32_le epoch.

Definition encode_tile (epoch col row format flags crc32_bgra : Z) (payload : list Z) : list Z :=
  [KIND_QU_TILE] ++ u32_le epoch ++ u16_le col ++ u16_le row ++ [format] ++ [flags] ++ u32_le crc32_bgra
  ++ u32_le (wrap32 (len payload)) ++ payload.

(** [(col, row)] as four bytes. *)
Definition encode_position (p : Z * Z) : list Z := u16_le p.1 ++ u16_le p.2.

Definition encode_invalidate (epoch : Z) (tiles : list (Z * Z)) : list Z :=
  [KIND_QU_INVALIDATE] ++ u32_le epoch ++ u16_le (wrap16 (len tiles)) ++ (tiles ≫= encode_position).

Definition encode_epoch (new_epoch : Z) : list Z := [KIND_QU_EPOCH] ++ u32_le new_epoch.
Definition encode_subscribe (version : Z) : list Z := [KIND_QU_SUBSCRIBE] ++ [version].
Definition encode_budget (kbps : Z) : list Z := [KIND_QU_BUDGET] ++ u32_le kbps.

(** [for i in 0..count], at the offsets [INVALIDATE_HDR + i * 4]. *)
Fixpoint parse_positions (count : nat) (buf : list Z) : list (Z * Z) :=
  match count with
  | O => []
  | S count => (le_field buf 0 2, le_field buf 2 4) :: parse_positions count (drop 4 buf)
  end.

Definition parse_msg (buf : list Z) : option QuMsg :=
  match buf with
  | [] => None
  | kind :: _ =>
      if kind =? KIND_QU_CONFIG then
        if len buf <? CONFIG_LEN then None
        else Some (QuConfig (le_field buf 1 3) (le_field buf 3 5) (le_field buf 5 7) (le_field buf 7 9) (le_field buf 9 13))
      else if kind =? KIND_QU_TILE then
        if len buf <? TILE_HDR then None
        else
          let payload_len := le_field buf 15 19 in
          if len buf <? TILE_HDR + payload_len then None
          else Some (QuTile (le_field buf 1 5) (le_field buf 5 7) (le_field buf 7 9) (at0 buf 9) (at0 buf 10)
                       (le_field buf 11 15) (take (Z.to_nat payload_len) (drop 19 buf)))
      else if kind =? KIND_QU_INVALIDATE then
        if len buf <? INVALIDATE_HDR then None
        else
          let count := le_field buf 5 7 in
          if len buf <? INVALIDATE_HDR + count * 4 then None
          else Some (QuInvalidate (le_field buf 1 5) (parse_positions (Z.to_nat count) (drop 7 buf)))
      else if kind =? KIND_QU_EPOCH then
        if len buf <? EPOCH_LEN then None else Some (QuEpoch (le_field buf 1 5))
      else if kind =? KIND_QU_SUBSCRIBE then
        if len buf <? SUBSCRIBE_LEN then None else Some (QuSubscribe (at0 buf 1))
      else if kind =? KIND_QU_BUDGET then
        if len buf <? BUDGET_LEN then None else Some (QuBudget (le_field buf 1 5))
      else None
  end.

Definition peek (buf : list Z) : option (Z * option Z) :=
  match buf with
  | [] => None
  | kind :: _ =>
      Some (kind,
        if ((kind =? KIND_QU_TILE) || (kind =? KIND_QU_INVALIDATE)) && (5 <=? len buf)
        then Some (le_field buf 1 5) else None)
  end.

#[local] Arguments le_bytes : simpl never.
#[local] Arguments le_field : simpl never.
#[local] Arguments at0 : simpl never.

(** ** Round trips *)

Definition encode_msg (m : QuMsg) : list Z :=
  match m with
  | QuConfig w h c r e => encode_config w h c r e
  | QuTile e c r f g crc p => encode_tile e c r f g crc p
  | QuInvalidate e ts => encode_invalidate e ts
  | QuEpoch e => encode_epoch e
  | QuSubscribe v => encode_subscribe v
  | QuBudget k => encode_budget k
  end.

Definition position_ok (p : Z * Z) : Prop := in_u16 p.1 /\ in_u16 p.2.

(** The fields in range; a payload below 4 GiB, at most 65535 tiles. *)
Definition qu_ok (m : QuMsg) : Prop :=
  match m with
  | QuConfig w h c r e => in_u16 w /\ in_u16 h /\ in_u16 c /\ in_u16 r /\ in_u32 e
  | QuTile e c r f g crc p =>
      in_u32 e /\ in_u16 c /\ in_u16 r /\ is_byte f /\ is_byte g /\ in_u32 crc /\ bytes p /\ in_u32 (len p)
  | QuInvalidate e ts => in_u32 e /\ Forall position_ok ts /\ in_u16 (len ts)
  | QuEpoch e => in_u32 e
  | QuSubscribe v => is_byte v
  | QuBudget k => in_u32 k
  end.

Definition qu_epoch (m : QuMsg) : option Z :=
  match m with QuTile e _ _ _ _ _ _ | QuInvalidate e _ => Some e | _ => None end.

Definition qu_kind (m : QuMsg) : Z :=
  match m with
  | QuConfig _ _ _ _ _ => KIND_QU_CONFIG
  | QuTile _ _ _ _ _ _ _ => KIND_QU_TILE
  | QuInvalidate _ _ => KIND_QU_INVALIDATE
  | QuEpoch _ => KIND_QU_EPOCH
  | QuSubscribe _ => KIND_QU_SUBSCRIBE
  | QuBudget _ => KIND_QU_BUDGET
  end.

Lemma len_positions ts : len (ts ≫= encode_position) = len ts * 4.
Proof. induction ts as [|p ts IH]; [done|]. rewrite bind_cons. unfold encode_position at 1. wire_lens. lia. Qed.

Lemma parse_encode_positions ts rest : Forall position_ok ts ->
  parse_positions (length ts) ((ts ≫= encode_position) ++ rest) = ts.
Proof.
  induction 1 as [|[c r] ts [Hc Hr] _ IH]; [done|]. cbn in Hc, Hr. rewrite bind_cons.
  unfold encode_position at 1. cbn [length parse_positions fst snd]. read_fields. by rewrite IH.
Qed.

Lemma parse_encode m rest : qu_ok m -> parse_msg (encode_msg m ++ rest) = Some m.
Proof.
  pose proof (len_nonneg rest).
  destruct m as [w h c r e|e c r f g crc p|e ts|e|v|k]; cbn [qu_ok encode_msg].
  - intros (Hw & Hh & Hc & Hr & He). set (buf := _ ++ rest).
    change (parse_msg buf) with (if len buf <? CONFIG_LEN then None
      else Some (QuConfig (le_field buf 1 3) (le_field buf 3 5) (le_field buf 5 7) (le_field buf 7 9) (le_field buf 9 13))).
    subst buf. unfold encode_config, CONFIG_LEN. rewrite (proj2 (Z.ltb_ge _ 13)) by (wire_lens; lia). by read_fields.
  - intros (He & Hc & Hr & _ & _ & Hcrc & _ & Hp). pose proof (len_nonneg p). set (buf := _ ++ rest).
    change (parse_msg buf) with (if len buf <? TILE_HDR then None
      else if len buf <? TILE_HDR + le_field buf 15 19 then None
      else Some (QuTile (le_field buf 1 5) (le_field buf 5 7) (le_field buf 7 9) (at0 buf 9) (at0 buf 10)
                   (le_field buf 11 15) (take (Z.to_nat (le_field buf 15 19)) (drop 19 buf)))).
    subst buf. unfold encode_tile, TILE_HDR. rewrite wrap32_id by done.
    rewrite (proj2 (Z.ltb_ge _ 19)) by (wire_lens; lia). read_fields.
    rewrite (proj2 (Z.ltb_ge _ _)) by (wire_lens; lia). by rewrite take_len_app.
  - intros (He & Hts & Hl). pose proof (len_nonneg ts). set (buf := _ ++ rest).
    change (parse_msg buf) with (if len buf <? INVALIDATE_HDR then None
      else if len buf <? INVALIDATE_HDR + le_field buf 5 7 * 4 then None
      else Some (QuInvalidate (le_field buf 1 5) (parse_positions (Z.to_nat (le_field buf 5 7)) (drop 7 buf)))).
    subst buf. unfold encode_invalidate, INVALIDATE_HDR. rewrite wrap16_id by done.
    rewrite (proj2 (Z.ltb_ge _ 7)) by (wire_lens; rewrite len_positions; lia). read_fields.
    rewrite (proj2 (Z.ltb_ge _ _)) by (wire_lens; rewrite len_positions; lia).
    unfold len at 1. rewrite Nat2Z.id. by rewrite parse_encode_positions.
  - intros He. set (buf := _ ++ rest).
    change (parse_msg buf) with (if len buf <? EPOCH_LEN then None else Some (QuEpoch (le_field buf 1 5))).
    subst buf. unfold encode_epoch, EPOCH_LEN. rewrite (proj2 (Z.ltb_ge _ 5)) by (wire_lens; lia). by read_fields.
  - intros Hv. set (buf := _ ++ rest).
    change (parse_msg buf) with (if len buf <? SUBSCRIBE_LEN then None else Some (QuSubscribe (at0 buf 1))).
    subst buf. unfold encode_subscribe, SUBSCRIBE_LEN. rewrite (proj2 (Z.ltb_ge _ 2)) by (wire_lens; lia). by read_fields.
  - intros Hv. set (buf := _ ++ rest).
    change (parse_msg buf) with (if len buf <? BUDGET_LEN then None else Some (QuBudget (le_field buf 1 5))).
    subst buf. unfold encode_budget, BUDGET_LEN. rewrite (proj2 (Z.ltb_ge _ 5)) by (wire_lens; lia). by read_fields.
Qed.

Lemma parse_positions_inv n buf : bytes buf -> (4 * n <= length buf)%nat ->
  (parse_positions n buf ≫= encode_position) = take (4 * n) buf /\ Forall position_ok (parse_positions n buf) /\
  length (parse_positions n buf) = n.
Proof.
  revert buf. induction n as [|n IH]; intros buf Hb Hl; [by rewrite Nat.mul_0_r|].
  cbn [parse_positions]. destruct (IH (drop 4 buf)) as (E & F & L); [auto with bytes|rewrite length_drop; lia|].
  rewrite bind_cons, E. split_and!.
  - unfold encode_position. cbn [fst snd]. rewrite (le_bytes_field buf 0 2 2), (le_bytes_field buf 2 4 2) by (done || lia).
    replace (4 * S n)%nat with (4 + 4 * n)%nat by lia.
    destruct buf as [|b0 [|b1 [|b2 [|b3 buf]]]]; [cbn in Hl; lia..|]. done.
  - constructor; [|done]. split; apply (le_field_bound _ _ _ 2); (done || lia).
  - cbn. by rewrite L.
Qed.

Ltac qu_field a b n := rewrite (le_bytes_field _ a b n) by (assumption || (unfold len in *; lia)).
Ltac qu_range :=
  unfold len in *;
  first [ apply (le_field_bound _ _ _ 2); (assumption || lia) | apply (le_field_bound _ _ _ 4); (assumption || lia)
        | by apply is_byte_at0 ].

(** One byte and what follows it. *)
Lemma at0_drop (l : list Z) i : (i < length l)%nat -> at0 l i :: drop (S i) l = drop i l.
Proof.
  intros H. unfold at0. destruct (l !! i) as [x|] eqn:E; [|apply lookup_ge_None in E; lia].
  cbn. symmetry. by apply drop_S.
Qed.

Lemma parse_msg_inv buf m : bytes buf -> parse_msg buf = Some m ->
  qu_ok m /\ exists rest, buf = encode_msg m ++ rest.
Proof.
  intros Hb. destruct buf as [|k t]; [done|]. remember (k :: t) as buf eqn:Ebuf.
  assert (Hk : forall c, k = c -> buf = [c] ++ drop 1 buf) by (by intros ? <-; subst).
  unfold parse_msg. rewrite Ebuf at 1. clear Ebuf.
  unfold CONFIG_LEN, TILE_HDR, INVALIDATE_HDR, EPOCH_LEN, SUBSCRIBE_LEN, BUDGET_LEN.
  destruct (Z.eqb_spec k KIND_QU_CONFIG) as [E|_].
  { case_test; [done|]. intros [= <-]. split; [split_and!; qu_range|]. exists (drop 13 buf).
    cbn [encode_msg]. unfold encode_config.
    qu_field 1%nat 3%nat 2%nat. qu_field 3%nat 5%nat 2%nat. qu_field 5%nat 7%nat 2%nat. qu_field 7%nat 9%nat 2%nat.
    qu_field 9%nat 13%nat 4%nat. rewrite <- !app_assoc, !slice_drop by lia. by apply Hk. }
  destruct (Z.eqb_spec k KIND_QU_TILE) as [E|_].
  { case_test; [done|]. case_test; [done|]. intros Hm. apply (inj Some) in Hm as <-.
    pose proof (le_field_nonneg buf 15 19 Hb).
    assert (Hl : len (take (Z.to_nat (le_field buf 15 19)) (drop 19 buf)) = le_field buf 15 19).
    { unfold len in *. rewrite length_take, length_drop. lia. }
    cbn [qu_ok encode_msg]. split.
    - rewrite Hl. split_and!; try qu_range. auto with bytes.
    - exists (drop (Z.to_nat (le_field buf 15 19)) (drop 19 buf)). unfold encode_tile.
      rewrite Hl, wrap32_id by qu_range.
      qu_field 1%nat 5%nat 4%nat. qu_field 5%nat 7%nat 2%nat. qu_field 7%nat 9%nat 2%nat. qu_field 11%nat 15%nat 4%nat.
      qu_field 15%nat 19%nat 4%nat. rewrite <- !app_assoc, take_drop, !(slice_drop buf 15), !(slice_drop buf 11) by lia.
      cbn [app]. rewrite !at0_drop by (unfold len in *; lia). rewrite !slice_drop by lia. by apply Hk. }
  destruct (Z.eqb_spec k KIND_QU_INVALIDATE) as [E|_].
  { case_test; [done|]. case_test; [done|]. intros Hm. apply (inj Some) in Hm as <-.
    pose proof (le_field_nonneg buf 5 7 Hb). cbn [qu_ok encode_msg].
    destruct (parse_positions_inv (Z.to_nat (le_field buf 5 7)) (drop 7 buf)) as (Hp & Hf & Hn);
      [auto with bytes|unfold len in *; rewrite length_drop; lia|].
    assert (Hl : len (parse_positions (Z.to_nat (le_field buf 5 7)) (drop 7 buf)) = le_field buf 5 7).
    { unfold len. rewrite Hn. lia. }
    split; [rewrite Hl; split_and!; [qu_range|done|qu_range]|].
    exists (drop (4 * Z.to_nat (le_field buf 5 7)) (drop 7 buf)). unfold encode_invalidate.
    rewrite Hl, Hp, wrap16_id by qu_range. qu_field 1%nat 5%nat 4%nat. qu_field 5%nat 7%nat 2%nat.
    rewrite <- !app_assoc, take_drop, !slice_drop by lia. by apply Hk. }
  destruct (Z.eqb_spec k KIND_QU_EPOCH) as [E|_].
  { case_test; [done|]. intros [= <-]. split; [qu_range|]. exists (drop 5 buf).
    cbn [encode_msg]. unfold encode_epoch. qu_field 1%nat 5%nat 4%nat.
    rewrite <- !app_assoc, !slice_drop by lia. by apply Hk. }
  destruct (Z.eqb_spec k KIND_QU_SUBSCRIBE) as [E|_].
  { case_test; [done|]. intros [= <-]. split; [qu_range|]. exists (drop 2 buf).
    cbn [encode_msg]. unfold encode_subscribe. rewrite <- app_assoc. cbn [app]. rewrite at0_drop by (unfold len in *; lia).
    by apply Hk. }
  destruct (Z.eqb_spec k KIND_QU_BUDGET) as [E|_]; [|done].
  case_test; [done|]. intros [= <-]. split; [qu_range|]. exists (drop 5 buf).
  cbn [encode_msg]. unfold encode_budget. qu_field 1%nat 5%nat 4%nat.
  rewrite <- !app_assoc, !slice_drop by lia. by apply Hk.
Qed.

(** the parser of the tile channel accepts a buffer exactly when it begins with
    the encoding of a message in range, and then returns that message,
    whatever follows; so every message round-trips, no truncated message is
    accepted, and the relay's [peek] sees the kind and the epoch the message has. *)
Theorem qu_parser_exact :
  (forall buf m, bytes buf -> parse_msg buf = Some m <-> qu_ok m /\ exists rest, buf = encode_msg m ++ rest) /\
  (forall m n, qu_ok m -> bytes (encode_msg m) -> (n < length (encode_msg m))%nat ->
    parse_msg (take n (encode_msg m)) = None) /\
  (forall buf m, bytes buf -> parse_msg buf = Some m -> peek buf = Some (qu_kind m, qu_epoch m)).
Proof.
  split_and!.
  - intros buf m Hb. split; [by apply parse_msg_inv|]. intros [Hm [rest ->]]. by apply parse_encode.
  - intros m n Hm Hb Hn. destruct (parse_msg (take n (encode_msg m))) as [m'|] eqn:E; [|done]. exfalso.
    apply parse_msg_inv in E as [Hm' [rest E]]; [|auto with bytes].
    assert (Em : encode_msg m = encode_msg m' ++ (rest ++ drop n (encode_msg m))).
    { by rewrite app_assoc, <- E, take_drop. }
    pose proof (parse_encode m [] Hm) as P1. rewrite app_nil_r, Em, parse_encode in P1 by done.
    injection P1 as ->. apply (f_equal length) in E. rewrite length_app, length_take in E. lia.
  - intros buf m Hb Hp. apply parse_msg_inv in Hp as [Hm [rest ->]]; [|done]. pose proof (len_nonneg rest).
    destruct m as [w h c r e|e c r f g crc p|e ts|e|v|k]; try done.
    + pose proof (len_nonneg p). set (buf := _ ++ rest).
      change (peek buf) with (Some (KIND_QU_TILE, if 5 <=? len buf then Some (le_field buf 1 5) else None)).
      subst buf. cbn [encode_msg qu_kind qu_epoch]. unfold encode_tile. rewrite (proj2 (Z.leb_le 5 _)) by (wire_lens; lia).
      destruct Hm as (He & _). by read_fields.
    + set (buf := _ ++ rest).
      change (peek buf) with (Some (KIND_QU_INVALIDATE, if 5 <=? len buf then Some (le_field buf 1 5) else None)).
      subst buf. cbn [encode_msg qu_kind qu_epoch]. unfold encode_invalidate.
      rewrite (proj2 (Z.leb_le 5 _)) by (wire_lens; rewrite len_positions; pose proof (len_nonneg ts); lia).
      destruct Hm as (He & _). by read_fields.
Qed.

Lemma qu_parser_exact_witness :
  parse_msg (encode_tile 7 3 2 0 0 3735928559 [170; 187] ++ [1]) = Some (QuTile 7 3 2 0 0 3735928559 [170; 187]).
Proof.
  assert (Hm : qu_ok (QuTile 7 3 2 0 0 3735928559 [170; 187])).
  { repeat split; try done; solve_bytes. }
  apply (proj1 qu_parser_exact); [|split; [exact Hm|by exists [1]]].
  apply bytes_app; [|apply bytes_cons; [apply is_byte_1|apply bytes_nil]].
  unfold encode_tile, KIND_QU_TILE. repeat (apply bytes_app; [solve_bytes|]). solve_bytes.
Defined.

(** The count is the length modulo 2^16: a list of 65536 tiles is read as none. *)
Lemma invalidate_count_wraps e ts :
  in_u32 e -> len ts = 65536 -> parse_msg (encode_invalidate e ts) = Some (QuInvalidate e []).
Proof.
  intros He Hl. set (buf := encode_invalidate e ts).
  change (parse_msg buf) with (if len buf <? INVALIDATE_HDR then None
    else if len buf <? INVALIDATE_HDR + le_field buf 5 7 * 4 then None
    else Some (QuInvalidate (le_field buf 1 5) (parse_positions (Z.to_nat (le_field buf 5 7)) (drop 7 buf)))).
  subst buf. unfold encode_invalidate, INVALIDATE_HDR. rewrite Hl. change (wrap16 65536) with 0.
  rewrite (proj2 (Z.ltb_ge _ 7)) by (wire_lens; rewrite len_positions; lia). assert (H0 : in_u16 0) by done. read_fields.
  rewrite (proj2 (Z.ltb_ge _ (7 + 0 * 4))); [done|]. rewrite !len_app, !len_le_bytes, len_positions, Hl. done.
Qed.
