(* ===== verification/QuRelay.v ===== *)
(** * The QU tile relay and its composition
    (streamer/src/transport/webrtc/qu_relay.rs, app-native/src/qu_composition.rs)

    The host's capture process connects to a local socket; the relay reassembles
    its length-prefixed frames, filters them and sends them to the client, and
    writes the client's messages back. A run is a sequence of the steps of the
    relay task, the connection task and their peers, in any order. The frame a
    step completes is handled at once; sends to the channel succeed or fail
    unobserved; log-once flags are left out. *)
From S2P Require Import Prelude QuWire FecWire.

Definition MAX_MSG_LEN : Z := 4 * 1024 * 1024.

Definition resolve_relay_port (configured : option Z) : Z := default 0 configured.

(** ** One frame from the socket *)

(** The state of [read_frame]: the bytes this call has consumed. A poll takes what
    the socket has, up to what the frame still needs. *)
Inductive frame_poll : Type :=
| Pending (consumed avail : list Z)
| Frame (msg : list Z) (avail : list Z)
| Invalid.

Definition poll_body (l : Z) (consumed avail : list Z) : frame_poll :=
  let need := Z.to_nat (4 + l - len consumed) in
  let consumed' := consumed ++ take need avail in
  if len consumed' <? 4 + l then Pending consumed' (drop need avail)
  else Frame (drop 4 consumed') (drop need avail).

Definition read_frame (consumed avail : list Z) : frame_poll :=
  let need := Z.to_nat (4 - len consumed) in
  let consumed' := consumed ++ take need avail in
  let avail' := drop need avail in
  if len consumed' <? 4 then Pending consumed' avail'
  else
    let l := le_field consumed' 0 4 in
    if l =? 0 then Invalid
    else if MAX_MSG_LEN <? l then Invalid
    else poll_body l consumed' avail'.

(** ** Routing *)

(** [relay_to_sink]: the messages sent to the channel. *)
Definition relay_to_sink (active : bool) (msg : list Z) : list (list Z) := if active then [msg] else [].

Definition handle_socket_frame (active : bool) (epoch : option Z) (msg : list Z) : option Z * list (list Z) :=
  match msg with
  | [] => (epoch, [])
  | kind :: _ =>
      if 128 <=? kind then (epoch, [])
      else if kind =? KIND_QU_CONFIG then
        (match parse_msg msg with Some (QuConfig _ _ _ _ e) => Some e | _ => epoch end, [msg])
      else if kind =? KIND_QU_EPOCH then
        (match parse_msg msg with Some (QuEpoch e) => Some e | _ => epoch end, [msg])
      else if (kind =? KIND_QU_TILE) || (kind =? KIND_QU_INVALIDATE) then
        match epoch, peek msg ≫= snd with
        | Some c, Some m => (epoch, if c =? m then relay_to_sink active msg else [])
        | _, _ => (epoch, [])
        end
      else (epoch, relay_to_sink active msg)
  end.

(** ** The tasks *)

(** A connection: the bytes in the socket, those consumed by the [read_frame] in
    progress, whether the peer has closed, and the messages to write. *)
Record Conn := mkConn {
  avail : list Z;
  consumed : list Z;
  closed : bool;
  write_rx : list (list Z)
}.

Record Relay := mkRelay {
  superseded : bool;
  (** The handle, and with it the sender of client messages, is gone. *)
  dropped : bool;
  running : bool;
  active : bool;
  client_rx : list (list Z);
  epoch : option Z;
  pending_subscribe : option (list Z);
  (** The connection task, while it runs, and the sender to it, whose messages a
      finished task no longer takes. *)
  conn : option Conn
}.

Definition CHANNEL_CAP : Z := 16.

Definition spawn : Relay := mkRelay false false true false [] None None None.

Definition set_conn (r : Relay) (c : option Conn) : Relay :=
  mkRelay (superseded r) (dropped r) (running r) (active r) (client_rx r) (epoch r) (pending_subscribe r) c.
Definition set_epoch_of (r : Relay) (e : option Z) : Relay :=
  mkRelay (superseded r) (dropped r) (running r) (active r) (client_rx r) e (pending_subscribe r) (conn r).

(** [mpsc::Sender::try_send], its result ignored. *)
Definition try_send (q : list (list Z)) (m : list Z) : list (list Z) :=
  if len q <? CHANNEL_CAP then q ++ [m] else q.

Definition forward_client_msg (r : Relay) (data : list Z) : Relay :=
  let sent a :=
    mkRelay (superseded r) (dropped r) (running r) a (if running r then try_send (client_rx r) data else client_rx r)
      (epoch r) (pending_subscribe r) (conn r) in
  match data with
  | [] => r
  | kind :: _ =>
      if kind =? KIND_QU_SUBSCRIBE then sent true
      else if kind =? KIND_QU_BUDGET then sent (active r)
      else r
  end.

(** The guard at the top of the loops of [run_connection] and [run_relay]. *)
Definition guard_conn (r : Relay) : Relay := if superseded r then set_conn r None else r.
Definition guard_relay (r : Relay) : Relay :=
  if superseded r
  then mkRelay (superseded r) (dropped r) false (active r) (client_rx r) (epoch r) (pending_subscribe r) None
  else r.

(** [listener.accept()]: the old task is aborted, the subscription replayed. *)
Definition accept_conn (r : Relay) : Relay :=
  guard_relay (guard_conn (set_conn r (Some (mkConn [] [] false
    (match pending_subscribe r with Some sub => try_send [] sub | None => [] end))))).

(** [client_rx.recv()]: the task ends when the handle is dropped and the channel empty. *)
Definition relay_recv (r : Relay) : Relay :=
  match client_rx r with
  | [] =>
      if dropped r
      then mkRelay (superseded r) (dropped r) false (active r) [] (epoch r) (pending_subscribe r) None
      else r
  | data :: q =>
      let p := if bool_decide (head data = Some KIND_QU_SUBSCRIBE) then Some data else pending_subscribe r in
      let c := match conn r with
               | Some c => Some (mkConn (avail c) (consumed c) (closed c) (try_send (write_rx c) data))
               | None => None
               end in
      guard_relay (mkRelay (superseded r) (dropped r) (running r) (active r) q (epoch r) p c)
  end.

(** A poll of the [read_frame] branch; an incomplete frame of a closed peer is an
    unexpected end. The messages go to the channel. *)
Definition conn_read (r : Relay) : Relay * list (list Z) :=
  match conn r with
  | None => (r, [])
  | Some c =>
      match read_frame (consumed c) (avail c) with
      | Invalid => (set_conn r None, [])
      | Pending cs av =>
          if closed c then (set_conn r None, [])
          else (set_conn r (Some (mkConn av cs (closed c) (write_rx c))), [])
      | Frame msg av =>
          let '(e, out) := handle_socket_frame (active r) (epoch r) msg in
          (guard_conn (set_conn (set_epoch_of r e) (Some (mkConn av [] (closed c) (write_rx c)))), out)
      end
  end.

(** The [write_rx] branch: it drops the [read_frame] in progress, with what that
    call had consumed. The bytes go to the socket; [None] is a write error. *)
Definition conn_write (r : Relay) (ok : bool) : Relay * list Z :=
  match conn r with
  | None => (r, [])
  | Some c =>
      match write_rx c with
      | [] => (r, [])
      | data :: q =>
          if ok then (guard_conn (set_conn r (Some (mkConn (avail c) [] (closed c) q))),
                      u32_le (wrap32 (len data)) ++ data)
          else (set_conn r None, [])
      end
  end.

Inductive relay_op : Type :=
| HostConnect
| HostSend (bytes : list Z)
| HostClose
| ConnRead
| ConnWrite (ok : bool)
| ClientSend (data : list Z)
| RelayRecv
| Supersede
| DropHandle.

(** One step, with the messages it sends to the client. *)
Definition relay_step (r : Relay) (op : relay_op) : Relay * list (list Z) :=
  match op with
  | HostConnect => (if running r then accept_conn r else r, [])
  | HostSend bs =>
      (match conn r with
       | Some c => set_conn r (Some (mkConn (avail c ++ bs) (consumed c) (closed c) (write_rx c)))
       | None => r
       end, [])
  | HostClose =>
      (match conn r with
       | Some c => set_conn r (Some (mkConn (avail c) (consumed c) true (write_rx c)))
       | None => r
       end, [])
  | ConnRead => conn_read r
  | ConnWrite ok => ((conn_write r ok).1, [])
  | ClientSend data => (if dropped r then r else forward_client_msg r data, [])
  | RelayRecv => (if running r then relay_recv r else r, [])
  | Supersede => (mkRelay true (dropped r) (running r) (active r) (client_rx r) (epoch r) (pending_subscribe r) (conn r), [])
  | DropHandle =>
      (mkRelay (superseded r) true (running r) (active r) (client_rx r) (epoch r) (pending_subscribe r) (conn r), [])
  end.

Fixpoint relay_run (r : Relay) (ops : list relay_op) : Relay * list (list Z) :=
  match ops with
  | [] => (r, [])
  | op :: ops =>
      let '(r, out) := relay_step r op in
      let '(r, outs) := relay_run r ops in (r, out ++ outs)
  end.

(** ** The client's composition *)

Inductive TileOutcome : Type := TileApplied | StaleEpoch | OutOfGrid | TileCrcMismatch | OverBudget.

Record StoredTile := mkStored {
  tile_bytes : Z;
  tile_crc : Z
}.

Record QuComposition := mkComposition {
  tile_w : Z;
  tile_h : Z;
  grid_cols : Z;
  grid_rows : Z;
  qc_epoch : Z;
  max_bytes : Z;
  used_bytes : Z;
  tiles : gmap (Z * Z) StoredTile
}.

Definition composition_new (tile_w tile_h grid_cols grid_rows epoch max_bytes : Z) : QuComposition :=
  mkComposition tile_w tile_h grid_cols grid_rows epoch max_bytes 0 ∅.

Definition set_tiles (q : QuComposition) (used : Z) (ts : gmap (Z * Z) StoredTile) : QuComposition :=
  mkComposition (tile_w q) (tile_h q) (grid_cols q) (grid_rows q) (qc_epoch q) (max_bytes q) used ts.

Definition tile_count (q : QuComposition) : Z := Z.of_nat (size (tiles q)).
Definition has_tile (q : QuComposition) (col row : Z) : bool := bool_decide (is_Some (tiles q !! (col, row))).

(** [crc32] is the code of [ieee_crc32] of the FEC wire. *)
Definition crc32 (data : list Z) : Z := foldl crc_byte 4294967295 data ⊕ 4294967295.

Definition apply_tile (q : QuComposition) (epoch col row : Z) (decoded : list Z) (crc : Z) :
    QuComposition * TileOutcome :=
  if negb (epoch =? qc_epoch q) then (q, StaleEpoch)
  else if (grid_cols q <=? col) || (grid_rows q <=? row) then (q, OutOfGrid)
  else if negb (crc32 decoded =? crc) then (q, TileCrcMismatch)
  else
    let old := match tiles q !! (col, row) with Some t => tile_bytes t | None => 0 end in
    let projected := used_bytes q - old + len decoded in
    if max_bytes q <? projected then (q, OverBudget)
    else (set_tiles q projected (<[(col, row) := mkStored (len decoded) crc]> (tiles q)), TileApplied).

Fixpoint remove_tiles (used : Z) (ts : gmap (Z * Z) StoredTile) (ps : list (Z * Z)) :
    Z * gmap (Z * Z) StoredTile :=
  match ps with
  | [] => (used, ts)
  | p :: ps =>
      match ts !! p with
      | Some t => remove_tiles (used - tile_bytes t) (delete p ts) ps
      | None => remove_tiles used ts ps
      end
  end.

Definition apply_invalidate (q : QuComposition) (epoch : Z) (ps : list (Z * Z)) : QuComposition * bool :=
  if negb (epoch =? qc_epoch q) then (q, false)
  else let '(used, ts) := remove_tiles (used_bytes q) (tiles q) ps in (set_tiles q used ts, true).

Definition set_epoch (q : QuComposition) (new_epoch : Z) : QuComposition :=
  mkComposition (tile_w q) (tile_h q) (grid_cols q) (grid_rows q) new_epoch (max_bytes q) 0 ∅.
