(* ===== verification/QuRelaySafe.v ===== *)
(** * The QU tile relay and its composition: proofs

    What the relay sends is a function of the frames it handles; the frames it
    handles are those the host wrote, as long as no client message is written in
    the middle of one. *)
From S2P Require Import Prelude Wire QuWire FecWire QuRelay.

#[local] Arguments le_bytes : simpl never.
#[local] Arguments le_field : simpl never.

(** ** Framing *)

(** The frames of some messages on the socket. *)
Definition wire (ms : list (list Z)) : list Z := ms ≫= (fun m => u32_le (len m) ++ m).

Definition frame_ok (m : list Z) : Prop := 0 < len m <= MAX_MSG_LEN.

Lemma wire_app ms ms' : wire (ms ++ ms') = wire ms ++ wire ms'.
Proof. apply bind_app. Qed.

Lemma wire_cons m ms : wire (m :: ms) = u32_le (len m) ++ m ++ wire ms.
Proof. unfold wire. by rewrite bind_cons, <- app_assoc. Qed.

Lemma frame_ok_u32 m : frame_ok m -> in_u32 (len m).
Proof. unfold frame_ok, MAX_MSG_LEN, in_u. lia. Qed.

(** A poll conserves the bytes; a frame is the next one on the socket. *)
Lemma read_frame_conserves cs av :
  len cs < 4 \/ 0 < le_field cs 0 4 <= MAX_MSG_LEN /\ len cs < 4 + le_field cs 0 4 ->
  bytes cs -> bytes av ->
  match read_frame cs av with
  | Pending cs' av' => cs' ++ av' = cs ++ av /\ bytes cs' /\ bytes av' /\ av' = [] /\
      (len cs' < 4 \/ 0 < le_field cs' 0 4 <= MAX_MSG_LEN /\ len cs' < 4 + le_field cs' 0 4)
  | Frame m av' => frame_ok m /\ u32_le (len m) ++ m ++ av' = cs ++ av /\ bytes m /\ bytes av'
  | Invalid => 4 <= len (cs ++ av) /\ ~ 0 < le_field (cs ++ av) 0 4 <= MAX_MSG_LEN
  end.
Proof.
  intros Hcs Hbc Hba. unfold read_frame.
  set (k := Z.to_nat (4 - len cs)). set (cs1 := cs ++ take k av). set (av1 := drop k av).
  assert (E1 : cs1 ++ av1 = cs ++ av) by (unfold cs1, av1; by rewrite <- app_assoc, take_drop).
  assert (Hb1 : bytes cs1 /\ bytes av1) by (split; unfold cs1, av1; auto with bytes).
  destruct (Z.ltb_spec (len cs1) 4) as [H4|H4].
  { split; [done|]. do 2 (split; [apply Hb1|]). split; [|by left].
    unfold av1. apply drop_ge. unfold cs1, len in H4. rewrite length_app, length_take in H4.
    unfold k, len in *. lia. }
  assert (Ef : le_field cs1 0 4 = le_field (cs ++ av) 0 4).
  { rewrite <- E1. unfold le_field, slice. rewrite !drop_0, take_app_le; [done|]. unfold len in H4. lia. }
  assert (Hlen : len (cs ++ av) = len cs1 + len av1) by (by rewrite <- E1, len_app).
  destruct (Z.eqb_spec (le_field cs1 0 4) 0) as [Hz|Hz].
  { rewrite <- Ef, Hz. split; [pose proof (len_nonneg av1); lia|lia]. }
  destruct (Z.ltb_spec MAX_MSG_LEN (le_field cs1 0 4)) as [Hm|Hm].
  { rewrite <- Ef. split; [pose proof (len_nonneg av1); lia|lia]. }
  pose proof (le_field_nonneg cs1 0 4 (proj1 Hb1)) as Hnn. set (l := le_field cs1 0 4) in *.
  assert (Hlt : len cs1 < 4 + l).
  { destruct Hcs as [Hc|[Hr Hc]].
    - unfold cs1, len in *. rewrite length_app, length_take. unfold k in *. lia.
    - destruct (decide (len cs < 4)) as [Hc4|Hc4].
      + unfold cs1, len in *. rewrite length_app, length_take. unfold k in *. lia.
      + assert (k = 0%nat) as Ek by (unfold k; lia). unfold cs1, l, cs1 in *. rewrite Ek, take_0, app_nil_r in *. lia. }
  unfold poll_body. set (need := Z.to_nat (4 + l - len cs1)). set (cs2 := cs1 ++ take need av1).
  assert (E2 : cs2 ++ drop need av1 = cs ++ av) by (unfold cs2; by rewrite <- app_assoc, take_drop).
  assert (Hb2 : bytes cs2 /\ bytes (drop need av1)) by (split; unfold cs2; destruct Hb1; auto with bytes).
  assert (Ef2 : le_field cs2 0 4 = l).
  { unfold l, cs2, le_field, slice. rewrite !drop_0, take_app_le; [done|]. unfold len in H4. lia. }
  assert (Hl2 : len cs2 <= 4 + l).
  { unfold cs2, len in *. rewrite length_app, length_take. unfold need in *. lia. }
  destruct (Z.ltb_spec (len cs2) (4 + l)) as [Hs|Hs].
  - split; [done|]. do 2 (split; [apply Hb2|]). split; [|right; rewrite Ef2; lia].
    apply drop_ge. unfold cs2, len in Hs, Hl2. rewrite length_app, length_take in Hs. unfold need, len in *. lia.
  - assert (Hd : len (drop 4 cs2) = l) by (unfold len in *; rewrite length_drop; lia).
    split; [unfold frame_ok; lia|]. split.
    + rewrite Hd, <- E2. rewrite <- (take_drop 4 cs2) at 2. rewrite <- app_assoc. f_equal.
      rewrite <- Ef2. rewrite (le_bytes_field cs2 0 4 4) by (try apply Hb2; unfold len in *; lia).
      unfold slice. by rewrite drop_0.
    + destruct Hb2. auto with bytes.
Qed.

(** ** What is handled, and what is sent *)

(** The frame a step handles, with the subscription at that time. *)
Definition handled (r : Relay) (op : relay_op) : option (bool * list Z) :=
  match op, conn r with
  | ConnRead, Some c =>
      match read_frame (consumed c) (avail c) with Frame m _ => Some (active r, m) | _ => None end
  | _, _ => None
  end.

Fixpoint handled_run (r : Relay) (ops : list relay_op) : list (bool * list Z) :=
  match ops with
  | [] => []
  | op :: ops => option_list (handled r op) ++ handled_run (relay_step r op).1 ops
  end.

(** The routing of a sequence of frames. *)
Fixpoint route (e : option Z) (hs : list (bool * list Z)) : option Z * list (list Z) :=
  match hs with
  | [] => (e, [])
  | (a, m) :: hs =>
      let '(e, out) := handle_socket_frame a e m in
      let '(e, outs) := route e hs in (e, out ++ outs)
  end.

Lemma guard_conn_epoch r : epoch (guard_conn r) = epoch r.
Proof. unfold guard_conn. by destruct (superseded r). Qed.

Lemma relay_step_route r op :
  epoch (relay_step r op).1 = (route (epoch r) (option_list (handled r op))).1 /\
  (relay_step r op).2 = (route (epoch r) (option_list (handled r op))).2.
Proof.
  destruct op as [|bs| | |ok|d| | |]; cbn.
  - destruct (running r); [|done]. unfold accept_conn, guard_relay, guard_conn. by repeat case_match.
  - by destruct (conn r).
  - by destruct (conn r).
  - unfold conn_read, handled. destruct (conn r) as [c|]; [|done].
    destruct (read_frame _ _) as [cs av|m av|]; [by destruct (closed c)| |done].
    change (option_list (Some ?x)) with [x]. cbn [route].
    destruct (handle_socket_frame (active r) (epoch r) m) as [e out]. cbn [fst snd].
    split; [by rewrite guard_conn_epoch|]. by rewrite app_nil_r.
  - unfold conn_write. destruct (conn r) as [c|]; [|done]. destruct (write_rx c); [done|].
    destruct ok; cbn [fst]; [by rewrite guard_conn_epoch|done].
  - destruct (dropped r); [done|]. unfold forward_client_msg. destruct d as [|k d]; [done|]. by repeat case_match.
  - destruct (running r); [|done]. unfold relay_recv, guard_relay. by repeat case_match.
  - done.
  - done.
Qed.

Lemma route_app e hs hs' :
  route e (hs ++ hs') =
    let '(e, out) := route e hs in let '(e, out') := route e hs' in (e, out ++ out').
Proof.
  revert e. induction hs as [|[a m] hs IH]; intros e; cbn.
  - by destruct (route e hs').
  - destruct (handle_socket_frame a e m) as [e1 out]. rewrite IH. destruct (route e1 hs) as [e2 o2].
    destruct (route e2 hs') as [e3 o3]. by rewrite app_assoc.
Qed.

Lemma relay_run_route r ops : (relay_run r ops).2 = (route (epoch r) (handled_run r ops)).2.
Proof.
  revert r. induction ops as [|op ops IH]; intros r; [done|]. cbn [relay_run handled_run].
  destruct (relay_step_route r op) as [He Ho]. rewrite route_app.
  destruct (relay_step r op) as [r1 out]. cbn [fst snd] in *.
  destruct (route (epoch r) (option_list (handled r op))) as [e1 o1]. cbn [fst snd] in *. subst e1 o1.
  specialize (IH r1). destruct (relay_run r1 ops) as [r2 o2]. destruct (route (epoch r1) (handled_run r1 ops)).
  cbn in *. by rewrite IH.
Qed.

(** The epoch the host has announced. *)
Definition announced (m : list Z) : option Z :=
  match parse_msg m with
  | Some (QuConfig _ _ _ _ e) => Some e
  | Some (QuEpoch e) => Some e
  | _ => None
  end.

Definition current_epoch (e0 : option Z) (pre : list (bool * list Z)) : option Z :=
  foldl (fun e am => match announced am.2 with Some e' => Some e' | None => e end) e0 pre.

(** The documented filter: host messages only; configurations and epochs always;
    anything else once subscribed, tiles and invalidations of the current epoch. *)
Definition allowed (e : option Z) (am : bool * list Z) : bool :=
  match head am.2 with
  | None => false
  | Some kind =>
      (kind <? 128) &&
      ((kind =? KIND_QU_CONFIG) || (kind =? KIND_QU_EPOCH) ||
       am.1 && (negb ((kind =? KIND_QU_TILE) || (kind =? KIND_QU_INVALIDATE)) ||
                bool_decide (is_Some e /\ peek am.2 = Some (kind, e))))
  end.

Fixpoint sent_spec (e : option Z) (hs : list (bool * list Z)) : list (list Z) :=
  match hs with
  | [] => []
  | am :: hs => (if allowed e am then [am.2] else []) ++ sent_spec (current_epoch e [am]) hs
  end.

Lemma parse_msg_kind k t m : parse_msg (k :: t) = Some m -> qu_kind m = k.
Proof.
  unfold parse_msg. repeat (case_test; try done); intros [= <-]; done.
Qed.

Lemma handle_spec a e m : handle_socket_frame a e m = (current_epoch e [(a, m)], if allowed e (a, m) then [m] else []).
Proof.
  unfold handle_socket_frame, current_epoch, allowed, announced. cbn [foldl fst snd head].
  destruct m as [|k t]; [done|]. cbn [head]. set (b := k :: t).
  pose proof (parse_msg_kind k t) as Hk. fold b in Hk.
  destruct (Z.leb_spec 128 k) as [Hc|Hc].
  { rewrite (proj2 (Z.ltb_ge k 128)) by done. cbn [andb].
    destruct (parse_msg b) as [[]|]; try done; specialize (Hk _ eq_refl); cbn in Hk;
      unfold KIND_QU_CONFIG, KIND_QU_EPOCH in Hk; lia. }
  rewrite (proj2 (Z.ltb_lt k 128)) by done. cbn [andb].
  destruct (Z.eqb_spec k KIND_QU_CONFIG) as [Ek|Hn1].
  { cbn [orb]. destruct (parse_msg b) as [[]|]; try done; specialize (Hk _ eq_refl); cbn in Hk;
      unfold KIND_QU_CONFIG, KIND_QU_EPOCH in *; lia. }
  cbn [orb]. destruct (Z.eqb_spec k KIND_QU_EPOCH) as [Ek|Hn2].
  { cbn [orb]. destruct (parse_msg b) as [[]|]; try done; specialize (Hk _ eq_refl); cbn in Hk;
      unfold KIND_QU_CONFIG, KIND_QU_EPOCH in *; lia. }
  cbn [orb].
  assert (Hann : match (match parse_msg b with
      | Some (QuConfig _ _ _ _ e) => Some e | Some (QuEpoch e) => Some e | _ => None end) with
      | Some e' => Some e' | None => e end = e).
  { destruct (parse_msg b) as [[]|]; try done; specialize (Hk _ eq_refl); cbn in Hk; congruence. }
  rewrite Hann. unfold relay_to_sink.
  destruct ((k =? KIND_QU_TILE) || (k =? KIND_QU_INVALIDATE)) eqn:Et; cbn [negb orb]; [|by destruct a].
  change (peek b) with (Some (k, if ((k =? KIND_QU_TILE) || (k =? KIND_QU_INVALIDATE)) && (5 <=? len b)
                                 then Some (le_field b 1 5) else None)).
  rewrite Et. cbn [andb]. destruct e as [c|].
  - destruct (5 <=? len b); cbn.
    + destruct (Z.eqb_spec c (le_field b 1 5)) as [->|Hne].
      * rewrite bool_decide_true by (split; [by eexists|done]). by destruct a.
      * rewrite bool_decide_false by (intros [_ [= ]]; congruence). by destruct a.
    + rewrite bool_decide_false by (by intros [_ [= ]]). by destruct a.
  - rewrite bool_decide_false by (by intros [[]]). by destruct a; destruct (5 <=? len b).
Qed.

Lemma route_spec e hs : (route e hs).2 = sent_spec e hs.
Proof.
  revert e. induction hs as [|[a m] hs IH]; intros e; [done|]. cbn [route sent_spec]. rewrite handle_spec.
  specialize (IH (current_epoch e [(a, m)])). destruct (route _ hs). cbn in *. by rewrite IH.
Qed.

(** ** The frames of one connection *)

Definition sent_bytes (ops : list relay_op) : list Z :=
  ops ≫= (fun op => match op with HostSend bs => bs | _ => [] end).

(** The peer does not reconnect, and no message is written while a frame is partly read. *)
Definition calm_op (r : Relay) (op : relay_op) : Prop :=
  match op with
  | HostConnect => False
  | ConnWrite _ => match conn r with Some c => consumed c = [] | None => True end
  | _ => True
  end.

Fixpoint calm (r : Relay) (ops : list relay_op) : Prop :=
  match ops with
  | [] => True
  | op :: ops => calm_op r op /\ calm (relay_step r op).1 ops
  end.

(** The read in progress is of a frame whose length, when known, is acceptable. *)
Definition reading_ok (cs : list Z) : Prop :=
  len cs < 4 \/ 0 < le_field cs 0 4 <= MAX_MSG_LEN /\ len cs < 4 + le_field cs 0 4.

(** [B] has arrived since the connection and [hs] was handled. *)
Definition frames_inv (r : Relay) (B : list Z) (hs : list (list Z)) : Prop :=
  bytes B /\ Forall frame_ok hs /\
  match conn r with
  | Some c => reading_ok (consumed c) /\ B = wire hs ++ consumed c ++ avail c
  | None => exists rest, B = wire hs ++ rest
  end.

Lemma bytes_app_inv l k : bytes (l ++ k) -> bytes l /\ bytes k.
Proof. apply Forall_app. Qed.

Lemma wire_snoc hs m : wire (hs ++ [m]) = wire hs ++ u32_le (len m) ++ m.
Proof. rewrite wire_app, wire_cons. by rewrite app_nil_r. Qed.

Lemma frames_inv_conn r r' B hs :
  frames_inv r B hs ->
  match conn r' with
  | Some c' => exists c, conn r = Some c /\ avail c' = avail c /\ (consumed c' = consumed c)
  | None => True
  end -> frames_inv r' B hs.
Proof.
  intros (Hb & Hf & Hc) H. do 2 (split; [done|]). destruct (conn r') as [c'|].
  - destruct H as (c & E & -> & ->). by rewrite E in Hc.
  - destruct (conn r) as [c|]; [|done]. destruct Hc as [_ ->]. by eexists.
Qed.

Lemma frames_inv_step r B hs op :
  frames_inv r B hs -> calm_op r op -> bytes (sent_bytes [op]) ->
  frames_inv (relay_step r op).1 (B ++ sent_bytes [op]) (hs ++ (option_list (handled r op)).*2).
Proof.
  intros Hi Hc Hs.
  assert (Hsame : sent_bytes [op] = [] -> handled r op = None ->
    match conn (relay_step r op).1 with
    | Some c' => exists c, conn r = Some c /\ avail c' = avail c /\ consumed c' = consumed c
    | None => True
    end -> frames_inv (relay_step r op).1 (B ++ sent_bytes [op]) (hs ++ (option_list (handled r op)).*2)).
  { intros -> -> H. rewrite !app_nil_r. by apply (frames_inv_conn r). }
  destruct op as [|bs| | |ok|d| | |]; try done.
  - (* bytes arrive *)
    destruct Hi as (Hb & Hf & Hi). cbn in *. rewrite app_nil_r in *. split; [by apply bytes_app|].
    rewrite app_nil_r. split; [done|].
    destruct (conn r) as [c|] eqn:E.
    + cbn. destruct Hi as [Hr ->]. by rewrite <- !app_assoc.
    + rewrite E. destruct Hi as [rest ->]. eexists. by rewrite <- app_assoc.
  - apply Hsame; [done|done|]. cbn. destruct (conn r) as [c|] eqn:E; [|by rewrite E]. cbn. by exists c.
  - (* a poll *)
    clear Hsame Hs. cbn [sent_bytes mbind list_bind]. destruct Hi as (Hb & Hf & Hi).
    unfold relay_step, conn_read, handled. destruct (conn r) as [c|] eqn:E.
    2:{ rewrite !app_nil_r. do 2 (split; [done|]). cbn. rewrite E. done. }
    destruct Hi as [Hr ->]. apply bytes_app_inv in Hb as [Hbw Hb]. apply bytes_app_inv in Hb as [Hb1 Hb2].
    pose proof (read_frame_conserves (consumed c) (avail c) Hr Hb1 Hb2) as H.
    change (([ConnRead] ≫= _)) with (@nil Z).
    destruct (read_frame (consumed c) (avail c)) as [cs av|m av|].
    + destruct H as (E' & _ & _ & _ & Hr'). change (option_list None) with (@nil (bool * list Z)).
      rewrite !app_nil_r, <- E'.
      assert (Hbs : bytes (wire hs ++ cs ++ av)) by (rewrite E'; by repeat apply bytes_app).
      destruct (closed c); cbn; do 2 (split; [done|]); [by eexists|done].
    + destruct H as (Hm & E' & Hbm & Hba). change (option_list (Some ?x)) with [x].
      destruct (handle_socket_frame _ _ m) as [e out]. cbn [fst snd]. rewrite app_nil_r.
      change ([(active r, m)].*2) with [m]. split; [by repeat apply bytes_app|].
      split; [by apply Forall_app; split; [|constructor]|]. rewrite wire_snoc, <- E'. unfold guard_conn.
      destruct (superseded _); cbn; [exists av|split; [by left|]]; by rewrite <- !app_assoc.
    + change (option_list None) with (@nil (bool * list Z)). rewrite !app_nil_r.
      split; [by repeat apply bytes_app|]. split; [done|]. cbn. by eexists.
  - apply Hsame; [done|done|]. cbn. cbn in Hc. unfold conn_write. destruct (conn r) as [c|] eqn:E; [|by cbn; rewrite E].
    destruct (write_rx c); [cbn; rewrite E; by exists c|]. destruct ok; cbn; [|done]. unfold guard_conn.
    destruct (superseded _); cbn; [done|]. exists c. by rewrite Hc.
  - apply Hsame; [done|done|]. cbn. unfold forward_client_msg.
    assert (H : match conn r with Some c' => exists c, conn r = Some c /\ avail c' = avail c /\ consumed c' = consumed c
      | None => True end) by (destruct (conn r) as [c|]; [by exists c|done]).
    destruct (dropped r); [exact H|]. destruct d as [|k d]; [exact H|].
    destruct (k =? _); [exact H|]. destruct (k =? _); exact H.
  - apply Hsame; [done|done|]. cbn.
    assert (H : match conn r with Some c' => exists c, conn r = Some c /\ avail c' = avail c /\ consumed c' = consumed c
      | None => True end) by (destruct (conn r) as [c|]; [by exists c|done]).
    destruct (running r); [|exact H]. unfold relay_recv.
    destruct (client_rx r) as [|m q]; [destruct (dropped r); [done|exact H]|]. unfold guard_relay. cbn. destruct (superseded r); cbn; [done|]. destruct (conn r) as [c|]; cbn; [by exists c|done].
  - apply Hsame; [done|done|]. cbn. destruct (conn r) as [c|]; [by exists c|done].
  - apply Hsame; [done|done|]. cbn. destruct (conn r) as [c|]; [by exists c|done].
Qed.

Lemma frames_inv_run r B hs ops :
  frames_inv r B hs -> calm r ops -> bytes (sent_bytes ops) ->
  frames_inv (relay_run r ops).1 (B ++ sent_bytes ops) (hs ++ (handled_run r ops).*2).
Proof.
  revert r B hs. induction ops as [|op ops IH]; intros r B hs Hi Hc Hb.
  { cbn. by rewrite !app_nil_r. }
  destruct Hc as [Hc Hcs]. change (op :: ops) with ([op] ++ ops) in Hb. unfold sent_bytes in Hb.
  rewrite bind_app in Hb. apply bytes_app_inv in Hb as [Hb1 Hb2].
  specialize (IH _ _ _ (frames_inv_step r B hs op Hi Hc Hb1) Hcs Hb2).
  change (sent_bytes (op :: ops)) with (sent_bytes ([op] ++ ops)). unfold sent_bytes at 1. rewrite bind_app.
  fold (sent_bytes ops) (sent_bytes [op]). cbn [relay_run handled_run]. rewrite fmap_app, !app_assoc.
  destruct (relay_step r op) as [r1 o1]. cbn [fst] in *. by destruct (relay_run r1 ops).
Qed.

(** A sequence of frames that begins another is a prefix of it. *)
Lemma wire_prefix hs ms rest :
  Forall frame_ok hs -> Forall frame_ok ms -> wire hs ++ rest = wire ms ->
  exists ms', ms = hs ++ ms' /\ rest = wire ms'.
Proof.
  intros Hh. revert ms. induction Hh as [|h hs Hh1 _ IH]; intros ms Hm E; [by exists ms|].
  destruct Hm as [|m ms Hm1 Hm].
  { exfalso. apply (f_equal len) in E. rewrite wire_cons, !len_app, len_le_bytes in E.
    change (len (wire [])) with 0 in E. pose proof (len_nonneg h). pose proof (len_nonneg (wire hs)).
    pose proof (len_nonneg rest). lia. }
  rewrite !wire_cons, <- !app_assoc in E. apply app_inj_1 in E as [El E]; [|by rewrite !length_le_bytes].
  apply (f_equal of_le) in El. rewrite !u32_le_id in El by by apply frame_ok_u32.
  apply app_inj_1 in E as [-> E]; [|unfold len in El; lia].
  destruct (IH ms Hm E) as (ms' & -> & ->). by exists ms'.
Qed.

(** A poll on the bytes of valid frames never fails, and makes progress. *)
Lemma read_frame_wire cs av more ms :
  reading_ok cs -> bytes cs -> bytes av -> Forall frame_ok ms -> cs ++ av ++ more = wire ms ->
  match read_frame cs av with
  | Invalid => False
  | Frame m av' => exists ms', ms = m :: ms' /\ av' ++ more = wire ms'
  | Pending _ _ => more = [] -> ms = []
  end.
Proof.
  intros Hr Hb1 Hb2 Hm E. pose proof (read_frame_conserves cs av Hr Hb1 Hb2) as H.
  assert (Hfld : forall m ms', ms = m :: ms' -> 4 <= len (cs ++ av) -> le_field (cs ++ av) 0 4 = len m).
  { intros m ms' -> H4. inversion Hm as [|? ? Hm1]; subst.
    rewrite <- (le_field_here 4 (len m) (m ++ wire ms')) by apply (frame_ok_u32 _ Hm1).
    change (le_bytes 4 (len m)) with (u32_le (len m)). rewrite <- wire_cons, <- E, app_assoc.
    unfold le_field, slice. rewrite !drop_0, (take_app_le (cs ++ av)); [done|]. unfold len in H4. lia. }
  destruct (read_frame cs av) as [cs' av'|m av'|].
  - destruct H as (E' & _ & _ & -> & Hr'). rewrite app_nil_r in E'. subst cs'. intros ->.
    rewrite app_nil_r in E. destruct ms as [|m ms]; [done|exfalso]. specialize (Hfld m ms eq_refl).
    apply (f_equal len) in E. rewrite wire_cons, !len_app, len_le_bytes in E.
    pose proof (len_nonneg m). pose proof (len_nonneg (wire ms)).
    destruct Hr' as [Hr'|[_ Hr']]; rewrite len_app in *; [lia|]. rewrite Hfld in Hr' by lia. lia.
  - destruct H as (Hf & E' & _). rewrite app_assoc, <- E', <- !app_assoc in E.
    destruct (wire_prefix [m] ms (av' ++ more)) as (ms' & -> & E2); [by constructor|done|by rewrite wire_cons, <- !app_assoc|].
    by exists ms'.
  - destruct H as [H4 H]. destruct ms as [|m ms].
    { apply (f_equal len) in E. rewrite app_assoc, len_app in E. change (len (wire [])) with 0 in E.
      pose proof (len_nonneg more). lia. }
    rewrite (Hfld m ms eq_refl H4) in H. inversion Hm as [|? ? [? ?]]; subst. by apply H.
Qed.

(** ** Progress *)

Definition alive (r : Relay) : Prop :=
  superseded r = false /\ dropped r = false /\ exists c, conn r = Some c /\ closed c = false.

(** The peer stays, its socket takes the bytes, and the relay keeps its handle and
    is not superseded. *)
Definition peaceful (op : relay_op) : Prop :=
  match op with HostConnect | HostClose | Supersede | DropHandle | ConnWrite false => False | _ => True end.

Lemma frames_inv_pending r c B hs more ms :
  frames_inv r B hs -> conn r = Some c -> Forall frame_ok ms -> B ++ more = wire ms ->
  exists ms', ms = hs ++ ms' /\ consumed c ++ avail c ++ more = wire ms' /\
    reading_ok (consumed c) /\ bytes (consumed c) /\ bytes (avail c).
Proof.
  intros (Hb & Hf & Hc) E Hm Ew. rewrite E in Hc. destruct Hc as [Hr ->].
  apply bytes_app_inv in Hb as [_ Hb]. apply bytes_app_inv in Hb. rewrite <- !app_assoc in Ew.
  destruct (wire_prefix hs ms _ Hf Hm Ew) as (ms' & -> & E'). by exists ms'.
Qed.

Lemma alive_step r B hs more ms op :
  frames_inv r B hs -> Forall frame_ok ms -> B ++ more = wire ms -> alive r -> peaceful op ->
  alive (relay_step r op).1.
Proof.
  intros Hi Hm E (Hs & Hd & c & Ec & Hcl) Hp. pose proof (frames_inv_pending r c B hs more ms Hi Ec Hm E) as (ms' & -> & Ew & Hr & Hb1 & Hb2).
  apply Forall_app in Hm as [_ Hm]. pose proof (read_frame_wire _ _ more ms' Hr Hb1 Hb2 Hm Ew) as H.
  assert (Hsame : alive r) by (do 2 (split; [done|]); by exists c).
  destruct op as [|bs| | |[]|d| | |]; try done; cbn.
  - rewrite Ec. do 2 (split; [done|]). by eexists.
  - unfold conn_read. rewrite Ec. destruct (read_frame _ _) as [cs av|m av|]; [| |done].
    + rewrite Hcl. do 2 (split; [done|]). by eexists.
    + destruct (handle_socket_frame _ _ m). unfold guard_conn. cbn. rewrite Hs. do 2 (split; [done|]). by eexists.
  - unfold conn_write. rewrite Ec. destruct (write_rx c); [done|]. unfold guard_conn. cbn. rewrite Hs.
    do 2 (split; [done|]). by eexists.
  - rewrite Hd. destruct d as [|k d]; [done|]. cbn. destruct (k =? _); [do 2 (split; [done|]); by exists c|].
    destruct (k =? _); [do 2 (split; [done|]); by exists c|done].
  - destruct (running r); [|done]. unfold relay_recv. destruct (client_rx r); [by rewrite Hd|]. unfold guard_relay. cbn.
    rewrite Hs, Ec. do 2 (split; [done|]). by eexists.
Qed.

Lemma sent_bytes_cons op ops : sent_bytes (op :: ops) = sent_bytes [op] ++ sent_bytes ops.
Proof. change (op :: ops) with ([op] ++ ops). apply bind_app. Qed.

Lemma relay_run_cons r op ops : (relay_run r (op :: ops)).1 = (relay_run (relay_step r op).1 ops).1.
Proof. cbn. destruct (relay_step r op) as [r1 o]. cbn. by destruct (relay_run r1 ops). Qed.

Lemma alive_run r B hs more ms ops :
  frames_inv r B hs -> Forall frame_ok ms -> B ++ sent_bytes ops ++ more = wire ms -> bytes (sent_bytes ops) ->
  calm r ops -> alive r -> Forall peaceful ops -> alive (relay_run r ops).1.
Proof.
  revert r B hs. induction ops as [|op ops IH]; intros r B hs Hi Hm E Hb Hc Ha Hp; [done|].
  rewrite sent_bytes_cons in Hb, E. apply bytes_app_inv in Hb as [Hb1 Hb2]. destruct Hc as [Hc Hcs].
  inversion Hp as [|? ? Hp1 Hps]; subst. rewrite relay_run_cons. rewrite <- app_assoc in E.
  eapply (IH _ _ _ (frames_inv_step r B hs op Hi Hc Hb1)); try done; [by rewrite <- app_assoc|].
  by eapply (alive_step r B hs).
Qed.

(** Once all bytes are there, one poll per frame handles them all. *)
Lemma drain r B hs ms :
  frames_inv r B (hs : list (list Z)) -> Forall frame_ok (hs ++ ms) -> B = wire (hs ++ ms) -> alive r ->
  (handled_run r (replicate (length ms) ConnRead)).*2 = ms.
Proof.
  revert r hs. induction ms as [|m ms IH]; intros r hs Hi Hm E Ha; [done|].
  pose proof Ha as (_ & _ & c & Ec & _). assert (E0 : B ++ [] = wire (hs ++ m :: ms)) by (by rewrite app_nil_r).
  pose proof (frames_inv_pending r c B hs [] _ Hi Ec Hm E0) as (ms' & Ems & Ew & Hr & Hb1 & Hb2).
  apply app_inv_head in Ems as <-. pose proof Hm as Hm'. apply Forall_app in Hm' as [_ Hm'].
  pose proof (read_frame_wire _ _ [] _ Hr Hb1 Hb2 Hm' Ew) as H.
  assert (Hh : exists a, handled r ConnRead = Some (a, m)).
  { unfold handled. rewrite Ec. destruct (read_frame _ _) as [cs av|m1 av|]; [by specialize (H eq_refl)| |done].
    destruct H as (ms'' & [= <- <-] & _). by eexists. }
  destruct Hh as [a Hh]. change (length (m :: ms)) with (S (length ms)). rewrite replicate_S.
  cbn [handled_run]. rewrite Hh, fmap_app.
  change ((option_list (Some (a, m))).*2) with [m]. cbn [app]. f_equal.
  pose proof (frames_inv_step r B hs ConnRead Hi I ltac:(by constructor)) as Hi'.
  rewrite Hh in Hi'. rewrite app_nil_r in Hi'. change ((option_list (Some (a, m))).*2) with [m] in Hi'.
  apply (IH _ (hs ++ [m])); [done|by rewrite <- app_assoc|by rewrite <- app_assoc|].
  by eapply (alive_step r B hs [] _ ConnRead Hi Hm E0).
Qed.

(** C20: From a connection that has read nothing, whatever the chunks the peer's
    bytes arrive in and whatever client messages, subscriptions and polls happen
    between them, as long as no write interrupts a frame that is partly read:
    the frames handled are a prefix of those the peer framed; what the client is
    sent is exactly the documented filter of them; a peer that frames correctly
    is not disconnected; and once all bytes are there, one poll per remaining
    frame handles all of them. *)
Theorem relay_reassembles r c ops ms more :
  conn r = Some c -> consumed c = [] -> avail c = [] ->
  Forall frame_ok ms -> Forall bytes ms -> sent_bytes ops ++ more = wire ms -> calm r ops ->
  let r' := (relay_run r ops).1 in let hs := handled_run r ops in
  hs.*2 `prefix_of` ms /\
  (relay_run r ops).2 = sent_spec (epoch r) hs /\
  (alive r -> Forall peaceful ops -> alive r') /\
  (more = [] -> alive r' ->
    (handled_run r' (replicate (length ms - length hs) ConnRead)).*2 = drop (length hs) ms).
Proof.
  intros Ec Hcs Hav Hm Hbm E Hc r' hs.
  assert (Hbw : bytes (wire ms)).
  { clear -Hbm. induction Hbm; [constructor|]. rewrite wire_cons. repeat apply bytes_app; auto using bytes_le_bytes. }
  assert (Hbs : bytes (sent_bytes ops)) by (rewrite <- E in Hbw; by apply bytes_app_inv in Hbw as [? _]).
  assert (Hi : frames_inv r [] []) by (split; [constructor|split; [constructor|]]; rewrite Ec, Hcs, Hav; by split; [left|]).
  pose proof (frames_inv_run r [] [] ops Hi Hc Hbs) as Hi'. cbn [app] in Hi'. fold hs r' in Hi'.
  assert (Hpre : exists ms', ms = hs.*2 ++ ms').
  { destruct Hi' as (_ & Hf & Hi'). destruct (conn r') as [c'|].
    - destruct Hi' as [_ Eb]. rewrite Eb, <- !app_assoc in E.
      destruct (wire_prefix _ _ _ Hf Hm E) as (ms' & -> & _). by exists ms'.
    - destruct Hi' as [rest Eb]. rewrite Eb, <- !app_assoc in E.
      destruct (wire_prefix _ _ _ Hf Hm E) as (ms' & -> & _). by exists ms'. }
  destruct Hpre as [ms' ->]. rewrite length_app, length_fmap.
  replace (length hs + length ms' - length hs)%nat with (length ms') by lia.
  split; [by apply prefix_app_r|]. split; [by rewrite relay_run_route, route_spec|]. split.
  - intros Ha Hp. by eapply (alive_run r [] []).
  - intros -> Ha. rewrite drop_app_length' by (by rewrite length_fmap). rewrite app_nil_r in E.
    by eapply (drain r' (sent_bytes ops) hs.*2).
Qed.

(** Two chunks that split a frame, a subscription in between, and a tile before
    the configuration that the filter withholds. *)
Lemma relay_reassembles_witness :
  let cfg := encode_config 64 64 2 2 7 in
  let t := encode_tile 7 0 0 0 0 0 [1; 2; 3] in
  let ops := [ClientSend (encode_subscribe 1); RelayRecv; ConnWrite true; HostSend (take 3 (wire [t; cfg; t])); ConnRead;
              HostSend (drop 3 (wire [t; cfg; t])); ConnRead; ConnRead; ConnRead] in
  let r := accept_conn spawn in
  (relay_run r ops).2 = [cfg; t] /\ ((handled_run r ops).*2 `prefix_of` [t; cfg; t]).
Proof.
  intros cfg t ops r.
  assert (H := relay_reassembles r (mkConn [] [] false []) ops [t; cfg; t] [] eq_refl eq_refl eq_refl
    ltac:(repeat (constructor; [by vm_compute|]); constructor) ltac:(apply (bool_decide_eq_true_1 (Forall (Forall (fun x => 0 <= x < 256)) _)); vm_compute; reflexivity)
    ltac:(vm_compute; reflexivity) ltac:(vm_compute; tauto)).
  split; [|apply H]. destruct H as (_ & -> & _). vm_compute. reflexivity.
Defined.

(** ** The client's messages *)

Definition is_subscribe (op : relay_op) : bool :=
  match op with ClientSend (k :: _) => k =? KIND_QU_SUBSCRIBE | _ => false end.

(** A subscription or a budget that the client sent. *)
Definition from_client (ops : list relay_op) (d : list Z) : Prop :=
  ClientSend d ∈ ops /\ (head d = Some KIND_QU_SUBSCRIBE \/ head d = Some KIND_QU_BUDGET).

Definition queue_ok (ops : list relay_op) (q : list (list Z)) : Prop :=
  Forall (from_client ops) q /\ len q <= CHANNEL_CAP.

Record relay_ok (ops : list relay_op) (r : Relay) : Prop := {
  ok_active : active r = existsb is_subscribe ops \/ dropped r = true /\ active r = false;
  ok_client_rx : queue_ok ops (client_rx r);
  ok_pending : match pending_subscribe r with
               | Some s => from_client ops s /\ head s = Some KIND_QU_SUBSCRIBE | None => True end;
  ok_write_rx : match conn r with Some c => queue_ok ops (write_rx c) | None => True end;
  ok_running : running r = false -> superseded r || dropped r = true
}.

Lemma queue_ok_send ops q d : queue_ok ops q -> from_client ops d -> queue_ok ops (try_send q d).
Proof.
  intros [Hq Hl] Hd. unfold try_send. destruct (Z.ltb_spec (len q) CHANNEL_CAP); [|done].
  split; [by apply Forall_app; split; [|constructor]|]. rewrite len_snoc. lia.
Qed.

Lemma from_client_mono ops op d : from_client ops d -> from_client (ops ++ [op]) d.
Proof. intros [? ?]. split; [|done]. apply elem_of_app. by left. Qed.

Lemma queue_ok_mono ops op q : queue_ok ops q -> queue_ok (ops ++ [op]) q.
Proof. intros [Hq Hl]. split; [|done]. eapply Forall_impl; [done|]. intros d. apply from_client_mono. Qed.

Lemma relay_ok_other ops r op :
  (is_subscribe op = false \/ dropped r = true) -> relay_ok ops r -> relay_ok (ops ++ [op]) r.
Proof.
  intros Ho [Ha Hq Hp Hw Hr]. split.
  - rewrite existsb_app. cbn. destruct Ho as [->|Ho]; [by rewrite !orb_false_r|].
    destruct Ha as [Ha|Ha]; [|by right]. destruct (active r); [left; by rewrite <- Ha|by right].
  - by apply queue_ok_mono.
  - destruct (pending_subscribe r); [|done]. destruct Hp. split; [by apply from_client_mono|done].
  - destruct (conn r); [by apply queue_ok_mono|done].
  - done.
Qed.

Lemma relay_ok_conn ops r c :
  relay_ok ops r -> match c with Some c => queue_ok ops (write_rx c) | None => True end ->
  relay_ok ops (set_conn r c).
Proof. intros [] ?. by split. Qed.

Lemma relay_ok_guard_conn ops r : relay_ok ops r -> relay_ok ops (guard_conn r).
Proof. intros H. unfold guard_conn. destruct (superseded r); [by apply relay_ok_conn|done]. Qed.

Lemma relay_ok_guard_relay ops r : relay_ok ops r -> relay_ok ops (guard_relay r).
Proof. intros H. unfold guard_relay. destruct (superseded r); [|done]. by destruct H; split. Qed.

Lemma queue_ok_tail ops d q : queue_ok ops (d :: q) -> from_client ops d /\ queue_ok ops q.
Proof. intros [Hq Hl]. inversion Hq. rewrite len_cons in Hl. do 2 (split; [done|]). lia. Qed.

Lemma relay_ok_client ops r data :
  relay_ok ops r -> relay_ok (ops ++ [ClientSend data]) (forward_client_msg r data).
Proof.
  intros H. destruct (is_subscribe (ClientSend data)) eqn:Es; cycle 1.
  - apply (relay_ok_other _ _ _ (or_introl Es)) in H. unfold forward_client_msg. destruct data as [|k t]; [done|].
    cbn in Es. rewrite Es. destruct (Z.eqb_spec k KIND_QU_BUDGET) as [->|]; [|done].
    destruct H. split; cbn; try done. destruct (running r); [|done]. apply queue_ok_send; [done|].
    split; [|by right]. apply elem_of_app. right. by apply list_elem_of_singleton.
  - destruct data as [|k t]; [done|]. unfold forward_client_msg. cbn in Es. rewrite Es. apply Z.eqb_eq in Es as ->.
    destruct H as [Ha Hq Hp Hw Hr]. split; cbn; try done.
    + left. rewrite existsb_app. cbn. by rewrite orb_true_r.
    + destruct (running r); [|by apply queue_ok_mono]. apply queue_ok_send; [by apply queue_ok_mono|].
      split; [|by left]. apply elem_of_app. right. by apply list_elem_of_singleton.
    + destruct (pending_subscribe r); [|done]. destruct Hp. split; [by apply from_client_mono|done].
    + destruct (conn r); [by apply queue_ok_mono|done].
Qed.

Lemma relay_ok_recv ops r : relay_ok ops r -> relay_ok ops (relay_recv r).
Proof.
  intros H. unfold relay_recv. destruct (client_rx r) as [|d q] eqn:Eq.
  { destruct (dropped r) eqn:Ed; [|done]. destruct H as [Ha Hq Hp Hw Hr]. rewrite Ed in Ha. rewrite Eq in Hq.
    split; cbn; try done. intros _. by rewrite orb_true_r. }
  apply relay_ok_guard_relay. destruct H as [Ha Hq Hp Hw Hr]. rewrite Eq in Hq.
  apply queue_ok_tail in Hq as [Hd Hq]. split; cbn; try done.
  - destruct (bool_decide_reflect (head d = Some KIND_QU_SUBSCRIBE)); [done|]. apply Hp.
  - destruct (conn r) as [c|]; [|done]. by apply queue_ok_send.
Qed.

Lemma relay_ok_accept ops r : relay_ok ops r -> relay_ok ops (accept_conn r).
Proof.
  intros H. apply relay_ok_guard_relay, relay_ok_guard_conn, relay_ok_conn; [done|]. cbn.
  destruct H as [_ _ Hp _ _]. assert (H0 : queue_ok ops []) by (split; [constructor|done]).
  destruct (pending_subscribe r); [|done]. by apply queue_ok_send, Hp.
Qed.

Lemma relay_ok_step ops r op : relay_ok ops r -> relay_ok (ops ++ [op]) (relay_step r op).1.
Proof.
  intros H. destruct op as [|bs| | |ok|d| | |];
    try (    by (cbn; destruct (dropped r) eqn:Ed; [by apply relay_ok_other; [right|]|by apply relay_ok_client]));
    (apply relay_ok_other; [by left|]); cbn; pose proof (ok_write_rx _ _ H) as Hw.
  - destruct (running r); [by apply relay_ok_accept|done].
  - destruct (conn r); [by apply relay_ok_conn|done].
  - destruct (conn r); [by apply relay_ok_conn|done].
  - unfold conn_read. destruct (conn r) as [c|]; [|done].
    destruct (read_frame _ _) as [cs av|m av|]; [destruct (closed c)| |]; try by apply relay_ok_conn.
    destruct (handle_socket_frame _ _ m). apply relay_ok_guard_conn, relay_ok_conn; [by destruct H|done].
  - unfold conn_write. destruct (conn r) as [c|]; [|done]. destruct (write_rx c) as [|d q]; [done|].
    apply queue_ok_tail in Hw as [_ Hw]. destruct ok; [|by apply relay_ok_conn].
    by apply relay_ok_guard_conn, relay_ok_conn.
  - destruct (running r); [by apply relay_ok_recv|done].
  - destruct H. by split.
  - destruct H as [Ha Hq Hp Hwr Hr]. split; cbn; try done; [by destruct Ha as [->|[_ ->]]; [left|right]|].
    intros _. by rewrite orb_true_r.
Qed.

Lemma relay_run_snoc r ops op : (relay_run r (ops ++ [op])).1 = (relay_step (relay_run r ops).1 op).1.
Proof.
  revert r. induction ops as [|op' ops IH]; intros r.
  - cbn. by destruct (relay_step r op).
  - change ((op' :: ops) ++ [op]) with (op' :: (ops ++ [op])). rewrite !relay_run_cons. apply IH.
Qed.

Lemma relay_ok_run ops : relay_ok ops (relay_run spawn ops).1.
Proof.
  induction ops as [|op ops IH] using rev_ind; [by split; try left; repeat split|].
  rewrite relay_run_snoc. by apply relay_ok_step.
Qed.

(** In every run of a relay, however its tasks and their peers interleave,
    reconnects and interrupted reads included: the client is sent exactly the
    documented filter of the frames handled; pixels flow only after a
    subscription; whatever is queued for the capture process, and the
    subscription kept for the next connection, is a subscription or a budget the
    client sent; both queues stay within their capacity; the relay ends only
    when superseded or without its handle; and a new connection is first given the kept subscription. *)
Theorem relay_filter ops :
  let r := (relay_run spawn ops).1 in
  (relay_run spawn ops).2 = sent_spec None (handled_run spawn ops) /\
  (active r = existsb is_subscribe ops \/ dropped r = true /\ active r = false) /\
  queue_ok ops (client_rx r) /\
  (forall c, conn r = Some c -> queue_ok ops (write_rx c)) /\
  (forall s, pending_subscribe r = Some s -> from_client ops s /\ head s = Some KIND_QU_SUBSCRIBE) /\
  (running r = false -> superseded r || dropped r = true) /\
  (running r = true -> superseded r = false -> exists c, conn (relay_step r HostConnect).1 = Some c /\
    write_rx c = option_list (pending_subscribe r) /\ consumed c = [] /\ avail c = []).
Proof.
  intros r. destruct (relay_ok_run ops) as [Ha Hq Hp Hw Hr]. fold r in Ha, Hq, Hp, Hw, Hr.
  split; [by rewrite relay_run_route, route_spec|]. do 2 (split; [done|]).
  split; [intros c E; by rewrite E in Hw|]. split; [intros s E; by rewrite E in Hp|]. split; [done|].
  intros Hrun Hs. cbn. rewrite Hrun.
  unfold accept_conn, guard_relay, guard_conn. cbn. rewrite Hs. cbn. rewrite Hs. cbn.
  eexists. split; [done|]. by destruct (pending_subscribe r).
Qed.

(** ** An interrupted read *)

Lemma wire_one m : wire [m] = u32_le (len m) ++ m.
Proof. rewrite wire_cons. change (wire []) with (@nil Z). by rewrite app_nil_r. Qed.

Lemma read_frame_part x y m : frame_ok m -> bytes x -> x ++ y = u32_le (len m) ++ m -> y <> [] ->
  read_frame [] x = Pending x [] /\ reading_ok x.
Proof.
  intros Hm Hx E Hy. assert (Hr : reading_ok []) by by left.
  pose proof (read_frame_conserves [] x Hr (bytes_nil) Hx) as H1.
  pose proof (read_frame_wire [] x y [m] Hr bytes_nil Hx ltac:(by constructor) ltac:(by rewrite wire_one)) as H2.
  destruct (read_frame [] x) as [cs av|m' av|]; [| |done].
  - destruct H1 as (E1 & _ & _ & -> & Hr'). rewrite app_nil_r in E1. by subst cs.
  - destruct H2 as (ms' & [= <- <-] & E2). change (wire []) with (@nil Z) in E2. by apply app_nil in E2 as [_ ?].
Qed.

Lemma read_frame_rest x y m : frame_ok m -> bytes x -> bytes y -> reading_ok x -> x ++ y = u32_le (len m) ++ m ->
  read_frame x y = Frame m [].
Proof.
  intros Hm Hx Hy Hr E.
  pose proof (read_frame_wire x y [] [m] Hr Hx Hy ltac:(by constructor) ltac:(by rewrite app_nil_r, wire_one)) as H.
  destruct (read_frame x y) as [cs av|m' av|]; [by specialize (H eq_refl)| |done].
  destruct H as (ms' & [= <- <-] & E2). change (wire []) with (@nil Z) in E2. by rewrite app_nil_r in E2; subst.
Qed.

(** A client message that is written while a frame is partly read makes the
    relay lose the part: the next read starts in the middle of the frame. So a
    frame whose contents end in what looks like a frame is handled whole when
    the client stays silent, and otherwise its inner bytes are handled, and
    filtered and sent to the client, as a message of their own. *)
Theorem relay_cancel_desync r c d q p f :
  conn r = Some c -> superseded r = false -> consumed c = [] -> avail c = [] -> closed c = false ->
  write_rx c = d :: q -> bytes p -> bytes f -> frame_ok f -> frame_ok (p ++ u32_le (len f) ++ f) ->
  let m := p ++ u32_le (len f) ++ f in
  let first := u32_le (len m) ++ p in
  let rest := u32_le (len f) ++ f in
  handled_run r [HostSend first; ConnRead; HostSend rest; ConnRead; ConnWrite true] = [(active r, m)] /\
  handled_run r [HostSend first; ConnRead; ConnWrite true; HostSend rest; ConnRead] = [(active r, f)] /\
  (relay_run r [HostSend first; ConnRead; ConnWrite true; HostSend rest; ConnRead]).2 =
    sent_spec (epoch r) [(active r, f)].
Proof.
  intros Ec Hs Hcs Hav Hcl Hw Hbp Hbf Hf Hm m first rest.
  assert (Hb1 : bytes first) by (apply bytes_app; [apply bytes_le_bytes|done]).
  assert (Hb2 : bytes rest) by (apply bytes_app; [apply bytes_le_bytes|done]).
  assert (E : first ++ rest = u32_le (len m) ++ m) by (unfold first, rest; by rewrite <- app_assoc).
  destruct (read_frame_part first rest m Hm Hb1 E) as [Hp Hr].
  { intros E0. apply (f_equal len) in E0. unfold rest in E0. rewrite len_app, len_le_bytes in E0.
    pose proof (len_nonneg f). change (len (@nil Z)) with 0 in E0. lia. }
  pose proof (read_frame_rest first rest m Hm Hb1 Hb2 Hr E) as Hwhole.
  pose proof (read_frame_rest [] rest f Hf bytes_nil Hb2 ltac:(by left) eq_refl) as Hinner.
  clearbody first rest.
  assert (H2 : handled_run r [HostSend first; ConnRead; ConnWrite true; HostSend rest; ConnRead] = [(active r, f)]).
  { cbn -[read_frame]. rewrite Ec. cbn -[read_frame]. unfold conn_read. cbn -[read_frame].
    rewrite Hcs, Hav. cbn [app]. rewrite Hp. cbn -[read_frame]. rewrite Hcl. cbn -[read_frame].
    unfold conn_write. cbn -[read_frame]. rewrite Hw. cbn -[read_frame]. unfold guard_conn. cbn -[read_frame].
    rewrite Hs. cbn -[read_frame]. by rewrite Hinner. }
  split; [|split; [done|by rewrite relay_run_route, route_spec, H2]].
  cbn -[read_frame]. rewrite Ec. cbn -[read_frame]. unfold conn_read. cbn -[read_frame].
  rewrite Hcs, Hav. cbn [app]. rewrite Hp. cbn -[read_frame]. rewrite Hcl. cbn -[read_frame]. by rewrite Hwhole.
Qed.

(** A tile whose pixels spell the frame of an epoch, and a budget in between: the
    client is sent an epoch the host never announced. *)
Lemma relay_cancel_desync_witness :
  let f := encode_epoch 99 in
  let p := encode_config 64 64 2 2 7 in
  let r := (relay_run spawn [HostConnect; ClientSend (encode_budget 5); RelayRecv]).1 in
  (relay_run r [HostSend (u32_le (len (p ++ u32_le (len f) ++ f)) ++ p); ConnRead; ConnWrite true;
                HostSend (u32_le (len f) ++ f); ConnRead]).2 = [f].
Proof.
  intros f p r.
  pose proof (relay_cancel_desync r (mkConn [] [] false [encode_budget 5]) (encode_budget 5) [] p f
    eq_refl eq_refl eq_refl eq_refl eq_refl eq_refl ltac:(by_decide) ltac:(by_decide)
    ltac:(split; by vm_compute) ltac:(split; by vm_compute)) as (_ & _ & H).
  cbn zeta in H. rewrite H. vm_compute. reflexivity.
Defined.
