(* ===== verification/QuCompositionSafe.v ===== *)
(** * The client's tile composition: proofs

    Against a reference that looks at the history of operations only: what is on
    screen at a position is what the last accepted tile there left, unless invalidated
    or superseded by an epoch since, and whether an operation is accepted is what the
    epoch and the screen before it say. *)
From S2P Require Import Prelude FecWire QuRelay.

Inductive comp_op : Type :=
| ApplyTile (epoch col row : Z) (decoded : list Z) (crc : Z)
| Invalidate (epoch : Z) (ps : list (Z * Z))
| SetEpoch (new_epoch : Z).

(** The column and row are unsigned. *)
Definition comp_op_ok (op : comp_op) : Prop :=
  match op with ApplyTile _ col row _ _ => 0 <= col /\ 0 <= row | _ => True end.

(** One operation; the result is the outcome of a tile, or whether an
    invalidation was taken. *)
Definition comp_step (q : QuComposition) (op : comp_op) : QuComposition * (TileOutcome + bool) :=
  match op with
  | ApplyTile e c r d crc => let '(q, o) := apply_tile q e c r d crc in (q, inl o)
  | Invalidate e ps => let '(q, b) := apply_invalidate q e ps in (q, inr b)
  | SetEpoch e => (set_epoch q e, inr true)
  end.

Definition history : Type := list (comp_op * (TileOutcome + bool)).

(** The history is kept newest first. *)
Fixpoint comp_run (q : QuComposition) (h : history) (ops : list comp_op) : QuComposition * history :=
  match ops with
  | [] => (q, h)
  | op :: ops => let '(q, o) := comp_step q op in comp_run q ((op, o) :: h) ops
  end.

(** ** The reference *)

Fixpoint epoch_of (e0 : Z) (h : history) : Z :=
  match h with
  | [] => e0
  | (SetEpoch e, _) :: _ => e
  | _ :: h => epoch_of e0 h
  end.

(** The pixels at a position. *)
Fixpoint on_screen (h : history) (p : Z * Z) : option (list Z) :=
  match h with
  | [] => None
  | (SetEpoch _, _) :: _ => None
  | (Invalidate _ ps, inr true) :: h => if bool_decide (p ∈ ps) then None else on_screen h p
  | (ApplyTile _ c r d _, inl TileApplied) :: h => if bool_decide (p = (c, r)) then Some d else on_screen h p
  | _ :: h => on_screen h p
  end.

(** The positions tiles were sent for, and the bytes on screen, at one position left out. *)
Definition placed (h : history) : list (Z * Z) :=
  remove_dups (h ≫= (fun e => match e.1 with ApplyTile _ c r _ _ => [(c, r)] | _ => [] end)).
Definition bytes_at (h : history) (p : Z * Z) : Z := match on_screen h p with Some d => len d | None => 0 end.
Definition bytes_shown (h : history) : Z := foldr (fun p n => bytes_at h p + n) 0 (placed h).
Definition bytes_elsewhere (h : history) (p : Z * Z) : Z :=
  foldr (fun p' n => (if bool_decide (p' = p) then 0 else bytes_at h p') + n) 0 (placed h).

(** The outcome an operation must have after a history. *)
Definition due (gc gr e0 mb : Z) (h : history) (op : comp_op) : TileOutcome + bool :=
  match op with
  | ApplyTile e c r d crc =>
      inl (if negb (e =? epoch_of e0 h) then StaleEpoch
           else if negb ((c <? gc) && (r <? gr)) then OutOfGrid
           else if negb (crc32 d =? crc) then TileCrcMismatch
           else if mb <? bytes_elsewhere h (c, r) + len d then OverBudget else TileApplied)
  | Invalidate e _ => inr (e =? epoch_of e0 h)
  | SetEpoch _ => inr true
  end.

Fixpoint all_due (gc gr e0 mb : Z) (h : history) : Prop :=
  match h with [] => True | (op, o) :: h => o = due gc gr e0 mb h op /\ all_due gc gr e0 mb h end.

Definition stored (d : list Z) : StoredTile := mkStored (len d) (crc32 d).

Definition held (q : QuComposition) : Z := map_cost tile_bytes (tiles q).

(** The bytes the other positions hold. *)
Definition held_elsewhere (q : QuComposition) (p : Z * Z) : Z := map_cost tile_bytes (delete p (tiles q)).

Record comp_ok (e0 : Z) (h : history) (q : QuComposition) : Prop := {
  co_epoch : qc_epoch q = epoch_of e0 h;
  co_used : used_bytes q = held q;
  co_budget : held q <= max_bytes q;
  co_grid : forall c r, is_Some (tiles q !! (c, r)) -> 0 <= c < grid_cols q /\ 0 <= r < grid_rows q;
  co_tiles : forall p, tiles q !! p = stored <$> on_screen h p
}.

Lemma map_cost_lookup (m : gmap (Z * Z) StoredTile) p :
  map_cost tile_bytes m =
    match m !! p with Some t => tile_bytes t | None => 0 end + map_cost tile_bytes (delete p m).
Proof.
  destruct (m !! p) as [t|] eqn:E; [by apply map_cost_delete|]. by rewrite delete_id.
Qed.

(** What accepting a tile takes, and what it would hold. *)
Lemma apply_tile_outcome q e c r d crc : used_bytes q = held q ->
  (apply_tile q e c r d crc).2 =
    if negb (e =? qc_epoch q) then StaleEpoch
    else if negb ((c <? grid_cols q) && (r <? grid_rows q)) then OutOfGrid
    else if negb (crc32 d =? crc) then TileCrcMismatch
    else if max_bytes q <? held_elsewhere q (c, r) + len d then OverBudget else TileApplied.
Proof.
  intros Hu. unfold apply_tile. rewrite Hu. unfold held, held_elsewhere. rewrite (map_cost_lookup _ (c, r)).
  destruct (e =? _); cbn [negb]; [|done].
  replace (negb ((c <? grid_cols q) && (r <? grid_rows q))) with ((grid_cols q <=? c) || (grid_rows q <=? r))
    by (rewrite negb_andb, !Z.leb_antisym; done).
  destruct (_ || _); [done|]. destruct (crc32 d =? crc); cbn [negb]; [|done].
  match goal with |- context [if ?a <? ?b then _ else _] => replace b with (held_elsewhere q (c, r) + len d)
    by (unfold held_elsewhere; lia) end.
  unfold held_elsewhere. by destruct (_ <? _).
Qed.

(** Removing positions: their bytes are given back, one by one. *)
Lemma remove_tiles_spec used ts ps :
  used = map_cost tile_bytes ts -> (forall p t, ts !! p = Some t -> 0 <= tile_bytes t) ->
  let '(used', ts') := remove_tiles used ts ps in
  used' = map_cost tile_bytes ts' /\ used' <= used /\
  forall p, ts' !! p = if bool_decide (p ∈ ps) then None else ts !! p.
Proof.
  revert used ts. induction ps as [|p ps IH]; intros used ts Hu Hn; cbn.
  { split; [done|]. split; [lia|]. intros p. by rewrite bool_decide_false by apply not_elem_of_nil. }
  assert (Hps : forall p', p' <> p -> bool_decide (p' ∈ p :: ps) = bool_decide (p' ∈ ps)).
  { intros p' Hne. apply bool_decide_ext. rewrite elem_of_cons. tauto. }
  assert (Hp : bool_decide (p ∈ p :: ps) = true) by (apply bool_decide_true; by left).
  destruct (ts !! p) as [t|] eqn:E.
  - specialize (IH (used - tile_bytes t) (delete p ts)).
    rewrite (map_cost_delete tile_bytes ts p t E) in Hu. specialize (Hn p t E) as Ht.
    specialize (IH ltac:(lia) ltac:(intros p' t' H; apply lookup_delete_Some in H; apply (Hn p'), H)).
    destruct (remove_tiles _ _ ps) as [u' ts']. destruct IH as (? & ? & IH). split; [done|]. split; [lia|].
    intros p'. rewrite IH. destruct (decide (p' = p)) as [->|Hne].
    + rewrite lookup_delete_eq, Hp. by case_match.
    + by rewrite lookup_delete_ne, Hps by done.
  - specialize (IH used ts Hu Hn). destruct (remove_tiles _ _ ps) as [u' ts']. destruct IH as (? & ? & IH).
    do 2 (split; [done|]). intros p'. rewrite IH. destruct (decide (p' = p)) as [->|Hne].
    + rewrite E, Hp. by case_match.
    + by rewrite Hps.
Qed.

(** A sum over a map is one over any list of its keys. *)
Lemma map_cost_keys (m : gmap (Z * Z) StoredTile) l :
  NoDup l -> (forall p, is_Some (m !! p) -> p ∈ l) ->
  map_cost tile_bytes m = foldr (fun p n => match m !! p with Some t => tile_bytes t | None => 0 end + n) 0 l.
Proof.
  revert m. induction l as [|p l IH]; intros m Hl Hin.
  - assert (E : m = ∅) by (apply map_empty; intros p; apply eq_None_not_Some; intros H; by apply Hin, elem_of_nil in H).
    by rewrite E, map_cost_empty.
  - apply NoDup_cons in Hl as [Hp Hl]. rewrite (map_cost_lookup m p), (IH (delete p m) Hl).
    + cbn [foldr]. f_equal. clear -Hp. induction l as [|p' l IH]; [done|]. apply not_elem_of_cons in Hp as [Hne Hp].
      cbn [foldr]. by rewrite lookup_delete_ne, IH.
    + intros p' [t Ht]. apply lookup_delete_Some in Ht as [Hne Ht]. specialize (Hin p' ltac:(by exists t)).
      by apply elem_of_cons in Hin as [->|Hin].
Qed.

Lemma on_screen_placed h p : is_Some (on_screen h p) -> p ∈ placed h.
Proof.
  unfold placed. rewrite elem_of_remove_dups. induction h as [|[op o] h IH]; [by intros [? ?]|].
  rewrite bind_cons, elem_of_app. cbn [fst]. intros H.
  assert (Hor : (exists e c r d crc, op = ApplyTile e c r d crc /\ p = (c, r)) \/ is_Some (on_screen h p)).
  { destruct op as [e c r d crc|e ps|e]; cbn [on_screen] in H; [|destruct o as [|[]]; auto; case_bool_decide; [by destruct H|auto]|by destruct H].
    destruct o as [[]|]; auto. case_bool_decide; [left; by exists e, c, r, d, crc|auto]. }
  destruct Hor as [(e & c & r & d & crc & -> & ->)|Hs]; [left; by left|right; auto].
Qed.

Lemma tile_bytes_stored o : match stored <$> o with Some t => tile_bytes t | None => 0 end = match o with Some d => len d | None => 0 end.
Proof. by destruct o. Qed.

Lemma held_shown e0 h q : comp_ok e0 h q -> held q = bytes_shown h.
Proof.
  intros [_ _ _ _ Ht]. unfold held, bytes_shown. rewrite (map_cost_keys _ (placed h)).
  - unfold bytes_at. induction (placed h) as [|p l IH]; [done|]. cbn [foldr]. by rewrite Ht, tile_bytes_stored, IH.
  - apply NoDup_remove_dups.
  - intros p Hp. apply on_screen_placed. rewrite Ht in Hp. by apply fmap_is_Some in Hp.
Qed.

Lemma held_elsewhere_shown e0 h q p : comp_ok e0 h q -> held_elsewhere q p = bytes_elsewhere h p.
Proof.
  intros [_ _ _ _ Ht]. unfold held_elsewhere, bytes_elsewhere. rewrite (map_cost_keys _ (placed h)).
  - unfold bytes_at. induction (placed h) as [|p' l IH]; [done|]. cbn [foldr]. rewrite IH. f_equal.
    case_bool_decide as E; [by rewrite E, lookup_delete_eq|]. by rewrite lookup_delete_ne, Ht, tile_bytes_stored.
  - apply NoDup_remove_dups.
  - intros p' [t Hp]. apply lookup_delete_Some in Hp as [_ Hp]. apply on_screen_placed. rewrite Ht in Hp.
    apply fmap_is_Some with (f := stored). by exists t.
Qed.

Lemma comp_step_due e0 h q op : comp_ok e0 h q ->
  (comp_step q op).2 = due (grid_cols q) (grid_rows q) e0 (max_bytes q) h op.
Proof.
  intros H. destruct op as [e c r d crc|e ps|e]; cbn [comp_step due]; [| |done].
  - pose proof (apply_tile_outcome q e c r d crc (co_used _ _ _ H)) as E. destruct (apply_tile q e c r d crc) as [q' o].
    cbn [snd] in *. by rewrite E, (co_epoch _ _ _ H), (held_elsewhere_shown _ _ _ _ H).
  - unfold apply_invalidate. rewrite (co_epoch _ _ _ H). destruct (e =? _); cbn [negb]; [|done]. by destruct (remove_tiles _ _ ps).
Qed.

Lemma comp_ok_stored e0 h q p t : comp_ok e0 h q -> tiles q !! p = Some t -> 0 <= tile_bytes t.
Proof.
  intros [_ _ _ _ Ht] E. rewrite Ht in E. destruct (on_screen h p); [|done].
  apply (inj Some) in E as <-. apply len_nonneg.
Qed.

(** A result that changes nothing. *)
Lemma comp_ok_same e0 h q op o :
  match op, o with
  | SetEpoch _, _ | Invalidate _ _, inr true | ApplyTile _ _ _ _ _, inl TileApplied => False
  | _, _ => True
  end -> comp_ok e0 h q -> comp_ok e0 ((op, o) :: h) q.
Proof. intros Ho [? ? ? ? ?]. destruct op; destruct o as [[]|[]]; try done; by split. Qed.

Lemma comp_ok_step e0 h q op :
  comp_op_ok op -> 0 <= max_bytes q -> comp_ok e0 h q ->
  let '(q', o) := comp_step q op in comp_ok e0 ((op, o) :: h) q'.
Proof.
  intros Hop Hmax H. pose proof H as [He Hu Hb Hg Ht]. destruct op as [e c r d crc|e ps|e]; cbn.
  - destruct (apply_tile q e c r d crc) as [q' o] eqn:Ea. unfold apply_tile in Ea.
    destruct (e =? _); cbn [negb] in Ea; [|injection Ea as <- <-; by apply comp_ok_same].
    destruct (_ || _) eqn:Eg; [injection Ea as <- <-; by apply comp_ok_same|].
    destruct (Z.eqb_spec (crc32 d) crc) as [<-|]; cbn [negb] in Ea; [|injection Ea as <- <-; by apply comp_ok_same].
    destruct (Z.ltb_spec (max_bytes q) (used_bytes q - match tiles q !! (c, r) with Some t => tile_bytes t | None => 0 end + len d))
      as [|Hfit]; [injection Ea as <- <-; by apply comp_ok_same|]. injection Ea as <- <-.
    apply orb_false_elim in Eg as [Ec%Z.leb_gt Er%Z.leb_gt]. destruct Hop as [Hc0 Hr0].
    assert (Hh : map_cost tile_bytes (<[(c, r) := stored d]> (tiles q)) =
                 used_bytes q - match tiles q !! (c, r) with Some t => tile_bytes t | None => 0 end + len d).
    { rewrite Hu. unfold held. rewrite <- insert_delete_eq, map_cost_insert_new by apply lookup_delete_eq.
      rewrite (map_cost_lookup (tiles q) (c, r)). cbn. lia. }
    split; cbn; try done; unfold held; cbn.
    + fold (stored d). lia.
    + intros c' r' Hs. destruct (decide ((c', r') = (c, r))) as [[= -> ->]|Hne]; [lia|].
      rewrite lookup_insert_ne in Hs by done. by apply Hg.
    + intros p. destruct (decide (p = (c, r))) as [->|Hne].
      * by rewrite lookup_insert_eq, bool_decide_true.
      * by rewrite lookup_insert_ne, bool_decide_false.
  - unfold apply_invalidate. destruct (e =? _); cbn [negb]; [|by apply comp_ok_same].
    pose proof (remove_tiles_spec (used_bytes q) (tiles q) ps Hu (fun p t => comp_ok_stored e0 h q p t H)) as Hrm.
    destruct (remove_tiles _ _ ps) as [u' ts']. destruct Hrm as (-> & Hle & Hl).
    split; cbn; try done; unfold held in *; cbn.
    + lia.
    + intros c r Hs. rewrite Hl in Hs. case_match; [by destruct Hs|]. by apply Hg.
    + intros p. rewrite Hl. by case_match.
  - split; cbn; try done; unfold held; cbn; rewrite ?map_cost_empty; try done.
    intros c r [? Hs]. by rewrite lookup_empty in Hs.
Qed.

Lemma comp_step_params q op : let '(q', _) := comp_step q op in
  max_bytes q' = max_bytes q /\ grid_cols q' = grid_cols q /\ grid_rows q' = grid_rows q.
Proof.
  destruct op as [e c r d crc|e ps|e]; cbn; [| |done].
  - unfold apply_tile. by repeat case_match; simplify_eq.
  - unfold apply_invalidate. destruct (negb _); [done|]. by destruct (remove_tiles _ _ _).
Qed.

Lemma comp_ok_run e0 h q ops :
  Forall comp_op_ok ops -> 0 <= max_bytes q -> comp_ok e0 h q -> all_due (grid_cols q) (grid_rows q) e0 (max_bytes q) h ->
  let '(q', h') := comp_run q h ops in
  comp_ok e0 h' q' /\ all_due (grid_cols q) (grid_rows q) e0 (max_bytes q) h' /\ h'.*1 = reverse ops ++ h.*1 /\
  max_bytes q' = max_bytes q /\ grid_cols q' = grid_cols q /\ grid_rows q' = grid_rows q.
Proof.
  revert q h. induction ops as [|op ops IH]; intros q h Hops Hm H Hd; [done|]. cbn [comp_run].
  inversion Hops as [|? ? Hop Hops']; subst.
  pose proof (comp_ok_step e0 h q op Hop Hm H) as H1. pose proof (comp_step_params q op) as Hpar.
  pose proof (comp_step_due e0 h q op H) as Hdue. destruct (comp_step q op) as [q1 o]. cbn [snd] in Hdue.
  destruct Hpar as (Em & Ec & Er).
  specialize (IH q1 ((op, o) :: h) Hops' ltac:(lia) H1). rewrite Em, Ec, Er in IH. specialize (IH ltac:(by split)).
  destruct (comp_run q1 _ ops) as [q2 h2]. destruct IH as (? & ? & E & ? & ? & ?). split_and!; try done.
  by rewrite E, reverse_cons, <- app_assoc.
Qed.

Lemma comp_ok_new tw th gc gr e mb : 0 <= mb -> comp_ok e [] (composition_new tw th gc gr e mb).
Proof.
  intros Hmb. split; cbn; try done; unfold held; cbn; rewrite ?map_cost_empty; try done.
  intros c r [? Hs]. by rewrite lookup_empty in Hs.
Qed.

(** C21: Whatever tiles, invalidations and epochs arrive in whatever order, the
    composition is what the operations so far say: every operation has the outcome due
    by the epoch and the screen before it (a tile is accepted exactly when it is of the
    current epoch, inside the grid, has the declared checksum and fits in the budget
    beside what the other positions show, and each refusal has its own outcome, in that
    order; an invalidation is taken exactly when it is of the current epoch), and so has
    the next one. Each position holds the tile last accepted there, its pixels' length
    and checksum, unless an invalidation taken or an epoch has removed it since, every
    position is inside the grid, and the bytes counted are those on screen, never more
    than the budget. *)
Theorem composition_follows_history tw th gc gr e0 mb ops :
  0 <= mb -> Forall comp_op_ok ops ->
  let '(q, h) := comp_run (composition_new tw th gc gr e0 mb) [] ops in
  h.*1 = reverse ops /\ all_due gc gr e0 mb h /\
  qc_epoch q = epoch_of e0 h /\
  (forall p, tiles q !! p = stored <$> on_screen h p) /\
  (forall c r, has_tile q c r = true -> 0 <= c < gc /\ 0 <= r < gr) /\
  used_bytes q = bytes_shown h /\ used_bytes q <= mb /\
  (forall op, (comp_step q op).2 = due gc gr e0 mb h op).
Proof.
  intros Hmb Hops. pose proof (comp_ok_run e0 [] (composition_new tw th gc gr e0 mb) ops Hops Hmb (comp_ok_new _ _ _ _ _ _ Hmb) I) as H.
  destruct (comp_run _ [] ops) as [q h]. destruct H as (H & Hd & Eh & Em & Ec & Er). pose proof H as [He Hu Hb Hg Ht].
  cbn [composition_new grid_cols grid_rows max_bytes] in Em, Ec, Er, Hd.
  split; [by rewrite Eh, app_nil_r|]. do 3 (split; [done|]). split.
  { intros c r Hs%bool_decide_eq_true_1. rewrite <- Ec, <- Er. by apply Hg. }
  split; [by rewrite Hu, (held_shown _ _ _ H)|]. split; [lia|].
  intros op. by rewrite (comp_step_due _ _ _ op H), Ec, Er, Em.
Qed.

(** A tile too many, a replacement that fits, an invalidation and a stale tile. *)
Lemma composition_follows_history_witness :
  let d := [1; 2; 3] in
  let ops := [ApplyTile 7 0 0 d (crc32 d); ApplyTile 7 1 0 d (crc32 d); ApplyTile 7 0 0 [4] (crc32 [4]);
              ApplyTile 7 1 1 d (crc32 d); Invalidate 7 [(1, 1)]; ApplyTile 6 0 0 d (crc32 d)] in
  let '(q, h) := comp_run (composition_new 64 64 2 2 7 5) [] ops in
  h.*2 = [inl StaleEpoch; inr true; inl TileApplied; inl TileApplied; inl OverBudget; inl TileApplied] /\
  used_bytes q <= 5.
Proof.
  intros d ops.
  pose proof (composition_follows_history 64 64 2 2 7 5 ops ltac:(lia) ltac:(repeat constructor; cbn; lia)) as H.
  assert (E : (comp_run (composition_new 64 64 2 2 7 5) [] ops).2.*2 =
    [inl StaleEpoch; inr true; inl TileApplied; inl TileApplied; inl OverBudget; inl TileApplied])
    by (vm_compute; reflexivity).
  destruct (comp_run _ _ ops) as [q h]. split; [exact E|]. destruct H as (_ & _ & _ & _ & _ & _ & H & _). exact H.
Defined.
