(* ===== verification/AnnexB.v ===== *)
(** * The Annex B splitter (streamer/src/transport/webrtc/video/annexb.rs)

    Cuts a byte stream into NAL units at start codes. The readers of the
    streamer are cursors over a frame's bytes, whose reads never fail. *)
From S2P Require Import Prelude.

Inductive AnnexBStartCode : Type := B3 | B4.

#[export] Instance start_code_eq_dec : EqDecision AnnexBStartCode.
Proof. solve_decision. Defined.

Definition code (c : AnnexBStartCode) : list Z := match c with B3 => [0; 0; 1] | B4 => [0; 0; 0; 1] end.

(** The payload's range is [payload_start .. length full]. *)
Record AnnexBData := mkAnnexB {
  start_code : AnnexBStartCode;
  full : list Z
}.

Definition payload_start (d : AnnexBData) : nat := length (code (start_code d)).

Record Splitter := mkSplitter {
  (** What the reader has left. *)
  reader : list Z;
  start_code_buffer : list Z;
  current_start_code : option AnnexBStartCode;
  buffer : list Z
}.

Definition fresh_window : list Z := [2; 2; 2; 2].

Definition splitter_new (r : list Z) : Splitter := mkSplitter r fresh_window None [].

Definition start_code_of (w : list Z) : option AnnexBStartCode :=
  match w with
  | [a; b; c; d] => if (b =? 0) && (c =? 0) && (d =? 1) then Some (if a =? 0 then B4 else B3) else None
  | _ => None
  end.

(** [rotate_left(1)], and the byte at the end. *)
Definition rotate (w : list Z) (b : Z) : list Z := tail w ++ [b].

(** [next_annex_b_start_code]: what it found, and the reader, the window and the
    buffer it leaves. *)
Fixpoint next_annex_b_start_code (buffer_bytes : bool) (r w buf : list Z) :
    option AnnexBStartCode * list Z * list Z * list Z :=
  match start_code_of w with
  | Some c => (Some c, r, w, buf)
  | None =>
      match r with
      | [] => (None, [], w, buf)
      | b :: r => next_annex_b_start_code buffer_bytes r (rotate w b) (if buffer_bytes then buf ++ [b] else buf)
      end
  end.

(** The part of [next] that starts at a start code. *)
Definition next_from (c : AnnexBStartCode) (r w buf : list Z) : Splitter * option AnnexBData :=
  let '(found, r, w, buf) := next_annex_b_start_code true r w buf in
  match found with
  | None => (mkSplitter r w None [], Some (mkAnnexB c buf))
  | Some c' =>
      (mkSplitter r fresh_window (Some c') (code c'), Some (mkAnnexB c (take (length buf - length (code c')) buf)))
  end.

Definition next (s : Splitter) : Splitter * option AnnexBData :=
  match current_start_code s with
  | Some c => next_from c (reader s) (start_code_buffer s) (buffer s)
  | None =>
      let '(found, r, w, buf) := next_annex_b_start_code false (reader s) (start_code_buffer s) (buffer s) in
      match found with
      | None => (mkSplitter r w None buf, None)
      | Some c => next_from c r fresh_window (buf ++ code c)
      end
  end.

(** [while let Ok(Some(x)) = step()], the items in order; [None] when a step
    panics. The fuel is the number of rounds. *)
Fixpoint read_all {A} (step : Splitter -> option (Splitter * option A)) (fuel : nat) (s : Splitter) :
    option (Splitter * list A) :=
  match fuel with
  | O => None
  | S fuel =>
      match step s with
      | None => None
      | Some (s, None) => Some (s, [])
      | Some (s, Some x) =>
          match read_all step fuel s with Some (s, xs) => Some (s, x :: xs) | None => None end
      end
  end.

(** One round per byte and start code is enough. *)
Definition rounds (s : Splitter) : nat := length (reader s) + 3.

(** Reads the old reader to its end first. *)
Definition reset (s : Splitter) (new_reader : list Z) : option Splitter :=
  match read_all (fun s => Some (next s)) (rounds s) s with
  | None => None
  | Some (s, _) => Some (mkSplitter new_reader (start_code_buffer s) (current_start_code s) (buffer s))
  end.

(** ** The window *)

Definition window (w k : list Z) : list Z := foldl rotate w k.

Lemma window_app w k k' : window w (k ++ k') = window (window w k) k'.
Proof. apply foldl_app. Qed.

Lemma length_rotate w b : (0 < length w)%nat -> length (rotate w b) = length w.
Proof. destruct w as [|x w]; cbn; [lia|]. intros _. rewrite length_app. cbn. lia. Qed.

Lemma window_spec w k : (0 < length w)%nat -> window w k = drop (length k) (w ++ k).
Proof.
  revert w. induction k as [|b k IH]; intros w Hw; [by rewrite app_nil_r, drop_0|].
  cbn [window foldl]. fold (window (rotate w b) k). rewrite IH by (rewrite length_rotate; lia).
  destruct w as [|x w]; [cbn in Hw; lia|]. cbn. by rewrite <- app_assoc.
Qed.

Lemma start_code_of_Some w c : start_code_of w = Some c ->
  exists a, w = [a; 0; 0; 1] /\ c = if a =? 0 then B4 else B3.
Proof.
  destruct w as [|a [|b [|x [|d [|]]]]]; try done. cbn.
  destruct (Z.eqb_spec b 0) as [->|]; [|done]. destruct (Z.eqb_spec x 0) as [->|]; [|done].
  destruct (Z.eqb_spec d 1) as [->|]; [|done]. cbn. intros [= <-]. by exists a.
Qed.

(** ** Searching *)

(** No start code before the end of [k]. *)
Fixpoint quiet (w k : list Z) : bool :=
  match k with
  | [] => true
  | b :: k => bool_decide (start_code_of w = None) && quiet (rotate w b) k
  end.

Lemma search_found keep w k r buf c :
  quiet w k = true -> start_code_of (window w k) = Some c ->
  next_annex_b_start_code keep (k ++ r) w buf = (Some c, r, window w k, if keep then buf ++ k else buf).
Proof.
  revert w buf. induction k as [|b k IH]; intros w buf Hq Hc.
  - cbn in Hc. destruct keep; [rewrite app_nil_r|]; destruct r; cbn; by rewrite Hc.
  - apply andb_prop in Hq as [Hw%bool_decide_eq_true_1 Hq]. cbn [app next_annex_b_start_code]. rewrite Hw.
    rewrite IH by done. destruct keep; [by rewrite <- app_assoc|done].
Qed.

Lemma search_end keep w k buf :
  quiet w k = true -> start_code_of (window w k) = None ->
  next_annex_b_start_code keep k w buf = (None, [], window w k, if keep then buf ++ k else buf).
Proof.
  revert w buf. induction k as [|b k IH]; intros w buf Hq Hc.
  - cbn in *. rewrite Hc. by destruct keep; [rewrite app_nil_r|].
  - apply andb_prop in Hq as [Hw%bool_decide_eq_true_1 Hq]. cbn [next_annex_b_start_code]. rewrite Hw.
    rewrite IH by done. destruct keep; [by rewrite <- app_assoc|done].
Qed.

(** Every search ends in one of the two ways. *)
Lemma search_cases w r : exists k,
  quiet w k = true /\
  ((exists c r', r = k ++ r' /\ start_code_of (window w k) = Some c) \/
   (r = k /\ start_code_of (window w k) = None)).
Proof.
  revert w. induction r as [|b r IH]; intros w; destruct (start_code_of w) as [c|] eqn:E.
  - exists []. split; [done|]. left. by exists c, [].
  - exists []. split; [done|]. by right.
  - exists []. split; [done|]. left. by exists c, (b :: r).
  - destruct (IH (rotate w b)) as (k & Hq & Hk). exists (b :: k). cbn [quiet]. rewrite bool_decide_true by done.
    split; [done|]. destruct Hk as [(c & r' & -> & Hc)|[-> Hc]]; [left; by exists c, r'|by right].
Qed.

Lemma quiet_app w k k' : quiet w (k ++ k') = quiet w k && quiet (window w k) k'.
Proof.
  revert w. induction k as [|b k IH]; intros w; [done|]. cbn. rewrite IH. by rewrite andb_assoc.
Qed.

Lemma quiet_iff w k : quiet w k = true <->
  forall q q', k = q ++ q' -> q' <> [] -> start_code_of (window w q) = None.
Proof.
  split.
  - intros H q q' -> Hne. rewrite quiet_app in H. apply andb_prop in H as [_ H]. destruct q' as [|b q']; [done|].
    by apply andb_prop in H as [H%bool_decide_eq_true_1 _].
  - revert w. induction k as [|b k IH]; intros w H; [done|]. cbn. apply andb_true_intro. split.
    + apply bool_decide_eq_true_2. by apply (H [] (b :: k)).
    + apply IH. intros q q' -> Hne. by apply (H (b :: q) q').
Qed.

(** ** Start codes in a list *)

(** [0 0 1] occurs nowhere. *)
Fixpoint no_code (k : list Z) : bool :=
  match k with
  | [] => true
  | _ :: t => negb (bool_decide (take 3 k = [0; 0; 1])) && no_code t
  end.

Lemma no_code_iff k : no_code k = true <-> forall u v, k <> u ++ [0; 0; 1] ++ v.
Proof.
  split.
  - intros H u. revert k H. induction u as [|x u IH]; intros k H v ->; [done|].
    cbn [app no_code] in H. apply andb_prop in H as [_ H]. by apply (IH _ H v).
  - induction k as [|x k IH]; intros H; [done|]. cbn [no_code]. apply andb_true_intro. split.
    + apply negb_true_iff, bool_decide_eq_false. intros E. apply (H [] (drop 3 (x :: k))).
      by rewrite <- E, app_nil_l, take_drop.
    + apply IH. intros u v ->. by apply (H (x :: u) v).
Qed.

(** What a match from a fresh window says of the bytes read. *)
Lemma fresh_match k c : start_code_of (window fresh_window k) = Some c -> exists k0, k = k0 ++ code c.
Proof.
  intros H. apply start_code_of_Some in H as (a & Hw & ->). rewrite window_spec in Hw by (cbn; lia).
  assert (E : fresh_window ++ k = take (length k) (fresh_window ++ k) ++ [a; 0; 0; 1]) by (by rewrite <- Hw, take_drop).
  revert E. generalize (take (length k) (fresh_window ++ k)). intros u E.
  destruct u as [|u1 [|u2 [|u3 [|u4 u]]]]; cbn in E.
  1-3: by (injection E; intros; lia).
  - injection E as <- <- <- <- ->. by exists [].
  - injection E as _ _ _ _ ->. destruct (Z.eqb_spec a 0) as [->|]; [by exists u|]. exists (u ++ [a]). by rewrite <- app_assoc.
Qed.

Lemma fresh_matches u : start_code_of (window fresh_window (u ++ [0; 0; 1])) <> None.
Proof.
  rewrite window_app. set (w := window fresh_window u).
  assert (Hl : length w = 4%nat).
  { unfold w. rewrite window_spec by (cbn; lia). rewrite length_drop, length_app. cbn. lia. }
  destruct w as [|a [|b [|c [|d [|]]]]]; try done.
Qed.

Lemma quiet_no_code k k' : quiet fresh_window (k ++ k') = true -> k' <> [] -> no_code k = true.
Proof.
  rewrite quiet_iff. intros H Hne. apply no_code_iff. intros u v ->.
  apply (fresh_matches u). apply (H _ (v ++ k')); [by rewrite <- !app_assoc|]. by destruct v.
Qed.

Lemma quiet_end k : quiet fresh_window k = true -> start_code_of (window fresh_window k) = None -> no_code k = true.
Proof.
  intros Hq Hc. apply no_code_iff. intros u v ->. rewrite quiet_iff in Hq. apply (fresh_matches u).
  destruct v as [|b v]; [by rewrite app_nil_r in Hc|]. apply (Hq _ (b :: v)); [by rewrite <- app_assoc|done].
Qed.

Lemma no_code_quiet k : no_code k = true -> quiet fresh_window k = true /\ start_code_of (window fresh_window k) = None.
Proof.
  rewrite no_code_iff. intros H. assert (Hq : forall q q', k = q ++ q' -> start_code_of (window fresh_window q) = None).
  { intros q q' ->. destruct (start_code_of _) as [c|] eqn:E; [|done]. apply fresh_match in E as [k0 ->].
    exfalso. destruct c; [apply (H k0 q')|apply (H (k0 ++ [0]) q')]; by rewrite <- !app_assoc. }
  split; [|by apply (Hq k []); rewrite app_nil_r]. apply quiet_iff. intros q q' E _. by eapply Hq.
Qed.

(** ** One step *)

(** Between start codes the window is fresh and the buffer holds the last one; after a
    stream's end the window holds no start code and nothing is buffered. *)
Definition splitter_ok (s : Splitter) : Prop :=
  match current_start_code s with
  | Some c => start_code_buffer s = fresh_window /\ buffer s = code c
  | None => buffer s = [] /\ length (start_code_buffer s) = 4%nat /\ start_code_of (start_code_buffer s) = None
  end.

Definition idle (s : Splitter) : Prop := splitter_ok s /\ current_start_code s = None /\ reader s = [].

Lemma length_window w k : (0 < length w)%nat -> length (window w k) = length w.
Proof. intros Hw. rewrite window_spec by done. rewrite length_drop, length_app. lia. Qed.

(** What one unit is, and what is left: all the bytes are kept. *)
Lemma next_from_spec c r :
  let '(s, d) := next_from c r fresh_window (code c) in
  splitter_ok s /\
  exists nal, d = Some (mkAnnexB c (code c ++ nal)) /\ no_code nal = true /\
    match current_start_code s with
    | Some c' => r = nal ++ code c' ++ reader s
    | None => r = nal /\ reader s = []
    end.
Proof.
  unfold next_from. destruct (search_cases fresh_window r) as (k & Hq & [(c' & r' & -> & Hc)|[-> Hc]]).
  - rewrite (search_found _ _ _ _ _ _ Hq Hc). destruct (fresh_match k c' Hc) as [nal ->]. split; [done|].
    exists nal. cbn [current_start_code reader]. rewrite <- app_assoc. split; [|split; [|done]].
    + rewrite app_assoc. replace (length ((code c ++ nal) ++ code c') - length (code c'))%nat with (length (code c ++ nal))
        by (rewrite (length_app (code c ++ nal)); lia). by rewrite take_app_length.
    + by apply (quiet_no_code nal (code c')); [|by destruct c'].
  - rewrite (search_end _ _ _ _ Hq Hc). split; [split; [done|split; [apply (length_window fresh_window); cbn; lia|done]]|].
    exists k. split; [done|]. split; [by apply quiet_end|done].
Qed.

Definition next_step (s : Splitter) : option (Splitter * option AnnexBData) := Some (next s).

Definition measure (s : Splitter) : nat :=
  length (reader s) + match current_start_code s with Some _ => 1 | None => 0 end.

(** A unit: its start code and bytes without another. *)
Definition unit_ok (d : AnnexBData) : Prop :=
  exists nal, full d = code (start_code d) ++ nal /\ no_code nal = true.

Lemma read_from_code fuel s c :
  splitter_ok s -> current_start_code s = Some c -> (measure s < fuel)%nat ->
  exists s' ds, read_all next_step fuel s = Some (s', ds) /\ idle s' /\
    code c ++ reader s = (ds ≫= full) /\ Forall unit_ok ds.
Proof.
  revert s c. induction fuel as [|fuel IH]; intros s c Hok Hc Hm; [lia|].
  cbn [read_all]. unfold next_step at 1, next. unfold splitter_ok in Hok. rewrite Hc in *. destruct Hok as [-> ->].
  pose proof (next_from_spec c (reader s)) as H. destruct (next_from _ _ _ _) as [s1 d].
  destruct H as (Hok & nal & -> & Hn & H). assert (Hu : unit_ok (mkAnnexB c (code c ++ nal))) by by exists nal.
  destruct (current_start_code s1) as [c1|] eqn:Hc1.
  - destruct (IH s1 c1 Hok Hc1) as (s' & ds & -> & Hi & E & Hds).
    { unfold measure in *. rewrite Hc1. rewrite H, Hc, !length_app in Hm. destruct c1; cbn in Hm; lia. }
    exists s', (mkAnnexB c (code c ++ nal) :: ds). split; [done|]. split; [done|].
    rewrite bind_cons, <- E, H. cbn [full]. rewrite <- app_assoc. split; [done|by constructor].
  - destruct H as [-> Hr]. assert (Hi : idle s1) by done.
    destruct fuel as [|fuel]; [unfold measure in Hm; rewrite Hc in Hm; lia|]. cbn [read_all].
    unfold next_step at 1, next. rewrite Hc1, Hr. unfold splitter_ok in Hok. rewrite Hc1 in Hok. destruct Hok as (Hb & Hl & Hw).
    rewrite Hb. cbn [next_annex_b_start_code]. rewrite Hw.
    eexists _, [_]. split; [done|]. split; [done|]. cbn. rewrite app_nil_r. split; [done|by constructor].
Qed.

(** Nothing is left in a reader that is idle. *)
Lemma reset_idle s r : idle s -> reset s r = Some (mkSplitter r (start_code_buffer s) None []).
Proof.
  destruct s as [r0 w c b]. intros (Hok & Hc & Hr). cbn in Hc, Hr. subst. destruct Hok as (Hb & Hl & Hw). cbn in Hb, Hw. subst.
  unfold reset, rounds. cbn. unfold next. cbn. by rewrite Hw.
Qed.

(** On any bytes the splitter ends, and loses nothing: what it returns,
    concatenated, is the stream from its first start code on; every unit is its
    start code and bytes that hold no other; and it is left ready for the next
    stream. *)
Theorem annexb_lossless r :
  exists s ds, read_all next_step (rounds (splitter_new r)) (splitter_new r) = Some (s, ds) /\ idle s /\
    Forall unit_ok ds /\ exists junk, r = junk ++ (ds ≫= full) /\ no_code junk = true.
Proof.
  unfold rounds. cbn [splitter_new reader]. destruct (search_cases fresh_window r) as (k & Hq & [(c & r' & -> & Hc)|[-> Hc]]).
  - destruct (fresh_match k c Hc) as [junk ->]. set (r := (junk ++ code c) ++ r').
    replace (length r + 3)%nat with (S (length r + 2)) by lia. cbn [read_all].
    unfold next_step at 1, next, splitter_new. cbn [current_start_code reader start_code_buffer buffer].
    pose proof (search_found false _ _ r' [] _ Hq Hc) as Hf. fold r in Hf. rewrite Hf. cbn [app].
    pose proof (next_from_spec c r') as H. destruct (next_from _ _ _ _) as [s1 d].
    destruct H as (Hok & nal & -> & Hn & H).
    assert (Hj : no_code junk = true) by (apply (quiet_no_code junk (code c)); [done|by destruct c]).
    assert (Hu : unit_ok (mkAnnexB c (code c ++ nal))) by by exists nal.
    destruct (current_start_code s1) as [c1|] eqn:Hc1.
    + destruct (read_from_code (length r + 2) s1 c1 Hok Hc1) as (s' & ds & -> & Hi & E & Hds).
      { unfold measure. rewrite Hc1. unfold r. rewrite H, !length_app. lia. }
      eexists _, _. split; [done|]. split; [done|]. split; [by constructor|]. exists junk.
      split; [|done]. unfold r. rewrite bind_cons, <- E, H. cbn [full]. by rewrite <- !app_assoc.
    + destruct H as [-> Hr].
      replace (length r + 2)%nat with (S (length r + 1)) by lia. cbn [read_all]. unfold next_step at 1, next.
      rewrite Hc1, Hr. unfold splitter_ok in Hok. rewrite Hc1 in Hok. destruct Hok as (Hb & Hl & Hw). rewrite Hb.
      cbn [next_annex_b_start_code]. rewrite Hw. eexists _, [_]. split; [done|]. split; [done|].
      split; [by constructor|]. exists junk. split; [|done]. unfold r. cbn. by rewrite app_nil_r, <- app_assoc.
  - replace (length k + 3)%nat with (S (length k + 2)) by lia. cbn [read_all].
    unfold next_step at 1, next, splitter_new. cbn [current_start_code reader start_code_buffer buffer].
    rewrite (search_end _ _ _ _ Hq Hc). eexists _, []. split; [done|]. split; [|split; [constructor|]].
    { split; [|done]. split; [done|]. split; [apply (length_window fresh_window); cbn; lia|done]. }
    exists k. rewrite app_nil_r. split; [done|]. by apply quiet_end.
Qed.

(** ** Well-formed streams *)

(** What emulation prevention guarantees of a NAL unit. *)
Definition clean (nal : list Z) : Prop := no_code nal = true /\ last nal <> Some 0.

Definition join (us : list (AnnexBStartCode * list Z)) : list Z := us ≫= (fun u => code u.1 ++ u.2).

Definition unit_payload (d : AnnexBData) : list Z := drop (payload_start d) (full d).

Lemma unit_payload_of c nal : unit_payload (mkAnnexB c (code c ++ nal)) = nal.
Proof. apply drop_app_length. Qed.

Lemma last_code c : last (code c) = Some 1.
Proof. by destruct c. Qed.

(** A proper prefix of a start code has only zeros. *)
Lemma code_prefix c q q' : code c = q ++ q' -> q' <> [] -> q <> [] -> last q = Some 0.
Proof.
  intros E Hne Hq. destruct c; cbn in E.
  all: destruct q as [|x1 [|x2 [|x3 [|x4 q]]]]; try done; injection E; intros; subst; try done.
  all: repeat match goal with H : _ = _ ++ _ |- _ => symmetry in H; apply app_nil in H as [-> ->]; done end.
Qed.

Lemma clean_found nal c : clean nal ->
  quiet fresh_window (nal ++ code c) = true /\ start_code_of (window fresh_window (nal ++ code c)) = Some c.
Proof.
  intros [Hn Hl]. split.
  - apply quiet_iff. intros q q' E Hne. destruct (start_code_of _) as [c1|] eqn:Hc; [|done]. exfalso.
    apply fresh_match in Hc as [k0 ->]. apply app_eq_inv in E as [(z & E1 & E2)|(z & E1 & E2)].
    + rewrite E1 in Hn. rewrite no_code_iff in Hn. destruct c1; [by apply (Hn k0 z); rewrite <- app_assoc|].
      by apply (Hn (k0 ++ [0]) z); rewrite <- !app_assoc.
    + destruct z as [|b z].
      * rewrite app_nil_r in E1. subst nal. rewrite no_code_iff in Hn.
        destruct c1; [by apply (Hn k0 []); rewrite app_nil_r|]. by apply (Hn (k0 ++ [0]) []); rewrite <- !app_assoc.
      * assert (H1 : last (k0 ++ code c1) = Some 1) by (rewrite last_app, last_code; done).
        rewrite E1, last_app, (code_prefix c (b :: z) q' E2 Hne) in H1 by done. done.
  - rewrite window_app. assert (Hw : window fresh_window nal = drop (length nal) (fresh_window ++ nal)) by (apply window_spec; cbn; lia).
    assert (Hlen : length (window fresh_window nal) = 4%nat) by (rewrite Hw, length_drop, length_app; cbn; lia).
    assert (Hd : last (window fresh_window nal) <> Some 0).
    { assert (E : last (fresh_window ++ nal) = last (window fresh_window nal)).
      { rewrite <- (take_drop (length nal) (fresh_window ++ nal)), <- Hw, last_app.
        by destruct (window fresh_window nal) as [|a [|b [|x [|d [|]]]]]. }
      rewrite <- E, last_app. by destruct (last nal). }
    destruct (window fresh_window nal) as [|a [|b [|x [|d [|]]]]]; try done. destruct c; [|done].
    cbn in *. destruct (Z.eqb_spec d 0) as [->|]; [done|done].
Qed.

(** The first start code is found from any window that holds none. *)
Lemma first_code w c r : length w = 4%nat -> start_code_of w = None ->
  exists c1 w1, next_annex_b_start_code false (code c ++ r) w [] = (Some c1, r, w1, []).
Proof.
  intros Hl Hw. destruct w as [|a [|b [|x [|d [|]]]]]; try done. destruct c; cbn -[start_code_of].
  all: rewrite Hw; cbn; rewrite ?andb_false_r; cbn; rewrite ?andb_false_r; cbn.
  - destruct r; cbn; by eexists _, _.
  - rewrite ?andb_false_r. destruct r; cbn; by eexists _, _.
Qed.

Lemma read_clean_from fuel c nal us :
  clean nal -> Forall (fun u => clean u.2) us -> (length us + 1 < fuel)%nat ->
  exists s ds, read_all next_step fuel (mkSplitter (nal ++ join us) fresh_window (Some c) (code c)) = Some (s, ds) /\
    idle s /\ unit_payload <$> ds = nal :: us.*2.
Proof.
  revert c nal fuel. induction us as [|[c' nal'] us IH]; intros c nal [|fuel] Hn Hus Hf; cbn in Hf; try lia.
  - cbn [join mbind list_bind]. rewrite app_nil_r. destruct (no_code_quiet nal (proj1 Hn)) as [Hq Hc].
    destruct fuel as [|fuel]; [lia|]. cbn [read_all]. unfold next_step at 1, next, next_from.
    cbn [current_start_code reader start_code_buffer buffer]. rewrite (search_end _ _ _ _ Hq Hc).
    unfold next_step at 1, next. cbn [current_start_code reader start_code_buffer buffer next_annex_b_start_code]. rewrite Hc.
    eexists _, [_]. split; [done|]. split; [|cbn; by rewrite unit_payload_of].
    split; [|done]. split; [done|]. split; [apply (length_window fresh_window); cbn; lia|done].
  - apply Forall_cons in Hus as [Hn' Hus]. destruct (clean_found nal c' Hn) as [Hq Hc].
    destruct (IH c' nal' fuel Hn' Hus ltac:(lia)) as (s & ds & E & Hi & Hds).
    cbn [read_all]. unfold next_step at 1, next, next_from. cbn [current_start_code reader start_code_buffer buffer].
    replace (nal ++ join ((c', nal') :: us)) with ((nal ++ code c') ++ (nal' ++ join us))
      by (unfold join; rewrite bind_cons; cbn; by rewrite <- !app_assoc).
    rewrite (search_found _ _ _ _ _ _ Hq Hc), E. eexists _, (_ :: _). split; [done|]. split; [done|].
    rewrite fmap_cons, Hds. f_equal. rewrite app_assoc, (length_app _ (code c')), Nat.add_sub, take_app_length.
    apply unit_payload_of.
Qed.

(** A stream of clean units is split into exactly those units, whatever start
    codes separate them and whatever stream came before. *)
Lemma read_clean s us : idle s -> Forall (fun u => clean u.2) us ->
  exists s0 s' ds, reset s (join us) = Some s0 /\ read_all next_step (rounds s0) s0 = Some (s', ds) /\
    idle s' /\ unit_payload <$> ds = us.*2.
Proof.
  intros Hi Hus. exists (mkSplitter (join us) (start_code_buffer s) None []).
  destruct Hi as (Hok & Hc & Hr). unfold splitter_ok in Hok. rewrite Hc in Hok. destruct Hok as (Hb & Hl & Hw).
  unfold rounds. cbn [reader]. destruct us as [|[c nal] us].
  - eexists _, []. split; [by apply reset_idle; split; [unfold splitter_ok; by rewrite Hc|]|].
    cbn. unfold next_step, next. cbn. rewrite Hw. split; [done|]. split; [|done]. by split.
  - apply Forall_cons in Hus as [Hn Hus].
    replace (join ((c, nal) :: us)) with (code c ++ (nal ++ join us)) by (unfold join; rewrite bind_cons; cbn; by rewrite <- !app_assoc).
    assert (Hlen : (length us <= length (join us))%nat).
    { clear. induction us as [|[c nal] us IH]; [done|]. unfold join in *. rewrite bind_cons, length_app, length_app.
      destruct c; cbn in *; lia. }
    destruct (read_clean_from (length (code c ++ nal ++ join us) + 3) c nal us Hn Hus) as (s' & ds & E & Hi & Hds).
    { rewrite !length_app. lia. }
    destruct (first_code (start_code_buffer s) c (nal ++ join us) Hl Hw) as (c1 & w1 & E1).
    destruct (read_clean_from (length (code c ++ nal ++ join us) + 3) c1 nal us Hn Hus) as (s1 & ds1 & E2 & Hi1 & Hds1).
    { rewrite !length_app. lia. }
    exists s1, ds1. split; [by apply reset_idle; split; [unfold splitter_ok; by rewrite Hc|]|]. split; [|done].
    revert E2. set (fuel := (length (code c ++ nal ++ join us) + 3)%nat). destruct fuel as [|fuel]; [done|].
    cbn [read_all]. unfold next_step at 1 3, next. cbn [current_start_code reader start_code_buffer buffer].
    by rewrite E1.
Qed.
