(* ===== verification/Rtp.v ===== *)
(** * RTP packets from NAL units (streamer/src/transport/webrtc/video.rs)

    What the two payloaders share: the loop that cuts a unit into fragments, the
    payloader as an interface, and the packets of one frame. The RTP track that
    takes the packets, and fills in sequence numbers, is not modelled. *)
From S2P Require Import Prelude AnnexB.

Inductive RtpError : Type := ErrBufferTooSmall.

(** [Payloader::payload(mtu, b)] from a state: [None] is a panic; an error leaves
    the state as it was. *)
Class Payloader (P : Type) :=
  payload : Z -> P -> list Z -> option (result (P * list (list Z)) RtpError).

(** [put_u16] and [u16::to_be_bytes]. *)
Definition u16_be (z : Z) : list Z := [wrap16 z / 256; wrap16 z mod 256].

(** The loop over the peekable fragments: [mk start end fragment] is a packet. *)
Fixpoint fragment_packets (mk : bool -> bool -> list Z -> list Z) (is_first : bool) (fragments : list (list Z)) :
    list (list Z) :=
  match fragments with
  | [] => []
  | f :: rest =>
      mk is_first (match rest with [] => true | _ => false end) f :: fragment_packets mk false rest
  end.

(** [slice.chunks(mtu - header - fu)]: [None] where the subtraction underflows or the
    size is zero. *)
Definition chunks_below (mtu overhead : Z) (l : list Z) : option (list (list Z)) :=
  if mtu <=? overhead then None else Some (chunks (Z.to_nat (mtu - overhead)) l).

Record Packet := mkPacket {
  marker : bool;
  timestamp : Z;
  body : list Z
}.

Section packets.
Context `{Payloader P}.

Fixpoint mark_packets (ts : Z) (end_has_marker : bool) (payloads : list (list Z)) : list Packet :=
  match payloads with
  | [] => []
  | p :: rest =>
      mkPacket (end_has_marker && match rest with [] => true | _ => false end) ts p
        :: mark_packets ts end_has_marker rest
  end.

Definition packetize (mtu : Z) (p : P) (ts : Z) (sample : list Z) (end_has_marker : bool) :
    option (result (P * list Packet) RtpError) :=
  if mtu <? 12 then None
  else
    match payload (mtu - 12) p sample with
    | None => None
    | Some (Err e) => Some (Err e)
    | Some (Ok (p, payloads)) => Some (Ok (p, mark_packets ts end_has_marker payloads))
    end.

(** [send_single_frame], the packets it hands to the sender. *)
Fixpoint frame_samples (mtu : Z) (p : P) (ts : Z) (samples : list (list Z)) : option (P * list Packet) :=
  match samples with
  | [] => Some (p, [])
  | s :: rest =>
      match packetize mtu p ts s (match rest with [] => true | _ => false end) with
      | None => None
      | Some (Err _) => frame_samples mtu p ts rest
      | Some (Ok (p, packets)) =>
          match frame_samples mtu p ts rest with
          | None => None
          | Some (p, more) => Some (p, packets ++ more)
          end
      end
  end.
End packets.
