(* ===== verification/RtpSafe.v ===== *)
(** * RTP packets from NAL units: the receiver they are made for

    What a receiver of either payload format does with a packet, once the packet's
    headers are read, and that it undoes what the payloaders share. *)
From S2P Require Import Prelude AnnexB Rtp.

(** ** The receiver *)

(** What a packet holds: a unit, several, or a fragment of one with the header to
    put back. *)
Inductive Received : Type :=
| RUnit (nal : list Z)
| RUnits (nals : list (list Z))
| RFragment (is_start is_end : bool) (hdr data : list Z)
| RBad.

(** Aggregates: each unit behind its big-endian length. *)
Fixpoint split_units (fuel : nat) (l : list Z) : option (list (list Z)) :=
  match l, fuel with
  | [], _ => Some []
  | hi :: lo :: l, S fuel =>
      let n := Z.to_nat (hi * 256 + lo) in
      if (length l <? n)%nat then None else (fun us => take n l :: us) <$> split_units fuel (drop n l)
  | _, _ => None
  end.

Section receiver.
Context (classify : list Z -> Received).

(** The fragment in progress, and the units a packet completes. *)
Definition receive (st : option (list Z)) (p : list Z) : option (list Z) * list (list Z) :=
  match classify p with
  | RUnit n => (None, [n])
  | RUnits ns => (None, ns)
  | RFragment s e hdr data =>
      let cur := if s then Some (hdr ++ data) else (fun l => l ++ data) <$> st in
      if e then (None, option_list cur) else (cur, [])
  | RBad => (None, [])
  end.

Fixpoint receive_all (st : option (list Z)) (ps : list (list Z)) : option (list Z) * list (list Z) :=
  match ps with
  | [] => (st, [])
  | p :: ps =>
      let '(st, out) := receive st p in
      let '(st, more) := receive_all st ps in (st, out ++ more)
  end.

Lemma receive_all_app st ps qs :
  receive_all st (ps ++ qs) =
    let '(st, out) := receive_all st ps in
    let '(st, more) := receive_all st qs in (st, out ++ more).
Proof.
  revert st. induction ps as [|p ps IH]; intros st; cbn.
  - by destruct (receive_all st qs).
  - destruct (receive st p) as [st1 o]. rewrite IH. destruct (receive_all st1 ps) as [st2 o2].
    destruct (receive_all st2 qs). by rewrite app_assoc.
Qed.

(** From between two units to between two units, handing over [ns]. *)
Definition delivers (ps : list (list Z)) (ns : list (list Z)) : Prop := receive_all None ps = (None, ns).

Lemma delivers_nil : delivers [] [].
Proof. done. Qed.

Lemma delivers_app ps qs ns ms : delivers ps ns -> delivers qs ms -> delivers (ps ++ qs) (ns ++ ms).
Proof. unfold delivers. intros Hp Hq. by rewrite receive_all_app, Hp, Hq. Qed.

Lemma delivers_unit p n : classify p = RUnit n -> delivers [p] [n].
Proof. intros H. unfold delivers. cbn. unfold receive. by rewrite H. Qed.

Lemma delivers_units p ns : classify p = RUnits ns -> delivers [p] ns.
Proof. intros H. unfold delivers. cbn. unfold receive. rewrite H. by rewrite app_nil_r. Qed.

(** The fragments of a unit give it back, under its own header. *)
Lemma delivers_fragments mk hdr fs :
  (forall s e f, classify (mk s e f) = RFragment s e hdr f) -> fs <> [] ->
  delivers (fragment_packets mk true fs) [hdr ++ concat fs].
Proof.
  intros Hmk. assert (H : forall fs acc, fs <> [] ->
    receive_all (Some acc) (fragment_packets mk false fs) = (None, [acc ++ concat fs])).
  { clear fs. intros fs. induction fs as [|f fs IH]; intros acc Hne; [done|]. cbn. unfold receive. rewrite Hmk.
    destruct fs as [|g fs]; [by cbn; rewrite app_nil_r|]. cbn [fmap option_fmap option_map].
    rewrite IH by done. cbn. by rewrite <- app_assoc. }
  intros Hne. destruct fs as [|f fs]; [done|]. unfold delivers. cbn. unfold receive. rewrite Hmk.
  destruct fs as [|g fs]; [by cbn; rewrite app_nil_r|]. rewrite H by done. cbn. by rewrite <- app_assoc.
Qed.
End receiver.

(** ** Aggregates *)

Lemma split_units_join ns fuel : Forall (fun n => in_u16 (len n)) ns -> (length ns <= fuel)%nat ->
  split_units fuel (ns ≫= (fun n => u16_be (len n) ++ n)) = Some ns.
Proof.
  revert fuel. induction ns as [|n ns IH]; intros fuel Hns Hf; [by destruct fuel|].
  apply Forall_cons in Hns as [Hn Hns]. rewrite bind_cons. unfold u16_be at 1. destruct fuel as [|fuel]; [cbn in Hf; lia|].
  cbn [app split_units]. rewrite wrap16_id by done.
  assert (E : Z.to_nat (len n / 256 * 256 + len n mod 256) = length n) by (unfold len; Z.div_mod_to_equations; lia).
  rewrite E. destruct (Nat.ltb_spec (length (n ++ (ns ≫= (fun n => u16_be (len n) ++ n)))) (length n)) as [Hl|_].
  { rewrite length_app in Hl. lia. }
  rewrite drop_app_length, take_app_length, IH by (try done; cbn in Hf; lia). done.
Qed.

Lemma len_units ns : len (ns ≫= (fun n => u16_be (len n) ++ n)) = sumZ ((fun n => 2 + len n) <$> ns).
Proof. induction ns as [|n ns IH]; [done|]. rewrite bind_cons, fmap_cons, sumZ_cons, len_app, IH, len_app. done. Qed.

(** ** Fragments *)

(** At least one fragment, none longer than the limit, the concatenation whole. *)
Lemma chunks_below_spec mtu overhead l : 0 <= overhead < mtu -> l <> [] ->
  exists fs, chunks_below mtu overhead l = Some fs /\ fs <> [] /\ concat fs = l /\
    Forall (fun f => len f <= mtu - overhead) fs.
Proof.
  intros Hm Hl. unfold chunks_below. destruct (Z.leb_spec mtu overhead); [lia|].
  eexists. split; [done|]. set (n := Z.to_nat (mtu - overhead)). assert (Hn : (0 < n)%nat) by (unfold n; lia).
  split; [|split; [by apply chunks_concat|]].
  - intros E. pose proof (chunks_concat n l Hn) as Hc. rewrite E in Hc. by subst l.
  - eapply Forall_impl; [by apply chunks_sizes|]. cbn. intros f Hf. unfold len, n in *. lia.
Qed.

Lemma fragment_packets_len mk first fs k :
  (forall s e f, len (mk s e f) = k + len f) -> forall bound, Forall (fun f => len f <= bound - k) fs ->
  Forall (fun p => len p <= bound) (fragment_packets mk first fs).
Proof.
  intros Hk bound Hfs. revert first. induction Hfs as [|f fs Hf _ IH]; intros first; cbn; [constructor|].
  constructor; [rewrite Hk; lia|apply IH].
Qed.

Lemma fragment_packets_nonempty mk first fs : fs <> [] -> fragment_packets mk first fs <> [].
Proof. by destruct fs. Qed.

(** ** Packets of a frame *)

Lemma body_mark_packets ts last ps : body <$> mark_packets ts last ps = ps.
Proof. induction ps as [|p ps IH]; [done|]. cbn. by rewrite IH. Qed.

Lemma mark_packets_false ts ps : Forall (fun p => marker p = false) (mark_packets ts false ps).
Proof. induction ps as [|p ps IH]; cbn; by constructor. Qed.

Lemma mark_packets_ts ts last ps : Forall (fun p => timestamp p = ts) (mark_packets ts last ps).
Proof. induction ps as [|p ps IH]; cbn; by constructor. Qed.

(** The marker is on the last packet and on no other. *)
Definition marked (ps : list Packet) : Prop :=
  exists pre l, ps = pre ++ [l] /\ marker l = true /\ Forall (fun p => marker p = false) pre.

Lemma mark_packets_true ts ps : ps <> [] -> marked (mark_packets ts true ps).
Proof.
  induction ps as [|p [|q ps] IH]; [done|intros _; by exists [], (mkPacket true ts p)|]. intros _.
  destruct (IH ltac:(done)) as (pre & l & E & Hl & Hpre). exists (mkPacket false ts p :: pre), l.
  cbn [mark_packets] in *. rewrite E. split; [done|]. split; [done|by constructor].
Qed.

Lemma marked_app ps qs : Forall (fun p => marker p = false) ps -> marked qs -> marked (ps ++ qs).
Proof.
  intros Hp (pre & l & -> & Hl & Hpre). exists (ps ++ pre), l. rewrite <- app_assoc. split; [done|]. split; [done|].
  by apply Forall_app.
Qed.

(** ** What a payloader promises the frame *)

(** [deliver] is what a receiver is to be handed for a unit, and [rel] relates the
    payloader's state to the reference's. A unit that is [ok] is packetized
    without a panic into packets that fit and deliver just that. *)
Class PayloaderLaws {P D : Type} `{Payloader P} (classify : list Z -> Received)
    (deliver : D -> list Z -> D * list (list Z)) (rel : Z -> P -> D -> Prop) (ok : Z -> list Z -> Prop) : Prop :=
  payload_law : forall mtu p d b, rel mtu p d -> ok mtu b ->
    exists p' ps, payload mtu p b = Some (Ok (p', ps)) /\ rel mtu p' (deliver d b).1 /\
      delivers classify ps (deliver d b).2 /\ Forall (fun q => len q <= mtu) ps /\
      (ps = [] -> (deliver d b).2 = []).

Section frames.
Context {P D : Type} `{Payloader P} {classify : list Z -> Received}.
Context {deliver : D -> list Z -> D * list (list Z)} {rel : Z -> P -> D -> Prop} {ok : Z -> list Z -> Prop}.
Context {Hlaws : PayloaderLaws classify deliver rel ok}.

Fixpoint deliver_all (d : D) (bs : list (list Z)) : D * list (list Z) :=
  match bs with
  | [] => (d, [])
  | b :: bs =>
      let '(d, out) := deliver d b in
      let '(d, more) := deliver_all d bs in (d, out ++ more)
  end.

Lemma deliver_all_app d bs cs :
  deliver_all d (bs ++ cs) =
    let '(d, out) := deliver_all d bs in let '(d, more) := deliver_all d cs in (d, out ++ more).
Proof.
  revert d. induction bs as [|b bs IH]; intros d; cbn.
  - by destruct (deliver_all d cs).
  - destruct (deliver d b) as [d1 o]. rewrite IH. destruct (deliver_all d1 bs) as [d2 o2].
    destruct (deliver_all d2 cs). by rewrite app_assoc.
Qed.

(** A unit after which a receiver is always handed something. *)
Definition always_delivered (b : list Z) : Prop := forall d, (deliver d b).2 <> [].

Definition frame_packets_ok (mtu ts : Z) (samples : list (list Z)) (packets : list Packet) : Prop :=
  Forall (fun q => len (body q) <= mtu - 12 /\ timestamp q = ts) packets /\
  (forall b, last samples = Some b -> always_delivered b -> marked packets).

Lemma frame_samples_spec mtu p d ts samples :
  12 <= mtu -> rel (mtu - 12) p d -> Forall (ok (mtu - 12)) samples ->
  exists p' packets, frame_samples mtu p ts samples = Some (p', packets) /\
    rel (mtu - 12) p' (deliver_all d samples).1 /\
    delivers classify (body <$> packets) (deliver_all d samples).2 /\
    frame_packets_ok mtu ts samples packets.
Proof.
  intros Hm. revert p d. induction samples as [|b samples IH]; intros p d Hr Hok.
  { exists p, []. split; [done|]. split; [done|]. split; [done|]. split; [constructor|done]. }
  apply Forall_cons in Hok as [Hb Hok]. cbn [frame_samples deliver_all]. unfold packetize.
  destruct (Z.ltb_spec mtu 12); [lia|].
  destruct (payload_law (mtu - 12) p d b Hr Hb) as (p1 & ps & -> & Hr1 & Hd & Hlen & Hne).
  destruct (deliver d b) as [d1 out] eqn:Ed. cbn [fst snd] in *.
  destruct (IH p1 d1 Hr1 Hok) as (p2 & more & E2 & Hr2 & Hd2 & Hq & Hmark). rewrite E2.
  destruct (deliver_all d1 samples) as [d2 o2]. cbn [fst snd] in *.
  eexists _, _. split; [done|]. split; [done|].
  rewrite fmap_app, body_mark_packets. split; [by apply delivers_app|]. split.
  - apply Forall_app. split; [|done]. apply Forall_and. split; [|apply mark_packets_ts].
    rewrite <- (body_mark_packets ts (match samples with [] => true | _ => false end) ps) in Hlen.
    by rewrite Forall_fmap in Hlen.
  - intros b' Hl Ha. destruct samples as [|c samples].
    + cbn in Hl. injection Hl as ->. cbn in E2. injection E2 as _ <-. rewrite app_nil_r. apply mark_packets_true.
      intros ->. apply (Ha d). rewrite Ed. by apply Hne.
    + apply marked_app; [apply mark_packets_false|]. by apply (Hmark b').
Qed.
End frames.
Arguments deliver_all {D} deliver d bs.
Arguments always_delivered {D} deliver b.
Arguments frame_packets_ok {D} deliver mtu ts samples packets.

(** ** Units of a frame *)

(** A reader that turns each unit of the splitter into one of its own. *)
Definition step_with {N} (f : AnnexBData -> option N) (s : Splitter) : option (Splitter * option N) :=
  match next s with
  | (s, None) => Some (s, None)
  | (s, Some d) => match f d with None => None | Some n => Some (s, Some n) end
  end.

Lemma read_all_with {N} (f : AnnexBData -> option N) fuel s s' ds ns :
  read_all next_step fuel s = Some (s', ds) -> Forall2 (fun d n => f d = Some n) ds ns ->
  read_all (step_with f) fuel s = Some (s', ns).
Proof.
  revert s ds ns. induction fuel as [|fuel IH]; intros s ds ns E H; [done|]. cbn [read_all] in *.
  unfold next_step at 1 in E. unfold step_with at 1. destruct (next s) as [s1 [d|]].
  - destruct (read_all next_step fuel s1) as [[s2 ds1]|] eqn:E1; [|done]. injection E as <- <-.
    inversion H as [|? n ? ns1 Hd Hds]; subst. rewrite Hd. by rewrite (IH _ _ _ E1 Hds).
  - injection E as <- <-. by inversion H.
Qed.

Lemma last_filter {A} (P : A -> Prop) `{!forall x, Decision (P x)} l x : last l = Some x -> P x -> last (filter P l) = Some x.
Proof.
  intros Hl Hp. apply last_Some in Hl as [l' ->]. rewrite filter_app, last_app.
  by rewrite filter_cons_True, filter_nil by done.
Qed.

(** The frames of a stream, one after the other, with the states they share. *)
Section stream.
Context {P : Type} (frame : Splitter -> P -> Z -> list Z -> option (Splitter * P * list Packet)).

Fixpoint stream (s : Splitter) (p : P) (frames : list (Z * list Z)) : option (Splitter * P * list (list Packet)) :=
  match frames with
  | [] => Some (s, p, [])
  | (ts, f) :: frames =>
      match frame s p ts f with
      | None => None
      | Some (s, p, packets) =>
          match stream s p frames with
          | None => None
          | Some (s, p, out) => Some (s, p, packets :: out)
          end
      end
  end.
End stream.

(** From one frame to a stream: [post] is what holds of each frame's packets. *)
Section stream_law.
Context {P D : Type} (frame : Splitter -> P -> Z -> list Z -> option (Splitter * P * list Packet)).
Context (classify : list Z -> Received) (deliver : D -> list Z -> D * list (list Z)) (rel : P -> D -> Prop).
Context (encoded : list Z -> Prop) (post : Z -> list (list Z) -> list Packet -> Prop).

Definition frame_law : Prop := forall s p d ts us, idle s -> rel p d -> Forall (fun u => encoded u.2) us ->
  exists s' p' packets, frame s p ts (join us) = Some (s', p', packets) /\ idle s' /\
    rel p' (deliver_all deliver d us.*2).1 /\
    delivers classify (body <$> packets) (deliver_all deliver d us.*2).2 /\ post ts us.*2 packets.

Lemma stream_ok s p d (frames : list (Z * list (AnnexBStartCode * list Z))) :
  frame_law -> idle s -> rel p d -> Forall (fun f => Forall (fun u => encoded u.2) f.2) frames ->
  exists s' p' out, stream frame s p ((fun f => (f.1, join f.2)) <$> frames) = Some (s', p', out) /\
    delivers classify (body <$> concat out) (deliver_all deliver d (frames ≫= (fun f => f.2.*2))).2 /\
    Forall2 (fun f packets => post f.1 f.2.*2 packets) frames out.
Proof.
  intros Hlaw. revert s p d. induction frames as [|[ts us] frames IH]; intros s p d Hi Hr Hf.
  { exists s, p, []. split; [done|]. split; [done|constructor]. }
  apply Forall_cons in Hf as [Hus Hf]. cbn [fmap list_fmap stream fst snd].
  destruct (Hlaw s p d ts us Hi Hr Hus) as (s1 & p1 & packets & -> & Hi1 & Hr1 & Hd1 & Hq).
  destruct (IH s1 p1 _ Hi1 Hr1 Hf) as (s2 & p2 & out & E & Hd2 & Hout).
  change (list_fmap _ _ (fun f => (f.1, join f.2)) frames) with ((fun f : Z * list (AnnexBStartCode * list Z) => (f.1, join f.2)) <$> frames).
  rewrite E. eexists _, _, _. split; [done|]. rewrite bind_cons, deliver_all_app. cbn [concat snd]. rewrite fmap_app.
  destruct (deliver_all deliver d us.*2) as [d1 o1]. cbn [fst snd] in *.
  destruct (deliver_all deliver d1 _) as [d2 o2]. split; [by apply delivers_app|by constructor].
Qed.
End stream_law.
