(* ===== verification/H264.v ===== *)
(** * H.264 over RTP (streamer/src/transport/webrtc/video/h264/)

    NAL headers, the reader and the payloader of RFC 3984's non-interleaved mode,
    and the frames of video.rs that go through them. *)
From S2P Require Import Prelude AnnexB Rtp.

(** ** NAL units *)

Inductive NalUnitType : Type :=
| Unspecified | CodedSliceNonIDR | CodedSliceDataPartitionA | CodedSliceDataPartitionB
| CodedSliceDataPartitionC | CodedSliceIDR | Sei | Sps | Pps | AccessUnitDelimiter | EndOfSequence
| EndOfStream | FillerData | SPSEx | PrefixNALUnit | SubsetSPS | DepthParameterSet | Reserved17 | Reserved18
| CodedSliceAux | CodedSliceExt | CodedSliceExtDepth | Reserved22 | Reserved23 | StapA | Unspecified25
| Unspecified26 | Unspecified27 | FragmentationUnit | Unspecified29 | Unspecified30 | Unspecified31.

(** [self as u8]. *)
Definition type_to_u8 (t : NalUnitType) : Z :=
  match t with
  | Unspecified => 0 | CodedSliceNonIDR => 1 | CodedSliceDataPartitionA => 2 | CodedSliceDataPartitionB => 3
  | CodedSliceDataPartitionC => 4 | CodedSliceIDR => 5 | Sei => 6 | Sps => 7 | Pps => 8
  | AccessUnitDelimiter => 9 | EndOfSequence => 10 | EndOfStream => 11 | FillerData => 12 | SPSEx => 13
  | PrefixNALUnit => 14 | SubsetSPS => 15 | DepthParameterSet => 16 | Reserved17 => 17 | Reserved18 => 18
  | CodedSliceAux => 19 | CodedSliceExt => 20 | CodedSliceExtDepth => 21 | Reserved22 => 22 | Reserved23 => 23
  | StapA => 24 | Unspecified25 => 25 | Unspecified26 => 26 | Unspecified27 => 27 | FragmentationUnit => 28
  | Unspecified29 => 29 | Unspecified30 => 30 | Unspecified31 => 31
  end.

(** In the order of the discriminants. *)
Definition nal_unit_types : list NalUnitType :=
  [Unspecified; CodedSliceNonIDR; CodedSliceDataPartitionA; CodedSliceDataPartitionB; CodedSliceDataPartitionC
  ; CodedSliceIDR; Sei; Sps; Pps; AccessUnitDelimiter; EndOfSequence; EndOfStream; FillerData; SPSEx
  ; PrefixNALUnit; SubsetSPS; DepthParameterSet; Reserved17; Reserved18; CodedSliceAux; CodedSliceExt
  ; CodedSliceExtDepth; Reserved22; Reserved23; StapA; Unspecified25; Unspecified26; Unspecified27
  ; FragmentationUnit; Unspecified29; Unspecified30; Unspecified31].

(** [NalUnitType::from_u8]. *)
Definition type_from_u8 (code : Z) : option NalUnitType := nal_unit_types !! Z.to_nat code.

Lemma type_from_to t : type_from_u8 (type_to_u8 t) = Some t.
Proof. by destruct t. Qed.

#[export] Instance nal_unit_type_eq_dec : EqDecision NalUnitType.
Proof.
  intros a b. destruct (decide (type_to_u8 a = type_to_u8 b)) as [E|Hne]; [left|right; congruence].
  apply (inj Some). by rewrite <- !type_from_to, E.
Defined.

Record NalHeader := mkNalHeader {
  forbidden_zero_bit : bool;
  nal_ref_idc : Z;
  nal_unit_type : NalUnitType
}.

Definition HEADER_SIZE : nat := 1.

(** [NalHeader::parse]; [None] is the [unwrap]. *)
Definition parse_header (h : Z) : option NalHeader :=
  match type_from_u8 (Z.land h 31) with
  | None => None
  | Some t => Some (mkNalHeader (Z.shiftr (Z.land h 128) 7 =? 1) (Z.shiftr (Z.land h 96) 5) t)
  end.

Definition serialize_header (h : NalHeader) : Z :=
  Z.lor (Z.lor (if forbidden_zero_bit h then 128 else 0) (Z.shiftl (Z.land (nal_ref_idc h) 3) 5))
    (Z.land (type_to_u8 (nal_unit_type h)) 31).

Record Nal := mkNal {
  nal_start_code : AnnexBStartCode;
  header : NalHeader;
  header_start : nat;
  nal_full : list Z
}.

(** [H264Reader::next_nal], on one unit of the splitter; [None] is an index out of
    range. *)
Definition nal_of (d : AnnexBData) : option Nal :=
  let a := payload_start d in
  if (length (full d) <? a + HEADER_SIZE)%nat then None
  else
    match parse_header (at0 (full d) a) with
    | None => None
    | Some h => Some (mkNal (start_code d) h a (full d))
    end.

Definition next_nal (s : Splitter) : option (Splitter * option Nal) :=
  match next s with
  | (s, None) => Some (s, None)
  | (s, Some d) => match nal_of d with None => None | Some n => Some (s, Some n) end
  end.

(** ** The payloader *)

Record FuHeader := mkFuHeader {
  fu_start : bool;
  fu_end : bool;
  reserved_bit : bool;
  fu_type : NalUnitType
}.

Definition FU_SIZE : nat := 1.

Definition fu_parse (h : Z) : option FuHeader :=
  match type_from_u8 (Z.land h 31) with
  | None => None
  | Some t => Some (mkFuHeader (negb (Z.land h 128 =? 0)) (negb (Z.land h 64 =? 0)) (negb (Z.land h 32 =? 0)) t)
  end.

Definition fu_serialize (h : FuHeader) : Z :=
  Z.lor (Z.lor (Z.lor (if fu_start h then 128 else 0) (if fu_end h then 64 else 0))
    (if reserved_bit h then 32 else 0)) (Z.land (type_to_u8 (fu_type h)) 31).

Record H264Payloader := mkPayloader {
  sps_nalu : option (list Z);
  pps_nalu : option (list Z)
}.

Definition payloader_default : H264Payloader := mkPayloader None None.

Definition build_single_nal (nalu : list Z) : list Z := nalu.

(** The largest [nal_ref_idc]; an empty unit is an index out of range. *)
Fixpoint max_ref_idc (nalus : list (list Z)) (acc : Z) : option Z :=
  match nalus with
  | [] => Some acc
  | [] :: _ => None
  | (b :: _) :: rest =>
      match parse_header b with
      | None => None
      | Some h => max_ref_idc rest (if acc <? nal_ref_idc h then nal_ref_idc h else acc)
      end
  end.

Definition build_stap_a_packet (nalus : list (list Z)) : option (list Z) :=
  match max_ref_idc nalus 0 with
  | None => None
  | Some idc =>
      Some (serialize_header (mkNalHeader false idc StapA) :: (nalus ≫= (fun n => u16_be (len n) ++ n)))
  end.

Definition build_fragmented_packets (nalu : list Z) (h : NalHeader) (mtu : Z) : option (list (list Z)) :=
  let fu_indicator := serialize_header (mkNalHeader (forbidden_zero_bit h) (nal_ref_idc h) FragmentationUnit) in
  match chunks_below mtu (Z.of_nat HEADER_SIZE + Z.of_nat FU_SIZE) (drop 1 nalu) with
  | None => None
  | Some fragments =>
      Some (fragment_packets (fun is_first is_last f =>
        fu_indicator :: fu_serialize (mkFuHeader is_first is_last false (nal_unit_type h)) :: f) true fragments)
  end.

(** The end of [payload]: the unit in one packet or in fragments, after [before]. *)
Definition payload_unit (mtu : Z) (st : H264Payloader) (b : list Z) (h : NalHeader) (before : list (list Z)) :
    option (result (H264Payloader * list (list Z)) RtpError) :=
  if len b <=? mtu then Some (Ok (st, before ++ [build_single_nal b]))
  else
    match build_fragmented_packets b h mtu with
    | None => None
    | Some ps => Some (Ok (st, before ++ ps))
    end.

Definition h264_payload (mtu : Z) (st : H264Payloader) (b : list Z) :
    option (result (H264Payloader * list (list Z)) RtpError) :=
  match b with
  | [] => Some (Err ErrBufferTooSmall)
  | b0 :: _ =>
      match parse_header b0 with
      | None => None
      | Some h =>
          match nal_unit_type h with
          | AccessUnitDelimiter | FillerData => Some (Ok (st, []))
          | Pps => Some (Ok (mkPayloader (sps_nalu st) (Some b), []))
          | Sps => Some (Ok (mkPayloader (Some b) (pps_nalu st), []))
          | _ =>
              match pps_nalu st, sps_nalu st with
              | Some pps, Some sps =>
                  match build_stap_a_packet [sps; pps] with
                  | None => None
                  | Some stap_a =>
                      if mtu <=? len stap_a then Some (Ok (st, []))
                      else payload_unit mtu (mkPayloader None None) b h [stap_a]
                  end
              | _, _ => payload_unit mtu st b h []
              end
          end
      end
  end.

#[export] Instance h264_payloader : Payloader H264Payloader := h264_payload.

(** ** A frame (video.rs, the H264 arm) *)

(** [trim_bytes_to_range] to the header and payload. *)
Definition nal_data (n : Nal) : list Z := drop (header_start n) (nal_full n).

Definition not_filler (n : Nal) : bool := negb (bool_decide (nal_unit_type (header n) = FillerData)).

Definition h264_frame (mtu : Z) (s : Splitter) (p : H264Payloader) (ts : Z) (full_frame : list Z) :
    option (Splitter * H264Payloader * list Packet) :=
  match reset s full_frame with
  | None => None
  | Some s =>
      match read_all next_nal (rounds s) s with
      | None => None
      | Some (s, nals) =>
          match frame_samples mtu p ts (nal_data <$> filter (fun n => not_filler n = true) nals) with
          | None => None
          | Some (p, packets) => Some (s, p, packets)
          end
      end
  end.
