(* ===== verification/H265.v ===== *)
(** * H.265 over RTP (streamer/src/transport/webrtc/video/h265/)

    NAL headers, the reader and the payloader of RFC 7798 without decoding order
    numbers, and the frames of video.rs that go through them. *)
From S2P Require Import Prelude AnnexB Rtp.

(** ** NAL units *)

Inductive NalUnitType : Type :=
| TrailN | TrailR | TsaN | TsaR | StsaN | StsaR | RadlN | RadlR | RaslN | RaslR | RsvVclN10 | RsvVclR11
| RsvVclN12 | RsvVclR13 | RsvVclN14 | RsvVclR15 | BlaWLp | BlaWRadl | BlaNLp | IdrWRadl | IdrNLp | CraNut
| RsvIrapVcl22 | RsvIrapVcl23 | RsvVcl24 | RsvVcl25 | RsvVcl26 | RsvVcl27 | RsvVcl28 | RsvVcl29 | RsvVcl30
| RsvVcl31 | VpsNut | SpsNut | PpsNut | AudNut | EosNut | EobNut | FdNut | PrefixSeiNut | SuffixSeiNut
| RsvNvcl41 | RsvNvcl42 | RsvNvcl43 | RsvNvcl44 | RsvNvcl45 | RsvNvcl46 | RsvNvcl47 | AggregationUnit
| FragmentationUnit | Unspec50 | Unspec51 | Unspec52 | Unspec53 | Unspec54 | Unspec55 | Unspec56 | Unspec57
| Unspec58 | Unspec59 | Unspec60 | Unspec61 | Unspec62 | Unspec63.

(** [self as u8]. *)
Definition type_to_u8 (t : NalUnitType) : Z :=
  match t with
  | TrailN => 0 | TrailR => 1 | TsaN => 2 | TsaR => 3 | StsaN => 4 | StsaR => 5 | RadlN => 6 | RadlR => 7
  | RaslN => 8 | RaslR => 9 | RsvVclN10 => 10 | RsvVclR11 => 11 | RsvVclN12 => 12 | RsvVclR13 => 13
  | RsvVclN14 => 14 | RsvVclR15 => 15 | BlaWLp => 16 | BlaWRadl => 17 | BlaNLp => 18 | IdrWRadl => 19
  | IdrNLp => 20 | CraNut => 21 | RsvIrapVcl22 => 22 | RsvIrapVcl23 => 23 | RsvVcl24 => 24 | RsvVcl25 => 25
  | RsvVcl26 => 26 | RsvVcl27 => 27 | RsvVcl28 => 28 | RsvVcl29 => 29 | RsvVcl30 => 30 | RsvVcl31 => 31
  | VpsNut => 32 | SpsNut => 33 | PpsNut => 34 | AudNut => 35 | EosNut => 36 | EobNut => 37 | FdNut => 38
  | PrefixSeiNut => 39 | SuffixSeiNut => 40 | RsvNvcl41 => 41 | RsvNvcl42 => 42 | RsvNvcl43 => 43
  | RsvNvcl44 => 44 | RsvNvcl45 => 45 | RsvNvcl46 => 46 | RsvNvcl47 => 47 | AggregationUnit => 48
  | FragmentationUnit => 49 | Unspec50 => 50 | Unspec51 => 51 | Unspec52 => 52 | Unspec53 => 53
  | Unspec54 => 54 | Unspec55 => 55 | Unspec56 => 56 | Unspec57 => 57 | Unspec58 => 58 | Unspec59 => 59
  | Unspec60 => 60 | Unspec61 => 61 | Unspec62 => 62 | Unspec63 => 63
  end.

(** In the order of the discriminants. *)
Definition nal_unit_types : list NalUnitType :=
  [TrailN; TrailR; TsaN; TsaR; StsaN; StsaR; RadlN; RadlR; RaslN; RaslR; RsvVclN10; RsvVclR11; RsvVclN12
  ; RsvVclR13; RsvVclN14; RsvVclR15; BlaWLp; BlaWRadl; BlaNLp; IdrWRadl; IdrNLp; CraNut; RsvIrapVcl22
  ; RsvIrapVcl23; RsvVcl24; RsvVcl25; RsvVcl26; RsvVcl27; RsvVcl28; RsvVcl29; RsvVcl30; RsvVcl31; VpsNut
  ; SpsNut; PpsNut; AudNut; EosNut; EobNut; FdNut; PrefixSeiNut; SuffixSeiNut; RsvNvcl41; RsvNvcl42; RsvNvcl43
  ; RsvNvcl44; RsvNvcl45; RsvNvcl46; RsvNvcl47; AggregationUnit; FragmentationUnit; Unspec50; Unspec51
  ; Unspec52; Unspec53; Unspec54; Unspec55; Unspec56; Unspec57; Unspec58; Unspec59; Unspec60; Unspec61
  ; Unspec62; Unspec63].

(** [NalUnitType::from_u8]. *)
Definition type_from_u8 (code : Z) : option NalUnitType := nal_unit_types !! Z.to_nat code.

Lemma type_from_to_265 t : type_from_u8 (type_to_u8 t) = Some t.
Proof. by destruct t. Qed.

#[export] Instance nal_unit_type_eq_dec : EqDecision NalUnitType.
Proof.
  intros a b. destruct (decide (type_to_u8 a = type_to_u8 b)) as [E|Hne]; [left|right; congruence].
  apply (inj Some). by rewrite <- !type_from_to_265, E.
Defined.

Record NalHeader := mkNalHeader {
  forbidden_zero_bit : bool;
  nal_unit_type : NalUnitType;
  nuh_layer_id : Z;
  nuh_temporal_id_plus1 : Z
}.

Definition HEADER_SIZE : nat := 2.

(** [NalHeader::parse]; [None] is the [unwrap]. *)
Definition parse_header (h0 h1 : Z) : option NalHeader :=
  match type_from_u8 (Z.shiftr (Z.land h0 126) 1) with
  | None => None
  | Some t =>
      Some (mkNalHeader (negb (Z.land h0 128 =? 0)) t
        (Z.lor (Z.shiftl (Z.land h0 1) 5) (Z.shiftr (Z.land h1 248) 3)) (Z.land h1 7))
  end.

Definition serialize_header (h : NalHeader) : list Z :=
  [Z.lor (Z.lor (if forbidden_zero_bit h then 128 else 0) (Z.shiftl (Z.land (type_to_u8 (nal_unit_type h)) 63) 1))
     (Z.land (Z.shiftr (nuh_layer_id h) 5) 1);
   Z.lor (Z.shiftl (Z.land (nuh_layer_id h) 31) 3) (Z.land (nuh_temporal_id_plus1 h) 7)].

Record Nal := mkNal {
  nal_start_code : AnnexBStartCode;
  header : NalHeader;
  header_start : nat;
  nal_full : list Z
}.

(** [H265Reader::next_nal], on one unit of the splitter; [None] is an index out of
    range. *)
Definition nal_of (d : AnnexBData) : option Nal :=
  let a := payload_start d in
  if (length (full d) <? a + HEADER_SIZE)%nat then None
  else
    match parse_header (at0 (full d) a) (at0 (full d) (a + 1)) with
    | None => None
    | Some h => Some (mkNal (start_code d) h a (full d))
    end.

Definition next_nal (s : Splitter) : option (Splitter * option Nal) :=
  match next s with
  | (s, None) => Some (s, None)
  | (s, Some d) => match nal_of d with None => None | Some n => Some (s, Some n) end
  end.

(** ** The payloader *)

Record FuHeader := mkFuHeader {
  fu_start : bool;
  fu_end : bool;
  fu_type : NalUnitType
}.

Definition FU_SIZE : nat := 1.

Definition fu_serialize (h : FuHeader) : Z :=
  Z.lor (Z.lor (if fu_start h then 128 else 0) (if fu_end h then 64 else 0)) (Z.land (type_to_u8 (fu_type h)) 63).

Record H265Payloader := mkPayloader {
  vps_nalu : option (list Z);
  sps_nalu : option (list Z);
  pps_nalu : option (list Z)
}.

Definition payloader_default : H265Payloader := mkPayloader None None None.

Definition build_single_packet (nalu : list Z) : list Z := nalu.

Definition build_fragmented_packets (h : NalHeader) (nalu : list Z) (mtu : Z) : option (list (list Z)) :=
  let nal_header := serialize_header
    (mkNalHeader (forbidden_zero_bit h) FragmentationUnit (nuh_layer_id h) (nuh_temporal_id_plus1 h)) in
  match chunks_below mtu (Z.of_nat HEADER_SIZE + Z.of_nat FU_SIZE) (drop 2 nalu) with
  | None => None
  | Some fragments =>
      Some (fragment_packets (fun is_first is_last f =>
        nal_header ++ [fu_serialize (mkFuHeader is_first is_last (nal_unit_type h))] ++ f) true fragments)
  end.

(** The header of the aggregate: the smallest layer and temporal id. *)
Fixpoint aggregate_header (nalus : list (list Z)) (acc : NalHeader) : option NalHeader :=
  match nalus with
  | [] => Some acc
  | (b0 :: b1 :: _) :: rest =>
      match parse_header b0 b1 with
      | None => None
      | Some h =>
          aggregate_header rest
            (mkNalHeader (forbidden_zero_bit h || forbidden_zero_bit acc) (nal_unit_type acc)
              (if nuh_layer_id h <? nuh_layer_id acc then nuh_layer_id h else nuh_layer_id acc)
              (if nuh_temporal_id_plus1 h <? nuh_temporal_id_plus1 acc
               then nuh_temporal_id_plus1 h else nuh_temporal_id_plus1 acc))
      end
  | _ => None
  end.

Definition build_aggregation_packet (nalus : list (list Z)) : option (list Z) :=
  match aggregate_header nalus (mkNalHeader false AggregationUnit 255 255) with
  | None => None
  | Some h => Some (serialize_header h ++ (nalus ≫= (fun n => u16_be (len n) ++ n)))
  end.

(** The parameter set a unit replaces. *)
Definition store_parameters (st : H265Payloader) (t : NalUnitType) (b : list Z) : H265Payloader :=
  match t with
  | VpsNut => mkPayloader (Some b) (sps_nalu st) (pps_nalu st)
  | SpsNut => mkPayloader (vps_nalu st) (Some b) (pps_nalu st)
  | PpsNut => mkPayloader (vps_nalu st) (sps_nalu st) (Some b)
  | _ => st
  end.

Definition is_parameter (t : NalUnitType) : bool :=
  match t with VpsNut | SpsNut | PpsNut => true | _ => false end.

Definition h265_payload (mtu : Z) (st : H265Payloader) (b : list Z) :
    option (result (H265Payloader * list (list Z)) RtpError) :=
  match b with
  | [] | [_] => Some (Err ErrBufferTooSmall)
  | b0 :: b1 :: _ =>
      match parse_header b0 b1 with
      | None => None
      | Some h =>
          let st := store_parameters st (nal_unit_type h) b in
          match vps_nalu st, sps_nalu st, pps_nalu st with
          | Some vps, Some sps, Some pps =>
              match build_aggregation_packet [vps; sps; pps] with
              | None => None
              | Some packet =>
                  if len packet <=? mtu then Some (Ok (payloader_default, [packet]))
                  else Some (Ok (payloader_default,
                         [build_single_packet vps; build_single_packet sps; build_single_packet pps]))
              end
          | _, _, _ =>
              if is_parameter (nal_unit_type h) then Some (Ok (st, []))
              else if len b <=? mtu then Some (Ok (st, [build_single_packet b]))
              else
                match build_fragmented_packets h b mtu with
                | None => None
                | Some ps => Some (Ok (st, ps))
                end
          end
      end
  end.

#[export] Instance h265_payloader : Payloader H265Payloader := h265_payload.

(** ** A frame (video.rs, the H265 arm) *)

Definition nal_data (n : Nal) : list Z := drop (header_start n) (nal_full n).

Definition h265_frame (mtu : Z) (s : Splitter) (p : H265Payloader) (ts : Z) (full_frame : list Z) :
    option (Splitter * H265Payloader * list Packet) :=
  match reset s full_frame with
  | None => None
  | Some s =>
      match read_all next_nal (rounds s) s with
      | None => None
      | Some (s, nals) =>
          match frame_samples mtu p ts (nal_data <$> nals) with
          | None => None
          | Some (p, packets) => Some (s, p, packets)
          end
      end
  end.
