(* ===== verification/H264Safe.v ===== *)
(** * H.264 over RTP: proofs

    A receiver of RFC 6184's non-interleaved mode puts back the units of every
    frame, with the parameter sets where the payloader places them. *)
From S2P Require Import Prelude AnnexB Rtp RtpSafe H264.

(** ** Headers *)

Definition unit_type (b : list Z) : Z := Z.land (at0 b 0) 31.

#[local] Instance fu_header_eq_dec : EqDecision FuHeader.
Proof. solve_decision. Defined.

(** The fragment headers of a unit whose header is [b0]. *)
Definition fragment_facts (b0 : Z) (h : NalHeader) (s e : bool) : bool :=
  let fu := serialize_header (mkNalHeader (forbidden_zero_bit h) (nal_ref_idc h) FragmentationUnit) in
  let hd := fu_serialize (mkFuHeader s e false (nal_unit_type h)) in
  (Z.land fu 31 =? 28) && (Z.lor (Z.land fu 224) (Z.land hd 31) =? b0) &&
  Bool.eqb (Z.testbit hd 7) s && Bool.eqb (Z.testbit hd 6) e &&
  bool_decide (fu_parse hd = Some (mkFuHeader s e false (nal_unit_type h))).

(** Everything the payload format relies on, of one header byte. *)
Definition header_facts (b0 : Z) : bool :=
  match parse_header b0 with
  | None => false
  | Some h =>
      (type_to_u8 (nal_unit_type h) =? Z.land b0 31) && (serialize_header h =? b0) &&
      fragment_facts b0 h true true && fragment_facts b0 h true false &&
      fragment_facts b0 h false true && fragment_facts b0 h false false
  end.

Lemma header_facts_byte b0 : is_byte b0 -> header_facts b0 = true.
Proof. apply byte_forall. vm_compute. reflexivity. Qed.

Lemma parse_header_byte b0 : is_byte b0 ->
  exists h, parse_header b0 = Some h /\ type_to_u8 (nal_unit_type h) = Z.land b0 31 /\ serialize_header h = b0 /\
    forall s e, fragment_facts b0 h s e = true.
Proof.
  intros Hb. apply header_facts_byte in Hb. unfold header_facts in Hb. destruct (parse_header b0) as [h|]; [|done].
  rewrite !andb_true_iff, !Z.eqb_eq in Hb. destruct Hb as [[[[[Ht Hs] H1] H2] H3] H4]. exists h.
  do 3 (split; [done|]). by intros [] [].
Qed.

(** A STAP-A header has its type, whatever the reference indicator. *)
Lemma stap_header idc : Z.land (serialize_header (mkNalHeader false idc StapA)) 31 = 24.
Proof.
  unfold serialize_header. cbn [forbidden_zero_bit nal_ref_idc nal_unit_type type_to_u8].
  assert (H : 0 <= Z.land idc 3 < 4).
  { change 3 with (Z.ones 2). rewrite Z.land_ones by lia. apply Z.mod_pos_bound. lia. }
  assert (Hc : Z.land idc 3 = 0 \/ Z.land idc 3 = 1 \/ Z.land idc 3 = 2 \/ Z.land idc 3 = 3) by lia.
  by destruct Hc as [->|[->|[->| ->]]].
Qed.

(** ** The receiver *)

Definition classify264 (p : list Z) : Received :=
  match p with
  | [] => RBad
  | h :: t =>
      let ty := Z.land h 31 in
      if (1 <=? ty) && (ty <=? 23) then RUnit p
      else if ty =? 24 then match split_units (length t) t with Some us => RUnits us | None => RBad end
      else if ty =? 28 then
        match t with
        | [] => RBad
        | fu :: data => RFragment (Z.testbit fu 7) (Z.testbit fu 6) [Z.lor (Z.land h 224) (Z.land fu 31)] data
        end
      else RBad
  end.

(** What a receiver is to be handed: delimiters and filler are left out, and the
    parameter sets wait, the newest of each kind, for the next other unit. *)
Definition deliver264 (d : option (list Z) * option (list Z)) (b : list Z) :
    (option (list Z) * option (list Z)) * list (list Z) :=
  let ty := unit_type b in
  if (ty =? 9) || (ty =? 12) then (d, [])
  else if ty =? 8 then ((d.1, Some b), [])
  else if ty =? 7 then ((Some b, d.2), [])
  else match d with
       | (Some sps, Some pps) => ((None, None), [sps; pps; b])
       | _ => (d, [b])
       end.

(** A unit of the stream: a parameter set takes less than half a packet. *)
Definition unit_ok264 (mtu : Z) (b : list Z) : Prop :=
  2 < mtu <= 65535 /\ bytes b /\ b <> [] /\ 1 <= unit_type b <= 23 /\
  (unit_type b = 7 \/ unit_type b = 8 -> 2 * len b + 5 < mtu).

Definition rel264 (mtu : Z) (p : H264Payloader) (d : option (list Z) * option (list Z)) : Prop :=
  p = mkPayloader d.1 d.2 /\
  (forall n, d.1 = Some n \/ d.2 = Some n -> bytes n /\ n <> [] /\ 2 * len n + 5 < mtu).

(** ** Packets *)

Lemma classify_unit mtu b : unit_ok264 mtu b -> classify264 b = RUnit b.
Proof.
  intros (_ & _ & Hne & Ht & _). destruct b as [|b0 t]; [done|]. change (unit_type (b0 :: t)) with (Z.land b0 31) in Ht.
  cbn [classify264]. destruct (Z.leb_spec 1 (Z.land b0 31)); [|lia]. by destruct (Z.leb_spec (Z.land b0 31) 23); [|lia].
Qed.

Lemma stap_ok mtu sps pps :
  (bytes sps /\ sps <> [] /\ 2 * len sps + 5 < mtu) -> (bytes pps /\ pps <> [] /\ 2 * len pps + 5 < mtu) -> mtu <= 65535 ->
  exists p, build_stap_a_packet [sps; pps] = Some p /\ len p < mtu /\ classify264 p = RUnits [sps; pps].
Proof.
  intros (Hb1 & Hn1 & Hl1) (Hb2 & Hn2 & Hl2) Hm. destruct sps as [|s0 s]; [done|]. destruct pps as [|q0 q]; [done|].
  unfold build_stap_a_packet. cbn [max_ref_idc].
  destruct (parse_header_byte s0) as (h1 & -> & _); [by inversion Hb1|].
  destruct (parse_header_byte q0) as (h2 & -> & _); [by inversion Hb2|].
  eexists. split; [done|]. split.
  - rewrite len_cons, len_units. cbn -[len]. lia.
  - cbn [classify264]. rewrite stap_header. cbn [Z.leb Z.compare andb Z.eqb].
    rewrite split_units_join; [done| |].
    + repeat constructor; unfold in_u; pose proof (len_nonneg s); pose proof (len_nonneg q); rewrite len_cons in *; lia.
    + rewrite !bind_cons, !length_app. cbn. lia.
Qed.

Lemma fragments_ok mtu b h b0 t : b = b0 :: t -> bytes b -> 2 < mtu -> mtu < len b -> parse_header b0 = Some h ->
  exists ps, build_fragmented_packets b h mtu = Some ps /\ ps <> [] /\ Forall (fun p => len p <= mtu) ps /\
    delivers classify264 ps [b].
Proof.
  intros -> Hb Hm Hl Hp. destruct (parse_header_byte b0) as (h' & Hp' & _ & _ & Hf); [by inversion Hb|].
  rewrite Hp in Hp'. apply (inj Some) in Hp' as <-. unfold build_fragmented_packets.
  destruct (chunks_below_spec mtu 2 (drop 1 (b0 :: t))) as (fs & E & Hne & Hc & Hfs); [lia| |].
  { cbn. rewrite drop_0. intros ->. change (len [b0]) with 1 in Hl. lia. }
  change (Z.of_nat HEADER_SIZE + Z.of_nat FU_SIZE) with 2. rewrite E. eexists. split; [done|].
  split; [by apply fragment_packets_nonempty|]. split.
  - apply (fragment_packets_len _ _ _ 2); [|done]. intros s e f. rewrite !len_cons. lia.
  - replace (b0 :: t) with ([b0] ++ concat fs) by (rewrite Hc; cbn; by rewrite drop_0). apply delivers_fragments; [|done].
    intros s e f. specialize (Hf s e). unfold fragment_facts in Hf. rewrite !andb_true_iff, !Z.eqb_eq, !eqb_true_iff in Hf.
    destruct Hf as [[[[H1 H2] H3] H4] _]. cbn [classify264]. rewrite H1. cbn [Z.leb Z.compare andb Z.eqb Pos.compare Pos.compare_cont Pos.eqb].
    by rewrite H2, H3, H4.
Qed.

Lemma payload_unit_ok mtu st b h b0 t before ns :
  b = b0 :: t -> unit_ok264 mtu b -> parse_header b0 = Some h ->
  Forall (fun p => len p <= mtu) before -> delivers classify264 before ns ->
  exists ps, payload_unit mtu st b h before = Some (Ok (st, ps)) /\ ps <> [] /\
    Forall (fun p => len p <= mtu) ps /\ delivers classify264 ps (ns ++ [b]).
Proof.
  intros Eb Hok Hp Hbef Hd. pose proof Hok as (Hm & Hb & _). unfold payload_unit.
  destruct (Z.leb_spec (len b) mtu) as [Hl|Hl].
  - eexists. split; [done|]. split; [by destruct before|]. split; [apply Forall_app; split; [done|by constructor]|].
    apply delivers_app; [done|]. apply delivers_unit. by eapply classify_unit.
  - destruct (fragments_ok mtu b h b0 t Eb Hb ltac:(lia) Hl Hp) as (ps & -> & Hne & Hps & Hd').
    eexists. split; [done|]. split; [by destruct before|]. split; [by apply Forall_app|]. by apply delivers_app.
Qed.

#[export] Instance h264_laws : PayloaderLaws classify264 deliver264 rel264 unit_ok264.
Proof.
  intros mtu p d b [-> Hd] Hok. pose proof Hok as (Hm & Hb & Hne & Ht & Hpar).
  destruct b as [|b0 t]; [done|]. set (b := b0 :: t) in *.
  destruct (parse_header_byte b0) as (h & Hp & Hty & _); [by inversion Hb|].
  change (Z.land b0 31) with (unit_type b) in Hty. unfold payload, h264_payloader, h264_payload. cbn [b]. fold b. rewrite Hp.
  assert (Hother : unit_type b <> 7 -> unit_type b <> 8 -> unit_type b <> 9 -> unit_type b <> 12 ->
    exists p' ps,
      match pps_nalu (mkPayloader d.1 d.2), sps_nalu (mkPayloader d.1 d.2) with
      | Some pps, Some sps =>
          match build_stap_a_packet [sps; pps] with
          | None => None
          | Some stap_a =>
              if mtu <=? len stap_a then Some (Ok (mkPayloader d.1 d.2, []))
              else payload_unit mtu (mkPayloader None None) b h [stap_a]
          end
      | _, _ => payload_unit mtu (mkPayloader d.1 d.2) b h []
      end = Some (Ok (p', ps)) /\ rel264 mtu p' (deliver264 d b).1 /\
      delivers classify264 ps (deliver264 d b).2 /\ Forall (fun q => len q <= mtu) ps /\
      (ps = [] -> (deliver264 d b).2 = [])).
  { intros H7 H8 H9 H12. unfold deliver264. rewrite !(proj2 (Z.eqb_neq _ _)) by done. cbn [orb pps_nalu sps_nalu].
    assert (Hplain : forall d, rel264 mtu (mkPayloader d.1 d.2) d -> exists p' ps,
      payload_unit mtu (mkPayloader d.1 d.2) b h [] = Some (Ok (p', ps)) /\ rel264 mtu p' d /\
      delivers classify264 ps [b] /\ Forall (fun q => len q <= mtu) ps /\ (ps = [] -> [b] = [])).
    { intros d' Hd'. destruct (payload_unit_ok mtu (mkPayloader d'.1 d'.2) b h b0 t [] [] eq_refl Hok Hp ltac:(constructor) ltac:(done))
        as (ps & -> & Hps & Hl & Hdel). by exists (mkPayloader d'.1 d'.2), ps. }
    destruct d as [[sps|] [pps|]]; cbn [fst snd] in *; try (by apply (Hplain (_, _))).
    destruct (stap_ok mtu sps pps) as (q & -> & Hq & Hcl); [apply Hd; by left|apply Hd; by right|lia|].
    destruct (Z.leb_spec mtu (len q)); [lia|].
    destruct (payload_unit_ok mtu (mkPayloader None None) b h b0 t [q] [sps; pps] eq_refl Hok Hp) as (ps & -> & Hps & Hl & Hdel);
      [constructor; [lia|constructor]|by apply delivers_units|].
    exists (mkPayloader None None), ps. split; [done|]. split; [|done]. split; [done|]. by intros n [?|?]. }
  assert (Hrel : rel264 mtu (mkPayloader d.1 d.2) d) by by split.
  destruct (nal_unit_type h) eqn:Et; cbn in Hty; try (apply Hother; rewrite <- Hty; done).
  all: unfold deliver264; rewrite <- Hty; cbn [Z.eqb Pos.eqb orb].
  - eexists _, _. split; [done|]. split; [|done]. split; [done|]. cbn. intros n [[= <-]|Hn].
    + split; [done|]. split; [done|]. apply Hpar. by left.
    + apply Hd. by right.
  - eexists _, _. split; [done|]. split; [|done]. split; [done|]. cbn. intros n [Hn|[= <-]].
    + apply Hd. by left.
    + split; [done|]. split; [done|]. apply Hpar. by right.
  - eexists _, _. by split.
  - eexists _, _. by split.
Qed.

(** ** Frames *)

Lemma next_nal_step s : next_nal s = step_with nal_of s.
Proof. done. Qed.

Lemma nal_of_payload d : bytes (unit_payload d) -> unit_payload d <> [] ->
  exists n, nal_of d = Some n /\ nal_data n = unit_payload d /\ type_to_u8 (nal_unit_type (header n)) = unit_type (unit_payload d).
Proof.
  unfold unit_payload, nal_of. intros Hb Hne. set (a := payload_start d) in *.
  assert (Hl : (a < length (full d))%nat).
  { destruct (decide (a < length (full d))%nat); [done|]. by rewrite drop_ge in Hne by lia. }
  destruct (Nat.ltb_spec (length (full d)) (a + HEADER_SIZE)) as [H|_]; [unfold HEADER_SIZE in H; lia|].
  assert (E : at0 (drop a (full d)) 0 = at0 (full d) a) by (unfold at0; rewrite lookup_drop; by rewrite Nat.add_0_r).
  destruct (parse_header_byte (at0 (full d) a)) as (h & -> & Ht & _); [rewrite <- E; by apply is_byte_at0|].
  eexists. split; [done|]. split; [done|]. cbn [header]. unfold unit_type. by rewrite E.
Qed.

Definition not_filler_unit (b : list Z) : Prop := unit_type b <> 12.

#[local] Instance not_filler_unit_dec b : Decision (not_filler_unit b) := ltac:(unfold not_filler_unit; apply _).

Lemma frame_nals ds : Forall (fun b => bytes b /\ b <> []) (unit_payload <$> ds) ->
  exists ns, Forall2 (fun d n => nal_of d = Some n) ds ns /\
    nal_data <$> filter (fun n => not_filler n = true) ns = filter not_filler_unit (unit_payload <$> ds).
Proof.
  induction ds as [|d ds IH]; cbn; intros H; [by exists []|].
  apply Forall_cons in H as [[Hb Hne] H]. destruct (IH H) as (ns & Hns & E).
  destruct (nal_of_payload d Hb Hne) as (n & Hn & Hd & Ht). exists (n :: ns). split; [by constructor|].
  assert (Hf : not_filler n = true <-> not_filler_unit (unit_payload d)).
  { unfold not_filler, not_filler_unit. rewrite <- Ht, negb_true_iff, bool_decide_eq_false.
    split; intros Hx Hy; apply Hx; [|by rewrite Hy]. apply (inj Some). by rewrite <- !type_from_to, Hy. }
  rewrite (filter_cons (fun n => not_filler n = true)).
  destruct (decide (not_filler n = true)); destruct (decide (not_filler_unit (unit_payload d))); try tauto.
  by rewrite fmap_cons, E, Hd.
Qed.

(** Filler leaves the receiver as it is. *)
Lemma deliver_all_filler d bs : deliver_all deliver264 d (filter not_filler_unit bs) = deliver_all deliver264 d bs.
Proof.
  revert d. induction bs as [|b bs IH]; intros d; [done|]. rewrite filter_cons. cbn [deliver_all].
  destruct (decide (not_filler_unit b)) as [H|H]; cbn [deliver_all].
  - destruct (deliver264 d b) as [d1 o]. by rewrite IH.
  - assert (unit_type b = 12) as E by by destruct (decide (unit_type b = 12)). 
    assert (Ed : deliver264 d b = (d, [])) by (unfold deliver264; by rewrite E).
    rewrite Ed, IH. by destruct (deliver_all deliver264 d bs).
Qed.

(** Neither a delimiter, filler nor a parameter set. *)
Definition is_slice (b : list Z) : Prop := unit_type b ∉ [7; 8; 9; 12].

#[local] Instance is_slice_dec b : Decision (is_slice b) := ltac:(unfold is_slice; apply _).

Lemma slice_delivered b : is_slice b -> always_delivered deliver264 b.
Proof.
  unfold is_slice. rewrite !not_elem_of_cons. intros (H7 & H8 & H9 & H12 & _) d. unfold deliver264.
  rewrite !(proj2 (Z.eqb_neq _ _)) by done. cbn. by destruct d as [[?|] [?|]].
Qed.

Lemma deliver_slices d bs :
  (forall n, d.1 = Some n -> unit_type n = 7) -> (forall n, d.2 = Some n -> unit_type n = 8) ->
  filter is_slice (deliver_all deliver264 d bs).2 = filter is_slice bs.
Proof.
  revert d. induction bs as [|b bs IH]; intros d H1 H2; [done|]. cbn [deliver_all].
  assert (Hnot : forall n, unit_type n = 7 \/ unit_type n = 8 -> ~ is_slice n).
  { intros n Hn Hs. unfold is_slice in Hs. rewrite !not_elem_of_cons in Hs. destruct Hs as (? & ? & _). by destruct Hn. }
  destruct (deliver264 d b) as [d1 o] eqn:Ed. destruct (deliver_all deliver264 d1 bs) as [d2 o2] eqn:E2. cbn [snd].
  rewrite filter_app, filter_cons. unfold deliver264 in Ed.
  assert (Hrest : forall d', d1 = d' -> (forall n, d'.1 = Some n -> unit_type n = 7) -> (forall n, d'.2 = Some n -> unit_type n = 8) ->
    filter is_slice o2 = filter is_slice bs) by (intros d' <- Ha Hb; specialize (IH d1 Ha Hb); by rewrite E2 in IH).
  assert (Hno : unit_type b ∈ [7; 8; 9; 12] -> ~ is_slice b) by (by intros Hin Hs; apply Hs).
  destruct (Z.eqb_spec (unit_type b) 9) as [E|H9]; cbn [orb] in Ed.
  { injection Ed as <- <-. rewrite (Hrest _ eq_refl) by done. rewrite decide_False by (apply Hno; rewrite E; set_solver). done. }
  destruct (Z.eqb_spec (unit_type b) 12) as [E|H12].
  { injection Ed as <- <-. rewrite (Hrest _ eq_refl) by done. rewrite decide_False by (apply Hno; rewrite E; set_solver). done. }
  destruct (Z.eqb_spec (unit_type b) 8) as [E|H8].
  { injection Ed as <- <-. rewrite (Hrest _ eq_refl) by (try done; cbn; by intros n [= <-]).
    rewrite decide_False by (apply Hno; rewrite E; set_solver). done. }
  destruct (Z.eqb_spec (unit_type b) 7) as [E|H7].
  { injection Ed as <- <-. rewrite (Hrest _ eq_refl) by (try done; cbn; by intros n [= <-]).
    rewrite decide_False by (apply Hno; rewrite E; set_solver). done. }
  assert (Hs : is_slice b) by (unfold is_slice; set_solver). rewrite decide_True by done.
  destruct d as [[sps|] [pps|]]; injection Ed as <- <-; cbn in H1, H2; rewrite (Hrest _ eq_refl) by done.
  - rewrite !filter_cons, filter_nil. rewrite (decide_False (P := is_slice sps)) by (apply Hnot; left; by apply H1).
    rewrite (decide_False (P := is_slice pps)) by (apply Hnot; right; by apply H2). by rewrite decide_True.
  - rewrite filter_cons, filter_nil. by rewrite decide_True.
  - rewrite filter_cons, filter_nil. by rewrite decide_True.
  - rewrite filter_cons, filter_nil. by rewrite decide_True.
Qed.

(** A unit of an encoder's frame: emulation prevention keeps start codes out. *)
Definition encoded264 (mtu : Z) (b : list Z) : Prop := clean b /\ unit_ok264 (mtu - 12) b.

Lemma h264_frame_ok mtu : 12 <= mtu ->
  frame_law (h264_frame mtu) classify264 deliver264 (rel264 (mtu - 12)) (encoded264 mtu)
    (fun ts bs packets => Forall (fun q => len (body q) <= mtu - 12 /\ timestamp q = ts) packets /\
    (forall b, last bs = Some b -> is_slice b -> marked packets)).
Proof.
  intros Hm s p d ts us Hi Hr Hus. unfold h264_frame.
  destruct (read_clean s us Hi) as (s0 & s' & ds & -> & Hrd & Hi' & Hds).
  { eapply Forall_impl; [exact Hus|]. by intros u []. }
  assert (Hok : Forall (fun b => encoded264 mtu b) us.*2) by by apply Forall_fmap.
  destruct (frame_nals ds) as (ns & Hns & Esamples).
  { rewrite Hds. eapply Forall_impl; [exact Hok|]. by intros b (_ & _ & ? & ? & _). }
  assert (Eread : read_all next_nal (rounds s0) s0 = Some (s', ns)) by by apply (read_all_with nal_of _ _ _ ds).
  rewrite Eread, Esamples, Hds. set (samples := filter not_filler_unit us.*2).
  assert (Hsamples : Forall (unit_ok264 (mtu - 12)) samples).
  { apply Forall_forall. intros b Hb. apply list_elem_of_filter in Hb as [_ Hb].
    rewrite Forall_forall in Hok. by apply Hok. }
  destruct (frame_samples_spec mtu p d ts samples Hm Hr Hsamples) as (p' & packets & -> & Hr' & Hd & Hq & Hmark).
  unfold samples in Hr', Hd. rewrite deliver_all_filler in Hr', Hd. eexists _, _, _. do 5 (split; [done|]).
  intros b Hl Hs. apply (Hmark b); [|by apply slice_delivered]. apply last_filter; [done|].
  intros E. apply Hs. rewrite E. set_solver.
Qed.

(** C15: A stream of H.264 frames, cut at its start codes, filtered, packetized
    and put together by a receiver, its parameter sets each under half a packet (see
    [h264_oversized_parameters] for larger ones), is handed over unit by unit: delimiters and
    filler left out, the parameter sets before the next other unit, and every
    slice, in order and exactly once, with its own bytes. No step panics, every
    packet fits in the MTU under its RTP header and has its frame's timestamp, and
    the marker is on the last packet of a frame that ends in a slice, and on no
    other. *)
Theorem h264_stream_faithful mtu frames :
  12 <= mtu ->
  Forall (fun f : Z * list (AnnexBStartCode * list Z) => Forall (fun u => encoded264 mtu u.2) f.2) frames ->
  let units := frames ≫= (fun f => f.2.*2) in
  exists s p out delivered,
    stream (h264_frame mtu) (splitter_new []) payloader_default ((fun f => (f.1, join f.2)) <$> frames) = Some (s, p, out) /\
    receive_all classify264 None (body <$> concat out) = (None, delivered) /\
    delivered = (deliver_all deliver264 (None, None) units).2 /\
    filter is_slice delivered = filter is_slice units /\
    Forall2 (fun f packets => Forall (fun q => len (body q) <= mtu - 12 /\ timestamp q = f.1) packets /\
      (forall b, last f.2.*2 = Some b -> is_slice b -> marked packets)) frames out.
Proof.
  intros Hm Hf units.
  destruct (stream_ok _ _ _ _ _ _ (splitter_new []) payloader_default (None, None) frames (h264_frame_ok mtu Hm))
    as (s & p & out & E & Hd & Hout).
  { by repeat split. }
  { split; [done|]. by intros n [?|?]. }
  { done. }
  exists s, p, out, (deliver_all deliver264 (None, None) units).2. do 3 (split; [done|]). split; [|done].
  by apply deliver_slices.
Qed.

(** A delimiter, the parameter sets and a slice of three fragments. *)
Lemma h264_stream_faithful_witness :
  let sps := [103; 1; 2] in let pps := [104; 3] in let idr := 101 :: replicate 50 9 in
  let frames := [(90, [(B4, [9; 16]); (B4, sps); (B4, pps); (B3, idr)])] in
  exists s p out delivered,
    stream (h264_frame 36) (splitter_new []) payloader_default ((fun f => (f.1, join f.2)) <$> frames) = Some (s, p, out) /\
    receive_all classify264 None (body <$> concat out) = (None, delivered) /\ delivered = [sps; pps; idr] /\
    (fun q => (marker q, len (body q))) <$> concat out = [(false, 10); (false, 24); (false, 24); (true, 8)].
Proof.
  intros sps pps idr frames.
  destruct (h264_stream_faithful 36 frames) as (s & p & out & delivered & E & Hr & Hd & _).
  { lia. }
  { repeat constructor; cbn [snd]; try done; try (by_decide); unfold is_byte; try lia; cbn; intros; lia. }
  exists s, p, out, delivered. split; [done|]. split; [done|]. split; [by rewrite Hd|].
  vm_compute in E. injection E as <- <- <-. reflexivity.
Defined.

(** ** Parameter sets that do not fit *)

Lemma stap_len sps pps p : build_stap_a_packet [sps; pps] = Some p -> len p = 5 + len sps + len pps.
Proof.
  unfold build_stap_a_packet. destruct (max_ref_idc _ _); [|done]. intros E. apply (inj Some) in E as <-.
  rewrite len_cons, len_units. cbn -[len]. lia.
Qed.

Lemma stap_total sps pps : bytes sps -> sps <> [] -> bytes pps -> pps <> [] -> is_Some (build_stap_a_packet [sps; pps]).
Proof.
  intros Hb1 Hn1 Hb2 Hn2. destruct sps as [|s0 s]; [done|]. destruct pps as [|q0 q]; [done|].
  unfold build_stap_a_packet. cbn [max_ref_idc].
  destruct (parse_header_byte s0) as (h1 & -> & _); [by inversion Hb1|].
  destruct (parse_header_byte q0) as (h2 & -> & _); [by inversion Hb2|]. by eexists.
Qed.

(** Parameter sets that do not fit in one packet stop the video: from then on
    every frame, of any units but new parameter sets, is dropped without an
    error, and the parameter sets stay stored. *)
Theorem h264_oversized_parameters mtu sps pps ts samples :
  12 <= mtu -> bytes sps -> sps <> [] -> bytes pps -> pps <> [] -> mtu - 12 <= 5 + len sps + len pps ->
  Forall (fun b => bytes b /\ b <> [] /\ unit_type b <> 7 /\ unit_type b <> 8) samples ->
  frame_samples mtu (mkPayloader (Some sps) (Some pps)) ts samples = Some (mkPayloader (Some sps) (Some pps), []).
Proof.
  intros Hm Hb1 Hn1 Hb2 Hn2 Hl. induction 1 as [|b samples (Hb & Hne & H7 & H8) _ IH]; [done|].
  assert (Hpay : payload (mtu - 12) (mkPayloader (Some sps) (Some pps)) b = Some (Ok (mkPayloader (Some sps) (Some pps), []))).
  { destruct b as [|b0 t]; [done|]. destruct (parse_header_byte b0) as (h & Hp & Hty & _); [by inversion Hb|].
    change (Z.land b0 31) with (unit_type (b0 :: t)) in Hty. unfold payload, h264_payloader, h264_payload. rewrite Hp.
    destruct (stap_total sps pps Hb1 Hn1 Hb2 Hn2) as [q Eq]. pose proof (stap_len _ _ _ Eq) as Hq.
    cbn [pps_nalu sps_nalu]. rewrite Eq. destruct (Z.leb_spec (mtu - 12) (len q)); [|lia].
    destruct (nal_unit_type h); cbn in Hty; try lia; done. }
  cbn [frame_samples]. unfold packetize. destruct (Z.ltb_spec mtu 12); [lia|]. by rewrite Hpay, IH.
Qed.

Lemma h264_oversized_parameters_witness :
  frame_samples 32 (mkPayloader (Some [103; 1; 2; 3; 4; 5; 6; 7; 8]) (Some [104; 1; 2; 3; 4; 5; 6])) 90 [[101; 9]; [65; 1]] =
    Some (mkPayloader (Some [103; 1; 2; 3; 4; 5; 6; 7; 8]) (Some [104; 1; 2; 3; 4; 5; 6]), []).
Proof.
  apply h264_oversized_parameters; [lia|by_decide|done|by_decide|done|by vm_compute|].
  repeat constructor; try done; unfold is_byte; lia.
Defined.

(** A frame that ends in a start code: the reader's index is out of range. *)
Example frame_ending_in_start_code :
  h264_frame 1200 (splitter_new []) payloader_default 0 [0; 0; 0; 1; 101; 9; 0; 0; 1] = None.
Proof. reflexivity. Qed.
