(* ===== verification/H265Safe.v ===== *)
(** * H.265 over RTP: proofs

    A receiver of RFC 7798, without decoding order numbers, puts back the units of
    every frame, with the parameter sets gathered where the last of the three
    arrives. *)
From S2P Require Import Prelude AnnexB Rtp RtpSafe H265.

(** ** Headers *)

Definition unit_type265 (b : list Z) : Z := Z.shiftr (Z.land (at0 b 0) 126) 1.

(** What the first header byte decides, for either value of the layer's high bit. *)
Definition first_byte_facts (b0 : Z) : bool :=
  match parse_header b0 0 with
  | None => false
  | Some h =>
      (type_to_u8 (nal_unit_type h) =? Z.shiftr (Z.land b0 126) 1) &&
      ((let f := Z.lor (Z.lor (if forbidden_zero_bit h then 128 else 0) 98) (Z.land b0 1) in
        (Z.shiftr (Z.land f 126) 1 =? 49) &&
        forallb (fun se : Z => let hd := Z.lor se (Z.land (type_to_u8 (nal_unit_type h)) 63) in
          (Z.lor (Z.land f 129) (Z.shiftl (Z.land hd 63) 1) =? b0) &&
          Bool.eqb (Z.testbit hd 7) (negb (Z.land se 128 =? 0)) && Bool.eqb (Z.testbit hd 6) (negb (Z.land se 64 =? 0)))
          [0; 64; 128; 192]))
  end.

Lemma first_byte_facts_byte b0 : is_byte b0 -> first_byte_facts b0 = true.
Proof. apply byte_forall. vm_compute. reflexivity. Qed.

(** What the second one decides, for either value of that bit. *)
Definition second_byte_facts (b1 : Z) : bool :=
  forallb (fun c => let layer := Z.lor (Z.shiftl c 5) (Z.shiftr (Z.land b1 248) 3) in
    (Z.land (Z.shiftr layer 5) 1 =? c) && (Z.lor (Z.shiftl (Z.land layer 31) 3) (Z.land (Z.land b1 7) 7) =? b1)) [0; 1].

Lemma second_byte_facts_byte b1 : is_byte b1 -> second_byte_facts b1 = true.
Proof. apply byte_forall. vm_compute. reflexivity. Qed.

Lemma land_1_cases z : Z.land z 1 = 0 \/ Z.land z 1 = 1.
Proof.
  pose proof (Z.land_ones z 1 ltac:(lia)) as H. change (Z.ones 1) with 1 in H. change (2 ^ 1) with 2 in H.
  rewrite H. pose proof (Z.mod_pos_bound z 2 ltac:(lia)). lia.
Qed.

(** The headers of a unit's fragments, and the header put back from them. *)
Lemma parse_header_265 b0 b1 : is_byte b0 -> is_byte b1 ->
  exists h, parse_header b0 b1 = Some h /\ type_to_u8 (nal_unit_type h) = Z.shiftr (Z.land b0 126) 1 /\
    exists f, serialize_header (mkNalHeader (forbidden_zero_bit h) FragmentationUnit (nuh_layer_id h) (nuh_temporal_id_plus1 h)) = [f; b1] /\
      Z.shiftr (Z.land f 126) 1 = 49 /\
      forall s e, let hd := fu_serialize (mkFuHeader s e (nal_unit_type h)) in
        Z.lor (Z.land f 129) (Z.shiftl (Z.land hd 63) 1) = b0 /\ Z.testbit hd 7 = s /\ Z.testbit hd 6 = e.
Proof.
  intros H0 H1. apply first_byte_facts_byte in H0. apply second_byte_facts_byte in H1.
  unfold first_byte_facts, parse_header in H0. unfold parse_header. destruct (type_from_u8 _) as [t|]; [|done].
  cbn [nal_unit_type forbidden_zero_bit nuh_layer_id nuh_temporal_id_plus1] in *.
  rewrite !andb_true_iff, !Z.eqb_eq in H0. destruct H0 as (Ht & Hf & Hfu).
  cbn [forallb] in Hfu. rewrite !andb_true_iff, !Z.eqb_eq, !eqb_true_iff in Hfu.
  destruct Hfu as (F1 & F2 & F3 & F4 & _).
  unfold second_byte_facts in H1. cbn [forallb] in H1. rewrite !andb_true_iff, !Z.eqb_eq in H1.
  destruct H1 as ([L1 L2] & [L3 L4] & _).
  eexists. split; [done|]. cbn [nal_unit_type forbidden_zero_bit nuh_layer_id nuh_temporal_id_plus1]. split; [done|].
  eexists. split; [|split; [exact Hf|]].
  - unfold serialize_header. cbn [nal_unit_type forbidden_zero_bit nuh_layer_id nuh_temporal_id_plus1].
    change (Z.shiftl (Z.land (type_to_u8 FragmentationUnit) 63) 1) with 98.
    destruct (land_1_cases b0) as [->| ->]; [by rewrite L1, L2|by rewrite L3, L4].
  - intros s e. unfold fu_serialize. cbn [fu_start fu_end fu_type]. destruct s, e; tauto.
Qed.

(** An aggregate's header has its type, whatever the ids. *)
Lemma aggregate_type fz layer tid :
  exists a b, serialize_header (mkNalHeader fz AggregationUnit layer tid) = [a; b] /\ Z.shiftr (Z.land a 126) 1 = 48.
Proof.
  eexists _, _. split; [done|]. cbn [forbidden_zero_bit nal_unit_type nuh_layer_id].
  change (Z.shiftl (Z.land (type_to_u8 AggregationUnit) 63) 1) with 96.
  destruct (land_1_cases (Z.shiftr layer 5)) as [->| ->]; by destruct fz.
Qed.

(** ** The receiver *)

Definition classify265 (p : list Z) : Received :=
  match p with
  | h0 :: h1 :: t =>
      let ty := Z.shiftr (Z.land h0 126) 1 in
      if ty <? 48 then RUnit p
      else if ty =? 48 then match split_units (length t) t with Some us => RUnits us | None => RBad end
      else if ty =? 49 then
        match t with
        | [] => RBad
        | fu :: data =>
            RFragment (Z.testbit fu 7) (Z.testbit fu 6)
              [Z.lor (Z.land h0 129) (Z.shiftl (Z.land fu 63) 1); h1] data
        end
      else RBad
  | _ => RBad
  end.

(** The newest parameter set of each kind. *)
Record Parameters := mkParameters {
  vps : option (list Z);
  sps : option (list Z);
  pps : option (list Z)
}.

(** What a receiver is to be handed: the three parameter sets together, where the
    last of them arrives, and every other unit in its place. *)
Definition deliver265 (d : Parameters) (b : list Z) : Parameters * list (list Z) :=
  let ty := unit_type265 b in
  let d := if ty =? 32 then mkParameters (Some b) (sps d) (pps d)
           else if ty =? 33 then mkParameters (vps d) (Some b) (pps d)
           else if ty =? 34 then mkParameters (vps d) (sps d) (Some b) else d in
  match vps d, sps d, pps d with
  | Some v, Some s, Some p => (mkParameters None None None, [v; s; p])
  | _, _, _ => if (32 <=? ty) && (ty <=? 34) then (d, []) else (d, [b])
  end.

(** A unit of the stream: a parameter set fits in a packet. *)
Definition unit_ok265 (mtu : Z) (b : list Z) : Prop :=
  3 < mtu <= 65535 /\ bytes b /\ 2 <= len b /\ unit_type265 b < 48 /\
  (32 <= unit_type265 b <= 34 -> len b <= mtu).

Definition stored_ok (mtu : Z) (b : list Z) : Prop :=
  bytes b /\ 2 <= len b /\ 32 <= unit_type265 b <= 34 /\ len b <= mtu.

(** Never all three at once: the payloader sends them as soon as it has them. *)
Definition rel265 (mtu : Z) (p : H265Payloader) (d : Parameters) : Prop :=
  p = mkPayloader (vps d) (sps d) (pps d) /\
  (forall n, vps d = Some n \/ sps d = Some n \/ pps d = Some n -> stored_ok mtu n) /\
  (vps d = None \/ sps d = None \/ pps d = None).

(** ** Packets *)

Lemma two_bytes b : bytes b -> 2 <= len b -> exists b0 b1 t, b = b0 :: b1 :: t /\ is_byte b0 /\ is_byte b1.
Proof.
  intros Hb Hl. destruct b as [|b0 [|b1 t]]; [by cbn in Hl|by cbn in Hl|]. exists b0, b1, t.
  inversion Hb as [|? ? ? Hb']; inversion Hb'. done.
Qed.

Lemma classify_unit_265 b : 2 <= len b -> unit_type265 b < 48 -> classify265 b = RUnit b.
Proof.
  intros Hl Ht. destruct b as [|b0 [|b1 t]]; [by cbn in Hl|by cbn in Hl|].
  change (unit_type265 (b0 :: b1 :: t)) with (Z.shiftr (Z.land b0 126) 1) in Ht. cbn [classify265].
  by rewrite (proj2 (Z.ltb_lt _ 48)).
Qed.

Lemma aggregate_total ns acc : Forall (fun n => bytes n /\ 2 <= len n) ns ->
  exists h, aggregate_header ns acc = Some h /\ nal_unit_type h = nal_unit_type acc.
Proof.
  intros Hns. revert acc. induction Hns as [|n ns [Hb Hl] _ IH]; intros acc; [by exists acc|].
  destruct (two_bytes n Hb Hl) as (b0 & b1 & t & -> & H0 & H1). cbn [aggregate_header].
  destruct (parse_header_265 b0 b1 H0 H1) as (h & -> & _). exact (IH _).
Qed.

(** Three parameter sets: in one packet where that fits, else in three. *)
Lemma parameters_ok mtu v s p : mtu <= 65535 -> stored_ok mtu v -> stored_ok mtu s -> stored_ok mtu p ->
  exists q, build_aggregation_packet [v; s; p] = Some q /\
    let ps := if len q <=? mtu then [q] else [v; s; p] in
    delivers classify265 ps [v; s; p] /\ Forall (fun p => len p <= mtu) ps.
Proof.
  intros Hm Hv Hs Hp. unfold build_aggregation_packet.
  destruct (aggregate_total [v; s; p] (mkNalHeader false AggregationUnit 255 255)) as ([fz ty layer tid] & -> & E).
  { destruct Hv as (? & ? & _), Hs as (? & ? & _), Hp as (? & ? & _). by repeat constructor. }
  cbn in E. subst ty. destruct (aggregate_type fz layer tid) as (a & b & -> & Ht). eexists. split; [done|]. cbv zeta.
  destruct Hv as (? & ? & ? & ?), Hs as (? & ? & ? & ?), Hp as (? & ? & ? & ?).
  destruct (Z.leb_spec (len ([a; b] ++ ([v; s; p] ≫= (fun n => u16_be (len n) ++ n)))) mtu) as [Hl|Hl].
  - split; [|by constructor]. apply delivers_units. cbn [app classify265]. rewrite Ht. cbn [Z.ltb Z.compare Z.eqb Pos.compare Pos.compare_cont Pos.eqb].
    rewrite split_units_join; [done| |].
    + repeat constructor; unfold in_u; lia.
    + rewrite !bind_cons, !length_app. cbn. lia.
  - split; [|by repeat constructor]. change [v; s; p] with ([v] ++ [s] ++ [p]).
    repeat apply delivers_app; apply delivers_unit, classify_unit_265; lia.
Qed.

Lemma fragments_ok_265 mtu b h b0 b1 t : b = b0 :: b1 :: t -> bytes b -> 3 < mtu -> mtu < len b -> parse_header b0 b1 = Some h ->
  exists ps, build_fragmented_packets h b mtu = Some ps /\ ps <> [] /\ Forall (fun p => len p <= mtu) ps /\
    delivers classify265 ps [b].
Proof.
  intros -> Hb Hm Hl Hp.
  destruct (parse_header_265 b0 b1) as (h' & Hp' & _ & f & Hser & Hf & Hfu); [inversion Hb; done|inversion Hb as [|? ? ? Hb']; by inversion Hb'|].
  rewrite Hp in Hp'. apply (inj Some) in Hp' as <-. unfold build_fragmented_packets. rewrite Hser.
  destruct (chunks_below_spec mtu 3 (drop 2 (b0 :: b1 :: t))) as (fs & E & Hne & Hc & Hfs); [lia| |].
  { cbn. rewrite drop_0. intros ->. change (len [b0; b1]) with 2 in Hl. lia. }
  change (Z.of_nat HEADER_SIZE + Z.of_nat FU_SIZE) with 3. rewrite E. eexists. split; [done|].
  split; [by apply fragment_packets_nonempty|]. split.
  - apply (fragment_packets_len _ _ _ 3); [|done]. intros s e g. rewrite !len_app. cbn -[len]. change (len [f; b1]) with 2.
    change (len [fu_serialize (mkFuHeader s e (nal_unit_type h))]) with 1. lia.
  - replace (b0 :: b1 :: t) with ([b0; b1] ++ concat fs) by (rewrite Hc; cbn; by rewrite drop_0).
    apply delivers_fragments; [|done]. intros s e g. destruct (Hfu s e) as (E1 & E2 & E3). cbn [app classify265].
    rewrite Hf. cbn [Z.ltb Z.compare Z.eqb Pos.compare Pos.compare_cont Pos.eqb]. by rewrite E1, E2, E3.
Qed.

Lemma store_spec v s p t b :
  store_parameters (mkPayloader v s p) t b =
    let ty := type_to_u8 t in
    if ty =? 32 then mkPayloader (Some b) s p
    else if ty =? 33 then mkPayloader v (Some b) p
    else if ty =? 34 then mkPayloader v s (Some b) else mkPayloader v s p.
Proof. by destruct t. Qed.

Lemma is_parameter_spec t : is_parameter t = (32 <=? type_to_u8 t) && (type_to_u8 t <=? 34).
Proof. by destruct t. Qed.

#[export] Instance h265_laws : PayloaderLaws classify265 deliver265 rel265 unit_ok265.
Proof.
  intros mtu p d b (-> & Hd & Hnone) (Hm & Hb & Hl & Ht & Hpar).
  destruct (two_bytes b Hb Hl) as (b0 & b1 & t & Eb & H0 & H1).
  destruct (parse_header_265 b0 b1 H0 H1) as (h & Hp & Hty & _).
  assert (Hty' : type_to_u8 (nal_unit_type h) = unit_type265 b) by (by rewrite Eb).
  assert (Hpay : payload mtu (mkPayloader (vps d) (sps d) (pps d)) b =
    let st := store_parameters (mkPayloader (vps d) (sps d) (pps d)) (nal_unit_type h) b in
    match vps_nalu st, sps_nalu st, pps_nalu st with
    | Some vps, Some sps, Some pps =>
        match build_aggregation_packet [vps; sps; pps] with
        | None => None
        | Some packet =>
            if len packet <=? mtu then Some (Ok (payloader_default, [packet]))
            else Some (Ok (payloader_default, [build_single_packet vps; build_single_packet sps; build_single_packet pps]))
        end
    | _, _, _ =>
        if is_parameter (nal_unit_type h) then Some (Ok (st, []))
        else if len b <=? mtu then Some (Ok (st, [build_single_packet b]))
        else match build_fragmented_packets h b mtu with None => None | Some ps => Some (Ok (st, ps)) end
    end).
  { rewrite Eb. unfold payload, h265_payloader, h265_payload. by rewrite Hp. }
  rewrite Hpay. cbv zeta. rewrite store_spec, is_parameter_spec, Hty'. cbv zeta. unfold deliver265.
  set (d' := if unit_type265 b =? 32 then mkParameters (Some b) (sps d) (pps d) else _).
  assert (E : (if unit_type265 b =? 32 then mkPayloader (Some b) (sps d) (pps d)
     else if unit_type265 b =? 33 then mkPayloader (vps d) (Some b) (pps d)
     else if unit_type265 b =? 34 then mkPayloader (vps d) (sps d) (Some b)
     else mkPayloader (vps d) (sps d) (pps d)) = mkPayloader (vps d') (sps d') (pps d')) by (unfold d'; by repeat case_match).
  rewrite E. cbn [vps_nalu sps_nalu pps_nalu].
  assert (Hd' : forall n, vps d' = Some n \/ sps d' = Some n \/ pps d' = Some n -> stored_ok mtu n).
  { assert (Hself : 32 <= unit_type265 b <= 34 -> stored_ok mtu b) by (intros Hr; split; [done|split; [done|split; [done|by apply Hpar]]]).
    intros n. unfold d'. destruct (Z.eqb_spec (unit_type265 b) 32); [cbn; intros [[= <-]|[?|?]]; [apply Hself; lia|apply Hd; tauto..]|].
    destruct (Z.eqb_spec (unit_type265 b) 33); [cbn; intros [?|[[= <-]|?]]; [apply Hd; tauto|apply Hself; lia|apply Hd; tauto]|].
    destruct (Z.eqb_spec (unit_type265 b) 34); [cbn; intros [?|[?|[= <-]]]; [apply Hd; tauto..|apply Hself; lia]|].
    apply Hd. }
  assert (Hrest : vps d' = None \/ sps d' = None \/ pps d' = None -> exists p' ps,
    (if (32 <=? unit_type265 b) && (unit_type265 b <=? 34)
     then Some (Ok (mkPayloader (vps d') (sps d') (pps d'), [])) : option (result (H265Payloader * list (list Z)) RtpError)
     else if len b <=? mtu then Some (Ok (mkPayloader (vps d') (sps d') (pps d'), [build_single_packet b]))
     else match build_fragmented_packets h b mtu return option (result (H265Payloader * list (list Z)) RtpError) with
          | None => None | Some ps => Some (Ok (mkPayloader (vps d') (sps d') (pps d'), ps)) end) = Some (Ok (p', ps)) /\
    rel265 mtu p' (if (32 <=? unit_type265 b) && (unit_type265 b <=? 34) then (d', @nil (list Z)) else (d', [b])).1 /\
    delivers classify265 ps (if (32 <=? unit_type265 b) && (unit_type265 b <=? 34) then (d', []) else (d', [b])).2 /\
    Forall (fun q => len q <= mtu) ps /\
    (ps = [] -> (if (32 <=? unit_type265 b) && (unit_type265 b <=? 34) then (d', []) else (d', [b])).2 = [])).
  { intros Hn. assert (Hr : rel265 mtu (mkPayloader (vps d') (sps d') (pps d')) d') by by split.
    destruct (_ && _).
    - eexists _, _. by split.
    - destruct (Z.leb_spec (len b) mtu) as [Hle|Hgt].
      + eexists _, _. split; [done|]. split; [done|]. split; [by apply delivers_unit, classify_unit_265|].
        split; [by constructor|done].
      + destruct (fragments_ok_265 mtu b h b0 b1 t Eb Hb ltac:(lia) Hgt Hp) as (ps & -> & Hne & Hps & Hdel).
        by eexists _, _. }
  destruct (vps d') as [v|] eqn:Ev; [|by apply Hrest; left].
  destruct (sps d') as [s|] eqn:Es; [|by apply Hrest; right; left].
  destruct (pps d') as [q|] eqn:Eq; [|by apply Hrest; right; right].
  destruct (parameters_ok mtu v s q) as (pk & -> & Hdel & Hlen); [lia|apply Hd'; by left|apply Hd'; right; by left|apply Hd'; right; by right|].
  destruct (len pk <=? mtu); eexists _, _; (split; [done|]); (split; [|done]).
  all: split; [done|]; split; [by intros n [?|[?|?]]|by left].
Qed.

(** ** Frames *)

Lemma nal_of_payload_265 d : bytes (unit_payload d) -> 2 <= len (unit_payload d) ->
  exists n, nal_of d = Some n /\ nal_data n = unit_payload d.
Proof.
  unfold unit_payload, nal_of. intros Hb Hl. set (a := payload_start d) in *.
  unfold len in Hl. rewrite length_drop in Hl.
  destruct (Nat.ltb_spec (length (full d)) (a + HEADER_SIZE)) as [H|_]; [unfold HEADER_SIZE in H; lia|].
  assert (E : forall i, at0 (drop a (full d)) i = at0 (full d) (a + i)) by (intros i; unfold at0; by rewrite lookup_drop).
  pose proof (E 0%nat) as E0. rewrite Nat.add_0_r in E0.
  destruct (parse_header_265 (at0 (full d) a) (at0 (full d) (a + 1))) as (h & -> & _);
    [rewrite <- E0; by apply is_byte_at0|rewrite <- E; by apply is_byte_at0|]. by eexists.
Qed.

Lemma frame_nals_265 ds : Forall (fun b => bytes b /\ 2 <= len b) (unit_payload <$> ds) ->
  exists ns, Forall2 (fun d n => nal_of d = Some n) ds ns /\ nal_data <$> ns = unit_payload <$> ds.
Proof.
  induction ds as [|d ds IH]; cbn; intros H; [by exists []|].
  apply Forall_cons in H as [[Hb Hl] H]. destruct (IH H) as (ns & Hns & E).
  destruct (nal_of_payload_265 d Hb Hl) as (n & Hn & Hd). exists (n :: ns). split; [by constructor|].
  by rewrite fmap_cons, E, Hd.
Qed.

Definition is_slice265 (b : list Z) : Prop := ~ 32 <= unit_type265 b <= 34.

#[local] Instance is_slice265_dec b : Decision (is_slice265 b) := ltac:(unfold is_slice265; apply _).

Lemma deliver_slice d b : is_slice265 b -> (vps d = None \/ sps d = None \/ pps d = None) -> deliver265 d b = (d, [b]).
Proof.
  intros Hs Hn. unfold is_slice265 in Hs. unfold deliver265.
  destruct (Z.eqb_spec (unit_type265 b) 32); [lia|]. destruct (Z.eqb_spec (unit_type265 b) 33); [lia|].
  destruct (Z.eqb_spec (unit_type265 b) 34); [lia|].
  assert (E : (32 <=? unit_type265 b) && (unit_type265 b <=? 34) = false).
  { destruct (Z.leb_spec 32 (unit_type265 b)), (Z.leb_spec (unit_type265 b) 34); try done. lia. }
  rewrite E. destruct d as [[v|] [s|] [p|]]; try done. by destruct Hn as [?|[?|?]].
Qed.

Lemma slice_delivered_265 b : is_slice265 b -> always_delivered deliver265 b.
Proof.
  intros Hs [[v|] [s|] [p|]]; try (rewrite deliver_slice; [done|done|cbn; tauto]).
  unfold is_slice265 in Hs. unfold deliver265. cbn [vps sps pps].
  destruct (Z.eqb_spec (unit_type265 b) 32); [lia|]. destruct (Z.eqb_spec (unit_type265 b) 33); [lia|].
  by destruct (Z.eqb_spec (unit_type265 b) 34); [lia|].
Qed.

(** A parameter set delivers none, or the three of them. *)
Lemma deliver_parameter d b : ~ is_slice265 b ->
  (forall n, vps d = Some n \/ sps d = Some n \/ pps d = Some n -> ~ is_slice265 n) ->
  (vps d = None \/ sps d = None \/ pps d = None) ->
  let '(d', out) := deliver265 d b in
  Forall (fun n => ~ is_slice265 n) out /\
  (forall n, vps d' = Some n \/ sps d' = Some n \/ pps d' = Some n -> ~ is_slice265 n) /\
  (vps d' = None \/ sps d' = None \/ pps d' = None).
Proof.
  intros Hb Hd Hn. unfold deliver265.
  assert (E : (32 <=? unit_type265 b) && (unit_type265 b <=? 34) = true).
  { unfold is_slice265 in Hb. apply andb_true_iff. rewrite !Z.leb_le. lia. }
  rewrite E. set (d' := if unit_type265 b =? 32 then mkParameters (Some b) (sps d) (pps d) else _).
  assert (Hd' : forall n, vps d' = Some n \/ sps d' = Some n \/ pps d' = Some n -> ~ is_slice265 n).
  { intros n. unfold d'. destruct (unit_type265 b =? 32); [cbn; intros [[= <-]|[?|?]]; [done|apply Hd; tauto..]|].
    destruct (unit_type265 b =? 33); [cbn; intros [?|[[= <-]|?]]; [apply Hd; tauto|done|apply Hd; tauto]|].
    destruct (unit_type265 b =? 34); [cbn; intros [?|[?|[= <-]]]; [apply Hd; tauto..|done]|]. apply Hd. }
  clearbody d'. destruct d' as [[v|] [s|] [p|]]; cbn in Hd' |- *; try (split; [constructor|]; split; [done|tauto]).
  split; [|split; [by intros n [?|[?|?]]|by left]].
  constructor; [apply Hd'; by left|]. constructor; [apply Hd'; right; by left|]. constructor; [apply Hd'; right; by right|constructor].
Qed.

Lemma deliver_slices_265 d bs :
  (forall n, vps d = Some n \/ sps d = Some n \/ pps d = Some n -> ~ is_slice265 n) ->
  (vps d = None \/ sps d = None \/ pps d = None) ->
  filter is_slice265 (deliver_all deliver265 d bs).2 = filter is_slice265 bs.
Proof.
  revert d. induction bs as [|b bs IH]; intros d Hd Hn; [done|]. cbn [deliver_all]. rewrite filter_cons.
  destruct (decide (is_slice265 b)) as [Hs|Hs].
  - rewrite deliver_slice by done. specialize (IH d Hd Hn). destruct (deliver_all deliver265 d bs). cbn [snd] in *.
    by rewrite filter_app, IH, filter_cons_True, filter_nil.
  - pose proof (deliver_parameter d b Hs Hd Hn) as H. destruct (deliver265 d b) as [d' out].
    destruct H as (Hout & Hd' & Hn'). specialize (IH d' Hd' Hn'). destruct (deliver_all deliver265 d' bs). cbn [snd] in *.
    rewrite filter_app, IH. assert (filter is_slice265 out = []) as ->; [|done].
    clear -Hout. induction Hout; [done|]. by rewrite filter_cons_False.
Qed.

(** A unit of an encoder's frame. *)
Definition encoded265 (mtu : Z) (b : list Z) : Prop := clean b /\ unit_ok265 (mtu - 12) b.

Lemma h265_frame_ok mtu : 12 <= mtu ->
  frame_law (h265_frame mtu) classify265 deliver265 (rel265 (mtu - 12)) (encoded265 mtu)
    (frame_packets_ok deliver265 mtu).
Proof.
  intros Hm s p d ts us Hi Hr Hus. unfold h265_frame.
  destruct (read_clean s us Hi) as (s0 & s' & ds & -> & Hrd & Hi' & Hds).
  { eapply Forall_impl; [exact Hus|]. by intros u []. }
  assert (Hok : Forall (fun b => encoded265 mtu b) us.*2) by by apply Forall_fmap.
  destruct (frame_nals_265 ds) as (ns & Hns & Esamples).
  { rewrite Hds. eapply Forall_impl; [exact Hok|]. by intros b (_ & _ & ? & ? & _). }
  assert (Eread : read_all next_nal (rounds s0) s0 = Some (s', ns)) by by apply (read_all_with nal_of _ _ _ ds).
  rewrite Eread, Esamples, Hds.
  assert (Hsamples : Forall (unit_ok265 (mtu - 12)) us.*2) by (eapply Forall_impl; [exact Hok|]; by intros b []).
  destruct (frame_samples_spec mtu p d ts us.*2 Hm Hr Hsamples) as (p' & packets & -> & Hr' & Hd & Hq).
  by eexists _, _, _.
Qed.

(** The same of H.265: the three parameter sets are handed over together where
    the last of them arrives, in one packet if they fit, and every other unit in
    order and exactly once. No step panics, every packet fits in the MTU under its
    RTP header and has its frame's timestamp, and the marker is on the last packet
    of a frame that ends in a slice, and on no other. *)
Theorem h265_stream_faithful mtu frames :
  12 <= mtu ->
  Forall (fun f : Z * list (AnnexBStartCode * list Z) => Forall (fun u => encoded265 mtu u.2) f.2) frames ->
  let units := frames ≫= (fun f => f.2.*2) in
  exists s p out delivered,
    stream (h265_frame mtu) (splitter_new []) payloader_default ((fun f => (f.1, join f.2)) <$> frames) = Some (s, p, out) /\
    receive_all classify265 None (body <$> concat out) = (None, delivered) /\
    delivered = (deliver_all deliver265 (mkParameters None None None) units).2 /\
    filter is_slice265 delivered = filter is_slice265 units /\
    Forall2 (fun f packets => Forall (fun q => len (body q) <= mtu - 12 /\ timestamp q = f.1) packets /\
      (forall b, last f.2.*2 = Some b -> is_slice265 b -> marked packets)) frames out.
Proof.
  intros Hm Hf units.
  destruct (stream_ok _ _ _ _ _ _ (splitter_new []) payloader_default (mkParameters None None None) frames (h265_frame_ok mtu Hm))
    as (s & p & out & E & Hd & Hout).
  { by repeat split. }
  { split; [done|]. split; [by intros n [?|[?|?]]|by left]. }
  { done. }
  exists s, p, out, (deliver_all deliver265 (mkParameters None None None) units).2. do 3 (split; [done|]). split.
  - apply deliver_slices_265; [by intros n [?|[?|?]]|by left].
  - eapply Forall2_impl; [exact Hout|]. intros f packets [Hq Hmark]. split; [done|].
    intros b Hl Hs. by apply (Hmark b); [|apply slice_delivered_265].
Qed.

(** The parameter sets in one packet and a slice of three fragments. *)
Lemma h265_stream_faithful_witness :
  let vps := [64; 1; 5] in let sps := [66; 1; 2] in let pps := [68; 1; 3] in let idr := 38 :: 1 :: replicate 50 9 in
  let frames := [(90, [(B4, vps); (B4, sps); (B4, pps); (B3, idr)])] in
  exists s p out delivered,
    stream (h265_frame 36) (splitter_new []) payloader_default ((fun f => (f.1, join f.2)) <$> frames) = Some (s, p, out) /\
    receive_all classify265 None (body <$> concat out) = (None, delivered) /\ delivered = [vps; sps; pps; idr] /\
    (fun q => (marker q, len (body q))) <$> concat out = [(false, 17); (false, 24); (false, 24); (true, 11)].
Proof.
  intros vps sps pps idr frames.
  destruct (h265_stream_faithful 36 frames) as (s & p & out & delivered & E & Hr & Hd & _).
  { lia. }
  { repeat constructor; cbn [snd]; try done; try (by_decide); unfold is_byte; try lia; cbn; intros; try lia; by vm_compute. }
  exists s, p, out, delivered. split; [done|]. split; [done|]. split; [by rewrite Hd|].
  vm_compute in E. injection E as <- <- <-. reflexivity.
Defined.
