(* ===== verification/Slice.v ===== *)
(** * Slices of a frame (transport-core/src/slice.rs)

    The reassembler that groups a frame's slices, against a reference that reads
    what has been collected off the history of slices and outcomes. *)
From S2P Require Import Prelude.

Definition MAX_SLICES : Z := 4.

Inductive SliceOutcome : Type := SlicePending | FrameComplete | Gated | EpochReset | Malformed.

Record SliceReassembler := mkSlices {
  sl_epoch : Z;
  awaiting_key : bool;
  frame_id : option Z;
  slice_count : Z;
  got : Z;
  dropped_partial : Z
}.

Definition slices_new (epoch : Z) : SliceReassembler := mkSlices epoch true None 0 0 0.

(** [drop_partial_if_incomplete]: the new count of partial frames. *)
Definition drop_partial (r : SliceReassembler) : Z :=
  if negb (bool_decide (frame_id r = None)) && negb (got r =? 0) then dropped_partial r + 1 else dropped_partial r.

Definition request_recovery (r : SliceReassembler) : SliceReassembler :=
  mkSlices (sl_epoch r) true None (slice_count r) 0 (drop_partial r).

(** The end of [push]: the slice is counted in. *)
Definition add_slice (r : SliceReassembler) (slice_index slice_count : Z) (is_key : bool) :
    SliceReassembler * SliceOutcome :=
  let g := Z.lor (got r) (Z.shiftl 1 slice_index) in
  if g =? Z.shiftl 1 slice_count - 1
  then (mkSlices (sl_epoch r) (if is_key then false else awaiting_key r) None slice_count 0 (dropped_partial r), FrameComplete)
  else (mkSlices (sl_epoch r) (awaiting_key r) (frame_id r) slice_count g (dropped_partial r), SlicePending).

Definition push_slice (r : SliceReassembler) (epoch fid slice_index count : Z) (is_key : bool) :
    SliceReassembler * SliceOutcome :=
  if (count =? 0) || (MAX_SLICES <? count) || (count <=? slice_index) then (r, Malformed)
  else
    let changed := negb (epoch =? sl_epoch r) in
    let r := if changed then mkSlices epoch true None 0 0 (drop_partial r) else r in
    if changed && negb is_key then (r, EpochReset)
    else if awaiting_key r && negb is_key then (r, Gated)
    else if negb (bool_decide (frame_id r = Some fid)) then
      add_slice (mkSlices (sl_epoch r) (awaiting_key r) (Some fid) count 0 (drop_partial r)) slice_index count is_key
    else if negb (slice_count r =? count) then (r, Malformed)
    else add_slice r slice_index count is_key.

(** ** The reference *)

Inductive slice_op : Type :=
| PushSlice (epoch fid slice_index count : Z) (is_key : bool)
| Recover.

Definition slice_op_ok (op : slice_op) : Prop :=
  match op with PushSlice _ _ i c _ => 0 <= i /\ 0 <= c | Recover => True end.

Definition slice_step (r : SliceReassembler) (op : slice_op) : SliceReassembler * option SliceOutcome :=
  match op with
  | PushSlice e f i c k => let '(r, o) := push_slice r e f i c k in (r, Some o)
  | Recover => (request_recovery r, None)
  end.

(** Newest first. *)
Definition slice_history : Type := list (slice_op * option SliceOutcome).

Fixpoint slices_run (r : SliceReassembler) (h : slice_history) (ops : list slice_op) : SliceReassembler * slice_history :=
  match ops with
  | [] => (r, h)
  | op :: ops => let '(r, o) := slice_step r op in slices_run r ((op, o) :: h) ops
  end.

(** The epoch of the last slice that was taken, or that reset. *)
Fixpoint slice_epoch (e0 : Z) (h : slice_history) : Z :=
  match h with
  | (PushSlice e _ _ _ _, Some (SlicePending | FrameComplete | EpochReset)) :: _ => e
  | _ :: h => slice_epoch e0 h
  | [] => e0
  end.

(** A key is awaited since the start, a recovery or a new epoch, until a frame is
    complete. *)
Fixpoint gated (e0 : Z) (h : slice_history) : bool :=
  match h with
  | [] => true
  | (Recover, _) :: _ | (_, Some EpochReset) :: _ => true
  | (_, Some FrameComplete) :: _ => false
  | (PushSlice e _ _ _ _, Some SlicePending) :: h => negb (e =? slice_epoch e0 h) || gated e0 h
  | _ :: h => gated e0 h
  end.

(** The frame in progress: its epoch, its id, its count, and the slices so far. *)
Fixpoint collected (h : slice_history) : option (Z * Z * Z * list Z) :=
  match h with
  | [] => None
  | (Recover, _) :: _ | (_, Some (FrameComplete | EpochReset)) :: _ => None
  | (PushSlice e f i c _, Some SlicePending) :: h =>
      match collected h with
      | Some (e', f', c', ss) => if bool_decide ((e', f') = (e, f)) then Some (e, f, c', i :: ss) else Some (e, f, c, [i])
      | None => Some (e, f, c, [i])
      end
  | _ :: h => collected h
  end.

(** The slices of this very frame that are already there. *)
Definition slices_of (h : slice_history) (e f : Z) : list Z :=
  match collected h with
  | Some (e', f', _, ss) => if bool_decide ((e', f') = (e, f)) then ss else []
  | None => []
  end.

Definition count_agrees (h : slice_history) (e f c : Z) : bool :=
  match collected h with
  | Some (e', f', c', _) => negb (bool_decide ((e', f') = (e, f))) || (c' =? c)
  | None => true
  end.

(** What the outcome of a slice is to be. *)
Definition slice_spec (e0 : Z) (h : slice_history) (e f i c : Z) (k : bool) : SliceOutcome :=
  if negb ((0 <? c) && (c <=? MAX_SLICES) && (i <? c)) then Malformed
  else if negb (e =? slice_epoch e0 h) && negb k then EpochReset
  else if gated e0 h && negb k then Gated
  else if negb (count_agrees h e f c) then Malformed
  else if bool_decide (Forall (fun j => j ∈ i :: slices_of h e f) (seqZ 0 c)) then FrameComplete else SlicePending.

(** ** The bit set *)

Definition mask (ss : list Z) : Z := foldr (fun i m => Z.lor m (Z.shiftl 1 i)) 0 ss.

Lemma mask_bit ss j : 0 <= j -> Forall (fun i => 0 <= i) ss -> Z.testbit (mask ss) j = bool_decide (j ∈ ss).
Proof.
  intros Hj. induction 1 as [|i ss Hi _ IH]; [by rewrite Z.testbit_0_l, bool_decide_false by apply not_elem_of_nil|].
  cbn [mask foldr]. rewrite Z.lor_spec. fold (mask ss). rewrite IH, Z.shiftl_1_l, Z.pow2_bits_eqb by done.
  destruct (Z.eqb_spec i j) as [->|Hne].
  - rewrite orb_true_r, bool_decide_true; [done|by left].
  - rewrite orb_false_r. apply bool_decide_ext. rewrite elem_of_cons. split; [by right|]. by intros [?|].
Qed.

Lemma mask_full ss c : 0 <= c -> Forall (fun i => 0 <= i < c) ss ->
  mask ss = Z.shiftl 1 c - 1 <-> Forall (fun j => j ∈ ss) (seqZ 0 c).
Proof.
  intros Hc His. assert (Hnn : Forall (fun i => 0 <= i) ss) by (eapply Forall_impl; [exact His|]; cbn; lia).
  rewrite Z.shiftl_1_l. replace (2 ^ c - 1) with (Z.ones c) by (rewrite Z.ones_equiv; lia).
  rewrite Forall_seqZ. split.
  - intros E j Hj. assert (Hb : Z.testbit (mask ss) j = true) by (rewrite E; apply Z.ones_spec_low; lia).
    rewrite mask_bit in Hb by (done || lia). by apply bool_decide_eq_true_1 in Hb.
  - intros H. apply Z.bits_inj'. intros j Hj. rewrite mask_bit by done. destruct (Z.lt_ge_cases j c) as [Hlt|Hge].
    + rewrite Z.ones_spec_low by lia. apply bool_decide_true, H. lia.
    + rewrite Z.ones_spec_high by lia. apply bool_decide_false. intros Hin. rewrite Forall_forall in His.
      specialize (His j Hin). lia.
Qed.

(** ** Refinement *)

(** The frames given up before they were complete. *)
Fixpoint given_up (h : slice_history) : Z :=
  match h with
  | [] => 0
  | (op, o) :: h =>
      given_up h +
      match op, o, collected h with
      | _, _, None => 0
      | Recover, _, _ | _, Some EpochReset, _ => 1
      | PushSlice e f _ _ _, Some (SlicePending | FrameComplete), Some (e', f', _, _) =>
          if bool_decide ((e', f') = (e, f)) then 0 else 1
      | _, _, _ => 0
      end
  end.

Record slice_inv (e0 : Z) (h : slice_history) (r : SliceReassembler) : Prop := {
  si_epoch : sl_epoch r = slice_epoch e0 h;
  si_gate : awaiting_key r = gated e0 h;
  si_dropped : dropped_partial r = given_up h;
  si_partial : match collected h with
    | Some (e, f, c, ss) =>
        e = sl_epoch r /\ frame_id r = Some f /\ slice_count r = c /\ got r = mask ss /\ got r <> 0 /\
        0 < c <= MAX_SLICES /\ Forall (fun i => 0 <= i < c) ss
    | None => frame_id r = None /\ got r = 0
    end
}.

Lemma drop_partial_spec e0 h r : slice_inv e0 h r ->
  drop_partial r = given_up h + match collected h with Some _ => 1 | None => 0 end.
Proof.
  intros [_ _ Hd Hp]. unfold drop_partial. rewrite Hd. destruct (collected h) as [[[[e f] c] ss]|].
  - destruct Hp as (_ & -> & _ & _ & Hg & _). rewrite bool_decide_false by done. by destruct (Z.eqb_spec (got r) 0).
  - destruct Hp as [-> _]. rewrite bool_decide_true by done. cbn. lia.
Qed.

Lemma mask_cons_nonzero i ss : 0 <= i -> Forall (fun j => 0 <= j) ss -> mask (i :: ss) <> 0.
Proof.
  intros Hi Hss E. assert (Hb : Z.testbit (mask (i :: ss)) i = true).
  { rewrite mask_bit by (done || by constructor). apply bool_decide_true. by left. }
  rewrite E, Z.testbit_0_l in Hb. done.
Qed.

(** The end of a push, from the slices [ss] already there. *)
Lemma add_slice_spec r i c k ss :
  0 <= i < c -> c <= MAX_SLICES -> got r = mask ss -> Forall (fun j => 0 <= j < c) ss ->
  let '(r', o) := add_slice r i c k in
  o = (if bool_decide (Forall (fun j => j ∈ i :: ss) (seqZ 0 c)) then FrameComplete else SlicePending) /\
  sl_epoch r' = sl_epoch r /\ dropped_partial r' = dropped_partial r /\
  match o with
  | FrameComplete => frame_id r' = None /\ got r' = 0 /\ awaiting_key r' = (if k then false else awaiting_key r)
  | _ => frame_id r' = frame_id r /\ got r' = mask (i :: ss) /\ slice_count r' = c /\ awaiting_key r' = awaiting_key r
  end.
Proof.
  intros Hi Hc Hg Hss. unfold add_slice. rewrite Hg. change (Z.lor (mask ss) (Z.shiftl 1 i)) with (mask (i :: ss)).
  assert (Hall : Forall (fun j => 0 <= j < c) (i :: ss)) by by constructor.
  pose proof (mask_full (i :: ss) c ltac:(lia) Hall) as Hm. destruct (Z.eqb_spec (mask (i :: ss)) (Z.shiftl 1 c - 1)) as [E|E].
  - rewrite bool_decide_true by by apply Hm. by repeat split.
  - rewrite bool_decide_false by (intros H; by apply E, Hm). by repeat split.
Qed.

(** A slice that is counted in: the reference's state follows. *)
Lemma slice_taken e0 h e f i c k o r r' :
  slice_op_ok (PushSlice e f i c k) -> i < c -> c <= MAX_SLICES ->
  Forall (fun j => 0 <= j < c) (slices_of h e f) -> count_agrees h e f c = true ->
  (match collected h with Some (e', _, _, _) => e' = slice_epoch e0 h | None => True end) ->
  sl_epoch r = e -> frame_id r = Some f -> got r = mask (slices_of h e f) ->
  awaiting_key r = negb (e =? slice_epoch e0 h) || gated e0 h -> (awaiting_key r = true -> k = true) ->
  dropped_partial r = given_up h + match collected h with
    | Some (e', f', _, _) => if bool_decide ((e', f') = (e, f)) then 0 else 1 | None => 0 end ->
  add_slice r i c k = (r', o) ->
  o = (if bool_decide (Forall (fun j => j ∈ i :: slices_of h e f) (seqZ 0 c)) then FrameComplete else SlicePending) /\
  slice_inv e0 ((PushSlice e f i c k, Some o) :: h) r'.
Proof.
  intros [Hi0 Hc0] Hi Hc Hss Hagree Hep Er Ef Eg Ea Hk Ed Eadd.
  pose proof (add_slice_spec r i c k (slices_of h e f) ltac:(lia) Hc Eg Hss) as H. rewrite Eadd in H.
  destruct H as (Ho & E1 & E2 & H). split; [done|].
  assert (Hnn : Forall (fun j => 0 <= j) (slices_of h e f)) by (eapply Forall_impl; [exact Hss|]; cbn; lia).
  pose proof (mask_cons_nonzero i _ Hi0 Hnn) as Hnz.
  destruct o; try (by destruct (bool_decide _)); destruct H as (H1 & H2 & H3).
  - (* pending *)
    destruct H3 as [H3 H4]. split; cbn.
    + congruence.
    + by rewrite H4.
    + by rewrite E2, Ed.
    + unfold slices_of, count_agrees in *. destruct (collected h) as [[[[e' f'] c'] ss]|] eqn:Ecol.
      * destruct (bool_decide_reflect ((e', f') = (e, f))) as [[= -> ->]|Hne].
        -- cbn in Hagree. apply Z.eqb_eq in Hagree as ->. rewrite H1, H2, H3, E1. repeat (split; [done || lia|]). by constructor.
        -- rewrite H1, H2, H3, E1. repeat (split; [done || lia|]). by repeat constructor.
      * rewrite H1, H2, H3, E1. repeat (split; [done || lia|]). by repeat constructor.
  - (* complete *)
    split; cbn; [congruence| |by rewrite E2, Ed|done].
    rewrite H3. destruct k; [done|]. destruct (awaiting_key r); [by specialize (Hk eq_refl)|done].
Qed.

Lemma slice_step_refines e0 h r e f i c k :
  slice_op_ok (PushSlice e f i c k) -> slice_inv e0 h r ->
  let '(r', o) := push_slice r e f i c k in
  o = slice_spec e0 h e f i c k /\ slice_inv e0 ((PushSlice e f i c k, Some o) :: h) r'.
Proof.
  intros Hok H. pose proof H as [He Ha Hd Hp]. pose proof Hok as [Hi0 Hc0]. unfold push_slice, slice_spec.
  assert (Hsame : forall o, match o with Gated | Malformed => True | _ => False end ->
    slice_inv e0 ((PushSlice e f i c k, Some o) :: h) r).
  { intros o Ho. destruct o; try done; (split; cbn; [done|done|rewrite Hd; destruct (collected h); lia|done]). }
  replace (negb ((0 <? c) && (c <=? MAX_SLICES) && (i <? c))) with ((c =? 0) || (MAX_SLICES <? c) || (c <=? i)).
  2:{ destruct (Z.eqb_spec c 0), (Z.ltb_spec MAX_SLICES c), (Z.leb_spec c i), (Z.ltb_spec 0 c), (Z.leb_spec c MAX_SLICES), (Z.ltb_spec i c); try done; lia. }
  destruct (_ || _) eqn:Ev; [by split; [|apply Hsame]|].
  apply orb_false_elim in Ev as [[Ev1%Z.eqb_neq Ev2%Z.ltb_ge]%orb_false_elim Ev3%Z.leb_gt].
  rewrite He. set (changed := negb (e =? slice_epoch e0 h)). pose proof (drop_partial_spec e0 h r H) as Hdrop.
  destruct changed eqn:Ech; cbn [andb].
  - (* a new epoch *)
    assert (Hne : e <> slice_epoch e0 h) by (unfold changed in Ech; by destruct (Z.eqb_spec e (slice_epoch e0 h))).
    assert (Hother : match collected h with Some (e', f', _, _) => bool_decide ((e', f') = (e, f)) = false | None => True end).
    { destruct (collected h) as [[[[e' f'] c'] ss]|]; [|done]. destruct Hp as (-> & _). apply bool_decide_false. intros [= E _].
      apply Hne. by rewrite <- E, <- He. }
    assert (Hslices : slices_of h e f = []).
    { unfold slices_of. destruct (collected h) as [[[[e' f'] c'] ss]|]; [by rewrite Hother|done]. }
    assert (Hagree : count_agrees h e f c = true).
    { unfold count_agrees. destruct (collected h) as [[[[e' f'] c'] ss]|]; [by rewrite Hother|done]. }
    destruct k; cbn [negb].
    2:{ split; [done|]. split; cbn; [done|done| |done]. rewrite Hdrop. destruct (collected h) as [[[[? ?] ?] ?]|]; lia. }
    cbn [awaiting_key andb frame_id]. rewrite !andb_false_r, bool_decide_false by done. cbn [negb]. rewrite Hagree. cbn [negb].
    destruct (add_slice _ i c true) as [r' o] eqn:Eadd.
    eapply (slice_taken e0 h e f i c true o _ r'); try exact Eadd; try done; cbn; rewrite ?Hslices; try done.
    + destruct (collected h) as [[[[e' f'] c'] ss]|]; [|done]. by destruct Hp as (-> & _).
    + unfold changed in Ech. by rewrite Ech.
    + unfold drop_partial. cbn. fold (drop_partial r). rewrite Hdrop. destruct (collected h) as [[[[e' f'] c'] ss]|]; [by rewrite Hother|done].
  - (* the same epoch *)
    assert (Heq : e = slice_epoch e0 h) by (unfold changed in Ech; by destruct (Z.eqb_spec e (slice_epoch e0 h))).
    rewrite Ha. destruct (gated e0 h && negb k) eqn:Eg; [by split; [|apply Hsame]|].
    assert (Hgate : gated e0 h = true -> k = true) by (intros Hg; rewrite Hg in Eg; by destruct k).
    destruct (bool_decide_reflect (frame_id r = Some f)) as [Ef|Ef]; cbn [negb].
    + (* the frame in progress *)
      destruct (collected h) as [[[[e' f'] c'] ss]|] eqn:Ecol; [|destruct Hp; congruence].
      destruct Hp as (Ee & Ef' & Ec & Egot & Hg0 & Hc' & Hss). assert (f' = f) as -> by congruence. assert (e' = e) as -> by congruence.
      assert (Hslices : slices_of h e f = ss) by (unfold slices_of; by rewrite Ecol, bool_decide_true).
      assert (Hagree : count_agrees h e f c = (c' =? c)) by (unfold count_agrees; by rewrite Ecol, bool_decide_true).
      rewrite Hagree, Ec. destruct (Z.eqb_spec c' c) as [->|]; cbn [negb]; [|by split; [|apply Hsame]].
      destruct (add_slice r i c k) as [r' o] eqn:Eadd.
      eapply (slice_taken e0 h e f i c k o r r'); try exact Eadd; try done; rewrite ?Hslices, ?Ecol; try done.
      * by rewrite Ha, Heq, Z.eqb_refl.
      * by rewrite Ha.
      * rewrite bool_decide_true by done. lia.
    + (* another frame *)
      assert (Hother : match collected h with Some (e', f', _, _) => bool_decide ((e', f') = (e, f)) = false | None => True end).
      { destruct (collected h) as [[[[e' f'] c'] ss]|]; [|done]. destruct Hp as (-> & Hf & _). apply bool_decide_false. intros [= E ->]. done. }
      assert (Hslices : slices_of h e f = []).
      { unfold slices_of. destruct (collected h) as [[[[e' f'] c'] ss]|]; [by rewrite Hother|done]. }
      assert (Hagree : count_agrees h e f c = true).
      { unfold count_agrees. destruct (collected h) as [[[[e' f'] c'] ss]|]; [by rewrite Hother|done]. }
      rewrite Hagree. cbn [negb]. destruct (add_slice _ i c k) as [r' o] eqn:Eadd.
      eapply (slice_taken e0 h e f i c k o _ r'); try exact Eadd; try done; cbn; rewrite ?Hslices; try done.
      * destruct (collected h) as [[[[e' f'] c'] ss]|]; [|done]. by destruct Hp as (-> & _).
      * congruence.
      * by rewrite ?Ha, Heq, Z.eqb_refl.
      * rewrite Hdrop. destruct (collected h) as [[[[e' f'] c'] ss]|]; [by rewrite Hother|done].
Qed.

Lemma slices_run_inv e0 r h ops :
  Forall slice_op_ok ops -> slice_inv e0 h r ->
  let '(r', h') := slices_run r h ops in slice_inv e0 h' r'.
Proof.
  intros Hops. revert r h. induction Hops as [|op ops Hop _ IH]; intros r h H; [done|]. cbn [slices_run].
  destruct op as [e f i c k|]; cbn [slice_step].
  - pose proof (slice_step_refines e0 h r e f i c k Hop H) as Hs. destruct (push_slice r e f i c k) as [r1 o].
    apply IH. apply Hs.
  - apply IH. pose proof (drop_partial_spec e0 h r H) as Hdrop. destruct H as [He Ha Hd Hp].
    by split.
Qed.

(** Whatever slices arrive in whatever order, with recoveries in between, each
    answer is what the history calls for: a frame is complete exactly when the
    slices taken of this very epoch and frame, since the last recovery, reset,
    completion or other frame, are all there; while a key is awaited, from the
    start, a recovery or a new epoch until a frame is complete, nothing but keys is
    taken; a slice whose index or count does not fit, or disagrees with its frame,
    changes nothing; and the count of partial frames given up is exact. *)
Theorem slices_follow_history e0 ops e f i c k :
  Forall slice_op_ok ops -> slice_op_ok (PushSlice e f i c k) ->
  let '(r, h) := slices_run (slices_new e0) [] ops in
  (push_slice r e f i c k).2 = slice_spec e0 h e f i c k /\
  sl_epoch r = slice_epoch e0 h /\ awaiting_key r = gated e0 h /\ dropped_partial r = given_up h /\
  ((push_slice r e f i c k).2 = Malformed \/ (push_slice r e f i c k).2 = Gated -> (push_slice r e f i c k).1 = r).
Proof.
  intros Hops Hop. assert (H0 : slice_inv e0 [] (slices_new e0)) by done.
  pose proof (slices_run_inv e0 (slices_new e0) [] ops Hops H0) as H.
  destruct (slices_run _ [] ops) as [r h]. pose proof (slice_step_refines e0 h r e f i c k Hop H) as Hs.
  destruct H as [He Ha Hd _]. destruct (push_slice r e f i c k) as [r' o] eqn:Ep. cbn [fst snd].
  split; [apply Hs|]. do 3 (split; [done|]). unfold push_slice, add_slice in Ep. intros Ho.
  destruct (_ || _ || _); [by injection Ep as <-|]. destruct (negb (e =? sl_epoch r)); cbn [andb] in Ep.
  - exfalso. destruct k; cbn in Ep; [|injection Ep as _ <-; by destruct Ho]. repeat case_match; injection Ep as _ <-; by destruct Ho.
  - destruct (awaiting_key r && negb k); [by injection Ep as <-|].
    destruct (negb (bool_decide _)); [|destruct (negb (slice_count r =? c)); [by injection Ep as <-|]].
    all: exfalso; repeat case_match; injection Ep as _ <-; by destruct Ho.
Qed.

(** A key frame in two slices, a delta that is taken, and a new epoch that gates
    the next delta. *)
Lemma slices_follow_history_witness :
  let ops := [PushSlice 1 7 0 2 false; PushSlice 1 7 1 2 true; PushSlice 1 7 0 2 true; PushSlice 1 8 0 1 false;
              PushSlice 2 9 0 1 false; PushSlice 2 9 0 2 true] in
  let '(r, h) := slices_run (slices_new 1) [] ops in
  h.*2 = Some <$> [SlicePending; EpochReset; FrameComplete; FrameComplete; SlicePending; Gated] /\
  (push_slice r 2 9 1 2 true).2 = FrameComplete.
Proof.
  intros ops. pose proof (slices_follow_history 1 ops 2 9 1 2 true
    ltac:(repeat constructor; cbn; lia) ltac:(cbn; lia)) as H.
  assert (E : (slices_run (slices_new 1) [] ops).2.*2 = Some <$> [SlicePending; EpochReset; FrameComplete; FrameComplete; SlicePending; Gated])
    by (vm_compute; reflexivity).
  assert (Es : slice_spec 1 (slices_run (slices_new 1) [] ops).2 2 9 1 2 true = FrameComplete) by (vm_compute; reflexivity).
  destruct (slices_run _ [] ops) as [r h]. split; [exact E|]. destruct H as [-> _]. exact Es.
Defined.
