(* ===== verification/ByteBuffer.v ===== *)
(** * The byte buffer of the input wire (common/src/buffer.rs)

    A cursor over bytes: reads that panic past the end, writes that refuse, both
    big-endian unless the flag says otherwise. A reader is a function of the
    buffer whose [None] is the panic. *)
From S2P Require Import Prelude Text Utf8 Wire.

Inductive Utf8Error : Type := InvalidChunks | BufferTooSmall.

Record ByteBuffer := mkBuffer { position : Z; limit : Z; little_endian : bool; buffer : list Z }.

Definition buffer_new (bs : list Z) : ByteBuffer := mkBuffer 0 (len bs) false bs.

(** [into_raw]: the bytes and the end of the range that starts at 0. *)
Definition into_raw (b : ByteBuffer) : list Z * Z := (buffer b, limit b).

Definition move (b : ByteBuffer) (n : Z) : ByteBuffer := mkBuffer (position b + n) (limit b) (little_endian b) (buffer b).

Definition buffer_reset (b : ByteBuffer) : ByteBuffer := mkBuffer 0 0 (little_endian b) (buffer b).
Definition flip (b : ByteBuffer) : ByteBuffer := mkBuffer 0 (position b) (little_endian b) (buffer b).
Definition remaining (b : ByteBuffer) : Z := limit b - position b.

(** ** Readers *)

Definition reader (A : Type) : Type := ByteBuffer -> option (A * ByteBuffer).

Definition rret {A} (a : A) : reader A := fun b => Some (a, b).
Definition rbind {A B} (m : reader A) (k : A -> reader B) : reader B :=
  fun b => match m b with Some (a, b') => k a b' | None => None end.

Notation "'get!' x ':=' m 'in' k" := (rbind m (fun x => k)) (at level 200, x name, m at level 100, k at level 200) : bp_scope.

(** Whole numbers and two's complement, [w] bits. *)
Definition signed (w x : Z) : Z := if x <? 2 ^ (w - 1) then x else x - 2 ^ w.
Definition in_i (w x : Z) : Prop := - 2 ^ (w - 1) <= x < 2 ^ (w - 1).

Definition be_bytes (n : nat) (z : Z) : list Z := rev (le_bytes n z).
Definition of_be (l : list Z) : Z := of_le (rev l).

Definition get_u8_array (n : nat) : reader (list Z) := fun b =>
  if position b + Z.of_nat n <=? len (buffer b)
  then Some (slice (buffer b) (Z.to_nat (position b)) (Z.to_nat (position b) + n), move b (Z.of_nat n))
  else None.

Definition from_bytes (b : ByteBuffer) (l : list Z) : Z := if little_endian b then of_le l else of_be l.

Definition get_uint (n : nat) : reader Z := fun b =>
  match get_u8_array n b with Some (l, b') => Some (from_bytes b l, b') | None => None end.

Definition get_u8 : reader Z := get! l := get_u8_array 1 in rret (at0 l 0).
Definition get_bool : reader bool := get! x := get_u8 in rret (negb (x =? 0)).
Definition get_i8 : reader Z := get! x := get_u8 in rret (signed 8 x).
Definition get_u16 : reader Z := get_uint 2.
Definition get_i16 : reader Z := get! x := get_uint 2 in rret (signed 16 x).
Definition get_u32 : reader Z := get_uint 4.
(** A float is its bit pattern. *)
Definition get_f32 : reader Z := get_uint 4.

(** [Utf8Chunk::valid] of the first chunk: the longest prefix that is UTF-8. *)
Fixpoint valid_upto (n : nat) (bs : list Z) : text :=
  match from_utf8 (take n bs) with
  | Some t => t
  | None => match n with O => [] | S n => valid_upto n bs end
  end.
Definition valid_prefix (bs : list Z) : text := valid_upto (length bs) bs.

(** The first [characters] characters; the position stays. *)
Definition get_utf8_raw (characters : Z) : reader (result text Utf8Error) := fun b =>
  if characters =? 0 then Some (Ok [], b)
  else if len (buffer b) <? position b then None
  else
    let rest := drop (Z.to_nat (position b)) (buffer b) in
    if bool_decide (rest = []) then Some (Err InvalidChunks, b)
    else
      let valid := valid_prefix rest in
      if len valid <? characters then Some (Err BufferTooSmall, b)
      else Some (Ok (take (Z.to_nat characters) valid), b).

(** ** Writers *)

Definition put_u8_array (array : list Z) (b : ByteBuffer) : bool * ByteBuffer :=
  if len (buffer b) - position b <? len array then (false, b)
  else
    let p := Z.to_nat (position b) in
    (true, mkBuffer (position b + len array) (limit b) (little_endian b)
             (take p (buffer b) ++ array ++ drop (p + length array) (buffer b))).

Definition to_bytes (b : ByteBuffer) (n : nat) (z : Z) : list Z := if little_endian b then le_bytes n z else be_bytes n z.

Definition put_u8 (x : Z) (b : ByteBuffer) : bool * ByteBuffer := put_u8_array [x] b.
Definition put_u16 (x : Z) (b : ByteBuffer) : bool * ByteBuffer := put_u8_array (to_bytes b 2 x) b.
Definition put_u32 (x : Z) (b : ByteBuffer) : bool * ByteBuffer := put_u8_array (to_bytes b 4 x) b.
Definition put_utf8_raw (t : text) (b : ByteBuffer) : bool * ByteBuffer := put_u8_array (utf8 t) b.

(** ** Numbers *)

Lemma length_be_bytes n z : length (be_bytes n z) = n.
Proof. unfold be_bytes. by rewrite length_rev, length_le_bytes. Qed.

Lemma bytes_be_bytes n z : bytes (be_bytes n z).
Proof. apply List.Forall_rev, bytes_le_bytes. Qed.

Lemma of_be_be_bytes n z : 0 <= z < 256 ^ Z.of_nat n -> of_be (be_bytes n z) = z.
Proof. intros H. unfold of_be, be_bytes. rewrite rev_involutive. by apply of_le_le_bytes. Qed.

Lemma of_be_bound l : bytes l -> 0 <= of_be l < 256 ^ len l.
Proof.
  intros H. unfold of_be. replace (len l) with (len (rev l)) by (unfold len; by rewrite length_rev).
  by apply of_le_bound, List.Forall_rev.
Qed.

Lemma signed_range w x : 0 < w -> 0 <= x < 2 ^ w -> in_i w (signed w x).
Proof.
  intros Hw Hx. unfold in_i, signed. assert (2 ^ w = 2 * 2 ^ (w - 1)).
  { rewrite <- Z.pow_succ_r by lia. f_equal. lia. }
  destruct (Z.ltb_spec x (2 ^ (w - 1))); lia.
Qed.

Lemma signed_wrap w x : 0 < w -> in_i w x -> signed w (wrap w x) = x.
Proof.
  intros Hw Hx. unfold in_i, signed, wrap in *. assert (E : 2 ^ w = 2 * 2 ^ (w - 1)).
  { rewrite <- Z.pow_succ_r by lia. f_equal. lia. }
  destruct (Z.lt_ge_cases x 0) as [Hn|Hp].
  - rewrite <- (Z_mod_plus_full x 1 (2 ^ w)), Z.mod_small by lia. destruct (Z.ltb_spec (x + 1 * 2 ^ w) (2 ^ (w - 1))); lia.
  - rewrite Z.mod_small by lia. destruct (Z.ltb_spec x (2 ^ (w - 1))); lia.
Qed.

(** ** A big-endian buffer that has read [pre] and has [rest] before it *)

Definition at_view (pre rest : list Z) : ByteBuffer := mkBuffer (len pre) (len (pre ++ rest)) false (pre ++ rest).

Lemma drop_len_app {A} (l k : list A) : drop (Z.to_nat (len l)) (l ++ k) = k.
Proof. unfold len. by rewrite Nat2Z.id, drop_app_length. Qed.

Lemma buffer_new_view bs : buffer_new bs = at_view [] bs.
Proof. done. Qed.

Lemma remaining_view pre rest : remaining (at_view pre rest) = len rest.
Proof. unfold remaining, at_view. cbn. rewrite len_app. lia. Qed.

Lemma get_u8_array_view n pre xs rest :
  length xs = n -> get_u8_array n (at_view pre (xs ++ rest)) = Some (xs, at_view (pre ++ xs) rest).
Proof.
  intros Hn. unfold get_u8_array, at_view, move. cbn [position buffer limit little_endian].
  destruct (Z.leb_spec (len pre + Z.of_nat n) (len (pre ++ xs ++ rest))) as [_|H].
  2:{ rewrite !len_app in H. unfold len in H. lia. }
  unfold len at 1 2. rewrite Nat2Z.id. unfold slice. rewrite drop_app_length.
  replace (length pre + n - length pre)%nat with (length xs) by lia. rewrite take_app_length.
  do 2 f_equal. rewrite <- !app_assoc. f_equal. rewrite len_app. unfold len. lia.
Qed.

Lemma get_u8_array_short n pre rest :
  (length rest < n)%nat -> get_u8_array n (at_view pre rest) = None.
Proof.
  intros Hn. unfold get_u8_array, at_view. cbn [position buffer].
  destruct (Z.leb_spec (len pre + Z.of_nat n) (len (pre ++ rest))) as [H|_]; [|done].
  rewrite !len_app in H. unfold len in H. lia.
Qed.

Lemma get_uint_view n pre xs rest :
  length xs = n -> get_uint n (at_view pre (xs ++ rest)) = Some (of_be xs, at_view (pre ++ xs) rest).
Proof. intros Hn. unfold get_uint. by rewrite (get_u8_array_view n pre xs rest). Qed.

Lemma get_u8_view pre x rest : get_u8 (at_view pre (x :: rest)) = Some (x, at_view (pre ++ [x]) rest).
Proof. unfold get_u8, rbind. change (x :: rest) with ([x] ++ rest). by rewrite get_u8_array_view. Qed.

Lemma get_bool_view pre x rest : get_bool (at_view pre (x :: rest)) = Some (negb (x =? 0), at_view (pre ++ [x]) rest).
Proof. unfold get_bool, rbind. by rewrite get_u8_view. Qed.

Lemma get_i8_view pre x rest : get_i8 (at_view pre (x :: rest)) = Some (signed 8 x, at_view (pre ++ [x]) rest).
Proof. unfold get_i8, rbind. by rewrite get_u8_view. Qed.

Lemma get_i16_view pre xs rest :
  length xs = 2%nat -> get_i16 (at_view pre (xs ++ rest)) = Some (signed 16 (of_be xs), at_view (pre ++ xs) rest).
Proof. intros H. unfold get_i16, rbind. by rewrite get_uint_view. Qed.

(** ** Text *)

Lemma from_utf8_app s bs : Forall scalar s -> from_utf8 (utf8 s ++ bs) = (fun t => s ++ t) <$> from_utf8 bs.
Proof.
  induction 1 as [|c s Hc _ IH].
  { change (utf8 [] ++ bs) with bs. by destruct (from_utf8 bs). }
  unfold utf8. rewrite bind_cons, <- app_assoc, from_utf8_char by done.
  fold (utf8 s). rewrite IH. by destruct (from_utf8 bs).
Qed.

Lemma valid_upto_prefix n s bs :
  Forall scalar s -> (length (utf8 s) <= n)%nat -> exists t, valid_upto n (utf8 s ++ bs) = s ++ t.
Proof.
  intros Hs. induction n as [|n IH]; intros Hn; cbn [valid_upto].
  - assert (E : utf8 s = []) by (apply length_zero_iff_nil; lia). rewrite take_0. cbn.
    destruct s as [|c s]; [by exists []|]. apply Forall_cons in Hs as [Hc _].
    unfold utf8 in E. rewrite bind_cons in E. apply app_nil in E as [E _]. unfold utf8_char in E. repeat case_match; done.
  - destruct (decide (length (utf8 s) <= n)%nat) as [Hle|Hgt].
    + destruct (from_utf8 (take (S n) (utf8 s ++ bs))) as [t|] eqn:E; [|by apply IH].
      rewrite take_app_ge, from_utf8_app in E by (done || lia). destruct (from_utf8 _) as [t'|]; [|done].
      injection E as <-. by exists t'.
    + rewrite take_app_ge by lia. replace (S n - length (utf8 s))%nat with 0%nat by lia.
      rewrite take_0, app_nil_r, from_utf8_utf8 by done. exists []. by rewrite app_nil_r.
Qed.

Lemma valid_upto_scalar n bs : bytes bs -> Forall scalar (valid_upto n bs).
Proof.
  intros Hb. induction n as [|n IH]; cbn [valid_upto];
    (destruct (from_utf8 _) as [t|] eqn:E; [|first [done | by constructor]]); (eapply from_utf8_inv; [|exact E]); by apply bytes_take.
Qed.

(** The first characters of a text come back, whatever follows. *)
Lemma get_utf8_raw_view pre s rest :
  Forall scalar s -> get_utf8_raw (len s) (at_view pre (utf8 s ++ rest)) = Some (Ok s, at_view pre (utf8 s ++ rest)).
Proof.
  intros Hs. unfold get_utf8_raw. destruct (Z.eqb_spec (len s) 0) as [E|E]; [by apply len_zero in E as ->|].
  unfold at_view. cbn [position buffer]. destruct (Z.ltb_spec (len (pre ++ utf8 s ++ rest)) (len pre)) as [H|_].
  { rewrite len_app in H. pose proof (len_nonneg (utf8 s ++ rest)). lia. }
  rewrite drop_len_app.
  destruct (valid_upto_prefix (length (utf8 s ++ rest)) s rest Hs ltac:(rewrite length_app; lia)) as [t Et].
  rewrite bool_decide_false.
  2:{ intros E'. rewrite E' in Et. cbn in Et. destruct s; [done|discriminate]. }
  unfold valid_prefix. rewrite Et. destruct (Z.ltb_spec (len (s ++ t)) (len s)) as [H|_].
  { rewrite len_app in H. pose proof (len_nonneg t). lia. }
  by rewrite take_len_app.
Qed.

(** What is read is text of the length asked for. *)
Lemma get_utf8_raw_inv n pre rest r b :
  bytes rest -> 0 <= n -> get_utf8_raw n (at_view pre rest) = Some (r, b) ->
  match r with Ok t => len t = n /\ Forall scalar t | Err _ => True end.
Proof.
  intros Hb Hn. unfold get_utf8_raw, at_view. cbn [position buffer].
  destruct (Z.eqb_spec n 0) as [->|E]; [intros [= <- _]; by split; [|constructor]|].
  destruct (_ <? len pre); [done|]. rewrite drop_len_app.
  destruct (bool_decide _); [by intros [= <- _]|].
  destruct (Z.ltb_spec (len (valid_prefix rest)) n); intros [= <- _]; [done|]. split.
  - unfold len in *. rewrite length_take. lia.
  - apply Forall_take, valid_upto_scalar, Hb.
Qed.

Lemma get_utf8_raw_returns n pre rest : exists r b, get_utf8_raw n (at_view pre rest) = Some (r, b).
Proof.
  unfold get_utf8_raw, at_view. cbn [position buffer]. destruct (n =? 0); [eauto|].
  destruct (Z.ltb_spec (len (pre ++ rest)) (len pre)) as [H|_].
  { rewrite len_app in H. pose proof (len_nonneg rest). lia. }
  repeat case_match; eauto.
Qed.
