(* ===== verification/InputWire.v ===== *)
(** * The input and control wire (common/src/input_wire.rs, streamer/src/transport/mod.rs)

    The packets the client sends to the host, their encoder and the decoder the
    streamer runs on every data channel message, and the packets that go back.
    The host library's key, button and touch types, and the JSON of the general
    messages, are parameters; a float is its bit pattern. [None] of a decoder is
    the panic of a slice index. *)
From S2P Require Import Prelude Text Utf8 Wire ByteBuffer.

(** TransportChannelId *)
Definition GENERAL : Z := 0.
Definition STATS : Z := 1.
Definition HOST_VIDEO : Z := 2.
Definition HOST_AUDIO : Z := 3.
Definition MOUSE_RELIABLE : Z := 4.
Definition MOUSE_ABSOLUTE : Z := 5.
Definition MOUSE_RELATIVE : Z := 6.
Definition KEYBOARD : Z := 7.
Definition TOUCH : Z := 8.
Definition CONTROLLERS : Z := 9.
Definition CONTROLLER0 : Z := 10.
Definition RTT : Z := 26.

Definition CONTROLLER_CHANNELS : list Z := [10; 11; 12; 13; 14; 15; 16; 17; 18; 19; 20; 21; 22; 23; 24; 25].

Inductive GeneralClientMessage : Type := Stop.

(** ** The host library *)

Class Moonlight := {
  MouseButtonAction : Type;
  mba_eq : EqDecision MouseButtonAction;
  mba_press : MouseButtonAction;
  mba_release : MouseButtonAction;
  MouseButton : Type;
  mb_as_u8 : MouseButton -> Z;
  mb_from_u8 : Z -> option MouseButton;
  KeyAction : Type;
  ka_eq : EqDecision KeyAction;
  ka_down : KeyAction;
  ka_up : KeyAction;
  KeyModifiers : Type;
  km_bits : KeyModifiers -> Z;
  km_from_bits : Z -> option KeyModifiers;
  km_empty : KeyModifiers;
  KeyFlags : Type;
  kf_empty : KeyFlags;
  ControllerType : Type;
  ct_unknown : ControllerType;
  ControllerButtons : Type;
  cb_bits : ControllerButtons -> Z;
  cb_from_bits : Z -> option ControllerButtons;
  cb_all : ControllerButtons;
  ControllerCapabilities : Type;
  cc_bits : ControllerCapabilities -> Z;
  cc_from_bits : Z -> option ControllerCapabilities;
  cc_empty : ControllerCapabilities;
  TouchEventType : Type;
  tet_eq : EqDecision TouchEventType;
  tet_down : TouchEventType;
  tet_move : TouchEventType;
  tet_cancel : TouchEventType;
  json_to_string : GeneralClientMessage -> option text;
  json_from_str : text -> option GeneralClientMessage
}.

#[export] Existing Instances mba_eq ka_eq tet_eq.

(** Two actions, the bits of a value decode to it, three touch events are
    distinct, and the unit message is an ASCII string that parses. *)
Class MoonlightLaws (M : Moonlight) : Prop := {
  mba_two a : a = mba_press \/ a = mba_release;
  mba_distinct : mba_press <> mba_release;
  mb_u8 b : 0 <= mb_as_u8 b < 256;
  mb_from_as b : mb_from_u8 (mb_as_u8 b) = Some b;
  ka_two a : a = ka_down \/ a = ka_up;
  ka_distinct : ka_down <> ka_up;
  km_i8 m : in_i 8 (km_bits m);
  km_from_to m : km_from_bits (km_bits m) = Some m;
  cb_u32 m : 0 <= cb_bits m < 4294967296;
  cb_from_to m : cb_from_bits (cb_bits m) = Some m;
  cc_u16 m : 0 <= cc_bits m < 65536;
  cc_from_to m : cc_from_bits (cc_bits m) = Some m;
  tet_distinct : tet_down <> tet_move /\ tet_down <> tet_cancel /\ tet_move <> tet_cancel;
  json_round g : exists t, json_to_string g = Some t /\ json_from_str t = Some g /\
    Forall (fun c => 0 <= c < 128) t /\ len t < 65536
}.

(** ** Packets from the client *)

Section packets.
Context {M : Moonlight}.

Inductive InboundPacket : Type :=
| General (message : GeneralClientMessage)
| MouseMove (delta_x delta_y : Z)
| MousePosition (x y reference_width reference_height : Z)
| MouseButtonPacket (action : MouseButtonAction) (button : MouseButton)
| HighResScroll (delta_x delta_y : Z)
| Scroll (delta_x delta_y : Z)
| Key (action : KeyAction) (modifiers : KeyModifiers) (key : Z) (flags : KeyFlags)
| TextPacket (t : text)
| ControllerConnected (id : Z) (ty : ControllerType) (supported_buttons : ControllerButtons)
    (capabilities : ControllerCapabilities)
| ControllerDisconnected (id : Z)
| ControllerState (id : Z) (buttons : ControllerButtons)
    (left_trigger right_trigger left_stick_x left_stick_y right_stick_x right_stick_y : Z)
| Touch (pointer_id x y pressure_or_distance contact_area_major contact_area_minor : Z) (rotation : option Z)
    (event_type : TouchEventType)
| Rtt (sequence_number : Z)
| RequestVideoIdr.

(** [to_be_bytes] of a signed or an unsigned number of [n] bytes. *)
Definition be_of (n : nat) (z : Z) : list Z := be_bytes n (wrap (8 * Z.of_nat n) z).

Definition touch_byte (e : TouchEventType) : option Z :=
  if bool_decide (e = tet_down) then Some 0
  else if bool_decide (e = tet_move) then Some 1
  else if bool_decide (e = tet_cancel) then Some 2
  else None.

Definition encode (p : InboundPacket) : option (Z * list Z) :=
  match p with
  | General message =>
      match json_to_string message with
      | Some json => let bs := utf8 json in if 65535 <? len bs then None else Some (GENERAL, be_of 2 (len bs) ++ bs)
      | None => None
      end
  | MouseMove dx dy => Some (MOUSE_RELATIVE, [0] ++ be_of 2 dx ++ be_of 2 dy)
  | MousePosition x y w h => Some (MOUSE_ABSOLUTE, [1] ++ be_of 2 x ++ be_of 2 y ++ be_of 2 w ++ be_of 2 h)
  | MouseButtonPacket action button =>
      Some (MOUSE_RELIABLE, [2; bool_byte (bool_decide (action = mba_press)); mb_as_u8 button])
  | HighResScroll dx dy => Some (MOUSE_RELIABLE, [3] ++ be_of 2 dx ++ be_of 2 dy)
  | Scroll dx dy => Some (MOUSE_RELIABLE, [4; wrap 8 dx; wrap 8 dy])
  | Key action modifiers key _ =>
      Some (KEYBOARD, [0; bool_byte (bool_decide (action = ka_down)); wrap 8 (km_bits modifiers)] ++ be_of 2 key)
  | TextPacket t => if 255 <? len t then None else Some (KEYBOARD, [1; len t] ++ utf8 t)
  | ControllerConnected id _ buttons caps =>
      Some (CONTROLLERS, [0; id] ++ be_of 4 (cb_bits buttons) ++ be_of 2 (cc_bits caps))
  | ControllerDisconnected id => Some (CONTROLLERS, [1; id])
  | ControllerState id buttons lt rt lx ly rx ry =>
      match CONTROLLER_CHANNELS !! Z.to_nat id with
      | Some channel =>
          Some (channel, [0] ++ be_of 4 (cb_bits buttons) ++ [lt; rt] ++ be_of 2 lx ++ be_of 2 ly ++ be_of 2 rx ++ be_of 2 ry)
      | None => None
      end
  | Touch pid x y pr mj mn rotation event_type =>
      match touch_byte event_type with
      | Some e =>
          Some (TOUCH, [e] ++ be_of 4 pid ++ be_of 4 x ++ be_of 4 y ++ be_of 4 pr ++ be_of 4 mj ++ be_of 4 mn ++
            be_of 2 (default 0 rotation))
      | None => None
      end
  | Rtt seq => Some (RTT, [0] ++ be_of 2 seq)
  | RequestVideoIdr => Some (HOST_VIDEO, [0])
  end.

(** ** The decoder *)

Definition dropped_packet : reader (option InboundPacket) := rret None.
Definition packet (p : InboundPacket) : reader (option InboundPacket) := rret (Some p).

(** [if buffer.remaining() < n { return None; }] *)
Definition need (n : Z) (k : reader (option InboundPacket)) : reader (option InboundPacket) :=
  fun b => if remaining b <? n then Some (None, b) else k b.

Definition deserialize_general : reader (option InboundPacket) :=
  need 2 (get! ln := get_u16 in
  get! r := get_utf8_raw ln in
  match r with
  | Err _ => dropped_packet
  | Ok t => match json_from_str t with Some g => packet (General g) | None => dropped_packet end
  end).

Definition deserialize_host_video : reader (option InboundPacket) :=
  need 1 (get! ty := get_u8 in if ty =? 0 then packet RequestVideoIdr else dropped_packet).

Definition deserialize_mouse : reader (option InboundPacket) :=
  need 1 (get! ty := get_u8 in
  if ty =? 0 then need 4 (get! dx := get_i16 in get! dy := get_i16 in packet (MouseMove dx dy))
  else if ty =? 1 then
    need 8 (get! x := get_i16 in get! y := get_i16 in get! w := get_i16 in get! h := get_i16 in
      packet (MousePosition x y w h))
  else if ty =? 2 then
    need 2 (get! pressed := get_bool in
      get! raw := get_u8 in
      match mb_from_u8 raw with
      | Some button => packet (MouseButtonPacket (if pressed then mba_press else mba_release) button)
      | None => dropped_packet
      end)
  else if ty =? 3 then need 4 (get! dx := get_i16 in get! dy := get_i16 in packet (HighResScroll dx dy))
  else if ty =? 4 then need 2 (get! dx := get_i8 in get! dy := get_i8 in packet (Scroll dx dy))
  else dropped_packet).

Definition deserialize_keyboard : reader (option InboundPacket) :=
  need 1 (get! ty := get_u8 in
  if ty =? 0 then
    need 4 (get! down := get_bool in
      get! m := get_u8 in
      get! key := get_u16 in
      packet (Key (if down then ka_down else ka_up) (default km_empty (km_from_bits (signed 8 m))) key kf_empty))
  else if ty =? 1 then
    need 1 (get! ln := get_u8 in
      get! r := get_utf8_raw ln in
      match r with Ok t => packet (TextPacket t) | Err _ => dropped_packet end)
  else dropped_packet).

Definition touch_event (x : Z) : option TouchEventType :=
  if x =? 0 then Some tet_down else if x =? 1 then Some tet_move else if x =? 2 then Some tet_cancel else None.

Definition deserialize_touch : reader (option InboundPacket) :=
  need 27 (get! e := get_u8 in
  match touch_event e with
  | None => dropped_packet
  | Some event_type =>
      get! pid := get_u32 in get! x := get_f32 in get! y := get_f32 in get! pr := get_f32 in
      get! mj := get_f32 in get! mn := get_f32 in get! rotation := get_u16 in
      packet (Touch pid x y pr mj mn (Some rotation) event_type)
  end).

Definition deserialize_controllers : reader (option InboundPacket) :=
  need 1 (get! ty := get_u8 in
  if ty =? 0 then
    need 7 (get! id := get_u8 in
      get! buttons := get_u32 in
      get! caps := get_u16 in
      packet (ControllerConnected id ct_unknown (default cb_all (cb_from_bits buttons))
        (default cc_empty (cc_from_bits caps))))
  else if ty =? 1 then need 1 (get! id := get_u8 in packet (ControllerDisconnected id))
  else dropped_packet).

Definition deserialize_controller_state (gamepad_id : Z) : reader (option InboundPacket) :=
  need 1 (get! ty := get_u8 in
  if ty =? 0 then
    need 14 (get! raw := get_u32 in
      match cb_from_bits raw with
      | None => dropped_packet
      | Some buttons =>
          get! lt := get_u8 in get! rt := get_u8 in
          get! lx := get_i16 in get! ly := get_i16 in get! rx := get_i16 in get! ry := get_i16 in
          packet (ControllerState gamepad_id buttons lt rt lx ly rx ry)
      end)
  else dropped_packet).

Definition deserialize_rtt : reader (option InboundPacket) :=
  get! ty := get_u8 in
  if ty =? 0 then need 2 (get! seq := get_u16 in packet (Rtt seq)) else dropped_packet.

(** [enumerate().find(..)] over the controller channels. *)
Definition gamepad_of (channel : Z) : option Z :=
  Z.of_nat ∘ fst <$> list_find (fun c => c = channel) CONTROLLER_CHANNELS.

Definition deserialize_on (channel : Z) : reader (option InboundPacket) :=
  if channel =? GENERAL then deserialize_general
  else if channel =? STATS then dropped_packet
  else if channel =? HOST_VIDEO then deserialize_host_video
  else if channel =? HOST_AUDIO then dropped_packet
  else if (channel =? MOUSE_ABSOLUTE) || (channel =? MOUSE_RELIABLE) || (channel =? MOUSE_RELATIVE) then deserialize_mouse
  else if channel =? KEYBOARD then deserialize_keyboard
  else if channel =? TOUCH then deserialize_touch
  else if channel =? CONTROLLERS then deserialize_controllers
  else match gamepad_of channel with
    | Some gamepad_id => deserialize_controller_state gamepad_id
    | None => if channel =? RTT then deserialize_rtt else dropped_packet
    end.

(** [None] when the decoder panics. *)
Definition deserialize (channel : Z) (bs : list Z) : option (option InboundPacket) :=
  fst <$> deserialize_on channel (buffer_new bs).

(** ** Reference: what a packet can hold, and what comes back *)

Definition in_i8 (x : Z) : Prop := in_i 8 x.
Definition in_i16 (x : Z) : Prop := in_i 16 x.

Definition packet_ok (p : InboundPacket) : Prop :=
  match p with
  | General _ | MouseButtonPacket _ _ | RequestVideoIdr => True
  | MouseMove a b | HighResScroll a b => in_i16 a /\ in_i16 b
  | MousePosition a b c d => in_i16 a /\ in_i16 b /\ in_i16 c /\ in_i16 d
  | Scroll a b => in_i8 a /\ in_i8 b
  | Key _ _ key _ => in_u16 key
  | TextPacket t => Forall scalar t
  | ControllerConnected id _ _ _ | ControllerDisconnected id => is_byte id
  | ControllerState id _ lt rt lx ly rx ry =>
      is_byte id /\ is_byte lt /\ is_byte rt /\ in_i16 lx /\ in_i16 ly /\ in_i16 rx /\ in_i16 ry
  | Touch a b c d e f r _ =>
      in_u32 a /\ in_u32 b /\ in_u32 c /\ in_u32 d /\ in_u32 e /\ in_u32 f /\ from_option in_u16 True r
  | Rtt n => in_u16 n
  end.

(** The three cases the wire has no place for. *)
Definition encodable (p : InboundPacket) : Prop :=
  match p with
  | TextPacket t => len t <= 255
  | ControllerState id _ _ _ _ _ _ _ => id < 16
  | Touch _ _ _ _ _ _ _ e => e = tet_down \/ e = tet_move \/ e = tet_cancel
  | _ => True
  end.

(** The fields that do not travel. *)
Definition received (p : InboundPacket) : InboundPacket :=
  match p with
  | Key action modifiers key _ => Key action modifiers key kf_empty
  | ControllerConnected id _ buttons caps => ControllerConnected id ct_unknown buttons caps
  | Touch a b c d e f r ty => Touch a b c d e f (Some (default 0 r)) ty
  | p => p
  end.

End packets.

(** ** Packets to the client *)

(** A general or statistics message is its JSON text, when it has one. *)
Inductive OutboundPacket : Type :=
| OutGeneral (json : option text)
| OutStats (json : option text)
| ControllerRumble (controller_number low_frequency_motor high_frequency_motor : Z)
| ControllerTriggerRumble (controller_number left_trigger_motor right_trigger_motor : Z)
| OutRtt (sequence_number : Z).

(** [Vec::resize] with zeros. *)
Definition resize (n : Z) (v : list Z) : list Z :=
  take (Z.to_nat n) v ++ replicate (Z.to_nat n - length v) 0.

Definition flipped (b : bool * ByteBuffer) : list Z * Z := into_raw (flip b.2).

Definition serialize_json (channel : Z) (json : option text) (raw : list Z) : option (Z * (list Z * Z)) :=
  match json with
  | None => None
  | Some t =>
      let b := buffer_new (resize (len (utf8 t) + 2) raw) in
      let b := (put_u16 (wrap16 (len (utf8 t))) b).2 in
      Some (channel, flipped (put_utf8_raw t b))
  end.

Definition serialize_motors (number a b : Z) (raw : list Z) : option (Z * (list Z * Z)) :=
  let buf := buffer_new (resize 6 raw) in
  let buf := (put_u8 0 buf).2 in
  let buf := (put_u8 number buf).2 in
  let buf := (put_u16 a buf).2 in
  Some (wrap 8 (CONTROLLER0 + number), flipped (put_u16 b buf)).

(** The channel, the buffer and the end of the range to send. *)
Definition serialize (p : OutboundPacket) (raw : list Z) : option (Z * (list Z * Z)) :=
  match p with
  | OutGeneral json => serialize_json GENERAL json raw
  | OutStats json => serialize_json STATS json raw
  | ControllerRumble n low high => serialize_motors n low high raw
  | ControllerTriggerRumble n left_ right_ => serialize_motors n left_ right_ raw
  | OutRtt seq =>
      let buf := buffer_new (resize 3 raw) in
      let buf := (put_u8 0 buf).2 in
      Some (RTT, flipped (put_u16 seq buf))
  end.

(** [send_packet] of the web socket transport: the channel before the bytes. *)
Definition send_packet (p : OutboundPacket) : option (list Z) :=
  match serialize p [] with
  | None => None
  | Some (id, (buf, e)) =>
      let v := resize (e + 1) buf in
      Some (<[0%nat := id]> (take 1 v ++ take (Z.to_nat e) v))
  end.
