(* ===== verification/InputWireSafe.v ===== *)
(** * The input wire is faithful and total

    What a client encodes is what the streamer reads, whatever bytes follow; what
    the streamer reads can be sent again; the decoder panics on one input only;
    and what the packets to the client look like. *)
From S2P Require Import Prelude Text Utf8 Wire ByteBuffer InputWire.

Local Open Scope bp_scope.

(** ** Fields *)

Lemma be_of_u n z : 0 <= z < 256 ^ Z.of_nat n -> of_be (be_of n z) = z.
Proof.
  intros H. unfold be_of, wrap. replace (2 ^ (8 * Z.of_nat n)) with (256 ^ Z.of_nat n) by (rewrite Z.pow_mul_r by lia; done).
  rewrite Z.mod_small by done. by apply of_be_be_bytes.
Qed.

Lemma be_of_i n z : (0 < n)%nat -> in_i (8 * Z.of_nat n) z -> signed (8 * Z.of_nat n) (of_be (be_of n z)) = z.
Proof.
  intros Hn H. unfold be_of. rewrite of_be_be_bytes. { apply signed_wrap; [lia|done]. }
  unfold wrap. replace (256 ^ Z.of_nat n) with (2 ^ (8 * Z.of_nat n)) by (rewrite Z.pow_mul_r by lia; done).
  apply Z.mod_pos_bound, Z.pow_pos_nonneg; lia.
Qed.

Lemma length_be_of n z : length (be_of n z) = n.
Proof. apply length_be_bytes. Qed.

Lemma len_be_of n z : len (be_of n z) = Z.of_nat n.
Proof. unfold len. by rewrite length_be_of. Qed.

Lemma bytes_be_of n z : bytes (be_of n z).
Proof. apply bytes_be_bytes. Qed.

Lemma be_of_bytes xs : bytes xs -> be_of (length xs) (of_be xs) = xs.
Proof.
  intros H. unfold be_of, wrap, be_bytes, of_be.
  assert (Hr : bytes (rev xs)) by by apply List.Forall_rev.
  replace (2 ^ (8 * Z.of_nat (length xs))) with (256 ^ Z.of_nat (length xs)) by (rewrite Z.pow_mul_r by lia; done).
  pose proof (of_le_bound _ Hr) as Hb. unfold len in Hb. rewrite length_rev in Hb. rewrite Z.mod_small by done.
  rewrite <- (length_rev xs), le_bytes_of_le by done. apply rev_involutive.
Qed.

Lemma wrap8_byte x : is_byte (wrap 8 x).
Proof. by apply Z.mod_pos_bound. Qed.

Lemma is_byte_bool b : is_byte (bool_byte b).
Proof. by destruct b. Qed.

Lemma wrap_byte x : is_byte x -> wrap 8 x = x.
Proof. intros H. by apply Z.mod_small. Qed.

Arguments be_of : simpl never.

(** ** Reading a field that is there *)

Section read.
Context {B : Type} (k : Z -> reader B) (pre rest : list Z).

Lemma rbind_u8 x : rbind get_u8 k (at_view pre (x :: rest)) = k x (at_view (pre ++ [x]) rest).
Proof. unfold rbind. by rewrite get_u8_view. Qed.

Lemma rbind_bool (kb : bool -> reader B) x :
  rbind get_bool kb (at_view pre (x :: rest)) = kb (negb (x =? 0)) (at_view (pre ++ [x]) rest).
Proof. unfold rbind. by rewrite get_bool_view. Qed.

Lemma rbind_i8 z : in_i8 z -> rbind get_i8 k (at_view pre (wrap 8 z :: rest)) = k z (at_view (pre ++ [wrap 8 z]) rest).
Proof. intros H. unfold rbind. by rewrite get_i8_view, signed_wrap. Qed.

Lemma rbind_u16 z : in_u16 z -> rbind get_u16 k (at_view pre (be_of 2 z ++ rest)) = k z (at_view (pre ++ be_of 2 z) rest).
Proof. intros H. unfold rbind, get_u16. rewrite get_uint_view by apply length_be_of. by rewrite be_of_u. Qed.

Lemma rbind_i16 z : in_i16 z -> rbind get_i16 k (at_view pre (be_of 2 z ++ rest)) = k z (at_view (pre ++ be_of 2 z) rest).
Proof. intros H. unfold rbind. rewrite get_i16_view by apply length_be_of. by rewrite (be_of_i 2) by (done || lia). Qed.

Lemma rbind_u32 z : in_u32 z -> rbind get_u32 k (at_view pre (be_of 4 z ++ rest)) = k z (at_view (pre ++ be_of 4 z) rest).
Proof. intros H. unfold rbind, get_u32. rewrite get_uint_view by apply length_be_of. by rewrite be_of_u. Qed.

Lemma rbind_f32 z : in_u32 z -> rbind get_f32 k (at_view pre (be_of 4 z ++ rest)) = k z (at_view (pre ++ be_of 4 z) rest).
Proof. exact (rbind_u32 z). Qed.

Lemma rbind_utf8 (kt : result text Utf8Error -> reader B) t :
  Forall scalar t -> rbind (get_utf8_raw (len t)) kt (at_view pre (utf8 t ++ rest)) = kt (Ok t) (at_view pre (utf8 t ++ rest)).
Proof. intros H. unfold rbind. by rewrite get_utf8_raw_view. Qed.

Lemma need_enough `{Moonlight} n kp : n <= len rest -> need n kp (at_view pre rest) = kp (at_view pre rest).
Proof. intros H'. unfold need. rewrite remaining_view. by destruct (Z.ltb_spec (len rest) n); [lia|]. Qed.
End read.

(** Lengths of concatenated big-endian fields. *)
Ltac be_lens :=
  repeat first [ rewrite len_app in * | rewrite len_be_of in * | rewrite len_cons in * | rewrite len_nil in * ].

Ltac enough_left rest := be_lens; pose proof (len_nonneg rest); lia.

(** Reads the fields of an encoding in order, [rest] after it. *)
Ltac read_packet rest :=
  repeat first
    [ rewrite rbind_u8 | rewrite rbind_bool | rewrite rbind_i8 by done | rewrite rbind_u16 by done
    | rewrite rbind_i16 by done | rewrite rbind_u32 by done | rewrite rbind_f32 by done
    | rewrite rbind_utf8 by done
    | rewrite need_enough by enough_left rest
    | progress cbn [app Z.eqb Pos.eqb] ].

Ltac solve_packet_bytes :=
  repeat first
    [ apply bytes_app | apply bytes_be_of | apply bytes_nil | apply bytes_cons | apply wrap8_byte | apply bytes_utf8 | apply is_byte_bool | done
    | progress unfold is_byte; lia ].

Ltac split_conjs := repeat match goal with H : _ /\ _ |- _ => destruct H end.

(** A packet without text: its bytes and its reading. *)
Ltac at_channel D rest :=
  lazymatch goal with
  | He : Some (?ch, _) = Some _, Hp : @packet_ok _ _ |- _ =>
      apply (inj Some), pair_eq in He as [<- <-]; cbn [packet_ok] in Hp; split_conjs;
      split; [by solve_packet_bytes|]; change (deserialize_on ch) with D;
      unfold deserialize_host_video, deserialize_mouse, deserialize_keyboard, deserialize_touch, deserialize_controllers, deserialize_rtt;
      rewrite <- ?app_assoc; read_packet rest; try done
  end.

Section wire.
Context {M : Moonlight} {L : MoonlightLaws M}.

Lemma ascii_utf8 t : Forall (fun c => 0 <= c < 128) t -> utf8 t = t /\ Forall scalar t.
Proof.
  induction 1 as [|c t Hc _ [IH1 IH2]]; [by split|]. split.
  - unfold utf8. rewrite bind_cons. unfold utf8_char at 1. destruct (Z.ltb_spec c 128); [|lia]. fold (utf8 t). by rewrite IH1.
  - constructor; [|done]. split; [lia|]. unfold surrogate. destruct (Z.leb_spec 55296 c); [lia|done].
Qed.

Lemma encode_iff p : packet_ok p -> (encode p = None <-> ~ encodable p).
Proof.
  intros Hp. destruct p; cbn [encode encodable]; try (by split; [|intros []]).
  - destruct (json_round message) as (t & -> & _ & Ht & Hl). rewrite (proj1 (ascii_utf8 t Ht)).
    destruct (Z.ltb_spec 65535 (len t)); [lia|]. by split; [|intros []].
  - destruct (Z.ltb_spec 255 (len t)); (split; [|done || lia]); [lia|done].
  - destruct Hp as [Hid _]. unfold is_byte in Hid. destruct (CONTROLLER_CHANNELS !! Z.to_nat id) as [c|] eqn:E.
    + apply lookup_lt_Some in E. cbn in E. split; [done|lia].
    + apply lookup_ge_None in E. cbn in E. split; [lia|done].
  - unfold touch_byte. destruct tet_distinct as (D1 & D2 & D3). repeat case_bool_decide; split; try done; try tauto; intros _ [?|[?|?]]; done.
Qed.

Lemma action_byte a :
  (if negb (bool_byte (bool_decide (a = mba_press)) =? 0) then mba_press else mba_release) = a.
Proof. pose proof mba_distinct. by destruct (mba_two a) as [->| ->]; case_bool_decide. Qed.

Lemma key_byte a : (if negb (bool_byte (bool_decide (a = ka_down)) =? 0) then ka_down else ka_up) = a.
Proof. pose proof ka_distinct. by destruct (ka_two a) as [->| ->]; case_bool_decide. Qed.

Lemma touch_event_byte e b : touch_byte e = Some b -> is_byte b /\ touch_event b = Some e.
Proof. unfold touch_byte. repeat case_bool_decide; intros [= <-]; subst; by split. Qed.

Lemma controller_channel id c :
  0 <= id -> CONTROLLER_CHANNELS !! Z.to_nat id = Some c -> deserialize_on c = deserialize_controller_state id.
Proof.
  intros Hid H. pose proof (lookup_lt_Some _ _ _ H) as Hlt. cbn in Hlt.
  assert (Hc : id ∈ seqZ 0 16) by (apply elem_of_seqZ; lia).
  change (seqZ 0 16) with [0;1;2;3;4;5;6;7;8;9;10;11;12;13;14;15] in Hc.
  repeat (apply elem_of_cons in Hc as [->|Hc]; [cbn in H; injection H as <-; reflexivity|]). by apply elem_of_nil in Hc.
Qed.

Lemma decode_encode p ch bs rest :
  packet_ok p -> encode p = Some (ch, bs) -> bytes bs /\ deserialize ch (bs ++ rest) = Some (Some (received p)).
Proof.
  intros Hp He. unfold deserialize. rewrite buffer_new_view. destruct p; cbn [encode] in He.
  - destruct (json_round message) as (t & Et & Ef & Ht & Hl). rewrite Et in He. destruct (ascii_utf8 t Ht) as [Eu Hs].
    rewrite Eu in He. destruct (Z.ltb_spec 65535 (len t)); [done|]. apply (inj Some), pair_eq in He as [<- <-]. split.
    { apply bytes_app; [apply bytes_be_of|]. eapply Forall_impl; [exact Ht|]. unfold is_byte. cbn. lia. }
    change (deserialize_on GENERAL) with deserialize_general. unfold deserialize_general.
    rewrite <- app_assoc. replace (t ++ rest) with (utf8 t ++ rest) by by rewrite Eu.
    assert (in_u16 (len t)) by (unfold in_u; pose proof (len_nonneg t); lia).
    pose proof (len_nonneg (utf8 t)). read_packet rest. by rewrite Ef.
  - at_channel deserialize_mouse rest.
  - at_channel deserialize_mouse rest.
  - pose proof (mb_u8 button). at_channel deserialize_mouse rest. by rewrite mb_from_as, action_byte.
  - at_channel deserialize_mouse rest.
  - at_channel deserialize_mouse rest.
  - at_channel deserialize_keyboard rest. pose proof (km_i8 modifiers).
    by rewrite signed_wrap, km_from_to, key_byte.
  - destruct (Z.ltb_spec 255 (len t)); [done|]. pose proof (len_nonneg t). pose proof (len_nonneg (utf8 t)).
    at_channel deserialize_keyboard rest.
  - pose proof (cb_u32 supported_buttons). pose proof (cc_u16 capabilities). at_channel deserialize_controllers rest.
    by rewrite cb_from_to, cc_from_to.
  - at_channel deserialize_controllers rest.
  - destruct (CONTROLLER_CHANNELS !! Z.to_nat id) as [c|] eqn:E; [|done]. cbn [packet_ok] in Hp. split_conjs.
    apply (inj Some), pair_eq in He as [<- <-]. rewrite (controller_channel id c) by (done || (unfold is_byte in *; lia)).
    pose proof (cb_u32 buttons). split; [by solve_packet_bytes|]. unfold deserialize_controller_state.
    rewrite <- ?app_assoc. read_packet rest. rewrite cb_from_to. by read_packet rest.
  - destruct (touch_byte event_type) as [e|] eqn:E; [|done]. apply touch_event_byte in E as [Hb E].
    assert (in_u16 (default 0 rotation)) by (cbn [packet_ok] in Hp; split_conjs; by destruct rotation).
    at_channel deserialize_touch rest. rewrite E. by read_packet rest.
  - at_channel deserialize_rtt rest.
  - at_channel deserialize_host_video rest.
Qed.

(** ** Reading whatever is there *)

(** What the decoder answers can be sent, and comes back as it is. *)
Definition sendable (r : option InboundPacket) : Prop :=
  from_option (fun p => packet_ok p /\ encodable p /\ received p = p) True r.

Definition decodes (D : reader (option InboundPacket)) (b : ByteBuffer) : Prop :=
  exists r b', D b = Some (r, b') /\ sendable r.

Lemma split_n n bs : bytes bs -> Z.of_nat n <= len bs ->
  exists xs rest, bs = xs ++ rest /\ length xs = n /\ bytes xs /\ bytes rest /\ len rest = len bs - Z.of_nat n.
Proof.
  intros Hb Hn. unfold len in *. exists (take n bs), (drop n bs). rewrite take_drop, length_take, length_drop.
  repeat split; try lia; [by apply bytes_take|by apply bytes_drop].
Qed.

Lemma split_u8 bs : bytes bs -> 1 <= len bs -> exists x rest, bs = x :: rest /\ is_byte x /\ bytes rest /\ len rest = len bs - 1.
Proof.
  intros Hb Hl. destruct bs as [|x rest]; [done|]. apply Forall_cons in Hb as [Hx Hr]. exists x, rest.
  rewrite len_cons. split; [done|]. split; [done|]. split; [done|lia].
Qed.

Lemma split_uint n bs : bytes bs -> Z.of_nat n <= len bs ->
  exists z rest, bs = be_of n z ++ rest /\ 0 <= z < 256 ^ Z.of_nat n /\ bytes rest /\ len rest = len bs - Z.of_nat n.
Proof.
  intros Hb Hn. destruct (split_n n bs Hb Hn) as (xs & rest & -> & Hl & Hx & Hr & El). exists (of_be xs), rest.
  rewrite <- Hl, be_of_bytes by done. pose proof (of_be_bound xs Hx). unfold len in *. rewrite Hl in *. repeat split; try done; lia.
Qed.

Lemma split_i16 bs : bytes bs -> 2 <= len bs ->
  exists z rest, bs = be_of 2 z ++ rest /\ in_i16 z /\ bytes rest /\ len rest = len bs - 2.
Proof.
  intros Hb Hn. destruct (split_uint 2 bs Hb Hn) as (z & rest & -> & Hz & Hr & El). exists (signed 16 z), rest.
  split; [|split; [by apply signed_range|by split]]. f_equal. unfold be_of. f_equal. change (8 * Z.of_nat 2) with 16.
  change (256 ^ Z.of_nat 2) with 65536 in Hz. unfold signed, wrap. change (2 ^ (16 - 1)) with 32768. change (2 ^ 16) with 65536.
  destruct (Z.ltb_spec z 32768); [done|]. rewrite <- (Z_mod_plus_full (z - 65536) 1). f_equal. lia.
Qed.

Lemma split_i8 bs : bytes bs -> 1 <= len bs ->
  exists z rest, bs = wrap 8 z :: rest /\ in_i8 z /\ bytes rest /\ len rest = len bs - 1.
Proof.
  intros Hb Hn. destruct (split_u8 bs Hb Hn) as (x & rest & -> & Hx & Hr & El). exists (signed 8 x), rest.
  split; [|split; [by apply signed_range|by split]]. f_equal. unfold is_byte in Hx.
  unfold signed, wrap. change (2 ^ (8 - 1)) with 128. change (2 ^ 8) with 256.
  destruct (Z.ltb_spec x 128); [by rewrite Z.mod_small|]. rewrite <- (Z_mod_plus_full (x - 256) 1), Z.mod_small; lia.
Qed.

Lemma decodes_none b : decodes dropped_packet b.
Proof. exists None, b. by split; [|exact I]. Qed.

Lemma decodes_packet p b : packet_ok p -> encodable p -> received p = p -> decodes (packet p) b.
Proof. intros. exists (Some p), b. by repeat split. Qed.

Lemma decodes_need n k pre bs : (n <= len bs -> decodes k (at_view pre bs)) -> decodes (need n k) (at_view pre bs).
Proof.
  intros H. unfold decodes, need. rewrite remaining_view. destruct (Z.ltb_spec (len bs) n); [eexists None, _; by split; [|exact I]|by apply H].
Qed.

Lemma decodes_rbind {A} (m : reader A) k b a b' : m b = Some (a, b') -> decodes (k a) b' -> decodes (rbind m k) b.
Proof. intros E H. unfold decodes, rbind. by rewrite E. Qed.

(** Reads the next field of a buffer that has enough bytes. *)
Ltac read_next :=
  let z := fresh "z" in let rest := fresh "rest" in let H := fresh "Hr" in
  lazymatch goal with
  | Hb : bytes ?bs |- decodes (rbind get_u8 _) (at_view _ ?bs) =>
      destruct (split_u8 bs Hb) as (z & rest & -> & ? & H & ?); [lia|]; eapply decodes_rbind; [apply get_u8_view|]
  | Hb : bytes ?bs |- decodes (rbind get_bool _) (at_view _ ?bs) =>
      destruct (split_u8 bs Hb) as (z & rest & -> & ? & H & ?); [lia|]; eapply decodes_rbind; [apply get_bool_view|]
  | Hb : bytes ?bs |- decodes (rbind get_i8 _) (at_view _ ?bs) =>
      destruct (split_i8 bs Hb) as (z & rest & -> & ? & H & ?); [lia|]; unfold decodes; rewrite rbind_i8 by done
  | Hb : bytes ?bs |- decodes (rbind get_i16 _) (at_view _ ?bs) =>
      destruct (split_i16 bs Hb) as (z & rest & -> & ? & H & ?); [lia|]; unfold decodes; rewrite rbind_i16 by done
  | Hb : bytes ?bs |- decodes (rbind get_u16 _) (at_view _ ?bs) =>
      destruct (split_uint 2 bs Hb) as (z & rest & -> & ? & H & ?); [lia|]; unfold decodes; rewrite rbind_u16 by done
  | Hb : bytes ?bs |- decodes (rbind get_u32 _) (at_view _ ?bs) =>
      destruct (split_uint 4 bs Hb) as (z & rest & -> & ? & H & ?); [lia|]; unfold decodes; rewrite rbind_u32 by done
  | Hb : bytes ?bs |- decodes (rbind get_f32 _) (at_view _ ?bs) =>
      destruct (split_uint 4 bs Hb) as (z & rest & -> & ? & H & ?); [lia|]; unfold decodes; rewrite rbind_f32 by done
  end; lazymatch goal with |- exists r b', ?D ?b = _ /\ _ => change (decodes D b) | |- _ => idtac end; cbn [at0 app].

Ltac read_all :=
  repeat first
    [ apply decodes_none | apply decodes_packet; [cbn [packet_ok]; split_and?; done|done|done]
    | apply decodes_need; intros ? | read_next
    | lazymatch goal with |- decodes (if ?b then _ else _) _ => destruct b end
    | lazymatch goal with |- decodes (match ?o with Some _ => _ | None => _ end) _ => destruct o eqn:? end ].

Lemma arms_decode pre bs : bytes bs ->
  decodes deserialize_host_video (at_view pre bs) /\ decodes deserialize_mouse (at_view pre bs) /\
  decodes deserialize_controllers (at_view pre bs).
Proof. intros Hb. split_and!; unfold deserialize_host_video, deserialize_mouse, deserialize_controllers; read_all. Qed.

Lemma touch_event_known x e : touch_event x = Some e -> e = tet_down \/ e = tet_move \/ e = tet_cancel.
Proof. unfold touch_event. repeat case_match; intros [= <-]; auto. Qed.

Lemma touch_decodes pre bs : bytes bs -> decodes deserialize_touch (at_view pre bs).
Proof.
  intros Hb. unfold deserialize_touch. apply decodes_need; intros ?. read_next.
  destruct (touch_event _) as [e|] eqn:E; [|apply decodes_none]. apply touch_event_known in E.
  repeat read_next. apply decodes_packet; [cbn [packet_ok]; split_and?; done|done|done].
Qed.

Lemma text_decodes n pre bs (k : result text Utf8Error -> reader (option InboundPacket)) :
  bytes bs -> 0 <= n ->
  (forall r b, match r with Ok t => len t = n /\ Forall scalar t | Err _ => True end -> decodes (k r) b) ->
  decodes (rbind (get_utf8_raw n) k) (at_view pre bs).
Proof.
  intros Hb Hn Hk. destruct (get_utf8_raw_returns n pre bs) as (r & b & E).
  eapply decodes_rbind; [exact E|]. apply Hk. by eapply get_utf8_raw_inv.
Qed.

Lemma general_decodes pre bs : bytes bs -> decodes deserialize_general (at_view pre bs).
Proof.
  intros Hb. unfold deserialize_general. apply decodes_need; intros ?. read_next.
  apply text_decodes; [done|lia|]. intros [t|e] b _; [|apply decodes_none].
  destruct (json_from_str t); [by apply decodes_packet|apply decodes_none].
Qed.

Lemma keyboard_decodes pre bs : bytes bs -> decodes deserialize_keyboard (at_view pre bs).
Proof.
  intros Hb. unfold deserialize_keyboard. apply decodes_need; intros ?. read_next.
  destruct (_ =? 0); [read_all|]. destruct (_ =? 1); [|apply decodes_none].
  apply decodes_need; intros ?. read_next. match goal with H : is_byte ?n |- decodes (rbind (get_utf8_raw ?n) _) _ => unfold is_byte in H end.
  apply text_decodes; [done|lia|]. intros [t|e] b Ht; [|apply decodes_none].
  apply decodes_packet; [apply Ht| |done]. cbn. lia.
Qed.

Lemma state_decodes id pre bs : bytes bs -> is_byte id -> id < 16 -> decodes (deserialize_controller_state id) (at_view pre bs).
Proof.
  intros Hb Hi Hlt. unfold deserialize_controller_state. apply decodes_need; intros ?. read_next.
  destruct (_ =? 0); [|apply decodes_none]. apply decodes_need; intros ?. read_next.
  destruct (cb_from_bits _); [|apply decodes_none]. repeat read_next.
  apply decodes_packet; [cbn [packet_ok]; split_and?; done|done|done].
Qed.

Lemma rtt_decodes bs : bytes bs ->
  match bs with [] => deserialize_rtt (at_view [] bs) = None | _ => decodes deserialize_rtt (at_view [] bs) end.
Proof.
  intros Hb. destruct bs as [|x bs]; [done|]. unfold deserialize_rtt.
  assert (1 <= len (x :: bs)) by (rewrite len_cons; pose proof (len_nonneg bs); lia). read_all.
Qed.

Lemma gamepad_of_bound channel id : gamepad_of channel = Some id -> is_byte id /\ id < 16.
Proof.
  unfold gamepad_of. intros ([i c] & H & E)%fmap_Some. apply list_find_Some in H as (H & _).
  apply lookup_lt_Some in H. cbn in H, E. unfold is_byte. lia.
Qed.

Lemma deserialize_total channel bs : bytes bs ->
  (channel = RTT /\ bs = [] /\ deserialize channel bs = None) \/
  ~ (channel = RTT /\ bs = []) /\ exists r, deserialize channel bs = Some r /\ sendable r.
Proof.
  intros Hb. unfold deserialize. rewrite buffer_new_view.
  assert (Hd : decodes (deserialize_on channel) (at_view [] bs) \/ channel = RTT).
  { destruct (arms_decode [] bs Hb) as (H1 & H2 & H3). unfold deserialize_on. do 8 (match goal with |- decodes (if ?b then _ else _) _ \/ _ => destruct b end;
      [left; auto using decodes_none, general_decodes, keyboard_decodes, touch_decodes|]).
    destruct (gamepad_of channel) as [id|] eqn:E; [left; apply gamepad_of_bound in E as []; by apply state_decodes|].
    destruct (Z.eqb_spec channel RTT); [by right|left; apply decodes_none]. }
  destruct (decide (channel = RTT /\ bs = [])) as [[-> ->]|Hn]; [by left|]. right. split; [done|].
  assert (decodes (deserialize_on channel) (at_view [] bs)) as (r & b & -> & Hs); [|by exists r].
  destruct Hd as [| ->]; [done|]. change (deserialize_on RTT) with deserialize_rtt.
  pose proof (rtt_decodes bs Hb) as H. destruct bs; [by destruct Hn|done].
Qed.
End wire.

(** ** The packets to the client *)

Lemma resize_nil n : resize n [] = replicate (Z.to_nat n) 0.
Proof. unfold resize. by rewrite take_nil, Nat.sub_0_r. Qed.

Lemma len_resize n v : 0 <= n -> len (resize n v) = n.
Proof. intros H. unfold resize, len. rewrite length_app, length_take, length_replicate. lia. Qed.

(** A buffer that has been written up to [pre]. *)
Definition written (pre rest : list Z) : ByteBuffer := mkBuffer (len pre) (len (pre ++ rest)) false (pre ++ rest).

Lemma put_written xs pre rest :
  (length xs <= length rest)%nat -> put_u8_array xs (written pre rest) = (true, written (pre ++ xs) (drop (length xs) rest)).
Proof.
  intros H. unfold put_u8_array, written. cbn [position limit little_endian buffer].
  destruct (Z.ltb_spec (len (pre ++ rest) - len pre) (len xs)) as [Hl|_]; [rewrite len_app in Hl; unfold len in Hl; lia|].
  rewrite take_len_app. replace (Z.to_nat (len pre)) with (length pre) by (unfold len; lia). rewrite drop_app_add.
  do 2 f_equal; [by rewrite len_app| |by rewrite <- app_assoc]. rewrite !len_app. unfold len. rewrite length_drop. lia.
Qed.

Lemma flip_written b pre : flipped (b, written pre []) = (pre, len pre).
Proof. unfold flipped, flip, into_raw, written. cbn. by rewrite app_nil_r. Qed.

Definition motor_bytes (number a b : Z) : list Z := [0; number] ++ be_bytes 2 a ++ be_bytes 2 b.

(** The channel and the bytes of each packet. *)
Definition outbound_wire (p : OutboundPacket) : option (Z * list Z) :=
  match p with
  | OutGeneral json => (fun t => (GENERAL, be_bytes 2 (wrap16 (len (utf8 t))) ++ utf8 t)) <$> json
  | OutStats json => (fun t => (STATS, be_bytes 2 (wrap16 (len (utf8 t))) ++ utf8 t)) <$> json
  | ControllerRumble n a b | ControllerTriggerRumble n a b => Some (wrap 8 (CONTROLLER0 + n), motor_bytes n a b)
  | OutRtt seq => Some (RTT, [0] ++ be_bytes 2 seq)
  end.

Lemma buffer_new_written v : buffer_new v = written [] v.
Proof. done. Qed.

Lemma put_u8_written x pre rest : (1 <= length rest)%nat -> put_u8 x (written pre rest) = (true, written (pre ++ [x]) (drop 1 rest)).
Proof. exact (put_written [x] pre rest). Qed.

Lemma put_u16_written x pre rest : (2 <= length rest)%nat ->
  put_u16 x (written pre rest) = (true, written (pre ++ be_bytes 2 x) (drop 2 rest)).
Proof. intros H. unfold put_u16. cbn [to_bytes written little_endian]. fold (written pre rest). rewrite put_written; by rewrite length_be_bytes. Qed.

Ltac room := rewrite ?length_drop; unfold len in *; lia.

Lemma serialize_spec p raw :
  serialize p raw = (fun cb : Z * list Z => (cb.1, (cb.2, len cb.2))) <$> outbound_wire p.
Proof.
  assert (Hr : forall n, 0 <= n -> len (resize n raw) = n) by (intros; by apply len_resize).
  assert (Hjson : forall ch json, serialize_json ch json raw =
    (fun cb : Z * list Z => (cb.1, (cb.2, len cb.2))) <$> ((fun t => (ch, be_bytes 2 (wrap16 (len (utf8 t))) ++ utf8 t)) <$> json)).
  { intros ch [t|]; [|done]. unfold serialize_json. rewrite buffer_new_written.
    pose proof (len_nonneg (utf8 t)). specialize (Hr (len (utf8 t) + 2) ltac:(lia)).
    rewrite put_u16_written by room. cbn [snd]. unfold put_utf8_raw. rewrite put_written by room.
    rewrite drop_ge by room. by rewrite flip_written. }
  assert (Hmotors : forall n a b, serialize_motors n a b raw = Some (wrap 8 (CONTROLLER0 + n), (motor_bytes n a b, len (motor_bytes n a b)))).
  { intros n a b. unfold serialize_motors. rewrite buffer_new_written. specialize (Hr 6 ltac:(lia)).
    rewrite put_u8_written by room. cbn [snd]. rewrite put_u8_written by room. cbn [snd].
    rewrite put_u16_written by room. cbn [snd]. rewrite put_u16_written by room. rewrite drop_ge by room. by rewrite flip_written. }
  destruct p; cbn [serialize outbound_wire]; try done.
  rewrite buffer_new_written. specialize (Hr 3 ltac:(lia)). rewrite put_u8_written by room. cbn [snd].
  rewrite put_u16_written by room. rewrite drop_ge by room. by rewrite flip_written.
Qed.

Lemma send_packet_spec p : send_packet p = (fun cb : Z * list Z => cb.1 :: cb.2) <$> outbound_wire p.
Proof.
  unfold send_packet. rewrite serialize_spec. destruct (outbound_wire p) as [[ch bs]|]; [|done]. cbn [fmap option_fmap option_map fst snd].
  pose proof (len_nonneg bs). f_equal. unfold resize.
  rewrite (take_ge bs) by (unfold len; lia).
  replace (Z.to_nat (len bs + 1) - length bs)%nat with 1%nat by (unfold len; lia).
  rewrite take_len_app. destruct bs as [|x bs]; done.
Qed.

(** ** The claims *)

Section claims.
Context {M : Moonlight} {L : MoonlightLaws M}.

(** C14: Whatever packet the client encodes, the streamer's decoder gives back, on
    the channel it was sent on and whatever bytes follow it, but for the three
    fields that do not travel; and a packet whose numbers fit its fields is refused
    exactly when its text is over 255 characters, its controller is not one of the
    sixteen, or its touch event is none of down, move and cancel. *)
Theorem input_roundtrip p :
  packet_ok p ->
  (encode p = None <-> ~ encodable p) /\
  forall ch bs, encode p = Some (ch, bs) ->
    bytes bs /\ forall rest, deserialize ch (bs ++ rest) = Some (Some (received p)).
Proof.
  intros Hp. split; [by apply encode_iff|]. intros ch bs He.
  split; [exact (proj1 (decode_encode p ch bs [] Hp He))|]. intros rest. by apply decode_encode.
Qed.

(** C33: On every channel and every bytes the decoder returns, but for one input: an
    empty message on the round-trip channel makes it panic, which every other arm
    guards against. What it returns has every number in range and can be sent: its
    encoding is read back as the very packet. *)
Theorem input_decoder_total channel bs :
  bytes bs ->
  (deserialize channel bs = None <-> channel = RTT /\ bs = []) /\
  forall p, deserialize channel bs = Some (Some p) ->
    packet_ok p /\ exists ch' bs', encode p = Some (ch', bs') /\ deserialize ch' bs' = Some (Some p).
Proof.
  intros Hb. destruct (deserialize_total channel bs Hb) as [(-> & -> & E)|(Hn & r & E & Hs)]; rewrite E.
  - by split.
  - split; [by split|]. intros p [= ->]. destruct Hs as (Hok & Henc & Hrec). split; [done|].
    destruct (encode p) as [[ch' bs']|] eqn:Ep; [|by apply encode_iff in Ep]. exists ch', bs'. split; [done|].
    destruct (decode_encode p ch' bs' [] Hok Ep) as [_ H]. by rewrite app_nil_r, Hrec in H.
Qed.
End claims.

(** Every packet to the client leaves as its channel and its fields, big-endian,
    whatever was in the buffer, and over the web socket with the channel before
    them. A rumble of the triggers leaves as the very bytes, on the very channel, of
    a rumble of the motors: no receiver can tell them apart. *)
Theorem outbound_exact p raw :
  serialize p raw = (fun cb : Z * list Z => (cb.1, (cb.2, len cb.2))) <$> outbound_wire p /\
  send_packet p = (fun cb : Z * list Z => cb.1 :: cb.2) <$> outbound_wire p /\
  (forall n a b, serialize (ControllerTriggerRumble n a b) raw = serialize (ControllerRumble n a b) raw) /\
  ~ exists receiver : Z -> list Z -> option OutboundPacket,
      forall p ch buf e, serialize p raw = Some (ch, (buf, e)) -> receiver ch buf = Some p.
Proof.
  split; [apply serialize_spec|]. split; [apply send_packet_spec|]. split; [done|]. intros [receiver H].
  assert (E : forall p, outbound_wire p = Some (wrap 8 10, motor_bytes 0 0 0) -> receiver (wrap 8 10) (motor_bytes 0 0 0) = Some p).
  { intros q Hq. eapply H. by rewrite serialize_spec, Hq. }
  pose proof (E (ControllerRumble 0 0 0) eq_refl) as E1. by rewrite (E (ControllerTriggerRumble 0 0 0) eq_refl) in E1.
Qed.

(** ** A host library *)

Definition stop_json : text := 34 :: lit "Stop" ++ [34].

Definition two_moonlight : Moonlight := {|
  MouseButtonAction := bool; mba_eq := _; mba_press := true; mba_release := false;
  MouseButton := bool; mb_as_u8 b := if b then 1 else 2;
  mb_from_u8 x := if x =? 1 then Some true else if x =? 2 then Some false else None;
  KeyAction := bool; ka_eq := _; ka_down := true; ka_up := false;
  KeyModifiers := bool; km_bits b := bool_byte b;
  km_from_bits x := if x =? 0 then Some false else if x =? 1 then Some true else None; km_empty := false;
  KeyFlags := unit; kf_empty := tt; ControllerType := unit; ct_unknown := tt;
  ControllerButtons := bool; cb_bits b := if b then 65535 else 0;
  cb_from_bits x := if x =? 0 then Some false else if x =? 65535 then Some true else None; cb_all := true;
  ControllerCapabilities := bool; cc_bits b := bool_byte b;
  cc_from_bits x := if x =? 0 then Some false else if x =? 1 then Some true else None; cc_empty := false;
  TouchEventType := comparison; tet_eq := _; tet_down := Lt; tet_move := Eq; tet_cancel := Gt;
  json_to_string _ := Some stop_json;
  json_from_str t := if bool_decide (t = stop_json) then Some Stop else None
|}.

Lemma two_moonlight_laws : MoonlightLaws two_moonlight.
Proof.
  split; cbn; try done; try solve [intros []; cbn; first [done | lia | auto]].
  - intros []. exists stop_json. split; [reflexivity|]. split; [by rewrite bool_decide_true|].
    split; [|by vm_compute]. repeat constructor; by vm_compute.
Qed.

(** A mouse move byte by byte, a text in several alphabets, and the stop message. *)
Lemma input_roundtrip_witness :
  let M := two_moonlight in
  let ps := [MouseMove (-2) 300; TextPacket [54620; 44544; 97]; General Stop] in
  encode (MouseMove (-2) 300) = Some (MOUSE_RELATIVE, [0; 255; 254; 1; 44]) /\
  Forall (fun p => exists ch bs, encode p = Some (ch, bs) /\ deserialize ch (bs ++ [7; 7]) = Some (Some p)) ps.
Proof.
  intros M ps. assert (L := two_moonlight_laws). split; [reflexivity|].
  assert (H : forall p, packet_ok p -> encodable p -> received p = p ->
    exists ch bs, encode p = Some (ch, bs) /\ deserialize ch (bs ++ [7; 7]) = Some (Some p)).
  { intros p Hp He Hr. destruct (input_roundtrip p Hp) as [Hn Hd]. destruct (encode p) as [[ch bs]|].
    - exists ch, bs. split; [done|]. destruct (Hd ch bs eq_refl) as [_ E]. by rewrite E, Hr.
    - exfalso. by apply Hn. }
  repeat constructor; (apply H; [|cbn; lia || done|done]); cbn; unfold in_i16, in_i, scalar; repeat constructor; done || lia.
Defined.

(** A scroll that is read, and the empty round-trip message. *)
Lemma input_decoder_total_witness :
  let M := two_moonlight in
  deserialize RTT [] = None /\ deserialize KEYBOARD [] = Some None /\
  exists ch bs, encode (Scroll (-1) 3) = Some (ch, bs) /\ deserialize ch bs = Some (Some (Scroll (-1) 3)).
Proof.
  intros M. assert (L := two_moonlight_laws). split.
  { apply (input_decoder_total RTT []); [constructor|done]. }
  split; [reflexivity|]. assert (Hb : bytes [4; 255; 3; 9]) by (repeat constructor; done).
  apply (input_decoder_total MOUSE_ABSOLUTE [4; 255; 3; 9] Hb). reflexivity.
Defined.
