(* ===== verification/Broker.v ===== *)
(** * The keyboard broker's pipe (input-broker/src/protocol.rs)

    The header and the batches of captured key events, and the capture state that
    takes a batch only from its owner, while armed, under the armed nonce and
    without a gap; against the history of calls. *)
From S2P Require Import Prelude Wire.

Definition VERSION : Z := 1.
(** [BPK1] *)
Definition PIPE_MAGIC : list Z := [66; 80; 75; 49].
Definition MAX_PAYLOAD : Z := 65536.
Definition EVENT_SIZE : Z := 32.
Definition BATCH_PREFIX_SIZE : Z := 8.

Inductive MessageKind : Type := Arm | Disarm | Events | Status.
Definition kind_u16 (k : MessageKind) : Z := match k with Arm => 1 | Disarm => 2 | Events => 3 | Status => 4 end.

Inductive ProtocolError : Type :=
| Truncated | BadMagic | VersionMismatch | UnknownKind | PayloadTooLarge | MalformedBatch | SequenceGap
| AlreadyConnected | NotOwner | NotArmed | NonceMismatch.

Definition kind_try_from (v : Z) : result MessageKind ProtocolError :=
  if v =? 1 then Ok Arm else if v =? 2 then Ok Disarm else if v =? 3 then Ok Events else if v =? 4 then Ok Status
  else Err UnknownKind.

Record Header := mkHeader { h_kind : MessageKind; payload_len : Z }.

Record Event := mkEvent {
  ev_kind : Z; sequence : Z; nonce : Z; make_code : Z; flags : Z; extra_information : Z; interrupt_time_100ns : Z
}.

Record Batch := mkBatch { dropped : Z; events : list Event }.

(** ** Codecs *)

Definition encode_header (kind : MessageKind) (payload_len : Z) : result (list Z) ProtocolError :=
  if MAX_PAYLOAD <? payload_len then Err PayloadTooLarge
  else Ok (PIPE_MAGIC ++ le_bytes 2 VERSION ++ le_bytes 2 (kind_u16 kind) ++ le_bytes 4 (wrap32 payload_len)).

Definition decode_header (bytes : list Z) : result Header ProtocolError :=
  if negb (len bytes =? 12) then Err Truncated
  else if negb (bool_decide (take 4 bytes = PIPE_MAGIC)) then Err BadMagic
  else if negb (le_field bytes 4 6 =? VERSION) then Err VersionMismatch
  else
    let payload_len := le_field bytes 8 12 in
    if MAX_PAYLOAD <? payload_len then Err PayloadTooLarge
    else let? kind := kind_try_from (le_field bytes 6 8) in Ok (mkHeader kind payload_len).

Definition decode_event (chunk : list Z) : result Event ProtocolError :=
  if negb (le_field chunk 0 2 =? VERSION) then Err VersionMismatch
  else Ok (mkEvent (le_field chunk 2 4) (le_field chunk 4 8) (le_field chunk 8 16) (le_field chunk 16 18)
             (le_field chunk 18 20) (le_field chunk 20 24) (le_field chunk 24 32)).

Fixpoint decode_events (chunks : list (list Z)) : result (list Event) ProtocolError :=
  match chunks with
  | [] => Ok []
  | c :: cs => let? e := decode_event c in let? es := decode_events cs in Ok (e :: es)
  end.

(** The products and sums stay below [usize]'s maximum on 64 bits. *)
Definition decode_batch (bytes : list Z) : result Batch ProtocolError :=
  if len bytes <? BATCH_PREFIX_SIZE then Err MalformedBatch
  else
    let count := le_field bytes 0 4 in
    let dropped := le_field bytes 4 8 in
    let expected := BATCH_PREFIX_SIZE + count * EVENT_SIZE in
    if negb (len bytes =? expected) || (MAX_PAYLOAD <? len bytes) then Err MalformedBatch
    else let? es := decode_events (chunks 32 (drop 8 bytes)) in Ok (mkBatch dropped es).

Definition encode_event (e : Event) : list Z :=
  le_bytes 2 VERSION ++ le_bytes 2 (ev_kind e) ++ le_bytes 4 (sequence e) ++ le_bytes 8 (nonce e) ++
  le_bytes 2 (make_code e) ++ le_bytes 2 (flags e) ++ le_bytes 4 (extra_information e) ++
  le_bytes 8 (interrupt_time_100ns e).

Definition encode_batch (b : Batch) : result (list Z) ProtocolError :=
  let total_len := BATCH_PREFIX_SIZE + len (events b) * EVENT_SIZE in
  if MAX_PAYLOAD <? total_len then Err PayloadTooLarge
  else Ok (le_bytes 4 (wrap32 (len (events b))) ++ le_bytes 4 (dropped b) ++ (events b ≫= encode_event)).

(** ** The capture state *)

Record CaptureState := mkCapture {
  owner : option Z; armed : bool; last_sequence : option Z; armed_nonce : option Z
}.

Definition capture_default : CaptureState := mkCapture None false None None.

Definition require_owner (s : CaptureState) (client : Z) : bool := bool_decide (owner s = Some client).

Definition connect (s : CaptureState) (client : Z) : CaptureState * result unit ProtocolError :=
  match owner s with
  | Some _ => (s, Err AlreadyConnected)
  | None => (mkCapture (Some client) false None None, Ok tt)
  end.

Definition arm (s : CaptureState) (client n : Z) : CaptureState * result unit ProtocolError :=
  if require_owner s client then (mkCapture (owner s) true None (Some n), Ok tt) else (s, Err NotOwner).

Definition disarm (s : CaptureState) (client : Z) : CaptureState * result unit ProtocolError :=
  if require_owner s client then (mkCapture (owner s) false None None, Ok tt) else (s, Err NotOwner).

Definition disconnect (s : CaptureState) (client : Z) : CaptureState * result unit ProtocolError :=
  if require_owner s client then (mkCapture None false None None, Ok tt) else (s, Err NotOwner).

Definition fail_closed (s : CaptureState) : CaptureState := mkCapture (owner s) false None None.

Definition is_armed (s : CaptureState) : bool := bool_decide (is_Some (owner s)) && armed s.

(** The loop of [observe_batch]. *)
Fixpoint observe_events (s : CaptureState) (es : list Event) : CaptureState * result unit ProtocolError :=
  match es with
  | [] => (s, Ok tt)
  | e :: es =>
      if negb (bool_decide (Some (nonce e) = armed_nonce s)) then (fail_closed s, Err NonceMismatch)
      else if bool_decide (last_sequence s = None) && negb (sequence e =? 1) then (fail_closed s, Err SequenceGap)
      else if from_option (fun last => negb (sequence e =? wrap32 (last + 1))) false (last_sequence s)
      then (fail_closed s, Err SequenceGap)
      else observe_events (mkCapture (owner s) (armed s) (Some (sequence e)) (armed_nonce s)) es
  end.

Definition observe_batch (s : CaptureState) (client : Z) (b : Batch) : CaptureState * result unit ProtocolError :=
  if negb (require_owner s client) then (s, Err NotOwner)
  else if negb (armed s) then (s, Err NotArmed)
  else if negb (dropped b =? 0) then (fail_closed s, Err SequenceGap)
  else observe_events s (events b).

(** ** The codecs are exact *)

Record event_ok (e : Event) : Prop := {
  eo_kind : in_u16 (ev_kind e);
  eo_sequence : in_u32 (sequence e);
  eo_nonce : in_u64 (nonce e);
  eo_make : in_u16 (make_code e);
  eo_flags : in_u16 (flags e);
  eo_extra : in_u32 (extra_information e);
  eo_time : in_u64 (interrupt_time_100ns e)
}.

Definition batch_ok (b : Batch) : Prop := in_u32 (dropped b) /\ Forall event_ok (events b).

Arguments le_bytes : simpl never.
Arguments le_field : simpl never.

Lemma length_encode_event e : length (encode_event e) = 32%nat.
Proof. unfold encode_event. by rewrite !length_app, !length_le_bytes. Qed.

Lemma bytes_encode_event e : bytes (encode_event e).
Proof. unfold encode_event. solve_bytes. Qed.

Lemma decode_encode_event e : event_ok e -> decode_event (encode_event e) = Ok e.
Proof.
  intros [H1 H2 H3 H4 H5 H6 H7]. unfold decode_event, encode_event. rewrite <- (app_nil_r (le_bytes 8 (interrupt_time_100ns e))).
  assert (0 <= VERSION < 256 ^ Z.of_nat 2) by done. read_fields. cbn [negb Z.eqb Pos.eqb VERSION]. by destruct e.
Qed.

Lemma encode_decode_event c e : bytes c -> length c = 32%nat -> decode_event c = Ok e -> encode_event e = c /\ event_ok e.
Proof.
  intros Hb Hl H. unfold decode_event in H. destruct (Z.eqb_spec (le_field c 0 2) VERSION) as [Ev|]; [|done].
  cbn [negb] in H. injection H as <-. split.
  - unfold encode_event. cbn [ev_kind sequence nonce make_code flags extra_information interrupt_time_100ns].
    rewrite <- Ev, (le_bytes_field c 0 2 2), (le_bytes_field c 2 4 2), (le_bytes_field c 4 8 4), (le_bytes_field c 8 16 8),
      (le_bytes_field c 16 18 2), (le_bytes_field c 18 20 2), (le_bytes_field c 20 24 4), (le_bytes_field c 24 32 8) by (done || lia).
    rewrite <- (app_nil_r (slice c 24 32)), <- (drop_ge c 32) by lia. rewrite !slice_drop by lia. by rewrite drop_0.
  - split; cbn; unfold in_u; [apply (le_field_bound c 2 4 2)|apply (le_field_bound c 4 8 4)|apply (le_field_bound c 8 16 8)
      |apply (le_field_bound c 16 18 2)|apply (le_field_bound c 18 20 2)|apply (le_field_bound c 20 24 4)|apply (le_field_bound c 24 32 8)];
      done || lia.
Qed.

Lemma chunks_fuel_concat_eq {A} n (cs : list (list A)) fuel :
  (0 < n)%nat -> Forall (fun c => length c = n) cs -> (length (concat cs) <= fuel)%nat -> chunks_fuel fuel n (concat cs) = cs.
Proof.
  intros Hn Hcs. revert fuel. induction Hcs as [|c cs Hc _ IH]; intros fuel Hf; [by destruct fuel|].
  cbn [concat] in *. rewrite length_app in Hf. destruct fuel as [|fuel]; [lia|]. cbn [chunks_fuel].
  destruct (c ++ concat cs) as [|x l] eqn:E; [apply app_nil in E as [-> _]; cbn in Hc; lia|]. rewrite <- E.
  rewrite take_app_length', drop_app_length' by done. f_equal. apply IH. lia.
Qed.

Lemma chunks_exact_sizes {A} n (l : list A) k : (0 < n)%nat -> length l = (k * n)%nat -> Forall (fun c => length c = n) (chunks n l).
Proof.
  intros Hn Hl. apply Forall_lookup. intros i c Hc. destruct (chunks_lookup n l i c Hn Hc) as [-> Hi].
  rewrite length_take, length_drop, Hl. rewrite Hl in Hi. assert (i < k)%nat by nia. nia.
Qed.

Lemma decode_events_encode es : Forall event_ok es -> decode_events (encode_event <$> es) = Ok es.
Proof. induction 1 as [|e es He _ IH]; [done|]. rewrite fmap_cons. cbn [decode_events]. by rewrite decode_encode_event, IH. Qed.

Lemma encode_events_decode cs es :
  Forall (fun c => length c = 32%nat) cs -> Forall bytes cs -> decode_events cs = Ok es ->
  encode_event <$> es = cs /\ Forall event_ok es.
Proof.
  intros Hl Hb. revert es. induction Hl as [|c cs Hc _ IH]; intros es H.
  - cbn in H. injection H as <-. by split.
  - apply Forall_cons in Hb as [Hb Hbs]. cbn [decode_events] in H.
    destruct (decode_event c) as [e|] eqn:Ee; [|done]. destruct (decode_events cs) as [es'|]; [|done]. injection H as <-.
    destruct (IH Hbs es' eq_refl) as [<- Hes]. destruct (encode_decode_event c e Hb Hc Ee) as [<- He].
    split; [done|by constructor].
Qed.

Lemma concat_encode es : es ≫= encode_event = concat (encode_event <$> es).
Proof. induction es as [|e es IH]; [done|]. cbn. by rewrite <- IH. Qed.

Lemma len_encode_events es : len (es ≫= encode_event) = len es * 32.
Proof.
  induction es as [|e es IH]; [done|]. rewrite bind_cons, len_app, IH, len_cons. unfold len at 1. rewrite length_encode_event. lia.
Qed.

Lemma bytes_encode_events es : bytes (es ≫= encode_event).
Proof. induction es as [|e es IH]; [apply bytes_nil|]. rewrite bind_cons. apply bytes_app; [apply bytes_encode_event|done]. Qed.

Lemma decode_encode_batch b bs : batch_ok b -> encode_batch b = Ok bs -> decode_batch bs = Ok b.
Proof.
  intros [Hd He]. unfold encode_batch, decode_batch. pose proof (len_nonneg (events b)).
  destruct (Z.ltb_spec MAX_PAYLOAD (BATCH_PREFIX_SIZE + len (events b) * EVENT_SIZE)) as [|Hl]; [done|]. intros Hbs. apply Ok_inj in Hbs as <-.
  unfold MAX_PAYLOAD, BATCH_PREFIX_SIZE, EVENT_SIZE in *. rewrite wrap32_id by (apply in_u32_iff; lia).
  assert (0 <= len (events b) < 256 ^ Z.of_nat 4) by (change (256 ^ Z.of_nat 4) with 4294967296; lia).
  read_fields. cbn [Nat.sub]. rewrite !len_app, !len_le_bytes, len_encode_events.
  destruct (Z.ltb_spec (Z.of_nat 4 + (Z.of_nat 4 + len (events b) * 32)) 8); [lia|].
  destruct (Z.eqb_spec (Z.of_nat 4 + (Z.of_nat 4 + len (events b) * 32)) (8 + len (events b) * 32)); [|lia].
  destruct (Z.ltb_spec 65536 (Z.of_nat 4 + (Z.of_nat 4 + len (events b) * 32))); [lia|]. cbn [negb orb].
  unfold chunks. rewrite concat_encode, chunks_fuel_concat_eq; [|lia| |lia].
  2:{ apply Forall_fmap, Forall_forall. intros. apply length_encode_event. }
  rewrite decode_events_encode by done. by destruct b.
Qed.

Lemma encode_decode_batch b bs : bytes bs -> decode_batch bs = Ok b -> batch_ok b /\ encode_batch b = Ok bs.
Proof.
  intros Hb. unfold decode_batch, encode_batch, MAX_PAYLOAD, BATCH_PREFIX_SIZE, EVENT_SIZE.
  destruct (Z.ltb_spec (len bs) 8) as [|Hl]; [done|].
  destruct (Z.eqb_spec (len bs) (8 + le_field bs 0 4 * 32)) as [El|]; [|done].
  destruct (Z.ltb_spec 65536 (len bs)) as [|Hm]; [done|]. cbn [negb orb].
  destruct (decode_events (chunks 32 (drop 8 bs))) as [es|] eqn:Ed; [|done]. intros [= <-].
  assert (Hsz : length (drop 8 bs) = (Z.to_nat (le_field bs 0 4) * 32)%nat).
  { rewrite length_drop. pose proof (le_field_nonneg bs 0 4 Hb). unfold len in *. lia. }
  assert (Hcb : Forall bytes (chunks 32 (drop 8 bs))).
  { apply Forall_lookup. intros i c Hc. apply chunks_lookup in Hc as [-> _]; [|lia]. by apply bytes_take, bytes_drop, bytes_drop. }
  destruct (encode_events_decode _ es (chunks_exact_sizes 32 _ _ ltac:(lia) Hsz) Hcb Ed) as [Ee Hes].
  assert (Ec : es ≫= encode_event = drop 8 bs) by (rewrite concat_encode, Ee; apply chunks_concat; lia).
  assert (Ecount : len es = le_field bs 0 4).
  { pose proof (len_encode_events es) as H. rewrite Ec in H. unfold len in H at 1. rewrite Hsz in H.
    pose proof (le_field_nonneg bs 0 4 Hb). lia. }
  assert (Hlen : (8 <= length bs)%nat) by (unfold len in Hl; lia).
  cbn [events dropped]. split.
  - split; [|done]. cbn. apply (le_field_bound bs 4 8 4); done || lia.
  - rewrite Ecount, <- El. destruct (Z.ltb_spec 65536 (len bs)); [lia|]. f_equal.
    rewrite wrap32_id by (apply in_u32_iff; pose proof (le_field_nonneg bs 0 4 Hb); lia).
    rewrite Ec, (le_bytes_field bs 0 4 4), (le_bytes_field bs 4 8 4) by (done || lia). by rewrite !slice_drop, drop_0 by lia.
Qed.

Lemma kind_try_from_iff v k : kind_try_from v = Ok k <-> v = kind_u16 k.
Proof.
  unfold kind_try_from. split.
  - repeat case_match; intros [= <-]; cbn; reflect_bools; lia.
  - intros ->. by destruct k.
Qed.

Lemma header_exact h bs : bytes bs ->
  decode_header bs = Ok h <-> 0 <= payload_len h /\ encode_header (h_kind h) (payload_len h) = Ok bs.
Proof.
  intros Hb. unfold decode_header, encode_header, MAX_PAYLOAD. split.
  - destruct (Z.eqb_spec (len bs) 12) as [El|]; [|done]. destruct (bool_decide_reflect (take 4 bs = PIPE_MAGIC)) as [Em|]; [|done].
    destruct (Z.eqb_spec (le_field bs 4 6) VERSION) as [Ev|]; [|done].
    destruct (Z.ltb_spec 65536 (le_field bs 8 12)) as [|Hp]; [done|]. cbn [negb].
    destruct (kind_try_from (le_field bs 6 8)) as [k|] eqn:Ek; [|done]. intros [= <-]. apply kind_try_from_iff in Ek.
    cbn [h_kind payload_len]. pose proof (le_field_nonneg bs 8 12 Hb). split; [done|].
    destruct (Z.ltb_spec 65536 (le_field bs 8 12)); [lia|]. f_equal.
    assert (length bs = 12%nat) by (unfold len in El; lia).
    rewrite wrap32_id by (apply in_u32_iff; lia). rewrite <- Em, <- Ev, <- Ek.
    rewrite (le_bytes_field bs 4 6 2), (le_bytes_field bs 6 8 2), (le_bytes_field bs 8 12 4) by (done || lia).
    rewrite <- (app_nil_r (slice bs 8 12)), <- (drop_ge bs 12), !slice_drop by lia. apply take_drop.
  - intros [Hp He]. destruct (Z.ltb_spec 65536 (payload_len h)); [done|]. apply Ok_inj in He as <-.
    rewrite wrap32_id by (apply in_u32_iff; lia). rewrite !len_app, !len_le_bytes. change (len PIPE_MAGIC) with 4.
    assert (Hk : 0 <= kind_u16 (h_kind h) < 256 ^ Z.of_nat 2) by (destruct (h_kind h); done).
    assert (0 <= payload_len h < 256 ^ Z.of_nat 4) by (change (256 ^ Z.of_nat 4) with 4294967296; lia).
    rewrite <- (app_nil_r (le_bytes 4 (payload_len h))). change PIPE_MAGIC with (le_bytes 4 827019330).
    assert (0 <= VERSION < 256 ^ Z.of_nat 2) by done. read_fields.
    destruct (Z.ltb_spec 65536 (payload_len h)); [lia|]. rewrite (proj2 (kind_try_from_iff _ (h_kind h)) eq_refl). by destruct h.
Qed.

(** ** The capture state against its history *)

Inductive broker_op : Type :=
| Connect (client : Z)
| ArmOp (client n : Z)
| DisarmOp (client : Z)
| Disconnect (client : Z)
| FailClosed
| Observe (client : Z) (b : Batch).

Definition broker_step (s : CaptureState) (op : broker_op) : CaptureState * result unit ProtocolError :=
  match op with
  | Connect c => connect s c
  | ArmOp c n => arm s c n
  | DisarmOp c => disarm s c
  | Disconnect c => disconnect s c
  | FailClosed => (fail_closed s, Ok tt)
  | Observe c b => observe_batch s c b
  end.

(** Newest first. *)
Definition broker_history : Type := list (broker_op * result unit ProtocolError).

Fixpoint broker_run (s : CaptureState) (h : broker_history) (ops : list broker_op) : CaptureState * broker_history :=
  match ops with
  | [] => (s, h)
  | op :: ops => let '(s, r) := broker_step s op in broker_run s ((op, r) :: h) ops
  end.

Fixpoint owner_of (h : broker_history) : option Z :=
  match h with
  | [] => None
  | (Connect c, Ok _) :: _ => Some c
  | (Disconnect _, Ok _) :: _ => None
  | _ :: h => owner_of h
  end.

(** The nonce of the capture in force and the events taken under it. *)
Fixpoint session (h : broker_history) : option (Z * list Event) :=
  match h with
  | [] => None
  | (op, r) :: h =>
      match op, r with
      | ArmOp _ n, Ok _ => Some (n, [])
      | (Connect _ | DisarmOp _ | Disconnect _ | FailClosed), Ok _ => None
      | Observe _ b, Ok _ => (fun ne : Z * list Event => (ne.1, ne.2 ++ events b)) <$> session h
      | Observe _ _, Err (SequenceGap | NonceMismatch) => None
      | _, _ => session h
      end
  end.

(** The first event that does not continue [k] events taken under the nonce [n]. *)
Fixpoint first_fault (n k : Z) (es : list Event) : option ProtocolError :=
  match es with
  | [] => None
  | e :: es =>
      if negb (nonce e =? n) then Some NonceMismatch
      else if negb (sequence e =? wrap32 (k + 1)) then Some SequenceGap
      else first_fault n (k + 1) es
  end.

(** What a batch deserves after a history. *)
Definition batch_verdict (h : broker_history) (client : Z) (b : Batch) : result unit ProtocolError :=
  if negb (bool_decide (owner_of h = Some client)) then Err NotOwner
  else match session h with
    | None => Err NotArmed
    | Some (n, es) =>
        if negb (dropped b =? 0) then Err SequenceGap
        else from_option Err (Ok tt) (first_fault n (len es) (events b))
    end.

(** Events under one nonce, numbered from one without a gap. *)
Definition well_numbered (n : Z) (es : list Event) : Prop :=
  forall i e, es !! i = Some e -> nonce e = n /\ sequence e = wrap32 (Z.of_nat i + 1).

Definition last_of (k : Z) : option Z := if k =? 0 then None else Some (wrap32 k).

Lemma observe_events_spec s n k es :
  armed_nonce s = Some n -> last_sequence s = last_of k -> 0 <= k ->
  observe_events s es =
    match first_fault n k es with
    | None => (mkCapture (owner s) (armed s) (last_of (k + len es)) (Some n), Ok tt)
    | Some err => (fail_closed s, Err err)
    end.
Proof.
  revert s k. induction es as [|e es IH]; intros s k Hn Hl Hk; cbn [observe_events first_fault].
  - rewrite len_nil, Z.add_0_r, <- Hl, <- Hn. by destruct s.
  - rewrite Hn. destruct (Z.eqb_spec (nonce e) n) as [->|Hne]; cbn [negb].
    2:{ by rewrite bool_decide_false by congruence. }
    rewrite bool_decide_true by done. cbn [negb]. rewrite Hl.
    assert (Hseq : sequence e = wrap32 (k + 1) ->
      observe_events (mkCapture (owner s) (armed s) (Some (sequence e)) (Some n)) es =
      match first_fault n (k + 1) es with
      | None => (mkCapture (owner s) (armed s) (last_of (k + len (e :: es))) (Some n), Ok tt)
      | Some err => (fail_closed s, Err err)
      end).
    { intros Es. rewrite (IH _ (k + 1)); cbn; [|done| |lia].
      - by rewrite len_cons, Z.add_assoc.
      - unfold last_of. destruct (Z.eqb_spec (k + 1) 0); [lia|]. by rewrite Es. }
    destruct (Z.eqb_spec k 0) as [->|Hk0].
    + change (last_of 0) with (@None Z). rewrite bool_decide_true by done. cbn [andb from_option].
      change (wrap32 (0 + 1)) with 1 in *.
      destruct (Z.eqb_spec (sequence e) 1) as [E|]; cbn [negb]; [|done]. by apply Hseq.
    + assert (El : last_of k = Some (wrap32 k)) by (unfold last_of; by destruct (Z.eqb_spec k 0)).
      rewrite El, bool_decide_false by done. cbn [andb from_option]. rewrite wrap32_wrap_l.
      destruct (Z.eqb_spec (sequence e) (wrap32 (k + 1))) as [E|]; cbn [negb]; [|done]. by apply Hseq.
Qed.

Lemma first_fault_numbered n es es' :
  well_numbered n es -> first_fault n (len es) es' = None -> well_numbered n (es ++ es').
Proof.
  revert es. induction es' as [|e es' IH]; intros es H Hf; [by rewrite app_nil_r|]. cbn [first_fault] in Hf.
  destruct (Z.eqb_spec (nonce e) n) as [En|]; [|done]. destruct (Z.eqb_spec (sequence e) (wrap32 (len es + 1))) as [Es|]; [|done].
  cbn [negb] in Hf. change (e :: es') with ([e] ++ es'). rewrite app_assoc. apply IH; [|by rewrite len_snoc].
  intros i e' Hi. apply lookup_app_Some in Hi as [Hi|[Hge Hi]]; [by apply H|].
  apply list_lookup_singleton_Some in Hi as [Hi <-]. split; [done|]. rewrite Es. f_equal. unfold len. lia.
Qed.

Lemma first_fault_kind n k es e : first_fault n k es = Some e ->
  match e with SequenceGap | NonceMismatch => True | _ => False end.
Proof.
  revert k. induction es as [|x es IH]; intros k; cbn [first_fault]; [done|].
  destruct (negb (nonce x =? n)); [by intros [= <-]|]. destruct (negb (sequence x =? _)); [by intros [= <-]|]. apply IH.
Qed.

Record capture_inv (h : broker_history) (s : CaptureState) : Prop := {
  ci_owner : owner s = owner_of h;
  ci_session : match session h with
    | Some (n, es) => armed s = true /\ armed_nonce s = Some n /\ last_sequence s = last_of (len es) /\
                      well_numbered n es /\ is_Some (owner s)
    | None => armed s = false
    end
}.

Lemma observe_batch_spec h s c b : capture_inv h s ->
  (observe_batch s c b).2 = batch_verdict h c b /\ capture_inv ((Observe c b, batch_verdict h c b) :: h) (observe_batch s c b).1.
Proof.
  intros [Ho Hs]. unfold observe_batch, batch_verdict, require_owner. rewrite <- Ho.
  assert (Hsame : forall e, match e with NotOwner | NotArmed => True | _ => False end -> capture_inv ((Observe c b, Err e) :: h) s).
  { intros e He. by split; destruct e. }
  destruct (bool_decide_reflect (owner s = Some c)) as [Hc|]; cbn [negb]; [|by split; [|apply Hsame]].
  assert (Hclosed : forall e, match e with SequenceGap | NonceMismatch => True | _ => False end ->
    capture_inv ((Observe c b, Err e) :: h) (fail_closed s)).
  { intros e He. by split; destruct e. }
  destruct (session h) as [[n es]|] eqn:Es.
  - destruct Hs as (Ha & Hn & Hl & Hw & Hso). rewrite Ha. cbn [negb].
    destruct (negb (dropped b =? 0)); [by split; [|apply Hclosed]|].
    rewrite (observe_events_spec s n (len es)) by (done || apply len_nonneg).
    destruct (first_fault n (len es) (events b)) as [e|] eqn:Ef; cbn [fst snd from_option].
    + split; [done|]. apply Hclosed. by eapply first_fault_kind.
    + split; [done|]. split; cbn [owner owner_of]; [done|]. cbn [session]. rewrite Es. cbn [fmap option_fmap option_map fst snd armed armed_nonce last_sequence].
      split_and!; [done|done|by rewrite len_app|by apply first_fault_numbered|done].
  - rewrite Hs. by split; [|apply Hsame].
Qed.

Lemma broker_step_inv h s op : capture_inv h s ->
  capture_inv ((op, (broker_step s op).2) :: h) (broker_step s op).1.
Proof.
  intros H. pose proof H as [Ho Hs]. destruct op as [c|c n|c|c| |c b]; cbn [broker_step];
    unfold connect, arm, disarm, disconnect, require_owner.
  - destruct (owner s) eqn:E; split; cbn; rewrite ?E; done.
  - case_bool_decide as E; split; cbn; done.
  - case_bool_decide as E; by split; cbn.
  - case_bool_decide as E; by split; cbn.
  - by split.
  - destruct (observe_batch_spec h s c b H) as [-> Hi]. exact Hi.
Qed.

Lemma broker_run_inv s h ops : capture_inv h s -> let '(s', h') := broker_run s h ops in capture_inv h' s'.
Proof.
  revert s h. induction ops as [|op ops IH]; intros s h H; [done|]. cbn [broker_run].
  pose proof (broker_step_inv h s op H) as Hs. destruct (broker_step s op) as [s1 r]. by apply IH.
Qed.

(** ** The claims *)

(** The pipe's codecs are exact: a batch or a header is decoded from bytes
    exactly when its numbers fit their fields and it is encoded to those very bytes,
    so nothing that was not encoded is accepted, two encodings never collide, and
    nothing above the payload limit passes either way. *)
Theorem broker_codec_exact bs b h :
  bytes bs ->
  (decode_batch bs = Ok b <-> batch_ok b /\ encode_batch b = Ok bs) /\
  (decode_header bs = Ok h <-> 0 <= payload_len h /\ encode_header (h_kind h) (payload_len h) = Ok bs).
Proof.
  intros Hb. split; [|by apply header_exact]. split; [by apply encode_decode_batch|].
  intros [Hok He]. by apply (decode_encode_batch b bs).
Qed.

Lemma broker_codec_exact_witness :
  let b := mkBatch 0 [mkEvent 1 1 77 30 0 0 5] in
  exists bs, encode_batch b = Ok bs /\ len bs = 40 /\ decode_batch bs = Ok b.
Proof.
  intros b. eexists. split; [reflexivity|]. split; [reflexivity|].
  apply (broker_codec_exact _ b (mkHeader Arm 0)); [repeat constructor; done|].
  split; [|reflexivity]. split; [done|]. by repeat constructor.
Defined.

(** C24: Whatever the clients do, the broker's answer to a batch is what the history
    calls for: it is taken exactly from the owner, while a capture is armed, with
    nothing dropped and every event under the armed nonce and next in number; one
    bad event closes the capture. The owner is the last client connected and not
    disconnected, a capture is armed exactly while a session of the history is in
    force, and the events of that session all carry its nonce and are numbered from
    one without a gap, around the wrap of the counter. *)
Theorem broker_follows_history ops c b :
  let '(s, h) := broker_run capture_default [] ops in
  (observe_batch s c b).2 = batch_verdict h c b /\
  owner s = owner_of h /\ is_armed s = bool_decide (is_Some (session h)) /\
  match session h with Some (n, es) => well_numbered n es | None => True end.
Proof.
  pose proof (broker_run_inv capture_default [] ops ltac:(by split)) as H.
  destruct (broker_run _ [] ops) as [s h]. split; [by apply observe_batch_spec|].
  destruct H as [Ho Hs]. split; [done|]. unfold is_armed. destruct (session h) as [[n es]|].
  - destruct Hs as (Ha & _ & _ & Hw & Hso). rewrite Ha, bool_decide_true, bool_decide_true; done.
  - rewrite Hs, andb_false_r. by rewrite bool_decide_false by apply is_Some_None.
Qed.

Example broker_session :
  let e n i := mkEvent 1 i n 30 0 0 5 in
  let ops := [Connect 4; ArmOp 4 77; Observe 4 (mkBatch 0 [e 77 1; e 77 2]); Observe 5 (mkBatch 0 [e 77 3]);
              Observe 4 (mkBatch 0 [e 77 4])] in
  let '(s, h) := broker_run capture_default [] ops in
  h.*2 = [Err SequenceGap; Err NotOwner; Ok tt; Ok tt; Ok tt] /\ owner s = Some 4 /\ is_armed s = false.
Proof. by vm_compute. Qed.
