(* ===== verification/Resolution.v ===== *)
(** * The resolution ladder (transport-core/src/resolution.rs)

    The controller that steps down a rung at once when the bandwidth falls short
    and up after a streak, with a proof that under a steady bandwidth it settles. *)
From S2P Require Import Prelude.

Record ResolutionLadderConfig := mkLadder {
  rungs : list (Z * Z);
  min_kbps : list Z;
  initial_rung : Z;
  lower_headroom_pct : Z;
  raise_streak : Z
}.

Definition ladder_default : ResolutionLadderConfig :=
  mkLadder [(3840, 2160); (2560, 1440); (1920, 1080); (1600, 900); (1280, 720); (960, 540); (854, 480)]
    [35000; 20000; 10000; 7000; 5000; 3000; 2000] 2 10 8.

Definition sanitised (c : ResolutionLadderConfig) : ResolutionLadderConfig :=
  let n := Nat.min (length (rungs c)) (length (min_kbps c)) in
  let rs := take n (rungs c) in
  let ms := take n (min_kbps c) in
  let '(rs, ms) :=
    if bool_decide (rs = []) || bool_decide (ms = []) then (rungs ladder_default, min_kbps ladder_default) else (rs, ms) in
  let max_idx := sat_sub (len rs) 1 in
  mkLadder rs ms (Z.min (initial_rung c) max_idx) (Z.min (lower_headroom_pct c) 100) (raise_streak c).

Record DynResolutionController := mkController {
  config : ResolutionLadderConfig;
  current_rung : Z;
  good_streak : Z
}.

Definition controller_new (c : ResolutionLadderConfig) : DynResolutionController :=
  let c := sanitised c in mkController c (initial_rung c) 0.

(** An index out of range panics. *)
Definition current (r : DynResolutionController) : option (Z * Z) := rungs (config r) !! Z.to_nat (current_rung r).
Definition min_kbps_at (r : DynResolutionController) (rung : Z) : option Z := min_kbps (config r) !! Z.to_nat rung.

(** [current_min - current_min * pct / 100], [None] when it underflows. *)
Definition lower_bound_of (current_min pct : Z) : option Z :=
  let cut := wrap32 (current_min * pct / 100) in
  if current_min <? cut then None else Some (current_min - cut).

Definition set_rung (r : DynResolutionController) (rung streak : Z) : DynResolutionController :=
  mkController (config r) rung streak.

(** [observe] without the resolution it returns; [None] is a panic. *)
Definition observe (r : DynResolutionController) (available_kbps : Z) : option DynResolutionController :=
  current_min ← min_kbps_at r (current_rung r);
  lower_bound ← lower_bound_of current_min (lower_headroom_pct (config r));
  if available_kbps <? lower_bound
  then Some (set_rung r (Z.min (current_rung r + 1) (len (rungs (config r)) - 1)) 0)
  else if 0 <? current_rung r then
    higher_min ← min_kbps_at r (current_rung r - 1);
    if higher_min <=? available_kbps then
      let streak := sat_add u16_max (good_streak r) 1 in
      if raise_streak (config r) <=? streak then Some (set_rung r (current_rung r - 1) 0)
      else Some (set_rung r (current_rung r) streak)
    else Some (set_rung r (current_rung r) 0)
  else Some (set_rung r (current_rung r) 0).

(** The whole method. *)
Definition observe_current (r : DynResolutionController) (available_kbps : Z) :
    option (DynResolutionController * (Z * Z)) :=
  r' ← observe r available_kbps; res ← current r'; Some (r', res).

Fixpoint observe_all (r : DynResolutionController) (bs : list Z) : option DynResolutionController :=
  match bs with
  | [] => Some r
  | b :: bs => observe_current r b ≫= fun p => observe_all p.1 bs
  end.

(** ** The controller never panics *)

Record ladder_ok (c : ResolutionLadderConfig) : Prop := {
  lo_len : length (min_kbps c) = length (rungs c);
  lo_some : (0 < length (rungs c))%nat;
  lo_kbps : Forall in_u32 (min_kbps c);
  lo_pct : 0 <= lower_headroom_pct c <= 100;
  lo_raise : in_u16 (raise_streak c)
}.

Record controller_ok (r : DynResolutionController) : Prop := {
  co_ladder : ladder_ok (config r);
  co_rung : 0 <= current_rung r < len (rungs (config r));
  co_streak : 0 <= good_streak r
}.

(** The configuration as its types give it. *)
Definition ladder_typed (c : ResolutionLadderConfig) : Prop :=
  Forall in_u32 (min_kbps c) /\ 0 <= initial_rung c /\ in_u8 (lower_headroom_pct c) /\ in_u16 (raise_streak c).

Lemma ladder_sanitised_ok c : ladder_typed c -> ladder_ok (sanitised c) /\ 0 <= initial_rung (sanitised c) < len (rungs (sanitised c)).
Proof.
  intros (Hk & Hi & Hp & Hr). unfold sanitised. set (n := Nat.min _ _).
  assert (Hlen : length (take n (min_kbps c)) = length (take n (rungs c))) by (rewrite !length_take; lia).
  unfold in_u in Hp. destruct (_ || _) eqn:E.
  - split; [split; cbn; [done|lia|by repeat constructor|lia|done]|].
    cbn [initial_rung rungs]. change (sat_sub (len (rungs ladder_default)) 1) with 6. change (len (rungs ladder_default)) with 7. lia.
  - apply orb_false_elim in E as [E%bool_decide_eq_false_1 _].
    assert (0 < length (take n (rungs c)))%nat by (destruct (take n (rungs c)); [done|cbn; lia]).
    split; [split; cbn; [done|done|by apply Forall_take|lia|done]|]. cbn [initial_rung rungs]. unfold sat_sub, len. lia.
Qed.

Lemma controller_new_ok c : ladder_typed c -> controller_ok (controller_new c).
Proof. intros H. destruct (ladder_sanitised_ok c H) as [H1 H2]. split; cbn; [done|done|lia]. Qed.

(** The rung's need and the bound below which it is left. *)
Definition need (r : DynResolutionController) (rung : Z) : Z := default 0 (min_kbps_at r rung).
Definition floor_of (r : DynResolutionController) (rung : Z) : Z :=
  need r rung - need r rung * lower_headroom_pct (config r) / 100.

Lemma min_kbps_at_ok r rung : ladder_ok (config r) -> 0 <= rung < len (rungs (config r)) ->
  min_kbps_at r rung = Some (need r rung) /\ in_u32 (need r rung).
Proof.
  intros H Hr. unfold need, min_kbps_at. unfold len in Hr. rewrite <- (lo_len _ H) in Hr.
  destruct (lookup_lt_is_Some_2 (min_kbps (config r)) (Z.to_nat rung) ltac:(lia)) as [k Hk]. rewrite Hk. split; [done|].
  exact (Forall_lookup_1 _ _ _ _ (lo_kbps _ H) Hk).
Qed.

Lemma floor_spec r rung : ladder_ok (config r) -> 0 <= rung < len (rungs (config r)) ->
  lower_bound_of (need r rung) (lower_headroom_pct (config r)) = Some (floor_of r rung) /\
  0 <= floor_of r rung <= need r rung.
Proof.
  intros H Hr. destruct (min_kbps_at_ok r rung H Hr) as [_ Hk]. unfold in_u in Hk. pose proof (lo_pct _ H).
  unfold floor_of, lower_bound_of. set (k := need r rung) in *. set (p := lower_headroom_pct (config r)) in *.
  assert (0 <= k * p / 100 <= k) by (split; [apply Z.div_pos; nia|apply Z.div_le_upper_bound; nia]).
  rewrite wrap32_id by (apply in_u32_iff; lia). destruct (Z.ltb_spec k (k * p / 100)); [lia|]. split; [done|lia].
Qed.

(** What one observation does. *)
Inductive observed (r : DynResolutionController) (b : Z) : DynResolutionController -> Prop :=
| StepDown : b < floor_of r (current_rung r) ->
    observed r b (set_rung r (Z.min (current_rung r + 1) (len (rungs (config r)) - 1)) 0)
| Raise : floor_of r (current_rung r) <= b -> 0 < current_rung r -> need r (current_rung r - 1) <= b ->
    raise_streak (config r) <= good_streak r + 1 -> observed r b (set_rung r (current_rung r - 1) 0)
| Count : floor_of r (current_rung r) <= b -> 0 < current_rung r -> need r (current_rung r - 1) <= b ->
    good_streak r + 1 < raise_streak (config r) -> observed r b (set_rung r (current_rung r) (good_streak r + 1))
| Hold : floor_of r (current_rung r) <= b -> (current_rung r = 0 \/ b < need r (current_rung r - 1)) ->
    observed r b (set_rung r (current_rung r) 0).

Lemma ladder_observe_spec r b : controller_ok r -> exists r', observe r b = Some r' /\ observed r b r'.
Proof.
  intros [Hl Hr Hs]. unfold observe. destruct (min_kbps_at_ok r _ Hl Hr) as [-> _]. cbn [mbind option_bind].
  destruct (floor_spec r _ Hl Hr) as [-> _]. cbn [mbind option_bind].
  destruct (Z.ltb_spec b (floor_of r (current_rung r))); [eexists; split; [done|by apply StepDown]|].
  destruct (Z.ltb_spec 0 (current_rung r)); [|eexists; split; [done|apply Hold; [done|lia]]].
  destruct (min_kbps_at_ok r (current_rung r - 1) Hl ltac:(lia)) as [-> _]. cbn [mbind option_bind].
  destruct (Z.leb_spec (need r (current_rung r - 1)) b); [|eexists; split; [done|apply Hold; [done|by right]]].
  pose proof (lo_raise _ Hl) as Hu. unfold in_u in Hu. unfold sat_add, u16_max.
  destruct (Z.leb_spec (raise_streak (config r)) (Z.min 65535 (good_streak r + 1))) as [Hle|Hgt].
  - eexists. split; [done|]. apply Raise; try done. lia.
  - rewrite Z.min_r by lia. eexists. split; [done|]. apply Count; try done. lia.
Qed.

Lemma observed_ok r b r' : controller_ok r -> observed r b r' -> controller_ok r' /\ config r' = config r.
Proof. intros [Hl Hr Hs] []; (split; [split; cbn; [done|lia|lia]|done]). Qed.

Lemma current_some r : controller_ok r -> is_Some (current r).
Proof. intros [Hl Hr _]. apply lookup_lt_is_Some_2. unfold len in Hr. lia. Qed.

Lemma observe_current_spec r b : controller_ok r -> exists r' res, observe_current r b = Some (r', res) /\ observed r b r'.
Proof.
  intros H. destruct (ladder_observe_spec r b H) as (r' & E & Ho). destruct (observed_ok r b r' H Ho) as [H' _].
  destruct (current_some r' H') as [res Eres]. exists r', res. unfold observe_current. rewrite E. cbn [mbind option_bind].
  by rewrite Eres.
Qed.

Lemma observe_all_ok r bs : controller_ok r -> exists r', observe_all r bs = Some r' /\ controller_ok r' /\ config r' = config r.
Proof.
  revert r. induction bs as [|b bs IH]; intros r H; [by exists r|]. cbn [observe_all].
  destruct (observe_current_spec r b H) as (r1 & res & -> & Ho). destruct (observed_ok r b r1 H Ho) as [H1 E1].
  cbn [mbind option_bind fst]. destruct (IH r1 H1) as (r' & -> & H' & E'). exists r'. by rewrite E', E1.
Qed.

Lemma observe_all_app r bs bs' : observe_all r (bs ++ bs') = observe_all r bs ≫= fun r' => observe_all r' bs'.
Proof.
  revert r. induction bs as [|b bs IH]; intros r; [done|]. cbn [app observe_all]. destruct (observe_current r b) as [[r1 res]|]; [|done].
  apply IH.
Qed.

(** ** Under a steady bandwidth *)

(** Nothing left to do: as low as it goes, or held between two needs. *)
Definition settled (r : DynResolutionController) (b : Z) : Prop :=
  if b <? floor_of r (current_rung r) then current_rung r = len (rungs (config r)) - 1
  else current_rung r = 0 \/ b < need r (current_rung r - 1).

Definition streak_needed (r : DynResolutionController) : Z := Z.max 1 (raise_streak (config r)).

(** Observations left until it settles, at most. *)
Definition distance (r : DynResolutionController) (b : Z) : Z :=
  if b <? floor_of r (current_rung r) then len (rungs (config r)) - 1 - current_rung r
  else if (0 <? current_rung r) && (need r (current_rung r - 1) <=? b)
  then current_rung r * streak_needed r - Z.min (good_streak r) (streak_needed r - 1)
  else 0.

Lemma floor_le_need r rung : ladder_ok (config r) -> 0 <= rung < len (rungs (config r)) -> floor_of r rung <= need r rung.
Proof. intros H Hr. by apply floor_spec. Qed.

Lemma distance_bound r b : controller_ok r -> 0 <= distance r b <= len (rungs (config r)) * streak_needed r.
Proof.
  intros [Hl Hr Hs]. unfold distance, streak_needed. set (R := Z.max 1 (raise_streak (config r))).
  destruct (b <? _); [nia|]. destruct (Z.ltb_spec 0 (current_rung r)); cbn [andb]; [|nia].
  destruct (need r _ <=? b); [|nia]. assert (Z.min (good_streak r) (R - 1) <= R - 1 /\ 0 <= Z.min (good_streak r) (R - 1)) by lia. nia.
Qed.

Lemma distance_settled r b : controller_ok r -> distance r b = 0 <-> settled r b.
Proof.
  intros [Hl Hr Hs]. unfold distance, settled, streak_needed. set (R := Z.max 1 (raise_streak (config r))).
  destruct (b <? _); [lia|]. destruct (Z.ltb_spec 0 (current_rung r)); cbn [andb]; [|split; [lia|done]].
  destruct (Z.leb_spec (need r (current_rung r - 1)) b); [|split; [lia|done]].
  assert (Z.min (good_streak r) (R - 1) <= R - 1) by lia. nia.
Qed.

Lemma settled_set r b k s : settled (set_rung r k s) b =
  if b <? floor_of r k then k = len (rungs (config r)) - 1 else k = 0 \/ b < need r (k - 1).
Proof. done. Qed.

Lemma observed_settled r b r' : controller_ok r -> settled r b -> observed r b r' -> settled r' b /\ current_rung r' = current_rung r.
Proof.
  intros [Hl Hr Hs] Hset Ho. unfold settled in Hset. destruct Ho as [H|H1 H2 H3 H4|H1 H2 H3 H4|H1 H2].
  - destruct (Z.ltb_spec b (floor_of r (current_rung r))) as [_|]; [|lia]. rewrite settled_set.
    replace (Z.min (current_rung r + 1) (len (rungs (config r)) - 1)) with (current_rung r) by lia.
    split; [|done]. by destruct (Z.ltb_spec b (floor_of r (current_rung r))); [|lia].
  - destruct (Z.ltb_spec b (floor_of r (current_rung r))); lia.
  - destruct (Z.ltb_spec b (floor_of r (current_rung r))); lia.
  - split; [|done]. by rewrite settled_set.
Qed.

Lemma observed_closer r b r' : controller_ok r -> 0 < distance r b -> observed r b r' -> distance r' b < distance r b.
Proof.
  intros [Hl Hr Hs] Hd Ho. revert Hd. unfold distance at 1 3. set (R := streak_needed r). assert (HR : 1 <= R) by (unfold R, streak_needed; lia).
  destruct Ho as [H|H1 H2 H3 H4|H1 H2 H3 H4|H1 H2].
  - destruct (Z.ltb_spec b (floor_of r (current_rung r))); [|lia]. intros Hd. rewrite Z.min_l by lia.
    pose proof (floor_le_need r _ Hl Hr). unfold distance. cbn [current_rung set_rung config].
    change (floor_of (set_rung r ?k 0)) with (floor_of r). change (need (set_rung r ?k 0)) with (need r).
    destruct (b <? _); [lia|]. replace (current_rung r + 1 - 1) with (current_rung r) by lia.
    destruct (Z.leb_spec (need r (current_rung r)) b); [lia|]. rewrite andb_false_r. lia.
  - destruct (Z.ltb_spec b (floor_of r (current_rung r))); [lia|]. destruct (Z.ltb_spec 0 (current_rung r)); [|lia].
    destruct (Z.leb_spec (need r (current_rung r - 1)) b); [|lia]. cbn [andb]. intros Hd.
    pose proof (floor_le_need r (current_rung r - 1) Hl ltac:(lia)). unfold distance. cbn [current_rung set_rung config good_streak].
    change (floor_of (set_rung r ?k 0)) with (floor_of r). change (need (set_rung r ?k 0)) with (need r).
    change (streak_needed (set_rung r ?k 0)) with R.
    destruct (Z.ltb_spec b (floor_of r (current_rung r - 1))); [lia|].
    assert (Z.min (good_streak r) (R - 1) <= R - 1) by lia. destruct (_ && _); nia.
  - destruct (Z.ltb_spec b (floor_of r (current_rung r))); [lia|]. destruct (Z.ltb_spec 0 (current_rung r)); [|lia].
    destruct (Z.leb_spec (need r (current_rung r - 1)) b); [|lia]. cbn [andb]. intros Hd.
    unfold distance. cbn [current_rung set_rung config good_streak].
    change (floor_of (set_rung r ?k ?s)) with (floor_of r). change (need (set_rung r ?k ?s)) with (need r).
    change (streak_needed (set_rung r ?k ?s)) with R.
    destruct (Z.ltb_spec b (floor_of r (current_rung r))); [lia|]. destruct (Z.ltb_spec 0 (current_rung r)); [|lia].
    destruct (Z.leb_spec (need r (current_rung r - 1)) b); [|lia]. cbn [andb].
    assert (good_streak r + 1 <= R - 1) by (unfold R, streak_needed; lia). lia.
  - destruct (Z.ltb_spec b (floor_of r (current_rung r))); [lia|]. intros Hd. exfalso. revert Hd.
    destruct (Z.ltb_spec 0 (current_rung r)); cbn [andb]; [|lia]. destruct (Z.leb_spec (need r (current_rung r - 1)) b); lia.
Qed.

Lemma settled_stays r b n : controller_ok r -> settled r b ->
  exists r', observe_all r (replicate n b) = Some r' /\ settled r' b /\ current_rung r' = current_rung r.
Proof.
  revert r. induction n as [|n IH]; intros r Hok Hset; [by exists r|]. cbn [replicate observe_all].
  destruct (observe_current_spec r b Hok) as (r1 & res & -> & Ho). destruct (observed_ok r b r1 Hok Ho) as [H1 _].
  destruct (observed_settled r b r1 Hok Hset Ho) as [Hs1 E1]. cbn [mbind option_bind fst].
  destruct (IH r1 H1 Hs1) as (r' & -> & Hs' & E'). exists r'. by rewrite E', E1.
Qed.

Lemma settles r b n : controller_ok r -> distance r b <= Z.of_nat n ->
  exists r', observe_all r (replicate n b) = Some r' /\ settled r' b.
Proof.
  revert r. induction n as [|n IH]; intros r Hok Hd.
  - exists r. split; [done|]. apply distance_settled; [done|]. pose proof (distance_bound r b Hok). lia.
  - cbn [replicate observe_all]. destruct (observe_current_spec r b Hok) as (r1 & res & -> & Ho).
    destruct (observed_ok r b r1 Hok Ho) as [H1 _]. cbn [mbind option_bind fst]. apply IH; [done|].
    destruct (Z.eq_dec (distance r b) 0) as [E|E].
    + apply distance_settled in E; [|done]. destruct (observed_settled r b r1 Hok E Ho) as [Hs1 _].
      apply distance_settled in Hs1; [lia|done].
    + pose proof (distance_bound r b Hok). pose proof (observed_closer r b r1 Hok ltac:(lia) Ho). lia.
Qed.

(** C26: Whatever the configuration and whatever the bandwidth has been, no
    observation panics, and once the bandwidth stays the same the ladder settles:
    within as many observations as it has rungs times the streak it asks for it
    reaches a rung and stays there, the lowest one if even that falls short, and
    otherwise one the bandwidth carries with its headroom while the next higher one
    asks for more. *)
Theorem ladder_settles c bs b :
  ladder_typed c ->
  exists rung, forall n,
    len (rungs (sanitised c)) * Z.max 1 (raise_streak c) <= Z.of_nat n ->
    exists r, observe_all (controller_new c) (bs ++ replicate n b) = Some r /\
      0 <= current_rung r < len (rungs (sanitised c)) /\ current_rung r = rung /\ settled r b.
Proof.
  intros Hc. pose proof (controller_new_ok c Hc) as H0.
  destruct (observe_all_ok _ bs H0) as (r0 & E0 & Hok & Ecfg). cbn in Ecfg.
  set (N := Z.to_nat (len (rungs (sanitised c)) * Z.max 1 (raise_streak c))).
  assert (Hraise : raise_streak (sanitised c) = raise_streak c) by (unfold sanitised; by repeat case_match).
  assert (HN : distance r0 b <= Z.of_nat N).
  { pose proof (distance_bound r0 b Hok) as [H1 H2]. unfold streak_needed in H2. rewrite Ecfg, Hraise in H2. unfold N. lia. }
  destruct (settles r0 b N Hok HN) as (r1 & E1 & Hs1).
  destruct (observe_all_ok r0 (replicate N b) Hok) as (r1' & E1' & Hok1 & Ecfg1). rewrite E1 in E1'. injection E1' as <-.
  exists (current_rung r1). intros n Hn. replace n with (N + (n - N))%nat by lia.
  destruct (settled_stays r1 b (n - N) Hok1 Hs1) as (r & E & Hs & Er).
  assert (Eall : observe_all (controller_new c) (bs ++ replicate (N + (n - N)) b) = Some r).
  { rewrite observe_all_app, E0. cbn [mbind option_bind]. rewrite replicate_add, observe_all_app, E1. exact E. }
  exists r. split; [exact Eall|]. destruct (observe_all_ok _ (bs ++ replicate (N + (n - N)) b) H0) as (r' & E' & Hok' & Ecfg'). rewrite Eall in E'. injection E' as <-.
  split; [|done]. pose proof (co_rung _ Hok') as Hr. by rewrite Ecfg' in Hr.
Qed.

(** From 1080p with the default ladder, 6,000 kbps settle on 720p. *)
Lemma ladder_settles_witness :
  exists r, observe_all (controller_new ladder_default) (replicate 56 6000) = Some r /\ current r = Some (1280, 720).
Proof.
  destruct (ladder_settles ladder_default [] 6000) as [rung H]; [by repeat constructor|].
  destruct (H 56%nat) as (r & E & _); [by vm_compute|]. exists r. split; [exact E|].
  assert (Er : observe_all (controller_new ladder_default) (replicate 56 6000) = Some r) by exact E.
  vm_compute in Er. injection Er as <-. reflexivity.
Defined.
