(* ===== verification/PathSelect.v ===== *)
(** * The transport ladder (client-transport/src/path_select.rs)

    One path at a time down a fixed ladder, generations that isolate late results,
    and the history that says where the ladder stands. *)
From S2P Require Import Prelude.

Inductive TransportPath : Type := DirectUdp | TurnUdp | TurnTls443 | WebSocketTcp.
Inductive FallbackReason : Type := Timeout_ | IceFailed | Blocked | NetworkChange.

Definition LADDER : list TransportPath := [DirectUdp; TurnUdp; TurnTls443; WebSocketTcp].

Record PathSelector := mkSelector {
  index : Z;
  generation : Z;
  exhausted : bool;
  stable : bool;
  fallbacks : Z;
  last_fallback : option (TransportPath * FallbackReason)
}.

Definition selector_new : PathSelector := mkSelector 0 0 false false 0 None.

(** An index out of range would panic; [index_ok] excludes it. *)
Definition rung (i : Z) : TransportPath := default WebSocketTcp (LADDER !! Z.to_nat i).

Definition current (s : PathSelector) : option TransportPath :=
  if exhausted s then None else Some (rung (index s)).

Definition succeed (s : PathSelector) (g : Z) : PathSelector * bool :=
  if negb (g =? generation s) || exhausted s then (s, false)
  else (mkSelector (index s) (generation s) (exhausted s) true (fallbacks s) (last_fallback s), true).

Definition fallback (s : PathSelector) (g : Z) (reason : FallbackReason) : PathSelector * option TransportPath :=
  if negb (g =? generation s) || exhausted s then (s, current s)
  else
    let last := Some (rung (index s), reason) in
    if len LADDER <=? index s + 1
    then (mkSelector (index s) (generation s) true false (fallbacks s + 1) last, None)
    else (mkSelector (index s + 1) (generation s) (exhausted s) false (fallbacks s + 1) last, Some (rung (index s + 1))).

Definition on_network_change (s : PathSelector) : PathSelector :=
  mkSelector 0 (wrap32 (generation s + 1)) false false (fallbacks s) (Some (rung (index s), NetworkChange)).

(** ** Against the history *)

Inductive path_op : Type := Succeed (g : Z) | Fallback (g : Z) (reason : FallbackReason) | Roam.

Definition path_step (s : PathSelector) (op : path_op) : PathSelector :=
  match op with
  | Succeed g => (succeed s g).1
  | Fallback g r => (fallback s g r).1
  | Roam => on_network_change s
  end.

Definition path_run (ops : list path_op) : PathSelector := foldl path_step selector_new ops.

Definition is_roam (op : path_op) : bool := match op with Roam => true | _ => false end.

(** The generation after [n] changes of network. *)
Fixpoint generations (ops : list path_op) : Z :=
  match ops with [] => 0 | op :: ops => (if is_roam op then 1 else 0) + generations ops end.

(** The stamp of a result, the history [past] (oldest first) before it. *)
Definition stale (past : list path_op) (op : path_op) : bool :=
  match op with Succeed g | Fallback g _ => negb (g =? wrap32 (generations past)) | Roam => false end.

(** The operations that bear the generation they arrive in. *)
Fixpoint live (past ops : list path_op) : list path_op :=
  match ops with
  | [] => []
  | op :: ops => (if stale past op then [] else [op]) ++ live (past ++ [op]) ops
  end.

(** What has happened to the ladder since the last change of network. *)
Fixpoint since_roam (acc ops : list path_op) : list path_op :=
  match ops with [] => acc | Roam :: ops => since_roam [] ops | op :: ops => since_roam (acc ++ [op]) ops end.

Definition is_fallback (op : path_op) : bool := match op with Fallback _ _ => true | _ => false end.
Definition is_succeed (op : path_op) : bool := match op with Succeed _ => true | _ => false end.

(** How often a path has been given up. *)
Fixpoint failures (ops : list path_op) : Z :=
  match ops with [] => 0 | op :: ops => (if is_fallback op then 1 else 0) + failures ops end.

(** Established by the last result. *)
Definition ends_established (ops : list path_op) : bool := from_option is_succeed false (last ops).

Lemma generations_snoc ops op : generations (ops ++ [op]) = generations ops + (if is_roam op then 1 else 0).
Proof. induction ops as [|o ops IH]; cbn; [lia|rewrite IH; lia]. Qed.

Lemma failures_snoc ops op : failures (ops ++ [op]) = failures ops + (if is_fallback op then 1 else 0).
Proof. induction ops as [|o ops IH]; cbn; [lia|rewrite IH; lia]. Qed.

Lemma failures_nonneg ops : 0 <= failures ops.
Proof. induction ops as [|o ops IH]; cbn; [lia|]. destruct (is_fallback o); lia. Qed.

Lemma live_snoc past ops op : live past (ops ++ [op]) = live past ops ++ (if stale (past ++ ops) op then [] else [op]).
Proof.
  revert past. induction ops as [|o ops IH]; intros past; cbn [app live].
  - by rewrite !app_nil_r.
  - by rewrite IH, <- !app_assoc.
Qed.

Lemma since_roam_snoc acc ops op :
  since_roam acc (ops ++ [op]) = if is_roam op then [] else since_roam acc ops ++ [op].
Proof.
  revert acc. induction ops as [|o ops IH]; intros acc; cbn [app since_roam]; [by destruct op|].
  destruct o; apply IH.
Qed.

(** The results that counted since the last change of network. *)
Definition attempts (ops : list path_op) : list path_op := since_roam [] (live [] ops).

Lemma attempts_snoc ops op :
  attempts (ops ++ [op]) = if is_roam op then [] else if stale ops op then attempts ops else attempts ops ++ [op].
Proof.
  unfold attempts. rewrite live_snoc. cbn [app]. destruct (stale ops op) eqn:E.
  - rewrite app_nil_r. by destruct op.
  - rewrite since_roam_snoc. done.
Qed.

Record selector_inv (ops : list path_op) (s : PathSelector) : Prop := {
  se_generation : generation s = wrap32 (generations ops);
  se_index : index s = Z.min 3 (failures (attempts ops));
  se_exhausted : exhausted s = (4 <=? failures (attempts ops));
  se_stable : stable s = ends_established (attempts ops) && negb (exhausted s)
}.

Lemma stale_identity ops s op :
  generation s = wrap32 (generations ops) -> stale ops op = true -> path_step s op = s.
Proof.
  intros Hg Hs. destruct op as [g|g r|]; cbn [stale path_step] in *; [| |done];
    unfold succeed, fallback; rewrite Hg, Hs; done.
Qed.

Lemma ends_established_snoc ops op : ends_established (ops ++ [op]) = is_succeed op.
Proof. unfold ends_established. by rewrite last_snoc. Qed.

Lemma path_step_inv ops s op : selector_inv ops s -> selector_inv (ops ++ [op]) (path_step s op).
Proof.
  intros H. pose proof H as [Hg Hi He Hs]. pose proof (failures_nonneg (attempts ops)) as Hf.
  destruct (stale ops op) eqn:Est.
  { rewrite (stale_identity ops) by done.
    assert (is_roam op = false) by by destruct op. split; rewrite ?attempts_snoc, ?generations_snoc, ?Est.
    all: rewrite H0; try done. by rewrite Z.add_0_r. }
  destruct op as [g|g r|]; cbn [path_step].
  - cbn [stale] in Est. unfold succeed. rewrite Hg, Est. cbn [orb].
    destruct (exhausted s) eqn:Ex; cbn [fst]; split; rewrite ?attempts_snoc, ?generations_snoc; cbn [is_roam stale];
      rewrite ?Est, ?failures_snoc, ?ends_established_snoc; cbn [is_fallback is_succeed generation index exhausted stable];
      rewrite ?Z.add_0_r, ?Ex, ?Hs, ?andb_false_r; try done.
  - cbn [stale] in Est. unfold fallback. rewrite Hg, Est. cbn [orb]. change (len LADDER) with 4.
    destruct (exhausted s) eqn:Ex; [|destruct (Z.leb_spec 4 (index s + 1))]; cbn [fst];
      split; rewrite ?attempts_snoc, ?generations_snoc; cbn [is_roam stale];
      rewrite ?Est, ?failures_snoc, ?ends_established_snoc; cbn [is_fallback is_succeed generation index exhausted stable];
      rewrite ?Z.add_0_r, ?Ex, ?Hs, ?andb_false_r; try done; symmetry in He; reflect_bools; lia.
  - unfold on_network_change. split; rewrite ?attempts_snoc, ?generations_snoc; cbn; try done.
    by rewrite Hg, wrap32_wrap_l.
Qed.

Lemma path_run_snoc ops op : path_run (ops ++ [op]) = path_step (path_run ops) op.
Proof. unfold path_run. by rewrite foldl_app. Qed.

Lemma path_run_inv ops : selector_inv ops (path_run ops).
Proof.
  induction ops as [|op ops IH] using rev_ind; [by split|]. rewrite path_run_snoc. by apply path_step_inv.
Qed.

Lemma path_run_live ops : path_run (live [] ops) = path_run ops.
Proof.
  induction ops as [|op ops IH] using rev_ind; [done|]. rewrite live_snoc, path_run_snoc. cbn [app].
  destruct (stale ops op) eqn:E.
  - rewrite app_nil_r, IH. symmetry. apply (stale_identity ops); [apply path_run_inv|done].
  - by rewrite path_run_snoc, IH.
Qed.

(** A result that does not bear the generation it arrives in leaves no trace: the
    selector is where it would be had the result never come. Of the results that
    count, those since the last change of network decide everything: the path in use
    is the rung of the ladder under as many rungs as paths were given up, none after
    the fourth, and it is established exactly when the last of them was a success;
    the index stays on the ladder. *)
Theorem path_generation_isolated ops :
  let s := path_run ops in
  s = path_run (live [] ops) /\
  generation s = wrap32 (generations ops) /\
  current s = LADDER !! Z.to_nat (failures (attempts ops)) /\
  stable s = ends_established (attempts ops) && negb (exhausted s) /\
  0 <= index s < len LADDER.
Proof.
  intros s. split; [by rewrite path_run_live|]. destruct (path_run_inv ops) as [Hg Hi He Hs]. fold s in Hg, Hi, He, Hs.
  pose proof (failures_nonneg (attempts ops)). split; [done|]. split; [|split; [done|rewrite Hi; change (len LADDER) with 4; lia]].
  unfold current. rewrite He, Hi. destruct (Z.leb_spec 4 (failures (attempts ops))).
  - symmetry. apply lookup_ge_None. cbn. lia.
  - rewrite Z.min_r by lia. unfold rung. destruct (lookup_lt_is_Some_2 LADDER (Z.to_nat (failures (attempts ops))) ltac:(cbn; lia)) as [p ->]. done.
Qed.

Example late_failure : current (path_run [Fallback 0 Timeout_; Roam; Fallback 0 IceFailed; Succeed 1]) = Some DirectUdp.
Proof. reflexivity. Qed.
