(* ===== verification/Devices.v ===== *)
(** * Touch contacts and the microphone gate (common/src/pen_touch.rs, common/src/mic.rs)

    The contact tracker as a bounded map from contact to position, pen and display
    coordinates in range, and the microphone open only on what the history allows. *)
From S2P Require Import Prelude.

(** ** Contacts *)

Inductive TouchPhase : Type := Down | Move | Up | Cancel.
Inductive ContactOutcome : Type := Started | Updated | Ended | Rejected.

Definition MAX_CONTACTS : Z := 10.
Definition PEN_PRESSURE_MAX : Z := 1024.

Record Contact := mkContact { c_id : Z; c_x : Z; c_y : Z }.

Definition is_down (active : list Contact) (id : Z) : bool := existsb (fun c => c_id c =? id) active.

(** [iter_mut().find(..)]: the first contact with the id, moved. *)
Fixpoint move_first (id x y : Z) (active : list Contact) : option (list Contact) :=
  match active with
  | [] => None
  | c :: cs => if c_id c =? id then Some (mkContact id x y :: cs) else cons c <$> move_first id x y cs
  end.

(** [position] and [remove]. *)
Fixpoint remove_first (id : Z) (active : list Contact) : option (list Contact) :=
  match active with
  | [] => None
  | c :: cs => if c_id c =? id then Some cs else cons c <$> remove_first id cs
  end.

Definition apply_touch (active : list Contact) (id : Z) (phase : TouchPhase) (x y : Z) :
    list Contact * ContactOutcome :=
  match phase with
  | Down =>
      if is_down active id || (MAX_CONTACTS <=? len active) then (active, Rejected)
      else (active ++ [mkContact id x y], Started)
  | Move => match move_first id x y active with Some a => (a, Updated) | None => (active, Rejected) end
  | Up | Cancel => match remove_first id active with Some a => (a, Ended) | None => (active, Rejected) end
  end.

Definition cancel_all (active : list Contact) : list Contact * Z := ([], len active).

(** [i32::clamp] then the cast to eight bits, which keeps what is in range. *)
Definition clamp_tilt (t : Z) : Z := clamp t (-90) 90.

Definition normalize_pen (pressure tilt_x tilt_y : Z) : Z * Z * Z :=
  (Z.min pressure PEN_PRESSURE_MAX, clamp_tilt tilt_x, clamp_tilt tilt_y).

(** [as i32] of a 64-bit number. *)
Definition as_i32 (x : Z) : Z := let u := wrap32 x in if u <? 2147483648 then u else u - 4294967296.

Definition transform_contact (x y client_w client_h stream_w stream_h : Z) : option (Z * Z) :=
  if (client_w <=? 0) || (client_h <=? 0) then None
  else Some (as_i32 (Z.quot (x * stream_w) client_w), as_i32 (Z.quot (y * stream_h) client_h)).

(** *** The map it implements *)

Definition contact_map (active : list Contact) : gmap Z (Z * Z) := list_to_map ((fun c => (c_id c, (c_x c, c_y c))) <$> active).

Definition touch_spec (m : gmap Z (Z * Z)) (id : Z) (phase : TouchPhase) (x y : Z) : gmap Z (Z * Z) * ContactOutcome :=
  match phase, m !! id with
  | Down, None => if Z.of_nat (size m) <? MAX_CONTACTS then (<[id := (x, y)]> m, Started) else (m, Rejected)
  | Down, Some _ => (m, Rejected)
  | Move, Some _ => (<[id := (x, y)]> m, Updated)
  | (Up | Cancel), Some _ => (delete id m, Ended)
  | _, None => (m, Rejected)
  end.

Definition ids (active : list Contact) : list Z := c_id <$> active.

Record contacts_ok (active : list Contact) : Prop := {
  cs_distinct : NoDup (ids active);
  cs_bound : len active <= MAX_CONTACTS
}.

Lemma contact_map_cons c cs : contact_map (c :: cs) = <[c_id c := (c_x c, c_y c)]> (contact_map cs).
Proof. done. Qed.

Lemma contact_map_lookup active id : NoDup (ids active) -> is_Some (contact_map active !! id) <-> id ∈ ids active.
Proof.
  intros _. induction active as [|c cs IH]; [split; [by intros [? ?]|by intros ?%elem_of_nil]|].
  rewrite contact_map_cons. change (ids (c :: cs)) with (c_id c :: ids cs). rewrite elem_of_cons, <- IH.
  destruct (decide (c_id c = id)) as [->|Hne].
  - rewrite lookup_insert_eq. split; [by left|done].
  - rewrite lookup_insert_ne by done. split; [by right|by intros [->|]].
Qed.

Lemma size_contact_map active : NoDup (ids active) -> Z.of_nat (size (contact_map active)) = len active.
Proof.
  induction active as [|c cs IH]; [done|]. change (ids (c :: cs)) with (c_id c :: ids cs). intros [Hc Hn]%NoDup_cons.
  rewrite contact_map_cons, map_size_insert_None.
  - rewrite len_cons, <- IH by done. lia.
  - apply eq_None_not_Some. by rewrite contact_map_lookup.
Qed.

Lemma is_down_iff active id : is_down active id = true <-> id ∈ ids active.
Proof.
  unfold is_down, ids. rewrite existsb_exists, list_elem_of_fmap. split.
  - intros (c & Hin & E%Z.eqb_eq). exists c. split; [done|]. by apply list_elem_of_In.
  - intros (c & -> & Hin). exists c. split; [by apply list_elem_of_In|apply Z.eqb_refl].
Qed.

Lemma contact_map_snoc active c : NoDup (ids active) -> c_id c ∉ ids active ->
  contact_map (active ++ [c]) = <[c_id c := (c_x c, c_y c)]> (contact_map active).
Proof.
  intros Hn Hc. induction active as [|d ds IH]; [done|]. cbn [app]. rewrite !contact_map_cons.
  change (ids (d :: ds)) with (c_id d :: ids ds) in *. apply NoDup_cons in Hn as [Hd Hn]. apply not_elem_of_cons in Hc as [Hne Hc].
  rewrite IH by done. by rewrite insert_insert_ne.
Qed.

Lemma move_first_spec id x y active : NoDup (ids active) ->
  match move_first id x y active with
  | Some a => id ∈ ids active /\ ids a = ids active /\ contact_map a = <[id := (x, y)]> (contact_map active)
  | None => id ∉ ids active
  end.
Proof.
  induction active as [|c cs IH]; intros Hn; cbn [move_first]; [by intros ?%elem_of_nil|].
  change (ids (c :: cs)) with (c_id c :: ids cs) in *. apply NoDup_cons in Hn as [Hc Hn].
  destruct (Z.eqb_spec (c_id c) id) as [<-|Hne].
  - split; [by left|]. split; [done|]. rewrite !contact_map_cons. by rewrite insert_insert_eq.
  - specialize (IH Hn). destruct (move_first id x y cs) as [a|]; cbn [fmap option_fmap option_map].
    + destruct IH as (Hin & Ei & Em). split; [by right|]. change (ids (c :: a)) with (c_id c :: ids a). rewrite Ei.
      split; [done|]. rewrite !contact_map_cons, Em. by rewrite insert_insert_ne.
    + by rewrite not_elem_of_cons.
Qed.

Lemma remove_first_spec id active : NoDup (ids active) ->
  match remove_first id active with
  | Some a => id ∈ ids active /\ NoDup (ids a) /\ (forall i, i ∈ ids a -> i ∈ ids active) /\
              len active = len a + 1 /\ contact_map a = delete id (contact_map active)
  | None => id ∉ ids active
  end.
Proof.
  induction active as [|c cs IH]; intros Hn; cbn [remove_first]; [by intros ?%elem_of_nil|].
  change (ids (c :: cs)) with (c_id c :: ids cs) in *. apply NoDup_cons in Hn as [Hc Hn].
  destruct (Z.eqb_spec (c_id c) id) as [<-|Hne].
  - split; [by left|]. split; [done|]. split; [by right|]. split; [rewrite len_cons; lia|].
    rewrite contact_map_cons, delete_insert_id; [done|]. apply eq_None_not_Some. by rewrite contact_map_lookup.
  - specialize (IH Hn). destruct (remove_first id cs) as [a|]; cbn [fmap option_fmap option_map].
    + destruct IH as (Hin & Hna & Hsub & El & Em). change (ids (c :: a)) with (c_id c :: ids a).
      split; [by right|]. split; [constructor; [by intros ?%Hsub|done]|].
      split; [intros i [->|Hi]%elem_of_cons; [by left|right; by apply Hsub]|]. split; [rewrite !len_cons; lia|].
      rewrite !contact_map_cons, Em. by rewrite delete_insert_ne.
    + by rewrite not_elem_of_cons.
Qed.

Lemma apply_touch_refines active id phase x y : contacts_ok active ->
  let '(a, o) := apply_touch active id phase x y in
  contacts_ok a /\ touch_spec (contact_map active) id phase x y = (contact_map a, o).
Proof.
  intros [Hn Hb]. unfold apply_touch, touch_spec. pose proof (contact_map_lookup active id Hn) as Hl.
  destruct phase.
  - rewrite size_contact_map by done. destruct (is_down active id) eqn:Ed.
    + apply is_down_iff, Hl in Ed as [p ->]. by split.
    + assert (Hni : id ∉ ids active) by (intros Hin%is_down_iff; congruence).
      rewrite (proj2 (eq_None_not_Some (contact_map active !! id))) by (by rewrite Hl). cbn [orb].
      destruct (Z.leb_spec MAX_CONTACTS (len active)), (Z.ltb_spec (len active) MAX_CONTACTS); try lia; [done|].
      split; [split|].
      * unfold ids. rewrite fmap_app. apply NoDup_app. split; [done|]. split; [|apply NoDup_singleton].
        intros i Hi ->%list_elem_of_singleton. done.
      * rewrite len_snoc. lia.
      * by rewrite (contact_map_snoc active (mkContact id x y)).
  - pose proof (move_first_spec id x y active Hn) as Hm. destruct (move_first id x y active) as [a|] eqn:E.
    + destruct Hm as (Hin & Ei & Em). apply Hl in Hin as [p ->]. rewrite Em. split; [|done]. split; [by rewrite Ei|].
      replace (len a) with (len (ids a)) by (unfold ids, len; by rewrite length_fmap). rewrite Ei. unfold ids, len. by rewrite length_fmap.
    + rewrite (proj2 (eq_None_not_Some (contact_map active !! id))) by (by rewrite Hl). by split.
  - pose proof (remove_first_spec id active Hn) as Hm. destruct (remove_first id active) as [a|].
    + destruct Hm as (Hin & Hna & _ & El & Em). apply Hl in Hin as [p ->]. rewrite Em. split; [|done]. split; [done|lia].
    + rewrite (proj2 (eq_None_not_Some (contact_map active !! id))) by (by rewrite Hl). by split.
  - pose proof (remove_first_spec id active Hn) as Hm. destruct (remove_first id active) as [a|].
    + destruct Hm as (Hin & Hna & _ & El & Em). apply Hl in Hin as [p ->]. rewrite Em. split; [|done]. split; [done|lia].
    + rewrite (proj2 (eq_None_not_Some (contact_map active !! id))) by (by rewrite Hl). by split.
Qed.

Inductive touch_op : Type := Touch (id : Z) (phase : TouchPhase) (x y : Z) | CancelAll.

(** The tracker and the map, in step; the counts of contacts started and ended. *)
Definition touch_step (s : list Contact * (Z * Z)) (op : touch_op) : list Contact * (Z * Z) :=
  let '(active, (started, ended)) := s in
  match op with
  | Touch id phase x y =>
      let '(a, o) := apply_touch active id phase x y in
      (a, match o with Started => (started + 1, ended) | Ended => (started, ended + 1) | _ => (started, ended) end)
  | CancelAll => let '(a, n) := cancel_all active in (a, (started, ended + n))
  end.

Definition touch_run (ops : list touch_op) : list Contact * (Z * Z) := foldl touch_step ([], (0, 0)) ops.

Definition touch_abstract (m : gmap Z (Z * Z)) (op : touch_op) : gmap Z (Z * Z) :=
  match op with Touch id phase x y => (touch_spec m id phase x y).1 | CancelAll => ∅ end.

Lemma touch_count active id phase x y : contacts_ok active ->
  let '(a, o) := apply_touch active id phase x y in
  len a = len active + match o with Started => 1 | Ended => -1 | _ => 0 end.
Proof.
  intros [Hn _]. unfold apply_touch. destruct phase.
  - destruct (_ || _); [lia|]. rewrite len_snoc. lia.
  - pose proof (move_first_spec id x y active Hn) as Hm. destruct (move_first id x y active) as [a|]; [|lia].
    destruct Hm as (_ & Ei & _). apply (f_equal len) in Ei. unfold ids, len in *. rewrite !length_fmap in Ei. lia.
  - pose proof (remove_first_spec id active Hn) as Hm. destruct (remove_first id active) as [a|]; [|lia].
    destruct Hm as (_ & _ & _ & El & _). lia.
  - pose proof (remove_first_spec id active Hn) as Hm. destruct (remove_first id active) as [a|]; [|lia].
    destruct Hm as (_ & _ & _ & El & _). lia.
Qed.

Lemma touch_run_inv ops :
  let '(active, (started, ended)) := touch_run ops in
  contacts_ok active /\ contact_map active = foldl touch_abstract ∅ ops /\ started = ended + len active.
Proof.
  induction ops as [|op ops IH] using rev_ind.
  { change (contacts_ok [] /\ contact_map [] = ∅ /\ 0 = 0 + len (@nil Contact)). split; [|done]. split; [constructor|done]. }
  unfold touch_run in *. rewrite !foldl_app. cbn [foldl]. destruct (foldl touch_step _ ops) as [active [started ended]].
  destruct IH as (Hok & Em & Ec). rewrite <- Em. destruct op as [id phase x y|]; cbn [touch_step touch_abstract].
  - pose proof (apply_touch_refines active id phase x y Hok) as Hr. pose proof (touch_count active id phase x y Hok) as Hc.
    destruct (apply_touch active id phase x y) as [a o]. destruct Hr as [Hok' ->]. destruct o; (split; [done|]; split; [done|lia]).
  - split; [split; [constructor|done]|]. split; [done|]. change (len (@nil Contact)) with 0. lia.
Qed.

(** Whatever touch events arrive, the tracker is a map from contact to its last
    position: a contact is in it from the down that was taken until its up, its
    cancel or the cancel of all, events of other contacts are refused, never more
    than ten are held, no contact twice, and as many ended as started but for those
    still down. *)
Theorem contacts_follow_history ops id phase x y :
  let '(active, (started, ended)) := touch_run ops in
  contact_map active = foldl touch_abstract ∅ ops /\
  (apply_touch active id phase x y).2 = (touch_spec (contact_map active) id phase x y).2 /\
  (is_down active id = true <-> is_Some (contact_map active !! id)) /\
  NoDup (ids active) /\ len active <= MAX_CONTACTS /\ started = ended + len active.
Proof.
  pose proof (touch_run_inv ops) as H. destruct (touch_run ops) as [active [started ended]]. destruct H as (Hok & Em & Ec).
  pose proof (apply_touch_refines active id phase x y Hok) as Hr. destruct (apply_touch active id phase x y) as [a o].
  destruct Hr as [_ ->]. destruct Hok as [Hn Hb]. rewrite is_down_iff, contact_map_lookup by done. done.
Qed.

Lemma as_i32_id x : -2147483648 <= x < 2147483648 -> as_i32 x = x.
Proof.
  intros H. unfold as_i32, wrap32. destruct (Z.lt_ge_cases x 0).
  - replace (x mod 4294967296) with (x + 4294967296).
    2:{ rewrite <- (Z_mod_plus_full x 1), Z.mod_small; lia. }
    destruct (Z.ltb_spec (x + 4294967296) 2147483648); lia.
  - rewrite Z.mod_small by lia. destruct (Z.ltb_spec x 2147483648); lia.
Qed.

(** A point of the client's rectangle lands in the stream's, in the same order,
    corners on corners; a degenerate rectangle gives nothing. *)
Theorem transform_contact_inside x y x' client_w client_h stream_w stream_h :
  0 <= x <= client_w -> 0 <= x' <= x -> 0 <= y <= client_h ->
  0 <= stream_w < 2147483648 -> 0 <= stream_h < 2147483648 ->
  (transform_contact x y client_w client_h stream_w stream_h = None <-> client_w = 0 \/ client_h = 0) /\
  forall px py, transform_contact x y client_w client_h stream_w stream_h = Some (px, py) ->
    0 <= px <= stream_w /\ 0 <= py <= stream_h /\
    (x = client_w -> px = stream_w) /\ (y = 0 -> py = 0) /\
    exists px', transform_contact x' y client_w client_h stream_w stream_h = Some (px', py) /\ px' <= px.
Proof.
  intros Hx Hx' Hy Hsw Hsh. unfold transform_contact.
  assert (Hq : forall a w s, 0 <= a <= w -> 0 < w -> 0 <= s < 2147483648 ->
    as_i32 (Z.quot (a * s) w) = a * s / w /\ 0 <= a * s / w <= s).
  { intros a w s Ha Hw Hs. assert (0 <= a * s / w <= s) by (split; [apply Z.div_pos; nia|apply Z.div_le_upper_bound; nia]).
    rewrite Z.quot_div_nonneg by nia. split; [apply as_i32_id; lia|done]. }
  destruct (Z.leb_spec client_w 0), (Z.leb_spec client_h 0); cbn [orb]; [split; [split; [lia|done]|done]..|].
  split; [split; [done|lia]|]. intros px py [= <- <-].
  destruct (Hq x client_w stream_w Hx ltac:(lia) Hsw) as [-> ?]. destruct (Hq y client_h stream_h Hy ltac:(lia) Hsh) as [-> ?].
  destruct (Hq x' client_w stream_w ltac:(lia) ltac:(lia) Hsw) as [-> ?].
  split; [done|]. split; [done|]. split; [intros ->; rewrite Z.mul_comm; apply Z.div_mul; lia|].
  split; [by intros ->|]. eexists. split; [reflexivity|]. apply Z.div_le_mono; nia.
Qed.

(** ** The microphone gate *)

Inductive MicPermission : Type := Prompt | Granted | Denied.

Record MicrophoneGate := mkGate {
  permission : MicPermission; muted : bool; device : option Z; session_active : bool
}.

Definition gate_new : MicrophoneGate := mkGate Prompt false None false.

Definition can_capture (g : MicrophoneGate) : bool :=
  match permission g with Granted => true | _ => false end && negb (muted g) &&
  bool_decide (is_Some (device g)) && session_active g.

Definition set_permission (p : MicPermission) (g : MicrophoneGate) : MicrophoneGate :=
  mkGate p (muted g) (device g) (session_active g).
Definition mute (g : MicrophoneGate) : MicrophoneGate := mkGate (permission g) true (device g) (session_active g).
Definition unmute (g : MicrophoneGate) : MicrophoneGate := mkGate (permission g) false (device g) (session_active g).
Definition set_device (d : option Z) (g : MicrophoneGate) : MicrophoneGate :=
  mkGate (permission g) (muted g) d (session_active g).
Definition set_session_active (a : bool) (g : MicrophoneGate) : MicrophoneGate := mkGate (permission g) (muted g) (device g) a.
Definition mic_fail_closed (g : MicrophoneGate) : MicrophoneGate := mkGate (permission g) true (device g) (session_active g).
Definition on_reconnect (g : MicrophoneGate) : MicrophoneGate := mkGate (permission g) (muted g) None false.

Inductive mic_op : Type :=
| Permit (p : MicPermission) | Mute | Unmute | Device (d : option Z) | Active (a : bool) | MicFail | Reconnect.

Definition mic_step (g : MicrophoneGate) (op : mic_op) : MicrophoneGate :=
  match op with
  | Permit p => set_permission p g | Mute => mute g | Unmute => unmute g | Device d => set_device d g
  | Active a => set_session_active a g | MicFail => mic_fail_closed g | Reconnect => on_reconnect g
  end.

Definition mic_run (ops : list mic_op) : MicrophoneGate := foldl mic_step gate_new ops.

(** The latest of the events [opens] or [closes] speak of was one that opens. *)
Definition opened (opens closes : mic_op -> bool) (ops : list mic_op) : Prop :=
  exists past op later, ops = past ++ op :: later /\ opens op = true /\ Forall (fun o => closes o = false) later.

Definition grants (op : mic_op) : bool := match op with Permit Granted => true | _ => false end.
Definition withdraws (op : mic_op) : bool := match op with Permit (Prompt | Denied) => true | _ => false end.
Definition attaches (op : mic_op) : bool := match op with Device (Some _) => true | _ => false end.
Definition detaches (op : mic_op) : bool := match op with Device None | Reconnect => true | _ => false end.
Definition starts (op : mic_op) : bool := match op with Active true => true | _ => false end.
Definition stops (op : mic_op) : bool := match op with Active false | Reconnect => true | _ => false end.
Definition silences (op : mic_op) : bool := match op with Mute | MicFail => true | _ => false end.
Definition unmutes (op : mic_op) : bool := match op with Unmute => true | _ => false end.

Lemma opened_snoc opens closes ops op : (forall o, opens o = true -> closes o = false) ->
  opened opens closes (ops ++ [op]) <-> opens op = true \/ (closes op = false /\ opened opens closes ops).
Proof.
  intros Hdis. split.
  - intros (past & o & later & E & Ho & Hl). destruct later as [|x later _] using rev_ind.
    + apply app_inj_tail in E as [-> ->]. by left.
    + rewrite app_comm_cons, app_assoc in E. apply app_inj_tail in E as [-> ->]. apply Forall_app in Hl as [Hl Hx].
      right. split; [by inversion Hx|]. by exists past, o, later.
  - intros [Ho|[Hc (past & o & later & -> & Ho & Hl)]].
    + exists ops, op, []. by repeat split.
    + exists past, o, (later ++ [op]). rewrite <- app_assoc. split; [done|]. split; [done|]. apply Forall_app. by repeat constructor.
Qed.

Lemma opened_nil opens closes : ~ opened opens closes [].
Proof. intros (past & o & later & E & _). by destruct past. Qed.

Lemma mic_run_snoc ops op : mic_run (ops ++ [op]) = mic_step (mic_run ops) op.
Proof. unfold mic_run. by rewrite foldl_app. Qed.

(** Each field of the gate against the history. *)
Lemma mic_field (P : MicrophoneGate -> bool) opens closes :
  (forall o, opens o = true -> closes o = false) -> P gate_new = false ->
  (forall g op, P (mic_step g op) = opens op || (negb (closes op) && P g)) ->
  forall ops, P (mic_run ops) = true <-> opened opens closes ops.
Proof.
  intros Hdis H0 Hstep ops. induction ops as [|op ops IH] using rev_ind.
  - change (mic_run []) with gate_new. rewrite H0. split; [done|]. by intros ?%opened_nil.
  - rewrite mic_run_snoc, Hstep, opened_snoc, orb_true_iff, andb_true_iff, negb_true_iff, IH by done. done.
Qed.

Lemma mic_muted ops : muted (mic_run ops) = true <-> opened silences unmutes ops.
Proof.
  apply (mic_field muted); [by intros []|done|]. by intros g []; cbn; rewrite ?andb_true_r.
Qed.

(** Audio may leave the client exactly when the last word on permission was that
    it is granted, a device was attached and the session started with no detach,
    stop or reconnect since, and no mute or failure stands that was not explicitly
    unmuted: in particular a mute, a failure, a denial or a reconnect closes the
    gate at once, and only their own opposites open it again. *)
Theorem mic_gate_history ops :
  can_capture (mic_run ops) = true <->
  opened grants withdraws ops /\ opened attaches detaches ops /\ opened starts stops ops /\ ~ opened silences unmutes ops.
Proof.
  rewrite <- (mic_field (fun g => match permission g with Granted => true | _ => false end) grants withdraws),
    <- (mic_field (fun g => bool_decide (is_Some (device g))) attaches detaches),
    <- (mic_field session_active starts stops), <- mic_muted.
  - unfold can_capture. rewrite !andb_true_iff, negb_true_iff, not_true_iff_false. tauto.
  - intros []; cbn; by repeat case_match.
  - done.
  - intros g []; cbn; rewrite ?orb_false_l; by repeat case_match.
  - intros []; cbn; by repeat case_match.
  - by apply bool_decide_false, is_Some_None.
  - intros g []; cbn; try done. by destruct d.
  - intros []; cbn; by repeat case_match.
  - done.
  - intros g []; cbn; by repeat case_match.
Qed.
