(* ===== verification/Float64.v ===== *)
(** * Double-precision numbers (the standard library's [f64])

    The operations the bitrate controllers use, on the kernel's specification of
    IEEE 754 arithmetic: 53 bits of precision, round to nearest, ties to even. *)
From Stdlib Require Export SpecFloat.
From S2P Require Import Prelude.

Notation f64 := spec_float.

(** [as f64] of an integer. *)
Definition of_int (z : Z) : f64 := binary_normalize 53 1024 z 0 false.

Definition fmul (a b : f64) : f64 := SFmul 53 1024 a b.
Definition fdiv (a b : f64) : f64 := SFdiv 53 1024 a b.
Definition fsub (a b : f64) : f64 := SFsub 53 1024 a b.
Definition flt (a b : f64) : bool := SFltb a b.
Definition fle (a b : f64) : bool := SFleb a b.

(** A decimal literal [n / d]: the nearest double. *)
Definition decimal (n d : Z) : f64 := fdiv (of_int n) (of_int d).

Definition is_nan (a : f64) : bool := match a with S754_nan => true | _ => false end.
Definition is_finite (a : f64) : bool := match a with S754_zero _ | S754_finite _ _ _ => true | _ => false end.

(** [f64::min]: the other one when one is not a number. *)
Definition fmin (a b : f64) : f64 := if is_nan a then b else if is_nan b then a else if flt b a then b else a.

(** [f64::clamp]. *)
Definition fclamp (x lo hi : f64) : f64 := if flt x lo then lo else if flt hi x then hi else x.

(** [as u32]: towards zero, saturating, zero of what is not a number. *)
Definition as_u32 (a : f64) : Z :=
  match a with
  | S754_finite false m e => Z.min u32_max (Z.shiftl (Zpos m) e)
  | S754_infinity false => u32_max
  | _ => 0
  end.

Example literals : (decimal 85 100, as_u32 (fmul (of_int 35000) (decimal 85 100)), as_u32 (fdiv (of_int (-1)) (of_int 0))) =
  (S754_finite false 7656119366529843 (-53), 29750, 0).
Proof. vm_compute. reflexivity. Qed.

Lemma as_u32_range a : 0 <= as_u32 a <= u32_max.
Proof.
  unfold u32_max. destruct a as [| [] | |[] m e]; cbn; unfold u32_max; try lia.
  pose proof (proj2 (Z.shiftl_nonneg (Zpos m) e) ltac:(lia)). lia.
Qed.
