(* ===== verification/Float64Safe.v ===== *)
(** * What double-precision operations compute

    The value of a double as a rational, and how far a product, a difference and a
    conversion of the kernel's specification are from the exact ones. *)
From Stdlib Require Import QArith Qpower Qround Lqa.
From S2P Require Import Prelude Float64.

#[local] Open Scope Z_scope.

(** ** Powers of two *)

Definition pow2 (e : Z) : Q := Qpower 2 e.

Lemma pow2_pos e : (0 < pow2 e)%Q.
Proof. apply Qpower_0_lt. reflexivity. Qed.

Lemma pow2_add a b : (pow2 (a + b) == pow2 a * pow2 b)%Q.
Proof. apply Qpower_plus. discriminate. Qed.

Lemma pow2_Z n : 0 <= n -> (pow2 n == inject_Z (2 ^ n))%Q.
Proof. intros H. unfold pow2. by rewrite Zpower_Qpower. Qed.

Lemma pow2_ge1 n : 0 <= n -> (1 <= pow2 n)%Q.
Proof. intros H. rewrite pow2_Z by done. change 1%Q with (inject_Z 1). rewrite <- Zle_Qle. pose proof (Z.pow_pos_nonneg 2 n). lia. Qed.

Lemma pow2_le a b : a <= b -> (pow2 a <= pow2 b)%Q.
Proof.
  intros H. replace b with (a + (b - a)) by lia. rewrite pow2_add. pose proof (pow2_pos a). pose proof (pow2_ge1 (b - a) ltac:(lia)). nra.
Qed.

(** The number [m] times two to the [e], and the value of a double; one that is not finite has none and counts as zero. *)
Definition scaled (m e : Z) : Q := (inject_Z m * pow2 e)%Q.
Definition value (a : f64) : Q := match a with S754_finite s m e => scaled (cond_Zopp s (Zpos m)) e | _ => 0%Q end.

Lemma scaled_shift m e n : 0 <= n -> (scaled (m * 2 ^ n) (e - n) == scaled m e)%Q.
Proof.
  intros H. unfold scaled. rewrite inject_Z_mult, <- pow2_Z by done.
  replace e with (n + (e - n)) at 2 by lia. rewrite pow2_add. ring.
Qed.

Lemma scaled_le m k e : m <= k -> (scaled m e <= scaled k e)%Q.
Proof. intros H. unfold scaled. apply Qmult_le_compat_r; [by rewrite <- Zle_Qle|]. apply Qlt_le_weak, pow2_pos. Qed.

Lemma scaled_nonneg m e : 0 <= m -> (0 <= scaled m e)%Q.
Proof. intros H. apply (scaled_le 0 m e) in H. assert (scaled 0 e == 0)%Q by (unfold scaled; ring). lra. Qed.

(** ** Digits *)

Lemma digits2_spec p : 2 ^ (Zpos (digits2_pos p) - 1) <= Zpos p < 2 ^ Zpos (digits2_pos p).
Proof.
  induction p as [p IH|p IH|]; cbn [digits2_pos]; [| |done]; rewrite ?Pos2Z.inj_succ.
  all: replace (Z.succ _ - 1) with (Zpos (digits2_pos p) - 1 + 1) by lia; rewrite Z.pow_succ_r by lia.
  all: rewrite Z.pow_add_r by lia; change (2 ^ 1) with 2; lia.
Qed.

(** ** Rounding *)

(** The bound on what one shift can change: half an ulp is less, and so are the bits below the smallest exponent. *)
Definition slack (v : Q) : Q := (v * pow2 (-52) + pow2 (-1074))%Q.

Lemma iter_shr_m p : forall r, 0 <= shr_m r -> shr_m (iter_pos shr_1 p r) = shr_m r / 2 ^ Zpos p.
Proof.
  assert (H1 : forall r, 0 <= shr_m r -> shr_m (shr_1 r) = shr_m r / 2).
  { intros [[|[q|q|]|q] rr rs] H; cbn [shr_1 shr_m] in *; [done| | |done|lia].
    - change (Zpos (q~1)) with (2 * Zpos q + 1). apply (Z.div_unique _ 2 _ 1); lia.
    - change (Zpos (q~0)) with (2 * Zpos q). apply (Z.div_unique _ 2 _ 0); lia. }
  induction p as [p IH|p IH|]; intros r H; cbn [iter_pos].
  - assert (H0 : 0 <= shr_m (shr_1 r)) by (rewrite H1 by done; by apply Z.div_pos).
    assert (H2 : 0 <= shr_m (iter_pos shr_1 p (shr_1 r))) by (rewrite IH by done; by apply Z.div_pos; [|apply Z.pow_pos_nonneg]).
    rewrite IH, IH, H1 by done. rewrite !Z.div_div by (try apply Z.pow_pos_nonneg; lia). f_equal.
    replace (Zpos p~1) with (1 + (Zpos p + Zpos p)) by lia. rewrite !Z.pow_add_r by lia. lia.
  - assert (H2 : 0 <= shr_m (iter_pos shr_1 p r)) by (rewrite IH by done; by apply Z.div_pos; [|apply Z.pow_pos_nonneg]).
    rewrite IH, IH by done. rewrite Z.div_div by (try apply Z.pow_pos_nonneg; lia). f_equal.
    replace (Zpos p~0) with (Zpos p + Zpos p) by lia. by rewrite Z.pow_add_r by lia.
  - by apply H1.
Qed.

Lemma slack_nonneg v : (0 <= v -> 0 <= slack v)%Q.
Proof. intros H. unfold slack. pose proof (pow2_pos (-52)). pose proof (pow2_pos (-1074)). nra. Qed.

Lemma ulp_slack m e : 0 < m -> (pow2 (fexp 53 1024 (Zdigits2 m + e)) <= slack (scaled m e))%Q.
Proof.
  intros Hm. destruct m as [|p|p]; [lia| |lia]. unfold slack, fexp, emin. cbn [Zdigits2].
  pose proof (pow2_pos (-1074)). pose proof (scaled_nonneg (Zpos p) e ltac:(lia)). pose proof (pow2_pos (-52)).
  destruct (Z.max_spec (Zpos (digits2_pos p) + e - 53) (3 - 1024 - 53)) as [[_ ->]|[_ ->]].
  - change (3 - 1024 - 53) with (-1074). nra.
  - replace (Zpos (digits2_pos p) + e - 53) with (Zpos (digits2_pos p) - 1 + e + -52) by lia. rewrite !pow2_add.
    pose proof (digits2_spec p) as [Hd _]. rewrite (pow2_Z (Zpos (digits2_pos p) - 1)) by lia.
    rewrite Zle_Qle in Hd. unfold scaled. pose proof (pow2_pos e).
    assert (inject_Z (2 ^ (Z.pos (digits2_pos p) - 1)) * pow2 e <= inject_Z (Z.pos p) * pow2 e)%Q
      by (apply Qmult_le_compat_r; [done|by apply Qlt_le_weak]). nra.
Qed.

Lemma shift_close m e : 0 < m ->
  let '(r, e') := shr_fexp 53 1024 m e loc_Exact in
  0 <= shr_m r /\
  forall x, x = shr_m r \/ (x = shr_m r + 1 /\ loc_of_shr_record r <> loc_Exact) ->
    (scaled m e - slack (scaled m e) <= scaled x e' <= scaled m e + slack (scaled m e))%Q.
Proof.
  intros Hm. pose proof (ulp_slack m e Hm) as Hu. pose proof (slack_nonneg _ (scaled_nonneg m e ltac:(lia))) as Hs.
  unfold shr_fexp. revert Hu. generalize (fexp 53 1024 (Zdigits2 m + e)). intros f Hu.
  assert (Hid : forall x, x = m \/ (x = m + 1 /\ loc_Exact <> loc_Exact) ->
    (scaled m e - slack (scaled m e) <= scaled x e <= scaled m e + slack (scaled m e))%Q).
  { intros x [->|[_ []]]; [|done]. split; lra. }
  unfold shr. destruct (f - e) as [|p|p] eqn:Ef; [split; [cbn; lia|done]| |split; [cbn; lia|done]].
  set (r := iter_pos shr_1 p _). assert (Er : shr_m r = m / 2 ^ Zpos p) by (unfold r; rewrite iter_shr_m; [done|cbn; lia]).
  assert (Hp : 0 < 2 ^ Zpos p) by (apply Z.pow_pos_nonneg; lia).
  split; [rewrite Er; apply Z.div_pos; lia|]. intros x Hx.
  assert (Hq : (scaled x (e + Zpos p) == scaled (x * 2 ^ Zpos p) e)%Q).
  { rewrite <- (scaled_shift x (e + Zpos p) (Zpos p)) by lia. by replace (e + Zpos p - Zpos p) with e by lia. }
  pose proof (Z.div_mod m (2 ^ Zpos p) ltac:(lia)) as Hdm. pose proof (Z.mod_pos_bound m (2 ^ Zpos p) Hp) as Hmod.
  assert (Hx1 : m - 2 ^ Zpos p <= x * 2 ^ Zpos p) by (destruct Hx as [-> |[-> _]]; rewrite Er; lia).
  assert (Hx2 : x * 2 ^ Zpos p <= m + 2 ^ Zpos p) by (destruct Hx as [-> |[-> _]]; rewrite Er; lia).
  apply (scaled_le _ _ e) in Hx1, Hx2. rewrite Hq. clear Hq.
  assert (Hsp : (scaled (2 ^ Zpos p) e == pow2 f)%Q).
  { unfold scaled. rewrite <- pow2_Z, <- pow2_add by lia. by replace (Zpos p + e) with f by lia. }
  unfold scaled in *. rewrite inject_Z_plus in Hx2. unfold Z.sub in Hx1. rewrite inject_Z_plus, inject_Z_opp in Hx1.
  split; lra.
Qed.

Lemma round_even_cases m l : round_nearest_even m l = m \/ (round_nearest_even m l = m + 1 /\ l <> loc_Exact).
Proof. destruct l as [|[| |]]; cbn; auto. destruct (Z.even m); auto. Qed.

(** Close to an exact number, up to a rounding or two. *)
Definition near (v r : Q) : Prop := (v - (v * pow2 (-50) + pow2 (-1070)) <= r <= v + (v * pow2 (-50) + pow2 (-1070)))%Q.

(** Two shifts in a row. *)
Lemma slack_twice v x r : (0 <= v -> v - slack v <= x <= v + slack v -> x - slack x <= r <= x + slack x -> near v r)%Q.
Proof.
  unfold near, slack. intros Hv [H1 H2] [H3 H4].
  assert (E1 : (pow2 (-50) == 4 * pow2 (-52))%Q) by reflexivity.
  assert (E2 : (pow2 (-1070) == 16 * pow2 (-1074))%Q) by (change (-1070) with (4 + -1074); by rewrite pow2_add).
  assert (E3 : (pow2 (-52) <= 1)%Q) by discriminate. rewrite E1, E2. clear E1 E2.
  pose proof (pow2_pos (-52)) as Ha. pose proof (pow2_pos (-1074)) as Hb.
  generalize dependent (pow2 (-52)). intros a. generalize dependent (pow2 (-1074)). intros b. intros.
  assert (Hw : (0 <= v * a)%Q) by nra.
  assert (Hx : (x * a <= v * a + v * a + b)%Q) by nra.
  split; lra.
Qed.

(** A rounding to double precision of a number of moderate size is finite and close. *)
Lemma round_close m e : 0 < m -> (scaled m e <= pow2 64)%Q ->
  let r := binary_round_aux 53 1024 false m e loc_Exact in
  is_finite r = true /\ (0 <= value r)%Q /\ near (scaled m e) (value r).
Proof.
  intros Hm Hmax. unfold binary_round_aux. pose proof (shift_close m e Hm) as H1.
  destruct (shr_fexp 53 1024 m e loc_Exact) as [r1 e1]. destruct H1 as [Hr1 H1].
  set (x := round_nearest_even _ _). specialize (H1 x (round_even_cases _ _)).
  assert (Hx : 0 <= x) by (destruct (round_even_cases (shr_m r1) (loc_of_shr_record r1)) as [E|[E _]]; unfold x; lia).
  clearbody x. clear Hr1 r1. pose proof (scaled_nonneg m e ltac:(lia)) as H0. pose proof (scaled_nonneg x e1 Hx) as Hx0.
  assert (H2 : let '(r2, e2) := shr_fexp 53 1024 x e1 loc_Exact in
    0 <= shr_m r2 /\ (scaled x e1 - slack (scaled x e1) <= scaled (shr_m r2) e2 <= scaled x e1 + slack (scaled x e1))%Q).
  { destruct (Z.eq_dec x 0) as [->|].
    - unfold shr_fexp, shr. destruct (_ - e1) as [|p|p]; [|rewrite iter_shr_m by (cbn; lia)|];
        cbn [shr_m shr_record_of_loc]; rewrite ?Zdiv_0_l; (split; [lia|]); pose proof (slack_nonneg _ Hx0).
      all: assert (Hz : forall f, (scaled 0 f == 0)%Q) by (intros; unfold scaled; ring); pose proof (Hz e1).
      all: match goal with |- (_ <= scaled 0 ?f <= _)%Q => pose proof (Hz f); split; lra end.
    - pose proof (shift_close x e1 ltac:(lia)) as H2. destruct (shr_fexp 53 1024 x e1 loc_Exact) as [r2 e2].
      destruct H2 as [Hr2 H2]. split; [done|]. apply H2. by left. }
  destruct (shr_fexp 53 1024 x e1 loc_Exact) as [r2 e2]. destruct H2 as [Hr2 H2].
  pose proof (slack_twice _ _ _ H0 H1 H2) as Hn. destruct (shr_m r2) as [|p|p] eqn:Ep; [|clear Hr2|lia].
  - assert (Hz : (scaled 0 e2 == 0)%Q) by (unfold scaled; ring). split; [done|]. split; [done|]. unfold near in *. cbn [value]. split; lra.
  - pose proof (scaled_nonneg (Zpos p) e2 ltac:(lia)). destruct (Z.leb_spec e2 (1024 - 53)) as [He|He]; [by split|].
    exfalso. destruct Hn as [_ Hn].
    assert (Hbig : (pow2 972 <= scaled (Zpos p) e2)%Q).
    { pose proof (pow2_le 972 e2 ltac:(lia)). assert (scaled 1 e2 == pow2 e2)%Q by (unfold scaled; ring).
      pose proof (scaled_le 1 (Zpos p) e2 ltac:(lia)). lra. }
    assert (Hsmall : (scaled m e * pow2 (-50) <= scaled m e)%Q) by (assert (pow2 (-50) <= 1)%Q by discriminate; nra).
    assert (E1 : (pow2 (-1070) <= 1)%Q) by (apply (pow2_le (-1070) 0); lia).
    assert (E2 : (2 * pow2 64 + 1 < pow2 972)%Q) by reflexivity. lra.
Qed.

(** ** Operations *)

Lemma shl_align_scaled m e f : (scaled (Zpos (shl_align m e f).1) (shl_align m e f).2 == scaled (Zpos m) e)%Q.
Proof.
  unfold shl_align. destruct (f - e) as [|d|d] eqn:E; [reflexivity..|]. cbn [fst snd].
  change (Pos.iter xO m d) with (shift_pos d m). rewrite shift_pos_correct, Z.mul_comm.
  change (Z.pow_pos 2 d) with (2 ^ Zpos d). replace f with (e - Zpos d) by lia. apply scaled_shift. lia.
Qed.

#[export] Instance near_proper : Proper (Qeq ==> Qeq ==> iff) near.
Proof. intros v v' Hv r r' Hr. unfold near. by rewrite Hv, Hr. Qed.

Lemma near_zero : near 0 0.
Proof. unfold near. pose proof (pow2_pos (-1070)). split; lra. Qed.

(** A double that is the rounding of a number. *)
Definition rounded (v : Q) (a : f64) : Prop := is_finite a = true /\ (0 <= value a)%Q /\ near v (value a).

#[export] Instance rounded_proper : Proper (Qeq ==> eq ==> iff) rounded.
Proof. intros v v' Hv a _ <-. unfold rounded. by rewrite Hv. Qed.

Lemma normalize_rounded m e : 0 <= m -> (scaled m e <= pow2 64)%Q -> rounded (scaled m e) (binary_normalize 53 1024 m e false).
Proof.
  intros Hm Hmax. destruct m as [|p|p]; [| |lia]; cbn [binary_normalize].
  - assert (E : (scaled 0 e == 0)%Q) by (unfold scaled; ring). rewrite E. split; [done|]. split; [done|]. apply near_zero.
  - unfold binary_round. pose proof (shl_align_scaled p e (fexp 53 1024 (Zpos (digits2_pos p) + e))) as E.
    destruct (shl_align p e _) as [mz ez]. cbn [fst snd] in E. rewrite <- E in *. apply round_close; [lia|done].
Qed.

Lemma of_int_rounded z : 0 <= z <= u32_max -> rounded (inject_Z z) (of_int z).
Proof.
  intros Hz. assert (E : (inject_Z z == scaled z 0)%Q) by (unfold scaled; change (pow2 0) with 1%Q; ring).
  rewrite E. apply normalize_rounded; [lia|]. rewrite <- E. apply (Qle_trans _ (inject_Z u32_max)); [rewrite <- Zle_Qle; lia|discriminate].
Qed.

(** A finite double that is not negative. *)
Lemma nonneg_cases a : is_finite a = true -> (0 <= value a)%Q ->
  (exists s, a = S754_zero s) \/ exists m e, a = S754_finite false m e.
Proof.
  destruct a as [s| | |s m e]; intros Hf Hv; try done; [by left; exists s|right; exists m, e].
  destruct s; [|done]. exfalso. cbn [value cond_Zopp] in Hv.
  assert (E : (scaled (- Zpos m) e == - scaled (Zpos m) e)%Q) by (unfold scaled; rewrite inject_Z_opp; ring).
  rewrite E in Hv. pose proof (scaled_le 1 (Zpos m) e ltac:(lia)). pose proof (pow2_pos e).
  assert (E1 : (scaled 1 e == pow2 e)%Q) by (unfold scaled; ring). lra.
Qed.

Lemma fmul_rounded a b : is_finite a = true -> is_finite b = true -> (0 <= value a)%Q -> (0 <= value b)%Q ->
  (value a * value b <= pow2 64)%Q -> rounded (value a * value b) (fmul a b).
Proof.
  intros Ha Hb Va Vb Hmax.
  destruct (nonneg_cases a Ha Va) as [[s ->]|(m & e & ->)], (nonneg_cases b Hb Vb) as [[s' ->]|(m' & e' & ->)].
  1-3: split; [done|]; (split; [done|]); cbn [value]; match goal with |- near ?v _ => assert (E : (v == 0)%Q) by ring; rewrite E end; apply near_zero.
  cbn [value cond_Zopp] in *.
  assert (E : (scaled (Zpos m) e * scaled (Zpos m') e' == scaled (Zpos (m * m')) (e + e'))%Q)
    by (unfold scaled; rewrite Pos2Z.inj_mul, inject_Z_mult, pow2_add; ring).
  rewrite E in *. by apply round_close.
Qed.

Lemma near_self v : (0 <= v)%Q -> near v v.
Proof. intros H. unfold near. pose proof (pow2_pos (-1070)). pose proof (pow2_pos (-50)). split; nra. Qed.

Lemma shl_align_exp m e f : f <= e -> (shl_align m e f).2 = f.
Proof. intros H. unfold shl_align. destruct (f - e) eqn:E; [cbn; lia|lia|done]. Qed.

Lemma fsub_rounded a b : is_finite a = true -> is_finite b = true -> (0 <= value b)%Q -> (value b <= value a)%Q ->
  (value a <= pow2 64)%Q -> rounded (value a - value b) (fsub a b).
Proof.
  intros Ha Hb Vb Vab Hmax.
  destruct (nonneg_cases a Ha ltac:(lra)) as [[s ->]|(m & e & ->)], (nonneg_cases b Hb Vb) as [[s' ->]|(m' & e' & ->)].
  - assert (E : (value (S754_zero s) - value (S754_zero s') == 0)%Q) by reflexivity. rewrite E.
    destruct s, s'; (split; [done|]); (split; [done|]); apply near_zero.
  - exfalso. cbn [value cond_Zopp] in Vab. pose proof (scaled_le 1 (Zpos m') e' ltac:(lia)). pose proof (pow2_pos e').
    assert (E1 : (scaled 1 e' == pow2 e')%Q) by (unfold scaled; ring). lra.
  - assert (E : (value (S754_finite false m e) - value (S754_zero s') == value (S754_finite false m e))%Q) by (cbn [value]; ring).
    rewrite E. split; [done|]. cbn [value] in Vab. split; [done|]. by apply near_self.
  - unfold fsub. cbn [SFsub value cond_Zopp] in *. set (f := Z.min e e').
    pose proof (shl_align_scaled m e f) as E1. pose proof (shl_align_scaled m' e' f) as E2.
    rewrite shl_align_exp in E1, E2 by lia. set (x := Zpos (shl_align m e f).1) in *. set (y := Zpos (shl_align m' e' f).1) in *.
    assert (E : (scaled (Zpos m) e - scaled (Zpos m') e' == scaled (x - y) f)%Q).
    { rewrite <- E1, <- E2. unfold scaled, Z.sub. rewrite inject_Z_plus, inject_Z_opp. ring. }
    rewrite E. apply normalize_rounded; [|rewrite <- E; lra].
    destruct (Z.le_gt_cases y x); [lia|]. exfalso. pose proof (scaled_le (x + 1) y f ltac:(lia)) as H1.
    assert (E3 : (scaled (x + 1) f == scaled x f + pow2 f)%Q) by (unfold scaled; rewrite inject_Z_plus; ring).
    pose proof (pow2_pos f). lra.
Qed.

(** [as u32] rounds down and saturates. *)
Lemma as_u32_floor a : is_finite a = true -> (0 <= value a)%Q ->
  (inject_Z (as_u32 a) <= value a)%Q /\ ((value a < inject_Z (as_u32 a) + 1)%Q \/ as_u32 a = u32_max).
Proof.
  intros Hf Hv. destruct (nonneg_cases a Hf Hv) as [[s ->]|(m & e & ->)]; [by split; [|left]|].
  cbn [as_u32 value cond_Zopp] in *. clear Hf Hv.
  assert (H : (inject_Z (Z.shiftl (Zpos m) e) <= scaled (Zpos m) e)%Q /\ (scaled (Zpos m) e < inject_Z (Z.shiftl (Zpos m) e) + 1)%Q).
  { destruct (Z.le_gt_cases 0 e) as [He|He].
    - rewrite Z.shiftl_mul_pow2 by done. unfold scaled. rewrite inject_Z_mult, pow2_Z by done. split; lra.
    - rewrite Z.shiftl_div_pow2 by lia. set (d := 2 ^ (- e)). assert (Hd : 0 < d) by (apply Z.pow_pos_nonneg; lia).
      pose proof (Z.div_mod (Zpos m) d ltac:(lia)) as Hdm. pose proof (Z.mod_pos_bound (Zpos m) d Hd) as Hmod.
      assert (Hs : forall z, (inject_Z z == scaled (z * d) e)%Q).
      { intros z. pose proof (scaled_shift z 0 (- e) ltac:(lia)) as E. replace (0 - - e) with e in E by lia.
        fold d in E. rewrite E. unfold scaled. change (pow2 0) with 1%Q. ring. }
      split; [rewrite Hs; apply scaled_le; lia|].
      change 1%Q with (inject_Z 1). rewrite <- inject_Z_plus, Hs. unfold scaled. apply Qmult_lt_compat_r; [apply pow2_pos|].
      rewrite <- Zlt_Qlt. lia. }
  destruct H as [H1 H2]. destruct (Z.min_spec u32_max (Z.shiftl (Zpos m) e)) as [[Hlt ->]|[_ ->]]; [|by split; [|left]].
  split; [|by right]. rewrite Zlt_Qlt in Hlt. lra.
Qed.

(** [q] is [v] rounded down, up to a hair. *)
Definition floor_of (v : Q) (q : Z) : Prop := (inject_Z q <= v + (1 # 1024))%Q /\ (v - (1 # 1024) < inject_Z q + 1)%Q.

Lemma Qmul_between (x l y h : Q) : (0 <= l -> - l <= x <= l -> 0 <= y <= h -> - (l * h) <= x * y <= l * h)%Q.
Proof. intros Hl Hx Hy. split; nra. Qed.

(** A 32-bit number times a factor of at most one, in double precision, and back. *)
Lemma product_floor z a v : 0 <= z <= u32_max -> is_finite a = true -> (0 <= value a)%Q ->
  (- (1 # 500000000000000) <= value a - v <= 1 # 500000000000000)%Q -> (0 <= v <= 1)%Q ->
  floor_of (inject_Z z * v) (as_u32 (fmul (of_int z) a)).
Proof.
  intros Hz Hf Ha Hg Hv. destruct (of_int_rounded z Hz) as (Hzf & Hz0 & Hzn).
  assert (Hzq : (0 <= inject_Z z <= 4294967295 # 1)%Q).
  { change 0%Q with (inject_Z 0). change (4294967295 # 1)%Q with (inject_Z u32_max). rewrite <- !Zle_Qle. lia. }
  assert (E1 : (pow2 (-1070) <= 1 # 1125899906842624)%Q) by (change (1 # 1125899906842624)%Q with (pow2 (-50)); apply pow2_le; lia).
  pose proof (pow2_pos (-1070)) as E0.
  assert (Hd : (- (1 # 100000) <= value (of_int z) - inject_Z z <= 1 # 100000)%Q).
  { unfold near in Hzn. change (pow2 (-50)) with (1 # 1125899906842624)%Q in Hzn. split; lra. }
  pose proof (Qmul_between _ (1 # 500000000000000) _ _ ltac:(done) Hg Hzq) as P1.
  pose proof (Qmul_between _ (1 # 100000) (value a) 2 ltac:(done) Hd ltac:(split; lra)) as P2.
  assert (E : (value (of_int z) * value a == inject_Z z * v + (value a - v) * inject_Z z + (value (of_int z) - inject_Z z) * value a)%Q) by ring.
  set (p := (value (of_int z) * value a)%Q) in *.
  assert (Hp : (inject_Z z * v - (1 # 30000) <= p <= inject_Z z * v + (1 # 30000))%Q) by (split; lra).
  pose proof (Qmul_between v 1 (inject_Z z) _ ltac:(done) ltac:(split; lra) Hzq) as P3.
  assert (Hzv : (0 <= inject_Z z * v <= inject_Z z)%Q) by (split; nra).
  assert (Hpmax : (p <= pow2 64)%Q) by (change (pow2 64) with (18446744073709551616 # 1)%Q; lra).
  destruct (fmul_rounded (of_int z) a Hzf Hf Hz0 Ha Hpmax) as (Rf & R0 & Rn). fold p in Rn.
  assert (Hr : (p - (1 # 200000) <= value (fmul (of_int z) a) <= p + (1 # 200000))%Q).
  { unfold near in Rn. change (pow2 (-50)) with (1 # 1125899906842624)%Q in Rn. split; lra. }
  destruct (as_u32_floor _ Rf R0) as [F1 F2]. unfold floor_of. split; [lra|]. destruct F2 as [F2| ->]; [lra|].
  change (inject_Z u32_max) with (4294967295 # 1)%Q. lra.
Qed.

Lemma floor_of_le v q z : floor_of v q -> (v <= inject_Z z)%Q -> q <= z.
Proof.
  intros [H _] Hv. destruct (Z.le_gt_cases q z); [done|]. exfalso.
  assert (H1 : z + 1 <= q) by lia. rewrite Zle_Qle, inject_Z_plus in H1. change (inject_Z 1) with 1%Q in H1. lra.
Qed.

(** ** Comparison *)

(** A double as the hardware has them: its mantissa is canonical. *)
Definition valid (a : f64) : Prop := valid_binary 53 1024 a = true.

Lemma canonical_lt m e m' e' : bounded 53 1024 m e = true -> bounded 53 1024 m' e' = true -> e < e' ->
  (scaled (Zpos m) e < scaled (Zpos m') e')%Q.
Proof.
  unfold bounded, canonical_mantissa, fexp, emin. intros [H1%Z.eqb_eq _]%andb_true_iff [H2%Z.eqb_eq _]%andb_true_iff He.
  assert (D1 : Zpos (digits2_pos m) <= 53) by lia. assert (D2 : Zpos (digits2_pos m') = 53) by lia.
  pose proof (digits2_spec m) as [_ B1]. pose proof (digits2_spec m') as [B2 _]. rewrite D2 in B2.
  assert (B3 : Zpos m < 2 ^ 53) by (apply (Z.lt_le_trans _ _ _ B1), Z.pow_le_mono_r; lia).
  apply (Qlt_le_trans _ (scaled (2 ^ 52) e')); [|by apply scaled_le].
  rewrite <- (scaled_shift (2 ^ 52) e' (e' - e)) by lia. replace (e' - (e' - e)) with e by lia.
  unfold scaled. apply Qmult_lt_compat_r; [apply pow2_pos|]. rewrite <- Zlt_Qlt. rewrite <- Z.pow_add_r by lia.
  apply (Z.lt_le_trans _ _ _ B3), Z.pow_le_mono_r; lia.
Qed.

Lemma scaled_compare m m' e : (scaled m e ?= scaled m' e)%Q = (m ?= m').
Proof.
  unfold scaled. destruct (Z.compare_spec m m') as [->|H|H].
  - by apply Qeq_alt.
  - apply Qlt_alt. apply Qmult_lt_compat_r; [apply pow2_pos|by rewrite <- Zlt_Qlt].
  - apply Qgt_alt. apply Qmult_lt_compat_r; [apply pow2_pos|by rewrite <- Zlt_Qlt].
Qed.

Lemma SFcompare_value a b : valid a -> valid b -> is_finite a = true -> is_finite b = true ->
  (0 <= value a)%Q -> (0 <= value b)%Q -> SFcompare a b = Some (value a ?= value b)%Q.
Proof.
  intros Va Vb Ha Hb Na Nb.
  assert (Hpos : forall m e, (0 < scaled (Zpos m) e)%Q) by (intros m e; unfold scaled; apply Qmult_lt_0_compat; [done|apply pow2_pos]).
  destruct (nonneg_cases a Ha Na) as [[s ->]|(m & e & ->)], (nonneg_cases b Hb Nb) as [[s' ->]|(m' & e' & ->)]; cbn [SFcompare value cond_Zopp].
  - done.
  - f_equal. symmetry. apply Qlt_alt, Hpos.
  - f_equal. symmetry. apply Qgt_alt, Hpos.
  - f_equal. destruct (Z.compare_spec e e') as [->|H|H].
    + rewrite scaled_compare. reflexivity.
    + symmetry. apply Qlt_alt. by apply canonical_lt.
    + symmetry. apply Qgt_alt. by apply canonical_lt.
Qed.

Lemma flt_value a b : valid a -> valid b -> is_finite a = true -> is_finite b = true ->
  (0 <= value a)%Q -> (0 <= value b)%Q -> flt a b = true <-> (value a < value b)%Q.
Proof. intros. unfold flt, SFltb. rewrite SFcompare_value by done. rewrite Qlt_alt. by destruct (_ ?= _)%Q. Qed.

Lemma fle_value a b : valid a -> valid b -> is_finite a = true -> is_finite b = true ->
  (0 <= value a)%Q -> (0 <= value b)%Q -> fle a b = true <-> (value a <= value b)%Q.
Proof.
  intros. unfold fle, SFleb. rewrite SFcompare_value by done. rewrite Qle_alt. by destruct (_ ?= _)%Q.
Qed.

(** A positive double is greater than zero. *)
Lemma flt_zero a : is_finite a = true -> flt (of_int 0) a = true -> (0 < value a)%Q.
Proof.
  destruct a as [| | |[] m e]; try done. intros _ _. cbn [value cond_Zopp]. unfold scaled.
  apply Qmult_lt_0_compat; [done|apply pow2_pos].
Qed.

Lemma finite_not_nan a : is_finite a = true -> is_nan a = false.
Proof. by destruct a. Qed.

Lemma flt_zero_fle a : flt (of_int 0) a = true -> fle a (of_int 0) = false.
Proof. by destruct a as [|[]| |[]]. Qed.

(** Against one. *)
Lemma flt_one h : valid h -> is_finite h = true -> (0 < value h)%Q -> flt (of_int 1) h = true <-> (1 < value h)%Q.
Proof.
  intros Hv Hf Hp. assert (E1 : (value (of_int 1) == 1)%Q) by done. rewrite <- E1. apply flt_value; try done. lra.
Qed.
