(* ===== verification/Cc.v ===== *)
(** * The frame-delay congestion controller (streamer/src/cc.rs)

    Service times, their window and moving average, the two inflation triggers, the
    counters and the cooldown. *)
From S2P Require Import Prelude Float64.

Record CcConfig := mkCcConfig {
  min_kbps : Z;
  max_kbps : Z;
  window_frames : Z;
  ema_alpha_inv : Z;
  inflate_ratio : f64;
  deflate_ratio : f64;
  inflate_frames : Z;
  deflate_frames : Z;
  md_factor : f64;
  probe_additive_kbps : Z;
  cooldown_frames : Z;
  loss_threshold : f64;
  budget_factor : f64
}.

Definition from_ceiling (max_kbps : Z) : CcConfig :=
  let max_kbps := Z.max max_kbps 1 in
  mkCcConfig (Z.min (Z.max (max_kbps / 10) 500) max_kbps) max_kbps 60 8 (decimal 125 100) (decimal 90 100) 8 16
    (decimal 85 100) (Z.max (max_kbps / 40) 100) 30 (decimal 10 100) (of_int 1).

Definition sanitised (c : CcConfig) : CcConfig :=
  let max_kbps := Z.max (max_kbps c) 1 in
  let min_kbps := clamp (min_kbps c) 1 max_kbps in
  let md := if is_finite (md_factor c) && flt (of_int 0) (md_factor c) then fmin (md_factor c) (of_int 1) else decimal 85 100 in
  let inflate := if is_finite (inflate_ratio c) && flt (of_int 1) (inflate_ratio c) then inflate_ratio c else decimal 125 100 in
  let deflate :=
    if is_finite (deflate_ratio c) && flt (of_int 0) (deflate_ratio c) && flt (deflate_ratio c) (of_int 1)
    then deflate_ratio c else decimal 90 100 in
  let loss :=
    if is_finite (loss_threshold c) && flt (of_int 0) (loss_threshold c) && fle (loss_threshold c) (of_int 1)
    then loss_threshold c else decimal 10 100 in
  let budget :=
    if is_finite (budget_factor c) && flt (of_int 0) (budget_factor c)
    then fmin (budget_factor c) (of_int 1000000) else of_int 1 in
  mkCcConfig min_kbps max_kbps (clamp (window_frames c) 1 10000) (Z.max (ema_alpha_inv c) 1) inflate deflate
    (Z.max (inflate_frames c) 1) (Z.max (deflate_frames c) 1) md (Z.max (probe_additive_kbps c) 1)
    (clamp (cooldown_frames c) 1 10000) loss budget.

Inductive CcVerdict : Type := Skipped | WarmingUp | Hold | Decrease | Increase | CooldownHold.

#[export] Instance CcVerdict_eq_dec : EqDecision CcVerdict.
Proof. solve_decision. Defined.

Record CcController := mkCc {
  config : CcConfig;
  cc_target_kbps : Z;
  window : list Z;
  baseline_us : option Z;
  smoothed_us : option Z;
  inflate_count : Z;
  deflate_count : Z;
  cooldown_remaining : Z;
  last_send_done_us : option Z
}.

Definition cc_new (c : CcConfig) : CcController :=
  let c := sanitised c in mkCc c (max_kbps c) [] None None 0 0 0 None.

(** The moving average, saturating at the width of a [u64]. *)
Definition ema (n : Z) (smoothed : option Z) (service_us : Z) : Z :=
  match smoothed with
  | None => service_us
  | Some s => sat_add u64_max (sat_mul u64_max s (n - 1)) service_us / n
  end.

(** [iter().min()], one for an empty window. *)
Definition window_min (w : list Z) : Z := match w with [] => 1 | x :: w => foldl Z.min x w end.

(** The timing half of [on_frame]: average, window and baseline. *)
Definition update_timing (c : CcController) (service_us send_done_us : Z) : CcController :=
  let smoothed := ema (ema_alpha_inv (config c)) (smoothed_us c) service_us in
  let w := window c ++ [service_us] in
  let w := if window_frames (config c) <? len w then drop 1 w else w in
  let baseline := if len w =? window_frames (config c) then Some (window_min w) else baseline_us c in
  mkCc (config c) (cc_target_kbps c) w baseline (Some smoothed) (inflate_count c) (deflate_count c)
    (cooldown_remaining c) (Some send_done_us).

Definition set_counters (c : CcController) (target inflate deflate cooldown : Z) : CcController :=
  mkCc (config c) target (window c) (baseline_us c) (smoothed_us c) inflate deflate cooldown (last_send_done_us c).

Inductive Signal : Type := Inflate | Deflate | Neutral.

#[export] Instance Signal_eq_dec : EqDecision Signal.
Proof. solve_decision. Defined.

(** The score against its two thresholds and the absolute budget. *)
Definition signal_of (c : CcController) (baseline smoothed target_frame_interval_us : Z) : Signal :=
  let score := fdiv (of_int smoothed) (of_int baseline) in
  let absolute_inflate := (0 <? target_frame_interval_us) &&
    flt (fmul (budget_factor (config c)) (of_int target_frame_interval_us)) (of_int smoothed) in
  let relative_inflate := flt (inflate_ratio (config c)) score in
  if relative_inflate || absolute_inflate then Inflate
  else if flt score (deflate_ratio (config c)) then Deflate
  else Neutral.

Definition count_signal (c : CcController) (s : Signal) : CcController :=
  let '(i, d) :=
    match s with
    | Inflate => (sat_add u32_max (inflate_count c) 1, 0)
    | Deflate => (0, sat_add u32_max (deflate_count c) 1)
    | Neutral => (0, 0)
    end in
  set_counters c (cc_target_kbps c) i d (cooldown_remaining c).

Definition cut_target (c : CcController) : Z :=
  clamp (as_u32 (fmul (of_int (cc_target_kbps c)) (md_factor (config c)))) (min_kbps (config c)) (max_kbps (config c)).

Definition act (c : CcController) : CcController * CcVerdict :=
  if inflate_frames (config c) <=? inflate_count c then
    if 0 <? cooldown_remaining c then (c, CooldownHold)
    else (set_counters c (cut_target c) 0 (deflate_count c) (sat_add u32_max (cooldown_frames (config c)) 1), Decrease)
  else if deflate_frames (config c) <=? deflate_count c then
    let target := Z.min (sat_add u32_max (cc_target_kbps c) (probe_additive_kbps (config c))) (max_kbps (config c)) in
    (set_counters c target (inflate_count c) 0 (cooldown_remaining c), Increase)
  else (c, Hold).

(** The cooldown runs down, and its end starts the inflation count afresh. *)
Definition cool (c : CcController) : CcController :=
  let remaining := sat_sub (cooldown_remaining c) 1 in
  let inflate := if (0 <? cooldown_remaining c) && (remaining =? 0) then 0 else inflate_count c in
  set_counters c (cc_target_kbps c) inflate (deflate_count c) remaining.

Definition on_frame (c : CcController) (send_start_us send_done_us target_frame_interval_us : Z) :
    CcController * (Z * CcVerdict) :=
  let service_us := sat_sub send_done_us send_start_us in
  if from_option (fun last => send_done_us <=? last) false (last_send_done_us c)
  then (c, (cc_target_kbps c, Skipped))
  else
    let c := update_timing c service_us send_done_us in
    match baseline_us c with
    | None =>
        let c := set_counters c (cc_target_kbps c) (inflate_count c) (deflate_count c) (sat_sub (cooldown_remaining c) 1) in
        (c, (cc_target_kbps c, WarmingUp))
    | Some b =>
        let baseline := Z.max b 1 in
        let smoothed := default service_us (smoothed_us c) in
        let '(c, verdict) := act (count_signal c (signal_of c baseline smoothed target_frame_interval_us)) in
        let c := cool c in
        (c, (cc_target_kbps c, verdict))
    end.

Definition on_loss_report (c : CcController) (loss_fraction : f64) : CcController * Z :=
  let loss := if is_finite loss_fraction then fclamp loss_fraction (of_int 0) (of_int 1) else of_int 0 in
  if fle (loss_threshold (config c)) loss then
    let c := set_counters c (cut_target c) 0 0 (cooldown_frames (config c)) in (c, cc_target_kbps c)
  else (c, cc_target_kbps c).
