(* ===== verification/CcSafe.v ===== *)
(** * The congestion controller obeys its history

    What the frames and losses reported so far say of the next verdict and of the
    target, stated on the history alone; that the controller does as it says; and how
    far apart two cuts and two probes are at least. *)
From Stdlib Require Import QArith Lqa.
From S2P Require Import Prelude Float64 Float64Safe Cc.

#[local] Open Scope Z_scope.

(** ** Histories *)

Inductive cc_op : Type := Frame (send_start_us send_done_us target_frame_interval_us : Z) | Loss (loss_fraction : f64).

(** A report, the verdict on it when it is a frame, and the target after it. *)
Definition entry : Type := cc_op * option CcVerdict * Z.

Definition cc_step (s : CcController * list entry) (op : cc_op) : CcController * list entry :=
  let '(c, h) := s in
  match op with
  | Frame a b i => let '(c', (t, v)) := on_frame c a b i in (c', (op, Some v, t) :: h)
  | Loss f => let '(c', t) := on_loss_report c f in (c', (op, None, t) :: h)
  end.

(** Entries newest first. *)
Definition cc_run (cfg : CcConfig) (ops : list cc_op) : CcController * list entry := foldl cc_step (cc_new cfg, []) ops.

(** ** What a history says *)

Section history.
Context (cfg : CcConfig).

(** A loss fraction at the threshold or above; what is no number is no loss. *)
Definition lossy (f : f64) : bool := is_finite f && fle (loss_threshold cfg) (fclamp f (of_int 0) (of_int 1)).

(** A frame that was not skipped. *)
Definition counted (e : entry) : bool :=
  match e with (Frame _ _ _, Some Skipped, _) => false | (Frame _ _ _, _, _) => true | _ => false end.
Definition is_cut (e : entry) : bool :=
  match e with (Loss f, _, _) => lossy f | (Frame _ _ _, Some Decrease, _) => true | _ => false end.
Definition resets_probe (e : entry) : bool :=
  match e with (Loss f, _, _) => lossy f | (Frame _ _ _, Some Increase, _) => true | _ => false end.

(** The frames counted since the latest entry of a kind. *)
Fixpoint since (p : entry -> bool) (h : list entry) : option Z :=
  match h with
  | [] => None
  | e :: h => if p e then Some 0 else (fun n => if counted e then n + 1 else n) <$> since p h
  end.

(** The frames a cooldown still has to run. *)
Definition cooling (h : list entry) : Z := from_option (fun n => Z.max 0 (cooldown_frames cfg - n)) 0 (since is_cut h).

(** The service times of the frames counted, newest first, and the time of the newest. *)
Definition service (op : cc_op) : Z := match op with Frame a b _ => Z.max 0 (b - a) | Loss _ => 0 end.
Definition services (h : list entry) : list Z := (fun e => service e.1.1) <$> filter (fun e => counted e = true) h.
Fixpoint last_done (h : list entry) : option Z :=
  match h with
  | [] => None
  | e :: h => if counted e then match e.1.1 with Frame _ b _ => Some b | Loss _ => None end else last_done h
  end.

(** Their moving average, the newest an [n]-th of it, and the least of the newest [window_frames]. *)
Fixpoint average (ts : list Z) : Z :=
  match ts with
  | [] => 0
  | [t] => t
  | t :: ts => Z.min u64_max (Z.min u64_max (average ts * (ema_alpha_inv cfg - 1)) + t) / ema_alpha_inv cfg
  end.
Definition least (ts : list Z) : Z := foldr Z.min (default 1 (head ts)) ts.
Definition window_of (ts : list Z) : list Z := take (Z.to_nat (window_frames cfg)) ts.

(** What a frame signals, its own service time among [ts]; nothing before the window is full. *)
Definition signal (ts : list Z) (interval : Z) : option Signal :=
  if len ts <? window_frames cfg then None
  else
    let score := fdiv (of_int (average ts)) (of_int (Z.max (least (window_of ts)) 1)) in
    Some (if flt (inflate_ratio cfg) score then Inflate
          else if (0 <? interval) && flt (fmul (budget_factor cfg) (of_int interval)) (of_int (average ts)) then Inflate
          else if flt score (deflate_ratio cfg) then Deflate else Neutral).

Definition signal_at (h : list entry) (op : cc_op) : option Signal :=
  match op with Frame _ _ i => signal (service op :: services h) i | Loss _ => None end.

(** The inflated frames in a row, the count starting anew at a cut and at the end of
    its cooldown; and the frames under budget in a row since a probe or a loss. *)
Fixpoint inflated (h : list entry) : Z :=
  match h with
  | [] => 0
  | e :: h' =>
      if is_cut e then 0
      else if counted e then
        if bool_decide (signal_at h' e.1.1 = Some Inflate) && negb ((0 <? cooling h') && (cooling h =? 0)) then inflated h' + 1 else 0
      else inflated h'
  end.
Fixpoint deflated (h : list entry) : Z :=
  match h with
  | [] => 0
  | e :: h' =>
      if resets_probe e then 0
      else if counted e then if bool_decide (signal_at h' e.1.1 = Some Deflate) then deflated h' + 1 else 0
      else deflated h'
  end.

(** The verdict due on a report. *)
Definition due (h : list entry) (op : cc_op) : option CcVerdict :=
  match op with
  | Loss _ => None
  | Frame _ b _ =>
      Some (if from_option (fun t => b <=? t) false (last_done h) then Skipped
            else match signal_at h op with
            | None => WarmingUp
            | Some Inflate =>
                if inflate_frames cfg <=? inflated h + 1 then if 0 <? cooling h then CooldownHold else Decrease else Hold
            | Some Deflate => if deflate_frames cfg <=? deflated h + 1 then Increase else Hold
            | Some Neutral => Hold
            end)
  end.

Definition target_of (h : list entry) : Z := match h with [] => max_kbps cfg | (_, _, t) :: _ => t end.

(** The target moves by its cut and its probe only. *)
Definition moves (e : entry) (before after : Z) : Prop :=
  if is_cut e then
    exists q, floor_of (inject_Z before * value (md_factor cfg)) q /\ q <= before /\
      after = Z.max (min_kbps cfg) (Z.min q (max_kbps cfg))
  else match e with
  | (_, Some Increase, _) => after = Z.min (before + probe_additive_kbps cfg) (max_kbps cfg)
  | _ => after = before
  end.

(** Every verdict was due, and every target follows from the one before. *)
Fixpoint obeyed (h : list entry) : Prop :=
  match h with
  | [] => True
  | e :: h =>
      e.1.2 = due h e.1.1 /\ moves e (target_of h) e.2 /\ min_kbps cfg <= e.2 <= max_kbps cfg /\ obeyed h
  end.

(** Two cuts of frames are a cooldown and an inflation count apart, two probes a
    deflation count, and neither follows a cut by loss any sooner. *)
Fixpoint spaced (h : list entry) : Prop :=
  match h with
  | [] => True
  | e :: h =>
      match e.1.2 with
      | Some Decrease => from_option (fun n => cooldown_frames cfg + inflate_frames cfg <= n + 1) True (since is_cut h)
      | Some Increase => from_option (fun n => deflate_frames cfg <= n + 1) True (since resets_probe h)
      | _ => True
      end /\ spaced h
  end.
End history.

(** ** The configuration *)

Record config_ok (c : CcConfig) : Prop := {
  cf_bounds : 1 <= min_kbps c <= max_kbps c;
  cf_max : max_kbps c <= u32_max;
  cf_window : 1 <= window_frames c;
  cf_probe : 1 <= probe_additive_kbps c;
  cf_cooldown : 1 <= cooldown_frames c <= 10000;
  cf_inflate : 1 <= inflate_frames c <= u32_max;
  cf_deflate : 1 <= deflate_frames c <= u32_max;
  cf_loss : fle (loss_threshold c) (of_int 0) = false;
  cf_md : is_finite (md_factor c) = true /\ (0 < value (md_factor c) <= 1)%Q
}.

(** The counts of a configuration are 32-bit, its cut factor is a double of the hardware. *)
Definition config_typed (c : CcConfig) : Prop :=
  in_u32 (max_kbps c) /\ in_u32 (inflate_frames c) /\ in_u32 (deflate_frames c) /\ valid (md_factor c).

Lemma default_cut : is_finite (decimal 85 100) = true /\ (0 < value (decimal 85 100) <= 1)%Q.
Proof. by split_and!. Qed.

Lemma sanitised_ok c : config_typed c -> config_ok (sanitised c).
Proof.
  intros (Hm & Hi & Hd & Hv). unfold in_u in *. split; try (cbn; unfold clamp, u32_max; lia).
  { unfold sanitised. cbn [loss_threshold]. destruct (_ && _ && _) eqn:E; [|done].
    apply andb_true_iff in E as [[_ E]%andb_true_iff _]. by apply flt_zero_fle. }
  unfold sanitised. cbn [md_factor].
  destruct (is_finite (md_factor c)) eqn:Hf; cbn [andb]; [|apply default_cut].
  destruct (flt (of_int 0) (md_factor c)) eqn:Hp; [|apply default_cut]. apply flt_zero in Hp; [|done].
  unfold fmin. rewrite (finite_not_nan _ Hf). change (is_nan (of_int 1)) with false.
  destruct (flt (of_int 1) (md_factor c)) eqn:E; [by split|]. split; [done|]. split; [done|].
  apply Qnot_lt_le. intros H. apply (flt_one _ Hv Hf Hp) in H. congruence.
Qed.

(** ** Histories, one entry longer *)

Section steps.
Context (cfg : CcConfig) (Hcfg : config_ok cfg).
Notation cooling := (cooling cfg).
Notation inflated := (inflated cfg).
Notation deflated := (deflated cfg).

Lemma since_nonneg p h n : since p h = Some n -> 0 <= n.
Proof.
  revert n. induction h as [|e h IH]; intros n; cbn [since]; [done|]. destruct (p e); [intros E; apply (inj Some) in E; lia|].
  destruct (since p h) as [k|]; [|done]. specialize (IH k eq_refl). cbn. intros E. apply (inj Some) in E. destruct (counted e); lia.
Qed.

Lemma inflated_cons e h :
  inflated (e :: h) =
    if is_cut cfg e then 0
    else if counted e then
      if bool_decide (signal_at cfg h e.1.1 = Some Inflate) && negb ((0 <? cooling h) && (cooling (e :: h) =? 0)) then inflated h + 1 else 0
    else inflated h.
Proof. reflexivity. Qed.

Lemma deflated_cons e h :
  deflated (e :: h) =
    if resets_probe cfg e then 0
    else if counted e then if bool_decide (signal_at cfg h e.1.1 = Some Deflate) then deflated h + 1 else 0
    else deflated h.
Proof. reflexivity. Qed.

Lemma cooling_cut e h : is_cut cfg e = true -> cooling (e :: h) = cooldown_frames cfg.
Proof. intros E. unfold CcSafe.cooling. cbn [since]. rewrite E. cbn. pose proof (cf_cooldown _ Hcfg). lia. Qed.

Lemma cooling_other e h : is_cut cfg e = false ->
  cooling (e :: h) = if counted e then Z.max 0 (cooling h - 1) else cooling h.
Proof.
  intros E. unfold CcSafe.cooling. cbn [since]. rewrite E. destruct (since _ h) as [n|]; cbn; destruct (counted e); lia.
Qed.

Lemma cooling_range h : 0 <= cooling h <= cooldown_frames cfg.
Proof.
  unfold CcSafe.cooling. destruct (since _ h) as [n|] eqn:E; cbn; pose proof (cf_cooldown _ Hcfg); [|lia].
  apply since_nonneg in E. lia.
Qed.

Lemma inflated_range h : 0 <= inflated h.
Proof.
  induction h as [|e h IH]; [done|]. cbn [CcSafe.inflated]. destruct (is_cut cfg e); [done|]. destruct (counted e); [|done].
  destruct (_ && _); lia.
Qed.

Lemma deflated_range h : 0 <= deflated h.
Proof.
  induction h as [|e h IH]; [done|]. cbn [CcSafe.deflated]. destruct (resets_probe cfg e); [done|]. destruct (counted e); [|done].
  case_bool_decide; lia.
Qed.

(** After a cut and its cooldown the inflated frames are those since. *)
Lemma inflated_since h n : since (is_cut cfg) h = Some n -> cooling h = 0 -> inflated h <= n - cooldown_frames cfg.
Proof.
  revert n. induction h as [|e h IH]; intros n; [done|]. destruct (is_cut cfg e) eqn:Ec.
  { intros _. rewrite cooling_cut by done. pose proof (cf_cooldown _ Hcfg). lia. }
  intros Es. pose proof Es as Es'. cbn [since] in Es. rewrite Ec in Es. destruct (since (is_cut cfg) h) as [k|] eqn:Ek; [|done].
  cbn [CcSafe.inflated fmap option_fmap option_map] in *. rewrite Ec, cooling_other by done. intros Hz.
  assert (Hcool : cooling h = Z.max 0 (cooldown_frames cfg - k)) by (unfold CcSafe.cooling; by rewrite Ek).
  apply (inj Some) in Es. destruct (counted e).
  - destruct (Z.ltb_spec 0 (cooling h)).
    + rewrite (proj2 (Z.eqb_eq _ 0)) by done. cbn. rewrite andb_false_r. lia.
    + specialize (IH k eq_refl ltac:(lia)). cbn. rewrite andb_true_r. case_bool_decide; lia.
  - specialize (IH k eq_refl Hz). lia.
Qed.

Lemma deflated_since h n : since (resets_probe cfg) h = Some n -> deflated h <= n.
Proof.
  revert n. induction h as [|e h IH]; intros n; [done|]. cbn [since CcSafe.deflated].
  destruct (resets_probe cfg e); [intros E; apply (inj Some) in E; lia|].
  destruct (since _ h) as [k|]; [|done]. specialize (IH k eq_refl). cbn. intros E. apply (inj Some) in E.
  destruct (counted e); [|lia]. case_bool_decide; [lia|]. pose proof (deflated_range h). destruct h; cbn in *; lia.
Qed.

(** ** Timing *)

Lemma drop_reverse {A} (x : A) l : drop 1 (reverse (l ++ [x])) = reverse l.
Proof. by rewrite reverse_app. Qed.

Lemma window_step (t : Z) ts : 
  let w := reverse (window_of cfg ts) ++ [t] in
  (if window_frames cfg <? len w then drop 1 w else w) = reverse (window_of cfg (t :: ts)).
Proof.
  cbv zeta. unfold window_of. pose proof (cf_window _ Hcfg) as Hw.
  rewrite <- reverse_cons. unfold len. rewrite length_reverse. cbn [length].
  replace (Z.to_nat (window_frames cfg)) with (S (Z.to_nat (window_frames cfg) - 1)) by lia. set (n := (Z.to_nat (window_frames cfg) - 1)%nat).
  cbn [take]. fold (take (A := Z)). rewrite length_take.
  destruct (Nat.le_gt_cases (S n) (length ts)) as [Hl|Hl].
  - rewrite (proj2 (Z.ltb_lt _ _)) by lia. destruct (lookup_lt_is_Some_2 ts n ltac:(lia)) as [x Hx].
    rewrite (take_S_r _ _ _ Hx). change (t :: take n ts ++ [x]) with ((t :: take n ts) ++ [x]). apply drop_reverse.
  - rewrite (proj2 (Z.ltb_ge _ _)) by lia. f_equal. f_equal. rewrite !take_ge by lia. done.
Qed.

Lemma foldl_min_least x w : foldl Z.min x w ∈ x :: w /\ forall y, y ∈ x :: w -> foldl Z.min x w <= y.
Proof.
  revert x. induction w as [|z w IH]; intros x; cbn [foldl].
  - split; [by left|]. intros y ->%list_elem_of_singleton. lia.
  - destruct (IH (Z.min x z)) as [H1 H2]. split.
    + apply elem_of_cons in H1 as [->|H1]; [|by do 2 right]. destruct (Z.min_spec x z) as [[_ ->]|[_ ->]]; [left|right; left].
    + specialize (H2 (Z.min x z) ltac:(left)) as H3. intros y [->|[->|Hy]%elem_of_cons]%elem_of_cons; [lia..|]. apply H2. by right.
Qed.

Lemma foldr_min_least d w : foldr Z.min d w ∈ d :: w /\ forall y, y ∈ d :: w -> foldr Z.min d w <= y.
Proof.
  induction w as [|z w [H1 H2]]; cbn [foldr].
  - split; [by left|]. intros y ->%list_elem_of_singleton. lia.
  - split.
    + destruct (Z.min_spec z (foldr Z.min d w)) as [[_ ->]|[_ ->]]; [by right; left|].
      apply elem_of_cons in H1 as [->|H1]; [left|by do 2 right].
    + intros y [->|[->|Hy]%elem_of_cons]%elem_of_cons; [specialize (H2 d ltac:(left)); lia|lia|].
      specialize (H2 y ltac:(by right)). lia.
Qed.

Lemma window_min_least ts : ts <> [] -> window_min (reverse ts) = least ts.
Proof.
  intros Hne. unfold least, window_min. destruct (reverse ts) as [|x w] eqn:E.
  { apply (f_equal reverse) in E. by rewrite reverse_involutive in E. }
  assert (Hin : forall y, y ∈ x :: w <-> y ∈ ts) by (intros y; by rewrite <- E, elem_of_reverse).
  destruct ts as [|z ts]; [done|]. cbn [head default].
  destruct (foldl_min_least x w) as [L1 L2], (foldr_min_least z (z :: ts)) as [R1 R2]. cbn [from_option id] in *.
  apply Hin in L1. assert (R1' : foldr Z.min z (z :: ts) ∈ x :: w).
  { apply Hin. apply elem_of_cons in R1 as [->|R1]; [left|done]. }
  apply L2 in R1'. assert (L1' : foldl Z.min x w ∈ z :: z :: ts) by (by right). apply R2 in L1'. lia.
Qed.

(** What the controller keeps is what its history says. *)
Record cc_inv (h : list entry) (c : CcController) : Prop := {
  cv_config : config c = cfg;
  cv_target : cc_target_kbps c = target_of cfg h;
  cv_window : window c = reverse (window_of cfg (services h));
  cv_smoothed : smoothed_us c = match services h with [] => None | ts => Some (average cfg ts) end;
  cv_baseline : baseline_us c = if len (services h) <? window_frames cfg then None else Some (least (window_of cfg (services h)));
  cv_inflate : inflate_count c = Z.min u32_max (inflated h);
  cv_deflate : deflate_count c = Z.min u32_max (deflated h);
  cv_cooldown : cooldown_remaining c = cooling h;
  cv_done : last_send_done_us c = last_done h;
  cv_range : min_kbps cfg <= target_of cfg h <= max_kbps cfg;
  cv_obeyed : obeyed cfg h;
  cv_spaced : spaced cfg h
}.

Lemma update_timing_spec h c a b : cc_inv h c ->
  let ts := Z.max 0 (b - a) :: services h in
  update_timing c (sat_sub b a) b =
    mkCc cfg (target_of cfg h) (reverse (window_of cfg ts))
      (if len ts <? window_frames cfg then None else Some (least (window_of cfg ts))) (Some (average cfg ts))
      (inflate_count c) (deflate_count c) (cooldown_remaining c) (Some b).
Proof.
  intros [Ec Et Ew Es Eb Ei Ed Er El _ _ _] ts. pose proof (cf_window _ Hcfg) as Hw. unfold update_timing. rewrite Ec, Ew, Et.
  change (sat_sub b a) with (Z.max 0 (b - a)). pose proof (window_step (Z.max 0 (b - a)) (services h)) as E. cbv zeta in E. rewrite E.
  fold ts. f_equal.
  - assert (Hlen : len (reverse (window_of cfg ts)) = Z.min (window_frames cfg) (len ts)).
    { unfold len, window_of. rewrite length_reverse, length_take. lia. }
    rewrite Hlen. destruct (Z.ltb_spec (len ts) (window_frames cfg)).
    + rewrite (proj2 (Z.eqb_neq _ _)) by lia. rewrite Eb. rewrite (proj2 (Z.ltb_lt _ _)); [done|].
      unfold ts, len in *. cbn [length] in *. lia.
    + rewrite (proj2 (Z.eqb_eq _ _)) by lia. f_equal. apply window_min_least.
      unfold window_of, ts. destruct (Z.to_nat (window_frames cfg)) eqn:En; [lia|done].
  - f_equal. unfold ema. rewrite Es. unfold ts. by destruct (services h).
Qed.

(** ** Verdicts *)

Lemma cut_target_moves h c e : cc_inv h c -> is_cut cfg e = true -> e.2 = cut_target c ->
  moves cfg e (target_of cfg h) e.2 /\ min_kbps cfg <= e.2 <= max_kbps cfg.
Proof.
  intros H He E. pose proof Hcfg as [Hb Hm _ _ _ _ _ _ [Hf Hv]]. pose proof (cv_range _ _ H) as Hr.
  unfold cut_target in E. rewrite (cv_config _ _ H), (cv_target _ _ H) in E.
  set (q := as_u32 (fmul (of_int (target_of cfg h)) (md_factor cfg))) in *.
  assert (Hq : floor_of (inject_Z (target_of cfg h) * value (md_factor cfg)) q).
  { apply product_floor; [lia|done|lra|split; lra|split; lra]. }
  assert (E' : e.2 = Z.max (min_kbps cfg) (Z.min q (max_kbps cfg))) by (rewrite E; unfold clamp; lia).
  rewrite E'. split; [|lia]. unfold moves. rewrite He. exists q. split; [done|]. split; [|done].
  apply (floor_of_le _ _ _ Hq). assert (0 <= inject_Z (target_of cfg h))%Q by (change 0%Q with (inject_Z 0); rewrite <- Zle_Qle; lia). nra.
Qed.

Lemma loss_inv h c f : cc_inv h c -> let '(c', t) := on_loss_report c f in cc_inv (((Loss f, None, t) : entry) :: h) c'.
Proof.
  intros H. unfold on_loss_report. rewrite (cv_config _ _ H).
  assert (El : fle (loss_threshold cfg) (if is_finite f then fclamp f (of_int 0) (of_int 1) else of_int 0) = lossy cfg f).
  { unfold lossy. destruct (is_finite f); [done|]. apply Hcfg. }
  rewrite El. destruct (lossy cfg f) eqn:Ef.
  - set (e := (Loss f, None, cut_target c) : entry). assert (He : is_cut cfg e = true) by exact Ef.
    destruct (cut_target_moves h c e H He eq_refl) as [Hmv Hrg].
    destruct H as [Ec Et Ew Es Eb Ei Ed Er El' Hr Ho Hsp].
    split; cbn [config cc_target_kbps window smoothed_us baseline_us inflate_count deflate_count cooldown_remaining last_send_done_us set_counters
      target_of]; try done.
    + fold e. by rewrite inflated_cons, He.
    + fold e. rewrite deflated_cons. cbn [resets_probe e]. by rewrite Ef.
    + fold e. by rewrite cooling_cut.
  - set (e := (Loss f, None, cc_target_kbps c) : entry). assert (He : is_cut cfg e = false) by exact Ef.
    destruct H as [Ec Et Ew Es Eb Ei Ed Er El' Hr Ho Hsp].
    split; try done.
    + by rewrite inflated_cons, He.
    + rewrite deflated_cons. cbn [resets_probe e]. by rewrite Ef.
    + rewrite cooling_other by done. done.
    + change (target_of cfg (e :: h)) with (cc_target_kbps c). by rewrite Et.
    + split; [done|]. split; [by unfold moves; rewrite He|]. split; [|done]. change (e.2) with (cc_target_kbps c). by rewrite Et.
Qed.

(** The counts a signal makes. *)
Definition inflated_with (h : list entry) (s : Signal) : Z := match s with Inflate => inflated h + 1 | _ => 0 end.
Definition deflated_with (h : list entry) (s : Signal) : Z := match s with Deflate => deflated h + 1 | _ => 0 end.

(** A frame ruled on leaves what its history says, whatever the target it sets. *)
Lemma ruled_counts h op v t s :
  counted (op, Some v, t) = true -> signal_at cfg h op = Some s ->
  (v = Decrease -> s = Inflate /\ cooling h = 0) -> (v = Increase -> s = Deflate) ->
  let e := (op, Some v, t) : entry in
  cooling (e :: h) = (if bool_decide (v = Decrease) then cooldown_frames cfg else Z.max 0 (cooling h - 1)) /\
  inflated (e :: h) = (if bool_decide (v = Decrease) then 0 else
     if (0 <? cooling h) && (Z.max 0 (cooling h - 1) =? 0) then 0 else inflated_with h s) /\
  deflated (e :: h) = (if bool_decide (v = Increase) then 0 else deflated_with h s).
Proof.
  intros Hc Hs HD HI e. change (counted e = true) in Hc. destruct op as [a b i|f]; [|done].
  assert (Hcut : is_cut cfg e = bool_decide (v = Decrease)) by (unfold e; by destruct v).
  assert (Hres : resets_probe cfg e = bool_decide (v = Increase)) by (unfold e; by destruct v).
  split; [|split].
  - destruct (bool_decide (v = Decrease)); [by apply cooling_cut|]. rewrite cooling_other by done. by rewrite Hc.
  - rewrite inflated_cons, Hcut. destruct (bool_decide (v = Decrease)) eqn:Ev; [done|]. rewrite Hc.
    change (e.1.1) with (Frame a b i). rewrite Hs, cooling_other, Hc by (by rewrite Hcut). unfold inflated_with.
    destruct s, ((0 <? cooling h) && (Z.max 0 (cooling h - 1) =? 0)); done.
  - rewrite deflated_cons, Hres. destruct (bool_decide (v = Increase)); [done|]. rewrite Hc.
    change (e.1.1) with (Frame a b i). rewrite Hs. unfold deflated_with. by destruct s.
Qed.

Lemma services_cons e h : services (e :: h) = if counted e then service e.1.1 :: services h else services h.
Proof. unfold services. rewrite filter_cons. by destruct (counted e). Qed.

(** Before the window is full nothing is counted. *)
Lemma warm_counts h : len (services h) < window_frames cfg -> inflated h = 0 /\ deflated h = 0.
Proof.
  induction h as [|e h IH]; [done|]. rewrite services_cons, inflated_cons, deflated_cons. intros Hl.
  destruct (counted e) eqn:Ec.
  - assert (Hs : signal_at cfg h e.1.1 = None).
    { destruct e as [[[a b i|f] v] t]; [|done]. cbn [fst signal_at]. unfold signal. cbn [fst] in Hl. by rewrite (proj2 (Z.ltb_lt _ _)). }
    rewrite Hs. rewrite !bool_decide_eq_false_2 by done. by destruct (is_cut cfg e), (resets_probe cfg e).
  - destruct (IH Hl) as [-> ->]. by destruct (is_cut cfg e), (resets_probe cfg e).
Qed.

Lemma signal_of_spec c1 ts i : config c1 = cfg -> len ts <? window_frames cfg = false ->
  signal cfg ts i = Some (signal_of c1 (Z.max (least (window_of cfg ts)) 1) (average cfg ts) i).
Proof.
  intros Ec Hl. unfold signal, signal_of. rewrite Hl, Ec. f_equal.
  destruct (flt (inflate_ratio cfg) _); [done|]. by destruct (_ && _).
Qed.

Lemma skip_inv h c a b i : cc_inv h c -> from_option (fun t => b <=? t) false (last_done h) = true ->
  cc_inv (((Frame a b i, Some Skipped, cc_target_kbps c) : entry) :: h) c.
Proof.
  intros [Ec Et Ew Es Eb Ei Ed Er El Hr Ho Hsp] Hs. set (e := (Frame a b i, Some Skipped, cc_target_kbps c) : entry).
  assert (Hcut : is_cut cfg e = false) by done.
  split; rewrite ?services_cons, ?inflated_cons, ?deflated_cons, ?Hcut; try done.
  - by rewrite cooling_other.
  - change (target_of cfg (e :: h)) with (cc_target_kbps c). by rewrite Et.
  - split; [cbn [fst snd e due]; by rewrite Hs|]. split; [done|]. split; [|done]. change (e.2) with (cc_target_kbps c). by rewrite Et.
Qed.

Lemma warming_inv h c a b i : cc_inv h c -> from_option (fun t => b <=? t) false (last_done h) = false ->
  let ts := Z.max 0 (b - a) :: services h in len ts <? window_frames cfg = true ->
  cc_inv (((Frame a b i, Some WarmingUp, target_of cfg h) : entry) :: h)
    (mkCc cfg (target_of cfg h) (reverse (window_of cfg ts)) None (Some (average cfg ts)) (inflate_count c) (deflate_count c)
       (sat_sub (cooldown_remaining c) 1) (Some b)).
Proof.
  intros [Ec Et Ew Es Eb Ei Ed Er El Hr Ho Hsp] Hs ts Hl. set (e := (Frame a b i, Some WarmingUp, target_of cfg h) : entry).
  assert (Hcut : is_cut cfg e = false) by done. assert (Hcnt : counted e = true) by done.
  assert (Hsv : services (e :: h) = ts) by done.
  assert (Hw : len (services h) < window_frames cfg) by (apply Z.ltb_lt in Hl; unfold ts, len in *; cbn [length] in *; lia).
  apply Z.ltb_lt in Hl as Hl'. rewrite <- Hsv in Hl'. destruct (warm_counts _ Hw) as [Wi Wd], (warm_counts _ Hl') as [Wi' Wd'].
  split; cbn [config cc_target_kbps window smoothed_us baseline_us inflate_count deflate_count cooldown_remaining last_send_done_us];
    fold e; try done.
  - by rewrite Hsv, Hl.
  - by rewrite Ei, Wi, Wi'.
  - by rewrite Ed, Wd, Wd'.
  - by rewrite cooling_other, Er.
  - split; [|by split; [|split]]. cbn [fst snd e due]. rewrite Hs. unfold signal_at, signal. cbn [service]. fold ts. by rewrite Hl.
Qed.

Lemma count_signal_spec h c1 s : inflate_count c1 = Z.min u32_max (inflated h) -> deflate_count c1 = Z.min u32_max (deflated h) ->
  count_signal c1 s = set_counters c1 (cc_target_kbps c1) (Z.min u32_max (inflated_with h s)) (Z.min u32_max (deflated_with h s)) (cooldown_remaining c1).
Proof.
  intros Ei Ed. unfold count_signal, inflated_with, deflated_with. rewrite Ei, Ed. unfold sat_add, u32_max.
  pose proof (inflated_range h). pose proof (deflated_range h). destruct s; f_equal; lia.
Qed.

(** The verdict, and the counts and the target it leaves. *)
Lemma act_due h c1 s : config c1 = cfg -> cooldown_remaining c1 = cooling h ->
  let c0 := set_counters c1 (cc_target_kbps c1) (Z.min u32_max (inflated_with h s)) (Z.min u32_max (deflated_with h s)) (cooldown_remaining c1) in
  let '(c2, v) := act c0 in
  v = match s with
      | Inflate => if inflate_frames cfg <=? inflated h + 1 then if 0 <? cooling h then CooldownHold else Decrease else Hold
      | Deflate => if deflate_frames cfg <=? deflated h + 1 then Increase else Hold
      | Neutral => Hold
      end /\
  c2 = set_counters c1
         (if bool_decide (v = Decrease) then cut_target c1
          else if bool_decide (v = Increase) then Z.min (sat_add u32_max (cc_target_kbps c1) (probe_additive_kbps cfg)) (max_kbps cfg)
          else cc_target_kbps c1)
         (if bool_decide (v = Decrease) then 0 else Z.min u32_max (inflated_with h s))
         (if bool_decide (v = Increase) then 0 else Z.min u32_max (deflated_with h s))
         (if bool_decide (v = Decrease) then cooldown_frames cfg + 1 else cooling h).
Proof.
  intros Ec Er c0. pose proof Hcfg as [_ _ _ _ HC HI HD _ _]. unfold act, c0.
  cbn [set_counters config inflate_count deflate_count cooldown_remaining cc_target_kbps]. rewrite Ec, Er.
  pose proof (inflated_range h). pose proof (deflated_range h).
  assert (H1 : (inflate_frames cfg <=? Z.min u32_max (inflated_with h s)) = (inflate_frames cfg <=? inflated_with h s))
    by (destruct (Z.leb_spec (inflate_frames cfg) (inflated_with h s)); [apply Z.leb_le|apply Z.leb_gt]; lia).
  assert (H2 : (deflate_frames cfg <=? Z.min u32_max (deflated_with h s)) = (deflate_frames cfg <=? deflated_with h s))
    by (destruct (Z.leb_spec (deflate_frames cfg) (deflated_with h s)); [apply Z.leb_le|apply Z.leb_gt]; lia).
  rewrite H1, H2. unfold inflated_with, deflated_with.
  assert (H3 : (inflate_frames cfg <=? 0) = false) by (apply Z.leb_gt; lia).
  assert (H4 : (deflate_frames cfg <=? 0) = false) by (apply Z.leb_gt; lia).
  destruct s; rewrite ?H3, ?H4.
  - destruct (inflate_frames cfg <=? inflated h + 1); [|by split]. destruct (0 <? cooling h); [by split|]. split; [done|].
    assert (Ecd : sat_add u32_max (cooldown_frames cfg) 1 = cooldown_frames cfg + 1) by (unfold sat_add, u32_max; lia).
    by rewrite Ecd.
  - destruct (deflate_frames cfg <=? deflated h + 1); by split.
  - by split.
Qed.

Lemma spaced_head h v : spaced cfg h ->
  (v = Decrease -> inflate_frames cfg <= inflated h + 1 /\ cooling h = 0) -> (v = Increase -> deflate_frames cfg <= deflated h + 1) ->
  forall op t, spaced cfg (((op, Some v, t) : entry) :: h).
Proof.
  intros Hsp HD HI op t. split; [|done]. cbn [fst snd]. destruct v; try done.
  - destruct (HD eq_refl) as [H1 H2]. destruct (since _ h) as [n|] eqn:En; [|done]. cbn. pose proof (inflated_since h n En H2). lia.
  - specialize (HI eq_refl). destruct (since _ h) as [n|] eqn:En; [|done]. cbn. pose proof (deflated_since h n En). lia.
Qed.

Lemma ruled_inv h c a b i s : cc_inv h c -> from_option (fun t => b <=? t) false (last_done h) = false ->
  let ts := Z.max 0 (b - a) :: services h in
  (len ts <? window_frames cfg) = false -> signal cfg ts i = Some s ->
  let c1 := mkCc cfg (target_of cfg h) (reverse (window_of cfg ts)) (Some (least (window_of cfg ts))) (Some (average cfg ts))
    (inflate_count c) (deflate_count c) (cooldown_remaining c) (Some b) in
  let '(c2, v) := act (count_signal c1 s) in
  cc_inv (((Frame a b i, Some v, cc_target_kbps (cool c2)) : entry) :: h) (cool c2).
Proof.
  intros H Hs ts Hl Hsig c1. rewrite (count_signal_spec h c1 s) by apply H.
  pose proof (act_due h c1 s eq_refl (cv_cooldown _ _ H)) as Ha. cbv zeta in Ha. destruct (act _) as [c2 v]. destruct Ha as [Hv Hc2].
  assert (HD : v = Decrease -> s = Inflate /\ inflate_frames cfg <= inflated h + 1 /\ cooling h = 0).
  { rewrite Hv. intros E. pose proof (cooling_range h). destruct s; try (by repeat case_match).
    destruct (Z.leb_spec (inflate_frames cfg) (inflated h + 1)); [|done]. destruct (Z.ltb_spec 0 (cooling h)); [done|]. split_and!; [done..|lia]. }
  assert (HI : v = Increase -> s = Deflate /\ deflate_frames cfg <= deflated h + 1).
  { rewrite Hv. intros E. destruct s; try (by repeat case_match). destruct (Z.leb_spec (deflate_frames cfg) (deflated h + 1)); [by split|done]. }
  assert (Hdue : Some v = due cfg h (Frame a b i)).
  { cbn [due signal_at service]. fold ts. by rewrite Hs, Hsig, Hv. }
  assert (Hcnt : forall t, counted (Frame a b i, Some v, t) = true) by (intros t; rewrite Hv; destruct s; by repeat case_match).
  set (e := (Frame a b i, Some v, cc_target_kbps (cool c2)) : entry).
  assert (Hsv : services (e :: h) = ts) by (rewrite services_cons; unfold e; by rewrite Hcnt).
  destruct (ruled_counts h (Frame a b i) v (cc_target_kbps (cool c2)) s (Hcnt _)) as (Rc & Ri & Rd);
    [done|by intros (? & ? & ?)%HD|by intros [? _]%HI|]. fold e in Rc, Ri, Rd.
  assert (Hmv : moves cfg e (target_of cfg h) e.2 /\ min_kbps cfg <= e.2 <= max_kbps cfg).
  { pose proof (cv_range _ _ H) as Hr. pose proof Hcfg as [Hb Hm _ Hp _ _ _ _ _].
    destruct (bool_decide_reflect (v = Decrease)) as [Ev|Ev].
    - apply (cut_target_moves h c e H); [unfold e; by rewrite Ev|]. change (e.2) with (cc_target_kbps c2). rewrite Hc2.
      unfold cut_target. by rewrite (cv_config _ _ H), (cv_target _ _ H).
    - assert (Hcut : is_cut cfg e = false) by (unfold e; by destruct v). unfold moves. rewrite Hcut.
      change (e.2) with (cc_target_kbps c2). rewrite Hc2. cbn [set_counters cc_target_kbps e].
      
      change (cc_target_kbps c1) with (target_of cfg h).
      destruct (bool_decide_reflect (v = Increase)) as [Ei|Ei].
      + rewrite Ei. unfold sat_add. lia.
      + destruct v; by split. }
  pose proof H as [_ _ _ _ _ _ _ _ _ _ Ho Hsp]. pose proof (cooling_range h) as Hcr.
  change (cc_inv (e :: h) (cool c2)). split; try done; try (by rewrite Hc2, ?Hsv, ?Hl).
  - rewrite Hc2. cbn [cool set_counters inflate_count cooldown_remaining]. rewrite Ri. unfold sat_sub.
    destruct (bool_decide (v = Decrease)); [by destruct (_ && _)|]. by destruct (_ && _).
  - rewrite Hc2. cbn [cool set_counters deflate_count]. rewrite Rd. by destruct (bool_decide (v = Increase)).
  - rewrite Hc2. cbn [cool set_counters cooldown_remaining]. rewrite Rc. unfold sat_sub. destruct (bool_decide (v = Decrease)); lia.
  - rewrite Hc2. change (last_done (e :: h)) with (if counted e then Some b else last_done h). unfold e. by rewrite Hcnt.
  - apply Hmv.
  - split; [exact Hdue|]. split; [apply Hmv|]. by split; [apply Hmv|].
  - apply spaced_head; [done|by intros (_ & ? & ?)%HD|by intros [_ ?]%HI].
Qed.

Lemma frame_inv h c a b i : cc_inv h c ->
  let '(c', (t, v)) := on_frame c a b i in cc_inv (((Frame a b i, Some v, t) : entry) :: h) c'.
Proof.
  intros H. unfold on_frame. rewrite (cv_done _ _ H). destruct (from_option _ _ _) eqn:Hs; [by apply skip_inv|].
  rewrite (update_timing_spec h c a b H). cbn [baseline_us]. set (ts := Z.max 0 (b - a) :: services h).
  destruct (len ts <? window_frames cfg) eqn:Hl; [exact (warming_inv h c a b i H Hs Hl)|].
  cbn [smoothed_us default from_option id].
  set (c1 := mkCc _ _ _ _ _ _ _ _ _). pose proof (signal_of_spec c1 ts i eq_refl Hl) as Hsig.
  pose proof (ruled_inv h c a b i _ H Hs Hl Hsig) as Hr. cbv zeta in Hr. fold ts c1 in Hr.
  by destruct (act (count_signal c1 (signal_of c1 (Z.max (least (window_of cfg ts)) 1) (average cfg ts) i))) as [c2 v].
Qed.
End steps.

Lemma cc_new_inv cfg : config_typed cfg -> cc_inv (sanitised cfg) [] (cc_new cfg).
Proof.
  intros Hc. pose proof (sanitised_ok cfg Hc) as Hok. pose proof Hok as [Hb _ Hw _ _ _ _ _ _].
  split; try done; unfold cc_new.
  - change (services []) with (@nil Z). unfold window_of. by rewrite take_nil.
  - change (len (services [])) with 0. by rewrite (proj2 (Z.ltb_lt _ _)) by lia.
  - cbn [target_of]. lia.
Qed.

Lemma cc_run_inv cfg ops : config_typed cfg ->
  cc_inv (sanitised cfg) (cc_run cfg ops).2 (cc_run cfg ops).1 /\ reverse ops = ((cc_run cfg ops).2).*1.*1.
Proof.
  intros Hc. pose proof (sanitised_ok cfg Hc) as Hok. unfold cc_run.
  induction ops as [|op ops IH] using rev_ind; [by split; [apply cc_new_inv|]|].
  rewrite foldl_app, reverse_app. cbn [foldl]. destruct (foldl cc_step _ ops) as [c h]. cbn [fst snd] in IH. destruct IH as [IH Er].
  destruct op as [a b i|f]; cbn [cc_step].
  - pose proof (frame_inv _ Hok h c a b i IH) as H. destruct (on_frame c a b i) as [c' [t v]]. split; [done|]. cbn. by rewrite <- Er.
  - pose proof (loss_inv _ Hok h c f IH) as H. destruct (on_loss_report c f) as [c' t]. split; [done|]. cbn. by rewrite <- Er.
Qed.

(** A configuration that needs no correction. *)
Definition sane (c : CcConfig) : Prop :=
  1 <= min_kbps c <= max_kbps c /\ 1 <= window_frames c <= 10000 /\ 1 <= ema_alpha_inv c /\ 1 <= inflate_frames c /\
  1 <= deflate_frames c /\ 1 <= probe_additive_kbps c /\ 1 <= cooldown_frames c <= 10000 /\
  is_finite (inflate_ratio c) && flt (of_int 1) (inflate_ratio c) = true /\
  is_finite (deflate_ratio c) && flt (of_int 0) (deflate_ratio c) && flt (deflate_ratio c) (of_int 1) = true /\
  is_finite (md_factor c) && flt (of_int 0) (md_factor c) && negb (flt (of_int 1) (md_factor c)) = true /\
  is_finite (loss_threshold c) && flt (of_int 0) (loss_threshold c) && fle (loss_threshold c) (of_int 1) = true /\
  is_finite (budget_factor c) && flt (of_int 0) (budget_factor c) && negb (flt (of_int 1000000) (budget_factor c)) = true.

Lemma sane_kept c : sane c -> sanitised c = c.
Proof.
  intros (Hb & Hw & Ha & Hi & Hd & Hp & Hc & E1 & E2 & E3 & E4 & E5).
  destruct c as [mn mx w al ir dr inf def md pr cd lt bf].
  cbn [min_kbps max_kbps window_frames ema_alpha_inv inflate_ratio deflate_ratio inflate_frames deflate_frames md_factor
    probe_additive_kbps cooldown_frames loss_threshold budget_factor] in *.
  unfold sanitised. cbn [min_kbps max_kbps window_frames ema_alpha_inv inflate_ratio deflate_ratio inflate_frames deflate_frames md_factor
    probe_additive_kbps cooldown_frames loss_threshold budget_factor].
  rewrite E1, E2, E4.
  apply andb_true_iff in E3 as [E3 M3%negb_true_iff]. apply andb_true_iff in E5 as [E5 M5%negb_true_iff]. rewrite E3, E5.
  apply andb_true_iff in E3 as [F3 _]. apply andb_true_iff in E5 as [F5 _].
  unfold fmin. rewrite (finite_not_nan _ F3), (finite_not_nan _ F5).
  change (is_nan (of_int 1)) with false. change (is_nan (of_int 1000000)) with false. rewrite M3, M5.
  f_equal; unfold clamp; lia.
Qed.

(** ** The property *)

(** C17: Whatever frames and losses are reported: every verdict is the one the history
    of reports calls for (a cut after a full count of inflated frames outside a
    cooldown, a hold inside it, a probe after a full count of frames under budget);
    the target moves at a cut, by the cut factor and never up, and at a probe, by its
    step, and at nothing else, and stays between the two bounds of the configuration.
    Two cuts for inflated frames are a full cooldown and a full count of inflated
    frames apart, as a cut for inflation is from a cut for loss; and two probes
    upwards, or a cut for loss and the next probe, are a full count of frames under
    budget apart. Skipped frames count for nothing. A sane configuration is used as given. *)
Theorem cc_bounded_and_spaced cfg ops :
  config_typed cfg ->
  let '(c, h) := cc_run cfg ops in
  h.*1.*1 = reverse ops /\
  cc_target_kbps c = target_of (sanitised cfg) h /\
  min_kbps (sanitised cfg) <= cc_target_kbps c <= max_kbps (sanitised cfg) /\
  obeyed (sanitised cfg) h /\ spaced (sanitised cfg) h /\
  (sane cfg -> sanitised cfg = cfg).
Proof.
  intros Hc. destruct (cc_run_inv cfg ops Hc) as [H Er]. destruct (cc_run cfg ops) as [c h]. cbn [fst snd] in H, Er.
  split; [done|]. split; [apply H|]. split; [rewrite (cv_target _ _ _ H); apply H|].
  split; [apply H|]. split; [apply H|]. apply sane_kept.
Qed.

(** A controller of one-frame windows that cools for two frames: inflated frames cut,
    wait for the cooldown and a new count, and cut again. *)
Lemma cc_bounded_and_spaced_witness :
  let cfg := mkCcConfig 500 10000 1 1 (decimal 125 100) (decimal 90 100) 2 2 (decimal 85 100) 250 2 (decimal 10 100) (of_int 1) in
  let ops := (fun n => Frame (1000 * n) (1000 * n + 900) 100) <$> seqZ 1 9 in
  let '(c, h) := cc_run cfg ops in
  h.*1.*2 = Some <$> [Hold; CooldownHold; Hold; Decrease; Hold; CooldownHold; Hold; Decrease; Hold] /\
  h.*2 = [7225; 7225; 7225; 7225; 8500; 8500; 8500; 8500; 10000] /\
  cc_target_kbps c = 7225 /\ obeyed cfg h /\ spaced cfg h.
Proof.
  intros cfg ops. pose proof (cc_bounded_and_spaced cfg ops ltac:(by split_and!)) as H.
  assert (Ev : (cc_run cfg ops).2.*1.*2 = Some <$> [Hold; CooldownHold; Hold; Decrease; Hold; CooldownHold; Hold; Decrease; Hold])
    by (vm_compute; reflexivity).
  assert (Et : (cc_run cfg ops).2.*2 = [7225; 7225; 7225; 7225; 8500; 8500; 8500; 8500; 10000]) by (vm_compute; reflexivity).
  assert (Ec : cc_target_kbps (cc_run cfg ops).1 = 7225) by (vm_compute; reflexivity).
  destruct (cc_run cfg ops) as [c h]. cbn [fst snd] in Ev, Et, Ec. destruct H as (_ & _ & _ & Ho & Hs & Hid).
  rewrite Hid in Ho, Hs by (by split_and!). by split_and!.
Defined.
