(* ===== verification/CcShared.v ===== *)
(** * The state the controllers share (streamer/src/cc.rs, CcShared)

    Packed atomics written and read by tasks of several generations. Every atomic
    access is a step of its own and steps of different tasks interleave freely (each
    access taken as sequentially consistent), so the checks and the stores of one
    method can be torn apart by another. *)
From S2P Require Import Prelude.

Definition LOSS_MAILBOX_EMPTY : Z := u64_max.

Definition pack (generation value : Z) : Z := Z.lor (Z.shiftl generation 32) value.
Definition unpack (packed : Z) : Z * Z := (wrap32 (Z.shiftr packed 32), wrap32 packed).

Record CcShared := mkShared {
  generation : Z;
  target_packed : Z;
  loss_packed : Z;
  frame_interval_us : Z
}.

Definition shared_new : CcShared := mkShared 0 (pack 0 0) LOSS_MAILBOX_EMPTY 0.

Definition set_generation (s : CcShared) (g : Z) := mkShared g (target_packed s) (loss_packed s) (frame_interval_us s).
Definition store_target (s : CcShared) (p : Z) := mkShared (generation s) p (loss_packed s) (frame_interval_us s).
Definition store_loss (s : CcShared) (p : Z) := mkShared (generation s) (target_packed s) p (frame_interval_us s).
Definition set_frame_interval_us (s : CcShared) (us : Z) := mkShared (generation s) (target_packed s) (loss_packed s) us.

(** Where a task is in a method; the first of each group is its call. *)
Inductive task : Type :=
| BeginGeneration | BeginStoreTarget (g : Z) | BeginStoreLoss (g : Z)
| Publish (g kbps : Z) | PublishStore (g kbps : Z)
| TargetKbps | TargetLoad (current : Z)
| PostLoss (g fraction : Z) | PostStore (g fraction : Z)
| TakeLoss (g : Z) | TakeExchange (g current : Z)
| Finished.

(** What is observed from outside: stores made under a generation, and values
    returned, with the generation the reader had found current. *)
Inductive shared_event : Type :=
| Begun (g : Z)
| Published (g kbps : Z)
| ReadTarget (current kbps : Z)
| Posted (g fraction : Z)
| Took (g fraction : Z).

(** One atomic access; [weak] lets the exchange fail for no reason. *)
Definition task_step (s : CcShared) (t : task) (weak : bool) : CcShared * task * list shared_event :=
  match t with
  | BeginGeneration =>
      let g := wrap32 (generation s + 1) in (set_generation s g, BeginStoreTarget g, [])
  | BeginStoreTarget g => (store_target s (pack g 0), BeginStoreLoss g, [])
  | BeginStoreLoss g => (store_loss s LOSS_MAILBOX_EMPTY, Finished, [Begun g])
  | Publish g kbps => (s, if generation s =? g then PublishStore g kbps else Finished, [])
  | PublishStore g kbps => (store_target s (pack g kbps), Finished, [Published g kbps])
  | TargetKbps => (s, TargetLoad (generation s), [])
  | TargetLoad current =>
      let '(g, kbps) := unpack (target_packed s) in
      (s, Finished, [ReadTarget current (if g =? current then kbps else 0)])
  | PostLoss g fraction => (s, if generation s =? g then PostStore g fraction else Finished, [])
  | PostStore g fraction => (store_loss s (pack g fraction), Finished, [Posted g fraction])
  | TakeLoss g =>
      let current := loss_packed s in
      (s, if current =? LOSS_MAILBOX_EMPTY then Finished
          else if negb ((unpack current).1 =? g) then Finished
          else TakeExchange g current, [])
  | TakeExchange g current =>
      if (loss_packed s =? current) && negb weak
      then (store_loss s LOSS_MAILBOX_EMPTY, Finished, [Took g (unpack current).2])
      else (s, TakeLoss g, [])
  | Finished => (s, Finished, [])
  end.

(** The two targets composed. *)
Definition effective_target_kbps (abr_kbps cc_kbps : Z) : Z :=
  if abr_kbps =? 0 then cc_kbps else if cc_kbps =? 0 then abr_kbps else Z.min abr_kbps cc_kbps.

Definition interval_us_from_fps (fps : Z) : Z := if fps =? 0 then 0 else 1000000 / fps.

(** ** Interleavings *)

Record world := mkWorld { shared : CcShared; tasks : list task; log : list shared_event }.

Definition world_new : world := mkWorld shared_new [] [].

Definition call (t : task) : Prop :=
  match t with
  | BeginGeneration | TargetKbps => True
  | Publish g k => in_u32 g /\ in_u32 k
  | PostLoss g f => in_u32 g /\ in_u8 f
  | TakeLoss g => in_u32 g
  | _ => False
  end.

Inductive world_step : world -> world -> Prop :=
| Call w t : call t -> world_step w (mkWorld (shared w) (tasks w ++ [t]) (log w))
| Run w i t weak s' t' ev :
    tasks w !! i = Some t -> task_step (shared w) t weak = (s', t', ev) ->
    world_step w (mkWorld s' (<[i := t']> (tasks w)) (ev ++ log w)).

Arguments LOSS_MAILBOX_EMPTY : simpl never.
#[export] Instance shared_event_eq : EqDecision shared_event.
Proof. solve_decision. Defined.

Fixpoint occurrences (e : shared_event) (l : list shared_event) : Z :=
  match l with [] => 0 | x :: l => (if decide (x = e) then 1 else 0) + occurrences e l end.

Lemma occurrences_app e l k : occurrences e (l ++ k) = occurrences e l + occurrences e k.
Proof. induction l as [|x l IH]; cbn; [done|]. rewrite IH. lia. Qed.

Lemma occurrences_ne e x l : x <> e -> occurrences e (x :: l) = occurrences e l.
Proof. intros H. cbn. by rewrite decide_False. Qed.

Lemma occurrences_eq e l : occurrences e (e :: l) = 1 + occurrences e l.
Proof. cbn. by rewrite decide_True. Qed.

Lemma occurrences_cons e x l : occurrences e l <= occurrences e (x :: l).
Proof. cbn. destruct (decide _); lia. Qed.

(** ** Packing *)

Lemma unpack_pack g v : in_u32 g -> in_u32 v -> unpack (pack g v) = (g, v).
Proof.
  intros Hg Hv. assert (Hhi : forall i, 32 <= i -> Z.testbit v i = false).
  { intros i Hi. unfold in_u in Hv. destruct (Z.eq_dec v 0) as [->|]; [apply Z.testbit_0_l|].
    apply Z.bits_above_log2; [lia|]. assert (Z.log2 v < 32) by (apply Z.log2_lt_pow2; lia). lia. }
  assert (Hw : forall x i, Z.testbit (wrap32 x) i = (i <? 32) && Z.testbit x i).
  { intros x i. unfold wrap32. change 4294967296 with (2 ^ 32). destruct (Z.ltb_spec i 32).
    - destruct (Z.lt_ge_cases i 0); [by rewrite !Z.testbit_neg_r|]. apply Z.mod_pow2_bits_low. lia.
    - apply Z.mod_pow2_bits_high. lia. }
  assert (Hg32 : wrap32 g = g) by by apply wrap32_id. assert (Hv32 : wrap32 v = v) by by apply wrap32_id.
  unfold unpack, pack. f_equal; apply Z.bits_inj'; intros i Hi.
  - rewrite <- Hg32 at 2. rewrite !Hw. destruct (Z.ltb_spec i 32); [|done]. cbn [andb].
    rewrite Z.shiftr_spec, Z.lor_spec, Z.shiftl_spec, Hhi, orb_false_r by lia. f_equal. lia.
  - rewrite <- Hv32 at 2. rewrite !Hw. destruct (Z.ltb_spec i 32); [|done]. cbn [andb].
    rewrite Z.lor_spec, Z.shiftl_spec by lia. by rewrite Z.testbit_neg_r by lia.
Qed.

Lemma u8_u32 f : in_u8 f -> in_u32 f.
Proof. unfold in_u. lia. Qed.

Lemma pack_inj g v g' v' : in_u32 g -> in_u32 v -> in_u32 g' -> in_u32 v' -> pack g v = pack g' v' -> g = g' /\ v = v'.
Proof. intros ? ? ? ? E. apply (f_equal unpack) in E. rewrite !unpack_pack in E by done. by injection E as -> ->. Qed.

(** A post is never taken for an empty mailbox. *)
Lemma pack_not_empty g f : in_u32 g -> in_u8 f -> pack g f <> LOSS_MAILBOX_EMPTY.
Proof.
  intros Hg Hf E. apply (f_equal unpack) in E. rewrite unpack_pack in E by (done || by apply u8_u32).
  vm_compute (unpack LOSS_MAILBOX_EMPTY) in E. injection E as _ ->. unfold in_u in Hf. lia.
Qed.

Arguments pack : simpl never.
Arguments unpack : simpl never.
Arguments wrap32 : simpl never.

(** ** The invariant *)

Definition task_ok (l : list shared_event) (t : task) : Prop :=
  match t with
  | BeginStoreTarget g | BeginStoreLoss g | TakeLoss g | TargetLoad g => in_u32 g
  | Publish g k | PublishStore g k => in_u32 g /\ in_u32 k
  | PostLoss g f | PostStore g f => in_u32 g /\ in_u8 f
  | TakeExchange g current => in_u32 g /\ exists f, in_u8 f /\ current = pack g f
  | _ => True
  end.

Definition in_mailbox (s : CcShared) (g f : Z) : Z := if loss_packed s =? pack g f then 1 else 0.

(** A value read is none, or was published under the generation found current. *)
Definition event_ok (l : list shared_event) (e : shared_event) : Prop :=
  match e with ReadTarget current k => k = 0 \/ Published current k ∈ l | _ => True end.

Fixpoint log_ok (l : list shared_event) : Prop := match l with [] => True | e :: l => event_ok l e /\ log_ok l end.

Record world_ok (w : world) : Prop := {
  wo_tasks : Forall (task_ok (log w)) (tasks w);
  wo_generation : in_u32 (generation (shared w));
  wo_target : exists g k, in_u32 g /\ in_u32 k /\ target_packed (shared w) = pack g k /\ (k = 0 \/ Published g k ∈ log w);
  wo_loss : loss_packed (shared w) = LOSS_MAILBOX_EMPTY \/
            exists g f, in_u32 g /\ in_u8 f /\ loss_packed (shared w) = pack g f;
  wo_once : forall g f, in_u32 g -> in_u8 f ->
            occurrences (Took g f) (log w) + in_mailbox (shared w) g f <= occurrences (Posted g f) (log w);
  wo_log : log_ok (log w)
}.

Lemma task_ok_any l l' t : task_ok l t -> task_ok l' t.
Proof. by destruct t. Qed.

Lemma world_new_ok : world_ok world_new.
Proof.
  split; try done.
  - exists 0, 0. repeat split; try done. by left.
  - by left.
  - intros g f Hg Hf. unfold in_mailbox. change (loss_packed (shared world_new)) with LOSS_MAILBOX_EMPTY. cbn [log world_new occurrences]. destruct (Z.eqb_spec LOSS_MAILBOX_EMPTY (pack g f)) as [E|]; [|lia].
    by destruct (pack_not_empty g f Hg Hf).
Qed.

Lemma mailbox_nonneg s g f : 0 <= in_mailbox s g f.
Proof. unfold in_mailbox. by destruct (_ =? _). Qed.

Lemma world_step_ok w w' : world_step w w' -> world_ok w -> world_ok w'.
Proof.
  intros Hs H. destruct Hs as [w t Hc|w i t weak s' t' ev Hi Ht].
  - pose proof H as [H1 H2 H3 H4 H5 H6]. split; try done. cbn. apply Forall_app. split; [done|].
    constructor; [|done]. by destruct t.
  - pose proof H as [H1 H2 (tg & tk & Htg & Htk & Etp & Hpub) H4 H5 H6].
    assert (Hok : task_ok (log w) t) by (by eapply Forall_lookup_1).
    assert (Hnext : forall l, task_ok l t' -> Forall (task_ok l) (<[i:=t']> (tasks w))).
    { intros l Hl. apply Forall_insert; [|done]. eapply Forall_impl; [exact H1|]. intros x. apply task_ok_any. }
    destruct t; cbn [task_step] in Ht; cbn [task_ok] in Hok.
    + (* begin *) apply pair_eq in Ht as [Ht <-]; apply pair_eq in Ht as [<- <-]. split; cbn [shared tasks log app]; try done; [by apply Hnext, wrap32_in|by apply wrap32_in|by exists tg, tk].
    + apply pair_eq in Ht as [Ht <-]; apply pair_eq in Ht as [<- <-]. split; cbn [shared tasks log app]; try done; [by apply Hnext|]. exists g, 0. split_and!; try done. by left.
    + apply pair_eq in Ht as [Ht <-]; apply pair_eq in Ht as [<- <-]. split; cbn [shared tasks log]; try done; [by apply Hnext| |by left| ].
      { exists tg, tk. split_and!; try done. destruct Hpub; [by left|right; by right]. }
      intros a f Ha Hf. specialize (H5 a f Ha Hf). pose proof (mailbox_nonneg (shared w) a f). cbn [app]. rewrite ?occurrences_ne by done.
      unfold in_mailbox. cbn [store_loss loss_packed]. destruct (Z.eqb_spec LOSS_MAILBOX_EMPTY (pack a f)) as [E|]; [by destruct (pack_not_empty a f Ha Hf)|lia].
    + apply pair_eq in Ht as [Ht <-]; apply pair_eq in Ht as [<- <-]. split; cbn [shared tasks log app]; try done; [apply Hnext; by case_match|by exists tg, tk].
    + destruct Hok as [Hg Hk]. apply pair_eq in Ht as [Ht <-]; apply pair_eq in Ht as [<- <-]. split; cbn [shared tasks log]; try done; [by apply Hnext|].
      exists g, kbps. split_and!; try done. right. by left.
    + apply pair_eq in Ht as [Ht <-]; apply pair_eq in Ht as [<- <-]. split; cbn [shared tasks log app]; try done; [by apply Hnext|by exists tg, tk].
    + destruct (unpack (target_packed (shared w))) as [g k] eqn:Eu. apply pair_eq in Ht as [Ht <-]; apply pair_eq in Ht as [<- <-].
      split; cbn [shared tasks log]; try done; [by apply Hnext| |].
      { exists tg, tk. split_and!; try done. destruct Hpub; [by left|right; by right]. }
      split; [|done]. cbn. rewrite Etp, unpack_pack in Eu by done. injection Eu as <- <-.
      destruct (Z.eqb_spec tg current) as [->|]; [|by left]. destruct Hpub; [by left|by right].
    + apply pair_eq in Ht as [Ht <-]; apply pair_eq in Ht as [<- <-]. split; cbn [shared tasks log app]; try done; [apply Hnext; by case_match|by exists tg, tk].
    + destruct Hok as [Hg Hk]. apply pair_eq in Ht as [Ht <-]; apply pair_eq in Ht as [<- <-]. split; cbn [shared tasks log]; try done; [by apply Hnext| | | ].
      { exists tg, tk. split_and!; try done. destruct Hpub; [by left|right; by right]. }
      { right. by exists g, fraction. }
      intros a f Ha Hf. specialize (H5 a f Ha Hf). pose proof (mailbox_nonneg (shared w) a f). cbn [app]. rewrite ?occurrences_ne by done.
      unfold in_mailbox. cbn [store_loss loss_packed]. destruct (Z.eqb_spec (pack g fraction) (pack a f)) as [E|].
      * apply pack_inj in E as [-> ->]; [|done|by apply u8_u32|done|by apply u8_u32]. rewrite occurrences_eq. lia.
      * pose proof (occurrences_cons (Posted a f) (Posted g fraction) (log w)). lia.
    + apply pair_eq in Ht as [Ht <-]; apply pair_eq in Ht as [<- <-]. split; cbn [shared tasks log app]; [apply Hnext|exact H2|by exists tg, tk|exact H4|exact H5|exact H6].
      destruct (Z.eqb_spec (loss_packed (shared w)) LOSS_MAILBOX_EMPTY) as [|Hne]; [exact I|].
      destruct H4 as [E|(a & f & Ha & Hf & E)]; [destruct (Hne E)|]. rewrite E, unpack_pack by (done || by apply u8_u32). cbn [fst].
      destruct (Z.eqb_spec a g) as [->|]; [|exact I]. split; [exact Ha|]. by exists f.
    + destruct Hok as [Hg (f & Hf & ->)]. destruct (Z.eqb_spec (loss_packed (shared w)) (pack g f)) as [El|]; cbn [andb] in Ht.
      2:{ apply pair_eq in Ht as [Ht <-]; apply pair_eq in Ht as [<- <-]. split; cbn [shared tasks log app]; try done; [by apply Hnext|by exists tg, tk]. }
      destruct weak; cbn [negb] in Ht; apply pair_eq in Ht as [Ht <-]; apply pair_eq in Ht as [<- <-].
      { split; cbn [shared tasks log app]; try done; [by apply Hnext|by exists tg, tk]. }
      rewrite unpack_pack by (done || by apply u8_u32). cbn [snd].
      split; cbn [shared tasks log]; try done; [by apply Hnext| |by left|].
      { exists tg, tk. split_and!; try done. destruct Hpub; [by left|right; by right]. }
      intros a f' Ha Hf'. specialize (H5 a f' Ha Hf'). cbn [app]. rewrite (occurrences_ne (Posted a f')) by done.
      unfold in_mailbox in *. cbn [store_loss loss_packed]. rewrite El in H5.
      destruct (Z.eqb_spec LOSS_MAILBOX_EMPTY (pack a f')) as [E|]; [by destruct (pack_not_empty a f' Ha Hf')|].
      destruct (decide (Took g f = Took a f')) as [[= -> ->]|Hne]; [rewrite occurrences_eq; rewrite Z.eqb_refl in H5; lia|].
      rewrite occurrences_ne by done. destruct (Z.eqb_spec (pack g f) (pack a f')); lia.
    + apply pair_eq in Ht as [Ht <-]; apply pair_eq in Ht as [<- <-]. split; cbn [shared tasks log app]; try done; [by apply Hnext|by exists tg, tk].
Qed.

(** C11: However the tasks interleave, access by access, a target read as live was
    published under the very generation its reader had found current: what a
    superseded task stores, even past its own check, reads as inactive. Every loss
    fraction taken was posted for the generation that takes it, none is taken more
    often than it was posted, and an exchange only ever empties a mailbox that holds
    a post of its own generation. *)
Theorem shared_generations_isolated w :
  rtc world_step world_new w ->
  (forall past current k future, log w = future ++ ReadTarget current k :: past -> k = 0 \/ Published current k ∈ past) /\
  (forall g f, in_u32 g -> in_u8 f -> occurrences (Took g f) (log w) <= occurrences (Posted g f) (log w)) /\
  (forall i g current weak s' t' ev, tasks w !! i = Some (TakeExchange g current) ->
     task_step (shared w) (TakeExchange g current) weak = (s', t', ev) ->
     loss_packed s' = loss_packed (shared w) \/
     exists f, loss_packed (shared w) = pack g f /\ loss_packed s' = LOSS_MAILBOX_EMPTY /\ ev = [Took g f]).
Proof.
  intros Hr. assert (H : world_ok w).
  { remember world_new as w0 eqn:E0. assert (H0 : world_ok w0) by (subst; apply world_new_ok). clear E0.
    induction Hr as [|? ? ? Hs _ IH]; [done|]. apply IH. by eapply world_step_ok. }
  split_and!.
  - intros past current k future E. pose proof (wo_log w H) as Hl. rewrite E in Hl. clear E.
    induction future as [|e future IH]; [apply Hl|]. apply IH, Hl.
  - intros g f Hg Hf. pose proof (wo_once w H g f Hg Hf). pose proof (mailbox_nonneg (shared w) g f). lia.
  - intros i g current weak s' t' ev Hi Ht. pose proof (Forall_lookup_1 _ _ _ _ (wo_tasks w H) Hi) as [Hg (f & Hf & ->)].
    cbn [task_step] in Ht. destruct (Z.eqb_spec (loss_packed (shared w)) (pack g f)) as [El|]; cbn [andb] in Ht;
      [|apply pair_eq in Ht as [Ht <-]; apply pair_eq in Ht as [<- _]; by left].
    destruct weak; cbn [negb] in Ht; apply pair_eq in Ht as [Ht <-]; apply pair_eq in Ht as [<- _]; [by left|]. right. exists f.
    rewrite unpack_pack by (done || by apply u8_u32). by split_and!.
Qed.

(** A schedule: calls, and which task moves next. *)
Inductive action : Type := DoCall (t : task) | DoRun (i : nat) (weak : bool).

Definition act_world (w : world) (a : action) : world :=
  match a with
  | DoCall t => mkWorld (shared w) (tasks w ++ [t]) (log w)
  | DoRun i weak =>
      match tasks w !! i with
      | Some t => let '(s', t', ev) := task_step (shared w) t weak in mkWorld s' (<[i := t']> (tasks w)) (ev ++ log w)
      | None => w
      end
  end.

Lemma schedule_reachable w acts :
  Forall (fun a => match a with DoCall t => call t | _ => True end) acts -> rtc world_step w (foldl act_world w acts).
Proof.
  intros H. revert w. induction H as [|a acts Ha _ IH]; intros w; [apply rtc_refl|]. cbn [foldl].
  destruct a as [t|i weak]; cbn [act_world].
  - eapply rtc_l; [by apply Call|apply IH].
  - destruct (tasks w !! i) as [t|] eqn:E; [|apply IH]. destruct (task_step (shared w) t weak) as [[s' t'] ev] eqn:Et.
    eapply rtc_l; [by eapply Run|apply IH].
Qed.

(** A stream of generation 1 publishes and posts; after a new generation its late
    stores are read as inactive. *)
Lemma shared_generations_isolated_witness :
  let acts :=
    [DoCall BeginGeneration; DoRun 0 false; DoRun 0 false; DoRun 0 false;
     DoCall (Publish 1 9000); DoRun 1 false; DoRun 1 false; DoCall TargetKbps; DoRun 2 false; DoRun 2 false;
     DoCall (Publish 1 7000); DoRun 3 false; DoCall BeginGeneration; DoRun 4 false; DoRun 4 false; DoRun 4 false;
     DoRun 3 false; DoCall TargetKbps; DoRun 5 false; DoRun 5 false] in
  let w := foldl act_world world_new acts in
  let past := [Published 1 7000; Begun 2; ReadTarget 1 9000; Published 1 9000; Begun 1] in
  log w = ReadTarget 2 0 :: past /\ (9000 = 0 \/ Published 1 9000 ∈ [Published 1 9000; Begun 1]).
Proof.
  intros acts w past. assert (El : log w = ReadTarget 2 0 :: past) by (vm_compute; reflexivity). split; [exact El|].
  assert (Hr : rtc world_step world_new w) by (refine (schedule_reachable world_new acts _); unfold acts; repeat (apply Forall_cons_2; [first [exact I | split; unfold in_u; lia]|]); apply Forall_nil_2).
  apply (proj1 (shared_generations_isolated w Hr) [Published 1 9000; Begun 1] 1 9000 [ReadTarget 2 0; Published 1 7000; Begun 2]).
  exact El.
Defined.
