(* ===== verification/Abr.v ===== *)
(** * Adaptive bitrate (streamer/src/abr.rs, streamer/src/bitrate_apply.rs)

    The controller that turns receiver estimates into a target, the gate that says
    when a target is worth sending, and the machine that sends it to the host and
    tracks its acknowledgement. *)
From Stdlib Require Import String QArith Lqa.
From S2P Require Import Prelude Float64 Float64Safe.

Open Scope Z_scope.

Definition DEFAULT_HEADROOM : f64 := decimal 9 10.
Definition HIGH_LOSS_FRACTION : f64 := decimal 10 100.
Definition LOSS_DECREASE_K : f64 := decimal 5 10.

Record AbrConfig := mkAbrConfig { ceiling_kbps : Z; floor_kbps : Z; increase_step_kbps : Z; headroom : f64 }.

Definition abr_from_ceiling (ceiling : Z) : AbrConfig :=
  let ceiling := Z.max ceiling 1 in
  mkAbrConfig ceiling (Z.min (Z.max (ceiling / 10) 500) ceiling) (Z.max (ceiling / 20) 250) DEFAULT_HEADROOM.

Definition sanitised (c : AbrConfig) : AbrConfig :=
  let ceiling := Z.max (ceiling_kbps c) 1 in
  mkAbrConfig ceiling (clamp (floor_kbps c) 1 ceiling) (Z.max (increase_step_kbps c) 1)
    (if is_finite (headroom c) && flt (of_int 0) (headroom c) then fmin (headroom c) (of_int 1) else DEFAULT_HEADROOM).

Record AbrController := mkAbr { config : AbrConfig; current_kbps : Z }.

Definition abr_new (c : AbrConfig) : AbrController := let c := sanitised c in mkAbr c (ceiling_kbps c).

(** What an estimate is good for, within the bounds. *)
Definition bounded (c : AbrConfig) (observed_kbps : Z) : Z :=
  let usable := if ceiling_kbps c <=? observed_kbps then ceiling_kbps c
                else as_u32 (fmul (of_int observed_kbps) (headroom c)) in
  clamp usable (floor_kbps c) (ceiling_kbps c).

Definition observe (a : AbrController) (observed_kbps : Z) : AbrController * Z :=
  let c := config a in
  let bounded := bounded c observed_kbps in
  let current :=
    if bounded <? current_kbps a then bounded
    else Z.max (Z.min (sat_add u32_max (current_kbps a) (increase_step_kbps c)) bounded) (floor_kbps c) in
  (mkAbr c current, current).

Definition observe_loss (a : AbrController) (loss_fraction : f64) : AbrController * Z :=
  let loss := if is_finite loss_fraction then fclamp loss_fraction (of_int 0) (of_int 1) else of_int 0 in
  let current :=
    if fle HIGH_LOSS_FRACTION loss then
      let reduced := as_u32 (fmul (of_int (current_kbps a)) (fsub (of_int 1) (fmul LOSS_DECREASE_K loss))) in
      clamp reduced (floor_kbps (config a)) (ceiling_kbps (config a))
    else current_kbps a in
  (mkAbr (config a) current, current).

(** ** The gate *)

Definition MIN_APPLY_INTERVAL_MS : Z := 900.
Definition APPLY_HYSTERESIS_FRAC : f64 := decimal 10 100.
Definition EMERGENCY_DECREASE_FRAC : f64 := decimal 20 100.

Record ApplyGate := mkGate { last_sent_kbps : Z; last_sent_ms : Z; has_baseline : bool }.

Definition gate_new : ApplyGate := mkGate 0 0 false.

Definition delta_frac (target last : Z) : f64 :=
  fdiv (SFabs (fsub (of_int target) (of_int last))) (of_int (Z.max last 1)).

Definition next_candidate (g : ApplyGate) (target_kbps now_ms : Z) : option Z :=
  if target_kbps =? 0 then None
  else if negb (has_baseline g) then Some target_kbps
  else
    let delta := delta_frac target_kbps (last_sent_kbps g) in
    let emergency_decrease := (target_kbps <? last_sent_kbps g) && fle EMERGENCY_DECREASE_FRAC delta in
    if negb emergency_decrease && (sat_sub now_ms (last_sent_ms g) <? MIN_APPLY_INTERVAL_MS) then None
    else if flt delta APPLY_HYSTERESIS_FRAC then None
    else Some target_kbps.

Definition record_sent (kbps now_ms : Z) : ApplyGate := mkGate kbps now_ms true.

Definition seed_initial_bitrate (g : ApplyGate) (kbps now_ms : Z) : ApplyGate :=
  if 0 <? kbps then record_sent kbps now_ms else g.

Definition should_send (g : ApplyGate) (target_kbps now_ms : Z) : ApplyGate * option Z :=
  match next_candidate g target_kbps now_ms with
  | Some k => (record_sent k now_ms, Some k)
  | None => (g, None)
  end.

(** ** The machine *)

Inductive BitrateApplyOutcome : Type :=
| OutcomeSent
| OutcomeUnsupported (reason : string)
| OutcomeFailed (error : string).

Inductive AckStatus : Type := Dispatched | ValidationFailed | EncoderApplied | EncoderFailed | UnsupportedParam.

Definition ack_from_wire (raw : Z) : option AckStatus :=
  if raw =? 0 then Some Dispatched else if raw =? 1 then Some ValidationFailed else if raw =? 2 then Some EncoderApplied
  else if raw =? 3 then Some EncoderFailed else if raw =? 4 then Some UnsupportedParam else None.

Inductive AckTier : Type := TierDispatched | EncoderConfirmed.

Definition ACK_TIMEOUT_MS : Z := 3000.

Inductive BitrateApplyStatus : Type :=
| Idle
| SentUnacknowledged (kbps : Z)
| PendingAck (kbps sent_at_ms : Z)
| Applied (requested_kbps applied_kbps : Z) (tier : AckTier)
| ApplyFailed (requested_kbps : Z) (status : AckStatus)
| AckTimeout (kbps : Z)
| Unsupported (requested_kbps : Z) (reason : string)
| Failed (requested_kbps : Z) (error : string).

Definition is_terminal (s : BitrateApplyStatus) : bool := match s with Unsupported _ _ => true | _ => false end.

Record BitrateApplyMachine := mkMachine {
  gate : ApplyGate; status : BitrateApplyStatus; last_attempt_ms : option Z; ack_supported : bool
}.

Definition machine_new (initial_bitrate_kbps : Z) : BitrateApplyMachine :=
  mkMachine (seed_initial_bitrate gate_new initial_bitrate_kbps 0) Idle None false.

Definition enable_ack_tracking (m : BitrateApplyMachine) : BitrateApplyMachine :=
  mkMachine (gate m) (status m) (last_attempt_ms m) true.

Definition set_status (m : BitrateApplyMachine) (s : BitrateApplyStatus) : BitrateApplyMachine :=
  mkMachine (gate m) s (last_attempt_ms m) (ack_supported m).

Definition handle_ack (m : BitrateApplyMachine) (applied_kbps : Z) (a : AckStatus) :
    BitrateApplyMachine * option BitrateApplyStatus :=
  match status m with
  | PendingAck kbps _ =>
      let s := match a with
        | Dispatched => Applied kbps applied_kbps TierDispatched
        | EncoderApplied => Applied kbps applied_kbps EncoderConfirmed
        | ValidationFailed | EncoderFailed | UnsupportedParam => ApplyFailed kbps a
        end in
      (set_status m s, Some s)
  | _ => (m, None)
  end.

(** The end of [poll], the candidate passed and the host's answer to it. *)
Definition settle (m : BitrateApplyMachine) (candidate now_ms : Z) (o : BitrateApplyOutcome) : BitrateApplyMachine :=
  match o with
  | OutcomeSent =>
      mkMachine (record_sent candidate now_ms)
        (if ack_supported m then PendingAck candidate now_ms else SentUnacknowledged candidate) (Some now_ms) (ack_supported m)
  | OutcomeUnsupported reason => mkMachine (gate m) (Unsupported candidate reason) (Some now_ms) (ack_supported m)
  | OutcomeFailed error => mkMachine (gate m) (Failed candidate error) (Some now_ms) (ack_supported m)
  end.

(** Also the call made to the host, if any. *)
Definition poll (m : BitrateApplyMachine) (target_kbps now_ms : Z) (apply : Z -> BitrateApplyOutcome) :
    BitrateApplyMachine * option BitrateApplyStatus * option (Z * BitrateApplyOutcome) :=
  if is_terminal (status m) then (m, None, None)
  else match status m with
  | PendingAck kbps sent_at_ms =>
      if ACK_TIMEOUT_MS <=? sat_sub now_ms sent_at_ms
      then let m := set_status m (AckTimeout kbps) in (m, Some (status m), None)
      else (m, None, None)
  | s =>
      if match s with Failed _ _ => true | _ => false end &&
         from_option (fun last => sat_sub now_ms last <? MIN_APPLY_INTERVAL_MS) false (last_attempt_ms m)
      then (m, None, None)
      else match next_candidate (gate m) target_kbps now_ms with
        | None => (m, None, None)
        | Some candidate =>
            let o := apply candidate in
            let m := settle m candidate now_ms o in
            (m, Some (status m), Some (candidate, o))
        end
  end.

(** ** The target tracks the estimate *)

Inductive abr_op : Type := Remb (observed_kbps : Z) | LossReport (loss_fraction : f64).

Definition abr_step (a : AbrController) (op : abr_op) : AbrController :=
  match op with Remb k => (observe a k).1 | LossReport f => (observe_loss a f).1 end.

Definition abr_run (c : AbrConfig) (ops : list abr_op) : AbrController := foldl abr_step (abr_new c) ops.

Record abr_ok (a : AbrController) : Prop := {
  ao_bounds : 1 <= floor_kbps (config a) <= ceiling_kbps (config a) /\ ceiling_kbps (config a) <= u32_max;
  ao_step : 1 <= increase_step_kbps (config a);
  ao_current : floor_kbps (config a) <= current_kbps a <= ceiling_kbps (config a)
}.

Lemma bounded_range a k : abr_ok a -> floor_kbps (config a) <= bounded (config a) k <= ceiling_kbps (config a).
Proof. intros [Hb _ _]. unfold bounded, clamp. lia. Qed.

Lemma observe_spec a k : abr_ok a ->
  let T := bounded (config a) k in
  current_kbps (observe a k).1 = (if T <? current_kbps a then T else Z.min (current_kbps a + increase_step_kbps (config a)) T) /\
  config (observe a k).1 = config a.
Proof.
  intros H. pose proof (bounded_range a k H) as HT. destruct H as [Hb Hs Hc]. cbn. split; [|done].
  destruct (Z.ltb_spec (bounded (config a) k) (current_kbps a)); [done|]. unfold sat_add, u32_max in *. lia.
Qed.

Lemma abr_step_ok a op : abr_ok a -> abr_ok (abr_step a op) /\ config (abr_step a op) = config a.
Proof.
  intros H. destruct op as [k|f]; cbn [abr_step].
  - pose proof (bounded_range a k H) as HT. destruct (observe_spec a k H) as [E Ec]. destruct H as [Hb Hs Hc].
    split; [|done]. split; rewrite Ec; try done. rewrite E. destruct (Z.ltb_spec (bounded (config a) k) (current_kbps a)); lia.
  - destruct H as [Hb Hs Hc]. unfold observe_loss. cbn. split; [|done]. split; cbn; try done. case_match; [unfold clamp; lia|done].
Qed.

Lemma abr_run_ok c ops : in_u32 (ceiling_kbps c) -> abr_ok (abr_run c ops) /\ config (abr_run c ops) = sanitised c.
Proof.
  intros Hc. unfold abr_run. induction ops as [|op ops IH] using rev_ind.
  - unfold in_u in Hc. split; [|done]. split; cbn; unfold clamp, u32_max; lia.
  - rewrite foldl_app. cbn [foldl]. destruct IH as [H E]. destruct (abr_step_ok _ op H) as [H' E']. split; [done|]. by rewrite E'.
Qed.

Lemma abr_steady a k n : abr_ok a -> current_kbps a <= bounded (config a) k ->
  current_kbps (foldl abr_step a (replicate n (Remb k))) =
  Z.min (current_kbps a + Z.of_nat n * increase_step_kbps (config a)) (bounded (config a) k).
Proof.
  revert a. induction n as [|n IH]; intros a H Hle; [cbn; lia|]. cbn [replicate foldl].
  destruct (abr_step_ok a (Remb k) H) as [H' E']. destruct (observe_spec a k H) as [Eo _]. cbn [abr_step] in *.
  destruct (Z.ltb_spec (bounded (config a) k) (current_kbps a)); [lia|]. pose proof (ao_step a H).
  rewrite IH; [|done|rewrite E', Eo; lia]. rewrite E', Eo. nia.
Qed.

(** A configuration that needs no correction. *)
Definition sane (c : AbrConfig) : Prop :=
  1 <= floor_kbps c <= ceiling_kbps c /\ ceiling_kbps c <= u32_max /\ 1 <= increase_step_kbps c /\
  is_finite (headroom c) = true /\ (0 < value (headroom c) <= 1)%Q.

(** What an estimate bears: the ceiling from the ceiling on, below it the headroom's
    share of the estimate, rounded down and kept between floor and ceiling. *)
Definition bears (c : AbrConfig) (observed_kbps T : Z) : Prop :=
  (ceiling_kbps c <= observed_kbps -> T = ceiling_kbps c) /\
  (observed_kbps < ceiling_kbps c -> exists q, floor_of (inject_Z observed_kbps * value (headroom c)) q /\
     T = Z.max (floor_kbps c) (Z.min q (ceiling_kbps c))).

Lemma clamp_max_min x lo hi : lo <= hi -> clamp x lo hi = Z.max lo (Z.min x hi).
Proof. unfold clamp. lia. Qed.

Lemma default_headroom : valid DEFAULT_HEADROOM /\ is_finite DEFAULT_HEADROOM = true /\ (0 < value DEFAULT_HEADROOM <= 1)%Q.
Proof. by split_and!. Qed.

Lemma sanitised_sane c : in_u32 (ceiling_kbps c) -> valid (headroom c) -> sane (sanitised c) /\ (sane c -> sanitised c = c).
Proof.
  intros [H1 H2] Hv. unfold sane, sanitised. cbn [floor_kbps ceiling_kbps increase_step_kbps headroom].
  split.
  - split; [unfold clamp; lia|]. split; [unfold u32_max; lia|]. split; [lia|].
    destruct (is_finite (headroom c)) eqn:Hf; cbn [andb]; [|apply default_headroom].
    destruct (flt (of_int 0) (headroom c)) eqn:Hp; [|apply default_headroom]. apply flt_zero in Hp; [|done].
    pose proof (flt_one _ Hv Hf Hp) as Hle. unfold fmin. rewrite (finite_not_nan _ Hf).
    change (is_nan (of_int 1)) with false. destruct (flt (of_int 1) (headroom c)); [by split|]. split; [done|]. split; [done|].
    apply Qnot_lt_le. intros H%Hle. done.
  - intros (Hb & _ & Hs & Hf & Hp & Hh). pose proof (flt_one _ Hv Hf Hp) as Hle. destruct c as [ce fl st h].
    cbn [floor_kbps ceiling_kbps increase_step_kbps headroom] in *.
    assert (E : flt (of_int 0) h = true) by (apply (flt_value (of_int 0) h); try done; by apply Qlt_le_weak).
    rewrite Hf, E. cbn [andb]. f_equal; [lia|unfold clamp; lia|lia|]. unfold fmin.
    rewrite (finite_not_nan _ Hf). change (is_nan (of_int 1)) with false.
    destruct (flt (of_int 1) h); [|done]. exfalso. revert Hh. apply Qlt_not_le. by apply Hle.
Qed.

Lemma bounded_bears c k : sane c -> in_u32 k -> bears c k (bounded c k).
Proof.
  intros (Hb & Hm & _ & Hf & Hp & Hh) [Hk1 Hk2]. unfold bears, bounded. rewrite clamp_max_min by lia.
  destruct (Z.leb_spec (ceiling_kbps c) k); split; intros; try lia. eexists. split; [|reflexivity].
  apply product_floor; [unfold u32_max; lia|done|lra|split; lra|split; lra].
Qed.

(** What is kept under a loss. *)
Lemma kept_share f : is_finite f = true -> (0 <= value f <= 1)%Q ->
  let s := fsub (of_int 1) (fmul LOSS_DECREASE_K f) in
  is_finite s = true /\ (0 <= value s)%Q /\
  (- (1 # 500000000000000) <= value s - (1 - value f * (1 # 2)) <= 1 # 500000000000000)%Q.
Proof.
  intros Hf Hr s. assert (EK : (value LOSS_DECREASE_K == 1 # 2)%Q) by done. assert (E1 : (value (of_int 1) == 1)%Q) by done.
  assert (Eb : (pow2 (-1070) <= 1 # 1125899906842624000)%Q) by (apply (Qle_trans _ (pow2 (-60))); [apply pow2_le; lia|discriminate]).
  pose proof (pow2_pos (-1070)) as E0.
  assert (E64 : (pow2 64 == 18446744073709551616 # 1)%Q) by done.
  destruct (fmul_rounded LOSS_DECREASE_K f) as (Mf & M0 & Mn); try done; [lra|rewrite EK, E64; lra|].
  unfold near in Mn. rewrite EK in Mn. change (pow2 (-50)) with (1 # 1125899906842624)%Q in Mn.
  destruct (fsub_rounded (of_int 1) (fmul LOSS_DECREASE_K f)) as (Sf & S0 & Sn); [done|done|done|lra|lra|].
  unfold near in Sn. rewrite E1 in Sn. change (pow2 (-50)) with (1 # 1125899906842624)%Q in Sn. fold s in Sf, S0, Sn.
  split; [done|]. split; [done|]. split; lra.
Qed.

(** A loss of a tenth or more takes half of it off the target. *)
Lemma observe_loss_spec a f : abr_ok a -> valid f -> is_finite f = true -> (0 <= value f <= 1)%Q ->
  ((value f < value (decimal 10 100))%Q -> (observe_loss a f).2 = current_kbps a) /\
  ((value (decimal 10 100) <= value f)%Q -> exists q,
     floor_of (inject_Z (current_kbps a) * (1 - value f * (1 # 2))) q /\ q <= current_kbps a /\
     (observe_loss a f).2 = Z.max (floor_kbps (config a)) (Z.min q (ceiling_kbps (config a)))).
Proof.
  intros [Hb _ Hc] Hv Hf Hr. unfold observe_loss. rewrite Hf.
  assert (E : fclamp f (of_int 0) (of_int 1) = f).
  { unfold fclamp. destruct (flt f (of_int 0)) eqn:E0.
    - apply (flt_value f (of_int 0)) in E0; try done; [|lra]. exfalso. assert (E : (value (of_int 0) == 0)%Q) by done. lra.
    - destruct (flt (of_int 1) f) eqn:E1; [|done]. apply (flt_value (of_int 1) f) in E1; try done; [|lra]. exfalso.
      assert (E : (value (of_int 1) == 1)%Q) by done. lra. }
  rewrite E. change (decimal 10 100) with HIGH_LOSS_FRACTION. cbn [snd].
  assert (Hle : fle HIGH_LOSS_FRACTION f = true <-> (value HIGH_LOSS_FRACTION <= value f)%Q) by (apply fle_value; try done; lra).
  destruct (fle HIGH_LOSS_FRACTION f); split; intros H.
  - exfalso. apply (Qlt_not_le _ _ H). by apply Hle.
  - eexists. rewrite clamp_max_min by lia. assert (Hfl : floor_of (inject_Z (current_kbps a) * (1 - value f * (1 # 2)))
      (as_u32 (fmul (of_int (current_kbps a)) (fsub (of_int 1) (fmul LOSS_DECREASE_K f))))).
    2:{ split; [exact Hfl|]. split; [|done]. apply (floor_of_le _ _ _ Hfl).
        assert (0 <= inject_Z (current_kbps a))%Q by (change 0%Q with (inject_Z 0); rewrite <- Zle_Qle; lia). nra. }
    destruct (kept_share f Hf Hr) as (Kf & K0 & Kn). apply product_floor; [unfold u32_max in *; lia|done..|split; lra].
  - done.
  - exfalso. apply Hle in H. done.
Qed.

(** C25: Whatever estimates and losses are reported, the target stays between the floor
    and the ceiling. An estimate is good for the ceiling from there on, and below it
    for the headroom's share of it, rounded down (up to a thousandth) and kept within
    the bounds: less than the target is followed at once, more by at most a step, and
    under a steady estimate the target reaches it in as many observations as there
    are steps between floor and ceiling, and stays. A reported loss below a tenth
    changes nothing, one of a tenth or more takes half of the lost share off the
    target, down to the floor. The configuration is sane, and the given one when that is. *)
Theorem abr_tracks c ops k n :
  in_u32 (ceiling_kbps c) -> valid (headroom c) -> in_u32 k -> (0 < n)%nat ->
  let s := sanitised c in let a := abr_run c ops in
  ceiling_kbps s - floor_kbps s <= Z.of_nat n * increase_step_kbps s ->
  sane s /\ (sane c -> s = c) /\
  floor_kbps s <= current_kbps a <= ceiling_kbps s /\
  (exists T, bears s k T /\
     (T < current_kbps a -> (observe a k).2 = T) /\
     (current_kbps a <= T -> (observe a k).2 = Z.min (current_kbps a + increase_step_kbps s) T) /\
     current_kbps (abr_run c (ops ++ [Remb k])) = (observe a k).2 /\
     current_kbps (abr_run c (ops ++ replicate n (Remb k))) = T) /\
  (forall f, valid f -> is_finite f = true -> (0 <= value f <= 1)%Q ->
     current_kbps (abr_run c (ops ++ [LossReport f])) = (observe_loss a f).2 /\
     ((value f < value (decimal 10 100))%Q -> (observe_loss a f).2 = current_kbps a) /\
     ((value (decimal 10 100) <= value f)%Q -> exists q,
        floor_of (inject_Z (current_kbps a) * (1 - value f * (1 # 2))) q /\ q <= current_kbps a /\
        (observe_loss a f).2 = Z.max (floor_kbps s) (Z.min q (ceiling_kbps s)))) /\
  (forall f, is_finite f = false -> (observe_loss a f).2 = current_kbps a).
Proof.
  intros Hc Hv Hk Hn s a Hsteps. destruct (abr_run_ok c ops Hc) as [H E]. fold a s in H, E.
  destruct (sanitised_sane c Hc Hv) as [Hs Hid]. fold s in Hs, Hid. pose proof (bounded_range a k H) as HT.
  destruct (observe_spec a k H) as [Eo Ec].
  change (current_kbps (observe a k).1) with (observe a k).2 in Eo. rewrite E in Eo, Ec, HT.
  pose proof (ao_current a H) as Hcur. pose proof (ao_step a H) as Hst. pose proof (ao_bounds a H) as Hb. rewrite E in Hcur, Hst, Hb.
  assert (Hsnoc : forall op, abr_run c (ops ++ [op]) = abr_step a op) by (intros; unfold abr_run; by rewrite foldl_app).
  split_and!; [done|done|lia|lia| | |].
  - exists (bounded s k). split; [by apply bounded_bears|]. rewrite Eo.
    split; [intros; by destruct (Z.ltb_spec (bounded s k) (current_kbps a)); [|lia]|].
    split; [intros; destruct (Z.ltb_spec (bounded s k) (current_kbps a)); lia|].
    split; [by rewrite Hsnoc|].
    unfold abr_run. rewrite foldl_app. fold (abr_run c ops). fold a. destruct n as [|n]; [lia|]. cbn [replicate foldl].
    change (observe a k).2 with (current_kbps (abr_step a (Remb k))) in Eo.
    destruct (abr_step_ok a (Remb k) H) as [H1 E1]. rewrite abr_steady; [|done|]; rewrite E1, E, Eo;
      destruct (Z.ltb_spec (bounded s k) (current_kbps a)); nia.
  - intros f Hfv Hf Hr. split; [by rewrite Hsnoc|]. rewrite <- E. by apply observe_loss_spec.
  - intros f Hf. unfold observe_loss. by rewrite Hf.
Qed.

(** At 20 Mbit/s a bad estimate is followed down to nine tenths of it, a good one back
    up step by step, and a loss of a quarter takes an eighth off. *)
Lemma abr_tracks_witness :
  let c := abr_from_ceiling 20000 in
  current_kbps (abr_run c ([Remb 5000] ++ replicate 18 (Remb 30000))) = 20000 /\
  (exists T, bears (sanitised c) 5000 T /\ current_kbps (abr_run c ([LossReport (decimal 1 4)] ++ replicate 18 (Remb 5000))) = T) /\
  exists q, floor_of (inject_Z 20000 * (1 - value (decimal 1 4) * (1 # 2))) q /\ q <= 20000 /\
    current_kbps (abr_run c [LossReport (decimal 1 4)]) = Z.max 2000 (Z.min q 20000).
Proof.
  intros c. split; [|split].
  - destruct (abr_tracks c [Remb 5000] 30000 18 ltac:(done) ltac:(done) ltac:(by_decide) ltac:(lia) ltac:(done)) as (_ & _ & _ & (T & HT & _ & _ & _ & E) & _).
    rewrite E. apply HT. done.
  - destruct (abr_tracks c [LossReport (decimal 1 4)] 5000 18 ltac:(done) ltac:(done) ltac:(by_decide) ltac:(lia) ltac:(done)) as (_ & _ & _ & (T & HT & _ & _ & _ & E) & _).
    exists T. by split.
  - destruct (abr_tracks c [] 5000 18 ltac:(done) ltac:(done) ltac:(by_decide) ltac:(lia) ltac:(done)) as (_ & _ & _ & _ & H & _).
    destruct (H (decimal 1 4) ltac:(done) ltac:(done) ltac:(by split)) as (E & _ & H2). rewrite <- E in H2. exact (H2 ltac:(discriminate)).
Defined.

(** ** Calls to the host *)

Inductive machine_op : Type :=
| Poll (target_kbps now_ms : Z) (apply : Z -> BitrateApplyOutcome)
| Ack (applied_kbps : Z) (a : AckStatus)
| EnableAck.

Inductive machine_event : Type :=
| Called (kbps now_ms : Z) (o : BitrateApplyOutcome)
| AckTaken
| TimedOut (now_ms : Z)
| Armed.

(** Events newest first. *)
Definition machine_step (s : BitrateApplyMachine * list machine_event) (op : machine_op) :
    BitrateApplyMachine * list machine_event :=
  let '(m, h) := s in
  match op with
  | Poll target now apply =>
      let '(m, r, call) := poll m target now apply in
      (m, match call, r with
          | Some (k, o), _ => Called k now o :: h
          | None, Some _ => TimedOut now :: h
          | None, None => h
          end)
  | Ack applied a => let '(m, r) := handle_ack m applied a in (m, if r then AckTaken :: h else h)
  | EnableAck => (enable_ack_tracking m, Armed :: h)
  end.

Definition machine_run (initial : Z) (ops : list machine_op) : BitrateApplyMachine * list machine_event :=
  foldl machine_step (machine_new initial, []) ops.

Fixpoint latest_call (h : list machine_event) : option (Z * BitrateApplyOutcome) :=
  match h with [] => None | Called _ t o :: _ => Some (t, o) | _ :: h => latest_call h end.

(** What was last sent, and when: the last call the host's library queued, or the
    bitrate the stream started with. *)
Fixpoint baseline (initial : Z) (h : list machine_event) : option (Z * Z) :=
  match h with
  | [] => if 0 <? initial then Some (initial, 0) else None
  | Called k t OutcomeSent :: _ => Some (k, t)
  | _ :: h => baseline initial h
  end.

Fixpoint armed (h : list machine_event) : bool :=
  match h with [] => false | Armed :: _ => true | _ :: h => armed h end.

(** The request whose acknowledgement is awaited. *)
Fixpoint in_flight (h : list machine_event) : option (Z * Z) :=
  match h with
  | [] => None
  | Called k t OutcomeSent :: h => if armed h then Some (k, t) else None
  | Armed :: h => in_flight h
  | _ => None
  end.

(** Worth sending: a tenth away, and an interval later unless it is an emergency. *)
Definition worthwhile (k0 t0 k now : Z) : Prop :=
  flt (delta_frac k k0) APPLY_HYSTERESIS_FRAC = false /\
  (MIN_APPLY_INTERVAL_MS <= sat_sub now t0 \/ (k < k0 /\ fle EMERGENCY_DECREASE_FRAC (delta_frac k k0) = true)).

Definition call_ok (initial : Z) (h : list machine_event) (k now : Z) : Prop :=
  k <> 0 /\ in_flight h = None /\
  match latest_call h with
  | Some (t, OutcomeUnsupported _) => False
  | Some (t, OutcomeFailed _) => MIN_APPLY_INTERVAL_MS <= sat_sub now t
  | _ => True
  end /\
  match baseline initial h with Some (k0, t0) => worthwhile k0 t0 k now | None => True end.

Fixpoint events_ok (initial : Z) (h : list machine_event) : Prop :=
  match h with
  | [] => True
  | e :: h =>
      match e with
      | Called k now _ => call_ok initial h k now
      | AckTaken => is_Some (in_flight h)
      | TimedOut now => match in_flight h with Some (_, t) => ACK_TIMEOUT_MS <= sat_sub now t | None => False end
      | Armed => True
      end /\ events_ok initial h
  end.

Record machine_inv (initial : Z) (h : list machine_event) (m : BitrateApplyMachine) : Prop := {
  mi_gate : match baseline initial h with
    | Some (k, t) => gate m = record_sent k t
    | None => has_baseline (gate m) = false
    end;
  mi_flight : match in_flight h with
    | Some (k, t) => status m = PendingAck k t
    | None => match status m with PendingAck _ _ => False | _ => True end
    end;
  mi_latest : match latest_call h with
    | Some (t, OutcomeUnsupported _) => is_terminal (status m) = true
    | Some (t, OutcomeFailed _) => last_attempt_ms m = Some t /\ exists k e, status m = Failed k e
    | _ => True
    end;
  mi_armed : ack_supported m = armed h;
  mi_events : events_ok initial h
}.

Lemma next_candidate_spec g target now k : next_candidate g target now = Some k ->
  k = target /\ k <> 0 /\ (has_baseline g = true -> worthwhile (last_sent_kbps g) (last_sent_ms g) k now).
Proof.
  unfold next_candidate. destruct (Z.eqb_spec target 0); [done|]. destruct (has_baseline g); cbn [negb].
  2:{ intros [= <-]. by repeat split. }
  destruct (negb _ && _) eqn:E1; [done|]. destruct (flt _ APPLY_HYSTERESIS_FRAC) eqn:E2; [done|]. intros Hk. apply (inj Some) in Hk as <-.
  split; [done|]. split; [done|]. intros _. split; [done|]. apply andb_false_iff in E1 as [E1|E1].
  - right. apply negb_false_iff, andb_true_iff in E1 as [E1%Z.ltb_lt E3]. done.
  - left. by apply Z.ltb_ge in E1.
Qed.

Lemma poll_call_inv initial h m k now o :
  machine_inv initial h m -> status m <> PendingAck k now -> call_ok initial h k now ->
  machine_inv initial (Called k now o :: h) (settle m k now o).
Proof.
  intros [Hg Hf Hl Ha He] _ Hc. destruct o; split; cbn; try done; rewrite ?Ha; try (by destruct (armed h)).
  by eauto.
Qed.

Lemma poll_inv initial h m target now apply : machine_inv initial h m ->
  let '(m', h') := machine_step (m, h) (Poll target now apply) in machine_inv initial h' m'.
Proof.
  intros H. pose proof H as [Hg Hf Hl Ha He]. cbn [machine_step]. unfold poll. destruct (is_terminal (status m)) eqn:Eterm; [done|].
  destruct (in_flight h) as [[k0 t0]|] eqn:Ef.
  - rewrite Hf. destruct (Z.leb_spec ACK_TIMEOUT_MS (sat_sub now t0)) as [Ht|]; [|done]. cbn [set_status status].
    split; cbn; try done.
    + destruct (latest_call h) as [[t []]|]; try done. destruct Hl as (_ & ? & ? & Hl). by rewrite Hf in Hl.
    + by rewrite Ef.
  - assert (Hbody : let '(m', h') :=
      (let '(m0, r, call) :=
         (if match status m with Failed _ _ => true | _ => false end &&
            from_option (fun last => sat_sub now last <? MIN_APPLY_INTERVAL_MS) false (last_attempt_ms m)
          then (m, None, None)
          else match next_candidate (gate m) target now with
            | None => (m, None, None)
            | Some candidate =>
                (settle m candidate now (apply candidate), Some (status (settle m candidate now (apply candidate))),
                 Some (candidate, apply candidate))
            end) in
       (m0, match call, r with
            | Some (k, o), _ => Called k now o :: h
            | None, Some _ => TimedOut now :: h
            | None, None => h
            end)) in machine_inv initial h' m').
    2:{ destruct (status m); done. }
    destruct (_ && _) eqn:Efail; [done|]. destruct (next_candidate (gate m) target now) as [k|] eqn:En; [|done].
    apply next_candidate_spec in En as (-> & Hk & Hw). apply poll_call_inv; [done|by intros E; rewrite E in Hf|].
    split; [done|]. split; [done|]. split.
    + destruct (latest_call h) as [[t []]|]; try done.
      destruct Hl as (El & k & e & Es). rewrite Es, El in Efail. cbn in Efail. by apply Z.ltb_ge in Efail.
    + destruct (baseline initial h) as [[k0 t0]|]; [|done]. rewrite Hg in Hw. by apply Hw.
Qed.

Lemma machine_step_inv initial h m op : machine_inv initial h m ->
  let '(m', h') := machine_step (m, h) op in machine_inv initial h' m'.
Proof.
  intros H. destruct op as [target now apply|applied a|]; [by apply poll_inv| |].
  - cbn [machine_step]. unfold handle_ack. destruct (status m) eqn:Es; try done.
    pose proof H as [Hg Hf Hl Ha He]. assert (Ef : is_Some (in_flight h)).
    { destruct (in_flight h) as [p|]; [by eexists|]. by rewrite Es in Hf. }
    assert (Hlatest : match latest_call h with Some (_, (OutcomeUnsupported _ | OutcomeFailed _)) => False | _ => True end).
    { destruct (latest_call h) as [[t []]|]; try done; rewrite Es in Hl; [done|]. by destruct Hl as (_ & ? & ? & ?). }
    split; cbn; try done.
    + by destruct a.
    + by destruct (latest_call h) as [[t []]|].
  - destruct H as [Hg Hf Hl Ha He]. by split.
Qed.

(** C12: Whatever targets, answers and acknowledgements come, the host is called only
    with what is worth sending: a non-zero bitrate, a tenth or more from what was
    last queued or from the bitrate the stream began with, nine tenths of a second
    after it unless it cuts a fifth or more, as long after a failed attempt, never
    after the host said it cannot, and never while an acknowledgement is awaited. An
    acknowledgement is taken only for the request in flight, at most one for each,
    and is given up only three seconds after it was sent. *)
Theorem bitrate_calls_paced initial ops :
  let '(m, h) := machine_run initial ops in
  events_ok initial h /\
  (forall k t, status m = PendingAck k t <-> in_flight h = Some (k, t)) /\
  (forall k t, baseline initial h = Some (k, t) -> gate m = record_sent k t).
Proof.
  assert (H : let '(m, h) := machine_run initial ops in machine_inv initial h m).
  { unfold machine_run. induction ops as [|op ops IH] using rev_ind.
    - cbn [foldl]. unfold machine_new, seed_initial_bitrate. split; cbn; try done. by destruct (0 <? initial).
    - rewrite foldl_app. cbn [foldl]. destruct (foldl machine_step _ ops) as [m h]. by apply machine_step_inv. }
  destruct (machine_run initial ops) as [m h]. destruct H as [Hg Hf Hl Ha He]. split; [done|]. split.
  - intros k t. destruct (in_flight h) as [[k0 t0]|].
    + rewrite Hf. split; [by intros [= -> ->]|by intros [= -> ->]].
    + split; [|done]. intros E. by rewrite E in Hf.
  - intros k t E. by rewrite E in Hg.
Qed.

Example paced_calls :
  let sent := fun _ => OutcomeSent in
  let ops := [EnableAck; Poll 8000 0 sent; Poll 4000 100 sent; Poll 4000 200 sent; Ack 4000 Dispatched; Ack 4000 Dispatched;
              Poll 4100 2000 sent; Poll 5000 2000 sent; Poll 9000 4999 sent; Poll 9000 5000 sent] in
  (machine_run 8000 ops).2 =
    [TimedOut 5000; Called 5000 2000 OutcomeSent; AckTaken; Called 4000 100 OutcomeSent; Armed].
Proof. vm_compute. reflexivity. Qed.
