(* ===== verification/Supervisor.v ===== *)
(** * The supervisor of the Foundation process (app-native/src/supervisor.rs)

    The restart budget, the supervisor's lock-held sections and the spawns, kills
    and events between them, as interleaved steps of the threads that call it; with
    the child behind its trait, and the host's adapter (app-native/src/host.rs) as an
    instance. Times are nanoseconds of a monotonic clock. *)
From S2P Require Import Prelude Text.

(** ** The restart budget *)

Record RestartBudget := mkBudget { max_restarts : Z; window : Z; attempts : list Z; consecutive : Z }.

Definition budget_new (max w : Z) : RestartBudget := mkBudget max w [] 0.

(** [Instant::duration_since] saturates at zero. *)
Definition duration_since (now t : Z) : Z := sat_sub now t.

Fixpoint drop_expired (w now : Z) (l : list Z) : list Z :=
  match l with [] => [] | t :: l' => if w <=? duration_since now t then drop_expired w now l' else l end.

Definition prune (b : RestartBudget) (now : Z) : RestartBudget :=
  mkBudget (max_restarts b) (window b) (drop_expired (window b) now (attempts b)) (consecutive b).

Definition count_in_window (b : RestartBudget) (now : Z) : RestartBudget * Z :=
  let b := prune b now in (b, wrap32 (len (attempts b))).

Definition ms (n : Z) : Z := n * 1000000.

Definition record_and_check (b : RestartBudget) (now : Z) : RestartBudget * option Z :=
  let b := prune b now in
  if max_restarts b <=? wrap32 (len (attempts b)) then (b, None)
  else
    let c := sat_add u32_max (consecutive b) 1 in
    (mkBudget (max_restarts b) (window b) (attempts b ++ [now]) c,
     Some (ms (Z.shiftl 100 (Z.min (sat_sub c 1) 6)))).

Definition note_stable (b : RestartBudget) : RestartBudget :=
  mkBudget (max_restarts b) (window b) (attempts b) 0.

(** ** The child *)

(** [SupervisedChild]. The set is that of the Foundation processes the operating
    system runs; [owns] is the process a handle stands for, if it still has one, and
    [try_exit_code] gets what the system would report. *)
Class SupervisedChild (C : Type) := {
  child_pid : C -> Z;
  is_running : C -> gset Z -> bool;
  supports_graceful_stop : C -> bool;
  kill : C -> gset Z -> C * gset Z;
  try_exit_code : C -> option Z -> option Z;
  owns : C -> option Z
}.

Class SupervisedLaws (C : Type) `{!SupervisedChild C} := {
  running_owned c alive : is_running c alive = from_option (fun p => bool_decide (p ∈ alive)) false (owns c);
  kill_owned c alive : (kill c alive).2 = alive ∖ from_option (fun p => {[p]}) ∅ (owns c);
  pid_owned c p : owns c = Some p -> child_pid c = p
}.

(** [SunshineChildAdapter] of host.rs: an optional process, taken out to stop it. *)
Definition SunshineChildAdapter : Type := option Z.

#[export] Instance sunshine_child : SupervisedChild SunshineChildAdapter := {
  child_pid c := default 0 c;
  is_running c alive := from_option (fun p => bool_decide (p ∈ alive)) false c;
  supports_graceful_stop _ := false;
  kill c alive := (None, alive ∖ from_option (fun p => {[p]}) ∅ c);
  try_exit_code c code := c ≫= fun _ => code;
  owns c := c
}.

#[export] Instance sunshine_laws : SupervisedLaws SunshineChildAdapter.
Proof. split; [done..|]. intros c p H. cbn in *. by rewrite H. Qed.

(** [FakeChild] of the tests, a plain process with a cooperative stop. *)
Record FakeChild := mkFake { fake_id : Z }.

#[export] Instance fake_child : SupervisedChild FakeChild := {
  child_pid c := fake_id c;
  is_running c alive := bool_decide (fake_id c ∈ alive);
  supports_graceful_stop _ := true;
  kill c alive := (c, alive ∖ {[fake_id c]});
  try_exit_code _ code := code;
  owns c := Some (fake_id c)
}.

#[export] Instance fake_laws : SupervisedLaws FakeChild.
Proof. split; [done..|]. intros c p H. cbn in *. by injection H. Qed.

(** ** The supervisor *)

Inductive SupervisorState : Type := Stopped | Starting | Healthy | Degraded | Restarting | Failed.

#[export] Instance supervisor_state_eq : EqDecision SupervisorState.
Proof. solve_decision. Defined.

Inductive SupervisorEvent : Type :=
| Spawned (pid : Z)
| Terminal (pid : Z) (exit_code : option Z)
| RestartBudgetExhausted.

Definition STABILITY_WINDOW : Z := ms 30000.

(** [{:?}] of an [Option<i32>]. *)
Definition debug_code (code : option Z) : text :=
  match code with None => lit "None" | Some c => lit "Some(" ++ dec c ++ lit ")" end.

Definition exited_error (pid : Z) (code : option Z) : text :=
  lit "foundation exited (pid " ++ dec pid ++ lit ", code " ++ debug_code code ++ lit ")".

Section Supervision.
Context {C : Type} `{!SupervisedChild C}.

Record Inner := mkInner {
  state : SupervisorState;
  child : option C;
  budget : RestartBudget;
  last_error : option text;
  embedded_server_alive : bool;
  restart_not_before : option Z;
  spawned_at : option Z;
  stable_recorded : bool;
  spawning : bool
}.

Definition with_budget (b : RestartBudget) : Inner := mkInner Stopped None b None true None None false false.

Definition set_state (s : Inner) (st : SupervisorState) : Inner :=
  mkInner st (child s) (budget s) (last_error s) (embedded_server_alive s) (restart_not_before s)
    (spawned_at s) (stable_recorded s) (spawning s).

Definition set_not_before (s : Inner) (t : option Z) : Inner :=
  mkInner (state s) (child s) (budget s) (last_error s) (embedded_server_alive s) t
    (spawned_at s) (stable_recorded s) (spawning s).

Definition set_budget (s : Inner) (b : RestartBudget) : Inner :=
  mkInner (state s) (child s) b (last_error s) (embedded_server_alive s) (restart_not_before s)
    (spawned_at s) (stable_recorded s) (spawning s).

Definition set_spawning (s : Inner) (f : bool) : Inner :=
  mkInner (state s) (child s) (budget s) (last_error s) (embedded_server_alive s) (restart_not_before s)
    (spawned_at s) (stable_recorded s) f.

(** A child leaves its slot. *)
Definition clear_child (s : Inner) (err : option text) : Inner :=
  mkInner (state s) None (budget s) err (embedded_server_alive s) (restart_not_before s)
    None (stable_recorded s) (spawning s).

Definition derive_up_state (s : Inner) : SupervisorState :=
  if embedded_server_alive s then Healthy else Degraded.

(** What a thread does when it has emitted an event: return (the result of a
    [poll]), or take the lock again, in [poll_at] and in [stop]. *)
Inductive resumption : Type :=
| Return (r : option SupervisorState)
| Recheck (now : Z)
| FinishStop.

(** Where a thread is in a call: the calls, and the points between the sections
    that hold the lock. *)
Inductive thread : Type :=
| Start | Poll (now : Z) | Stop | NoteAlive (alive : bool) | Snapshot
| Spawning (at_ : option Z)
| Commit (r : result C text) (now : Z)
| Emit (e : SupervisorEvent) (k : resumption)
| Resume (k : resumption).

(** What the environment answers in a step: the clock, the processes that exit
    before or during it, the exit code reported, and the outcome of a spawn. *)
Record answers := mkAnswers {
  clock : Z;
  died : gset Z;
  exit_code : option Z;
  outcome : result C text
}.

Definition start_section (s : Inner) : Inner * thread :=
  if (if child s then true else false) || spawning s then (s, Resume (Return None))
  else (set_state (set_spawning s true) Starting, Spawning None).

(** [record_and_check] and what either answer does, with the event if it is final. *)
Definition budget_section (s : Inner) (now : Z) : Inner * option SupervisorEvent :=
  let '(b, r) := record_and_check (budget s) now in
  let s := set_budget s b in
  match r with
  | Some backoff => (set_not_before (set_state s Restarting) (Some (now + backoff)), None)
  | None => (set_state s Failed, Some RestartBudgetExhausted)
  end.

Definition emitting (e : option SupervisorEvent) (k : resumption) : thread :=
  match e with Some e => Emit e k | None => Resume k end.

Definition commit_spawn_result (s : Inner) (r : result C text) (now : Z) : Inner * thread :=
  let s := set_spawning s false in
  match r with
  | Ok c =>
      let s' := mkInner (derive_up_state s) (Some c) (budget s) None (embedded_server_alive s)
                  (restart_not_before s) (Some now) false false in
      (s', Emit (Spawned (child_pid c)) (Return (Some (state s'))))
  | Err e =>
      let s := mkInner (state s) (child s) (budget s) (Some e) (embedded_server_alive s)
                 (restart_not_before s) (spawned_at s) (stable_recorded s) (spawning s) in
      if decide (state s = Restarting) then
        let '(s, ev) := budget_section s now in (s, emitting ev (Return (Some (state s))))
      else (set_state s Failed, Resume (Return (Some Failed)))
  end.

Definition note_section (s : Inner) (alive : bool) : Inner :=
  let s := mkInner (state s) (child s) (budget s) (last_error s) alive (restart_not_before s)
             (spawned_at s) (stable_recorded s) (spawning s) in
  match child s, state s with
  | Some _, (Healthy | Degraded) => set_state s (derive_up_state s)
  | _, _ => s
  end.

(** The part of [poll_at] on a child found running. *)
Definition poll_running (s : Inner) (now : Z) : Inner :=
  let settled := negb (stable_recorded s) &&
    from_option (fun at_ => STABILITY_WINDOW <=? duration_since now at_) false (spawned_at s) in
  let s := if settled
    then mkInner (state s) (child s) (note_stable (budget s)) (last_error s) (embedded_server_alive s)
           (restart_not_before s) (spawned_at s) true (spawning s)
    else s in
  set_state s (derive_up_state s).

Definition poll_section (s : Inner) (alive : gset Z) (now : Z) (code : option Z) : Inner * thread :=
  match child s with
  | Some c =>
      if is_running c alive
      then let s := poll_running s now in (s, Resume (Return (Some (state s))))
      else
        let code := try_exit_code c code in
        (clear_child s (Some (exited_error (child_pid c) code)), Emit (Terminal (child_pid c) code) (Recheck now))
  | None =>
      if (if decide (state s = Restarting) then spawning s else true) then (s, Resume (Return (Some (state s))))
      else if negb (from_option (fun t => t <=? now) true (restart_not_before s)) then (s, Resume (Return (Some (state s))))
      else (set_spawning s true, Spawning (Some now))
  end.

(** The wait for a cooperative child is in the processes that have exited. *)
Definition stop_section (s : Inner) (alive : gset Z) (code : option Z) : Inner * gset Z * thread :=
  match child s with
  | Some c =>
      let '(c, alive) := if is_running c alive then kill c alive else (c, alive) in
      (clear_child s (last_error s), alive, Emit (Terminal (child_pid c) (try_exit_code c code)) FinishStop)
  | None => (set_not_before (set_state s Stopped) None, alive, Resume (Return None))
  end.

(** ** Interleavings *)

Record world := mkWorld { inner : Inner; alive : gset Z; threads : list thread; log : list SupervisorEvent }.

Definition world_new (b : RestartBudget) : world := mkWorld (with_budget b) ∅ [] [].

(** One step of a thread; the processes that exit do so first. *)
Definition thread_step (s : Inner) (ps : gset Z) (t : thread) (a : answers)
    : Inner * gset Z * thread * list SupervisorEvent :=
  let ps := ps ∖ died a in
  match t with
  | Start => let '(s, t) := start_section s in (s, ps, t, [])
  | Poll now => let '(s, t) := poll_section s ps now (exit_code a) in (s, ps, t, [])
  | Stop => let '(s, ps, t) := stop_section s ps (exit_code a) in (s, ps, t, [])
  | NoteAlive b => (note_section s b, ps, Resume (Return None), [])
  | Snapshot => (set_budget s (count_in_window (budget s) (clock a)).1, ps, Resume (Return None), [])
  | Spawning at_ =>
      (s, match outcome a with Ok c => ps ∪ from_option (fun p => {[p]}) ∅ (owns c) | Err _ => ps end,
       Commit (outcome a) (default (clock a) at_), [])
  | Commit r now => let '(s, t) := commit_spawn_result s r now in (s, ps, t, [])
  | Emit e k => (s, ps, Resume k, [e])
  | Resume (Recheck now) =>
      let '(s, ev) := budget_section s now in (s, ps, emitting ev (Return (Some (state s))), [])
  | Resume FinishStop => (set_not_before (set_state s Stopped) None, ps, Resume (Return None), [])
  | Resume (Return r) => (s, ps, t, [])
  end.

Definition call (t : thread) : Prop :=
  match t with Start | Poll _ | Stop | NoteAlive _ | Snapshot => True | _ => False end.

Inductive world_step : world -> world -> Prop :=
| Call w t : call t -> world_step w (mkWorld (inner w) (alive w) (threads w ++ [t]) (log w))
| Run w i t a s ps t' ev :
    threads w !! i = Some t -> thread_step (inner w) (alive w) t a = (s, ps, t', ev) ->
    world_step w (mkWorld s ps (<[i := t']> (threads w)) (ev ++ log w)).

(** ** Counting over the threads *)

Fixpoint total {A} (f : A -> Z) (l : list A) : Z := match l with [] => 0 | x :: l => f x + total f l end.

Lemma total_app {A} (f : A -> Z) l k : total f (l ++ k) = total f l + total f k.
Proof. induction l as [|x l IH]; cbn; [done|]. rewrite IH. lia. Qed.

Lemma total_insert {A} (f : A -> Z) l i x y : l !! i = Some x -> total f (<[i := y]> l) = total f l - f x + f y.
Proof.
  revert i. induction l as [|z l IH]; intros [|i] H; cbn in *; try done.
  - injection H as ->. lia.
  - rewrite IH by done. lia.
Qed.

Lemma total_nonneg {A} (f : A -> Z) l : (forall x, 0 <= f x) -> 0 <= total f l.
Proof. intros H. induction l as [|x l IH]; cbn; [done|]. specialize (H x). lia. Qed.

Lemma total_zero {A} (f : A -> Z) l : Forall (fun x => f x = 0) l -> total f l = 0.
Proof. induction 1 as [|x l H _ IH]; cbn; lia. Qed.

Lemma total_at {A} (f : A -> Z) l i x : (forall x, 0 <= f x) -> l !! i = Some x -> f x <= total f l.
Proof.
  intros H. revert i. induction l as [|z l IH]; intros [|i] E; cbn in *; try done.
  - injection E as ->. pose proof (total_nonneg f l H). lia.
  - apply IH in E. specialize (H z). lia.
Qed.

Lemma total_two {A} (f : A -> Z) l i j x y :
  (forall x, 0 <= f x) -> l !! i = Some x -> l !! j = Some y -> i <> j -> f x + f y <= total f l.
Proof.
  intros H. revert i j. induction l as [|z l IH]; intros [|i] [|j] Hx Hy Hn; cbn in *; try done.
  - injection Hx as ->. pose proof (total_at f l j y H Hy). lia.
  - injection Hy as ->. pose proof (total_at f l i x H Hx). lia.
  - pose proof (H z). enough (f x + f y <= total f l) by lia. apply (IH i j); [done..|congruence].
Qed.

(** In flight: between the claim of the slot and the commit. *)
Definition in_flight (t : thread) : Z := match t with Spawning _ | Commit _ _ => 1 | _ => 0 end.

(** About to leave the state that an absent child calls for. *)
Definition settling (t : thread) : bool :=
  match t with Emit _ (Recheck _ | FinishStop) | Resume (Recheck _ | FinishStop) => true | _ => false end.

Definition spawned_event (e : SupervisorEvent) : Z := match e with Spawned _ => 1 | _ => 0 end.
Definition terminal_event (e : SupervisorEvent) : Z := match e with Terminal _ _ => 1 | _ => 0 end.

(** The events of a kind that a thread has still to emit. *)
Definition pending (f : SupervisorEvent -> Z) (t : thread) : Z := match t with Emit e _ => f e | _ => 0 end.

Definition up (st : SupervisorState) : bool := match st with Healthy | Degraded => true | _ => false end.

Definition tracked (s : Inner) : Z := if child s then 1 else 0.

(** The events of a kind, emitted or to be emitted. *)
Definition announced (f : SupervisorEvent -> Z) (w : world) : Z :=
  total f (log w) + total (pending f) (threads w).

Record world_ok (w : world) : Prop := {
  ok_flight : total in_flight (threads w) = if spawning (inner w) then 1 else 0;
  ok_exclusive : spawning (inner w) = true -> child (inner w) = None;
  ok_owned p : p ∈ alive w ->
    (exists c, child (inner w) = Some c /\ owns c = Some p) \/
    (exists i c now, threads w !! i = Some (Commit (Ok c) now) /\ owns c = Some p);
  ok_up : child (inner w) = None -> up (state (inner w)) = true -> exists i t, threads w !! i = Some t /\ settling t = true;
  ok_events : announced spawned_event w = announced terminal_event w + tracked (inner w)
}.

Context `{!SupervisedLaws C}.

(** ** One step, locally *)

Definition owned_by (s : Inner) (p : Z) : Prop := exists c, child s = Some c /\ owns c = Some p.
Definition carried_by (t : thread) (p : Z) : Prop := exists c now, t = Commit (Ok c) now /\ owns c = Some p.

(** What a step may rely on... *)
Record step_pre (s : Inner) (ps : gset Z) (t : thread) : Prop := {
  pre_exclusive : spawning s = true -> child s = None;
  pre_owned : spawning s = false -> forall p, p ∈ ps -> owned_by s p;
  pre_flight : in_flight t = 1 -> spawning s = true /\ forall p, p ∈ ps -> carried_by t p
}.

(** ... and what it must give. *)
Record step_post (s : Inner) (ps : gset Z) (t : thread) (s' : Inner) (ps' : gset Z) (t' : thread)
    (ev : list SupervisorEvent) : Prop := {
  post_flight : in_flight t' - in_flight t = (if spawning s' then 1 else 0) - (if spawning s then 1 else 0);
  post_exclusive : spawning s' = true -> child s' = None;
  post_owned p : p ∈ ps' -> owned_by s' p \/ carried_by t' p \/ (p ∈ ps /\ child s' = child s /\ in_flight t = 0);
  post_up : child s' = None -> up (state s') = true ->
    settling t' = true \/ (child s = None /\ up (state s) = true /\ settling t = false);
  post_events : total spawned_event ev + pending spawned_event t' - pending spawned_event t =
    total terminal_event ev + pending terminal_event t' - pending terminal_event t + tracked s' - tracked s
}.

Lemma budget_section_spec s now s' e :
  budget_section s now = (s', e) ->
  child s' = child s /\ spawning s' = spawning s /\ up (state s') = false /\
  (e = None \/ e = Some RestartBudgetExhausted).
Proof.
  unfold budget_section. destruct (record_and_check _ _) as [b [k|]]; intros H; apply pair_eq in H as [<- <-]; cbn; auto.
Qed.

(** A step that leaves slot, flag and processes as they are. *)
Lemma thread_step_quiet s ps t s' t' dead ev :
  in_flight t = 0 -> in_flight t' = 0 -> step_pre s ps t ->
  child s' = child s -> spawning s' = spawning s ->
  (child s = None -> up (state s') = true -> settling t' = true \/ up (state s) = true /\ settling t = false) ->
  total spawned_event ev + pending spawned_event t' = pending spawned_event t ->
  total terminal_event ev + pending terminal_event t' = pending terminal_event t ->
  step_post s ps t s' (ps ∖ dead) t' ev.
Proof.
  intros Ht Ht' Hp Hc Hs Hu He1 He2. destruct Hp as [H1 H2 H3]. split.
  - rewrite Ht, Ht', Hs. lia.
  - rewrite Hs, Hc. done.
  - intros p Hin. right. right. apply elem_of_difference in Hin as [Hin _]. done.
  - intros Hn Hup. rewrite Hc in Hn. destruct (Hu Hn Hup) as [?|[? ?]]; auto.
  - unfold tracked. rewrite Hc. lia.
Qed.

Lemma start_post s ps dead s' t' :
  start_section s = (s', t') -> step_pre s ps Start -> step_post s ps Start s' (ps ∖ dead) t' [].
Proof.
  unfold start_section. intros E H. destruct (child s) as [c|] eqn:Ec; [|destruct (spawning s) eqn:Es]; cbn in E;
    apply pair_eq in E as [<- <-]; [apply thread_step_quiet; try done; rewrite Ec; auto..|].
  split; cbn; rewrite ?Es, ?Ec; try done.
  - intros p Hin. apply elem_of_difference in Hin as [Hin _]. auto.
  - unfold tracked. cbn. by rewrite Ec.
Qed.

Lemma poll_running_spec s now :
  child (poll_running s now) = child s /\ spawning (poll_running s now) = spawning s.
Proof. unfold poll_running. by destruct (negb _ && _). Qed.

Lemma owned_gone s ps t c :
  step_pre s ps t -> child s = Some c -> forall p, p ∈ ps -> owns c = Some p.
Proof.
  intros [H1 H2 _] Hc p Hp. destruct (spawning s) eqn:Es; [by rewrite H1 in Hc|].
  destruct (H2 eq_refl p Hp) as (c' & Hc' & Ho). congruence.
Qed.

Lemma poll_post s ps dead now code s' t' :
  poll_section s (ps ∖ dead) now code = (s', t') -> step_pre s ps (Poll now) ->
  step_post s ps (Poll now) s' (ps ∖ dead) t' [].
Proof.
  unfold poll_section. intros E H. destruct (child s) as [c|] eqn:Ec.
  - destruct (is_running c (ps ∖ dead)) eqn:Er; apply pair_eq in E as [<- <-].
    + destruct (poll_running_spec s now) as [H1 H2]. apply thread_step_quiet; try done. rewrite Ec. done.
    + pose proof (owned_gone _ _ _ _ H Ec) as Ho. pose proof (pre_exclusive _ _ _ H) as Hx.
      split; cbn; try done; [by destruct (spawning s)| |auto|unfold tracked; cbn; rewrite Ec; lia].
      intros p Hp. exfalso. rewrite running_owned in Er. apply elem_of_difference in Hp as Hp'.
      rewrite (Ho p) in Er by apply Hp'. cbn in Er. by apply bool_decide_eq_false_1 in Er.
  - assert (Hq : forall r, step_post s ps (Poll now) s (ps ∖ dead) (Resume (Return r)) [])
      by (intros r; apply thread_step_quiet; try done; rewrite Ec; auto).
    destruct (decide (state s = Restarting)) as [Hs|]; [|by apply pair_eq in E as [<- <-]].
    destruct (spawning s) eqn:Es; [by apply pair_eq in E as [<- <-]|].
    destruct (negb _); apply pair_eq in E as [<- <-]; [done|].
    split; cbn; rewrite ?Es, ?Ec; try done; [| |unfold tracked; cbn; by rewrite Ec].
    + intros p Hin. apply elem_of_difference in Hin as [Hin _]. auto.
    + rewrite Hs. done.
Qed.

Lemma stop_post s ps dead code s' ps' t' :
  stop_section s (ps ∖ dead) code = (s', ps', t') -> step_pre s ps Stop ->
  step_post s ps Stop s' ps' t' [].
Proof.
  unfold stop_section. intros E H. destruct (child s) as [c|] eqn:Ec.
  - pose proof (owned_gone _ _ _ _ H Ec) as Ho. pose proof (pre_exclusive _ _ _ H) as Hx.
    assert (Hempty : forall p, p ∉ ps').
    { intros p Hp. destruct (is_running c (ps ∖ dead)) eqn:Er.
      - destruct (kill c (ps ∖ dead)) as [c' k] eqn:Ek. apply pair_eq in E as [E <-]. apply pair_eq in E as [_ <-].
        pose proof (kill_owned c (ps ∖ dead)) as Hk. rewrite Ek in Hk. cbn in Hk. subst k.
        apply elem_of_difference in Hp as [Hp Hn]. apply elem_of_difference in Hp as [Hp _].
        rewrite (Ho p Hp) in Hn. cbn in Hn. set_solver.
      - apply pair_eq in E as [E <-]. apply pair_eq in E as [_ <-]. apply elem_of_difference in Hp as Hp'.
        rewrite running_owned, (Ho p) in Er by apply Hp'. cbn in Er. by apply bool_decide_eq_false_1 in Er. }
    assert (exists pid k, s' = clear_child s (last_error s) /\ t' = Emit (Terminal pid k) FinishStop) as (pid & k & -> & ->)
      by (destruct (if is_running c (ps ∖ dead) then _ else _); apply pair_eq in E as [E <-]; apply pair_eq in E as [<- _]; eauto).
    split; cbn; try done; [by destruct (spawning s)| |auto|unfold tracked; cbn; rewrite Ec; lia].
    intros p Hp. by destruct (Hempty p).
  - apply pair_eq in E as [E <-]. apply pair_eq in E as [<- <-]. apply thread_step_quiet; done.
Qed.

Lemma commit_post s ps dead r now s' t' :
  commit_spawn_result s r now = (s', t') -> step_pre s ps (Commit r now) ->
  step_post s ps (Commit r now) s' (ps ∖ dead) t' [].
Proof.
  unfold commit_spawn_result. intros E H. pose proof (pre_exclusive _ _ _ H) as Hx.
  destruct (pre_flight _ _ _ H eq_refl) as [Hs Hown].
  assert (Hp : forall p, p ∈ ps ∖ dead -> exists c, r = Ok c /\ owns c = Some p).
  { intros p [Hp _]%elem_of_difference. destruct (Hown p Hp) as (c & n & Ec & Ho). exists c. split; [congruence|done]. }
  destruct r as [c|e]; [apply pair_eq in E as [<- <-]; split; cbn; rewrite ?Hs; try done|].
  - intros p (c' & [= <-] & Ho)%Hp. left. by exists c.
  - unfold tracked. cbn. by rewrite (Hx Hs).
  - assert (Hno : forall p, p ∉ ps ∖ dead) by (intros p (c & ? & _)%Hp; done). cbn in E.
    destruct (decide (state s = Restarting)) as [Hr|Hr].
    + destruct (budget_section _ now) as [s1 ev] eqn:Eb. apply pair_eq in E as [<- <-].
      apply budget_section_spec in Eb as (Hc & Hsp & Hu & Hev). cbn in Hc, Hsp.
      split; rewrite ?Hsp, ?Hc, ?Hu, ?Hs; try done; try (unfold tracked; rewrite Hc); destruct Hev as [-> | ->];
        cbn; try done; try lia; intros p Hin; by destruct (Hno p).
    + apply pair_eq in E as [<- <-]. split; cbn; rewrite ?Hs; try done; [|unfold tracked; cbn; lia].
      intros p Hin. by destruct (Hno p).
Qed.

Lemma note_section_spec s b :
  child (note_section s b) = child s /\ spawning (note_section s b) = spawning s /\
  up (state (note_section s b)) = up (state s).
Proof.
  unfold note_section. cbn. destruct (child s); cbn; [|done].
  destruct (state s); cbn; unfold derive_up_state; cbn; by destruct b.
Qed.

Lemma spawning_post s ps dead at_ a :
  step_pre s ps (Spawning at_) ->
  step_post s ps (Spawning at_) s
    (match outcome a with Ok c => ps ∖ dead ∪ from_option (fun p => {[p]}) ∅ (owns c) | Err _ => ps ∖ dead end)
    (Commit (outcome a) (default (clock a) at_)) [].
Proof.
  intros H. destruct (pre_flight _ _ _ H eq_refl) as [Hs Hown]. pose proof (pre_exclusive _ _ _ H) as Hx.
  assert (Hno : forall p, p ∉ ps) by (intros p Hp; by destruct (Hown p Hp) as (? & ? & ? & _)).
  split; [cbn; lia|done| |auto|cbn; lia].
  intros p Hp. right. left. destruct (outcome a) as [c|e].
  - exists c, (default (clock a) at_). split; [done|]. apply elem_of_union in Hp as [[Hp _]%elem_of_difference|Hp].
    + by destruct (Hno p).
    + destruct (owns c) as [q|]; cbn in Hp; [by apply elem_of_singleton in Hp as ->|by apply not_elem_of_empty in Hp].
  - apply elem_of_difference in Hp as [Hp _]. by destruct (Hno p).
Qed.

Lemma thread_step_post s ps t a s' ps' t' ev :
  thread_step s ps t a = (s', ps', t', ev) -> step_pre s ps t -> step_post s ps t s' ps' t' ev.
Proof.
  intros E H. destruct t as [|now| |b| |at_|r now|e k|[r|now|]]; cbn [thread_step] in E.
  - destruct (start_section s) as [s1 t1] eqn:E1. simplify_eq/=. by eapply start_post.
  - destruct (poll_section _ _ _ _) as [s1 t1] eqn:E1. simplify_eq/=. by eapply poll_post.
  - destruct (stop_section _ _ _) as [[s1 p1] t1] eqn:E1. simplify_eq/=. by eapply stop_post.
  - simplify_eq/=. destruct (note_section_spec s b) as (H1 & H2 & H3). apply thread_step_quiet; try done. rewrite H3. auto.
  - simplify_eq/=. apply thread_step_quiet; try done. auto.
  - simplify_eq/=. by apply spawning_post.
  - destruct (commit_spawn_result _ _ _) as [s1 t1] eqn:E1. simplify_eq/=. by eapply commit_post.
  - simplify_eq/=. apply thread_step_quiet; cbn; try done; try lia. destruct k; auto.
  - simplify_eq/=. apply thread_step_quiet; try done. auto.
  - destruct (budget_section _ _) as [s1 e1] eqn:E1. simplify_eq/=.
    apply budget_section_spec in E1 as (Hc & Hsp & Hu & Hev).
    apply thread_step_quiet; try done; [..|rewrite Hu; done| |]; by destruct Hev as [-> | ->].
  - simplify_eq/=. apply thread_step_quiet; done.
Qed.

(** ** All steps *)

Lemma in_flight_range t : 0 <= in_flight t <= 1.
Proof. by destruct t. Qed.

Lemma in_flight_nonneg t : 0 <= in_flight t.
Proof. apply in_flight_range. Qed.

Lemma world_pre w i t : world_ok w -> threads w !! i = Some t -> step_pre (inner w) (alive w) t.
Proof.
  intros [H1 H2 H3 H4 H5] Hi. split; [done| |].
  - intros Hs p Hp. destruct (H3 p Hp) as [?|(j & c & now & Hj & Ho)]; [done|]. rewrite Hs in H1.
    pose proof (total_at in_flight _ _ _ in_flight_nonneg Hj) as Ht. cbn in Ht. lia.
  - intros Hf. pose proof (total_at in_flight _ _ _ in_flight_nonneg Hi) as Ht. rewrite Hf, H1 in Ht.
    destruct (spawning (inner w)) eqn:Es; [|lia]. split; [done|]. intros p Hp.
    destruct (H3 p Hp) as [(c & Hc & _)|(j & c & now & Hj & Ho)]; [by rewrite H2 in Hc|].
    destruct (decide (j = i)) as [->|Hn]; [exists c, now; split; [congruence|done]|].
    pose proof (total_two in_flight _ _ _ _ _ in_flight_nonneg Hj Hi Hn) as Ht2. rewrite Hf, H1 in Ht2. cbn in Ht2. lia.
Qed.

Lemma run_ok w i t s ps t' ev :
  world_ok w -> threads w !! i = Some t -> step_post (inner w) (alive w) t s ps t' ev ->
  world_ok (mkWorld s ps (<[i := t']> (threads w)) (ev ++ log w)).
Proof.
  intros [H1 H2 H3 H4 H5] Hi [P1 P2 P3 P4 P5]. assert (Hl : (i < length (threads w))%nat) by by eapply lookup_lt_Some.
  split; cbn [inner alive threads log].
  - rewrite (total_insert in_flight _ _ _ _ Hi), H1. lia.
  - done.
  - intros p Hp. destruct (P3 p Hp) as [?|[(c & now & -> & Ho)|(Hin & Hc & Hf)]]; [by left| |].
    + right. exists i, c, now. by rewrite list_lookup_insert_eq.
    + rewrite Hc. destruct (H3 p Hin) as [?|(j & c & now & Hj & Ho)]; [by left|]. right. exists j, c, now.
      split; [|done]. rewrite list_lookup_insert_ne; [done|]. intros ->. rewrite Hi in Hj. by injection Hj as ->.
  - intros Hn Hu. destruct (P4 Hn Hu) as [Hs|(Hn' & Hu' & Hs)].
    + exists i, t'. by rewrite list_lookup_insert_eq.
    + destruct (H4 Hn' Hu') as (j & tj & Hj & Hsj). exists j, tj. split; [|done].
      rewrite list_lookup_insert_ne; [done|]. intros ->. congruence.
  - unfold announced in *. cbn [log threads] in *. rewrite !total_app.
    rewrite !(total_insert (pending _) _ _ _ _ Hi). lia.
Qed.

Lemma supervised_step_ok w w' : world_step w w' -> world_ok w -> world_ok w'.
Proof.
  intros [w0 t Hc|w0 i t a s ps t' ev Hi E] H.
  - destruct H as [H1 H2 H3 H4 H5]. split; cbn [inner alive threads log]; try done.
    + rewrite total_app, H1. destruct t; try done; cbn; lia.
    + intros p Hp. destruct (H3 p Hp) as [?|(j & c & now & Hj & Ho)]; [by left|]. right. exists j, c, now.
      split; [by apply lookup_app_l_Some|done].
    + intros Hn Hu. destruct (H4 Hn Hu) as (j & tj & Hj & Hsj). exists j, tj. split; [by apply lookup_app_l_Some|done].
    + unfold announced in *. cbn [log threads] in *. rewrite !total_app. cbn [total].
      destruct t; try done; cbn [pending]; lia.
  - eapply run_ok; [done..|]. eapply thread_step_post; [done|]. by apply world_pre with i.
Qed.

Lemma world_reachable_ok b w : rtc world_step (world_new b) w -> world_ok w.
Proof.
  intros H. assert (H0 : world_ok (world_new b)) by (split; cbn; try done; intros p Hp; by apply not_elem_of_empty in Hp).
  induction H as [|? ? ? Hs _ IH]; [done|]. apply IH. by eapply supervised_step_ok.
Qed.

(** Nobody is inside a call. *)
Definition quiescent (w : world) : Prop := Forall (fun t => exists r, t = Resume (Return r)) (threads w).

Lemma quiescent_total w (f : thread -> Z) : quiescent w -> (forall r, f (Resume (Return r)) = 0) -> total f (threads w) = 0.
Proof. intros H Hf. apply total_zero. eapply Forall_impl; [exact H|]. by intros t [r ->]. Qed.

Lemma one_process w p q : world_ok w -> p ∈ alive w -> q ∈ alive w -> p = q.
Proof.
  intros H Hp Hq. pose proof H as [H1 H2 H3 _ _]. destruct (spawning (inner w)) eqn:Es.
  - destruct (H3 p Hp) as [(c & Hc & _)|(i & c & now & Hi & Ho)]; [by rewrite H2 in Hc|].
    pose proof (world_pre _ _ _ H Hi) as [_ _ Hf]. destruct (Hf eq_refl) as [_ Hall].
    destruct (Hall q Hq) as (c' & n & [= <- <-] & Hq'). congruence.
  - assert (Hown : forall p, p ∈ alive w -> owned_by (inner w) p).
    { intros r Hr. destruct (H3 r Hr) as [?|(i & c & now & Hi & Ho)]; [done|].
      pose proof (total_at in_flight _ _ _ in_flight_nonneg Hi) as Ht. cbn in Ht. lia. }
    destruct (Hown p Hp) as (c & Hc & Ho), (Hown q Hq) as (c' & Hc' & Ho'). congruence.
Qed.

(** C34: Under every interleaving of calls to the supervisor and of exits of processes:
    there is at most one Foundation process, and it is the tracked child's or that
    of the one spawn in flight; when no call is in progress every process is
    tracked, every spawn announced once and every end once, and the supervisor
    does not say that it is up without a child. *)
Theorem one_foundation b w :
  rtc world_step (world_new b) w ->
  (forall p q, p ∈ alive w -> q ∈ alive w -> p = q) /\
  total in_flight (threads w) <= 1 /\
  (quiescent w ->
     (forall p, p ∈ alive w -> owned_by (inner w) p) /\
     total spawned_event (log w) = total terminal_event (log w) + tracked (inner w) /\
     (up (state (inner w)) = true -> child (inner w) <> None)).
Proof.
  intros H%world_reachable_ok. split; [intros p q; by apply one_process|]. pose proof H as [H1 H2 H3 H4 H5].
  split; [rewrite H1; by destruct (spawning _)|]. intros Hq. split_and!.
  - intros p Hp. destruct (H3 p Hp) as [?|(i & c & now & Hi & Ho)]; [done|].
    by apply (Forall_lookup_1 _ _ _ _ Hq) in Hi as [? [=]].
  - unfold announced in H5. rewrite !(quiescent_total w) in H5 by done. lia.
  - intros Hu Hn. destruct (H4 Hn Hu) as (i & t & Hi & Hs). by apply (Forall_lookup_1 _ _ _ _ Hq) in Hi as [? ->].
Qed.

(** ** Schedules *)

Inductive action : Type := DoCall (t : thread) | DoRun (i : nat) (a : answers).

Definition act_world (w : world) (act : action) : world :=
  match act with
  | DoCall t => mkWorld (inner w) (alive w) (threads w ++ [t]) (log w)
  | DoRun i a =>
      match threads w !! i with
      | Some t => let '(s, ps, t', ev) := thread_step (inner w) (alive w) t a in
                  mkWorld s ps (<[i := t']> (threads w)) (ev ++ log w)
      | None => w
      end
  end.

Lemma act_world_reach acts w :
  Forall (fun a => match a with DoCall t => call t | _ => True end) acts -> rtc world_step w (foldl act_world w acts).
Proof.
  revert w. induction acts as [|act acts IH]; intros w Ha; [done|]. apply Forall_cons in Ha as [Hc Ha]. cbn [foldl].
  destruct act as [t|i a].
  - eapply rtc_l; [by apply Call|]. by apply IH.
  - specialize (IH (act_world w (DoRun i a)) Ha). cbn [act_world] in *. destruct (threads w !! i) as [t|] eqn:Ht; [|done].
    destruct (thread_step (inner w) (alive w) t a) as [[[s ps] t'] ev] eqn:E. eapply rtc_l; [|exact IH]. by eapply Run.
Qed.

(** A [stop] that nothing else runs beside: what the steps of a thread at [i] do. *)
Definition stop_alone (i : nat) (a1 a2 a3 : answers) : list action := [DoCall Stop; DoRun i a1; DoRun i a2; DoRun i a3].

(** A step of the last thread. *)
Lemma act_last w ts t a s ps t' ev :
  threads w = ts ++ [t] -> thread_step (inner w) (alive w) t a = (s, ps, t', ev) ->
  act_world w (DoRun (length ts) a) = mkWorld s ps (ts ++ [t']) (ev ++ log w).
Proof.
  intros H E. cbn. rewrite H, lookup_app_r, Nat.sub_diag by lia. cbn. rewrite E. f_equal.
  rewrite insert_app_r_alt by lia. by rewrite Nat.sub_diag.
Qed.

Lemma quiescent_empty b w : rtc world_step (world_new b) w -> quiescent w -> child (inner w) = None -> alive w = ∅.
Proof.
  intros Hr Hq Hn. apply set_eq. intros p. split; [|by intros ?%not_elem_of_empty]. intros Hp.
  destruct (ok_owned _ (world_reachable_ok _ _ Hr) p Hp) as [(c & Hc & _)|(i & c & now & Hi & Ho)]; [congruence|].
  by apply (Forall_lookup_1 _ _ _ _ Hq) in Hi as [? [=]].
Qed.

Lemma stop_section_child s ps code c :
  child s = Some c -> exists pid k ps', stop_section s ps code = (clear_child s (last_error s), ps', Emit (Terminal pid k) FinishStop).
Proof. intros Hc. unfold stop_section. rewrite Hc. destruct (if is_running c ps then _ else _). eauto. Qed.

(** A [stop] beside which nothing runs ends in [Stopped], without a child and
    without a Foundation process, and announces the end of the child it had. *)
Theorem stop_alone_stops b w a1 a2 a3 :
  rtc world_step (world_new b) w -> quiescent w ->
  let w' := foldl act_world w (stop_alone (length (threads w)) a1 a2 a3) in
  state (inner w') = Stopped /\ child (inner w') = None /\ alive w' = ∅ /\
  total terminal_event (log w') = total terminal_event (log w) + tracked (inner w).
Proof.
  intros Hr Hq w'.
  assert (exists s ps ev r, w' = mkWorld s ps (threads w ++ [Resume (Return r)]) (ev ++ log w) /\ state s = Stopped /\
    child s = None /\ total terminal_event ev = tracked (inner w)) as (s & ps & ev & r & E & Hs & Hc & Hev).
  { subst w'. unfold stop_alone. cbn [foldl]. set (w0 := act_world w (DoCall Stop)). unfold tracked.
    destruct (child (inner w)) as [c|] eqn:Ec.
    - destruct (stop_section_child (inner w) (alive w ∖ died a1) (exit_code a1) c Ec) as (pid & k & ps & E).
      assert (E1 : thread_step (inner w0) (alive w0) Stop a1 = (clear_child (inner w) (last_error (inner w)), ps,
        Emit (Terminal pid k) FinishStop, [])) by (cbn [thread_step w0 act_world inner alive]; by rewrite E).
      rewrite (act_last w0 (threads w) Stop a1 _ _ _ _ eq_refl E1).
      erewrite (act_last _ (threads w) _ a2) by reflexivity. erewrite (act_last _ (threads w) _ a3) by reflexivity.
      cbn [inner alive log threads]. by eexists _, _, [Terminal pid k], _.
    - assert (E : stop_section (inner w) (alive w ∖ died a1) (exit_code a1)
        = (set_not_before (set_state (inner w) Stopped) None, alive w ∖ died a1, Resume (Return None)))
        by (unfold stop_section; by rewrite Ec).
      assert (E1 : thread_step (inner w0) (alive w0) Stop a1 = (set_not_before (set_state (inner w) Stopped) None,
        alive w ∖ died a1, Resume (Return None), [])) by (cbn [thread_step w0 act_world inner alive]; by rewrite E).
      rewrite (act_last w0 (threads w) Stop a1 _ _ _ _ eq_refl E1).
      erewrite (act_last _ (threads w) _ a2) by reflexivity. erewrite (act_last _ (threads w) _ a3) by reflexivity.
      cbn [inner alive log threads]. by eexists _, _, [], _. }
  assert (alive w' = ∅).
  { apply (quiescent_empty b); [|by rewrite E; apply Forall_app; repeat constructor; eauto|by rewrite E].
    etrans; [exact Hr|]. apply act_world_reach. by repeat constructor. }
  rewrite E in *. cbn [inner alive log] in *. rewrite total_app, Hev. split_and!; try done. lia.
Qed.
End Supervision.

Arguments action : clear implicits.
Arguments world : clear implicits.
Arguments answers : clear implicits.

(** ** The rolling window *)

Inductive budget_op : Type := Record_ (now : Z) | Count (now : Z) | Stable.

(** The budget and the times of the restarts it granted, oldest first. *)
Definition budget_step (st : RestartBudget * list Z) (op : budget_op) : RestartBudget * list Z :=
  match op with
  | Record_ now => let '(b, r) := record_and_check st.1 now in (b, if r then st.2 ++ [now] else st.2)
  | Count now => ((count_in_window st.1 now).1, st.2)
  | Stable => (note_stable st.1, st.2)
  end.

Definition budget_run (max w : Z) (ops : list budget_op) : RestartBudget * list Z :=
  foldl budget_step (budget_new max w, []) ops.

(** The clock of the calls does not go back. *)
Fixpoint ordered (from : Z) (ops : list budget_op) : Prop :=
  match ops with
  | [] => True
  | (Record_ t | Count t) :: ops => from <= t /\ ordered t ops
  | Stable :: ops => ordered from ops
  end.

Definition within (s w : Z) (l : list Z) : list Z := filter (fun a => s < a <= s + w) l.

(** The granted restarts of [(now - w, now]] are among those kept. *)
Record budget_ok (max w now : Z) (st : RestartBudget * list Z) : Prop := {
  bo_max : max_restarts st.1 = max;
  bo_window : window st.1 = w;
  bo_kept : len (attempts st.1) <= max;
  bo_split : exists old, st.2 = old ++ attempts st.1 /\ Forall (fun a => a <= now - w) old;
  bo_past : Forall (fun a => a <= now) st.2;
  bo_within s : len (within s w st.2) <= max
}.

Lemma drop_expired_spec w now l :
  Forall (fun a => a <= now) l -> exists k, l = k ++ drop_expired w now l /\ Forall (fun a => a <= now - w) k.
Proof.
  induction l as [|t l IH]; intros H; [by exists []|]. apply Forall_cons in H as [Ht H]. cbn [drop_expired].
  unfold duration_since, sat_sub. destruct (Z.leb_spec w (Z.max 0 (now - t))) as [Hw|]; [|by exists []].
  destruct (IH H) as (k & E & Hk). exists (t :: k). split; [by cbn; f_equal|]. constructor; [lia|done].
Qed.

Lemma within_app s w l k : within s w (l ++ k) = within s w l ++ within s w k.
Proof. apply filter_app. Qed.

Lemma within_len s w l : len (within s w l) <= len l.
Proof. unfold len. pose proof (length_filter (fun a => s < a <= s + w) l). unfold within. lia. Qed.

Lemma prune_ok max w now now' st :
  0 <= w -> now <= now' -> budget_ok max w now st ->
  budget_ok max w now' (prune st.1 now', st.2) /\
  exists old, st.2 = old ++ attempts (prune st.1 now') /\ Forall (fun a => a <= now' - w) old.
Proof.
  intros Hw Hn [H1 H2 H3 (old & E & Ho) H5 H6].
  assert (Hp : Forall (fun a => a <= now') st.2) by (eapply Forall_impl; [exact H5|]; cbn; lia).
  destruct (drop_expired_spec (window st.1) now' (attempts st.1)) as (k & Ek & Hk).
  { rewrite E in Hp. by apply Forall_app in Hp as [_ ?]. }
  assert (Hs : exists old, st.2 = old ++ attempts (prune st.1 now') /\ Forall (fun a => a <= now' - w) old).
  { exists (old ++ k). cbn. rewrite <- app_assoc, <- Ek. split; [done|]. apply Forall_app. split.
    - eapply Forall_impl; [exact Ho|]. cbn. lia.
    - by rewrite H2 in Hk. }
  split; [|done]. split; cbn; try done. rewrite Ek, len_app in H3. pose proof (len_nonneg k). lia.
Qed.

Lemma record_ok max w now st now' :
  0 <= max < 4294967296 -> 0 <= w -> now <= now' -> budget_ok max w now st ->
  budget_ok max w now' (budget_step st (Record_ now')).
Proof.
  intros Hm Hw Hn H. destruct (prune_ok max w now now' st Hw Hn H) as [H' (old & E & Ho)].
  unfold budget_step, record_and_check. set (b := prune st.1 now') in *. destruct H' as [H1 H2 H3 _ H5 H6]. cbn [fst snd] in *.
  pose proof (len_nonneg (attempts b)). rewrite H1, wrap32_id by (unfold in_u; lia).
  destruct (Z.leb_spec max (len (attempts b))); [split; cbn; eauto|]. split; cbn [fst snd max_restarts window attempts]; try done.
  - rewrite len_snoc. lia.
  - exists old. by rewrite E, app_assoc.
  - apply Forall_app. split; [done|]. by repeat constructor.
  - intros s. rewrite within_app, len_app. specialize (H6 s). unfold within at 2. rewrite filter_cons, filter_nil.
    destruct (decide (s < now' <= s + w)) as [Hs|]; [|cbn; rewrite len_nil; lia].
    rewrite E, within_app, len_app. assert (within s w old = []) as ->.
    { unfold within. destruct (filter _ old) as [|a l] eqn:Ef; [done|].
      assert (Ha : a ∈ filter (fun a => s < a <= s + w) old) by (rewrite Ef; left).
      apply list_elem_of_filter in Ha as [Ha Hin]. rewrite Forall_forall in Ho. apply Ho in Hin. lia. }
    pose proof (within_len s w (attempts b)). rewrite len_nil. change (len [now']) with 1. lia.
Qed.

Lemma budget_run_ok max w ops now st :
  0 <= max < 4294967296 -> 0 <= w -> ordered now ops -> budget_ok max w now st ->
  exists now', budget_ok max w now' (foldl budget_step st ops).
Proof.
  intros Hm Hw. revert now st. induction ops as [|op ops IH]; intros now st Ho H; [by exists now|]. cbn [foldl].
  destruct op as [t|t|]; cbn [ordered] in Ho.
  - destruct Ho as [Ht Ho]. apply (IH t); [done|]. by eapply record_ok.
  - destruct Ho as [Ht Ho]. apply (IH t); [done|]. by apply (prune_ok max w now).
  - apply (IH now); [done|]. destruct H as [H1 H2 H3 H4 H5 H6]. by split.
Qed.

(** However often restarts are asked for, counted or declared stable, no window of
    the budget's length holds more granted restarts than the budget allows. *)
Theorem restarts_bounded max w ops :
  0 <= max < 4294967296 -> 0 <= w -> ordered 0 ops ->
  forall s, len (within s w (budget_run max w ops).2) <= max.
Proof.
  intros Hm Hw Ho. destruct (budget_run_ok max w ops 0 (budget_new max w, []) Hm Hw Ho) as (now & H).
  - split; cbn; try done; [by rewrite len_nil; lia|by exists []|intros s; rewrite len_nil; lia].
  - exact (bo_within _ _ _ _ H).
Qed.

(** ** Runs of the host's supervisor *)

Definition quiet : answers SunshineChildAdapter := mkAnswers 0 ∅ None (Err (lit "busy")).
Definition spawns (p : Z) : answers SunshineChildAdapter := mkAnswers 0 ∅ None (Ok (Some p)).

Definition host_budget : RestartBudget := budget_new 3 (ms 60000).

(** [start] alone. *)
Definition started : list (action SunshineChildAdapter) :=
  [DoCall Start; DoRun 0 quiet; DoRun 0 (spawns 7); DoRun 0 quiet; DoRun 0 quiet].

(** A [stop] that falls into the spawn of a [start] is undone by its commit: every
    call has returned, [stop] the last but one, and the child is there. *)
Example stop_in_spawn :
  let w := foldl act_world (world_new host_budget)
    [DoCall Start; DoRun 0 quiet; DoCall Stop; DoRun 1 quiet; DoRun 0 (spawns 7); DoRun 0 quiet; DoRun 0 quiet] in
  threads w = [Resume (Return (Some Healthy)); Resume (Return None)] /\ child (inner w) = Some (Some 7) /\
  bool_decide (alive w = {[7]}) = true.
Proof. split_and!; vm_compute; reflexivity. Qed.

(** A [stop] of the host's child announces the end of process 0, whatever process it
    announced when it started: [kill] has taken the process out of the adapter. *)
Example stop_announces_zero :
  log (foldl act_world (world_new host_budget) (started ++ stop_alone 1 quiet quiet quiet)) = [Terminal 0 None; Spawned 7].
Proof. vm_compute. reflexivity. Qed.

(** After the start, and a child that then exits and is found dead. *)
Definition crash : answers SunshineChildAdapter := mkAnswers 0 {[7]} (Some 3) (Err (lit "busy")).

Lemma one_foundation_witness :
  let w := foldl act_world (world_new host_budget) (started ++ [DoCall (Poll 5); DoRun 1 crash; DoRun 1 quiet; DoRun 1 quiet]) in
  rtc world_step (world_new host_budget) w /\ state (inner w) = Restarting /\
  restart_not_before (inner w) = Some (5 + ms 100) /\
  ((forall p q, p ∈ alive w -> q ∈ alive w -> p = q) /\
   total in_flight (threads w) <= 1 /\
   (quiescent w ->
      (forall p, p ∈ alive w -> owned_by (inner w) p) /\
      total spawned_event (log w) = total terminal_event (log w) + tracked (inner w) /\
      (up (state (inner w)) = true -> child (inner w) <> None))).
Proof.
  intros w. assert (H : rtc world_step (world_new host_budget) w) by (apply act_world_reach; by repeat constructor).
  split_and!; [exact H|vm_compute; reflexivity..|apply (one_foundation host_budget w H)|apply (one_foundation host_budget w H)|].
  apply (one_foundation host_budget w H).
Defined.
