(* ===== verification/Redact.v ===== *)
(** * Redacting a child's log lines (app-native/src/supervisor.rs, redact)

    The scan for [key=value] and [key: value] pairs, against a declarative reading of
    a line as pairs. [str] operations work on byte offsets: cutting inside a
    character panics ([None]). *)
From Stdlib Require Import String.
From S2P Require Import Prelude Text Utf8.
Open Scope Z_scope.

(** ** Scanning *)

(** The longest prefix on which [p] holds, and what follows it. *)
Fixpoint span (p : Z -> bool) (s : text) : text * text :=
  match s with
  | [] => ([], [])
  | c :: s' => if p c then let '(a, b) := span p s' in (c :: a, b) else ([], s)
  end.

(** [char::is_whitespace], Unicode's White_Space. *)
Definition is_whitespace (c : Z) : bool :=
  ((9 <=? c) && (c <=? 13)) || (c =? 32) || (c =? 133) || (c =? 160) || (c =? 5760) ||
  ((8192 <=? c) && (c <=? 8202)) || (c =? 8232) || (c =? 8233) || (c =? 8239) || (c =? 8287) || (c =? 12288).

Definition not_whitespace (c : Z) : bool := negb (is_whitespace c).

Definition trim_start (s : text) : text := (span is_whitespace s).2.
Definition trim (s : text) : text := rev (trim_start (rev (trim_start s))).

(** [str::find] of a pattern: what is before its first occurrence, and what after. *)
Fixpoint split_at_marker (m s : text) : option (text * text) :=
  if decide (take (length m) s = m) then Some ([], drop (length m) s)
  else match s with
       | [] => None
       | c :: s => (fun ab => (c :: ab.1, ab.2)) <$> split_at_marker m s
       end.

(** [str::ends_with]. *)
Definition ends_with (s suffix : text) : bool :=
  bool_decide (drop (length s - length suffix) s = suffix /\ (length suffix <= length s)%nat).

(** [str::lines]: at newlines, without the carriage return before one. *)
Fixpoint lines_of (acc s : text) : list text :=
  match s with
  | [] => if decide (acc = []) then [] else [acc]
  | c :: s =>
      if c =? 10
      then (if decide (last acc = Some 13) then removelast acc else acc) :: lines_of [] s
      else lines_of (acc ++ [c]) s
  end.

(** ** The code *)

Definition SENSITIVE_KEYS : list text :=
  lit <$> ["password"; "passwd"; "token"; "secret"; "apikey"; "api_key"; "credential"; "cred"; "pkey";
           "private_key"; "privatekey"; "authorization"; "auth"; "cookie"; "session"]%string.

Definition trimmed_mark (c : Z) : bool := (c =? 45) || (c =? 34) || (c =? 39).

Definition key_is_sensitive (key : text) : bool :=
  let key := map ascii_lower (span trimmed_mark (trim key)).2 in
  existsb (fun s => ends_with key s || bool_decide (key = s)) SENSITIVE_KEYS.

Definition redacted : text := lit "<redacted>".

Definition is_sep (c : Z) : bool := (c =? 61) || (c =? 58).
Definition not_sep (c : Z) : bool := negb (is_sep c).

(** The last word of [s] and what is before it; the cut is one byte after the start
    of the last whitespace character, inside it when it has several. *)
Definition split_key (s : text) : option (text * text) :=
  let '(key, before) := span not_whitespace (rev s) in
  match before with
  | c :: _ => if 1 <? len (utf8_char c) then None else Some (rev before, rev key)
  | [] => Some ([], rev key)
  end.

Definition shown (key value : text) : text :=
  if key_is_sensitive key && negb (bool_decide (trim value = [])) then redacted else value.

Fixpoint redact_loop (fuel : nat) (rest : text) : option text :=
  match fuel with
  | O => None
  | S fuel =>
      let '(before_sep, after) := span not_sep rest in
      match after with
      | [] => Some rest
      | sep :: after_sep =>
          '(prefix, key) ← split_key before_sep;
          let '(leading_ws, after_ws) := span is_whitespace after_sep in
          let '(value, value_rest) := span not_whitespace after_ws in
          let out := prefix ++ key ++ [sep] ++ leading_ws ++ shown key value in
          if decide (value_rest = []) then Some out else app out <$> redact_loop fuel value_rest
      end
  end.

Definition MARKER : text := lit "Bearer ".

Definition redact_bearer (line : text) : text :=
  match split_at_marker MARKER line with
  | None => line
  | Some (prefix, after) => prefix ++ MARKER ++ redacted ++ (span not_whitespace after).2
  end.

Definition redact_line (line : text) : option text :=
  let line := redact_bearer line in redact_loop (S (length line)) line.

(** [join "\n"]. *)
Fixpoint join_lines (ls : list text) : text :=
  match ls with [] => [] | [l] => l | l :: ls => l ++ 10 :: join_lines ls end.

Definition redact (input : text) : option text := join_lines <$> mapM redact_line (lines_of [] input).

(** ** A line as pairs *)

Definition all (p : Z -> bool) (s : text) : Prop := Forall (fun c => p c = true) s.

Definition sensitive_words : list text :=
  lit <$> ["password"; "passwd"; "token"; "secret"; "apikey"; "api_key"; "credential"; "cred"; "pkey";
           "private_key"; "privatekey"; "authorization"; "auth"; "cookie"; "session"]%string.

(** A key is sensitive when in lower case it ends with one of the words. *)
Definition Sensitive (key : text) : Prop := exists word before, word ∈ sensitive_words /\ map ascii_lower key = before ++ word.

(** A value is replaced when there is one and its key is sensitive. *)
Definition ShownAs (key value out : text) : Prop :=
  (Sensitive key /\ value <> [] /\ out = lit "<redacted>") \/ ((~ Sensitive key \/ value = []) /\ out = value).

(** The word after the first [Bearer ] is replaced. *)
Inductive Bearing : text -> text -> Prop :=
| BNone line : (forall before after, line <> before ++ lit "Bearer " ++ after) -> Bearing line line
| BToken before word rest :
    (forall before' after', before ++ lit "Bearer " ++ word ++ rest = before' ++ lit "Bearer " ++ after' ->
       (length before <= length before')%nat) ->
    all not_whitespace word -> (forall c, head rest = Some c -> is_whitespace c = true) ->
    Bearing (before ++ lit "Bearer " ++ word ++ rest) (before ++ lit "Bearer " ++ lit "<redacted>" ++ rest).

(** What a line is shown as; [None] is the panic. *)
Inductive Redacting : text -> option text -> Prop :=
| RPlain s : all not_sep s -> Redacting s (Some s)
| RPanic prefix c key sep s :
    all not_sep (prefix ++ c :: key) -> is_sep sep = true ->
    is_whitespace c = true -> 128 <= c -> all not_whitespace key ->
    Redacting (prefix ++ c :: key ++ sep :: s) None
| RPair prefix key sep ws value value' s out :
    all not_sep (prefix ++ key) -> is_sep sep = true ->
    (forall c, last prefix = Some c -> is_whitespace c = true /\ c < 128) ->
    all not_whitespace key -> all is_whitespace ws -> all not_whitespace value ->
    (value = [] -> s = []) -> (forall c, head s = Some c -> is_whitespace c = true) ->
    ShownAs key value value' -> Redacting s out ->
    Redacting (prefix ++ key ++ sep :: ws ++ value ++ s)
      (app (prefix ++ key ++ sep :: ws ++ value') <$> out).

Lemma span_spec p s a b :
  span p s = (a, b) <-> s = a ++ b /\ all p a /\ (forall c, head b = Some c -> p c = false).
Proof.
  revert a b. induction s as [|c s IH]; intros a b; cbn [span].
  - split.
    + intros [= <- <-]. split_and!; [done|constructor|done].
    + intros (H & _ & _). symmetry in H. by apply app_nil in H as [-> ->].
  - destruct (p c) eqn:E.
    + destruct (span p s) as [a' b'] eqn:Es. destruct (IH a' b') as [IH1 _]. destruct (IH1 eq_refl) as (-> & Ha & Hb). split.
      * intros H. apply pair_eq in H as [<- <-]. split_and!; [done|by constructor|done].
      * intros (H & Ha' & Hb'). destruct a as [|x a]; cbn in H.
        { subst b. by rewrite (Hb' c eq_refl) in E. }
        injection H as <- H. apply Forall_cons in Ha' as [_ Ha']. assert (IH2 : (a', b') = (a, b)) by by apply IH.
        by injection IH2 as -> ->.
    + split.
      * intros H. apply pair_eq in H as [<- <-]. split_and!; [done|constructor|]. by intros ? [= <-].
      * intros (H & Ha' & Hb'). destruct a as [|x a]; cbn in H; [by subst b|]. injection H as <- H.
        apply Forall_cons in Ha' as [? _]. congruence.
Qed.

Lemma all_rev p s : all p (rev s) <-> all p s.
Proof. unfold all. rewrite !List.Forall_forall. by setoid_rewrite <- in_rev. Qed.

Lemma head_rev {A} (l : list A) : head (rev l) = last l.
Proof. rewrite <- (rev_involutive l) at 2. destruct (rev l) as [|x k]; [done|]. cbn. by rewrite last_snoc. Qed.

(** ** The words and the marker *)

Lemma trim_word s : all not_whitespace s -> trim s = s.
Proof.
  assert (H : forall s, all not_whitespace s -> trim_start s = s).
  { intros [|c k] Hc; [done|]. apply Forall_cons in Hc as [Hc _]. apply negb_true_iff in Hc.
    unfold trim_start. cbn [span]. by rewrite Hc. }
  intros Hs. unfold trim. rewrite (H s) by done. rewrite (H (rev s)) by by apply all_rev. apply rev_involutive.
Qed.

Lemma ends_with_spec s suffix : ends_with s suffix = true <-> exists p, s = p ++ suffix.
Proof.
  unfold ends_with. rewrite bool_decide_eq_true. split.
  - intros [H _]. exists (take (length s - length suffix) s). rewrite <- H at 2. by rewrite take_drop.
  - intros [p ->]. rewrite length_app. replace (length p + length suffix - length suffix)%nat with (length p) by lia.
    split; [apply drop_app_length|lia].
Qed.

(** No word has a mark in it. *)
Lemma words_unmarked : Forall (Forall (fun c => trimmed_mark c = false)) sensitive_words.
Proof. by_decide. Qed.

Lemma lower_mark c : trimmed_mark c = true -> ascii_lower c = c.
Proof.
  unfold trimmed_mark. intros [[->%Z.eqb_eq| ->%Z.eqb_eq]%orb_true_iff| ->%Z.eqb_eq]%orb_true_iff; done.
Qed.

Lemma key_is_sensitive_spec key : all not_whitespace key -> key_is_sensitive key = true <-> Sensitive key.
Proof.
  intros Hk. unfold key_is_sensitive, Sensitive. rewrite trim_word by done.
  destruct (span trimmed_mark key) as [marks k] eqn:E. apply span_spec in E as (-> & Hm & _). cbn [snd].
  rewrite existsb_exists, map_app. split.
  - intros (w & Hw & H). apply list_elem_of_In in Hw. exists w.
    assert (Hp : exists p, map ascii_lower k = p ++ w).
    { apply orb_true_iff in H as [H|H]; [by apply ends_with_spec|]. apply bool_decide_eq_true in H. by exists []. }
    destruct Hp as [p ->]. exists (map ascii_lower marks ++ p). split; [exact Hw|by rewrite app_assoc].
  - intros (w & before & Hw & E). exists w. split; [by apply list_elem_of_In|]. apply orb_true_iff. left. apply ends_with_spec.
    apply app_eq_inv in E as [(l & E1 & E2)|(l & -> & E)]; [|by exists l].
    destruct l as [|c l]; [by exists []|]. exfalso.
    pose proof words_unmarked as Hu. rewrite Forall_forall in Hu. specialize (Hu w Hw). rewrite E2 in Hu.
    apply Forall_cons in Hu as [Hc _].
    assert (Hin : c ∈ map ascii_lower marks) by (rewrite E1; apply elem_of_app; right; left).
    apply list_elem_of_In, in_map_iff in Hin as (c' & <- & Hin). apply list_elem_of_In in Hin.
    unfold all in Hm. rewrite Forall_forall in Hm. specialize (Hm c' Hin). rewrite lower_mark in Hc by done. congruence.
Qed.

Lemma shown_spec key value out : all not_whitespace key -> all not_whitespace value ->
  ShownAs key value out <-> out = shown key value.
Proof.
  intros Hk Hv. unfold ShownAs, shown. rewrite trim_word by done. pose proof (key_is_sensitive_spec key Hk) as Hs.
  destruct (key_is_sensitive key).
  - assert (HS : Sensitive key) by by apply Hs. case_bool_decide as Hn; cbn [andb negb].
    + split; [intros [(_ & ? & _)|[_ ->]]; done|]. intros ->. right. split; [by right|done].
    + split; [intros [(_ & _ & ->)|[[?|?] _]]; done|]. intros ->. left. by split_and!.
  - assert (HS : ~ Sensitive key) by (intros H; apply Hs in H; done). cbn [andb].
    split; [intros [(? & _)|[_ ->]]; done|]. intros ->. right. split; [by left|done].
Qed.

Lemma split_at_marker_spec m s :
  match split_at_marker m s with
  | Some (a, b) => s = a ++ m ++ b /\ forall a' b', s = a' ++ m ++ b' -> (length a <= length a')%nat
  | None => forall a b, s <> a ++ m ++ b
  end.
Proof.
  induction s as [|c s IH]; cbn [split_at_marker]; destruct (decide _) as [E|E].
  - split; [|cbn; lia]. cbn [app]. by rewrite <- (take_drop (length m) []) at 1; rewrite E.
  - intros a b H. apply E. symmetry in H. apply app_nil in H as [_ [-> _]%app_nil]. done.
  - split; [|cbn; lia]. cbn [app]. by rewrite <- (take_drop (length m) (c :: s)) at 1; rewrite E.
  - assert (Hne : forall a b, c :: s = a ++ m ++ b -> exists a', a = c :: a' /\ s = a' ++ m ++ b).
    { intros [|x a] b H; [|cbn in H; injection H as -> ->; by exists a]. exfalso. apply E. cbn [app] in H. rewrite H. apply take_app_length. }
    destruct (split_at_marker m s) as [[a b]|]; cbn [fmap option_fmap option_map fst snd].
    + destruct IH as [-> IH]. split; [done|]. intros a' b' H. apply Hne in H as (a'' & -> & H). apply IH in H. cbn. lia.
    + intros a b H. apply Hne in H as (a' & -> & H). by apply IH in H.
Qed.

Lemma redact_bearer_spec line out : Bearing line out <-> out = redact_bearer line.
Proof.
  unfold redact_bearer. change MARKER with (lit "Bearer "). change redacted with (lit "<redacted>").
  pose proof (split_at_marker_spec (lit "Bearer ") line) as H. destruct (split_at_marker _ line) as [[a b]|].
  - destruct H as [-> H]. destruct (span not_whitespace b) as [w rest] eqn:E. apply span_spec in E as (-> & Hw & Hr). cbn [snd].
    assert (Hr' : forall c, head rest = Some c -> is_whitespace c = true) by (intros c Hc; by apply Hr, negb_false_iff in Hc).
    split; [|intros ->; by constructor].
    generalize (eq_refl (a ++ lit "Bearer " ++ w ++ rest)). generalize (a ++ lit "Bearer " ++ w ++ rest) at 1 3.
    intros l E HB. destruct HB as [l Hn|a' w' rest' Hfirst Hw' Hr'']; [by destruct (Hn _ _ E)|].
    assert (Hlen : length a' = length a) by (apply Nat.le_antisymm; [by eapply Hfirst|eapply H; symmetry; exact E]).
    apply app_inj_1 in E as [-> E]; [|done]. apply app_inv_head in E.
    assert (E1 : span not_whitespace (w' ++ rest') = (w', rest')).
    { apply span_spec. split_and!; [done..|]. intros c Hc. unfold not_whitespace. by rewrite Hr''. }
    assert (E2 : span not_whitespace (w ++ rest) = (w, rest)) by (by apply span_spec).
    rewrite E, E2 in E1. by apply pair_eq in E1 as [_ ->].
  - split; [|intros ->; by constructor]. intros HB. destruct HB as [|a w rest _ _ _]; [done|]. by destruct (H a (w ++ rest)).
Qed.

(** The cut before the last word, by its properties. *)
Lemma split_key_at prefix key :
  all not_whitespace key -> (forall c, last prefix = Some c -> is_whitespace c = true) ->
  split_key (prefix ++ key) =
    match last prefix with Some c => if 1 <? len (utf8_char c) then None else Some (prefix, key) | None => Some (prefix, key) end.
Proof.
  intros Hk Hp. unfold split_key. assert (E : span not_whitespace (rev (prefix ++ key)) = (rev key, rev prefix)).
  { apply span_spec. rewrite rev_app_distr. split_and!; [done|by apply all_rev|]. intros c Hc. rewrite head_rev in Hc.
    unfold not_whitespace. by rewrite Hp. }
  rewrite E, <- head_rev. destruct (rev prefix) as [|c k] eqn:Er; cbn [head].
  - rewrite rev_involutive. by destruct prefix as [|x l]; [|apply (f_equal (@length Z)) in Er; rewrite length_rev in Er].
  - by rewrite <- Er, !rev_involutive.
Qed.

Lemma split_key_exists s :
  exists prefix key, s = prefix ++ key /\ all not_whitespace key /\ (forall c, last prefix = Some c -> is_whitespace c = true).
Proof.
  destruct (span not_whitespace (rev s)) as [k b] eqn:E. apply span_spec in E as (E & Hk & Hb).
  exists (rev b), (rev k). split_and!.
  - by rewrite <- rev_app_distr, <- E, rev_involutive.
  - by apply all_rev.
  - intros c Hc. rewrite <- head_rev, rev_involutive in Hc. apply Hb in Hc. unfold not_whitespace in Hc.
    by apply negb_false_iff in Hc.
Qed.

Lemma utf8_len_ascii c : is_whitespace c = true -> (1 <? len (utf8_char c)) = (128 <=? c).
Proof.
  intros _. unfold utf8_char. destruct (Z.ltb_spec c 128), (Z.leb_spec 128 c); try lia; [done|].
  by repeat case_match.
Qed.

(** The rest of a line after a pair's separator. *)
Lemma after_sep_spans ws value s :
  all is_whitespace ws -> all not_whitespace value -> (value = [] -> s = []) ->
  (forall c, head s = Some c -> is_whitespace c = true) ->
  span is_whitespace (ws ++ value ++ s) = (ws, value ++ s) /\ span not_whitespace (value ++ s) = (value, s).
Proof.
  intros Hw Hv He Hs. split; apply span_spec; split_and!; try done.
  - intros c Hc. destruct value as [|x v]; [by rewrite (He eq_refl) in Hc|]. cbn in Hc. injection Hc as ->.
    apply Forall_cons in Hv as [Hx _]. by apply negb_true_iff in Hx.
  - intros c Hc. unfold not_whitespace. by rewrite Hs.
Qed.

Lemma after_sep_exists t :
  exists ws value s, t = ws ++ value ++ s /\ all is_whitespace ws /\ all not_whitespace value /\
    (value = [] -> s = []) /\ (forall c, head s = Some c -> is_whitespace c = true).
Proof.
  destruct (span is_whitespace t) as [ws t'] eqn:E1. apply span_spec in E1 as (-> & Hw & Hh).
  destruct (span not_whitespace t') as [v s] eqn:E2. apply span_spec in E2 as (-> & Hv & Hs).
  exists ws, v, s. split_and!; try done.
  - intros ->. destruct s as [|c s]; [done|]. specialize (Hh c eq_refl). specialize (Hs c eq_refl).
    unfold not_whitespace in Hs. rewrite Hh in Hs. done.
  - intros c Hc. apply Hs in Hc. by apply negb_false_iff in Hc.
Qed.

Lemma find_sep before sep after :
  all not_sep before -> is_sep sep = true -> span not_sep (before ++ sep :: after) = (before, sep :: after).
Proof.
  intros Hb Hs. apply span_spec. split_and!; [done..|]. intros c [= <-]. unfold not_sep. by rewrite Hs.
Qed.

Lemma redact_loop_step fuel prefix key sep ws value s :
  all not_sep (prefix ++ key) -> is_sep sep = true -> all not_whitespace key ->
  (forall c, last prefix = Some c -> is_whitespace c = true) ->
  all is_whitespace ws -> all not_whitespace value -> (value = [] -> s = []) ->
  (forall c, head s = Some c -> is_whitespace c = true) ->
  redact_loop (S fuel) (prefix ++ key ++ sep :: ws ++ value ++ s) =
    if match last prefix with Some c => 128 <=? c | None => false end then None
    else let out := prefix ++ key ++ [sep] ++ ws ++ shown key value in
         if decide (s = []) then Some out else app out <$> redact_loop fuel s.
Proof.
  intros Hb Hsep Hk Hp Hw Hv He Hs. cbn [redact_loop]. rewrite app_assoc, find_sep by done.
  rewrite split_key_at by done. destruct (after_sep_spans ws value s) as [-> E2]; [done..|].
  destruct (last prefix) as [c|] eqn:El; [rewrite utf8_len_ascii by auto; destruct (128 <=? c); [done|]|];
    cbn [mbind option_bind]; by rewrite E2.
Qed.

Lemma redact_loop_sound fuel s : (length s < fuel)%nat -> Redacting s (redact_loop fuel s).
Proof.
  revert s. induction fuel as [|fuel IH]; intros s Hl; [lia|]. destruct (span not_sep s) as [b [|sep t]] eqn:E.
  - cbn [redact_loop]. rewrite E. apply span_spec in E as (-> & Hb & _). rewrite app_nil_r. by constructor.
  - apply span_spec in E as (-> & Hb & Hs). assert (Hsep : is_sep sep = true) by (apply negb_false_iff, Hs; done).
    destruct (split_key_exists b) as (prefix & key & -> & Hk & Hp).
    destruct (after_sep_exists t) as (ws & value & rest & -> & Hw & Hv & He & Hh).
    rewrite <- app_assoc in Hl |- *. rewrite redact_loop_step by done.
    assert (Hlr : (length rest < fuel)%nat) by (rewrite !length_app in Hl; cbn in Hl; rewrite !length_app in Hl; lia).
    destruct (match last prefix with Some c => 128 <=? c | None => false end) eqn:El.
    + destruct (last prefix) as [c|] eqn:E; [|done]. apply last_Some in E as [p ->]. reflect_bools.
      rewrite <- app_assoc. apply RPanic; auto. by rewrite <- app_assoc in Hb.
    + assert (Hp' : forall c, last prefix = Some c -> is_whitespace c = true /\ c < 128)
        by (intros c Hc; split; [auto|]; rewrite Hc in El; by apply Z.leb_gt in El).
      pose proof (proj2 (shown_spec key value _ Hk Hv) eq_refl) as Hsh.
      pose proof (RPair prefix key sep ws value _ rest _ Hb Hsep Hp' Hk Hw Hv He Hh Hsh (IH rest Hlr)) as H.
      destruct (decide (rest = [])) as [->|Hr]; [|exact H]. destruct fuel as [|fuel]; [cbn in Hlr; lia|].
      change (redact_loop (S fuel) []) with (Some (@nil Z)) in H. cbn [fmap option_fmap option_map] in H.
      rewrite (app_nil_r (prefix ++ _)) in H. exact H.
Qed.

Lemma redact_loop_complete s r : Redacting s r -> forall fuel, (length s < fuel)%nat -> redact_loop fuel s = r.
Proof.
  induction 1 as [s Hs|prefix c key sep s Hb Hsep Hc Hn Hk|prefix key sep ws value value' s out Hb Hsep Hp Hk Hw Hv He Hh Hsh H IH];
    intros [|fuel] Hl; try lia.
  - cbn [redact_loop]. assert (span not_sep s = (s, [])) as ->; [|done]. apply span_spec. by rewrite app_nil_r.
  - destruct (after_sep_exists s) as (ws & value & rest & -> & Hw & Hv & He & Hh).
    change (prefix ++ c :: key ++ ?x) with (prefix ++ [c] ++ key ++ x). rewrite app_assoc.
    rewrite redact_loop_step; try done.
    + rewrite last_snoc. by destruct (Z.leb_spec 128 c); [|lia].
    + by rewrite <- app_assoc.
    + rewrite last_snoc. by intros ? [= <-].
  - apply shown_spec in Hsh as ->; [|done..]. rewrite redact_loop_step; try done; [|intros c Hc; by apply Hp].
    assert (match last prefix with Some c => 128 <=? c | None => false end = false) as ->.
    { destruct (last prefix) as [c|] eqn:E; [|done]. destruct (Hp c eq_refl). by apply Z.leb_gt. }
    assert (Hl' : (length s < fuel)%nat) by (rewrite !length_app in Hl; cbn in Hl; rewrite !length_app in Hl; lia).
    rewrite <- (IH fuel Hl'). destruct (decide (s = [])) as [->|]; [|done].
    destruct fuel as [|fuel]; [cbn in Hl'; lia|]. cbn. by rewrite app_nil_r.
Qed.

(** C37: What a line is shown as is what it reads as: the word after its first [Bearer ]
    is replaced, then of every pair of a key and a value, as a separator cuts them out
    of the line, the value is replaced exactly when the key ends, in any case, with one
    of the sensitive words and there is a value; everything else stays as it is, and the
    scan panics on exactly the lines with a wide space before a pair's key. *)
Theorem redact_line_exact line r : redact_line line = r <-> exists line', Bearing line line' /\ Redacting line' r.
Proof.
  unfold redact_line. split.
  - intros <-. exists (redact_bearer line). split; [by apply redact_bearer_spec|]. apply redact_loop_sound. lia.
  - intros (line' & HB & H). apply redact_bearer_spec in HB as ->. apply (redact_loop_complete _ _ H). lia.
Qed.

(** A space of three bytes before a key. *)
Example redact_panics : redact_line (120 :: 12288 :: lit "port=47989") = None.
Proof. vm_compute. reflexivity. Qed.

(** Only the word after the separator is taken for the value... *)
Example redact_basic_leaks : redact (lit "Authorization: Basic dXNlcjpwdw") = Some (lit "Authorization: <redacted> dXNlcjpwdw").
Proof. vm_compute. reflexivity. Qed.

(** ... and a quoted key is not sensitive, as its closing quote stays. *)
Example redact_quoted_leaks (q := 34) :
  redact ([q] ++ lit "password" ++ [q] ++ lit ": x1") = Some ([q] ++ lit "password" ++ [q] ++ lit ": x1").
Proof. vm_compute. reflexivity. Qed.
