(* ===== verification/Session.v ===== *)
(** * The session's control sends (client-transport/src/session.rs)

    What a session keeps between ticks to get its subscription, acknowledgements and
    key-frame requests to the host: the retry ladder, the two latches, and the part
    of a tick that uses them on the receive core. Sends go to the DataChannel and to
    the signaling socket; whether they succeed is the environment's. *)
From S2P Require Import Prelude FecDecoder FecWire VideoRx FrameQueue RxCore.

(** ** The retry ladder *)

Definition CONTROL_BACKOFF_MS : list Z := [100; 250; 500].
Definition backoff_ms (i : Z) : Z := default 0 (CONTROL_BACKOFF_MS !! Z.to_nat i).

Inductive ControlRetryAction : Type := RetryDataChannel | RetryRestartIce | RetryFail.

Record ControlRetry := mkRetry { failed_at_ms : option Z; step : Z }.

Definition retry_default : ControlRetry := mkRetry None 0.

Definition on_failure (r : ControlRetry) (now_ms : Z) : ControlRetry * bool :=
  (mkRetry (Some now_ms) (step r), negb (if failed_at_ms r then true else false)).

Definition is_open (r : ControlRetry) : bool := if failed_at_ms r then true else false.

(** A step beyond 4 fails for good; [step + 1] stays below 256. *)
Definition retry_poll (r : ControlRetry) (now_ms : Z) : ControlRetry * option ControlRetryAction :=
  match failed_at_ms r with
  | None => (r, None)
  | Some since =>
      if step r <=? 2 then
        if backoff_ms (step r) <=? sat_sub now_ms since
        then (mkRetry (failed_at_ms r) (step r + 1), Some RetryDataChannel)
        else (r, None)
      else if step r =? 3 then (mkRetry (failed_at_ms r) (step r + 1), Some RetryRestartIce)
      else if step r =? 4 then (mkRetry (failed_at_ms r) (step r + 1), Some RetryDataChannel)
      else (r, Some RetryFail)
  end.

(** ** The latches *)

(** [PendingAck]: the epoch and the value. *)
Definition PendingAck : Type := option (option Z * Z).

Definition latch_ack (p : PendingAck) (epoch : option Z) (value : Z) : PendingAck :=
  match p with
  | Some (e, v) => if decide (e = epoch) then Some (epoch, Z.max v value) else Some (epoch, value)
  | None => Some (epoch, value)
  end.

Record NeedsIdrLatch := mkIdr { idr_open : bool; last_sent_ms : option Z; resends : Z }.

Definition idr_default : NeedsIdrLatch := mkIdr false None 0.

Definition idr_do_open (l : NeedsIdrLatch) : NeedsIdrLatch := if idr_open l then l else mkIdr true None 0.

Definition idr_close (l : NeedsIdrLatch) : NeedsIdrLatch :=
  if negb (idr_open l) || (if last_sent_ms l then true else false) then idr_default else l.

Definition idr_due (l : NeedsIdrLatch) (now_ms : Z) : bool :=
  if negb (idr_open l) then false
  else match last_sent_ms l with
       | None => true
       | Some last => backoff_ms (Z.min (resends l) (len CONTROL_BACKOFF_MS - 1)) <=? sat_sub now_ms last
       end.

Definition idr_sent (l : NeedsIdrLatch) (now_ms : Z) : NeedsIdrLatch :=
  mkIdr (idr_open l) (Some now_ms)
    (if (if last_sent_ms l then true else false) && (resends l <? len CONTROL_BACKOFF_MS - 1) then resends l + 1 else resends l).

(** ** A tick *)

Record SessionControl := mkControl {
  subscribe_sent : bool;
  pending : PendingAck;
  needs_idr : NeedsIdrLatch;
  control_retry : ControlRetry
}.

Definition control_new : SessionControl := mkControl false None idr_default retry_default.

Definition set_subscribed (c : SessionControl) : SessionControl := mkControl true (pending c) (needs_idr c) (control_retry c).
Definition set_pending (c : SessionControl) (p : PendingAck) : SessionControl :=
  mkControl (subscribe_sent c) p (needs_idr c) (control_retry c).
Definition set_idr (c : SessionControl) (l : NeedsIdrLatch) : SessionControl :=
  mkControl (subscribe_sent c) (pending c) l (control_retry c).
Definition set_retry (c : SessionControl) (r : ControlRetry) : SessionControl :=
  mkControl (subscribe_sent c) (pending c) (needs_idr c) r.

(** What a tick does to the outside: sends on the DataChannel, messages on the
    signaling socket, and giving the session up. *)
Inductive control_out : Type :=
| SendOk (msg : list Z) | SendFailed (msg : list Z) | MirrorRequestIdr | WsRestartIce | LadderFail.

(** What the environment answers: the channel is there, the clock, the outcome of
    the three sends and of the signaling socket. *)
Record tick_answers := mkAnswers {
  channel : bool; now : Z; subscribe_ok : bool; ack_ok : bool; idr_ok : bool; ws_ok : bool
}.

(** A tick under way; [ended] once the session has failed. *)
Record tick := mkTick {
  ctl : SessionControl; core : RxCore; channel_broken : bool; attempted : bool; out : list control_out; ended : bool
}.

Definition set_ctl (t : tick) (c : SessionControl) : tick := mkTick c (core t) (channel_broken t) (attempted t) (out t) (ended t).
Definition set_tick_core (t : tick) (k : RxCore) : tick := mkTick (ctl t) k (channel_broken t) (attempted t) (out t) (ended t).

(** One send: [sent] on success, [control_send_failed] otherwise. *)
Definition attempt (t : tick) (a : tick_answers) (ok : bool) (msg : list Z) (sent : SessionControl -> SessionControl) : tick :=
  if ok
  then mkTick (set_retry (sent (ctl t)) retry_default) (core t) (channel_broken t) true (out t ++ [SendOk msg]) (ended t)
  else
    let '(r, fresh) := on_failure (control_retry (ctl t)) (now a) in
    mkTick (set_retry (ctl t) r) (core t) true true
      (out t ++ SendFailed msg :: (if fresh then [MirrorRequestIdr] else [])) (fresh && negb (ws_ok a)).

Definition try_send (t : tick) (a : tick_answers) (may ok : bool) (msg : option (list Z))
    (sent : SessionControl -> SessionControl) : tick :=
  match msg with
  | Some bytes => if may && negb (channel_broken t) && negb (ended t) then attempt t a ok bytes sent else t
  | None => t
  end.

Definition subscribe_stage (a : tick_answers) (may : bool) (t : tick) : tick :=
  try_send t a (may && negb (subscribe_sent (ctl t))) (subscribe_ok a) (control_message (core t) FcSubscribe) set_subscribed.

Definition ack_stage (a : tick_answers) (may : bool) (t : tick) : tick :=
  let '(k, polled) := poll_ack (core t) in
  let t := set_tick_core t k in
  let t := match polled with
           | Some v => set_ctl t (set_pending (ctl t) (latch_ack (pending (ctl t)) (selected_epoch k) v))
           | None => t
           end in
  match pending (ctl t) with
  | Some (_, value) => try_send t a may (ack_ok a) (control_message (core t) (FcAck value)) (fun c => set_pending c None)
  | None => t
  end.

Definition idr_stage (a : tick_answers) (may : bool) (t : tick) : tick :=
  let latch := needs_idr (ctl t) in
  let latch := if core_recovery (core t) then idr_do_open latch else idr_close latch in
  let '(k, signalled) := core_poll_needs_idr (core t) in
  let latch := if (signalled : bool) then idr_do_open latch else latch in
  let t := set_tick_core (set_ctl t (set_idr (ctl t) latch)) k in
  try_send t a (may && idr_due latch (now a)) (idr_ok a) (control_message (core t) (FcNeedsIdr 1))
    (fun c => set_idr c (idr_sent (needs_idr c) (now a))).

(** The answer of the ladder: whether sends are allowed. *)
Definition gate_stage (a : tick_answers) (t : tick) : tick * bool :=
  if is_open (control_retry (ctl t)) then
    let '(r, action) := retry_poll (control_retry (ctl t)) (now a) in
    let t := set_ctl t (set_retry (ctl t) r) in
    match action with
    | Some RetryDataChannel => (t, true)
    | Some RetryRestartIce =>
        (mkTick (ctl t) (core t) (channel_broken t) (attempted t) (out t ++ [WsRestartIce]) (negb (ws_ok a)), false)
    | Some RetryFail => (mkTick (ctl t) (core t) (channel_broken t) (attempted t) (out t ++ [LadderFail]) true, false)
    | None => (t, false)
    end
  else (t, true).

Definition send_stages (a : tick_answers) (may : bool) (t : tick) : tick :=
  if channel a then idr_stage a may (ack_stage a may (subscribe_stage a may t)) else t.

(** A granted retry that found nothing to send closes the episode. *)
Definition close_moot (granted : bool) (t : tick) : tick :=
  if granted && negb (attempted t) && negb (ended t) then set_ctl t (set_retry (ctl t) retry_default) else t.

Definition control_tick (c : SessionControl) (k : RxCore) (a : tick_answers) : tick :=
  let '(t, may) := gate_stage a (mkTick c k false false [] false) in
  if ended t then t else close_moot (may && is_open (control_retry (ctl t))) (send_stages a may t).

(** ** Ticks in a row *)

(** The core a tick finds is whatever the rest of the session has made of it. *)
Record run := mkRun { run_ctl : SessionControl; run_log : list (Z * control_out); over : bool }.

Definition run_tick (r : run) (ka : RxCore * tick_answers) : run :=
  if over r then r
  else let t := control_tick (run_ctl r) ka.1 ka.2 in
       mkRun (ctl t) (run_log r ++ ((fun o => (now ka.2, o)) <$> out t)) (ended t).

Definition session_run (ticks : list (RxCore * tick_answers)) : run := foldl run_tick (mkRun control_new [] false) ticks.

(** ** Other parts of the session *)

Inductive SessionState : Type := Connecting | PeerConnected | Streaming_ | SessionFailed | SessionStopped.

Definition state_code (s : SessionState) : Z :=
  match s with Connecting => 0 | PeerConnected => 1 | Streaming_ => 2 | SessionFailed => 3 | SessionStopped => 4 end.

Definition set_state (cur : Z) (s : SessionState) : Z :=
  match s with
  | SessionFailed | SessionStopped => state_code s
  | _ => if (cur <? state_code s) && (cur <=? state_code Streaming_) then state_code s else cur
  end.
