(* ===== verification/SessionSafe.v ===== *)
(** * The session's control sends: proofs

    What the retry ladder has done when it gives the session up, that it does give up
    a dead channel, and that no request for a key frame is lost on the way. *)
From S2P Require Import Prelude FecDecoder FecWire VideoRx FrameQueue RxCore Session.

(** ** One tick *)

Definition is_ok (o : control_out) : Prop := match o with SendOk _ => True | _ => False end.

(** What the sends of a tick have done from the state [r] of the ladder, with
    [pre] already out: nothing, only successes, or a last one that failed. *)
Inductive sent_shape (r : ControlRetry) (a : tick_answers) (t : tick) : Prop :=
| ShNone : out t = [] -> attempted t = false -> channel_broken t = false -> ended t = false ->
    control_retry (ctl t) = r -> sent_shape r a t
| ShOk : Forall is_ok (out t) -> out t <> [] -> attempted t = true -> channel_broken t = false -> ended t = false ->
    control_retry (ctl t) = retry_default -> sent_shape r a t
| ShFirst msg : out t = SendFailed msg :: (if is_open r then [] else [MirrorRequestIdr]) ->
    attempted t = true -> channel_broken t = true -> ended t = negb (is_open r) && negb (ws_ok a) ->
    control_retry (ctl t) = mkRetry (Some (now a)) (step r) -> sent_shape r a t
| ShLater oks msg : out t = oks ++ [SendFailed msg; MirrorRequestIdr] -> Forall is_ok oks -> oks <> [] ->
    attempted t = true -> channel_broken t = true -> ended t = negb (ws_ok a) ->
    control_retry (ctl t) = mkRetry (Some (now a)) 0 -> sent_shape r a t.

(** Nothing that concerns the ladder. *)
Definition same_sends (t t' : tick) : Prop :=
  out t' = out t /\ attempted t' = attempted t /\ channel_broken t' = channel_broken t /\ ended t' = ended t /\
  control_retry (ctl t') = control_retry (ctl t).

Lemma same_shape r a t t' : same_sends t t' -> sent_shape r a t -> sent_shape r a t'.
Proof.
  intros (H1 & H2 & H3 & H4 & H5).
  intros [K1 K2 K3 K4 K5|K1 K2 K3 K4 K5 K6|msg K1 K2 K3 K4 K5|oks msg K1 K2 K3 K4 K5 K6 K7].
  - apply ShNone; congruence.
  - apply ShOk; rewrite ?H1, ?H2, ?H3, ?H4, ?H5; done.
  - apply (ShFirst _ _ _ msg); congruence.
  - apply (ShLater _ _ _ oks msg); congruence.
Qed.

Lemma attempt_shape r a t ok msg sent :
  sent_shape r a t -> channel_broken t = false -> ended t = false ->
  sent_shape r a (attempt t a ok msg sent).
Proof.
  intros H Hb He. unfold attempt. destruct H as [Ho Ha _ _ Hr|Ho Hn Ha _ _ Hr| | ]; try congruence.
  - destruct ok; [apply ShOk; cbn; rewrite ?Ho; try done; by repeat constructor|].
    destruct (on_failure _ _) as [r' fresh] eqn:E. unfold on_failure in E. apply pair_eq in E as [<- <-].
    eapply ShFirst; cbn; rewrite ?Ho, ?Hr; try done. unfold is_open. by destruct (failed_at_ms r).
  - destruct ok.
    + apply ShOk; cbn; try done; [apply Forall_app; by repeat constructor|by destruct (out t)].
    + rewrite Hr. cbn. eapply ShLater; cbn; try done.
Qed.

Lemma try_send_shape r a t may ok msg sent : sent_shape r a t -> sent_shape r a (try_send t a may ok msg sent).
Proof.
  intros H. unfold try_send. destruct msg; [|done]. destruct may; [|done].
  destruct (channel_broken t) eqn:Eb; [done|]. destruct (ended t) eqn:Ee; [done|]. cbn. by apply attempt_shape.
Qed.

Lemma try_send_no t a ok msg sent : try_send t a false ok msg sent = t.
Proof. unfold try_send. by destruct msg. Qed.

(** The acknowledgement that a stage has latched. *)
Lemma ack_stage_eq a may t :
  exists t', same_sends t t' /\ (ack_stage a may t = t' \/
    exists v, ack_stage a may t = try_send t' a may (ack_ok a) (control_message (core t') (FcAck v)) (fun c => set_pending c None)).
Proof.
  unfold ack_stage. destruct (poll_ack (core t)) as [k polled].
  set (t' := match polled with Some v => _ | None => _ end).
  exists t'. split; [by subst t'; destruct polled|]. destruct (pending (ctl t')) as [[e v]|]; eauto.
Qed.

Lemma idr_stage_eq a may t :
  exists t' latch, same_sends t t' /\ needs_idr (ctl t') = latch /\
    idr_stage a may t = try_send t' a (may && idr_due latch (now a)) (idr_ok a) (control_message (core t') (FcNeedsIdr 1))
      (fun c => set_idr c (idr_sent (needs_idr c) (now a))).
Proof. unfold idr_stage. destruct (core_poll_needs_idr (core t)) as [k s]. eexists _, _. split_and!; [| |reflexivity]; done. Qed.

Lemma stages_shape r a may t : sent_shape r a t -> sent_shape r a (send_stages a may t).
Proof.
  intros H. unfold send_stages. destruct (channel a); [|done].
  assert (H1 : sent_shape r a (subscribe_stage a may t)) by by apply try_send_shape.
  destruct (ack_stage_eq a may (subscribe_stage a may t)) as (t' & Hs & E).
  assert (H2 : sent_shape r a (ack_stage a may (subscribe_stage a may t))).
  { apply (same_shape _ _ _ _ Hs) in H1. destruct E as [-> | [v ->]]; [done|by apply try_send_shape]. }
  destruct (idr_stage_eq a may (ack_stage a may (subscribe_stage a may t))) as (t2 & l & Hs2 & _ & ->).
  apply try_send_shape. by apply (same_shape _ _ _ _ Hs2).
Qed.

Lemma stages_quiet a t : same_sends t (send_stages a false t).
Proof.
  unfold send_stages. destruct (channel a); [|done]. unfold subscribe_stage at 1. cbn [andb]. rewrite try_send_no.
  destruct (ack_stage_eq a false t) as (t' & Hs & E). assert (same_sends t (ack_stage a false t)) as H1.
  { destruct E as [-> | [v ->]]; [done|by rewrite try_send_no]. }
  destruct (idr_stage_eq a false (ack_stage a false t)) as (t2 & l & Hs2 & _ & ->). cbn [andb]. rewrite try_send_no.
  unfold same_sends in *. intuition congruence.
Qed.

(** What a tick says and how it leaves the ladder. *)
Inductive tick_shape (r : ControlRetry) (a : tick_answers) (o : list control_out) (r' : ControlRetry) (e : bool) : Prop :=
| TOk : Forall is_ok o -> r' = retry_default -> e = false -> tick_shape r a o r' e
| TWait since : o = [] -> failed_at_ms r = Some since -> r' = r -> step r <= 2 ->
    sat_sub (now a) since < backoff_ms (step r) -> e = false -> tick_shape r a o r' e
| TOpened oks msg : o = oks ++ [SendFailed msg; MirrorRequestIdr] -> Forall is_ok oks -> r' = mkRetry (Some (now a)) 0 ->
    e = negb (ws_ok a) -> tick_shape r a o r' e
| TRetry since msg : o = [SendFailed msg] -> failed_at_ms r = Some since -> r' = mkRetry (Some (now a)) (step r + 1) ->
    (step r <= 2 /\ backoff_ms (step r) <= sat_sub (now a) since \/ step r = 4) -> e = false -> tick_shape r a o r' e
| TIce since : o = [WsRestartIce] -> failed_at_ms r = Some since -> step r = 3 -> r' = mkRetry (Some since) 4 ->
    e = negb (ws_ok a) -> tick_shape r a o r' e
| TFail since : o = [LadderFail] -> failed_at_ms r = Some since -> 4 < step r -> r' = r -> e = true -> tick_shape r a o r' e.

Definition shaped (r : ControlRetry) (a : tick_answers) (t : tick) : Prop :=
  tick_shape r a (out t) (control_retry (ctl t)) (ended t).

Definition retry_ok (r : ControlRetry) : Prop := 0 <= step r /\ (failed_at_ms r = None -> step r = 0).

Lemma granted_shape r since a t :
  failed_at_ms r = Some since -> (step r <= 2 /\ backoff_ms (step r) <= sat_sub (now a) since \/ step r = 4) ->
  sent_shape (mkRetry (Some since) (step r + 1)) a t -> shaped r a (close_moot true t).
Proof.
  intros Hf Hb [H1 H2 H3 H4 H5|H1 H2 H3 H4 H5 H6|msg H1 H2 H3 H4 H5|oks msg H1 H2 H3 H4 H5 H6 H7]; unfold shaped, close_moot.
  - rewrite H2, H4. cbn. apply TOk; try done. by rewrite H1.
  - rewrite H3. cbn. by apply TOk.
  - rewrite H2. cbn. by eapply TRetry.
  - rewrite H4. cbn. by eapply TOpened.
Qed.

Lemma waiting_shape r a c k :
  control_retry c = r ->
  out (send_stages a false (mkTick c k false false [] false)) = [] /\
  control_retry (ctl (send_stages a false (mkTick c k false false [] false))) = r /\
  ended (send_stages a false (mkTick c k false false [] false)) = false.
Proof. intros <-. destruct (stages_quiet a (mkTick c k false false [] false)) as (E1 & _ & _ & E4 & E5). by rewrite E1, E4, E5. Qed.

Lemma control_tick_shape c k a : retry_ok (control_retry c) -> shaped (control_retry c) a (control_tick c k a).
Proof.
  intros [Hs Hn]. unfold control_tick, gate_stage. cbn [ctl core channel_broken attempted out ended]. unfold is_open at 1.
  destruct (failed_at_ms (control_retry c)) as [since|] eqn:Ef.
  - unfold retry_poll. rewrite Ef. assert (Hz : forall t, close_moot false t = t) by done.
    destruct (Z.leb_spec (step (control_retry c)) 2); [|destruct (Z.eqb_spec (step (control_retry c)) 3) as [H3|];
      [|destruct (Z.eqb_spec (step (control_retry c)) 4) as [H4|]]].
    + destruct (Z.leb_spec (backoff_ms (step (control_retry c))) (sat_sub (now a) since)) as [Hb|Hb];
        cbn [set_ctl ctl core channel_broken attempted out ended set_retry control_retry is_open failed_at_ms andb].
      * eapply granted_shape; [done|by left|]. by apply stages_shape, ShNone.
      * change (set_ctl _ ?c') with (mkTick c' k false false [] false).
        destruct (waiting_shape (control_retry c) a (set_retry c (control_retry c)) k eq_refl) as (E1 & E2 & E3).
        rewrite Hz. unfold shaped. rewrite E1, E2, E3. by eapply TWait.
    + change (set_ctl _ ?c') with (mkTick c' k false false [] false). cbn [ctl core channel_broken attempted out ended app].
      unfold shaped. destruct (ws_ok a) eqn:Ews; cbn [negb ended out ctl control_retry andb].
      * set (c' := set_retry _ _). destruct (stages_quiet a (mkTick c' k false false [WsRestartIce] false)) as (E1 & _ & _ & E4 & E5).
        rewrite Hz, E1, E4, E5. cbn. eapply TIce; rewrite ?Ews, ?H3; done.
      * eapply TIce; rewrite ?Ews, ?H3; done.
    + cbn [set_ctl ctl core channel_broken attempted out ended set_retry control_retry is_open failed_at_ms andb].
      eapply granted_shape; [done|by right|]. by apply stages_shape, ShNone.
    + cbn. eapply TFail; try done. lia.
  - cbn [ended ctl andb]. unfold is_open. rewrite Ef. cbn [andb].
    assert (Hr : control_retry c = retry_default)
      by (destruct (control_retry c) as [f s]; cbn in *; subst f; unfold retry_default; f_equal; auto).
    assert (H : sent_shape (control_retry c) a (send_stages a true (mkTick c k false false [] false))) by by apply stages_shape, ShNone.
    change (close_moot false ?t) with t. unfold shaped.
    destruct H as [H1 H2 H3 H4 H5|H1 H2 H3 H4 H5 H6|msg H1 H2 H3 H4 H5|oks msg H1 H2 H3 H4 H5 H6 H7].
    + apply TOk; [by rewrite H1|congruence|done].
    + by apply TOk.
    + eapply (TOpened _ _ _ _ _ [] msg); cbn; rewrite ?H1, ?H4, ?H5, ?Hr; done.
    + by eapply TOpened.
Qed.

(** ** What has happened when the ladder fails *)

(** The open episode of a ladder, as the log shows it. *)
Inductive Episode : ControlRetry -> list (Z * control_out) -> Prop :=
| EpOpened t m : Episode (mkRetry (Some t) 0) [(t, SendFailed m); (t, MirrorRequestIdr)]
| EpRetried s t l t' m : Episode (mkRetry (Some t) s) l -> s <= 2 -> backoff_ms s <= sat_sub t' t ->
    Episode (mkRetry (Some t') (s + 1)) (l ++ [(t', SendFailed m)])
| EpIce t l t' : Episode (mkRetry (Some t) 3) l -> Episode (mkRetry (Some t) 4) (l ++ [(t', WsRestartIce)])
| EpLast t l t' m : Episode (mkRetry (Some t) 4) l -> Episode (mkRetry (Some t') 5) (l ++ [(t', SendFailed m)]).

Lemma episode_range r l : Episode r l -> 0 <= step r <= 5.
Proof. induction 1; cbn in *; lia. Qed.

Record run_ok (r : run) : Prop := {
  ro_retry : retry_ok (control_retry (run_ctl r));
  ro_episode : over r = false -> is_open (control_retry (run_ctl r)) = true ->
    exists l0 l, run_log r = l0 ++ l /\ Episode (control_retry (run_ctl r)) l;
  ro_failed l t : run_log r = l ++ [(t, LadderFail)] ->
    exists l0 l' t', l = l0 ++ l' /\ Episode (mkRetry (Some t') 5) l'
}.

Lemma ok_no_fail (n : Z) (os : list control_out) (l0 l : list (Z * control_out)) (t : Z) : Forall is_ok os -> os <> [] -> l0 ++ ((fun o => (n, o)) <$> os) <> l ++ [(t, LadderFail)].
Proof.
  intros H Hn. induction os as [|o os _] using rev_ind; [done|]. rewrite fmap_app, app_assoc. cbn.
  intros [_ E]%app_inj_tail. apply Forall_app in H as [_ H]. apply Forall_cons in H as [H _]. injection E as _ ->. done.
Qed.

Lemma retry_shape r since : failed_at_ms r = Some since -> r = mkRetry (Some since) (step r).
Proof. destruct r. cbn. by intros ->. Qed.

Lemma snoc_no_fail (l0 l : list (Z * control_out)) n o t : l0 ++ [(n, o)] = l ++ [(t, LadderFail)] -> o = LadderFail /\ l = l0.
Proof. intros [-> E]%app_inj_tail. by injection E as _ ->. Qed.

Lemma run_tick_ok r k a : run_ok r -> run_ok (run_tick r (k, a)).
Proof.
  intros H. unfold run_tick. destruct (over r) eqn:Eo; [done|]. destruct H as [H1 H2 H3]. cbn [fst snd].
  pose proof (control_tick_shape (run_ctl r) k a H1) as Hsh. unfold shaped in Hsh.
  set (t := control_tick (run_ctl r) k a) in *. clearbody t.
  assert (Hopen : forall since, failed_at_ms (control_retry (run_ctl r)) = Some since ->
    exists l0 l, run_log r = l0 ++ l /\ Episode (mkRetry (Some since) (step (control_retry (run_ctl r)))) l).
  { intros since E. rewrite <- (retry_shape _ since) by done. apply H2; [done|]. unfold is_open. by rewrite E. }
  destruct Hsh as [Ho Hr He|since Ho Hf Hr Hs Hb He|oks msg Ho Hok Hr He|since msg Ho Hf Hr Hb He|since Ho Hf Hs Hr He|since Ho Hf Hs Hr He];
    split; cbn [run_ctl run_log over]; rewrite ?Hr, ?He, ?Ho; try done.
  - intros l t0 E. destruct (decide (out t = [])) as [En|]; [|by apply ok_no_fail in E].
    rewrite En in E. cbn in E. rewrite app_nil_r in E. by apply (H3 l t0).
  - intros _ _. cbn. rewrite app_nil_r. apply H2; [done|]. unfold is_open. by rewrite Hf.
  - cbn. intros l t0. rewrite app_nil_r. apply H3.
  - intros _ _. rewrite fmap_app, app_assoc. eexists _, _. split; [done|]. constructor.
  - intros l t0. rewrite fmap_app. cbn. rewrite app_assoc. change [?x; ?y] with ([x] ++ [y]). rewrite app_assoc.
    by intros [? _]%snoc_no_fail.
  - split; [cbn; destruct H1; lia|done].
  - intros _ _. destruct (Hopen since Hf) as (l0 & l & -> & Hl). cbn. exists l0, (l ++ [(now a, SendFailed msg)]).
    split; [by rewrite app_assoc|]. destruct Hb as [[Hs Hb]|Hs]; [by eapply EpRetried|]. rewrite Hs in Hl |- *. by eapply EpLast.
  - cbn. by intros l t0 [? _]%snoc_no_fail.
  - intros _ _. destruct (Hopen since Hf) as (l0 & l & -> & Hl). cbn. exists l0, (l ++ [(now a, WsRestartIce)]).
    split; [by rewrite app_assoc|]. rewrite Hs in Hl. by apply EpIce.
  - cbn. by intros l t0 [? _]%snoc_no_fail.
  - cbn. intros l t0 [_ ->]%snoc_no_fail. destruct (Hopen since Hf) as (l0 & l' & -> & Hl). exists l0, l', since.
    split; [done|]. pose proof (episode_range _ _ Hl) as Hrg. cbn in Hrg. by replace (step (control_retry (run_ctl r))) with 5 in Hl by lia.
Qed.

Lemma session_run_ok ticks : run_ok (session_run ticks).
Proof.
  unfold session_run. assert (H : run_ok (mkRun control_new [] false)).
  { split; cbn; try done. by intros [|? ?] ?. }
  revert H. generalize (mkRun control_new [] false). induction ticks as [|[k a] ticks IH]; intros r H; [done|].
  cbn [foldl]. by apply IH, run_tick_ok.
Qed.

Lemma episode_first t l : Episode (mkRetry (Some t) 0) l -> exists m, l = [(t, SendFailed m); (t, MirrorRequestIdr)].
Proof.
  inversion 1 as [? m|s ? ? ? ? He| |]; subst; [by exists m|]. apply episode_range in He. cbn in He. lia.
Qed.

Lemma episode_retry s t l : 0 <= s <= 2 -> Episode (mkRetry (Some t) (s + 1)) l ->
  exists t0 l' m, l = l' ++ [(t, SendFailed m)] /\ backoff_ms s <= sat_sub t t0 /\ Episode (mkRetry (Some t0) s) l'.
Proof.
  intros Hs. inversion 1 as [? ? E|s' t0 l' ? m He Hs' Hb E|? ? ? He E|? ? ? ? He E]; subst; try lia.
  assert (s' = s) as -> by lia. by exists t0, l', m.
Qed.

Lemma episode_last t l : Episode (mkRetry (Some t) 5) l ->
  exists t4 t3 l' m, l = (l' ++ [(t4, WsRestartIce)]) ++ [(t, SendFailed m)] /\ Episode (mkRetry (Some t3) 3) l'.
Proof.
  inversion 1 as [|s ? ? ? ? He Hs|? ? ? He|t3 l4 ? m He]; subst; [lia|].
  inversion He as [|s ? ? ? ? He' Hs|? l3 t4 H3|]; subst; [lia|]. by exists t4, t3, l3, m.
Qed.

Lemma sat_ge b t' t : 0 < b -> b <= sat_sub t' t -> b <= t' - t.
Proof. unfold sat_sub. lia. Qed.

(** The session is given up by the ladder only after five sends in a row have failed,
    the retries 100, 250 and 500 ms apart, with one request for a key frame mirrored
    on the signaling socket at the first and one restart of the transport before the
    last; a success in between would have started anew. *)
Theorem ladder_fails_late ticks l t :
  run_log (session_run ticks) = l ++ [(t, LadderFail)] ->
  exists l0 t0 t1 t2 t3 t4 t5 m0 m1 m2 m3 m5,
    l = l0 ++ [(t0, SendFailed m0); (t0, MirrorRequestIdr); (t1, SendFailed m1); (t2, SendFailed m2); (t3, SendFailed m3);
               (t4, WsRestartIce); (t5, SendFailed m5)] /\
    100 <= t1 - t0 /\ 250 <= t2 - t1 /\ 500 <= t3 - t2.
Proof.
  intros H. apply (ro_failed _ (session_run_ok ticks)) in H as (l0 & l' & t5 & -> & H). exists l0.
  apply episode_last in H as (t4 & t3 & l4 & m5 & -> & H). apply (episode_retry 2) in H as (t2 & l3 & m3 & -> & B2 & H); [|lia].
  apply (episode_retry 1) in H as (t1 & l2 & m2 & -> & B1 & H); [|lia].
  apply (episode_retry 0) in H as (t0 & l1 & m1 & -> & B0 & H); [|lia]. apply episode_first in H as [m0 ->].
  apply sat_ge in B0, B1, B2; [|done..]. by exists t0, t1, t2, t3, t4, t5, m0, m1, m2, m3, m5.
Qed.

(** ** A dead channel *)

(** No send comes through, but the channel is there and the signaling socket works. *)
Definition dead_channel (a : tick_answers) : Prop :=
  channel a = true /\ subscribe_ok a = false /\ ack_ok a = false /\ idr_ok a = false /\ ws_ok a = true.

(** Something to send: a subscription or an acknowledgement. *)
Definition has_pending (c : SessionControl) : Prop := subscribe_sent c = false \/ pending c <> None.

Definition not_ok (o : control_out) : Prop := match o with SendOk _ => False | _ => True end.

(** Nothing has come through so far, and what was to send is still to send. *)
Definition stuck (c : SessionControl) (t : tick) : Prop :=
  Forall not_ok (out t) /\ subscribe_sent (ctl t) = subscribe_sent c /\ (pending c <> None -> pending (ctl t) <> None).

Lemma try_send_stuck c t a may msg sent : stuck c t -> stuck c (try_send t a may false msg sent).
Proof.
  intros (H1 & H2 & H3). unfold try_send. destruct msg; [|done]. destruct (may && _ && _); [|done].
  unfold attempt. destruct (on_failure _ _) as [r f]. split_and!; cbn; try done.
  apply Forall_app. split; [done|]. destruct f; by repeat constructor.
Qed.

Lemma try_send_attempts t a ok msg sent :
  channel_broken t = false -> ended t = false -> attempted (try_send t a true ok (Some msg) sent) = true.
Proof. intros H1 H2. unfold try_send. rewrite H1, H2. cbn. unfold attempt. destruct ok; [done|]. by destruct (on_failure _ _). Qed.

Lemma try_send_keeps t a may ok msg sent : attempted t = true -> attempted (try_send t a may ok msg sent) = true.
Proof.
  intros H. unfold try_send. destruct msg; [|done]. destruct (may && _ && _); [|done].
  unfold attempt. destruct ok; [done|]. by destruct (on_failure _ _).
Qed.

Lemma control_message_some k control : fec_codec k <> Unconfigured -> exists m, control_message k control = Some m.
Proof. unfold control_message. destruct (fec_codec k); [done|eauto..]. Qed.

Lemma poll_ack_codec k : fec_codec (poll_ack k).1 = fec_codec k.
Proof. done. Qed.

Lemma latch_ack_some p e v : latch_ack p e v <> None.
Proof. destruct p as [[e' v']|]; cbn; [by destruct (decide _)|done]. Qed.

Lemma idr_stage_stuck c t a may : idr_ok a = false -> stuck c t -> stuck c (idr_stage a may t).
Proof.
  intros Hi H. unfold idr_stage. destruct (core_poll_needs_idr _) as [k s]. rewrite Hi. by apply try_send_stuck.
Qed.

Lemma idr_stage_keeps t a may : attempted t = true -> attempted (idr_stage a may t) = true.
Proof. intros H. unfold idr_stage. destruct (core_poll_needs_idr _) as [k s]. by apply try_send_keeps. Qed.

Lemma dead_stages a may c k o :
  dead_channel a -> has_pending c -> fec_codec k <> Unconfigured -> Forall not_ok o ->
  let t := send_stages a may (mkTick c k false false o false) in
  stuck c t /\ (may = true -> attempted t = true).
Proof.
  intros (Hc & Hs & Ha & Hi & _) Hp Hk Ho. unfold send_stages. rewrite Hc. set (t0 := mkTick c k false false o false).
  assert (H0 : stuck c t0) by by split_and!.
  destruct (control_message_some k FcSubscribe Hk) as [ms Ems].
  assert (H1 : stuck c (subscribe_stage a may t0)) by (unfold subscribe_stage; rewrite Hs; by apply try_send_stuck).
  assert (H2 : stuck c (ack_stage a may (subscribe_stage a may t0))).
  { unfold ack_stage. destruct (poll_ack _) as [k' polled]. rewrite Ha.
    set (t := match polled with Some v => _ | None => _ end).
    assert (stuck c t) by (destruct H1 as (? & ? & ?); subst t; destruct polled; split_and!; cbn; try done; intros _; apply latch_ack_some).
    destruct (pending (ctl t)) as [[e v]|]; [by apply try_send_stuck|done]. }
  cbn zeta. split; [by apply idr_stage_stuck|]. intros ->. apply idr_stage_keeps. unfold subscribe_stage at 1.
  cbn [t0 ctl core]. rewrite Ems. destruct (subscribe_sent c) eqn:Esub.
  - destruct Hp as [Hp|Hp]; [congruence|]. change (try_send t0 a (true && negb true) (subscribe_ok a) (Some ms) set_subscribed) with t0.
    unfold ack_stage. destruct (poll_ack (core t0)) as [k' polled] eqn:Ek.
    assert (Hk' : fec_codec k' <> Unconfigured) by (pose proof (poll_ack_codec k) as E; cbn [t0 core] in Ek; rewrite Ek in E; by rewrite <- E in Hk).
    set (t := match polled with Some v => _ | None => _ end).
    assert (pending (ctl t) <> None /\ core t = k' /\ channel_broken t = false /\ ended t = false) as (Hn & Hck & Hb & He).
    { subst t. destruct polled; cbn; split_and!; try done. apply latch_ack_some. }
    destruct (pending (ctl t)) as [[e v]|]; [|done]. rewrite Hck.
    destruct (control_message_some k' (FcAck v) Hk') as [m ->]. by apply try_send_attempts.
  - unfold ack_stage. cbn [andb negb]. pose proof (try_send_attempts t0 a (subscribe_ok a) ms set_subscribed eq_refl eq_refl) as Hat.
    set (t1 := try_send _ _ _ _ _ _) in *. clearbody t1. destruct (poll_ack (core t1)) as [k' polled].
    set (t := match polled with Some v => _ | None => _ end). assert (attempted t = true) by (subst t; by destruct polled).
    destruct (pending (ctl t)) as [[e v]|]; [by apply try_send_keeps|done].
Qed.

(** What a tick does when nothing comes through. *)
Inductive dead_step (r : ControlRetry) (t : Z) : ControlRetry -> bool -> Prop :=
| DOpen : failed_at_ms r = None -> dead_step r t (mkRetry (Some t) 0) false
| DWait since : failed_at_ms r = Some since -> step r <= 2 -> sat_sub t since < backoff_ms (step r) -> dead_step r t r false
| DRetry since : failed_at_ms r = Some since -> step r <= 2 -> dead_step r t (mkRetry (Some t) (step r + 1)) false
| DIce since : failed_at_ms r = Some since -> step r = 3 -> dead_step r t (mkRetry (Some since) 4) false
| DLast since : failed_at_ms r = Some since -> step r = 4 -> dead_step r t (mkRetry (Some t) 5) false
| DFail since : failed_at_ms r = Some since -> 4 < step r -> dead_step r t r true.

Lemma dead_send a c k g :
  dead_channel a -> has_pending c -> fec_codec k <> Unconfigured ->
  let t := close_moot g (send_stages a true (mkTick c k false false [] false)) in
  control_retry (ctl t) = mkRetry (Some (now a)) (step (control_retry c)) /\ ended t = false /\ has_pending (ctl t).
Proof.
  intros Hd Hp Hk. destruct (dead_stages a true c k [] Hd Hp Hk ltac:(constructor)) as [(Hst & Hsub & Hpen) Hat]. specialize (Hat eq_refl).
  assert (Hsh : sent_shape (control_retry c) a (send_stages a true (mkTick c k false false [] false))) by by apply stages_shape, ShNone.
  assert (Hpend : has_pending (ctl (send_stages a true (mkTick c k false false [] false))))
    by (destruct Hp; [left; congruence|right; auto]).
  set (t := send_stages _ _ _) in *. clearbody t. unfold close_moot. rewrite Hat, andb_false_r. cbn [andb].
  destruct Hsh as [H1 H2 H3 H4 H5|H1 H2 H3 H4 H5 H6|msg H1 H2 H3 H4 H5|oks msg H1 H2 H3 H4 H5 H6 H7]; [congruence|..].
  - destruct (out t) as [|o os]; [done|]. apply Forall_cons in H1 as [H1 _]. apply Forall_cons in Hst as [Hst _]. by destruct o.
  - destruct Hd as (_ & _ & _ & _ & Hws). rewrite Hws, andb_false_r in H4. done.
  - destruct oks as [|o os]; [done|]. rewrite H1 in Hst. apply Forall_cons in H2 as [H2 _]. apply Forall_cons in Hst as [Hst _]. by destruct o.
Qed.

Lemma dead_wait a c k o :
  dead_channel a -> has_pending c -> fec_codec k <> Unconfigured -> Forall not_ok o ->
  let t := send_stages a false (mkTick c k false false o false) in
  control_retry (ctl t) = control_retry c /\ ended t = false /\ has_pending (ctl t).
Proof.
  intros Hd Hp Hk Ho. destruct (dead_stages a false c k o Hd Hp Hk Ho) as [(Hst & Hsub & Hpen) _].
  destruct (stages_quiet a (mkTick c k false false o false)) as (_ & _ & _ & E4 & E5). cbn zeta.
  rewrite E4, E5. split_and!; [done..|]. destruct Hp; [left; congruence|right; auto].
Qed.

Definition dead_result (r : ControlRetry) (a : tick_answers) (t : tick) : Prop :=
  dead_step r (now a) (control_retry (ctl t)) (ended t) /\ (ended t = false -> has_pending (ctl t)).

(** The stages of a tick whose gate is open, or shut. *)
Ltac at_send Hd Hp Hk :=
  match goal with |- context [close_moot ?g (send_stages ?a true (mkTick ?c ?k false false [] false))] =>
    let E1 := fresh "E" in let E2 := fresh "E" in let E3 := fresh "E" in
    destruct (dead_send a c k g Hd Hp Hk) as (E1 & E2 & E3); unfold dead_result; rewrite E1, E2; split; [|done] end.

Ltac at_wait Hd Hp Hk :=
  change (close_moot (false && _) ?t) with t;
  match goal with |- context [send_stages ?a false (mkTick ?c ?k false false ?o false)] =>
    let E1 := fresh "E" in let E2 := fresh "E" in let E3 := fresh "E" in
    destruct (dead_wait a c k o Hd Hp Hk ltac:(by repeat constructor)) as (E1 & E2 & E3); unfold dead_result; rewrite E1, E2; split; [|done] end.

Lemma dead_tick a c k :
  dead_channel a -> has_pending c -> fec_codec k <> Unconfigured -> retry_ok (control_retry c) ->
  dead_result (control_retry c) a (control_tick c k a).
Proof.
  intros Hd Hp Hk [Hs Hn]. unfold control_tick, gate_stage. cbn [ctl core channel_broken attempted out ended]. unfold is_open at 1.
  destruct (failed_at_ms (control_retry c)) as [since|] eqn:Ef.
  - unfold retry_poll. rewrite Ef.
    destruct (Z.leb_spec (step (control_retry c)) 2); [|destruct (Z.eqb_spec (step (control_retry c)) 3) as [H3|];
      [|destruct (Z.eqb_spec (step (control_retry c)) 4) as [H4|]]].
    + destruct (Z.leb_spec (backoff_ms (step (control_retry c))) (sat_sub (now a) since)) as [Hb|Hb];
        change (set_ctl _ ?c') with (mkTick c' k false false [] false); cbn [ended].
      * at_send Hd Hp Hk. by apply DRetry with since.
      * at_wait Hd Hp Hk. by apply DWait with since.
    + change (set_ctl _ ?c') with (mkTick c' k false false [] false). cbn [ctl core channel_broken attempted out ended app].
      pose proof Hd as (_ & _ & _ & _ & Hws). rewrite Hws. cbn [negb]. at_wait Hd Hp Hk.
      cbn [set_retry control_retry]. rewrite H3. by apply DIce.
    + change (set_ctl _ ?c') with (mkTick c' k false false [] false); cbn [ended].
      at_send Hd Hp Hk. cbn [set_retry control_retry step]. rewrite H4. by apply DLast with since.
    + cbn. split; [|done]. apply DFail with since; [done|cbn; lia].
  - cbn [ended andb]. at_send Hd Hp Hk. rewrite (Hn eq_refl). by apply DOpen.
Qed.

(** The ticks the ladder still takes at most, 50 ms apart, the last at [t]. *)
Definition ticks_left (r : ControlRetry) (t : Z) : Z :=
  match failed_at_ms r with
  | None => 21
  | Some since =>
      if step r =? 0 then (100 - (t - since) + 49) / 50 + 18
      else if step r =? 1 then (250 - (t - since) + 49) / 50 + 13
      else if step r =? 2 then (500 - (t - since) + 49) / 50 + 3
      else if step r =? 3 then 3 else if step r =? 4 then 2 else 1
  end.

(** The ladder waits only while the next retry is not due. *)
Definition waits (r : ControlRetry) (t : Z) : Prop :=
  0 <= step r /\ forall since, failed_at_ms r = Some since -> since <= t /\ (step r <= 2 -> t - since < backoff_ms (step r)).

Lemma backoffs : backoff_ms 0 = 100 /\ backoff_ms 1 = 250 /\ backoff_ms 2 = 500.
Proof. done. Qed.

Lemma ticks_pos x : 0 < x -> 0 < (x + 49) / 50.
Proof. intros. apply Z.div_str_pos. lia. Qed.

Lemma ticks_fewer x y : y + 50 <= x -> (y + 49) / 50 + 1 <= (x + 49) / 50.
Proof.
  intros. rewrite <- (Z.div_add (y + 49) 1 50) by lia. apply Z.div_le_mono; lia.
Qed.

Lemma ticks_left_pos r t : waits r t -> 0 < ticks_left r t.
Proof.
  intros [Hs Hw]. unfold ticks_left. destruct (failed_at_ms r) as [since|]; [|lia]. destruct (Hw since eq_refl) as [_ Hb].
  destruct backoffs as (B0 & B1 & B2).
  destruct (Z.eqb_spec (step r) 0) as [E|]; [rewrite E, B0 in Hb; pose proof (ticks_pos (100 - (t - since))); lia|].
  destruct (Z.eqb_spec (step r) 1) as [E|]; [rewrite E, B1 in Hb; pose proof (ticks_pos (250 - (t - since))); lia|].
  destruct (Z.eqb_spec (step r) 2) as [E|]; [rewrite E, B2 in Hb; pose proof (ticks_pos (500 - (t - since))); lia|].
  destruct (step r =? 3), (step r =? 4); lia.
Qed.

Lemma waits_now s t : 0 <= s -> waits (mkRetry (Some t) s) t.
Proof.
  intros Hs. split; [done|]. cbn. intros ? [= <-]. split; [done|]. intros Hs2. rewrite Z.sub_diag.
  destruct backoffs as (B0 & B1 & B2). assert (s = 0 \/ s = 1 \/ s = 2) as [-> | [-> | ->]] by lia; lia.
Qed.

Lemma ladder_measure r t t' r' e :
  waits r t -> t + 50 <= t' -> dead_step r t' r' e -> e = true \/ waits r' t' /\ ticks_left r' t' + 1 <= ticks_left r t.
Proof.
  intros Hwait Ht H. pose proof Hwait as [Hs Hw]. destruct backoffs as (B0 & B1 & B2). destruct r as [f s]. cbn [failed_at_ms step] in *.
  inversion H as [E|since E Hs2 Hb|since E Hs2|since E Hs3|since E Hs4|since E Hs5]; subst; cbn [failed_at_ms step] in *; subst f;
    [right; split..|by left].
  - by apply waits_now.
  - cbn. by rewrite Z.sub_diag.
  - destruct (Hw since eq_refl) as [Hle Hlt]. split; [done|]. cbn. intros ? [= <-]. unfold sat_sub in Hb. split; lia.
  - destruct (Hw since eq_refl) as [Hle Hlt]. unfold sat_sub in Hb.
    assert (s = 0 \/ s = 1 \/ s = 2) as [-> | [-> | ->]] by lia; unfold ticks_left; cbn.
    + pose proof (ticks_fewer (100 - (t - since)) (100 - (t' - since))). lia.
    + pose proof (ticks_fewer (250 - (t - since)) (250 - (t' - since))). lia.
    + pose proof (ticks_fewer (500 - (t - since)) (500 - (t' - since))). lia.
  - apply waits_now. lia.
  - destruct (Hw since eq_refl) as [Hle Hlt]. specialize (Hlt Hs2).
    assert (s = 0 \/ s = 1 \/ s = 2) as [-> | [-> | ->]] by lia; rewrite ?B0, ?B1, ?B2 in Hlt.
    + change (ticks_left _ t') with ((250 - (t' - t') + 49) / 50 + 13). rewrite Z.sub_diag. change ((250 - 0 + 49) / 50) with 5.
      change (ticks_left _ t) with ((100 - (t - since) + 49) / 50 + 18). pose proof (ticks_pos (100 - (t - since))). lia.
    + change (ticks_left _ t') with ((500 - (t' - t') + 49) / 50 + 3). rewrite Z.sub_diag. change ((500 - 0 + 49) / 50) with 10.
      change (ticks_left _ t) with ((250 - (t - since) + 49) / 50 + 13). pose proof (ticks_pos (250 - (t - since))). lia.
    + change (ticks_left _ t') with 3. change (ticks_left _ t) with ((500 - (t - since) + 49) / 50 + 3).
      pose proof (ticks_pos (500 - (t - since))). lia.
  - split; [done|]. cbn. intros ? [= <-]. destruct (Hw since eq_refl) as [Hle _]. split; lia.
  - subst s. by cbn.
  - subst s. by apply waits_now.
  - subst s. by cbn.
Qed.

(** Ticks 50 ms apart at least, of a dead channel on a configured core. *)
Fixpoint dead_ticks (from : Z) (ticks : list (RxCore * tick_answers)) : Prop :=
  match ticks with
  | [] => True
  | (k, a) :: ticks => from + 50 <= now a /\ dead_channel a /\ fec_codec k <> Unconfigured /\ dead_ticks (now a) ticks
  end.

Lemma dead_step_ok r t r' e : 0 <= step r -> dead_step r t r' e -> e = false -> retry_ok r'.
Proof. intros Hs. destruct 1; intros; split; cbn; try done; try lia; congruence. Qed.

Lemma over_stays r ticks : over r = true -> over (foldl run_tick r ticks) = true.
Proof.
  revert r. induction ticks as [|x ticks IH]; intros r H; [done|]. cbn. apply IH. unfold run_tick. by rewrite H.
Qed.

Lemma dead_run r t ticks :
  over r = false -> retry_ok (control_retry (run_ctl r)) -> has_pending (run_ctl r) -> waits (control_retry (run_ctl r)) t ->
  dead_ticks t ticks -> ticks_left (control_retry (run_ctl r)) t <= len ticks -> over (foldl run_tick r ticks) = true.
Proof.
  revert r t. induction ticks as [|[k a] ticks IH]; intros r t Ho Hr Hp Hw Hd Hl.
  - pose proof (ticks_left_pos _ _ Hw). rewrite len_nil in Hl. lia.
  - destruct Hd as (Ht & Hd & Hk & Hds). cbn [foldl]. rewrite len_cons in Hl.
    destruct (dead_tick a (run_ctl r) k Hd Hp Hk Hr) as [Hs Hp']. unfold run_tick at 2. rewrite Ho. cbn [fst snd].
    set (tk := control_tick (run_ctl r) k a) in *. destruct (ended tk) eqn:Ee.
    + by apply over_stays.
    + apply (IH _ (now a)); cbn [over run_ctl]; auto.
      * eapply dead_step_ok; [|exact Hs|done]. apply Hr.
      * by destruct (ladder_measure _ t _ _ _ Hw Ht Hs) as [?|[? ?]].
      * destruct (ladder_measure _ t _ _ _ Hw Ht Hs) as [?|[? ?]]; [done|lia].
Qed.


(** Ticks whose clock does not go back, up to [until]. *)
Fixpoint timed (from until : Z) (ticks : list (RxCore * tick_answers)) : Prop :=
  match ticks with [] => from <= until | (_, a) :: ticks => from <= now a /\ timed (now a) until ticks end.

Lemma shape_waits r t a o r' : waits r t -> t <= now a -> tick_shape r a o r' false -> waits r' (now a).
Proof.
  intros [Hs Hw] Ht. inversion 1 as [Ho Hr He|since Ho Hf Hr Hs2 Hb He|oks msg Ho Hok Hr He|since msg Ho Hf Hr Hb He|since Ho Hf Hs3 Hr He|];
    subst; try done.
  - destruct (Hw since Hf) as [Hle Hlt]. split; [done|]. intros s E. rewrite Hf in E. injection E as <-. unfold sat_sub in Hb. split; lia.
  - by apply waits_now.
  - apply waits_now. lia.
  - destruct (Hw since Hf) as [Hle _]. split; [done|]. cbn. intros s [= <-]. split; lia.
Qed.

Lemma run_waits ticks r t until :
  over (foldl run_tick r ticks) = false -> run_ok r -> waits (control_retry (run_ctl r)) t -> timed t until ticks ->
  exists t', t' <= until /\ waits (control_retry (run_ctl (foldl run_tick r ticks))) t'.
Proof.
  revert r t. induction ticks as [|[k a] ticks IH]; intros r t Ho Hr Hw Ht; [by exists t|]. destruct Ht as [Ht Hts].
  cbn [foldl] in *. apply (IH _ (now a)); [done|by apply run_tick_ok| |done].
  unfold run_tick in *. destruct (over r) eqn:Eo; [rewrite over_stays in Ho by done; done|]. cbn [fst snd] in *.
  pose proof (control_tick_shape (run_ctl r) k a (ro_retry _ Hr)) as Hsh. unfold shaped in Hsh.
  destruct (ended (control_tick (run_ctl r) k a)) eqn:Ee; [by rewrite over_stays in Ho|]. by eapply shape_waits.
Qed.

Lemma ticks_left_max r t : waits r t -> ticks_left r t <= 21.
Proof.
  intros [Hs Hw]. unfold ticks_left. destruct (failed_at_ms r) as [since|]; [|lia]. destruct (Hw since eq_refl) as [Hle _].
  assert (Hd : forall x b, 0 <= x -> (b - x + 49) / 50 <= (b + 49) / 50) by (intros; apply Z.div_le_mono; lia).
  pose proof (Hd (t - since) 100) as D0. pose proof (Hd (t - since) 250) as D1. pose proof (Hd (t - since) 500) as D2.
  change ((100 + 49) / 50) with 2 in D0. change ((250 + 49) / 50) with 5 in D1. change ((500 + 49) / 50) with 10 in D2.
  destruct (step r =? 0), (step r =? 1), (step r =? 2), (step r =? 3), (step r =? 4); lia.
Qed.

(** C35: A session with something to send ends when its DataChannel is dead, whatever went
    before: 21 ticks at the tick's 50 ms are enough. *)
Theorem dead_channel_given_up ticks0 ticks t :
  timed 0 t ticks0 -> over (session_run ticks0) = false -> has_pending (run_ctl (session_run ticks0)) ->
  dead_ticks t ticks -> 21 <= len ticks -> over (session_run (ticks0 ++ ticks)) = true.
Proof.
  intros Ht Ho Hp Hd Hl. unfold session_run. rewrite foldl_app. pose proof (session_run_ok ticks0) as Hr.
  destruct (run_waits ticks0 (mkRun control_new [] false) 0 t Ho) as (t' & Hle & Hw); [|by split|done|].
  { apply (session_run_ok []). }
  apply (dead_run _ t'); [done|apply Hr|done..| |].
  - destruct ticks as [|[k a] ticks]; [done|]. destruct Hd as [? Hd]. split; [lia|done].
  - pose proof (ticks_left_max _ _ Hw). unfold session_run in *. lia.
Qed.

Definition dead_at (t : Z) : RxCore * tick_answers := (core_new 0, mkAnswers true t false false false true).

Lemma dead_channel_given_up_witness :
  let ticks := dead_at <$> ((fun i => 100 + 50 * i) <$> seqZ 0 21) in
  timed 0 50 [] /\ over (session_run ([] ++ ticks)) = true.
Proof.
  intros ticks. split; [done|]. apply (dead_channel_given_up [] ticks 50); [done|done|by left| |done].
  subst ticks. vm_compute. split_and!; done.
Defined.

(** The last tick gives up by the ladder, after five failed sends. *)
Lemma ladder_fails_late_witness :
  let ticks := dead_at <$> ((fun i => 100 + 50 * i) <$> seqZ 0 21) in
  exists l, run_log (session_run ticks) = l ++ [(1100, LadderFail)] /\
  exists l0 t0 t1 t2 t3 t4 t5 m0 m1 m2 m3 m5,
    l = l0 ++ [(t0, SendFailed m0); (t0, MirrorRequestIdr); (t1, SendFailed m1); (t2, SendFailed m2); (t3, SendFailed m3);
               (t4, WsRestartIce); (t5, SendFailed m5)] /\
    100 <= t1 - t0 /\ 250 <= t2 - t1 /\ 500 <= t3 - t2.
Proof.
  intros ticks. set (log := run_log (session_run ticks)). exists (take (length log - 1) log).
  assert (E : log = take (length log - 1) log ++ [(1100, LadderFail)]) by (subst log ticks; vm_compute; reflexivity).
  split; [exact E|]. exact (ladder_fails_late ticks _ 1100 E).
Defined.

(** ** The latches *)

(** A cumulative acknowledgement that has wrapped around loses to the one before. *)
Example pending_ack_wrap : latch_ack (latch_ack None (Some 1) 4294967295) (Some 1) 3 = Some (Some 1, 4294967295).
Proof. done. Qed.

(** Whatever the latch was, a tick over an open recovery or a key-frame signal of the
    decoder leaves it open; and an open one that has not sent yet stays open. *)
Lemma idr_signal_kept a may t :
  (core_recovery (core t) <> None \/ (core_poll_needs_idr (core t)).2 = true \/
   idr_open (needs_idr (ctl t)) = true /\ last_sent_ms (needs_idr (ctl t)) = None) ->
  idr_open (needs_idr (ctl (idr_stage a may t))) = true.
Proof.
  intros H. unfold idr_stage. set (latch := needs_idr (ctl t)) in *.
  assert (Hopen : forall l, idr_open (idr_do_open l) = true) by (intros l; unfold idr_do_open; by destruct (idr_open l) eqn:E).
  destruct (core_poll_needs_idr (core t)) as [k s]. cbn [snd] in H.
  set (l := if s then idr_do_open _ else _). assert (Hl : idr_open l = true).
  { subst l. destruct s; [apply Hopen|]. destruct (core_recovery (core t)); [apply Hopen|].
    destruct H as [H|[H|[H1 H2]]]; [done|done|]. unfold idr_close. by rewrite H1, H2. }
  unfold try_send. destruct (control_message _ _); [|done]. destruct (_ && _); [|done].
  unfold attempt. destruct (idr_ok a); [done|]. by destruct (on_failure _ _).
Qed.

(** ** The observable state *)

(** A progress state never demotes a later one, and never a final one. *)
Lemma set_state_upgrades cur s :
  0 <= cur <= 4 -> let new := set_state cur s in
  (2 < cur -> 2 < new) /\ (cur <= 2 -> cur <= new).
Proof. intros H. unfold set_state. destruct s; cbn [state_code]; repeat case_match; reflect_bools; cbn; lia. Qed.
