(* ===== verification/InputSender.v ===== *)
(** * Sending input (client-transport/src/session.rs, InputSender)

    Input threads encode packets and queue them for the session, which sends each on
    the channel of its id once that channel is open. The bounded queue is tokio's
    (a parameter, with the documented laws of a bounded FIFO). *)
From Stdlib Require Import String.
From S2P Require Import Prelude Text Utf8 Wire ByteBuffer InputWire InputWireSafe.
Open Scope Z_scope.

(** [tokio::sync::mpsc::Sender]: what is queued; [try_send]; and the permits of
    [try_reserve_many], each of which sends one item. *)
Class Mpsc (Q : Type) := {
  queued : Q -> list (Z * list Z);
  mpsc_try_send : Q -> Z * list Z -> option Q;
  mpsc_reserve : Q -> nat -> option Q;
  permit_send : Q -> Z * list Z -> Q
}.

Class MpscLaws (Q : Type) `{!Mpsc Q} : Prop := {
  try_send_queued q x q' : mpsc_try_send q x = Some q' -> queued q' = queued q ++ [x];
  reserve_queued q n q' : mpsc_reserve q n = Some q' -> queued q' = queued q;
  permit_queued q x : queued (permit_send q x) = queued q ++ [x]
}.

(** The labels of the host's input channels. *)
Definition input_channel_id (label : text) : option Z :=
  if decide (label = lit "mouse_reliable") then Some MOUSE_RELIABLE
  else if decide (label = lit "mouse_absolute") then Some MOUSE_ABSOLUTE
  else if decide (label = lit "mouse_relative") then Some MOUSE_RELATIVE
  else if decide (label = lit "keyboard") then Some KEYBOARD
  else if decide (label = lit "touch") then Some TOUCH
  else if decide (label = lit "controllers") then Some CONTROLLERS
  else None.

Section sender.
Context {M : Moonlight} {L : MoonlightLaws M} {Q : Type} `{!Mpsc Q} `{!MpscLaws Q}.

Definition sender_send (q : Q) (pkt : InboundPacket) : Q * bool :=
  match encode pkt with
  | None => (q, false)
  | Some item => match mpsc_try_send q item with Some q' => (q', true) | None => (q, false) end
  end.

Definition send_batch (q : Q) (packets : list InboundPacket) : Q * bool :=
  match mapM encode packets with
  | None => (q, false)
  | Some [] => (q, true)
  | Some encoded =>
      match mpsc_reserve q (length encoded) with
      | Some q' => (foldl permit_send q' encoded, true)
      | None => (q, false)
      end
  end.

(** The session's side: one queued item, sent if its channel is open. *)
Definition forward (open : list Z) (item : Z * list Z) : list (Z * list Z) :=
  if decide (item.1 ∈ open) then [item] else [].

(** ** What arrives *)

(** The packets a list of items is decoded to by the streamer; [None] if one is not
    a packet. *)
Definition decoded (items : list (Z * list Z)) : option (list (option InboundPacket)) :=
  mapM (fun item => deserialize item.1 item.2) items.

Inductive sender_op : Type := SendOne (p : InboundPacket) | SendBatch (ps : list InboundPacket).

Definition op_packets (op : sender_op) : list InboundPacket :=
  match op with SendOne p => [p] | SendBatch ps => ps end.

Definition sender_step (q : Q) (op : sender_op) : Q * bool :=
  match op with SendOne p => sender_send q p | SendBatch ps => send_batch q ps end.

(** The queue after a list of calls, and the packets of the calls that said yes. *)
Definition sender_run (q : Q) (ops : list sender_op) : Q * list InboundPacket :=
  foldl (fun '(q, sent) op => let '(q, ok) := sender_step q op in (q, sent ++ if ok then op_packets op else [])) (q, []) ops.

Lemma permits_queued q items : queued (foldl permit_send q items) = queued q ++ items.
Proof.
  revert q. induction items as [|x items IH]; intros q; cbn [foldl]; [by rewrite app_nil_r|].
  by rewrite IH, permit_queued, <- app_assoc.
Qed.

(** A call queues all its packets or none, and says which. *)
Lemma sender_step_all_or_none q op q' ok :
  sender_step q op = (q', ok) ->
  if ok then exists items, mapM encode (op_packets op) = Some items /\ queued q' = queued q ++ items else q' = q.
Proof.
  destruct op as [p|ps]; cbn [sender_step op_packets]; unfold sender_send, send_batch.
  - destruct (encode p) as [item|] eqn:E; [|by intros [= <- <-]].
    destruct (mpsc_try_send q item) as [q1|] eqn:Et; intros [= <- <-]; [|done]. exists [item].
    cbn. rewrite E. split; [done|]. by apply try_send_queued.
  - destruct (mapM encode ps) as [[|x items]|] eqn:E; [|destruct (mpsc_reserve _ _) as [q1|] eqn:Er|]; intros [= <- <-]; try done.
    + exists []. by rewrite app_nil_r.
    + exists (x :: items). split; [done|]. rewrite permits_queued, permit_queued, <- app_assoc. by rewrite (reserve_queued _ _ _ Er).
Qed.

Lemma decoded_encode ps items :
  Forall packet_ok ps -> mapM encode ps = Some items -> decoded items = Some (map (fun p => Some (received p)) ps).
Proof.
  intros Hp H. apply mapM_Some in H. unfold decoded. apply mapM_Some. induction H as [|p [ch bs] ps items He H IH]; [constructor|].
  apply Forall_cons in Hp as [Hp Hps]. cbn. constructor; [|by apply IH].
  destruct (decode_encode p ch bs [] Hp He) as [_ E]. cbn. by rewrite app_nil_r in E.
Qed.

(** What is queued for the session is what the calls that said yes were given, whole
    batches in their order, and the streamer decodes it to just these packets. *)
Theorem queue_carries_input q ops (r := sender_run q ops) :
  Forall (fun op => Forall packet_ok (op_packets op)) ops ->
  exists items, queued r.1 = queued q ++ items /\ decoded items = Some (map (fun p => Some (received p)) r.2).
Proof.
  intros H. subst r. unfold sender_run.
  assert (forall st items, queued st.1 = queued q ++ items -> decoded items = Some (map (fun p => Some (received p)) st.2) ->
    exists items', let st' := foldl (fun '(q, sent) op => let '(q, ok) := sender_step q op in (q, sent ++ if ok then op_packets op else [])) st ops in
    queued st'.1 = queued q ++ items' /\ decoded items' = Some (map (fun p => Some (received p)) st'.2)) as Hg.
  { induction H as [|op ops Hop H IH]; intros [q1 sent] items Hq Hd; [by exists items|]. cbn [foldl].
    destruct (sender_step q1 op) as [q2 ok] eqn:E. apply sender_step_all_or_none in E. destruct ok.
    - destruct E as (new & En & Eq). apply (IH _ (items ++ new)); cbn [fst snd] in *; [by rewrite Eq, Hq, app_assoc|].
      rewrite map_app. unfold decoded in *. apply mapM_Some. apply mapM_Some in Hd. apply Forall2_app; [done|].
      apply mapM_Some. by apply decoded_encode.
    - subst q2. apply (IH _ items); cbn [fst snd] in *; [done|]. by rewrite app_nil_r. }
  destruct (Hg (q, []) []) as [items Hi]; [by rewrite app_nil_r|done|]. by exists items.
Qed.
End sender.

(** ** A queue of given capacity *)

Record BoundedQueue := mkBounded { bounded_items : list (Z * list Z); bounded_cap : nat }.

Definition has_room (q : BoundedQueue) (n : nat) : bool := bool_decide (length (bounded_items q) + n <= bounded_cap q)%nat.

Definition bounded_push (q : BoundedQueue) (x : Z * list Z) : BoundedQueue := mkBounded (bounded_items q ++ [x]) (bounded_cap q).

#[export] Instance bounded_mpsc : Mpsc BoundedQueue := {
  queued := bounded_items;
  mpsc_try_send q x := if has_room q 1 then Some (bounded_push q x) else None;
  mpsc_reserve q n := if has_room q n then Some q else None;
  permit_send := bounded_push
}.

#[export] Instance bounded_laws : MpscLaws BoundedQueue.
Proof.
  split; cbn.
  - intros q x q'. destruct (has_room q 1); [|done]. by intros [= <-].
  - intros q n q'. destruct (has_room q n); [|done]. by intros [= <-].
  - done.
Qed.

(** Two places are left for three: the batch is refused whole, a shorter one fits. *)
Lemma queue_carries_input_witness :
  let M := two_moonlight in
  let q := mkBounded [] 2 in
  let p := MouseMove (-2) 300 in
  (sender_run q [SendBatch [p; p; p]; SendBatch [p; p]; SendOne p]).2 = [p; p] /\
  exists items, queued (sender_run q [SendBatch [p; p; p]; SendBatch [p; p]; SendOne p]).1 = queued q ++ items /\
    decoded items = Some (map (fun p => Some (received p)) (sender_run q [SendBatch [p; p; p]; SendBatch [p; p]; SendOne p]).2).
Proof.
  intros M q p. assert (L := two_moonlight_laws). split; [reflexivity|].
  apply (queue_carries_input q [SendBatch [p; p; p]; SendBatch [p; p]; SendOne p]).
  repeat constructor; cbn; unfold in_i16, in_i; lia.
Defined.
