(* ===== verification/Cursor.v ===== *)
(** * The host's cursor at the client

    The wire of the cursor channel (streamer/src/transport/cursor_wire.rs writes it,
    client-transport/src/cursor.rs reads it), the host's tracker
    (streamer/src/transport/cursor_tracker.rs), what the client keeps, and who draws
    the cursor. Sampling the cursor, extracting its image and sending are the
    environment's; a cursor handle is an [isize]. *)
From S2P Require Import Prelude Wire ByteBuffer DesktopControl CcShared.

#[local] Arguments le_bytes : simpl never.
#[local] Arguments signed : simpl never.

(** ** The wire *)

Definition CURSOR_KIND_POS : Z := 0.
Definition CURSOR_KIND_SHAPE : Z := 1.
Definition CURSOR_POS_LEN : Z := 14.
Definition CURSOR_POS_V2_LEN : Z := 18.
Definition CURSOR_SHAPE_HEADER_LEN : Z := 17.
Definition CURSOR_SHAPE_MAX_PNG_LEN : Z := 262144.

Record CursorPos := mkPos { pos_visible : bool; pos_x : Z; pos_y : Z; vw : Z; vh : Z; pos_shape_id : Z }.
Record CursorShape := mkShape { shape_id : Z; shape_w : Z; shape_h : Z; hot_x : Z; hot_y : Z; png : list Z }.

#[export] Instance cursor_pos_eq : EqDecision CursorPos.
Proof. solve_decision. Defined.

Definition encode_pos (p : CursorPos) : list Z :=
  [CURSOR_KIND_POS] ++ [bool_byte (pos_visible p)] ++ u32_le (wrap 32 (pos_x p)) ++ u32_le (wrap 32 (pos_y p)) ++
  u16_le (vw p) ++ u16_le (vh p) ++ u32_le (pos_shape_id p).

Definition decode_pos (bs : list Z) : option CursorPos :=
  if (len bs =? 0) || negb (at0 bs 0 =? CURSOR_KIND_POS) then None
  else if len bs <? CURSOR_POS_LEN then None
  else Some (mkPos (negb (at0 bs 1 =? 0)) (signed 32 (le_field bs 2 6)) (signed 32 (le_field bs 6 10))
               (le_field bs 10 12) (le_field bs 12 14)
               (if CURSOR_POS_V2_LEN <=? len bs then le_field bs 14 18 else 0)).

Definition encode_shape (s : CursorShape) : option (list Z) :=
  if CURSOR_SHAPE_MAX_PNG_LEN <? len (png s) then None
  else Some ([CURSOR_KIND_SHAPE] ++ u32_le (shape_id s) ++ u16_le (shape_w s) ++ u16_le (shape_h s) ++
             u16_le (hot_x s) ++ u16_le (hot_y s) ++ u32_le (wrap 32 (len (png s))) ++ png s).

Definition decode_shape (bs : list Z) : option CursorShape :=
  if (len bs <? CURSOR_SHAPE_HEADER_LEN) || negb (at0 bs 0 =? CURSOR_KIND_SHAPE) then None
  else
    let png_len := le_field bs 13 17 in
    if CURSOR_SHAPE_MAX_PNG_LEN <? png_len then None
    else if len bs <? CURSOR_SHAPE_HEADER_LEN + png_len then None
    else Some (mkShape (le_field bs 1 5) (le_field bs 5 7) (le_field bs 7 9) (le_field bs 9 11) (le_field bs 11 13)
                 (take (Z.to_nat png_len) (drop 17 bs))).

(** ** What the client keeps *)

Record CursorShared := mkCursor { cur_visible : bool; cur_pos : Z; cur_shape_id : Z; cur_shape : option CursorShape }.

Definition cursor_default : CursorShared := mkCursor true 0 0 None.

Definition cursor_store (c : CursorShared) (p : CursorPos) : CursorShared :=
  mkCursor (pos_visible p) (pack (wrap 32 (pos_x p)) (wrap 32 (pos_y p))) (pos_shape_id p) (cur_shape c).

Definition cursor_pos (c : CursorShared) : Z * Z :=
  let '(x, y) := unpack (cur_pos c) in (signed 32 x, signed 32 y).

Definition store_shape (c : CursorShared) (s : CursorShape) : CursorShared :=
  mkCursor (cur_visible c) (cur_pos c) (cur_shape_id c) (Some s).

(** The callback of the cursor channel (session.rs, create_peer). *)
Definition cursor_message (c : CursorShared) (msg : list Z) : CursorShared :=
  match decode_pos msg with
  | Some p => cursor_store c p
  | None => match decode_shape msg with Some s => store_shape c s | None => c end
  end.

(** ** The host's tracker *)

Inductive SinkState : Type := SinkWait | SinkReady | SinkClosed.

Definition MAX_SEND_FAILURES : Z := 10.

Record tracker := mkTracker {
  tracker_last : option (CursorPos * Z);
  failures : Z;
  last_extracted_hcursor : option Z;
  current_shape_id : Z;
  next_shape_id : Z;
  exited : bool
}.

Definition tracker_new : tracker := mkTracker None 0 None 0 1 false.

(** What the environment answers in a tick: the sink, the sample with its handle,
    the image of the handle (its id is not read), and the two sends. *)
Record cursor_env := mkEnv {
  sink : SinkState; sampled : option (CursorPos * Z); extracted : option CursorShape;
  shape_sent : bool; pos_sent : bool
}.

(** A failed send; the tracker exits after ten in a row. *)
Definition send_failure (t : tracker) : tracker :=
  let n := failures t + 1 in
  mkTracker (tracker_last t) n (last_extracted_hcursor t) (current_shape_id t) (next_shape_id t) (MAX_SEND_FAILURES <=? n).

(** The shape of a handle that is not the last extracted; with what is sent. *)
Definition shape_section (t : tracker) (hcursor : Z) (e : cursor_env) : tracker * list (list Z) :=
  if decide (last_extracted_hcursor t = Some hcursor) then (t, [])
  else
    match extracted e with
    | Some s =>
        match encode_shape (mkShape (next_shape_id t) (shape_w s) (shape_h s) (hot_x s) (hot_y s) (png s)) with
        | Some msg =>
            if shape_sent e
            then (mkTracker (tracker_last t) 0 (Some hcursor) (next_shape_id t) (Z.max (wrap32 (next_shape_id t + 1)) 1) false, [msg])
            else (send_failure t, [])
        | None => (mkTracker (tracker_last t) (failures t) (Some hcursor) 0 (next_shape_id t) false, [])
        end
    | None => (mkTracker (tracker_last t) (failures t) (last_extracted_hcursor t) 0 (next_shape_id t) false, [])
    end.

Definition pos_section (t : tracker) (s : CursorPos) (hcursor : Z) (e : cursor_env) : tracker * list (list Z) :=
  let to_send := mkPos (pos_visible s) (pos_x s) (pos_y s) (vw s) (vh s) (current_shape_id t) in
  if decide (tracker_last t = Some (s, hcursor)) then (t, [])
  else if pos_sent e
  then (mkTracker (Some (s, hcursor)) 0 (last_extracted_hcursor t) (current_shape_id t) (next_shape_id t) false, [encode_pos to_send])
  else (send_failure t, []).

Definition tracker_tick (t : tracker) (e : cursor_env) : tracker * list (list Z) :=
  if exited t then (t, [])
  else
    match sink e with
    | SinkClosed => (mkTracker (tracker_last t) (failures t) (last_extracted_hcursor t) (current_shape_id t) (next_shape_id t) true, [])
    | SinkWait => (mkTracker (tracker_last t) (failures t) None (current_shape_id t) (next_shape_id t) false, [])
    | SinkReady =>
        match sampled e with
        | None => (t, [])
        | Some (s, hcursor) =>
            let '(t, out) := shape_section t hcursor e in
            if exited t then (t, out)
            else let '(t, out') := pos_section t s hcursor e in (t, out ++ out')
        end
    end.

(** ** Who draws the cursor *)

Record ClientCursorAuthority := mkAuthority {
  auth_lease : OwnershipLease; auth_owner : CursorOwner; latest_shape_id : Z; applied_shape_id : option Z; auth_visible : bool
}.

Definition authority_default : ClientCursorAuthority := mkAuthority lease_new OwnerHost 0 None true.

Definition apply_authority (a : ClientCursorAuthority) (g : ControlGeneration) (owner : CursorOwner) : ClientCursorAuthority * bool :=
  let '(l, ok) := admit_claim (auth_lease a) g in
  if ok then (mkAuthority l owner (latest_shape_id a) (applied_shape_id a) (auth_visible a), true)
  else (mkAuthority l (auth_owner a) (latest_shape_id a) (applied_shape_id a) (auth_visible a), false).

Definition render_client (a : ClientCursorAuthority) : bool := match auth_owner a with OwnerClient => true | _ => false end.
Definition host_baked (a : ClientCursorAuthority) : bool := match auth_owner a with OwnerHost => true | _ => false end.

Definition note_shape (a : ClientCursorAuthority) (id : Z) : ClientCursorAuthority :=
  mkAuthority (auth_lease a) (auth_owner a) id (applied_shape_id a) (auth_visible a).

Definition set_visible (a : ClientCursorAuthority) (v : bool) : ClientCursorAuthority :=
  mkAuthority (auth_lease a) (auth_owner a) (latest_shape_id a) (applied_shape_id a) v.

Definition take_shape_change (a : ClientCursorAuthority) : ClientCursorAuthority * option Z :=
  if negb (render_client a) || (latest_shape_id a =? 0) then (a, None)
  else if decide (applied_shape_id a = Some (latest_shape_id a)) then (a, None)
  else (mkAuthority (auth_lease a) (auth_owner a) (latest_shape_id a) (Some (latest_shape_id a)) (auth_visible a),
        Some (latest_shape_id a)).

Definition on_reconnect (a : ClientCursorAuthority) : ClientCursorAuthority :=
  mkAuthority (release (auth_lease a)) OwnerHost (latest_shape_id a) None (auth_visible a).

(** ** Round trips *)

Definition pos_ok (p : CursorPos) : Prop :=
  in_i 32 (pos_x p) /\ in_i 32 (pos_y p) /\ in_u16 (vw p) /\ in_u16 (vh p) /\ in_u32 (pos_shape_id p).

Definition shape_ok (s : CursorShape) : Prop :=
  in_u32 (shape_id s) /\ in_u16 (shape_w s) /\ in_u16 (shape_h s) /\ in_u16 (hot_x s) /\ in_u16 (hot_y s).

Lemma wrap32_in_u x : in_u32 (wrap 32 x).
Proof. apply Z.mod_pos_bound. lia. Qed.

Lemma bool_byte_flag b : negb (bool_byte b =? 0) = b.
Proof. by destruct b. Qed.

Lemma decode_encode_pos p rest : pos_ok p -> decode_pos (encode_pos p ++ rest) = Some p.
Proof.
  intros (Hx & Hy & Hw & Hh & Hs). pose proof (len_nonneg rest). pose proof (wrap32_in_u (pos_x p)). pose proof (wrap32_in_u (pos_y p)).
  unfold decode_pos, encode_pos. set (bs := _ ++ rest).
  assert (Hl : len bs = 18 + len rest) by (subst bs; wire_lens; lia). rewrite Hl.
  destruct (Z.eqb_spec (18 + len rest) 0); [lia|]. unfold CURSOR_POS_LEN, CURSOR_POS_V2_LEN.
  destruct (Z.ltb_spec (18 + len rest) 14); [lia|]. destruct (Z.leb_spec 18 (18 + len rest)); [|lia].
  subst bs. read_fields. rewrite Z.eqb_refl. cbn [orb negb].
  rewrite bool_byte_flag, !signed_wrap by done. by destruct p.
Qed.

(** The client of the first version reads the first 14 bytes. *)
Lemma decode_pos_v1 p : pos_ok p -> decode_pos (take 14 (encode_pos p)) = Some (mkPos (pos_visible p) (pos_x p) (pos_y p) (vw p) (vh p) 0).
Proof.
  intros (Hx & Hy & Hw & Hh & Hs). pose proof (wrap32_in_u (pos_x p)). pose proof (wrap32_in_u (pos_y p)).
  unfold decode_pos. assert (Hl : len (take 14 (encode_pos p)) = 14) by done. rewrite Hl.
  rewrite !le_field_take, !at0_take by lia. unfold encode_pos. read_fields. cbn.
  rewrite !signed_wrap by done. by destruct (pos_visible p).
Qed.

Lemma decode_encode_shape s msg rest :
  shape_ok s -> encode_shape s = Some msg -> decode_shape (msg ++ rest) = Some s /\ decode_pos (msg ++ rest) = None.
Proof.
  intros (Hi & Hw & Hh & Hx & Hy). unfold encode_shape. destruct (Z.ltb_spec CURSOR_SHAPE_MAX_PNG_LEN (len (png s))) as [|Hp]; [done|].
  intros E. apply (inj Some) in E as <-. pose proof (len_nonneg (png s)) as Hn. pose proof (len_nonneg rest).
  unfold CURSOR_SHAPE_MAX_PNG_LEN in *. assert (Hwl : wrap 32 (len (png s)) = len (png s)) by (apply Z.mod_small; lia).
  rewrite Hwl. assert (in_u32 (len (png s))) by (unfold in_u; lia). unfold decode_shape, decode_pos. set (bs := _ ++ rest).
  assert (Hl : len bs = 17 + len (png s) + len rest) by (subst bs; wire_lens; lia). rewrite Hl.
  unfold CURSOR_SHAPE_HEADER_LEN, CURSOR_SHAPE_MAX_PNG_LEN.
  destruct (Z.ltb_spec (17 + len (png s) + len rest) 17); [lia|]. destruct (Z.eqb_spec (17 + len (png s) + len rest) 0); [lia|].
  subst bs. read_fields. cbn [orb negb Z.eqb CURSOR_KIND_SHAPE CURSOR_KIND_POS Pos.eqb]. split; [|done].
  destruct (Z.ltb_spec 262144 (len (png s))); [lia|].
  destruct (Z.ltb_spec (17 + len (png s) + len rest) (17 + len (png s))); [lia|]. rewrite take_len_app. by destruct s.
Qed.

(** What is stored is what is read, negative coordinates included. *)
Lemma stored_pos c p : pos_ok p -> cursor_pos (cursor_store c p) = (pos_x p, pos_y p).
Proof.
  intros (Hx & Hy & _). unfold cursor_pos, cursor_store. cbn [cur_pos]. rewrite unpack_pack by apply wrap32_in_u.
  by rewrite !signed_wrap.
Qed.

(** ** Tracker and client *)

(** The channel is reliable and ordered, so the client has handled what was sent.
    [shown_for] is the handle whose image was sent last. *)
Record cursor_world := mkCursorWorld { host : tracker; client : CursorShared; shown_for : option Z }.

Definition cursor_world_new : cursor_world := mkCursorWorld tracker_new cursor_default None.

(** Whether a tick has sent an image. *)
Definition sends_shape (t : tracker) (e : cursor_env) : bool :=
  match sink e, sampled e with
  | SinkReady, Some (_, h) => negb (exited t) && negb (bool_decide ((shape_section t h e).2 = []))
  | _, _ => false
  end.

Definition cursor_step (w : cursor_world) (e : cursor_env) : cursor_world :=
  let '(t, out) := tracker_tick (host w) e in
  mkCursorWorld t (foldl cursor_message (client w) out)
    (if sends_shape (host w) e then snd <$> sampled e else shown_for w).

Definition cursor_run (es : list cursor_env) : cursor_world := foldl cursor_step cursor_world_new es.

Definition env_ok (e : cursor_env) : Prop :=
  (forall p h, sampled e = Some (p, h) -> pos_ok p /\ pos_shape_id p = 0) /\ (forall s, extracted e = Some s -> shape_ok s).

(** The image the client has, if the id the host reports stands for one. *)
Definition has_shape (c : CursorShared) (id : Z) : Prop := id = 0 \/ exists s, cur_shape c = Some s /\ shape_id s = id.

Record cursor_ok (w : cursor_world) : Prop := {
  co_next : 1 <= next_shape_id (host w) < 4294967296;
  co_current : in_u32 (current_shape_id (host w)) /\ has_shape (client w) (current_shape_id (host w));
  co_handle : current_shape_id (host w) <> 0 -> shown_for w = last_extracted_hcursor (host w) \/ last_extracted_hcursor (host w) = None
}.

(** The image sent for a handle, as the client gets it. *)
Lemma shape_section_spec t c h e t' out :
  env_ok e -> 1 <= next_shape_id t < 4294967296 -> in_u32 (current_shape_id t) -> has_shape c (current_shape_id t) ->
  exited t = false -> shape_section t h e = (t', out) ->
  let c' := foldl cursor_message c out in
  1 <= next_shape_id t' < 4294967296 /\ in_u32 (current_shape_id t') /\ has_shape c' (current_shape_id t') /\
  cur_shape_id c' = cur_shape_id c /\ tracker_last t' = tracker_last t /\
  match out with
  | [] => (last_extracted_hcursor t' = last_extracted_hcursor t \/ current_shape_id t' = 0) /\ c' = c /\
          (shape_sent e = false \/ last_extracted_hcursor t = Some h \/ current_shape_id t' = 0)
  | _ => last_extracted_hcursor t' = Some h
  end.
Proof.
  intros [_ Hs] Hn Hc Hh Hx. unfold shape_section. destruct (decide _) as [El|_].
  { intros E. apply pair_eq in E as [<- <-]. cbn. auto 10. }
  assert (H0 : in_u32 0 /\ has_shape c 0) by (split; [done|by left]).
  destruct (extracted e) as [s|]; [|intros E; apply pair_eq in E as [<- <-]; cbn; destruct H0; auto 10].
  set (s' := mkShape _ _ _ _ _ _). destruct (encode_shape s') as [msg|] eqn:Em;
    [|intros E; apply pair_eq in E as [<- <-]; cbn; destruct H0; auto 10].
  destruct (shape_sent e) eqn:Ess; intros E; apply pair_eq in E as [<- <-]; [|cbn; auto 10].
  assert (Hok : shape_ok s') by (destruct (Hs s eq_refl) as (_ & ? & ? & ? & ?); split_and!; try done; unfold in_u; cbn; lia).
  destruct (decode_encode_shape s' msg [] Hok Em) as [D1 D2]. rewrite app_nil_r in D1, D2.
  cbn [foldl]. unfold cursor_message. rewrite D2, D1. cbn. pose proof (wrap32_range (next_shape_id t + 1)).
  split_and!; try done; [lia..| |]; [unfold in_u; lia|]. right. by exists s'.
Qed.

Lemma pos_section_spec t c s h e t' out :
  pos_ok s -> in_u32 (current_shape_id t) -> has_shape c (current_shape_id t) -> pos_section t s h e = (t', out) ->
  let c' := foldl cursor_message c out in
  next_shape_id t' = next_shape_id t /\ current_shape_id t' = current_shape_id t /\
  last_extracted_hcursor t' = last_extracted_hcursor t /\ cur_shape c' = cur_shape c /\
  (out <> [] -> cur_shape_id c' = current_shape_id t /\ cursor_pos c' = (pos_x s, pos_y s) /\ cur_visible c' = pos_visible s).
Proof.
  intros Hok Hc Hh. unfold pos_section. destruct (decide _); [intros E; by apply pair_eq in E as [<- <-]|].
  destruct (pos_sent e); intros E; apply pair_eq in E as [<- <-]; [|done].
  destruct Hok as (Hx & Hy & Hw & Hv & _).
  set (p := mkPos (pos_visible s) (pos_x s) (pos_y s) (vw s) (vh s) (current_shape_id t)).
  assert (Hp : pos_ok p) by by split_and!. pose proof (decode_encode_pos p [] Hp) as D. rewrite app_nil_r in D.
  cbn [foldl]. unfold cursor_message. rewrite D. split_and!; try done. intros _. split_and!; [done|by rewrite stored_pos|done].
Qed.

Lemma foldl_messages c out out' : foldl cursor_message c (out ++ out') = foldl cursor_message (foldl cursor_message c out) out'.
Proof. apply foldl_app. Qed.

Lemma cursor_step_ok w e : env_ok e -> cursor_ok w -> cursor_ok (cursor_step w e).
Proof.
  intros He [H1 [H2 H3] H4]. unfold cursor_step, tracker_tick, sends_shape. destruct (exited (host w)) eqn:Ex.
  { cbn. assert (match sink e with SinkReady => match sampled e with Some _ => false | None => false end | _ => false end = false) as Hf
      by (by destruct (sink e), (sampled e)).
    split; cbn; [done|done|]. destruct (sink e); [done| |done]. by destruct (sampled e) as [[? ?]|]. }
  destruct (sink e) eqn:Esk; [split; cbn; [done|done|auto]| |split; cbn; done].
  destruct (sampled e) as [[s h]|] eqn:Esa; [|by split]. destruct He as [Hp Hs]. destruct (Hp s h Esa) as [Hpos _].
  destruct (shape_section (host w) h e) as [t1 out1] eqn:E1.
  destruct (shape_section_spec (host w) (client w) h e t1 out1 (conj Hp Hs) H1 H2 H3 Ex E1) as (N1 & N2 & N3 & N4 & _ & N5).
  cbn [snd negb andb]. assert (Hh : current_shape_id t1 <> 0 ->
    (if negb (bool_decide (out1 = [])) then snd <$> Some (s, h) else shown_for w) = last_extracted_hcursor t1 \/ last_extracted_hcursor t1 = None).
  { intros Hn. destruct out1 as [|m out1]; cbn in N5 |- *; [|by left]. destruct N5 as ([E|E] & Ec & N5); [rewrite E|done].
    assert (current_shape_id (host w) <> 0 -> shown_for w = last_extracted_hcursor (host w) \/ last_extracted_hcursor (host w) = None) by done.
    unfold shape_section in E1. destruct (decide _); [apply pair_eq in E1 as [<- _]; auto|]. destruct (extracted e) as [x|];
      [|apply pair_eq in E1 as [<- _]; done]. destruct (encode_shape _); [|apply pair_eq in E1 as [<- _]; done].
    destruct (shape_sent e); apply pair_eq in E1 as [<- E1]; [done|]. cbn in Hn. auto. }
  destruct (exited t1) eqn:Ex1; [by split|]. destruct (pos_section t1 s h e) as [t2 out2] eqn:E2.
  destruct (pos_section_spec t1 (foldl cursor_message (client w) out1) s h e t2 out2 Hpos N2 N3 E2) as (P1 & P2 & P3 & P4 & _).
  split; cbn [host client shown_for].
  - by rewrite P1.
  - rewrite P2, foldl_messages. split; [done|]. unfold has_shape in *. by rewrite P4.
  - by rewrite P2, P3.
Qed.

Lemma cursor_run_ok es : Forall env_ok es -> cursor_ok (cursor_run es).
Proof.
  unfold cursor_run. assert (H : cursor_ok cursor_world_new) by (split; cbn; [lia|split; [done|by left]|done]).
  revert H. generalize cursor_world_new. induction es as [|e es IH]; intros w H Hes; [done|].
  apply Forall_cons in Hes as [He Hes]. cbn [foldl]. apply IH; [by apply cursor_step_ok|done].
Qed.

(** C36: When a tick reports a sample, the client has its position and visibility, and the
    shape id the client then reads is that of no image or of the image it holds,
    which is the sampled handle's own unless an image has failed to be sent. *)
Theorem client_cursor_agrees es e s h (w := cursor_run es) (w' := cursor_step w e) :
  Forall env_ok es -> env_ok e -> sampled e = Some (s, h) -> tracker_last (host w) <> Some (s, h) ->
  exited (host w) = false -> sink e = SinkReady -> exited (host w') = false -> pos_sent e = true ->
  cursor_pos (client w') = (pos_x s, pos_y s) /\ cur_visible (client w') = pos_visible s /\
  has_shape (client w') (cur_shape_id (client w')) /\
  (shape_sent e = true -> cur_shape_id (client w') <> 0 -> shown_for w' = Some h).
Proof.
  intros Hes He Esa Hlast Hx Esk Hx' Hps. pose proof (cursor_run_ok es Hes) as Hw. fold w in Hw.
  pose proof (cursor_step_ok w e He Hw) as Hw'. fold w' in Hw'. destruct Hw as [H1 [H2 H3] H4].
  subst w'. unfold cursor_step, tracker_tick, sends_shape in *. rewrite Hx, Esk, Esa in *. destruct He as [Hp Hs]. destruct (Hp s h Esa) as [Hpos _].
  destruct (shape_section (host w) h e) as [t1 out1] eqn:E1.
  destruct (shape_section_spec (host w) (client w) h e t1 out1 (conj Hp Hs) H1 H2 H3 Hx E1) as (N1 & N2 & N3 & N4 & N6 & N5).
  destruct (exited t1) eqn:Ex1; [cbn in Hx'; congruence|]. destruct (pos_section t1 s h e) as [t2 out2] eqn:E2.
  destruct (pos_section_spec t1 (foldl cursor_message (client w) out1) s h e t2 out2 Hpos N2 N3 E2) as (P1 & P2 & P3 & P4 & P5).
  assert (Hne : out2 <> []).
  { unfold pos_section in E2. rewrite decide_False in E2 by by rewrite N6. rewrite Hps in E2. by apply pair_eq in E2 as [_ <-]. }
  destruct (P5 Hne) as (Q1 & Q2 & Q3). cbn [client shown_for host snd negb andb]. rewrite !foldl_messages. split_and!; [done|done| |].
  - rewrite Q1. unfold has_shape in *. by rewrite P4.
  - intros Hss Hn. rewrite Q1 in Hn. destruct out1 as [|m out1]; cbn in N5 |- *; [|done].
    destruct N5 as (_ & _ & [N5|[N5|N5]]); [congruence| |done].
    assert (E : t1 = host w) by (unfold shape_section in E1; rewrite decide_True in E1 by done; by apply pair_eq in E1 as [<- _]).
    rewrite E in Hn. destruct (H4 Hn) as [E4|E4]; [by rewrite E4|congruence].
Qed.

Definition sample_at (x : Z) : CursorPos := mkPos true x (-2) 1920 1080 0.
Definition some_image : CursorShape := mkShape 0 32 32 1 1 [137; 80].
Definition ready (x h : Z) (image : option CursorShape) : cursor_env := mkEnv SinkReady (Some (sample_at x, h)) image true true.

Lemma client_cursor_agrees_witness (es := [ready 10 5 (Some some_image)]) (e := ready 20 5 None) :
  current_shape_id (host (cursor_run es)) = 1 /\
  cursor_pos (client (cursor_step (cursor_run es) e)) = (20, -2) /\
  cur_visible (client (cursor_step (cursor_run es) e)) = true /\
  has_shape (client (cursor_step (cursor_run es) e)) (cur_shape_id (client (cursor_step (cursor_run es) e))) /\
  (true = true -> cur_shape_id (client (cursor_step (cursor_run es) e)) <> 0 -> shown_for (cursor_step (cursor_run es) e) = Some 5).
Proof.
  assert (Hok : forall x h i, (i = None \/ i = Some some_image) -> 0 <= x < 100 -> env_ok (ready x h i)).
  { intros x h i Hi Hx. split; cbn.
    - intros p k Hk. apply (inj Some), pair_eq in Hk as [<- _]. cbn. unfold pos_ok, in_i, in_u. cbn. repeat split; lia.
    - intros s Hs. destruct Hi as [-> | ->]; [done|]. apply (inj Some) in Hs as <-. by_decide || (unfold shape_ok, in_u; cbn; repeat split; lia). }
  split; [vm_compute; reflexivity|].
  apply (client_cursor_agrees es e (sample_at 20) 5); [..|done|done|done|done];
    [apply Forall_singleton, Hok; [by right|lia]|apply Hok; [by left|lia]|done|vm_compute; congruence].
Defined.

(** An image extracted only at the second try, the cursor at rest: the sample is not
    sent again, so the client goes on without the image it has. *)
Example retried_image_not_reported :
  let w := cursor_run [ready 10 5 None; ready 10 5 (Some some_image); ready 10 5 (Some some_image)] in
  current_shape_id (host w) = 1 /\ cur_shape_id (client w) = 0.
Proof. vm_compute. split; reflexivity. Qed.

(** After another handle whose image could not be extracted, the handle before is not
    extracted again and its image, which the client has, is not reported any more. *)
Example known_image_forgotten :
  let w := cursor_run [ready 10 5 (Some some_image); ready 20 6 None; ready 30 5 (Some some_image); ready 40 5 (Some some_image)] in
  cur_shape_id (client w) = 0 /\ shown_for w = Some 5 /\ exists s, cur_shape (client w) = Some s /\ shape_id s = 1.
Proof. vm_compute. split_and!; [reflexivity..|]. by eexists. Qed.

(** ** The authority *)

(** One side draws; a claim is taken if the lease takes it. *)
Lemma one_cursor a : host_baked a = negb (render_client a).
Proof. unfold host_baked, render_client. by destruct (auth_owner a). Qed.

(** A shape is handed over exactly when the client draws, knows one, and has not been
    handed it since the last reconnect; a second call then gives nothing. *)
Lemma take_shape_exact a :
  (take_shape_change a).2 =
    (if render_client a && negb (latest_shape_id a =? 0) && negb (bool_decide (applied_shape_id a = Some (latest_shape_id a)))
     then Some (latest_shape_id a) else None) /\
  (take_shape_change (take_shape_change a).1).2 = None.
Proof.
  assert (Hd : forall b, (take_shape_change b).1 = b \/ render_client b = true /\ (take_shape_change b).1 =
    mkAuthority (auth_lease b) (auth_owner b) (latest_shape_id b) (Some (latest_shape_id b)) (auth_visible b)).
  { intros b. unfold take_shape_change. destruct (render_client b); [|by left]. destruct (negb true || _); [by left|].
    destruct (decide _); [by left|by right]. }
  assert (H : (take_shape_change a).2 =
    (if render_client a && negb (latest_shape_id a =? 0) && negb (bool_decide (applied_shape_id a = Some (latest_shape_id a)))
     then Some (latest_shape_id a) else None)).
  { unfold take_shape_change. destruct (render_client a), (latest_shape_id a =? 0); cbn [negb orb andb]; try done.
    destruct (decide _); [by rewrite bool_decide_eq_true_2|by rewrite bool_decide_eq_false_2]. }
  split; [done|]. destruct (Hd a) as [E|[Er E]]; rewrite E.
  - destruct (take_shape_change a).2 as [id|] eqn:Et; [|done]. exfalso. unfold take_shape_change in E, Et.
    destruct (negb _ || _); [done|]. destruct (decide (applied_shape_id a = Some (latest_shape_id a))) as [|Hn]; [done|].
    apply Hn. cbn in E. by apply (f_equal applied_shape_id) in E.
  - unfold take_shape_change. cbn. destruct (negb _ || _); [done|]. by rewrite decide_True.
Qed.

(** After a reconnect the host draws, and once the client is the owner again the
    shape known before is handed over anew. *)
Lemma reconnect_restores a g :
  render_client (on_reconnect a) = false /\
  (latest_shape_id a <> 0 -> (take_shape_change (apply_authority (on_reconnect a) g OwnerClient).1).2 = Some (latest_shape_id a)).
Proof.
  split; [done|]. intros H. cbn. unfold take_shape_change, render_client. cbn.
  destruct (Z.eqb_spec (latest_shape_id a) 0); [done|]. cbn. by rewrite decide_False.
Qed.
