(* ===== verification/Clipboard.v ===== *)
(** * The clipboard between host and client (streamer/src/transport/clipboard.rs)

    The wire of texts and images, and the watcher's loop: what it publishes of the
    host's clipboard and what it applies from the peer. The clipboard, its sequence
    number and the sink are the environment's; the text of a Rust string is a list of
    code points. *)
From S2P Require Import Prelude Text Utf8 Wire Cursor.

#[local] Arguments le_bytes : simpl never.

(** ** The wire *)

Definition CLIPBOARD_KIND_TEXT : Z := 0.
Definition CLIPBOARD_MAX_LEN : Z := 262144.

Definition encode_text (t : text) : list Z := [CLIPBOARD_KIND_TEXT] ++ u32_le (wrap 32 (len (utf8 t))) ++ utf8 t.

(** [data.get(a..b)]. *)
Definition get_range (data : list Z) (a b : Z) : option (list Z) :=
  if b <=? len data then Some (slice data (Z.to_nat a) (Z.to_nat b)) else None.

Definition decode_text (data : list Z) : option text :=
  if (len data <? 5) || negb (at0 data 0 =? CLIPBOARD_KIND_TEXT) then None
  else
    let n := le_field data 1 5 in
    if CLIPBOARD_MAX_LEN <? n then None
    else get_range data 5 (5 + n) ≫= from_utf8.

Definition exceeds_cap (t : text) : bool := CLIPBOARD_MAX_LEN <? len (utf8 t).

Definition CLIPBOARD_KIND_IMAGE : Z := 1.
Definition CLIPBOARD_IMAGE_MAX_LEN : Z := 8388608.
Definition IMAGE_HEADER_LEN : Z := 9.
Definition PNG_SIGNATURE : list Z := [137; 80; 78; 71; 13; 10; 26; 10].

Record ClipboardImage := mkImage { img_width : Z; img_height : Z; img_png : list Z }.

Definition is_png (data : list Z) : bool := bool_decide (take 8 data = PNG_SIGNATURE).

Definition encode_image (width height : Z) (png : list Z) : option (list Z) :=
  if (CLIPBOARD_IMAGE_MAX_LEN <? len png) || negb (is_png png) then None
  else Some ([CLIPBOARD_KIND_IMAGE] ++ u16_le width ++ u16_le height ++ u32_le (wrap 32 (len png)) ++ png).

Definition decode_image (data : list Z) : option ClipboardImage :=
  if (len data <? IMAGE_HEADER_LEN) || negb (at0 data 0 =? CLIPBOARD_KIND_IMAGE) then None
  else
    let n := le_field data 5 9 in
    if CLIPBOARD_IMAGE_MAX_LEN <? n then None
    else
      body ← get_range data IMAGE_HEADER_LEN (IMAGE_HEADER_LEN + n);
      if is_png body then Some (mkImage (le_field data 1 3) (le_field data 3 5) body) else None.

(** ** The watcher *)

Definition should_publish (current : text) (last_applied last_sent : option text) : bool :=
  if decide (last_applied = Some current) then false
  else if decide (last_sent = Some current) then false
  else true.

Record watcher := mkWatcher {
  last_seq : option Z;
  last_sent : option text;
  last_applied : option text;
  clip_failures : Z;
  apply_closed : bool;
  clip_exited : bool
}.

Definition watcher_new : watcher := mkWatcher None None None 0 false false.

(** The branches of the loop: a tick, with the sink, the sequence number, the text
    read and whether the send succeeds; and what the peer's channel gives. *)
Inductive clip_event : Type :=
| ClipTick (sink : SinkState) (seq : Z) (read : option text) (sent : bool)
| ClipRecv (received : option text).

Inductive clip_out : Type := Publish (t : text) | Apply (t : text).

Definition clip_tick (w : watcher) (sink : SinkState) (seq : Z) (read : option text) (sent : bool) : watcher * list clip_out :=
  match sink with
  | SinkClosed => (mkWatcher (last_seq w) (last_sent w) (last_applied w) (clip_failures w) (apply_closed w) true, [])
  | SinkWait => (w, [])
  | SinkReady =>
      if decide (last_seq w = Some seq) then (w, [])
      else
        let w := mkWatcher (Some seq) (last_sent w) (last_applied w) (clip_failures w) (apply_closed w) false in
        match read with
        | None => (w, [])
        | Some current =>
            if negb (should_publish current (last_applied w) (last_sent w)) then (w, [])
            else if exceeds_cap current then (w, [])
            else if sent
            then (mkWatcher (last_seq w) (Some current) (last_applied w) 0 (apply_closed w) false, [Publish current])
            else
              let n := clip_failures w + 1 in
              (mkWatcher (last_seq w) (last_sent w) (last_applied w) n (apply_closed w) (MAX_SEND_FAILURES <=? n), [])
        end
  end.

Definition clip_recv (w : watcher) (received : option text) : watcher * list clip_out :=
  if apply_closed w then (w, [])
  else
    match received with
    | None => (mkWatcher (last_seq w) (last_sent w) (last_applied w) (clip_failures w) true false, [])
    | Some t =>
        if exceeds_cap t then (w, [])
        else (mkWatcher (last_seq w) (last_sent w) (Some t) (clip_failures w) (apply_closed w) false, [Apply t])
    end.

Definition clip_step (w : watcher) (e : clip_event) : watcher * list clip_out :=
  if clip_exited w then (w, [])
  else match e with
       | ClipTick sink seq read sent => clip_tick w sink seq read sent
       | ClipRecv received => clip_recv w received
       end.

Definition clip_run (es : list clip_event) : watcher * list clip_out :=
  foldl (fun st e => let '(w, out) := clip_step st.1 e in (w, st.2 ++ out)) (watcher_new, []) es.

(** ** Round trips *)

Lemma get_range_app pre body rest :
  get_range (pre ++ body ++ rest) (len pre) (len pre + len body) = Some body.
Proof.
  unfold get_range. rewrite !len_app. pose proof (len_nonneg rest). destruct (Z.leb_spec (len pre + len body) (len pre + (len body + len rest))); [|lia].
  f_equal. unfold len, slice. rewrite Nat2Z.id, <- Nat2Z.inj_add, Nat2Z.id, drop_app_length.
  replace (length pre + length body - length pre)%nat with (length body) by lia. apply take_app_length.
Qed.

Lemma len_in_u32 {A} (l : list A) m : len l <= m -> m < 4294967296 -> wrap 32 (len l) = len l /\ in_u32 (len l).
Proof. intros H Hm. pose proof (len_nonneg l). unfold wrap, in_u. split; [apply Z.mod_small|]; lia. Qed.

Lemma decode_encode_text t rest :
  Forall scalar t -> exceeds_cap t = false -> decode_text (encode_text t ++ rest) = Some t.
Proof.
  intros Ht Hc. unfold exceeds_cap, CLIPBOARD_MAX_LEN in Hc. apply Z.ltb_ge in Hc.
  destruct (len_in_u32 (utf8 t) 262144 Hc) as [Hw Hu]; [done|]. unfold decode_text, encode_text. rewrite Hw.
  pose proof (len_nonneg rest). pose proof (len_nonneg (utf8 t)). set (n := len (utf8 t)) in *. set (bs := _ ++ rest).
  assert (Hl : len bs = 5 + n + len rest) by (subst bs n; wire_lens; lia). rewrite Hl.
  destruct (Z.ltb_spec (5 + n + len rest) 5); [lia|]. assert (Hf : le_field bs 1 5 = n) by (subst bs; by read_fields).
  assert (Hk : at0 bs 0 = 0) by done. rewrite Hf, Hk. cbn [orb negb Z.eqb CLIPBOARD_KIND_TEXT]. unfold CLIPBOARD_MAX_LEN.
  destruct (Z.ltb_spec 262144 n); [lia|].
  assert (E : bs = ([0] ++ u32_le n) ++ utf8 t ++ rest) by (subst bs; by rewrite <- !app_assoc).
  rewrite E. change 5 with (len ([0] ++ u32_le n)) at 1 2. unfold n at 2. rewrite get_range_app. cbn. by apply from_utf8_utf8.
Qed.

Lemma decode_encode_image width height png msg rest :
  in_u16 width -> in_u16 height -> encode_image width height png = Some msg ->
  decode_image (msg ++ rest) = Some (mkImage width height png) /\ decode_text (msg ++ rest) = None.
Proof.
  intros Hw Hh. unfold encode_image. destruct (Z.ltb_spec CLIPBOARD_IMAGE_MAX_LEN (len png)) as [|Hp]; [done|].
  destruct (is_png png) eqn:Ep; [|done]. intros E. apply (inj Some) in E as <-. unfold CLIPBOARD_IMAGE_MAX_LEN in Hp.
  destruct (len_in_u32 png 8388608 Hp) as [Hwr Hu]; [done|]. rewrite Hwr. pose proof (len_nonneg rest). pose proof (len_nonneg png).
  set (n := len png) in *. set (bs := _ ++ rest). assert (Hl : len bs = 9 + n + len rest) by (subst bs n; wire_lens; lia).
  unfold decode_image, decode_text, IMAGE_HEADER_LEN. rewrite Hl.
  destruct (Z.ltb_spec (9 + n + len rest) 9); [lia|].
  assert (Hf : le_field bs 5 9 = n) by (subst bs; by read_fields). assert (Hk : at0 bs 0 = 1) by done.
  assert (Hf1 : le_field bs 1 3 = width) by (subst bs; by read_fields).
  assert (Hf2 : le_field bs 3 5 = height) by (subst bs; by read_fields).
  rewrite Hf, Hk, Hf1, Hf2. cbn [orb negb Z.eqb CLIPBOARD_KIND_IMAGE CLIPBOARD_KIND_TEXT Pos.eqb]. rewrite orb_true_r. split; [|done].
  unfold CLIPBOARD_IMAGE_MAX_LEN. destruct (Z.ltb_spec 8388608 n); [lia|].
  assert (E : bs = ([1] ++ u16_le width ++ u16_le height ++ u32_le n) ++ png ++ rest) by (subst bs; by rewrite <- !app_assoc).
  rewrite E. change 9 with (len ([1] ++ u16_le width ++ u16_le height ++ u32_le n)) at 1 2. unfold n at 3. rewrite get_range_app.
  cbn [mbind option_bind]. by rewrite Ep.
Qed.

(** ** No echo *)

Definition published (o : clip_out) : option text := match o with Publish t => Some t | Apply _ => None end.
Definition applied (o : clip_out) : option text := match o with Apply t => Some t | Publish _ => None end.

(** The last of a kind in a log. *)
Definition latest (f : clip_out -> option text) (log : list clip_out) : option text := last (omap f log).

(** Every text published differs from the last one published and from the last one
    applied before it, and fits. *)
Inductive log_ok : list clip_out -> Prop :=
| LogNil : log_ok []
| LogApply log t : log_ok log -> exceeds_cap t = false -> log_ok (log ++ [Apply t])
| LogPublish log t : log_ok log -> exceeds_cap t = false ->
    latest published log <> Some t -> latest applied log <> Some t -> log_ok (log ++ [Publish t]).

Lemma latest_snoc f log o : latest f (log ++ [o]) = match f o with Some t => Some t | None => latest f log end.
Proof.
  unfold latest. rewrite omap_app. cbn. destruct (f o); [by rewrite last_snoc|by rewrite app_nil_r].
Qed.

Record clip_ok (st : watcher * list clip_out) : Prop := {
  ck_sent : last_sent st.1 = latest published st.2;
  ck_applied : last_applied st.1 = latest applied st.2;
  ck_log : log_ok st.2
}.

Lemma clip_step_ok w log e w' out : clip_ok (w, log) -> clip_step w e = (w', out) -> clip_ok (w', log ++ out).
Proof.
  intros [H1 H2 H3]. cbn [fst snd] in *.
  assert (Hq : forall x, last_sent x = last_sent w -> last_applied x = last_applied w -> clip_ok (x, log ++ []))
    by (intros x E1 E2; rewrite app_nil_r; split; cbn; congruence).
  unfold clip_step. destruct (clip_exited w); [intros E; apply pair_eq in E as [<- <-]; by apply Hq|].
  destruct e as [sink seq read sent|received]; cbn.
  - unfold clip_tick. destruct sink; [intros E; apply pair_eq in E as [<- <-]; by apply Hq| |intros E; apply pair_eq in E as [<- <-]; by apply Hq].
    destruct (decide _); [intros E; apply pair_eq in E as [<- <-]; by apply Hq|].
    destruct read as [t|]; [|intros E; apply pair_eq in E as [<- <-]; by apply Hq]. cbn [last_applied last_sent].
    unfold should_publish. destruct (decide (last_applied w = Some t)) as [|Ha]; [intros E; apply pair_eq in E as [<- <-]; by apply Hq|].
    destruct (decide (last_sent w = Some t)) as [|Hs]; [intros E; apply pair_eq in E as [<- <-]; by apply Hq|]. cbn [negb].
    destruct (exceeds_cap t) eqn:Ec; [intros E; apply pair_eq in E as [<- <-]; by apply Hq|].
    destruct sent; intros E; apply pair_eq in E as [<- <-]; [|by apply Hq].
    split; cbn; rewrite ?latest_snoc; cbn; [done|done|]. apply LogPublish; congruence.
  - unfold clip_recv. destruct (apply_closed w); [intros E; apply pair_eq in E as [<- <-]; by apply Hq|].
    destruct received as [t|]; [|intros E; apply pair_eq in E as [<- <-]; by apply Hq].
    destruct (exceeds_cap t) eqn:Ec; intros E; apply pair_eq in E as [<- <-]; [by apply Hq|].
    split; cbn; rewrite ?latest_snoc; cbn; [done|done|]. by apply LogApply.
Qed.

Lemma clip_run_ok es : clip_ok (clip_run es).
Proof.
  unfold clip_run. assert (H : clip_ok (watcher_new, [])) by (split; cbn; [done|done|constructor]).
  revert H. generalize (watcher_new, @nil clip_out). induction es as [|e es IH]; intros [w log] H; [done|].
  cbn [foldl fst snd]. destruct (clip_step w e) as [w' out] eqn:E. apply IH. by eapply clip_step_ok.
Qed.

Lemma log_ok_publish log t rest : log_ok (log ++ Publish t :: rest) ->
  exceeds_cap t = false /\ latest published log <> Some t /\ latest applied log <> Some t.
Proof.
  induction rest as [|o rest IH] using rev_ind; intros H; inversion H as [E|l x Hl Hc E|l x Hl Hc Hp Ha E].
  - by destruct log.
  - apply app_inj_tail in E as [_ ?]. done.
  - apply app_inj_tail in E as [-> E]. by injection E as ->.
  - by destruct log.
  - change (Publish t :: rest ++ [o]) with ((Publish t :: rest) ++ [o]) in E. rewrite app_assoc in E. apply app_inj_tail in E as [-> _]. auto.
  - change (Publish t :: rest ++ [o]) with ((Publish t :: rest) ++ [o]) in E. rewrite app_assoc in E. apply app_inj_tail in E as [-> _]. auto.
Qed.

(** However ticks and received texts follow each other: a text that the watcher
    publishes is neither the last it applied for the peer nor the last it published,
    so nothing bounces between the two ends, and the peer's decoder reads it. *)
Theorem clipboard_no_echo es log t rest :
  (clip_run es).2 = log ++ Publish t :: rest -> Forall scalar t ->
  latest applied log <> Some t /\ latest published log <> Some t /\
  forall more, decode_text (encode_text t ++ more) = Some t.
Proof.
  intros E Ht. pose proof (ck_log _ (clip_run_ok es)) as H. rewrite E in H. apply log_ok_publish in H as (Hc & Hp & Ha).
  split_and!; [done..|]. intros more. by apply decode_encode_text.
Qed.

Definition clip_copy (seq : Z) (t : text) : clip_event := ClipTick SinkReady seq (Some t) true.

Lemma clipboard_no_echo_witness :
  (clip_run [clip_copy 1 [97]; ClipRecv (Some [98]); clip_copy 2 [98]; clip_copy 3 [99]]).2 = [Publish [97]; Apply [98]] ++ Publish [99] :: [] /\
  latest applied [Publish [97]; Apply [98]] <> Some [99] /\ latest published [Publish [97]; Apply [98]] <> Some [99] /\
  forall more, decode_text (encode_text [99] ++ more) = Some [99].
Proof.
  split; [vm_compute; reflexivity|].
  apply (clipboard_no_echo [clip_copy 1 [97]; ClipRecv (Some [98]); clip_copy 2 [98]; clip_copy 3 [99]] _ _ []); [vm_compute; reflexivity|].
  repeat constructor; done.
Defined.

(** A text copied again on the host after the peer has replaced it is not published:
    the peer keeps its own. *)
Example copied_again_not_published :
  (clip_run [clip_copy 1 [97]; ClipRecv (Some [98]); clip_copy 2 [98]; clip_copy 3 [97]]).2 = [Publish [97]; Apply [98]].
Proof. vm_compute. reflexivity. Qed.

(** A change whose send fails is not tried again. *)
Example failed_send_not_retried :
  (clip_run [ClipTick SinkReady 1 (Some [97]) false; clip_copy 1 [97]; clip_copy 1 [97]]).2 = [].
Proof. vm_compute. reflexivity. Qed.
