(* ===== verification/HumanJson.v ===== *)
(** * JSON with comments and trailing commas (src/human_json.rs)

    The preprocessor that blanks comments and trailing commas before a settings file
    is parsed. Its peek buffer holds the characters taken from the iterator and not
    consumed yet, so buffer and iterator together are the rest of the text; consuming
    more than was peeked would underflow ([None]). *)
From Stdlib Require Import String.
From S2P Require Import Prelude Text.
Open Scope Z_scope.

Inductive CommentState : Type := NoComment | SingleLine | MultiLine.

(** What is left to read, and the new string. *)
Record JsonPreprocessor := mkPre { rest : text; new_string : text }.

Definition pre_new (t : text) : JsonPreprocessor := mkPre t [].

Definition peek (n : nat) (p : JsonPreprocessor) : option text :=
  if decide (n <= length (rest p))%nat then Some (take n (rest p)) else None.

Definition next (n : nat) (insert_instead : option text) (p : JsonPreprocessor) : option JsonPreprocessor :=
  match peek n p with
  | Some actual => Some (mkPre (drop n (rest p)) (new_string p ++ default actual insert_instead))
  | None => None
  end.

Definition is_nl (c : Z) : bool := (c =? 10) || (c =? 13).
Definition is_blank (c : Z) : bool := (c =? 32) || is_nl c.

Fixpoint validate_empty (fuel : nat) (state : CommentState) (p : JsonPreprocessor) : option JsonPreprocessor :=
  match fuel with
  | O => None
  | S fuel =>
      match state with
      | NoComment =>
          match peek 2 p with
          | Some [a; b] =>
              if a =? 35 then next 1 (Some [32]) p ≫= validate_empty fuel SingleLine
              else if (a =? 47) && (b =? 47) then next 2 (Some [32; 32]) p ≫= validate_empty fuel SingleLine
              else if (a =? 47) && (b =? 42) then next 2 (Some [32; 32]) p ≫= validate_empty fuel MultiLine
              else if is_blank a then next 1 None p ≫= validate_empty fuel NoComment
              else Some p
          | _ => Some p
          end
      | SingleLine =>
          match peek 1 p with
          | Some [a] =>
              if is_nl a then next 1 None p ≫= validate_empty fuel NoComment
              else next 1 (Some [32]) p ≫= validate_empty fuel SingleLine
          | _ => Some p
          end
      | MultiLine =>
          match peek 2 p with
          | Some [a; b] =>
              if (a =? 42) && (b =? 47) then next 2 (Some [32; 32]) p ≫= validate_empty fuel NoComment
              else if is_nl a then next 1 None p ≫= validate_empty fuel MultiLine
              else next 1 (Some [32]) p ≫= validate_empty fuel MultiLine
          | _ => Some p
          end
      end
  end.

(** The characters of a string up to its closing quote; [false] at the end of the text. *)
Fixpoint string_loop (fuel : nat) (escaped : bool) (p : JsonPreprocessor) : option (JsonPreprocessor * bool) :=
  match fuel with
  | O => None
  | S fuel =>
      match peek 1 p with
      | Some [c] =>
          if negb escaped then
            if c =? 34 then p ← next 1 None p; Some (p, true)
            else next 1 None p ≫= string_loop fuel (c =? 92)
          else next 1 None p ≫= string_loop fuel false
      | _ => Some (p, false)
      end
  end.

(** [replace_range] of the blank at [i], a character of one byte. *)
Definition put_comma (i : nat) (p : JsonPreprocessor) : JsonPreprocessor := mkPre (rest p) (<[i := 44]> (new_string p)).

Definition validate_next (fuel : nat) (p : JsonPreprocessor) : option (JsonPreprocessor * bool) :=
  p ← validate_empty fuel NoComment p;
  match peek 1 p with
  | Some [c] =>
      if c =? 34 then
        p ← next 1 None p;
        '(p, more) ← string_loop fuel false p;
        Some (p, more)
      else if c =? 44 then
        let maybe_comma_index := length (new_string p) in
        p ← next 1 (Some [32]) p;
        p ← validate_empty fuel NoComment p;
        match peek 1 p with
        | Some [c] => if (c =? 125) || (c =? 93) then Some (p, true) else Some (put_comma maybe_comma_index p, true)
        | _ => Some (p, false)
        end
      else p ← next 1 None p; Some (p, true)
  | _ => Some (p, false)
  end.

Fixpoint preprocess_loop (fuel inner : nat) (p : JsonPreprocessor) : option text :=
  match fuel with
  | O => None
  | S fuel =>
      '(p, more) ← validate_next inner p;
      if (more : bool) then preprocess_loop fuel inner p else Some (new_string p)
  end.

(** Every turn of a loop but the last consumes a character. *)
Definition preprocess_human_json (json : text) : option text :=
  let fuel := S (length json) in preprocess_loop fuel fuel (pre_new json).

(** ** Every character stays or is blanked *)

Definition kept (a b : Z) : Prop := b = a \/ b = 32.

(** Between [s], the whole text, and a state: what is read is written, char by char. *)
Definition aligned (s : text) (p : JsonPreprocessor) : Prop :=
  exists done_, s = done_ ++ rest p /\ Forall2 kept done_ (new_string p).

Lemma kept_refl l : Forall2 kept l l.
Proof. induction l; constructor; [by left|done]. Qed.

Lemma peek_1 p : peek 1 p = match rest p with [] => None | c :: _ => Some [c] end.
Proof. unfold peek. by destruct (rest p). Qed.

Lemma peek_2 p : peek 2 p = match rest p with a :: b :: _ => Some [a; b] | _ => None end.
Proof. unfold peek. destruct (rest p) as [|a [|b l]]; done. Qed.

Lemma next_1 p c l o : rest p = c :: l -> next 1 o p = Some (mkPre l (new_string p ++ default [c] o)).
Proof. intros E. unfold next. rewrite peek_1, E. cbn. by rewrite drop_0. Qed.

Lemma next_2 p a b l o : rest p = a :: b :: l -> next 2 o p = Some (mkPre l (new_string p ++ default [a; b] o)).
Proof. intros E. unfold next. rewrite peek_2, E. cbn. by rewrite drop_0. Qed.

Lemma aligned_next s p l k o : aligned s p -> rest p = l ++ k -> Forall2 kept l o -> aligned s (mkPre k (new_string p ++ o)).
Proof.
  intros (d & -> & Hd) E Ho. exists (d ++ l). cbn. split; [by rewrite E, app_assoc|]. by apply Forall2_app.
Qed.

Lemma validate_empty_ok s fuel state p :
  (length (rest p) < fuel)%nat -> aligned s p ->
  exists p', validate_empty fuel state p = Some p' /\ aligned s p' /\ (length (rest p') <= length (rest p))%nat.
Proof.
  revert state p. induction fuel as [|fuel IH]; intros state p Hf Ha; [lia|].
  assert (H1 : forall c l o st, rest p = c :: l -> kept c o -> exists p',
    validate_empty fuel st (mkPre l (new_string p ++ [o])) = Some p' /\ aligned s p' /\ (length (rest p') <= length (rest p))%nat).
  { intros c l o st E Hk. destruct (IH st (mkPre l (new_string p ++ [o]))) as (p' & H & Hp & Hl).
    - rewrite E in Hf. cbn in *. lia.
    - apply (aligned_next s p [c]); [done..|]. constructor; [exact Hk|constructor].
    - exists p'. rewrite E. cbn in *. split_and!; [done..|lia]. }
  assert (H2 : forall a b l st, rest p = a :: b :: l -> exists p',
    validate_empty fuel st (mkPre l (new_string p ++ [32; 32])) = Some p' /\ aligned s p' /\ (length (rest p') <= length (rest p))%nat).
  { intros a b l st E. destruct (IH st (mkPre l (new_string p ++ [32; 32]))) as (p' & H & Hp & Hl).
    - rewrite E in Hf. cbn in *. lia.
    - apply (aligned_next s p [a; b]); [done..|]. constructor; [by right|constructor; [by right|constructor]].
    - exists p'. rewrite E. cbn in *. split_and!; [done..|lia]. }
  assert (Hstop : exists p', Some p = Some p' /\ aligned s p' /\ (length (rest p') <= length (rest p))%nat) by by exists p.
  cbn [validate_empty]. rewrite peek_1, peek_2. destruct state.
  - destruct (rest p) as [|a [|b l]] eqn:E; try done. rewrite <- E in *.
    destruct (a =? 35); [rewrite (next_1 _ _ _ _ E); cbn; by apply (H1 a _ 32 _ E); right|].
    destruct (_ && _); [rewrite (next_2 _ _ _ _ _ E); by apply (H2 a b)|].
    destruct (_ && _); [rewrite (next_2 _ _ _ _ _ E); by apply (H2 a b)|].
    destruct (is_blank a); [|done]. rewrite (next_1 _ _ _ _ E). cbn. apply (H1 a _ a _ E). by left.
  - destruct (rest p) as [|a l] eqn:E; try done. rewrite <- E in *.
    destruct (is_nl a); rewrite (next_1 _ _ _ _ E); cbn; [apply (H1 a _ a _ E); by left|apply (H1 a _ 32 _ E); by right].
  - destruct (rest p) as [|a [|b l]] eqn:E; try done. rewrite <- E in *.
    destruct (_ && _); [rewrite (next_2 _ _ _ _ _ E); by apply (H2 a b)|].
    destruct (is_nl a); rewrite (next_1 _ _ _ _ E); cbn; [apply (H1 a _ a _ E); by left|apply (H1 a _ 32 _ E); by right].
Qed.

Lemma string_loop_ok s fuel escaped p :
  (length (rest p) < fuel)%nat -> aligned s p ->
  exists p' more, string_loop fuel escaped p = Some (p', more) /\ aligned s p' /\
    (length (rest p') <= length (rest p))%nat /\ (more = false -> rest p' = []).
Proof.
  revert escaped p. induction fuel as [|fuel IH]; intros escaped p Hf Ha; [lia|]. cbn [string_loop]. rewrite peek_1.
  destruct (rest p) as [|c l] eqn:E; [exists p, false; by rewrite E|]. rewrite (next_1 _ _ _ _ E). cbn [mbind option_bind from_option id].
  assert (Ha' : aligned s (mkPre l (new_string p ++ [c]))) by (apply (aligned_next s p [c]); [done..|apply kept_refl]).
  assert (Hr : forall b, exists p' more, string_loop fuel b (mkPre l (new_string p ++ [c])) = Some (p', more) /\ aligned s p' /\
    (length (rest p') <= length (c :: l))%nat /\ (more = false -> rest p' = [])).
  { intros b. destruct (IH b (mkPre l (new_string p ++ [c]))) as (p' & more & H & Hp & Hl & Hm); [cbn in *; lia|done|].
    exists p', more. cbn in *. split_and!; [done..|lia|done]. }
  destruct (negb escaped); [|apply Hr]. destruct (c =? 34); [|apply Hr]. eexists _, true. split; [done|]. split; [done|]. cbn. split; [lia|done].
Qed.

Lemma aligned_comma s p q :
  aligned s q -> (length (new_string q) < length (new_string p))%nat -> rest q = 44 :: skipn 1 (rest q) -> aligned s p ->
  aligned s (put_comma (length (new_string q)) p).
Proof.
  intros (d & E & Hd) Hl Hc (d' & E' & Hd'). exists d'. split; [done|]. cbn.
  assert (Hi : d' !! length (new_string q) = Some 44).
  { pose proof (Forall2_length _ _ _ Hd) as Ld. pose proof (Forall2_length _ _ _ Hd') as Ld'.
    assert (s !! length d = Some 44) as Hs by (rewrite E, Hc, lookup_app_r, Nat.sub_diag by lia; done).
    rewrite E', lookup_app_l in Hs by lia. by rewrite <- Ld. }
  rewrite <- (list_insert_id _ _ _ Hi). apply Forall2_insert; [done|by left].
Qed.

Lemma validate_next_ok s fuel p :
  (length (rest p) < fuel)%nat -> aligned s p ->
  exists p' more, validate_next fuel p = Some (p', more) /\ aligned s p' /\
    (more = true -> (length (rest p') < length (rest p))%nat) /\ (more = false -> rest p' = []).
Proof.
  intros Hf Ha. unfold validate_next. destruct (validate_empty_ok s fuel NoComment p Hf Ha) as (p1 & -> & Ha1 & Hl1).
  cbn [mbind option_bind]. rewrite peek_1. destruct (rest p1) as [|c l] eqn:E; [exists p1, false; by rewrite E|].
  destruct (c =? 34); [|destruct (Z.eqb_spec c 44) as [->|]].
  - rewrite (next_1 _ _ _ _ E). cbn [mbind option_bind from_option id].
    destruct (string_loop_ok s fuel false (mkPre l (new_string p1 ++ [c]))) as (p2 & more & -> & Ha2 & Hl2 & Hm).
    + cbn in *. lia.
    + apply (aligned_next s p1 [c]); [done..|apply kept_refl].
    + exists p2, more. cbn in *. split_and!; [done..|lia|done].
  - rewrite (next_1 _ _ _ _ E). cbn [mbind option_bind from_option id].
    destruct (validate_empty_ok s fuel NoComment (mkPre l (new_string p1 ++ [32]))) as (p2 & E2 & Ha2 & Hl2).
    + cbn in *. lia.
    + apply (aligned_next s p1 [44]); [done..|]. constructor; [by right|constructor].
    + rewrite E2. cbn [mbind option_bind]. rewrite peek_1. destruct (rest p2) as [|c2 l2] eqn:Er; [exists p2, false; by rewrite Er|].
      cbn in Hl1, Hl2. destruct (_ || _); (eexists _, true; split; [done|]; split; [|cbn; rewrite Er; cbn; split; [lia|done]]); [done|].
      apply (aligned_comma s p2 p1); [done| |by rewrite E|done].
      destruct Ha1 as (d1 & S1 & F1), Ha2 as (d2 & S2 & F2). apply Forall2_length in F1, F2.
      apply (f_equal length) in S1, S2. rewrite length_app in S1, S2. rewrite E in S1. rewrite Er in S2. cbn in *. lia.
  - rewrite (next_1 _ _ _ _ E). cbn [mbind option_bind from_option id]. eexists _, true. split; [done|]. split; [|cbn in *; split; [lia|done]].
    apply (aligned_next s p1 [c]); [done..|apply kept_refl].
Qed.

Lemma preprocess_loop_ok s fuel inner p :
  (length (rest p) < fuel)%nat -> (length (rest p) < inner)%nat -> aligned s p ->
  exists t, preprocess_loop fuel inner p = Some t /\ Forall2 kept s t.
Proof.
  revert p. induction fuel as [|fuel IH]; intros p Hf Hi Ha; [lia|]. cbn [preprocess_loop].
  destruct (validate_next_ok s inner p Hi Ha) as (p' & more & -> & Ha' & Hm & He). cbn [mbind option_bind]. destruct more.
  - specialize (Hm eq_refl). apply IH; [lia..|done].
  - destruct Ha' as (d & E & Hd). rewrite (He eq_refl), app_nil_r in E. subst d. by eexists.
Qed.

(** The preprocessor returns, on every text, one of the same length in which every
    character is the one it was or a blank: lines and columns of a parse error are
    those of the file. *)
Theorem preprocess_blanks json : exists t, preprocess_human_json json = Some t /\ Forall2 kept json t.
Proof.
  apply preprocess_loop_ok; cbn; [lia..|]. exists []. split; [done|constructor].
Qed.

(** The two trailing commas of the tests go. *)
Example trailing_comma_blanked :
  preprocess_human_json (lit "[1,2, ]") = Some (lit "[1,2  ]").
Proof. by vm_compute. Qed.

(** With a tab before the bracket the comma stays: a tab is not skipped. *)
Example tab_keeps_comma : preprocess_human_json (lit "[1," ++ 9 :: lit "]") = Some (lit "[1," ++ 9 :: lit "]").
Proof. by vm_compute. Qed.

(** A comment sign that ends the text stays. *)
Example last_mark_stays : preprocess_human_json (lit "{} #") = Some (lit "{} #").
Proof. by vm_compute. Qed.
