(* ===== verification/KeyRouter.v ===== *)
(** * The client's side of the keyboard broker (app-native/src/input.rs)

    While the desktop's keyboard is captured the broker is the only producer of
    keys: its batches are read from a pipe, [BrokerRouter] decides what of them the
    host is told, and at the end of the capture it is told to let go of the rest.
    The pipe's reads, the clock and the room in the session's queue are inputs; the
    keyboard layout (MapVirtualKeyW) and the modifier bits are parameters. *)
From S2P Require Import Prelude Text Wire InputWire Broker.

(** The modifiers of moonlight-common. *)
Class ModifierBits (M : Moonlight) := {
  km_shift : KeyModifiers; km_ctrl : KeyModifiers; km_alt : KeyModifiers; km_meta : KeyModifiers;
  km_or : KeyModifiers -> KeyModifiers -> KeyModifiers
}.

(** Win32 virtual-key codes. *)
Definition VK_TAB : Z := 9.
Definition VK_SHIFT : Z := 16.
Definition VK_CONTROL : Z := 17.
Definition VK_MENU : Z := 18.
Definition VK_Q : Z := 81.
Definition VK_LWIN : Z := 91.
Definition VK_RWIN : Z := 92.
Definition VK_LSHIFT : Z := 160.
Definition VK_RSHIFT : Z := 161.
Definition VK_LCONTROL : Z := 162.
Definition VK_RCONTROL : Z := 163.
Definition VK_LMENU : Z := 164.
Definition VK_RMENU : Z := 165.
Definition VK_OEM_3 : Z := 192.

Definition is_alt_key (vk : Z) : bool := (vk =? VK_MENU) || (vk =? VK_LMENU) || (vk =? VK_RMENU).

Section router.
Context {M : Moonlight} {B : ModifierBits M}.

Record BrokerRouter := mkRouter {
  ctrl : bool; right_ctrl : bool; shift : bool; right_shift : bool;
  left_alt : bool; right_alt : bool; left_meta : bool; right_meta : bool;
  pending : list (Z * KeyModifiers); sent_down : list Z
}.

Definition router_default : BrokerRouter := mkRouter false false false false false false false false [] [].

Definition set_pending (r : BrokerRouter) (p : list (Z * KeyModifiers)) : BrokerRouter :=
  mkRouter (ctrl r) (right_ctrl r) (shift r) (right_shift r) (left_alt r) (right_alt r) (left_meta r) (right_meta r) p (sent_down r).

Definition set_sent (r : BrokerRouter) (l : list Z) : BrokerRouter :=
  mkRouter (ctrl r) (right_ctrl r) (shift r) (right_shift r) (left_alt r) (right_alt r) (left_meta r) (right_meta r) (pending r) l.

Definition modifier (vk : Z) : bool :=
  (vk =? VK_CONTROL) || (vk =? VK_LCONTROL) || (vk =? VK_RCONTROL) || (vk =? VK_SHIFT) || (vk =? VK_LSHIFT) ||
  (vk =? VK_RSHIFT) || is_alt_key vk || (vk =? VK_LWIN) || (vk =? VK_RWIN).

Definition update (r : BrokerRouter) (vk : Z) (key_up : bool) : BrokerRouter :=
  let 'mkRouter c rc s rs la ra lm rm p sd := r in
  let down := negb key_up in
  if (vk =? VK_CONTROL) || (vk =? VK_LCONTROL) then mkRouter down rc s rs la ra lm rm p sd
  else if vk =? VK_RCONTROL then mkRouter c down s rs la ra lm rm p sd
  else if (vk =? VK_SHIFT) || (vk =? VK_LSHIFT) then mkRouter c rc down rs la ra lm rm p sd
  else if vk =? VK_RSHIFT then mkRouter c rc s down la ra lm rm p sd
  else if vk =? VK_LMENU then mkRouter c rc s rs down ra lm rm p sd
  else if vk =? VK_RMENU then mkRouter c rc s rs la down lm rm p sd
  else if vk =? VK_LWIN then mkRouter c rc s rs la ra down rm p sd
  else if vk =? VK_RWIN then mkRouter c rc s rs la ra lm down p sd
  else r.

Definition modifiers (r : BrokerRouter) : KeyModifiers :=
  let m := km_empty in
  let m := if ctrl r || right_ctrl r then km_or m km_ctrl else m in
  let m := if shift r || right_shift r then km_or m km_shift else m in
  let m := if left_alt r || right_alt r then km_or m km_alt else m in
  if left_meta r || right_meta r then km_or m km_meta else m.

Definition packet_with_modifiers (action : KeyAction) (vk : Z) (m : KeyModifiers) : InboundPacket :=
  Key action m (wrap 16 vk) kf_empty.

Definition router_packet (r : BrokerRouter) (action : KeyAction) (vk : Z) : InboundPacket :=
  packet_with_modifiers action vk (modifiers r).

Definition remember_sent (r : BrokerRouter) (vk : Z) : BrokerRouter :=
  if decide (vk ∈ sent_down r) then r else set_sent r (sent_down r ++ [vk]).

(** The first occurrence goes. *)
Fixpoint remove_key {A} (key : A -> Z) (vk : Z) (l : list A) : option (A * list A) :=
  match l with
  | [] => None
  | x :: l => if key x =? vk then Some (x, l) else (fun '(y, l) => (y, x :: l)) <$> remove_key key vk l
  end.

Definition forget_sent (r : BrokerRouter) (vk : Z) : BrokerRouter * bool :=
  match remove_key id vk (sent_down r) with Some (_, l) => (set_sent r l, true) | None => (r, false) end.

Definition local_only (r : BrokerRouter) (vk : Z) : bool :=
  let c := ctrl r || right_ctrl r in
  let a := left_alt r || right_alt r in
  let safety_key := (vk =? 46) || (vk =? VK_Q) || (vk =? VK_OEM_3) in
  (c && a && safety_key) || ((vk =? 115) && a).

(** The pending modifiers are sent first. *)
Definition flush_pending (r : BrokerRouter) : BrokerRouter * list InboundPacket :=
  (foldl (fun r p => remember_sent r p.1) (set_pending r []) (pending r),
   (fun '(vk, m) => packet_with_modifiers ka_down vk m) <$> pending r).

Definition route_down (r : BrokerRouter) (vk : Z) : BrokerRouter * (list InboundPacket * bool * bool) :=
  let r := update r vk false in
  if modifier vk then
    (if existsb (fun p => p.1 =? vk) (pending r) || bool_decide (vk ∈ sent_down r) then r
     else set_pending r (pending r ++ [(vk, modifiers r)]), ([], false, false))
  else if local_only r vk then (set_pending r [], ([], vk =? VK_Q, vk =? VK_OEM_3))
  else
    let '(r, packets) := flush_pending r in
    (remember_sent r vk, (packets ++ [router_packet r ka_down vk], false, false)).

Definition route_up (r : BrokerRouter) (vk : Z) : BrokerRouter * (list InboundPacket * bool * bool) :=
  let up r := router_packet r ka_up vk in
  let release r := let '(r, found) := forget_sent r vk in (r, (if found then [up r] else [], false, false)) in
  if modifier vk then
    let was_pending := remove_key fst vk (pending r) in
    let r := update r vk true in
    match was_pending with
    | Some ((pending_vk, m), l) =>
        let r := set_pending r l in (r, ([packet_with_modifiers ka_down pending_vk m; up r], false, false))
    | None => release r
    end
  else release r.

Definition route (r : BrokerRouter) (vk : Z) (key_up : bool) : BrokerRouter * (list InboundPacket * bool * bool) :=
  if key_up then route_up r vk else route_down r vk.

Definition release_sent (r : BrokerRouter) : BrokerRouter * list InboundPacket :=
  let '(r, packets) := foldl (fun '(r, ps) vk => let r := update r vk true in (r, ps ++ [router_packet r ka_up vk]))
    (set_sent r [], []) (rev (sent_down r)) in
  (set_pending r [], packets).

(** ** What the host is told *)

(** The keys that are down at a host that has been told [ps]. *)
Definition key_effect (s : gset Z) (p : InboundPacket) : gset Z :=
  match p with
  | Key a _ k _ => if decide (a = ka_down) then {[k]} ∪ s else s ∖ {[k]}
  | _ => s
  end.

Definition keys_down (ps : list InboundPacket) : gset Z := foldl key_effect ∅ ps.

(** The keys held on the keyboard after the events, oldest first. *)
Definition held_step (s : gset Z) (e : Z * bool) : gset Z := if e.2 then s ∖ {[e.1]} else {[e.1]} ∪ s.
Definition held (es : list (Z * bool)) : gset Z := foldl held_step ∅ es.

Definition router_run (r : BrokerRouter) (es : list (Z * bool)) : BrokerRouter * list InboundPacket :=
  foldl (fun '(r, ps) e => let '(r, (out, _, _)) := route r e.1 e.2 in (r, ps ++ out)) (r, []) es.

(** ** The pump *)

Inductive pump_error : Type :=
| PipeClosed | PipeFailed (interrupted : bool) | InvalidHeader | BrokerPayloadTooLarge | MalformedStatus
| UnexpectedMessage | TruncatedBatch | EventsDropped | MalformedEvents | UnsupportedEvent | Unmappable
| LocalExit | LocalDisconnect | QueueFull | DisarmTimedOut | ReleasesFull.

(** [ErrorKind::Interrupted]. *)
Definition interrupted (e : pump_error) : bool :=
  match e with LocalExit => true | PipeFailed b => b | _ => false end.

(** A read of the pipe. *)
Inductive pipe_read : Type := ReadEof | ReadBytes (bs : list Z) | ReadBlocked | ReadFailed (is_interrupted : bool).

(** [MapVirtualKeyW] with MAPVK_VSC_TO_VK_EX, and whether the n-th batch of packets
    finds room in the session's queue. *)
Context (MapVirtualKeyW : Z -> Z) (room : nat -> bool).

Definition DRIVER_KEY_BREAK : Z := 1.
Definition DRIVER_KEY_E0 : Z := 2.
Definition DRIVER_KEY_E1 : Z := 4.

Definition scan_code (make_code driver_flags : Z) : Z :=
  Z.lor make_code
    (if negb (Z.land driver_flags DRIVER_KEY_E0 =? 0) then 57344
     else if negb (Z.land driver_flags DRIVER_KEY_E1 =? 0) then 57600 else 0).

Definition broker_vk (make_code driver_flags : Z) : option Z :=
  let vk := MapVirtualKeyW (scan_code make_code driver_flags) in if vk =? 0 then None else Some vk.

(** [reported]: the broker has said that it is armed. *)
Record pump := mkPump {
  buffered : list Z; router : BrokerRouter; reported : bool; accepted : list InboundPacket; sends : nat
}.

Definition pump_new : pump := mkPump [] router_default false [] 0.

Definition set_buffered (st : pump) (b : list Z) : pump := mkPump b (router st) (reported st) (accepted st) (sends st).
Definition set_router (st : pump) (r : BrokerRouter) : pump := mkPump (buffered st) r (reported st) (accepted st) (sends st).
Definition set_reported (st : pump) : pump := mkPump (buffered st) (router st) true (accepted st) (sends st).

(** [InputSender::send_batch]: all of the packets or none. *)
Definition send (st : pump) (packets : list InboundPacket) : pump * bool :=
  let ok := room (sends st) in
  (mkPump (buffered st) (router st) (reported st) (if ok then accepted st ++ packets else accepted st) (S (sends st)), ok).

Definition forward_event (st : pump) (event : list Z) : pump * result unit pump_error :=
  if negb (le_field event 0 2 =? 1) || negb (le_field event 2 4 =? 1) then (st, Err UnsupportedEvent)
  else
    let driver_flags := le_field event 18 20 in
    match broker_vk (le_field event 16 18) driver_flags with
    | None => (st, Err Unmappable)
    | Some vk =>
        let '(r, (packets, exit, disconnect)) := route (router st) vk (negb (Z.land driver_flags DRIVER_KEY_BREAK =? 0)) in
        let st := set_router st r in
        if (exit : bool) then (st, Err LocalExit)
        else if (disconnect : bool) then (st, Err LocalDisconnect)
        else
          match packets with
          | [] => (st, Ok tt)
          | _ => let '(st, ok) := send st packets in (st, if ok then Ok tt else Err QueueFull)
          end
    end.

Fixpoint forward_events (st : pump) (events : list (list Z)) : pump * result unit pump_error :=
  match events with
  | [] => (st, Ok tt)
  | event :: events =>
      match forward_event st event with
      | (st, Ok _) => forward_events st events
      | (st, Err e) => (st, Err e)
      end
  end.

(** The products and sums stay below [usize]'s maximum on 64 bits. *)
Definition forward_broker_events (st : pump) (payload : list Z) : pump * result unit pump_error :=
  if len payload <? 8 then (st, Err TruncatedBatch)
  else if negb (le_field payload 4 8 =? 0) then (st, Err EventsDropped)
  else if negb (len payload =? 8 + le_field payload 0 4 * 32) then (st, Err MalformedEvents)
  else forward_events st (chunks 32 (drop 8 payload)).

Definition handle_message (st : pump) (kind : Z) (payload : list Z) : pump * result unit pump_error :=
  if kind =? kind_u16 Status then
    match payload with
    | [b] => if b =? 1 then (set_reported st, Ok tt) else if b =? 0 then (st, Ok tt) else (st, Err MalformedStatus)
    | _ => (st, Err MalformedStatus)
    end
  else if kind =? kind_u16 Events then forward_broker_events st payload
  else (st, Err UnexpectedMessage).

(** A complete message at the front of the buffer: its kind, its payload and the
    rest; [Ok None] if there is none yet. *)
Definition front_message (b : list Z) : result (option (Z * list Z * list Z)) pump_error :=
  if len b <? 12 then Ok None
  else if negb (bool_decide (take 4 b = PIPE_MAGIC)) || negb (le_field b 4 6 =? 1) then Err InvalidHeader
  else
    let payload_len := le_field b 8 12 in
    if MAX_PAYLOAD <? payload_len then Err BrokerPayloadTooLarge
    else if len b <? 12 + payload_len then Ok None
    else Ok (Some (le_field b 6 8, slice b 12 (Z.to_nat (12 + payload_len)), drop (Z.to_nat (12 + payload_len)) b)).

(** The loop over the complete messages in the buffer; each takes twelve bytes. *)
Definition drain_turn (st : pump) : pump + pump * result unit pump_error :=
  match front_message (buffered st) with
  | Err e => inr (st, Err e)
  | Ok None => inr (st, Ok tt)
  | Ok (Some (kind, payload, rest)) =>
      match handle_message st kind payload with
      | (st, Err e) => inr (st, Err e)
      | (st, Ok _) => inl (set_buffered st rest)
      end
  end.

Definition drain_buffer (st : pump) : option (pump * result unit pump_error) :=
  loop_fuel (S (length (buffered st))) drain_turn st.

(** The pump over its turns, each with the stop flag and a read; no result while it
    still runs. The outer [None] is a loop without an end. *)
Fixpoint pump_loop (st : pump) (turns : list (bool * pipe_read)) : option (pump * option (result unit pump_error)) :=
  match turns with
  | [] => Some (st, None)
  | (stop, rd) :: turns =>
      if (stop : bool) then Some (st, Some (Ok tt))
      else
        match rd with
        | ReadEof => Some (st, Some (Err PipeClosed))
        | ReadFailed i => Some (st, Some (Err (PipeFailed i)))
        | ReadBlocked => pump_loop st turns
        | ReadBytes bs =>
            '(st, r) ← drain_buffer (set_buffered st (buffered st ++ bs));
            match r with
            | Ok _ => pump_loop st turns
            | Err e => Some (st, Some (Err e))
            end
        end
  end.

(** The messages before the broker's answer to a disarm; [Ok None] when it is there. *)
Definition disarm_turn (b : list Z) : list Z + result (option (list Z)) pump_error :=
  match front_message b with
  | Err e => inr (Err e)
  | Ok None => inr (Ok (Some b))
  | Ok (Some (kind, payload, rest)) =>
      let status := kind =? kind_u16 Status in
      if negb ((kind =? kind_u16 Events) || (status && (bool_decide (payload = [0]) || bool_decide (payload = [1]))))
      then inr (Err UnexpectedMessage)
      else if status && bool_decide (payload = [0]) then inr (Ok None)
      else inl rest
  end.

(** Each turn has whether the deadline has passed, and a read. *)
Fixpoint request_broker_disarm (b : list Z) (turns : list (bool * pipe_read)) : option (option (result unit pump_error)) :=
  r ← loop_fuel (S (length b)) disarm_turn b;
  match r with
  | Err e => Some (Some (Err e))
  | Ok None => Some (Some (Ok tt))
  | Ok (Some b) =>
      match turns with
      | [] => Some None
      | (late, rd) :: turns =>
          if (late : bool) then Some (Some (Err DisarmTimedOut))
          else
            match rd with
            | ReadEof => Some (Some (Err PipeClosed))
            | ReadFailed i => Some (Some (Err (PipeFailed i)))
            | ReadBlocked => request_broker_disarm b turns
            | ReadBytes bs => request_broker_disarm (b ++ bs) turns
            end
      end
  end.

(** ** A capture *)

(** Opening the pipe and checking its server, the writes of ARM and DISARM, and the
    reads of the pump and of the disarm. *)
Record capture_env := mkEnv {
  opened : result unit pump_error; arm_written : result unit pump_error;
  turns : list (bool * pipe_read);
  disarm_written : result unit pump_error; disarm_turns : list (bool * pipe_read)
}.

(** What the capture returns, what was queued, whether the broker may own the
    keyboard and whether it has acknowledged the end. *)
Record capture_result := mkResult {
  outcome : result unit pump_error; told : list InboundPacket; ownership_started : bool; disarm_acknowledged : bool
}.

Definition end_capture (st : pump) (pumped disarmed : result unit pump_error) : capture_result :=
  let releases := (release_sent (router st)).2 in
  let '(st, released) := match releases with [] => (st, true) | _ => send st releases end in
  mkResult
    (let? u := disarmed in let? v := (if released then Ok tt else Err ReleasesFull) in pumped)
    (accepted st) true (match disarmed with Ok _ => true | Err _ => false end).

Definition disarm_answer (env : capture_env) (b : list Z) : option (option (result unit pump_error)) :=
  match disarm_written env with
  | Err e => Some (Some (Err e))
  | Ok _ => request_broker_disarm b (disarm_turns env)
  end.

(** [Some None] while it still runs. *)
Definition run_broker_capture (env : capture_env) : option (option capture_result) :=
  match opened env with
  | Err e => Some (Some (mkResult (Err e) [] false false))
  | Ok _ =>
      match arm_written env with
      | Err e => Some (Some (mkResult (Err e) [] true false))
      | Ok _ =>
          match pump_loop pump_new (turns env) with
          | None => None
          | Some (_, None) => Some None
          | Some (st, Some pumped) =>
              match disarm_answer env (buffered st) with
              | Some disarmed => Some (option_map (end_capture st pumped) disarmed)
              | None => None
              end
          end
      end
  end.

(** The worker around it: whether it asks the shell to leave the immersive mode, and
    to end the session. *)
Definition worker_requests (res : capture_result) : bool * bool :=
  match outcome res with
  | Ok _ => (false, false)
  | Err e => if interrupted e then (true, false) else (false, ownership_started res)
  end.
End router.
