(* ===== verification/KeyRouterSafe.v ===== *)
(** * No key stays down at the host (about KeyRouter)

    What the router tells the host is the keys it has recorded as sent, which are
    held; a capture that ends lets go of all of them or ends the session; and the
    batches of the broker reach the router whatever chunks they are read in. *)
From S2P Require Import Prelude Text Wire InputWire InputWireSafe Broker KeyRouter.

Section router.
Context {M : Moonlight} {L : MoonlightLaws M} {B : ModifierBits M}.

(** ** The pieces *)

Lemma update_fields r vk u : pending (update r vk u) = pending r /\ sent_down (update r vk u) = sent_down r.
Proof. destruct r. unfold update. repeat case_match; done. Qed.

Lemma effect_down s vk m : in_u16 vk -> key_effect s (packet_with_modifiers ka_down vk m) = {[vk]} ∪ s.
Proof. intros H. cbn. rewrite decide_True by done. by rewrite wrap16_id. Qed.

Lemma effect_up s vk m : in_u16 vk -> key_effect s (packet_with_modifiers ka_up vk m) = s ∖ {[vk]}.
Proof. intros H. cbn. rewrite decide_False by (intros E; by apply ka_distinct). by rewrite wrap16_id. Qed.

Lemma remove_key_Some {A} (key : A -> Z) vk l x l' : remove_key key vk l = Some (x, l') ->
  key x = vk /\ exists l1 l2, l = l1 ++ x :: l2 /\ l' = l1 ++ l2.
Proof.
  revert l'. induction l as [|y l IH]; intros l' H; cbn [remove_key] in H; [done|]. destruct (Z.eqb_spec (key y) vk) as [E|E].
  - apply (inj Some), pair_eq in H as [<- <-]. split; [done|]. by exists [], l.
  - destruct (remove_key key vk l) as [[z l0]|] eqn:Er; [|done]. apply (inj Some), pair_eq in H as [<- <-].
    destruct (IH l0 eq_refl) as (Hk & l1 & l2 & -> & ->). split; [done|]. by exists (y :: l1), l2.
Qed.

Lemma remove_key_None {A} (key : A -> Z) vk l : remove_key key vk l = None -> vk ∉ key <$> l.
Proof.
  induction l as [|y l IH]; intros H; cbn [remove_key] in H; [by apply not_elem_of_nil|].
  destruct (Z.eqb_spec (key y) vk) as [E|E]; [done|]. destruct (remove_key key vk l) as [[z l0]|]; [done|].
  rewrite fmap_cons. apply not_elem_of_cons. split; [done|]. by apply IH.
Qed.

(** [H] is what is down at the host, [h] what is held. *)
Record router_ok (r : BrokerRouter) (H h : gset Z) : Prop := {
  ro_sent : forall vk, vk ∈ H <-> vk ∈ sent_down r;
  ro_nodup : NoDup (sent_down r);
  ro_apart : forall vk, vk ∈ (pending r).*1 -> vk ∉ sent_down r;
  ro_pending : NoDup (pending r).*1;
  ro_held : forall vk, vk ∈ sent_down r \/ vk ∈ (pending r).*1 -> vk ∈ h;
  ro_range : forall vk, vk ∈ h -> in_u16 vk;
  ro_mods : forall vk, vk ∈ (pending r).*1 -> modifier vk = true
}.

Lemma router_ok_update r H h vk u : router_ok r H h -> router_ok (update r vk u) H h.
Proof. destruct (update_fields r vk u) as [Ep Es]. intros []. split; rewrite ?Ep, ?Es; done. Qed.

Lemma router_ok_held r H h vk : in_u16 vk -> router_ok r H h -> router_ok r H ({[vk]} ∪ h).
Proof.
  intros Hv [H1 H2 H3 H4 H5 H6 H7]. split; [done..| | |done].
  - intros k Hk. apply elem_of_union. right. by apply H5.
  - intros k [ ->%elem_of_singleton|Hk]%elem_of_union; [done|by apply H6].
Qed.

Lemma remember_ok r H h vk : vk ∈ h -> vk ∉ (pending r).*1 -> router_ok r H h -> router_ok (remember_sent r vk) ({[vk]} ∪ H) h.
Proof.
  intros Hh Hp [H1 H2 H3 H4 H5 H6 H7]. unfold remember_sent. destruct (decide (vk ∈ sent_down r)) as [Hs|Hs].
  - split; [|done..]. intros k. rewrite elem_of_union, elem_of_singleton, H1. split; [by intros [->|?]|by right].
  - split; cbn; [| | |done| |done..].
    + intros k. rewrite elem_of_union, elem_of_singleton, H1, elem_of_app, list_elem_of_singleton. tauto.
    + apply NoDup_app. split_and!; [done| |apply NoDup_singleton]. by intros k Hk ->%list_elem_of_singleton.
    + intros k Hk [Hk'| ->%list_elem_of_singleton]%elem_of_app; [by apply (H3 k)|done].
    + intros k [[Hk| ->%list_elem_of_singleton]%elem_of_app|Hk]; [apply H5; by left|done|apply H5; by right].
Qed.

Lemma remember_fields r vk : pending (remember_sent r vk) = pending r.
Proof. unfold remember_sent. by destruct (decide _). Qed.

(** The pending modifiers of [l] are remembered as they are sent. *)
Lemma remember_all_ok (l : list (Z * KeyModifiers)) r H h :
  (forall vk, vk ∈ l.*1 -> vk ∈ h) -> pending r = [] -> router_ok r H h ->
  let r' := foldl (fun r p => remember_sent r p.1) r l in
  router_ok r' (foldl key_effect H ((fun '(vk, m) => packet_with_modifiers ka_down vk m) <$> l)) h /\ pending r' = [].
Proof.
  revert r H. induction l as [|[vk m] l IH]; intros r H Hl Hp Hr; [done|]. cbn [foldl fst]. rewrite fmap_cons. cbn [foldl].
  assert (Hv : vk ∈ h) by (apply Hl; rewrite fmap_cons; by left). rewrite effect_down by by eapply ro_range.
  apply IH; [|by rewrite remember_fields|apply remember_ok; [done| |done]].
  - intros k Hk. apply Hl. rewrite fmap_cons. by right.
  - rewrite Hp. by apply not_elem_of_nil.
Qed.

Lemma clear_pending_ok r H h : router_ok r H h -> router_ok (set_pending r []) H h.
Proof.
  intros [H1 H2 H3 H4 H5 H6 H7]. split; cbn; [done|done| |constructor| |done|].
  - by intros k ?%elem_of_nil.
  - intros k [Hk|?%elem_of_nil]; [apply H5; by left|done].
  - by intros k ?%elem_of_nil.
Qed.

Lemma forget_ok r H h vk r' found : forget_sent r vk = (r', found) -> router_ok r H h -> vk ∉ (pending r).*1 ->
  router_ok r' (if found then H ∖ {[vk]} else H) (h ∖ {[vk]}).
Proof.
  intros E [H1 H2 H3 H4 H5 H6 H7] Hp. unfold forget_sent in E. destruct (remove_key id vk (sent_down r)) as [[x l]|] eqn:Er.
  - apply pair_eq in E as [<- <-]. apply remove_key_Some in Er as (<- & l1 & l2 & Es & ->). cbn [id] in *.
    rewrite Es in *. apply NoDup_app in H2 as (N1 & N2 & N3). apply NoDup_cons in N3 as [N3 N4].
    assert (Hx : forall k, k ∈ l1 ++ l2 <-> k ∈ l1 ++ x :: l2 /\ k <> x).
    { intros k. rewrite !elem_of_app, elem_of_cons. split; [|tauto]. intros Hk. split; [tauto|]. intros ->.
      destruct Hk as [Hk|Hk]; [|done]. apply (N2 x Hk). by left. }
    split; cbn; [| | |done| | |done].
    + intros k. rewrite elem_of_difference, elem_of_singleton, H1, Hx. done.
    + apply NoDup_app. split_and!; [done| |done]. intros k Hk Hk'. apply (N2 k Hk). by right.
    + intros k Hk Hk'. apply (H3 k Hk). by apply Hx.
    + intros k Hk. apply elem_of_difference. split; [apply H5; destruct Hk as [Hk|Hk]; [left; by apply Hx|by right]|].
      intros ->%elem_of_singleton. destruct Hk as [Hk|Hk]; [by apply Hx in Hk as [_ ?]|done].
    + intros k [Hk _]%elem_of_difference. by apply H6.
  - apply pair_eq in E as [<- <-]. apply remove_key_None in Er. rewrite list_fmap_id in Er. split; [done..| | |done].
    + intros k Hk. apply elem_of_difference. split; [by apply H5|]. intros ->%elem_of_singleton. tauto.
    + intros k [Hk _]%elem_of_difference. by apply H6.
Qed.

Lemma route_down_ok r H h vk r' out ex dis : in_u16 vk -> router_ok r H h ->
  route_down r vk = (r', (out, ex, dis)) -> router_ok r' (foldl key_effect H out) ({[vk]} ∪ h).
Proof.
  intros Hv Hr E. unfold route_down in E. pose proof (router_ok_update _ _ _ vk false (router_ok_held _ _ _ _ Hv Hr)) as Hu.
  set (r1 := update r vk false) in *. clearbody r1. assert (Hvh : vk ∈ ({[vk]} ∪ h : gset Z)) by set_solver.
  destruct (modifier vk) eqn:Em.
  - destruct (existsb (fun p => p.1 =? vk) (pending r1)) eqn:Ep; cbn [orb] in E.
    { apply pair_eq in E as [<- [= <- _ _]]. done. }
    destruct (bool_decide_reflect (vk ∈ sent_down r1)) as [Hs|Hs]; apply pair_eq in E as [<- [= <- _ _]]; [done|].
    assert (Hp : vk ∉ (pending r1).*1).
    { intros (p & -> & Hp)%list_elem_of_fmap. assert (existsb (fun q : Z * KeyModifiers => q.1 =? p.1) (pending r1) = true); [|congruence].
      apply existsb_exists. exists p. split; [by apply list_elem_of_In|apply Z.eqb_refl]. }
    destruct Hu as [H1 H2 H3 H4 H5 H6 H7]. cbn [foldl]. split; cbn; [done|done| | | |done|]; rewrite ?fmap_app.
    + by intros k [Hk| ->%list_elem_of_singleton]%elem_of_app; [apply H3|].
    + apply NoDup_app. split_and!; [done| |apply NoDup_singleton]. by intros k Hk ->%list_elem_of_singleton.
    + intros k [Hk|[Hk| ->%list_elem_of_singleton]%elem_of_app]; [apply H5; by left|apply H5; by right|done].
    + by intros k [Hk| ->%list_elem_of_singleton]%elem_of_app; [apply H7|].
  - destruct (local_only r1 vk).
    + apply pair_eq in E as [<- [= <- _ _]]. by apply clear_pending_ok.
    + unfold flush_pending in E. set (r2 := foldl _ _ _) in E. apply pair_eq in E as [<- [= <- _ _]].
      destruct (remember_all_ok (pending r1) (set_pending r1 []) H ({[vk]} ∪ h)) as [H2 Hp2]; [|done|by apply clear_pending_ok|].
      { intros k Hk. apply (ro_held _ _ _ Hu). by right. }
      rewrite foldl_app. cbn [foldl]. unfold router_packet. rewrite effect_down by done. apply remember_ok; [done| |done].
      fold r2 in Hp2. rewrite Hp2. by apply not_elem_of_nil.
Qed.

Lemma route_up_ok r H h vk r' out ex dis : in_u16 vk -> router_ok r H h ->
  route_up r vk = (r', (out, ex, dis)) -> router_ok r' (foldl key_effect H out) (h ∖ {[vk]}).
Proof.
  intros Hv Hr E. unfold route_up in E.
  assert (Hrel : forall r1, router_ok r1 H h -> vk ∉ (pending r1).*1 ->
    (let '(r, found) := forget_sent r1 vk in (r, (if found then [router_packet r ka_up vk] else [], false, false))) = (r', (out, ex, dis)) ->
    router_ok r' (foldl key_effect H out) (h ∖ {[vk]})).
  { intros r1 H1 Hp E1. destruct (forget_sent r1 vk) as [r2 found] eqn:Ef. apply pair_eq in E1 as [<- [= <- _ _]].
    pose proof (forget_ok _ _ _ _ _ _ Ef H1 Hp) as H2. destruct found; [|done]. cbn [foldl]. unfold router_packet. by rewrite effect_up. }
  destruct (modifier vk) eqn:Em.
  - destruct (remove_key fst vk (pending r)) as [[[pv m] l]|] eqn:Ep.
    + apply pair_eq in E as [<- [= <- _ _]]. apply remove_key_Some in Ep as (Ek & l1 & l2 & Es & ->). cbn in Ek. subst pv.
      pose proof (router_ok_update _ _ _ vk true Hr) as [H1 H2 H3 H4 H5 H6 H7]. destruct (update_fields r vk true) as [Ep' _].
      rewrite Ep', Es in *. rewrite fmap_app, fmap_cons in *. cbn [fst] in *. apply NoDup_app in H4 as (N1 & N2 & N3).
      apply NoDup_cons in N3 as [N3 N4].
      assert (Hns : vk ∉ H) by (rewrite H1; apply H3; rewrite elem_of_app, elem_of_cons; tauto).
      cbn [foldl]. unfold router_packet. rewrite effect_down, effect_up by done.
      replace (({[vk]} ∪ H) ∖ {[vk]}) with H by (apply set_eq; set_solver).
      assert (Hx : forall k, k ∈ (l1 ++ l2).*1 -> k ∈ l1.*1 ++ vk :: l2.*1 /\ k <> vk).
      { intros k. rewrite fmap_app, !elem_of_app, elem_of_cons. intros Hk. split; [tauto|]. intros ->.
        destruct Hk as [Hk|Hk]; [|done]. apply (N2 vk Hk). by left. }
      split; cbn; [done|done| | | | |].
      * intros k [Hk _]%Hx. by apply H3.
      * rewrite fmap_app. apply NoDup_app. split_and!; [done| |done]. intros k Hk Hk'. apply (N2 k Hk). by right.
      * intros k Hk. apply elem_of_difference. split; [apply H5; destruct Hk as [Hk|Hk]; [by left|right; by apply Hx]|].
        intros ->%elem_of_singleton. destruct Hk as [Hk|Hk]; [by rewrite <- H1 in Hk|by apply Hx in Hk as [_ ?]].
      * intros k [Hk _]%elem_of_difference. by apply H6.
      * intros k [Hk _]%Hx. by apply H7.
    + apply remove_key_None in Ep. apply (Hrel (update r vk true)); [by apply router_ok_update| |done].
      by rewrite (proj1 (update_fields r vk true)).
  - apply (Hrel r); [done| |done]. intros Hp%(ro_mods _ _ _ Hr). congruence.
Qed.

Lemma route_ok r H h vk u r' out ex dis : in_u16 vk -> router_ok r H h ->
  route r vk u = (r', (out, ex, dis)) -> router_ok r' (foldl key_effect H out) (held_step h (vk, u)).
Proof. unfold route, held_step. destruct u; [apply route_up_ok|apply route_down_ok]. Qed.

Lemma router_default_ok : router_ok router_default ∅ ∅.
Proof. split; cbn; try set_solver; constructor. Qed.

Lemma keys_down_app ps qs : keys_down (ps ++ qs) = foldl key_effect (keys_down ps) qs.
Proof. apply foldl_app. Qed.

Lemma router_run_snoc r es e :
  router_run r (es ++ [e]) =
    let '(r1, ps) := router_run r es in let '(r2, (out, _, _)) := route r1 e.1 e.2 in (r2, ps ++ out).
Proof. unfold router_run. rewrite foldl_app. cbn [foldl]. by destruct (foldl _ _ es). Qed.

Lemma held_snoc es e : held (es ++ [e]) = held_step (held es) e.
Proof. unfold held. by rewrite foldl_app. Qed.

Lemma router_run_ok es : Forall (fun e => in_u16 e.1) es ->
  router_ok (router_run router_default es).1 (keys_down (router_run router_default es).2) (held es).
Proof.
  intros Hes. induction es as [|[vk u] es IH] using rev_ind; [apply router_default_ok|].
  apply Forall_app in Hes as [Hes [He _]%Forall_cons]. specialize (IH Hes).
  rewrite router_run_snoc, held_snoc. destruct (router_run router_default es) as [r ps]. cbn [fst snd] in *.
  destruct (route r vk u) as [r' [[out ex] dis]] eqn:E. cbn [fst snd]. rewrite keys_down_app. exact (route_ok _ _ _ _ _ _ _ _ _ He IH E).
Qed.

Lemma in_rev_iff (k : Z) l : k ∈ rev l <-> k ∈ l.
Proof. rewrite !list_elem_of_In. symmetry. apply in_rev. Qed.

(** The releases let go of what was sent, latest first. *)
Lemma release_fold l r ps :
  exists r' out, foldl (fun '(r, ps) vk => let r := update r vk true in (r, ps ++ [router_packet r ka_up vk])) (r, ps) l = (r', ps ++ out) /\
    forall H, Forall (fun vk => in_u16 vk) l -> foldl key_effect H out = H ∖ list_to_set l.
Proof.
  revert r ps. induction l as [|vk l IH]; intros r ps; cbn [foldl].
  - exists r, []. rewrite app_nil_r. split; [done|]. intros H _. cbn. apply set_eq. set_solver.
  - destruct (IH (update r vk true) (ps ++ [router_packet (update r vk true) ka_up vk])) as (r' & out & E & Ho).
    eexists r', (_ :: out). rewrite <- app_assoc in E. split; [exact E|]. intros H [Hv Hvs]%Forall_cons.
    cbn [foldl]. unfold router_packet. rewrite effect_up, Ho by done. apply set_eq. set_solver.
Qed.

Lemma release_sent_ok r H h : router_ok r H h -> foldl key_effect H (release_sent r).2 = ∅.
Proof.
  intros Hr. destruct (release_fold (rev (sent_down r)) (set_sent r []) []) as (r' & out & E & Ho).
  assert (Es : release_sent r = (set_pending r' [], out)) by (unfold release_sent; cbv zeta in *; by rewrite E).
  rewrite Es. cbn [snd]. rewrite Ho.
  - apply set_eq. intros k. rewrite elem_of_difference, elem_of_list_to_set, (ro_sent _ _ _ Hr), in_rev_iff.
    set_solver.
  - apply Forall_forall. intros k Hk. apply (ro_range _ _ _ Hr). apply (ro_held _ _ _ Hr). left. by apply in_rev_iff.
Qed.


(** ** A capture *)

(** Virtual-key codes are below 65536. *)
Context (MapVirtualKeyW : Z -> Z) (room : nat -> bool) (vk_range : forall s, in_u16 (MapVirtualKeyW s)).

Definition told_ok (st : pump) : Prop := exists h, router_ok (router st) (keys_down (accepted st)) h.

Definition read_ok (t : bool * pipe_read) : Prop :=
  match t.2 with ReadBytes bs => bytes bs | ReadFailed i => i = false | _ => True end.

Lemma route_silent r vk u r' out ex dis : route r vk u = (r', (out, ex, dis)) -> ex || dis = true -> out = [].
Proof.
  unfold route, route_up, route_down, forget_sent, flush_pending. intros H Hx. destruct u.
  - repeat case_match; apply pair_eq in H as [_ [= _ <- <-]]; done.
  - repeat case_match; apply pair_eq in H as [_ [= <- <- <-]]; done.
Qed.

Lemma forward_event_ok st event st' res : told_ok st -> forward_event MapVirtualKeyW room st event = (st', res) ->
  buffered st' = buffered st /\ (res = Err QueueFull \/ told_ok st').
Proof.
  intros [h Hok] H. unfold forward_event in H. assert (Hst : told_ok st) by by exists h.
  destruct (_ || _); [apply pair_eq in H as [<- <-]; by split; [|right]|].
  destruct (broker_vk _ _ _) as [vk|] eqn:Ev; [|apply pair_eq in H as [<- <-]; by split; [|right]].
  assert (Hv : in_u16 vk).
  { unfold broker_vk in Ev. destruct (_ =? 0); [done|]. apply (inj Some) in Ev as <-. apply vk_range. }
  destruct (route _ vk _) as [r [[out ex] dis]] eqn:Er. pose proof (route_ok _ _ _ _ _ _ _ _ _ Hv Hok Er) as Hok'.
  pose proof (route_silent _ _ _ _ _ _ _ Er) as Hs.
  assert (Hsame : out = [] -> told_ok (set_router st r)) by (intros ->; by eexists).
  destruct ex; [apply pair_eq in H as [<- <-]; split; [done|right; by apply Hsame, Hs]|].
  destruct dis; [apply pair_eq in H as [<- <-]; split; [done|right; by apply Hsame, Hs]|].
  destruct out as [|p out]; [apply pair_eq in H as [<- <-]; split; [done|right; by apply Hsame]|].
  unfold send in H. destruct (room _); apply pair_eq in H as [<- <-]; (split; [done|]); [right|by left].
  eexists. cbn [router accepted set_router]. rewrite keys_down_app. exact Hok'.
Qed.

Lemma forward_events_ok st events st' res : told_ok st -> forward_events MapVirtualKeyW room st events = (st', res) ->
  buffered st' = buffered st /\ (res = Err QueueFull \/ told_ok st').
Proof.
  revert st. induction events as [|event events IH]; intros st Hok H; cbn [forward_events] in H.
  - apply pair_eq in H as [<- <-]. by split; [|right].
  - destruct (forward_event _ _ st event) as [st1 [u|e]] eqn:E; destruct (forward_event_ok _ _ _ _ Hok E) as [Eb [Ee|Hok1]]; try done.
    + destruct (IH st1 Hok1 H) as [-> ?]. done.
    + apply pair_eq in H as [<- <-]. by split; [|left].
    + apply pair_eq in H as [<- <-]. by split; [|right].
Qed.

Lemma handle_message_ok st kind payload st' res : told_ok st -> handle_message MapVirtualKeyW room st kind payload = (st', res) ->
  buffered st' = buffered st /\ (res = Err QueueFull \/ told_ok st').
Proof.
  intros Hok H. unfold handle_message, forward_broker_events in H.
  repeat (case_match; try (apply pair_eq in H as [<- <-]; by split; [|right])); by eapply forward_events_ok.
Qed.

Lemma front_message_rest b kind payload rest : bytes b -> front_message b = Ok (Some (kind, payload, rest)) ->
  bytes rest /\ (length rest < length b)%nat.
Proof.
  intros Hb H. unfold front_message in H. destruct (Z.ltb_spec (len b) 12) as [|Hl]; [done|]. destruct (_ || _); [done|].
  destruct (_ <? _); [done|]. destruct (_ <? _); [done|]. apply Ok_inj, (inj Some), pair_eq in H as [_ <-].
  pose proof (le_field_nonneg b 8 12 Hb). split; [by apply bytes_drop|]. rewrite length_drop. unfold len in Hl. lia.
Qed.

Lemma drain_buffer_ok st : told_ok st -> bytes (buffered st) ->
  exists st' res, drain_buffer MapVirtualKeyW room st = Some (st', res) /\ bytes (buffered st') /\ (res = Err QueueFull \/ told_ok st').
Proof.
  intros Hok Hb. unfold drain_buffer.
  destruct (loop_fuel_spec (drain_turn MapVirtualKeyW room)
    (fun n st => n = length (buffered st) /\ told_ok st /\ bytes (buffered st))
    (fun r => bytes (buffered r.1) /\ (r.2 = Err QueueFull \/ told_ok r.1))) with (fuel := S (length (buffered st))) (n := length (buffered st)) (s := st)
    as ([st' res] & E & Hb' & Hr); [| |done|lia|by exists st', res].
  - intros n s s' (-> & Ho & Hbs) E. unfold drain_turn in E.
    destruct (front_message (buffered s)) as [[[[kind payload] rest]|]|] eqn:Ef; try done.
    destruct (handle_message _ _ s kind payload) as [s1 [u|e]] eqn:Eh; [|done]. injection E as <-.
    destruct (handle_message_ok _ _ _ _ _ Ho Eh) as [Eb [?|Ho1]]; [done|]. destruct (front_message_rest _ _ _ _ Hbs Ef) as [Hr Hl].
    by exists (length rest).
  - intros n s r (-> & Ho & Hbs) E. unfold drain_turn in E.
    destruct (front_message (buffered s)) as [[[[kind payload] rest]|]|] eqn:Ef; [|injection E as <-; by split; [|right]..].
    destruct (handle_message _ _ s kind payload) as [s1 [u|e]] eqn:Eh; [done|]. injection E as <-.
    destruct (handle_message_ok _ _ _ _ _ Ho Eh) as [Eb Hr]. cbn. by rewrite Eb.
Qed.

Lemma pump_loop_ok turns st : Forall read_ok turns -> told_ok st -> bytes (buffered st) ->
  exists st' res, pump_loop MapVirtualKeyW room st turns = Some (st', res) /\ bytes (buffered st') /\
    (res = Some (Err QueueFull) \/ told_ok st').
Proof.
  intros Ht. revert st. induction Ht as [|[stop rd] turns Hr _ IH]; intros st Hok Hb; cbn [pump_loop].
  - exists st, None. by split_and!; [..|right].
  - assert (Hsame : forall r : option (result unit pump_error), exists st' res, Some (st, r) = Some (st', res) /\ bytes (buffered st') /\
      (res = Some (Err QueueFull) \/ told_ok st')) by (intros r; exists st, r; by split_and!; [..|right]).
    destruct stop; [apply Hsame|]. destruct rd as [|bs| |i]; [apply Hsame| |by apply IH|apply Hsame].
    destruct (drain_buffer_ok (set_buffered st (buffered st ++ bs))) as (st1 & res & -> & Hb1 & H1); [done|by apply bytes_app|].
    cbn [mbind option_bind]. destruct res as [u|e].
    + destruct H1 as [?|H1]; [done|]. by apply IH.
    + exists st1, (Some (Err e)). split_and!; [done..|]. destruct H1 as [[= ->]|H1]; [by left|by right].
Qed.

Lemma disarm_ok turns b : Forall read_ok turns -> bytes b ->
  exists res, request_broker_disarm b turns = Some res /\ forall e, res = Some (Err e) -> interrupted e = false.
Proof.
  intros Ht. revert b. induction Ht as [|[late rd] turns Hr Ht IH]; intros b Hb; cbn [request_broker_disarm].
  all: destruct (loop_fuel_spec disarm_turn (fun n b => n = length b /\ bytes b)
    (fun r => (forall e, r = Err e -> interrupted e = false) /\ forall b, r = Ok (Some b) -> bytes b)) with (fuel := S (length b)) (n := length b) (s := b)
    as (r & E & He & Hbr); [| |done|lia|].
  1,4: intros n s s' [-> Hs] E; unfold disarm_turn in E; destruct (front_message s) as [[[[kind payload] rest]|]|] eqn:Ef; try done;
    destruct (negb _); [done|]; destruct (_ && _); [done|]; injection E as <-;
    destruct (front_message_rest _ _ _ _ Hs Ef) as [? ?]; by exists (length rest).
  1,3: intros n s r [-> Hs] E; unfold disarm_turn in E; destruct (front_message s) as [[[[kind payload] rest]|]|e] eqn:Ef;
    [|injection E as <-; split; [done|by intros ? [= <-]]
     |injection E as <-; split; [|done]; intros ? [= <-]; unfold front_message in Ef; repeat case_match; by simplify_eq];
    destruct (negb _); [injection E as <-; split; [by intros ? [= <-]|done]|]; destruct (_ && _); [|done]; by injection E as <-.
  all: rewrite E; cbn [mbind option_bind]; destruct r as [[b'|]|e];
    [|by eexists; split; [done|]|eexists; split; [done|]; intros e' [= <-]; by apply He].
  - by eexists.
  - destruct late; [eexists; split; [done|]; by intros e [= <-]|]. destruct rd as [|bs| |i].
    + eexists. split; [done|]. by intros e [= <-].
    + apply IH. apply bytes_app; [by apply Hbr|done].
    + apply IH. by apply Hbr.
    + eexists. split; [done|]. intros e [= <-]. exact Hr.
Qed.

Record env_ok (env : capture_env) : Prop := {
  eo_turns : Forall read_ok (turns env);
  eo_disarm : Forall read_ok (disarm_turns env);
  eo_written : forall e, disarm_written env = Err e -> interrupted e = false
}.

(** What is left to let go of does not depend on how the capture ended, unless a
    batch found no room. *)
Lemma end_capture_ok st pumped disarmed res :
  end_capture room st pumped disarmed = res -> pumped = Err QueueFull \/ told_ok st ->
  (forall e, disarmed = Err e -> interrupted e = false) ->
  (worker_requests res).2 = true \/ keys_down (told res) = ∅.
Proof.
  intros <- Hp Hd. unfold end_capture, worker_requests.
  assert (Hfull : pumped = Err QueueFull -> forall r : bool,
    match (let? u := disarmed in let? v := (if r then Ok tt else Err ReleasesFull) in pumped) with
    | Ok _ => (false, false) | Err e => if interrupted e then (true, false) else (false, true) end.2 = true).
  { intros -> r. destruct disarmed as [u|e]; [by destruct r|]. by rewrite Hd. }
  assert (Hstuck : match (let? u := disarmed in let? v := (if false then Ok tt else Err ReleasesFull) in pumped) with
    | Ok _ => (false, false) | Err e => if interrupted e then (true, false) else (false, true) end.2 = true).
  { destruct disarmed as [u|e]; [done|]. by rewrite Hd. }
  destruct Hp as [Hp|[h Hok]].
  { left. destruct (release_sent (router st)).2; [exact (Hfull Hp true)|]. exact (Hfull Hp (room (sends st))). }
  pose proof (release_sent_ok _ _ _ Hok) as He. destruct (release_sent (router st)).2 as [|p ps] eqn:Er; [by right|].
  unfold send. destruct (room (sends st)); [right|by left]. cbn [told accepted]. by rewrite keys_down_app.
Qed.

(** C38: However the pipe's bytes come, whatever of them is invalid, whichever batches
    find room in the session's queue and however the capture ends: when it has
    ended, either the worker ends the session or the host has been told to let go
    of every key it was told is down. *)
Theorem capture_no_stuck_key env : env_ok env ->
  exists res, run_broker_capture MapVirtualKeyW room env = Some res /\
    match res with
    | None => True
    | Some res => (worker_requests res).2 = true \/ keys_down (told res) = ∅
    end.
Proof.
  intros [Ht Hd Hw]. unfold run_broker_capture. destruct (opened env); [|eexists; split; [done|by right]].
  destruct (arm_written env); [|eexists; split; [done|by right]].
  destruct (pump_loop_ok (turns env) pump_new Ht) as (st & [pumped|] & -> & Hb & Hp); [| | |by exists None].
  { exists ∅. apply router_default_ok. }
  { apply bytes_nil. }
  assert (exists d, disarm_answer env (buffered st) = Some d /\ forall e, d = Some (Err e) -> interrupted e = false) as (d & -> & He).
  { unfold disarm_answer. destruct (disarm_written env) as [u|e] eqn:Ed; [by apply disarm_ok|].
    eexists. split; [done|]. intros e' [= <-]. by apply Hw. }
  eexists. split; [done|]. destruct d as [disarmed|]; [|done]. cbn [option_map]. eapply end_capture_ok; [done| |].
  - destruct Hp as [[= ->]|Hp]; [by left|by right].
  - intros e ->. by apply He.
Qed.

(** At every moment of a run of the router, the keys that are down at the host are
    held on the keyboard; and a release tells the host to let go of exactly those. *)
Theorem router_tracks_keyboard es : Forall (fun e => in_u16 e.1) es ->
  let '(r, ps) := router_run router_default es in
  keys_down ps ⊆ held es /\ (forall vk, vk ∈ keys_down ps <-> vk ∈ sent_down r) /\
  keys_down (ps ++ (release_sent r).2) = ∅.
Proof.
  intros Hes. pose proof (router_run_ok es Hes) as Hok. destruct (router_run router_default es) as [r ps]. cbn [fst snd] in Hok.
  split_and!.
  - intros vk Hvk%(ro_sent _ _ _ Hok). apply (ro_held _ _ _ Hok). by left.
  - apply (ro_sent _ _ _ Hok).
  - rewrite keys_down_app. by apply (release_sent_ok _ _ _ Hok).
Qed.

(** ** From the broker to the router *)

(** The key edge of a driver event. *)
Definition key_of (e : Event) : Z * bool :=
  (MapVirtualKeyW (scan_code (make_code e) (flags e)), negb (Z.land (flags e) DRIVER_KEY_BREAK =? 0)).

(** What the broker writes for a batch. *)
Definition batch_wire (b : Batch) : list Z :=
  match encode_batch b with
  | Ok body => match encode_header Events (len body) with Ok header => header ++ body | Err _ => [] end
  | Err _ => []
  end.

(** A batch the broker sends: nothing dropped, keyboard events of keys the layout
    knows, and within a message. *)
Definition keyboard_batch (b : Batch) : Prop :=
  batch_ok b /\ dropped b = 0 /\ 8 + len (events b) * 32 <= 65536 /\
  Forall (fun e => ev_kind e = 1 /\ (key_of e).1 <> 0) (events b).

(** No key of the run is an escape. *)
Fixpoint quiet (r : BrokerRouter) (keys : list (Z * bool)) : Prop :=
  match keys with
  | [] => True
  | e :: keys => let '(r, (_, exit, disconnect)) := route r e.1 e.2 in exit || disconnect = false /\ quiet r keys
  end.

Lemma router_run_from r ps keys :
  foldl (fun '(r, ps) e => let '(r, (out, _, _)) := route r e.1 e.2 in (r, ps ++ out)) (r, ps) keys =
  ((router_run r keys).1, ps ++ (router_run r keys).2).
Proof.
  unfold router_run. revert r ps. induction keys as [|e keys IH]; intros r ps; cbn [foldl]; [by rewrite app_nil_r|].
  destruct (route r e.1 e.2) as [r1 [[out ex] dis]]. rewrite IH, (IH r1 ([] ++ out)). cbn [fst snd app]. by rewrite app_assoc.
Qed.

Lemma router_run_cons r e keys : router_run r (e :: keys) =
  ((router_run (route r e.1 e.2).1 keys).1, (route r e.1 e.2).2.1.1 ++ (router_run (route r e.1 e.2).1 keys).2).
Proof.
  unfold router_run at 1. cbn [foldl]. destruct (route r e.1 e.2) as [r1 [[out ex] dis]]. by rewrite router_run_from.
Qed.

Lemma router_run_app r k1 k2 : router_run r (k1 ++ k2) =
  ((router_run (router_run r k1).1 k2).1, (router_run r k1).2 ++ (router_run (router_run r k1).1 k2).2).
Proof.
  unfold router_run at 1. rewrite foldl_app, router_run_from. by rewrite router_run_from.
Qed.

Lemma quiet_keys_app r k1 k2 : quiet r (k1 ++ k2) <-> quiet r k1 /\ quiet (router_run r k1).1 k2.
Proof.
  revert r. induction k1 as [|e k1 IH]; intros r; cbn [app quiet]; [tauto|].
  rewrite router_run_cons. destruct (route r e.1 e.2) as [r1 [[out ex] dis]]. cbn [fst]. rewrite IH. tauto.
Qed.

(** The pump has taken [keys] from [st] to [st']. *)
Definition fed (st : pump) (keys : list (Z * bool)) (st' : pump) : Prop :=
  router st' = (router_run (router st) keys).1 /\ accepted st' = accepted st ++ (router_run (router st) keys).2 /\
  buffered st' = buffered st.

Context (roomy : forall n, room n = true).

Lemma forward_event_fed st e : event_ok e -> ev_kind e = 1 -> (key_of e).1 <> 0 -> quiet (router st) [key_of e] ->
  exists st', forward_event MapVirtualKeyW room st (encode_event e) = (st', Ok tt) /\ fed st [key_of e] st'.
Proof.
  intros [H1 H2 H3 H4 H5 H6 H7] Hk Hv Hq. cbn [quiet] in Hq. unfold forward_event, fed. rewrite router_run_cons. cbn [router_run foldl fst snd].
  unfold encode_event. rewrite <- (app_nil_r (le_bytes 8 (interrupt_time_100ns e))).
  assert (0 <= VERSION < 256 ^ Z.of_nat 2) by done. read_fields. rewrite Hk. cbn [Z.eqb Pos.eqb negb orb VERSION].
  unfold broker_vk. unfold key_of in Hv. cbn [fst] in Hv. destruct (Z.eqb_spec (MapVirtualKeyW (scan_code (make_code e) (flags e))) 0) as [|_]; [done|].
  unfold key_of in *. cbn [fst snd] in *. destruct (route _ _ _) as [r [[out ex] dis]]. cbn [fst snd] in *.
  destruct Hq as [[-> ->]%orb_false_elim _]. rewrite !app_nil_r. destruct out as [|p out].
  - eexists. split; [done|]. cbn. by rewrite app_nil_r.
  - unfold send. cbn [sends set_router]. rewrite roomy. eexists. split; done.
Qed.

Lemma fed_trans st k1 st1 k2 st2 : fed st k1 st1 -> fed st1 k2 st2 -> fed st (k1 ++ k2) st2.
Proof.
  intros (R1 & A1 & B1) (R2 & A2 & B2). unfold fed. rewrite router_run_app. cbn [fst snd].
  by rewrite R2, A2, B2, A1, R1, B1, <- app_assoc.
Qed.

Lemma forward_events_fed es st : Forall event_ok es -> Forall (fun e => ev_kind e = 1 /\ (key_of e).1 <> 0) es ->
  quiet (router st) (key_of <$> es) ->
  exists st', forward_events MapVirtualKeyW room st (encode_event <$> es) = (st', Ok tt) /\ fed st (key_of <$> es) st'.
Proof.
  intros He Hk. revert st Hk. induction He as [|e es He _ IH]; intros st Hk Hq.
  - exists st. split; [done|]. unfold fed. cbn. by rewrite app_nil_r.
  - apply Forall_cons in Hk as [[Hk1 Hk2] Hk]. rewrite fmap_cons in Hq. change (key_of e :: (key_of <$> es)) with ([key_of e] ++ (key_of <$> es)) in Hq.
    apply quiet_keys_app in Hq as [Hq1 Hq2]. destruct (forward_event_fed st e He Hk1 Hk2 Hq1) as (st1 & E1 & F1).
    destruct (IH st1 Hk) as (st2 & E2 & F2); [by rewrite (proj1 F1)|]. exists st2. rewrite !fmap_cons. cbn [forward_events]. rewrite E1.
    split; [done|]. change (key_of e :: (key_of <$> es)) with ([key_of e] ++ (key_of <$> es)). by eapply fed_trans.
Qed.

(** The bytes of a batch on the pipe: a header for its payload. *)
Lemma batch_wire_eq b : keyboard_batch b -> exists body,
  batch_wire b = PIPE_MAGIC ++ le_bytes 2 1 ++ le_bytes 2 3 ++ le_bytes 4 (len body) ++ body /\
  len body = 8 + len (events b) * 32 /\ len body <= 65536 /\
  body = le_bytes 4 (len (events b)) ++ le_bytes 4 0 ++ concat (encode_event <$> events b).
Proof.
  intros (_ & Hd & Hl & _). unfold batch_wire, encode_batch, encode_header, MAX_PAYLOAD, BATCH_PREFIX_SIZE, EVENT_SIZE.
  pose proof (len_nonneg (events b)). destruct (Z.ltb_spec 65536 (8 + len (events b) * 32)); [lia|].
  rewrite Hd, concat_encode, wrap32_id by (apply in_u32_iff; lia). eexists. split.
  - match goal with |- context [65536 <? len ?x] => assert (Hb : len x = 8 + len (events b) * 32) end.
    { rewrite !len_app, !len_le_bytes, <- concat_encode, len_encode_events. lia. }
    rewrite Hb. destruct (Z.ltb_spec 65536 (8 + len (events b) * 32)); [lia|].
    rewrite wrap32_id by (apply in_u32_iff; lia). rewrite <- !app_assoc, <- Hb. reflexivity.
  - rewrite !len_app, !len_le_bytes, <- concat_encode, len_encode_events. split_and!; [lia..|done].
Qed.

Lemma front_batch b rest : keyboard_batch b -> exists body,
  front_message (batch_wire b ++ rest) = Ok (Some (3, body, rest)) /\ len body = 8 + len (events b) * 32 /\
  body = le_bytes 4 (len (events b)) ++ le_bytes 4 0 ++ concat (encode_event <$> events b).
Proof.
  intros Hb. destruct (batch_wire_eq b Hb) as (body & -> & El & Hl & Eb). exists body. split; [|by split].
  pose proof (len_nonneg body). pose proof (len_nonneg rest). change PIPE_MAGIC with (le_bytes 4 827019330).
  assert (0 <= len body < 256 ^ Z.of_nat 4) by (change (256 ^ Z.of_nat 4) with 4294967296; lia).
  set (bs := (le_bytes 4 827019330 ++ _) ++ rest). assert (Hbs : len bs = 12 + len body + len rest).
  { subst bs. wire_lens. lia. }
  unfold front_message. rewrite Hbs. destruct (Z.ltb_spec (12 + len body + len rest) 12); [lia|].
  assert (Em : take 4 bs = PIPE_MAGIC) by (subst bs; by rewrite <- !app_assoc, take_app_length').
  assert (E1 : le_field bs 4 6 = 1) by (subst bs; by read_fields).
  assert (E2 : le_field bs 6 8 = 3) by (subst bs; by read_fields).
  assert (E3 : le_field bs 8 12 = len body) by (subst bs; by read_fields).
  assert (Ed : bs = (le_bytes 4 827019330 ++ le_bytes 2 1 ++ le_bytes 2 3 ++ le_bytes 4 (len body)) ++ body ++ rest)
    by (subst bs; by rewrite <- !app_assoc).
  rewrite bool_decide_true, E1, E2, E3 by done. cbn [negb orb Z.eqb Pos.eqb]. unfold MAX_PAYLOAD.
  destruct (Z.ltb_spec 65536 (len body)); [lia|]. destruct (Z.ltb_spec (12 + len body + len rest) (12 + len body)); [lia|].
  assert (Hn : Z.to_nat (12 + len body) = (12 + length body)%nat) by (unfold len; lia). rewrite Hn.
  assert (H12 : forall x, length (le_bytes 4 827019330 ++ le_bytes 2 1 ++ le_bytes 2 3 ++ le_bytes 4 x) = 12%nat)
    by (intros x; by rewrite !length_app, !length_le_bytes).
  do 3 f_equal.
  - f_equal. unfold slice. rewrite Ed, drop_app_length' by by rewrite H12.
    replace (12 + length body - 12)%nat with (length body) by lia. by rewrite take_app_length.
  - rewrite Ed, app_assoc, drop_app_length' by by rewrite length_app, H12. done.
Qed.

(** Less than a batch is no message yet. *)
Lemma front_short b p q rest : keyboard_batch b -> p ++ q = batch_wire b ++ rest -> (length p < length (batch_wire b))%nat ->
  front_message p = Ok None.
Proof.
  intros Hb E Hl. destruct (batch_wire_eq b Hb) as (body & Ew & El & Hm & Eb). pose proof (len_nonneg body).
  assert (Hw : length (batch_wire b) = (12 + length body)%nat) by (rewrite Ew, !length_app, !length_le_bytes; done).
  unfold front_message. destruct (Z.ltb_spec (len p) 12) as [|Hp]; [done|]. unfold len in Hp.
  set (h := PIPE_MAGIC ++ le_bytes 2 1 ++ le_bytes 2 3 ++ le_bytes 4 (len body)).
  assert (Hh : exists t, p = h ++ t).
  { assert (take 12 (p ++ q) = h) as Ht.
    { rewrite E, Ew, !app_assoc, <- (app_assoc _ body), take_app_length'; [by rewrite <- !app_assoc|]. by rewrite !length_app, !length_le_bytes. }
    rewrite take_app_le in Ht by lia. exists (drop 12 p). by rewrite <- Ht, take_drop. }
  destruct Hh as [t ->]. subst h. change PIPE_MAGIC with (le_bytes 4 827019330) in *.
  assert (0 <= len body < 256 ^ Z.of_nat 4) by (change (256 ^ Z.of_nat 4) with 4294967296; lia).
  set (bs := _ ++ t) in *. assert (Em : take 4 bs = PIPE_MAGIC) by (subst bs; by rewrite <- !app_assoc, take_app_length').
  assert (E1 : le_field bs 4 6 = 1) by (subst bs; by read_fields).
  assert (E3 : le_field bs 8 12 = len body) by (subst bs; by read_fields).
  rewrite bool_decide_true, E1, E3 by done. cbn [negb orb Z.eqb Pos.eqb]. unfold MAX_PAYLOAD.
  destruct (Z.ltb_spec 65536 (len body)); [lia|]. destruct (Z.ltb_spec (len bs) (12 + len body)) as [|Hge]; [done|].
  unfold len in *. lia.
Qed.

Definition batch_keys (bs : list Batch) : list (Z * bool) := key_of <$> (bs ≫= events).

Lemma handle_batch st b body : keyboard_batch b -> quiet (router st) (key_of <$> events b) ->
  len body = 8 + len (events b) * 32 -> body = le_bytes 4 (len (events b)) ++ le_bytes 4 0 ++ concat (encode_event <$> events b) ->
  exists st', handle_message MapVirtualKeyW room st 3 body = (st', Ok tt) /\ fed st (key_of <$> events b) st'.
Proof.
  intros ([_ He] & _ & Hl & Hk) Hq El ->. pose proof (len_nonneg (events b)). unfold handle_message, forward_broker_events.
  cbn [Z.eqb Pos.eqb kind_u16]. rewrite El. destruct (Z.ltb_spec (8 + len (events b) * 32) 8); [lia|].
  assert (0 <= len (events b) < 256 ^ Z.of_nat 4) by (change (256 ^ Z.of_nat 4) with 4294967296; lia).
  set (tail := concat _). read_fields. rewrite !Z.eqb_refl. cbn [negb Z.eqb]. subst tail. unfold chunks.
  rewrite chunks_fuel_concat_eq; [by apply forward_events_fed|lia| |lia].
  apply Forall_fmap, Forall_forall. intros. apply length_encode_event.
Qed.

Lemma drain_batches bs fuel st fut : Forall keyboard_batch bs -> (length (buffered st) < fuel)%nat ->
  buffered st ++ fut = concat (batch_wire <$> bs) -> quiet (router st) (batch_keys bs) ->
  exists st' bs1 bs2, loop_fuel fuel (drain_turn MapVirtualKeyW room) st = Some (st', Ok tt) /\
    bs = bs1 ++ bs2 /\ buffered st' ++ fut = concat (batch_wire <$> bs2) /\ (fut = [] -> bs2 = []) /\
    router st' = (router_run (router st) (batch_keys bs1)).1 /\ accepted st' = accepted st ++ (router_run (router st) (batch_keys bs1)).2.
Proof.
  intros Hbs. revert fuel st. induction Hbs as [|b bs Hb _ IH]; intros fuel st Hf Eb Hq; (destruct fuel as [|fuel]; [lia|]).
  - cbn in Eb. apply app_nil in Eb as [Eb ->]. exists st, [], []. cbn [loop_fuel]. unfold drain_turn. rewrite Eb.
    split_and!; [done..|]. cbn. by rewrite app_nil_r.
  - rewrite fmap_cons in Eb. cbn [concat] in Eb. destruct (decide (length (buffered st) < length (batch_wire b))%nat) as [Hl|Hl].
    + exists st, [], (b :: bs). cbn [loop_fuel]. unfold drain_turn. rewrite (front_short b _ fut _ Hb Eb Hl).
      split_and!; [done..| |done|cbn; by rewrite app_nil_r]. intros ->. exfalso. rewrite app_nil_r in Eb. apply (f_equal length) in Eb.
      rewrite length_app in Eb. lia.
    + assert (exists tail, buffered st = batch_wire b ++ tail /\ tail ++ fut = concat (batch_wire <$> bs)) as (tail & Et & Er).
      { exists (drop (length (batch_wire b)) (buffered st)). assert (Ht : take (length (batch_wire b)) (buffered st) = batch_wire b).
        { apply (f_equal (take (length (batch_wire b)))) in Eb. rewrite take_app_length, take_app_le in Eb by lia. done. }
        assert (Eq : buffered st = batch_wire b ++ drop (length (batch_wire b)) (buffered st)) by (rewrite <- Ht at 1; by rewrite take_drop).
        split; [done|]. rewrite Eq in Eb at 1. rewrite <- app_assoc in Eb. by apply app_inv_head in Eb. }
      unfold batch_keys in Hq. rewrite bind_cons, fmap_app in Hq. apply quiet_keys_app in Hq as [Hq1 Hq2].
      destruct (front_batch b tail Hb) as (body & Ef & El & Ebody). destruct (handle_batch st b body Hb Hq1 El Ebody) as (st1 & Eh & R1 & A1 & B1).
      destruct (IH fuel (set_buffered st1 tail)) as (st' & bs1 & bs2 & E' & Ebs & Eb' & Hnil & R' & A'); cbn [buffered router accepted set_buffered].
      * assert (Hw : (0 < length (batch_wire b))%nat) by (destruct (batch_wire_eq b Hb) as (body' & -> & _); rewrite !length_app; cbn; lia).
        rewrite Et, length_app in Hf. lia.
      * done.
      * by rewrite R1.
      * exists st', (b :: bs1), bs2. cbn [loop_fuel]. unfold drain_turn. rewrite Et, Ef, Eh. fold (drain_turn MapVirtualKeyW room).
        split_and!; [exact E'|by rewrite Ebs|done|done| |]; cbn [router accepted set_buffered] in R', A';
          unfold batch_keys in *; rewrite bind_cons, fmap_app, router_run_app; cbn [fst snd]; rewrite ?R', ?A', R1; [done|].
        by rewrite A1, <- app_assoc.
Qed.

Lemma pump_batches chunks bs st : Forall keyboard_batch bs -> buffered st ++ concat chunks = concat (batch_wire <$> bs) ->
  (chunks = [] -> bs = []) -> quiet (router st) (batch_keys bs) ->
  exists st', pump_loop MapVirtualKeyW room st ((fun c => (false, ReadBytes c)) <$> chunks) = Some (st', None) /\ buffered st' = [] /\
    router st' = (router_run (router st) (batch_keys bs)).1 /\ accepted st' = accepted st ++ (router_run (router st) (batch_keys bs)).2.
Proof.
  revert bs st. induction chunks as [|c chunks IH]; intros bs st Hbs Eb Hn Hq.
  - rewrite (Hn eq_refl) in *. cbn in Eb. apply app_nil in Eb as [Eb _]. exists st. cbn. by rewrite app_nil_r.
  - rewrite fmap_cons. cbn [pump_loop]. cbn [concat] in Eb. rewrite app_assoc in Eb. unfold drain_buffer.
    destruct (drain_batches bs (S (length (buffered (set_buffered st (buffered st ++ c))))) (set_buffered st (buffered st ++ c)) (concat chunks))
      as (st1 & bs1 & bs2 & -> & -> & E1 & Hn1 & R1 & A1); [done|cbn; lia|done|done|]. cbn [mbind option_bind].
    cbn [router accepted set_buffered] in *. unfold batch_keys in Hq. rewrite bind_app, fmap_app in Hq. apply quiet_keys_app in Hq as [_ Hq2].
    apply Forall_app in Hbs as [_ Hbs2]. destruct (IH bs2 st1 Hbs2 E1) as (st2 & -> & B2 & R2 & A2).
    + intros ->. by apply Hn1.
    + by rewrite R1.
    + exists st2. split; [done|]. split; [done|]. unfold batch_keys in *. rewrite bind_app, fmap_app, router_run_app. cbn [fst snd].
      by rewrite R2, A2, A1, R1, <- app_assoc.
Qed.

Lemma batch_wires_bytes bs : Forall keyboard_batch bs -> bytes (concat (batch_wire <$> bs)).
Proof.
  induction 1 as [|b bs Hb _ IH]; [apply bytes_nil|]. rewrite fmap_cons. cbn [concat]. apply bytes_app; [|done].
  destruct (batch_wire_eq b Hb) as (body & -> & _ & _ & ->). rewrite <- concat_encode. change PIPE_MAGIC with (le_bytes 4 827019330).
  repeat apply bytes_app; auto using bytes_le_bytes, bytes_encode_events.
Qed.

(** C39: However the bytes of the broker's batches (nothing dropped, every key one the
    layout maps) are cut into reads, as long as the session's queue has room and no key is
    an escape, the host is told exactly what
    the router makes of the batches' events in their order. *)
Theorem broker_keys_delivered bs chunks : Forall keyboard_batch bs -> concat chunks = concat (batch_wire <$> bs) ->
  quiet router_default (batch_keys bs) ->
  exists st, pump_loop MapVirtualKeyW room pump_new ((fun c => (false, ReadBytes c)) <$> chunks) = Some (st, None) /\
    accepted st = (router_run router_default (batch_keys bs)).2 /\ keys_down (accepted st) ⊆ held (batch_keys bs).
Proof.
  intros Hbs E Hq. destruct (pump_batches chunks bs pump_new Hbs E) as (st & E1 & _ & R & A); [|done|].
  - intros ->. destruct bs as [|b bs]; [done|]. exfalso. apply Forall_cons in Hbs as [Hb _].
    destruct (batch_wire_eq b Hb) as (body & Ew & _). rewrite fmap_cons in E. cbn [concat] in E. by rewrite Ew in E.
  - exists st. split; [done|]. split; [done|]. rewrite A. intros vk Hvk.
    assert (Hr : Forall (fun e : Z * bool => in_u16 e.1) (batch_keys bs)) by (apply Forall_fmap, Forall_forall; intros; apply vk_range).
    pose proof (router_run_ok _ Hr) as Hok. apply (ro_sent _ _ _ Hok) in Hvk. apply (ro_held _ _ _ Hok). by left.
Qed.
End router.

(** ** A keyboard with three keys *)

#[local] Instance two_bits : ModifierBits two_moonlight := @Build_ModifierBits two_moonlight true true true true orb.

(** Alt, Tab, and C for the rest. *)
Definition three_keys (scan : Z) : Z := if scan =? 56 then VK_LMENU else if scan =? 15 then VK_TAB else 67.

Lemma three_keys_range scan : in_u16 (three_keys scan).
Proof. unfold three_keys, in_u. repeat case_match; by split. Qed.

Definition press (n code : Z) : Event := mkEvent 1 n 9 code 0 0 0.
Definition lift (n code : Z) : Event := mkEvent 1 n 9 code 1 0 0.

Lemma press_ok n code : 0 <= n < 100 -> 0 <= code < 100 -> event_ok (press n code) /\ event_ok (lift n code).
Proof. intros Hn Hc. split; split; cbn; unfold in_u; lia. Qed.

Definition alt_tab_held : list Batch := [mkBatch 0 [press 1 56]; mkBatch 0 [press 2 15; lift 3 15]].
Definition wire_bytes : list Z := concat (batch_wire <$> alt_tab_held).

(** A capture stopped while Alt is down. *)
Definition stopped_capture : capture_env :=
  mkEnv (Ok tt) (Ok tt) [(false, ReadBytes (take 50 wire_bytes)); (false, ReadBlocked); (false, ReadBytes (drop 50 wire_bytes)); (true, ReadBlocked)]
    (Ok tt) [(false, ReadBytes (PIPE_MAGIC ++ [1; 0; 4; 0; 1; 0; 0; 0; 0]))].

Lemma alt_tab_batches : Forall (keyboard_batch three_keys) alt_tab_held.
Proof.
  assert (H : forall n c, 0 <= n < 100 -> 0 <= c < 100 -> event_ok (press n c) /\ event_ok (lift n c)) by apply press_ok.
  unfold alt_tab_held. constructor; [|constructor; [|constructor]]; unfold keyboard_batch, batch_ok; cbn [dropped events]; split_and!; try done.
  - constructor; [apply H; lia|constructor].
  - constructor; [by split|constructor].
  - constructor; [apply H; lia|constructor; [apply H; lia|constructor]].
  - constructor; [by split|constructor; [by split|constructor]].
Qed.

(** Alt and Tab are told, and at the stop Alt, which is still held, is let go. *)
Lemma capture_no_stuck_key_witness :
  let res := mkResult (Ok tt) [Key (M := two_moonlight) true true VK_LMENU tt; Key (M := two_moonlight) true true VK_TAB tt;
    Key (M := two_moonlight) false true VK_TAB tt; Key (M := two_moonlight) false false VK_LMENU tt] true true in
  run_broker_capture three_keys (fun _ => true) stopped_capture = Some (Some res) /\ keys_down (told res) = ∅.
Proof.
  intros res. assert (E : run_broker_capture three_keys (fun _ => true) stopped_capture = Some (Some res)) by (vm_compute; reflexivity).
  split; [exact E|]. pose proof two_moonlight_laws as L.
  destruct (capture_no_stuck_key (M := two_moonlight) three_keys (fun _ => true) three_keys_range stopped_capture) as (res' & E' & H).
  - split.
    + cbn [turns stopped_capture]. assert (Hb : bytes wire_bytes) by (by eapply batch_wires_bytes, alt_tab_batches).
      constructor; [by apply bytes_take|]. constructor; [done|]. constructor; [by apply bytes_drop|]. constructor; [done|constructor].
    + cbn [disarm_turns stopped_capture]. constructor; [change (bytes [66; 80; 75; 49; 1; 0; 4; 0; 1; 0; 0; 0; 0]); repeat (constructor; [unfold is_byte; lia|]); constructor|constructor].
    + done.
  - rewrite E in E'. apply (inj Some) in E'. rewrite <- E' in H. destruct H as [H|H]; [|exact H]. cbn in H. discriminate H.
Defined.

(** The same bytes in two reads. *)
Lemma broker_keys_delivered_witness :
  exists st, pump_loop three_keys (fun _ => true) pump_new
      ((fun c => (false, ReadBytes c)) <$> [take 50 wire_bytes; drop 50 wire_bytes]) = Some (st, None) /\
    accepted st = (router_run router_default (batch_keys three_keys alt_tab_held)).2 /\
    keys_down (accepted st) ⊆ held (batch_keys three_keys alt_tab_held) /\
    batch_keys three_keys alt_tab_held = [(VK_LMENU, false); (VK_TAB, false); (VK_TAB, true)].
Proof.
  pose proof two_moonlight_laws as L.
  destruct (broker_keys_delivered (M := two_moonlight) three_keys (fun _ => true) three_keys_range (fun _ => eq_refl) alt_tab_held
    [take 50 wire_bytes; drop 50 wire_bytes] alt_tab_batches) as (st & E & A & K).
  - cbn [concat]. by rewrite app_nil_r, take_drop.
  - vm_compute. split_and!; done.
  - exists st. split_and!; [exact E|exact A|exact K|vm_compute; reflexivity].
Defined.

Lemma router_tracks_keyboard_witness :
  let es := [(VK_LMENU, false); (VK_TAB, false); (VK_TAB, true)] in
  let '(r, ps) := router_run (M := two_moonlight) router_default es in
  sent_down r = [VK_LMENU] /\ keys_down ps ⊆ held es /\ keys_down (ps ++ (release_sent r).2) = ∅.
Proof.
  intros es. pose proof two_moonlight_laws as L.
  assert (Hes : Forall (fun e : Z * bool => in_u16 e.1) es) by (constructor; [by split|constructor; [by split|constructor; [by split|constructor]]]).
  pose proof (router_tracks_keyboard (M := two_moonlight) es Hes) as H.
  assert (Er : sent_down (router_run (M := two_moonlight) router_default es).1 = [VK_LMENU]) by (vm_compute; reflexivity).
  destruct (router_run router_default es) as [r ps]. destruct H as (H1 & _ & H3). split_and!; [exact Er|exact H1|exact H3].
Defined.
