(* ===== verification/KeyHook.v ===== *)
(** * Keys and mouse of the stream window (app-native/src/input.rs)

    The window procedure's messages, the low-level keyboard hook beside it and the
    Ctrl+Tab remap: what each makes of an event, as packets for the session and
    requests to the shell. What Windows reports (the asynchronous key state, the
    window's size, raw input) and whether a packet finds room are inputs. *)
From S2P Require Import Prelude Text Wire ByteBuffer InputWire KeyRouter.

(** The buttons of moonlight-common. *)
Class MouseButtons (M : Moonlight) := {
  mb_left : MouseButton; mb_right : MouseButton; mb_middle : MouseButton; mb_x1 : MouseButton; mb_x2 : MouseButton
}.

(** Win32 message numbers. *)
Definition WM_KILLFOCUS : Z := 8.
Definition WM_SETCURSOR : Z := 32.
Definition WM_INPUT : Z := 255.
Definition WM_KEYDOWN : Z := 256.
Definition WM_KEYUP : Z := 257.
Definition WM_SYSKEYDOWN : Z := 260.
Definition WM_SYSKEYUP : Z := 261.
Definition WM_MOUSEMOVE : Z := 512.
Definition WM_LBUTTONDOWN : Z := 513.
Definition WM_LBUTTONUP : Z := 514.
Definition WM_RBUTTONDOWN : Z := 516.
Definition WM_RBUTTONUP : Z := 517.
Definition WM_MBUTTONDOWN : Z := 519.
Definition WM_MBUTTONUP : Z := 520.
Definition WM_MOUSEWHEEL : Z := 522.
Definition WM_XBUTTONDOWN : Z := 523.
Definition WM_XBUTTONUP : Z := 524.
Definition WM_MOUSEHWHEEL : Z := 526.
Definition HTCLIENT : Z := 1.

Definition is_key_down (msg : Z) : bool := (msg =? WM_KEYDOWN) || (msg =? WM_SYSKEYDOWN).
Definition is_key_up (msg : Z) : bool := (msg =? WM_KEYUP) || (msg =? WM_SYSKEYUP).

Section input.
Context {M : Moonlight} {B : ModifierBits M} {MB : MouseButtons M}.

(** ** The pure parts *)

Record CaptureShared := mkCaptureShared {
  relative : bool; exit_requested : bool; disconnect_requested : bool; keyboard_capture : bool
}.

Definition capture_shared_default : CaptureShared := mkCaptureShared false false false false.
Definition set_relative (c : CaptureShared) (on : bool) : CaptureShared :=
  mkCaptureShared on (exit_requested c) (disconnect_requested c) (keyboard_capture c).
Definition set_keyboard_capture (c : CaptureShared) (on : bool) : CaptureShared :=
  mkCaptureShared (relative c) (exit_requested c) (disconnect_requested c) on.
Definition request_exit (c : CaptureShared) : CaptureShared :=
  mkCaptureShared (relative c) true (disconnect_requested c) (keyboard_capture c).
Definition request_disconnect (c : CaptureShared) : CaptureShared :=
  mkCaptureShared (relative c) (exit_requested c) true (keyboard_capture c).
Definition take_exit_requested (c : CaptureShared) : CaptureShared * bool :=
  (mkCaptureShared (relative c) false (disconnect_requested c) (keyboard_capture c), exit_requested c).
Definition take_disconnect_requested (c : CaptureShared) : CaptureShared * bool :=
  (mkCaptureShared (relative c) (exit_requested c) false (keyboard_capture c), disconnect_requested c).

Definition clamp_i16 (x : Z) : Z := Z.max (-32768) (Z.min 32767 x).

Definition raw_mouse_delta (us_flags dx dy : Z) : option (Z * Z) :=
  if negb (Z.land us_flags 1 =? 0) then None
  else if (dx =? 0) && (dy =? 0) then None
  else Some (clamp_i16 dx, clamp_i16 dy).

Record Viewport := mkViewport { client_w : Z; client_h : Z; stream_w : Z; stream_h : Z }.

Definition lo_i16 (v : Z) : Z := signed 16 (Z.land v 65535).
Definition hi_i16 (v : Z) : Z := signed 16 (Z.land (Z.shiftr v 16) 65535).

Definition setcursor_hides (lparam : Z) : bool := Z.land lparam 65535 =? HTCLIENT.

Definition key_packet (action : KeyAction) (m : KeyModifiers) (key : Z) : InboundPacket := Key action m (wrap 16 key) kf_empty.

Definition translate (msg wparam lparam : Z) (vp : Viewport) (m : KeyModifiers) : option InboundPacket :=
  let button a b := Some (MouseButtonPacket a b) in
  if msg =? WM_MOUSEMOVE then
    if (stream_w vp =? 0) || (stream_h vp =? 0) || (client_w vp <=? 0) || (client_h vp <=? 0) then None
    else
      let x := Z.max 0 (Z.min (client_w vp - 1) (lo_i16 lparam)) in
      let y := Z.max 0 (Z.min (client_h vp - 1) (hi_i16 lparam)) in
      Some (MousePosition (signed 16 (wrap 16 (Z.quot (x * stream_w vp) (client_w vp))))
              (signed 16 (wrap 16 (Z.quot (y * stream_h vp) (client_h vp))))
              (signed 16 (stream_w vp)) (signed 16 (stream_h vp)))
  else if msg =? WM_LBUTTONDOWN then button mba_press mb_left
  else if msg =? WM_LBUTTONUP then button mba_release mb_left
  else if msg =? WM_RBUTTONDOWN then button mba_press mb_right
  else if msg =? WM_RBUTTONUP then button mba_release mb_right
  else if msg =? WM_MBUTTONDOWN then button mba_press mb_middle
  else if msg =? WM_MBUTTONUP then button mba_release mb_middle
  else if (msg =? WM_XBUTTONDOWN) || (msg =? WM_XBUTTONUP) then
    button (if msg =? WM_XBUTTONDOWN then mba_press else mba_release)
      (if Z.land (Z.shiftr wparam 16) 65535 =? 1 then mb_x1 else mb_x2)
  else if msg =? WM_MOUSEWHEEL then Some (HighResScroll 0 (hi_i16 wparam))
  else if msg =? WM_MOUSEHWHEEL then Some (HighResScroll (hi_i16 wparam) 0)
  else if is_key_down msg then Some (key_packet ka_down m wparam)
  else if is_key_up msg then Some (key_packet ka_up m wparam)
  else None.

Definition sticky_keys : list InboundPacket :=
  key_packet ka_up km_empty <$> [VK_MENU; VK_LMENU; VK_RMENU; VK_CONTROL; VK_SHIFT; VK_LWIN; VK_RWIN; VK_TAB; VK_Q].

Definition alt_tab_chord (shift_held : bool) : list InboundPacket :=
  let mods := if shift_held then km_or km_alt km_shift else km_alt in
  [key_packet ka_down km_alt VK_MENU; key_packet ka_down mods VK_TAB; key_packet ka_up mods VK_TAB; key_packet ka_up km_empty VK_MENU].

(** ** The Ctrl+Tab remap *)

Record CtrlTabRemap := mkRemap { tab_down : bool; ctrl_suppressed : bool }.

Definition remap_default : CtrlTabRemap := mkRemap false false.

(** [None] is [Pass]. *)
Definition remap_handle (s : CtrlTabRemap) (captured : bool) (msg vk : Z) (ctrl_held alt_held shift_held : bool)
    : CtrlTabRemap * option (list InboundPacket) :=
  if (vk =? VK_CONTROL) && is_key_up msg then (mkRemap (tab_down s) false, None)
  else if negb (vk =? VK_TAB) then (s, None)
  else if is_key_down msg && captured && ctrl_held && negb alt_held then
    (mkRemap true true,
     Some ((if ctrl_suppressed s then [] else [key_packet ka_up km_empty VK_CONTROL]) ++ alt_tab_chord shift_held))
  else if is_key_up msg && tab_down s then
    (mkRemap false false, Some (if ctrl_suppressed s && ctrl_held then [key_packet ka_down km_ctrl VK_CONTROL] else []))
  else (s, None).

Definition is_wndproc_escape (captured : bool) (msg vk : Z) (c a : bool) : bool :=
  captured && is_key_down msg && (vk =? VK_Q) && c && a.

Definition is_disconnect_combo (msg vk : Z) (c a : bool) : bool :=
  is_key_down msg && (vk =? VK_OEM_3) && c && a.

(** ** The window procedure *)

(** What the window procedure and the hook share, and the hook's own Alt and Tab. *)
Record input := mkInput { capture : CaptureShared; remap : CtrlTabRemap; alt_pressed : bool; alt_tab_active : bool }.

(** What Windows and the rest of the application report during a message: the
    asynchronous state of Ctrl, Alt and Shift, the modifiers of the thread's queue,
    the raw mouse delta, the viewport, whether the broker owns the keyboard, and the
    room in the queue for a packet, a chord and the sticky keys. *)
Record message_env := mkMessageEnv {
  ctrl_held : bool; alt_held : bool; shift_held : bool; current_modifiers : KeyModifiers;
  raw_mouse : option (Z * Z); viewport : Viewport; broker_active : bool;
  packet_room : bool; chord_room : bool; sticky_room : bool
}.

(** What the procedure did besides: packets that were queued, and window calls. *)
Inductive effect : Type :=
| Queued (ps : list InboundPacket) | ApplyCursor | FocusAndCapture | EndCapture | ReleaseMouseGlobally.

Definition queue (room : bool) (ps : list InboundPacket) : list effect := if room then [Queued ps] else [].

Definition set_capture (w : input) (c : CaptureShared) : input := mkInput c (remap w) (alt_pressed w) (alt_tab_active w).
Definition set_remap (w : input) (r : CtrlTabRemap) : input := mkInput (capture w) r (alt_pressed w) (alt_tab_active w).
Definition reset_remap (w : input) : input := set_remap w remap_default.
Definition set_alt (w : input) (alt active : bool) : input := mkInput (capture w) (remap w) alt active.

(** [release_sticky_keys], with a disconnect if its result is looked at. *)
Definition release_sticky (e : message_env) (strict : bool) (w : input) : input :=
  if strict && negb (sticky_room e) then set_capture w (request_disconnect (capture w)) else w.

(** The message past the keyboard's special cases. *)
Definition forward (w : input) (e : message_env) (msg wparam lparam : Z) : input * list effect * option Z :=
  let side :=
    if (msg =? WM_LBUTTONDOWN) || (msg =? WM_RBUTTONDOWN) || (msg =? WM_MBUTTONDOWN) || (msg =? WM_XBUTTONDOWN) then [FocusAndCapture]
    else if (msg =? WM_LBUTTONUP) || (msg =? WM_RBUTTONUP) || (msg =? WM_MBUTTONUP) || (msg =? WM_XBUTTONUP) then [EndCapture]
    else [] in
  match translate msg wparam lparam (viewport e) (current_modifiers e) with
  | None => (w, side, None)
  | Some pkt => (w, side ++ queue (packet_room e) [pkt], Some 0)
  end.

(** The keyboard's part and what is behind it. *)
Definition handle_keys (w : input) (e : message_env) (msg wparam lparam : Z) : input * list effect * option Z :=
  let vk := wrap 16 wparam in
  if is_wndproc_escape (keyboard_capture (capture w)) msg vk (ctrl_held e) (alt_held e) then
    (release_sticky e true (reset_remap (set_capture w (request_exit (capture w)))), queue (sticky_room e) sticky_keys, Some 0)
  else if is_disconnect_combo msg vk (ctrl_held e) (alt_held e) then
    (set_capture (reset_remap w) (request_disconnect (capture w)), queue (sticky_room e) sticky_keys, Some 0)
  else if broker_active e then
    if is_key_down msg || is_key_up msg then (w, [], None) else forward w e msg wparam lparam
  else
    let '(r, action) := remap_handle (remap w) (keyboard_capture (capture w)) msg vk (ctrl_held e) (alt_held e) (shift_held e) in
    let w := set_remap w r in
    match action with
    | Some packets =>
        if chord_room e then (w, [Queued packets], Some 0)
        else (set_capture (reset_remap w) (request_disconnect (capture w)), queue (sticky_room e) sticky_keys, Some 0)
    | None => forward w e msg wparam lparam
    end.

Definition handle (w : input) (e : message_env) (msg wparam lparam : Z) : input * list effect * option Z :=
  if msg =? WM_SETCURSOR then if setcursor_hides lparam then (w, [ApplyCursor], Some 1) else (w, [], None)
  else
    let moved := if msg =? WM_MOUSEMOVE then [ApplyCursor] else [] in
    if (msg =? WM_MOUSEMOVE) && relative (capture w) then (w, moved, Some 0)
    else if msg =? WM_INPUT then
      (w, match raw_mouse e with
          | Some (dx, dy) => if relative (capture w) then queue (packet_room e) [MouseMove dx dy] else []
          | None => []
          end, None)
    else if (msg =? WM_KILLFOCUS) && keyboard_capture (capture w) then
      let w := release_sticky e true (reset_remap w) in
      (set_capture w (request_exit (set_keyboard_capture (set_relative (capture w) false) false)),
       queue (sticky_room e) sticky_keys ++ [ReleaseMouseGlobally], None)
    else let '(w, out, res) := handle_keys w e msg wparam lparam in (w, moved ++ out, res).

(** ** The keyboard hook *)

Inductive HookAction : Type := HookPass | SwallowForward | ExitImmersive | HookDisconnect.

Definition tracked_alt_state (vk : Z) (key_up previous : bool) : bool := if is_alt_key vk then negb key_up else previous.

Definition hook_decision (vk : Z) (alt_down key_up capture_on : bool) : HookAction :=
  if negb capture_on then HookPass
  else if vk =? VK_Q then if negb key_up && alt_down then ExitImmersive else HookPass
  else if vk =? VK_OEM_3 then if negb key_up && alt_down then HookDisconnect else HookPass
  else if is_alt_key vk || (vk =? VK_LWIN) || (vk =? VK_RWIN) || ((vk =? VK_TAB) && alt_down) then SwallowForward
  else HookPass.

(** The hook's view of an event: LLKHF_ALTDOWN, the asynchronous state, and room. *)
Record hook_env := mkHookEnv { llkhf_altdown : bool; h_ctrl : bool; h_shift : bool; h_meta : bool; h_room : bool; h_sticky : bool }.

Definition hook_modifiers (s : input) (e : hook_env) (vk : Z) : KeyModifiers :=
  let m := km_empty in
  let m := if h_shift e then km_or m km_shift else m in
  let m := if h_ctrl e then km_or m km_ctrl else m in
  let m := if negb (is_alt_key vk) && (alt_pressed s || llkhf_altdown e) then km_or m km_alt else m in
  if h_meta e then km_or m km_meta else m.

(** Alt and the Tab of an Alt+Tab noted, and whether this Tab is one. *)
Definition note_alt_tab (s : input) (e : hook_env) (vk : Z) (key_up : bool) : input * bool :=
  let alt := tracked_alt_state vk key_up (alt_pressed s) in
  if vk =? VK_TAB then
    if negb key_up then let active := alt || llkhf_altdown e in (set_alt s alt active, active)
    else if alt then (set_alt s alt (alt_tab_active s), true)
    else (set_alt s alt false, alt_tab_active s)
  else (set_alt s alt (alt_tab_active s), false).

(** The procedure on a key event; [true] if Windows does not see it. *)
Definition keyboard_hook_proc (s : input) (e : hook_env) (vk msg : Z) : input * list effect * bool :=
  let key_up := is_key_up msg in
  let '(s, active) := note_alt_tab s e vk key_up in
  let alt_down := if vk =? VK_TAB then active else alt_pressed s && h_ctrl e in
  match hook_decision vk alt_down key_up true with
  | HookPass => (s, [], false)
  | ExitImmersive =>
      let s := reset_remap (set_capture s (request_exit (capture s))) in
      (if h_sticky e then s else set_capture s (request_disconnect (capture s)), queue (h_sticky e) sticky_keys, true)
  | HookDisconnect =>
      (set_capture (reset_remap s) (request_disconnect (capture s)), queue (h_sticky e) sticky_keys, true)
  | SwallowForward =>
      if h_room e
      then (s, [Queued [key_packet (if key_up then ka_up else ka_down) (hook_modifiers s e vk) vk]], true)
      else (set_capture (reset_remap (set_alt s false false)) (request_disconnect (capture s)), queue (h_sticky e) sticky_keys, true)
  end.
End input.
