(* ===== verification/KeyHookSafe.v ===== *)
(** * What the host holds follows the keyboard (about KeyHook)

    The window procedure with its Ctrl+Tab remap against the keyboard's history: the
    keys held, and the Tab and Ctrl of a Ctrl+Tab. The pairing of the hook's Tab edges,
    the mouse position against the stream's size, and the repeat of Tab that leaves the
    key down. *)
From S2P Require Import Prelude Text Wire ByteBuffer InputWire InputWireSafe KeyRouter KeyRouterSafe KeyHook.

Section input.
Context {M : Moonlight} {L : MoonlightLaws M} {B : ModifierBits M} {MB : MouseButtons M}.

Definition packets_of (out : list effect) : list InboundPacket :=
  out ≫= fun e => match e with Queued ps => ps | _ => [] end.

(** ** The window procedure *)

(** A key message with what is reported while it is handled. *)
Record key_message := mkKeyMessage { km_msg : Z; km_vk : Z; km_env : message_env }.

Definition edge (m : key_message) : Z * bool := (km_vk m, is_key_up (km_msg m)).

(** A message to the window, or the application switching immersive capture. *)
Inductive window_op : Type := KeyOp (m : key_message) | CaptureOp (on : bool).

Definition window_step (st : input * list InboundPacket) (o : window_op) : input * list InboundPacket :=
  match o with
  | KeyOp m => let '(w, out, _) := handle st.1 (km_env m) (km_msg m) (km_vk m) 0 in (w, st.2 ++ packets_of out)
  | CaptureOp on => (set_capture st.1 (set_keyboard_capture (capture st.1) on), st.2)
  end.

Definition window_run (w : input) (os : list window_op) : input * list InboundPacket := foldl window_step (w, []) os.

(** *** The keyboard's history, newest first *)

Fixpoint pressed (hist : list window_op) : gset Z :=
  match hist with
  | [] => ∅
  | KeyOp m :: hist => held_step (pressed hist) (edge m)
  | CaptureOp _ :: hist => pressed hist
  end.

Fixpoint capturing (start : bool) (hist : list window_op) : bool :=
  match hist with
  | [] => start
  | KeyOp _ :: hist => capturing start hist
  | CaptureOp on :: _ => on
  end.

(** A Tab that goes down now is a Ctrl+Tab. *)
Definition ctrl_tab_now (start : bool) (hist : list window_op) : bool :=
  capturing start hist && bool_decide (VK_CONTROL ∈ pressed hist) && negb (bool_decide (VK_MENU ∈ pressed hist)).

(** A Tab of a Ctrl+Tab has gone down since [key] and Tab were last let go of. *)
Fixpoint taken (start : bool) (key : Z) (hist : list window_op) : bool :=
  match hist with
  | [] => false
  | CaptureOp _ :: hist => taken start key hist
  | KeyOp m :: hist =>
      if is_key_up (km_msg m) then negb ((km_vk m =? key) || (km_vk m =? VK_TAB)) && taken start key hist
      else ((km_vk m =? VK_TAB) && ctrl_tab_now start hist) || taken start key hist
  end.

(** A message that is the keyboard's, with room in the queue, no escape, Ctrl and Alt
    reported as they are held, and neither a repeat of a taken Tab under other
    modifiers nor of a taken Ctrl. *)
Definition regular (start : bool) (hist : list window_op) (o : window_op) : Prop :=
  match o with
  | CaptureOp _ => True
  | KeyOp m =>
      let e := km_env m in
      xorb (is_key_down (km_msg m)) (is_key_up (km_msg m)) = true /\ in_u16 (km_vk m) /\
      broker_active e = false /\ packet_room e = true /\ chord_room e = true /\
      ctrl_held e = bool_decide (VK_CONTROL ∈ pressed hist) /\ alt_held e = bool_decide (VK_MENU ∈ pressed hist) /\
      is_wndproc_escape (capturing start hist) (km_msg m) (km_vk m) (ctrl_held e) (alt_held e) = false /\
      is_disconnect_combo (km_msg m) (km_vk m) (ctrl_held e) (alt_held e) = false /\
      (is_key_down (km_msg m) = true -> km_vk m = VK_TAB -> taken start VK_TAB hist = true -> ctrl_tab_now start hist = true) /\
      (is_key_down (km_msg m) = true -> km_vk m = VK_CONTROL -> taken start VK_CONTROL hist = false)
  end.

Fixpoint all_regular (start : bool) (hist os : list window_op) : Prop :=
  match os with
  | [] => True
  | o :: os => regular start hist o /\ all_regular start (o :: hist) os
  end.

(** [H] is what is down at the host after the history. *)
Definition host_ok (start : bool) (hist : list window_op) (H : gset Z) : Prop :=
  forall k, k ∈ H <-> k ∈ pressed hist /\ ~ (k = VK_TAB /\ taken start VK_TAB hist = true) /\ ~ (k = VK_CONTROL /\ taken start VK_CONTROL hist = true).

Record window_ok (start : bool) (hist : list window_op) (w : input) (H : gset Z) : Prop := {
  wo_capture : keyboard_capture (capture w) = capturing start hist;
  wo_tab : tab_down (remap w) = taken start VK_TAB hist;
  wo_ctrl : ctrl_suppressed (remap w) = taken start VK_CONTROL hist;
  wo_host : host_ok start hist H
}.

Lemma effect_key_down s m k : in_u16 k -> key_effect s (key_packet ka_down m k) = {[k]} ∪ s.
Proof. apply effect_down. Qed.

Lemma effect_key_up s m k : in_u16 k -> key_effect s (key_packet ka_up m k) = s ∖ {[k]}.
Proof. apply effect_up. Qed.

Lemma key_msg_cases msg : xorb (is_key_down msg) (is_key_up msg) = true -> msg = WM_KEYDOWN \/ msg = WM_SYSKEYDOWN \/ msg = WM_KEYUP \/ msg = WM_SYSKEYUP.
Proof.
  unfold is_key_down, is_key_up. intros H. destruct (Z.eqb_spec msg WM_KEYDOWN), (Z.eqb_spec msg WM_SYSKEYDOWN), (Z.eqb_spec msg WM_KEYUP), (Z.eqb_spec msg WM_SYSKEYUP); auto; done.
Qed.

(** A key message is forwarded as one packet of its key. *)
Lemma forward_key w e msg vk : xorb (is_key_down msg) (is_key_up msg) = true -> packet_room e = true ->
  forward w e msg vk 0 = (w, [Queued [key_packet (if is_key_up msg then ka_up else ka_down) (current_modifiers e) vk]], Some 0).
Proof. intros H Hr. unfold forward, queue. rewrite Hr. by apply key_msg_cases in H as [ ->|[ ->|[ ->| ->]]]. Qed.

(** What a regular message does: the remap's answer, or the key itself. *)
Lemma handle_regular start hist w m : keyboard_capture (capture w) = capturing start hist -> regular start hist (KeyOp m) ->
  let e := km_env m in
  let '(r, action) := remap_handle (remap w) (capturing start hist) (km_msg m) (km_vk m) (ctrl_held e) (alt_held e) (shift_held e) in
  handle w e (km_msg m) (km_vk m) 0 =
    (set_remap w r, [Queued (default [key_packet (if is_key_up (km_msg m) then ka_up else ka_down) (current_modifiers e) (km_vk m)] action)], Some 0).
Proof.
  intros Hcap (Hk & Hv & Hb & Hp & Hc & _ & _ & He & Hd & _ & _). cbn zeta.
  assert (Eh : handle w (km_env m) (km_msg m) (km_vk m) 0 = handle_keys w (km_env m) (km_msg m) (km_vk m) 0).
  { pose proof (key_msg_cases _ Hk) as [E|[E|[E|E]]]; rewrite E; unfold handle; cbn [Z.eqb Pos.eqb WM_KEYDOWN WM_SYSKEYDOWN WM_KEYUP WM_SYSKEYUP
      WM_SETCURSOR WM_MOUSEMOVE WM_INPUT WM_KILLFOCUS andb app]; by destruct (handle_keys _ _ _ _ _) as [[? ?] ?]. }
  rewrite Eh. unfold handle_keys. rewrite wrap16_id, Hcap, He, Hd, Hb by done. destruct (remap_handle _ _ _ _ _ _ _) as [r [ps|]].
  - by rewrite Hc.
  - rewrite forward_key by done. done.
Qed.

Lemma key_ranges : in_u16 VK_TAB /\ in_u16 VK_CONTROL /\ in_u16 VK_MENU /\ VK_TAB <> VK_CONTROL /\ VK_TAB <> VK_MENU /\ VK_CONTROL <> VK_MENU.
Proof. unfold in_u. by vm_compute. Qed.

Ltac by_keys k :=
  destruct (decide (k = VK_TAB)) as [ ->|]; [|destruct (decide (k = VK_CONTROL)) as [ ->|]]; intuition congruence.

Ltac effects := repeat first [rewrite effect_key_down by done | rewrite effect_key_up by done].

Lemma chord_effect H c : VK_MENU ∉ H -> foldl key_effect H (alt_tab_chord c) = H ∖ {[VK_TAB]}.
Proof.
  intros Hm. destruct key_ranges as (R1 & R2 & R3 & _). unfold alt_tab_chord. cbn [foldl]. effects. apply set_eq. intros k.
  rewrite !elem_of_difference, !elem_of_union, !elem_of_singleton.
  destruct (decide (k = VK_MENU)) as [ ->|]; tauto.
Qed.

Lemma taken_tab start hist : taken start VK_CONTROL hist = true -> taken start VK_TAB hist = true.
Proof.
  destruct key_ranges as (_ & _ & _ & N & _). induction hist as [|[m|on] hist IH]; cbn [taken]; [done| |done].
  destruct (is_key_up (km_msg m)); [|intros [ ->|H]%orb_true_iff; [done|rewrite (IH H); apply orb_true_r]].
  intros [[H1 H2]%negb_true_iff%orb_false_iff H]%andb_true_iff. by rewrite H2, (IH H).
Qed.

(** The remap's state and the host's keys after an event, in one step. *)
Lemma remap_tracks start hist w H m (cap := capturing start hist) (e := km_env m) (up := is_key_up (km_msg m)) :
  regular start hist (KeyOp m) -> window_ok start hist w H ->
  let '(r, action) := remap_handle (remap w) cap (km_msg m) (km_vk m) (ctrl_held e) (alt_held e) (shift_held e) in
  tab_down r = taken start VK_TAB (KeyOp m :: hist) /\ ctrl_suppressed r = taken start VK_CONTROL (KeyOp m :: hist) /\
  host_ok start (KeyOp m :: hist)
    (foldl key_effect H (default [key_packet (if up then ka_up else ka_down) (current_modifiers e) (km_vk m)] action)).
Proof.
  intros (Hk & Hv & _ & _ & _ & Hctl & Halt & _ & _ & Htab & Hcd) [Hcap Ht Hc Hok].
  pose proof (taken_tab start hist) as Hct. destruct key_ranges as (R1 & R2 & R3 & N1 & N2 & N3).
  unfold remap_handle, host_ok in *. cbn [taken pressed]. fold cap. unfold edge, held_step. cbn [fst snd].
  assert (Enow : ctrl_tab_now start hist = cap && ctrl_held e && negb (alt_held e)) by (unfold ctrl_tab_now, e; by rewrite Hctl, Halt).
  rewrite Enow in *. destruct (remap w) as [T' C']. cbn [tab_down ctrl_suppressed] in *. subst T' C'. clear Hcap.
  assert (Hud : is_key_down (km_msg m) = negb up) by (subst up; by destruct (is_key_down (km_msg m)), (is_key_up (km_msg m))).
  fold up. fold e in Hctl, Halt, Enow. rewrite Hud in *. clearbody up cap e. generalize dependent (km_vk m). intros vk.
  set (T := taken start VK_TAB hist) in *. set (C := taken start VK_CONTROL hist) in *. clearbody T C. intros. rewrite Hctl, Halt in *.
  set (P := pressed hist) in *. clearbody P. assert (Hm : VK_MENU ∈ H <-> VK_MENU ∈ P) by (rewrite (Hok VK_MENU); intuition congruence).
  destruct (Z.eqb_spec vk VK_CONTROL) as [ ->|Hc]; [|destruct (Z.eqb_spec vk VK_TAB) as [ ->|Ht]].
  - rewrite (proj2 (Z.eqb_neq VK_CONTROL VK_TAB)) by congruence. cbn [andb orb negb]. destruct up; cbn [negb andb] in *.
    + split_and!; [done..|]. cbn [default from_option foldl id]. effects. intros k. specialize (Hok k).
      rewrite !elem_of_difference, elem_of_singleton, Hok. by_keys k.
    + rewrite Hcd in * by done. split_and!; [done..|]. cbn [default from_option foldl id]. effects. intros k. specialize (Hok k).
      rewrite !elem_of_union, elem_of_singleton, Hok. by_keys k.
  - cbn [andb orb negb]. destruct up; cbn [negb andb orb] in *.
    + destruct T; cbn [tab_down ctrl_suppressed].
      * split_and!; [done..|]. cbn [default from_option id]. intros k. specialize (Hok k).
        destruct C; cbn [andb]; [destruct (bool_decide_reflect (VK_CONTROL ∈ P)) as [Hch|Hch]|]; cbn [foldl]; effects;
          rewrite ?elem_of_union, ?elem_of_difference, ?elem_of_singleton, Hok; by_keys k.
      * destruct C; [by specialize (Hct eq_refl)|]. split_and!; [done..|]. cbn [default from_option foldl id]. effects. intros k. specialize (Hok k).
        rewrite !elem_of_difference, elem_of_singleton, Hok. by_keys k.
    + destruct (cap && bool_decide (VK_CONTROL ∈ P) && negb (bool_decide (VK_MENU ∈ P))) eqn:Ec; cbn [orb tab_down ctrl_suppressed].
      * apply andb_true_iff in Ec as [[Ec1 Ec2%bool_decide_eq_true]%andb_true_iff Ea%negb_true_iff%bool_decide_eq_false].
        split_and!; [done..|]. cbn [default from_option id]. rewrite foldl_app.
        assert (Hn : VK_MENU ∉ H) by tauto.
        destruct C; cbn [foldl]; effects; (rewrite chord_effect by set_solver); intros k; specialize (Hok k);
          rewrite ?elem_of_union, ?elem_of_difference, ?elem_of_singleton, Hok; destruct T; by_keys k.
      * destruct T; [by specialize (Htab eq_refl eq_refl eq_refl)|]. split_and!; [done..|]. cbn [default from_option foldl id]. effects.
        intros k. specialize (Hok k). rewrite !elem_of_union, elem_of_singleton, Hok. by_keys k.
  - cbn [andb orb negb]. split_and!; [by destruct up..|]. cbn [default from_option foldl id]. destruct up; cbn [andb negb]; effects; intros k; specialize (Hok k).
    + rewrite !elem_of_difference, elem_of_singleton, Hok. by_keys k.
    + rewrite !elem_of_union, elem_of_singleton, Hok. by_keys k.
Qed.

Lemma window_step_ok start hist w H o : regular start hist o -> window_ok start hist w H ->
  window_ok start (o :: hist) (window_step (w, []) o).1 (foldl key_effect H (window_step (w, []) o).2).
Proof.
  intros Hr Hok. destruct o as [m|on]; [|destruct Hok as [H1 H2 H3 H4]; by split].
  pose proof (remap_tracks start hist w H m Hr Hok) as Ht. pose proof (handle_regular start hist w m (wo_capture _ _ _ _ Hok) Hr) as Hh.
  cbv zeta in *. destruct (remap_handle _ _ _ _ _ _ _) as [r action]. unfold window_step. cbn [fst snd]. rewrite Hh. cbn [fst snd packets_of mbind list_bind app].
  rewrite app_nil_r. destruct Ht as (H1 & H2 & H3). split; [|done..]. apply (wo_capture _ _ _ _ Hok).
Qed.

Lemma window_step_acc w ps o : window_step (w, ps) o = ((window_step (w, []) o).1, ps ++ (window_step (w, []) o).2).
Proof.
  unfold window_step. cbn [fst snd]. destruct o as [m|on]; [by destruct (handle w _ _ _ _) as [[w' out] res]|]. cbn [fst snd]. by rewrite app_nil_r.
Qed.

Lemma window_run_ok start hist w ps os : all_regular start hist os -> window_ok start hist w (keys_down ps) ->
  let '(w', ps') := foldl window_step (w, ps) os in window_ok start (rev os ++ hist) w' (keys_down ps').
Proof.
  revert w hist ps. induction os as [|o os IH]; intros w hist ps Hr Hok; [done|]. destruct Hr as [Ho Hr]. cbn [foldl rev].
  rewrite window_step_acc, <- app_assoc. apply IH; [done|]. unfold keys_down. rewrite foldl_app. by apply window_step_ok.
Qed.


(** ** The hook *)

(** An event of the hook: the key, the message, what is reported. *)
Definition hook_event : Type := Z * Z * hook_env.

Definition hook_run (s : input) (es : list hook_event) : input :=
  foldl (fun s e => (keyboard_hook_proc s e.2 e.1.1 e.1.2).1.1) s es.

Definition is_escape (s : input) (e : hook_env) (vk msg : Z) : bool :=
  negb (is_key_up msg) && ((vk =? VK_Q) || (vk =? VK_OEM_3)) && alt_pressed s && h_ctrl e.

(** The hook forwards an edge exactly when it keeps it from Windows, once and with
    its own action; the edges of Alt and of the Windows keys are always kept. *)
Lemma hook_once s e vk msg : xorb (is_key_down msg) (is_key_up msg) = true -> h_room e = true -> is_escape s e vk msg = false ->
  let '(s', out, swallowed) := keyboard_hook_proc s e vk msg in
  (exists m, out = if (swallowed : bool) then [Queued [key_packet (if is_key_up msg then ka_up else ka_down) m vk]] else []) /\
  ((is_alt_key vk || (vk =? VK_LWIN) || (vk =? VK_RWIN)) = true -> swallowed = true) /\
  capture s' = capture s /\ (vk =? VK_TAB = false -> alt_tab_active s' = alt_tab_active s).
Proof.
  intros Hk Hr He. unfold keyboard_hook_proc. unfold is_escape in He. unfold note_alt_tab.
  assert (Hna : (vk =? VK_Q) || (vk =? VK_OEM_3) = true -> is_alt_key vk = false).
  { unfold is_alt_key, VK_MENU, VK_LMENU, VK_RMENU, VK_Q, VK_OEM_3. intros H. apply orb_false_iff. split; [apply orb_false_iff; split|]; apply Z.eqb_neq; lia. }
  assert (Hnw : (vk =? VK_Q) || (vk =? VK_OEM_3) = true -> (vk =? VK_LWIN) || (vk =? VK_RWIN) = false).
  { unfold VK_LWIN, VK_RWIN, VK_Q, VK_OEM_3. intros H. apply orb_false_iff. split; apply Z.eqb_neq; lia. }
  assert (Hnt : (vk =? VK_Q) || (vk =? VK_OEM_3) = true -> vk =? VK_TAB = false).
  { unfold VK_TAB, VK_Q, VK_OEM_3. intros H. apply Z.eqb_neq. lia. }
  destruct (vk =? VK_TAB) eqn:Et.
  - assert (Ev : vk = VK_TAB) by lia. subst vk. unfold hook_decision. cbn [negb andb Z.eqb Pos.eqb VK_TAB VK_Q VK_OEM_3 is_alt_key VK_MENU VK_LMENU VK_RMENU VK_LWIN VK_RWIN orb].
    destruct (negb (is_key_up msg)); [|destruct (tracked_alt_state _ _ _)]; rewrite ?andb_true_l;
      [destruct (tracked_alt_state _ _ _ || llkhf_altdown e)| |destruct (alt_tab_active s)]; rewrite ?Hr; (split; [by eexists|by split_and!]) || (split; [by exists km_empty|by split_and!]).
  - unfold hook_decision. cbn [negb]. rewrite Et, andb_false_l, orb_false_r. destruct ((vk =? VK_Q) || (vk =? VK_OEM_3)) eqn:Eq.
    + specialize (Hna eq_refl). specialize (Hnw eq_refl). unfold tracked_alt_state. rewrite Hna, <- orb_assoc, Hnw. cbn [alt_pressed set_alt].
      rewrite andb_true_r in He. assert (Hx : negb (is_key_up msg) && (alt_pressed s && h_ctrl e) = false) by (by rewrite andb_assoc).
      destruct (vk =? VK_Q); [rewrite Hx; split; [by exists km_empty|by split_and!]|]. cbn [orb] in Eq. rewrite Eq, Hx. split; [by exists km_empty|by split_and!].
    + apply orb_false_iff in Eq as [-> ->]. destruct (is_alt_key vk || (vk =? VK_LWIN) || (vk =? VK_RWIN)); rewrite ?Hr;
        [split; [by eexists|by split_and!]|split; [by exists km_empty|by split_and!]].
Qed.

(** No Tab, room in the queue, no escape. *)
Definition other_event (s : input) (e : hook_event) : Prop :=
  xorb (is_key_down e.1.2) (is_key_up e.1.2) = true /\ e.1.1 <> VK_TAB /\ h_room e.2 = true /\ is_escape s e.2 e.1.1 e.1.2 = false.

Fixpoint other_events (s : input) (es : list hook_event) : Prop :=
  match es with
  | [] => True
  | e :: es => other_event s e /\ other_events (keyboard_hook_proc s e.2 e.1.1 e.1.2).1.1 es
  end.

Lemma other_events_keep s es : other_events s es -> alt_tab_active (hook_run s es) = alt_tab_active s.
Proof.
  revert s. induction es as [|[[vk msg] e] es IH]; intros s H; [done|]. destruct H as [(Hk & Ht & Hr & He) H]. cbn [hook_run foldl fst snd] in *.
  fold (hook_run (keyboard_hook_proc s e vk msg).1.1 es). rewrite IH by done.
  pose proof (hook_once s e vk msg Hk Hr He) as Ho. destruct (keyboard_hook_proc s e vk msg) as [[s' out] sw]. cbn [fst]. apply Ho. by apply Z.eqb_neq.
Qed.

(** A Tab that Windows has not seen go down is not seen to come up, whatever other
    keys change in between, Alt among them. *)
Theorem hook_tab_paired s e1 msg1 es e2 msg2 (s1 := (keyboard_hook_proc s e1 VK_TAB msg1).1.1) :
  is_key_down msg1 = true -> is_key_up msg1 = false -> is_key_up msg2 = true -> h_room e1 = true -> other_events s1 es ->
  (keyboard_hook_proc s e1 VK_TAB msg1).2 = true -> (keyboard_hook_proc (hook_run s1 es) e2 VK_TAB msg2).2 = true.
Proof.
  intros Hd Hu1 Hu2 Hr Hes Hsw. assert (Ha : alt_tab_active s1 = true).
  { subst s1. unfold keyboard_hook_proc, note_alt_tab, hook_decision in *. cbn [negb andb Z.eqb Pos.eqb VK_TAB VK_Q VK_OEM_3 is_alt_key VK_MENU VK_LMENU VK_RMENU VK_LWIN VK_RWIN orb] in *.
    rewrite Hu1 in *. cbn [negb] in *. destruct (tracked_alt_state _ _ _ || llkhf_altdown e1); [|done]. by rewrite Hr. }
  rewrite <- (other_events_keep s1 es Hes) in Ha. set (s2 := hook_run s1 es) in *. clearbody s2.
  unfold keyboard_hook_proc, note_alt_tab, hook_decision. cbn [negb andb Z.eqb Pos.eqb VK_TAB VK_Q VK_OEM_3 is_alt_key VK_MENU VK_LMENU VK_RMENU VK_LWIN VK_RWIN orb].
  rewrite Hu2, Ha. cbn [negb]. destruct (tracked_alt_state _ _ _); cbn [andb]; by destruct (h_room e2).
Qed.

(** ** The mouse *)

Lemma signed_small x : 0 <= x < 32768 -> signed 16 x = x.
Proof. intros H. unfold signed. change (2 ^ (16 - 1)) with 32768. destruct (Z.ltb_spec x 32768); [done|lia]. Qed.

Lemma scaled_bound x n w : 0 < w -> 0 < n < 32768 ->
  let v := signed 16 (wrap 16 (Z.quot (Z.max 0 (Z.min (w - 1) x) * n) w)) in 0 <= v < n.
Proof.
  intros Hw Hn v. set (y := Z.max 0 (Z.min (w - 1) x)) in *. assert (Hy : 0 <= y <= w - 1) by lia. clearbody y.
  assert (Hq : 0 <= Z.quot (y * n) w < n).
  { rewrite Z.quot_div_nonneg by nia. split; [apply Z.div_pos; nia|]. apply Z.div_lt_upper_bound; nia. }
  subst v. rewrite wrap16_id by (unfold in_u; lia). rewrite signed_small; lia.
Qed.

(** A position that is sent lies in the stream, whose sizes it carries, wherever the
    pointer was dragged. *)
Theorem mouse_position_in_stream wparam lparam vp m p :
  0 <= stream_w vp < 32768 -> 0 <= stream_h vp < 32768 ->
  translate WM_MOUSEMOVE wparam lparam vp m = Some p ->
  exists x y, p = MousePosition x y (stream_w vp) (stream_h vp) /\ 0 <= x < stream_w vp /\ 0 <= y < stream_h vp.
Proof.
  intros Hw Hh. unfold translate. cbn [Z.eqb Pos.eqb WM_MOUSEMOVE].
  destruct (Z.eqb_spec (stream_w vp) 0), (Z.eqb_spec (stream_h vp) 0), (Z.leb_spec (client_w vp) 0), (Z.leb_spec (client_h vp) 0);
    cbn [orb]; intros Hm; try done. apply (inj Some) in Hm as <-. rewrite (signed_small (stream_w vp)), (signed_small (stream_h vp)) by lia. eexists _, _. split; [done|].
  split; apply scaled_bound; lia.
Qed.
End input.

(** ** Ctrl+Tab on a captured window *)

#[local] Instance two_bits : ModifierBits two_moonlight := @Build_ModifierBits two_moonlight true true true true orb.
#[local] Instance two_buttons : MouseButtons two_moonlight := @Build_MouseButtons two_moonlight true false true true false.

Definition captured_window : input := mkInput (mkCaptureShared true false false true) remap_default false false.

(** A key while Ctrl is held or not. *)
Definition key_at (ctrl : bool) (msg vk : Z) : key_message :=
  mkKeyMessage msg vk (mkMessageEnv ctrl false false (M := two_moonlight) false None (mkViewport 640 480 1920 1080) false true true true).

Definition ctrl_tab : list window_op :=
  KeyOp <$> [key_at false WM_KEYDOWN VK_CONTROL; key_at true WM_KEYDOWN VK_TAB; key_at true WM_KEYDOWN VK_TAB; key_at true WM_KEYUP VK_TAB].


(** Ctrl released before Tab while Tab repeats: the repeat is forwarded as a key of
    its own, the release is taken by the remap, and Tab stays down at the host with
    no key held. *)
Example repeated_tab_sticks :
  let os := KeyOp <$> [key_at false WM_KEYDOWN VK_CONTROL; key_at true WM_KEYDOWN VK_TAB; key_at true WM_KEYUP VK_CONTROL;
             key_at false WM_KEYDOWN VK_TAB; key_at false WM_KEYUP VK_TAB] in
  bool_decide (pressed (rev os) = ∅) = true /\
  bool_decide (keys_down (window_run captured_window os).2 = {[VK_TAB]}) = true.
Proof. split; vm_compute; reflexivity. Qed.
